(* ===== verification/_CoqProject ===== *)
-Q . S2P
Prelude.v
ListH.v
DefaultPmm.v
Hdd.v
Heap.v
Paging.v
LruStack.v
SecondChance.v
Banker.v
Mem.v
CString.v
Printfmt.v
PmmManager.v
DefaultPmmManager.v
Mmu.v
PageTable.v
DefaultCheck.v
PageTableProps.v
PmmInit.v
PmmInitProps.v
PmmPaging.v
PmmBoot.v
PmmPagingProps.v
MinHeap.v
MinHeapList.v
MinHeapProps.v
MinHeapSpec.v
Console.v
Stdio.v
ConsoleOut.v
ConsoleIn.v
ConsoleSpec.v
Scheduler.v
SchedulerQueue.v
SchedulerThreads.v
Interleave.v
Peterson.v
PetersonProps.v
ThreadPool.v
ThreadPoolProps.v
ProdCons.v
ProdConsProps.v
BbsServer.v
BbsServerProps.v
Stab.v
StabProps.v
Kmonitor.v
KmonitorProps.v
Bootmain.v
BootmainProps.v
ShmQueue.v
ShmQueueProps.v
Trap.v
TrapProps.v
ShmThreads.v
ShmThreadsProps.v
