(* ===== verification/Prelude.v ===== *)
(** * Verification of the C programs of Operating-System-Homework

    The repository is the course work of an operating systems course: a small
    teaching kernel (ucore, src/Labweek11/lab2; src/Labweek1/lab1 is an earlier
    state of it) and user programs on scheduling, paging, deadlock, heaps,
    synchronisation and sockets, one directory per week.  The development models
    the parts of them that compute something, in Rocq functions that follow the
    C code statement by statement, and proves what makes them correct.

    ** How code is modelled

    A C function is a Definition over an explicit state, in the monad [outcome]
    of this file: [Ok] a result, [Err Panic] a failed assertion of the kernel,
    [Err Undef] undefined behaviour (an access outside an array or to memory
    that is not mapped, a NULL or freed pointer, overflow of an [int]),
    [Err NoFuel] a loop of the model that ran out of fuel.  A theorem that a
    function returns [Ok] therefore also says that it ends and does nothing
    undefined.  Words are integers of [Z] with their wrap-around written out
    ([u32], [u64], [s32]; [cint] for signed arithmetic); arrays are lists read
    with [aget] and written with [aset]; what a program prints is recorded in
    its state.

    Loops are [for_range] where the counter is not changed by the body, and
    [loop] or [while] with fuel elsewhere.  The fuel is always computed from the
    state the loop starts in (the number of nodes allocated, the size of the
    array, the distance between two indices, the digits of a 64-bit word), with
    at least one iteration to spare; every theorem that states [Ok] proves with
    [loop_spec] or [while_spec] that a measure below the fuel decreases, so no
    theorem depends on a fuel that was too small.

    Threads and processes (Interleave.v, Scheduler.v, BbsServer.v) are step
    functions of one atomic action each; a run is any interleaving.

    ** The kernel (src/Labweek11/lab2)

    - ListH.v: libs/list.h, over the class of stores of [list_entry]s; [dll]
      says which entries a list links.
    - DefaultPmm.v: kern/mm/default_pmm.c, libs/atomic.h, struct Page of
      memlayout.h.  The allocator is related to the set of free blocks ([rep]);
      allocation is first fit, release merges all neighbours, and the invariant
      holds in every reachable state.  DefaultCheck.v: its self-test
      [default_check] restores the allocator, and fails after two adjacent
      regions.
    - PmmManager.v, DefaultPmmManager.v: struct pmm_manager of pmm.h as a class
      with laws, and the first-fit allocator as its instance.
    - Mmu.v: mmu.h, memlayout.h and the rounding macros of defs.h.
    - PageTable.v, PageTableProps.v: the paging part of pmm.c ([get_pte],
      [page_insert], [page_remove], [boot_map_segment], ...) against that class:
      reference counts are the numbers of mappings at user addresses, no page
      mapped for the user is free, the TLB is never stale, each call changes only
      the translation it is for.  The directory may have kernel entries above
      KERNBASE and map itself at VPT, as that of the running kernel does.
    - PmmInit.v, PmmInitProps.v: [page_init], [gdt_init] and [print_pgdir] of
      pmm.c.
    - PmmPaging.v, PmmBoot.v, PmmPagingProps.v: [check_pgdir], [check_boot_pgdir]
      and the calls of [pmm_init] around them: the self-tests pass and leave
      everything as it was (but a stale entry in the TLB), the kernel is mapped
      linearly and the invariant of PageTable.v holds.
    - Mem.v, CString.v: libs/string.c and the string instructions of x86.h on a
      byte memory.
    - Printfmt.v: libs/printfmt.c for any [putch]; a format is rendered as
      [render] says, [vsnprintf] stays in its buffer.
    - Console.v, ConsoleOut.v, ConsoleIn.v: kern/driver/console.c and picirq.c;
      the hardware behind [inb] and [outb] is a class.
    - Stdio.v, ConsoleSpec.v: kern/libs/stdio.c and readline.c on top of the
      console and of printfmt.c: what is printed appears on the screen, what is
      typed is read.
    - Stab.v, StabProps.v: kern/debug/kdebug.c and stab.h: the search for an
      address in the table of stabs, [debuginfo_eip] and what is printed from it.
    - Kmonitor.v, KmonitorProps.v: kern/debug/kmonitor.c: the words of a line and
      the commands they name.
    - Bootmain.v, BootmainProps.v: boot/bootmain.c: the segments of the kernel are
      loaded from an IDE disk, whose controller is the class [IdeLaws].
    - Trap.v, TrapProps.v: kern/trap/trap.c, kern/driver/clock.c and intr.c,
      kern/debug/panic.c: the gates, what each trap does to frame, screen, input
      and clock, on the console of ConsoleSpec.v.

    ** The programs

    - Hdd.v: src/Labweek18/HDD_scheduling.c, six disk schedulers: each request
      is served once, in the order of the algorithm, and the printed total is
      the length of the path.
    - Heap.v: nodes that programs [malloc] and [free].
    - Paging.v, LruStack.v, SecondChance.v: src/Labweek17/page_replacement.c:
      FIFO, LRU by a matrix and by a stack of nodes, second chance; each refines
      its policy, and the two versions of LRU agree.  Where [malloc] fails, the
      versions with nodes store through NULL.
    - Banker.v: src/Labweek15/alg.17-1-bankers-5.c: [safecheck] decides whether
      a state is safe, and all reachable states are.
    - MinHeap.v, MinHeapList.v, MinHeapProps.v, MinHeapSpec.v:
      src/Labweek7/SLList_MinHeap.c, a heap whose nodes are also linked into a
      list: every run that does not insert into a full heap is a run of a list
      from which the smallest is taken.
    - Scheduler.v, SchedulerQueue.v, SchedulerThreads.v:
      src/Labweek16/scheduler.c: the queue keeps the order of each of the five
      policies; with prompt signals one task executes at a time, with late
      signals the program can break.
    - Interleave.v: threads over shared memory, with the counting lemmas the
      following files share.  Peterson.v, PetersonProps.v:
      src/Labweek14/alg.15-1-peterson-counter.c.  ThreadPool.v,
      ThreadPoolProps.v: src/Labweek15/threadpools.c and, without its mutex,
      src/Labweek13/threadpools.c.  ProdCons.v, ProdConsProps.v: the three
      programs alg.18-6 to alg.18-8 of src/Labweek15.  Safety in all
      interleavings, and that all threads can always come to their end.
    - BbsServer.v, BbsServerProps.v:
      src/Labweek9/alg.11-5-socket-server-BBS-3-nickname.c, a chat server: its
      table stays well formed, nicknames stay apart, texts are delivered.  The
      buffers have their sizes: a text that does not end within 1024 characters
      is undefined.
    - ShmQueue.v, ShmQueueProps.v: shmcon.c, shmwrite.c and shmread.c of
      src/Labweek6, a circular queue between two processes: a FIFO without locks.
    - ShmThreads.v, ShmThreadsProps.v: shmread.c and shmwrite.c of src/Labweek14:
      their lock does not exclude, because the threads are numbered from 1.

    ** Assumptions

    A property with hypotheses has a witness, a concrete instance in which they
    hold.  What is not C code of the repository enters as a parameter: the
    hardware behind the ports (class [PortIO] of Console.v), the memory map of the
    BIOS, the order in which threads run and signals or messages arrive, whether
    a pipe takes a message, whether [malloc] finds memory.  Shared memory is
    sequentially consistent; calls that create threads, semaphores and processes
    succeed, but in scheduler.c, where the program exits when they fail.

    ** Not modelled

    - Programs that only call the system or print, without state of their own:
      src/Labweek2 to Labweek5, the demonstrations alg.8 of Labweek6, Labweek8,
      Labweek10, Labweek12, the connectors of Labweek9, the small demonstrations
      of Labweek15 and Labweek16.
    - kern/init/init.c, which calls the initialisations one after the other, and
      its test of the mode switches in assembler.
    - src/Labweek7/ipc-shmcon.c, the heap of SLList_MinHeap.c in shared memory.
    - src/Labweek9/alg.11-5-socket-server-BBS-3.c is the chat server without
      nicknames, src/Labweek7/list implement/ the heap with pointers.
    - Assembler (bootasm.S, entry.S, trapentry.S, vectors.S) and inline assembler
      that changes the machine (lgdt, ltr, cli and the like), apart from the
      string instructions, the TLB and the interrupt flag.
    - Inputs that programs read with scanf or draw at random: they are arguments.
    - src/Labweek1/lab1 where it is a copy of the files of lab2.
    - obj/ and bin/ (generated), tools/ (build tools).
*)

From stdpp Require Export base list numbers strings.
From Stdlib Require Import Lia.

#[global] Open Scope Z_scope.
#[global] Unset Program Cases.

(** ** Outcomes: the results of code that can fail

    [Ok a] is a normal result.  [Err Panic] is a failed [assert], a call of
    [panic] or of [exit] after an error; [Err Undef] is undefined behaviour of C (an access outside an
    array, a NULL dereference, a signed overflow); [Err NoFuel] is a loop of
    the model that ran out of the fuel it was given, which no theorem of the
    development accepts as a result. *)

Inductive fault :=
| Panic
| Undef
| NoFuel.

Inductive outcome (A : Type) :=
| Ok (a : A)
| Err (e : fault).
Arguments Ok {A} a.
Arguments Err {A} e.

#[global] Instance fault_eq_dec : EqDecision fault.
Proof. solve_decision. Defined.

#[global] Instance outcome_eq_dec {A} `{EqDecision A} : EqDecision (outcome A).
Proof. solve_decision. Defined.

#[global] Instance outcome_ret : MRet outcome := @Ok.
#[global] Instance outcome_bind : MBind outcome := λ A B f m,
  match m with Ok a => f a | Err e => Err e end.
#[global] Instance outcome_fmap : FMap outcome := λ A B f m,
  match m with Ok a => Ok (f a) | Err e => Err e end.

(** [assert(b)] of the kernel: panics when [b] does not hold. *)
Definition assert_ (b : bool) : outcome unit := if b then Ok tt else Err Panic.

(** A value C only defines when [b] holds (no overflow, inside an array). *)
Definition defined (b : bool) : outcome unit := if b then Ok tt else Err Undef.

Definition of_option {A} (o : option A) : outcome A :=
  match o with Some a => Ok a | None => Err Undef end.

(** A computation that has a result. *)
Definition is_ok {A} (m : outcome A) : Prop := ∃ a, m = Ok a.

Lemma is_ok_Ok {A} (a : A) : is_ok (Ok a).
Proof. by exists a. Qed.

(** ** Arrays: [a[i]] with a C [int] index, undefined outside the array. *)

Definition aget {A} (a : list A) (i : Z) : outcome A :=
  if decide (0 ≤ i) then of_option (a !! Z.to_nat i) else Err Undef.

Definition aset {A} (a : list A) (i : Z) (x : A) : outcome (list A) :=
  if decide (0 ≤ i < Z.of_nat (length a)) then Ok (<[Z.to_nat i := x]> a)
  else Err Undef.

(** Length of an array as a [Z]. *)
Definition zlen {A} (a : list A) : Z := Z.of_nat (length a).

Declare Scope c_scope.
Delimit Scope c_scope with c.
Notation "a .[ i ]" := (aget a i) (at level 1, left associativity, format "a .[ i ]") : c_scope.
#[global] Open Scope c_scope.

(** ** Machine integers *)

Definition u32 (z : Z) : Z := z mod 2 ^ 32.
Definition u64 (z : Z) : Z := z mod 2 ^ 64.
Definition int_min : Z := - 2 ^ 31.
Definition int_max : Z := 2 ^ 31 - 1.
(** The two's complement value of a 32-bit word. *)
Definition s32 (z : Z) : Z := (z + 2 ^ 31) mod 2 ^ 32 - 2 ^ 31.
Definition s64 (z : Z) : Z := (z + 2 ^ 63) mod 2 ^ 64 - 2 ^ 63.
(** A signed computation: its value is defined only when an [int] holds it. *)
Definition int_ok (z : Z) : bool := bool_decide (int_min ≤ z ≤ int_max).
Definition cint (z : Z) : outcome Z := if int_ok z then Ok z else Err Undef.

(** ** Loops

    [loop fuel body s] runs [body] until it answers [inr r].  Every loop of
    the programs that is not a counted [for] is written with it: [inl] is the
    next iteration ([continue]), [inr] leaves the loop ([break], [return] or
    the negated loop condition). *)

Fixpoint loop {S R} (fuel : nat) (body : S → outcome (S + R)) (s : S) : outcome R :=
  match fuel with
  | O => Err NoFuel
  | S fuel' =>
      x ← body s;
      match x with inl s' => loop fuel' body s' | inr r => Ok r end
  end.

(** [while (cond) body], the state being what the loop changes. *)
Definition while {S} (fuel : nat) (cond : S → outcome bool) (body : S → outcome S)
    (s : S) : outcome S :=
  loop fuel (λ s, c ← cond s;
    if (c : bool) then s' ← body s; Ok (inl s') else Ok (inr s)) s.

(** [for (i = lo; i < hi; i++) body] where the body does not change [i]. *)
Fixpoint for_up {S} (n : nat) (i : Z) (body : Z → S → outcome S) (s : S) : outcome S :=
  match n with
  | O => Ok s
  | S n' => s' ← body i s; for_up n' (i + 1) body s'
  end.

Definition for_range {S} (lo hi : Z) (body : Z → S → outcome S) (s : S) : outcome S :=
  for_up (Z.to_nat (hi - lo)) lo body s.

(** [Z] sums over lists. *)
Definition sumZ (l : list Z) : Z := foldr Z.add 0 l.

(** What a program prints: the literal text of a format and its arguments. *)
Inductive tok :=
| TStr (s : string)
| TInt (z : Z).

(** ** Lemmas on outcomes *)

Lemma bind_Ok {A B} (m : outcome A) (f : A → outcome B) (b : B) :
  m ≫= f = Ok b ↔ ∃ a, m = Ok a ∧ f a = Ok b.
Proof. destruct m; simpl; naive_solver. Qed.

Lemma bind_assoc {A B C} (m : outcome A) (f : A → outcome B) (g : B → outcome C) :
  (m ≫= f) ≫= g = m ≫= λ a, f a ≫= g.
Proof. by destruct m. Qed.

Lemma assert_true b : b = true → assert_ b = Ok tt.
Proof. by intros ->. Qed.

Lemma defined_true b : b = true → defined b = Ok tt.
Proof. by intros ->. Qed.

Lemma assert_Ok b u : assert_ b = Ok u ↔ b = true.
Proof. destruct b, u; naive_solver. Qed.

Lemma cint_Ok z : int_min ≤ z ≤ int_max → cint z = Ok z.
Proof. intros H. unfold cint, int_ok. by rewrite bool_decide_eq_true_2. Qed.

(** ** Lemmas on arrays *)

Lemma zlen_nonneg {A} (a : list A) : 0 ≤ zlen a.
Proof. unfold zlen. lia. Qed.

Lemma aget_Ok {A} (a : list A) i x : aget a i = Ok x ↔ 0 ≤ i ∧ a !! Z.to_nat i = Some x.
Proof.
  unfold aget. case_decide; [|naive_solver].
  destruct (a !! Z.to_nat i); simpl; naive_solver.
Qed.

Lemma aget_lookup {A} (a : list A) i x : 0 ≤ i → a !! Z.to_nat i = Some x → aget a i = Ok x.
Proof. intros ??. by apply aget_Ok. Qed.

Lemma aget_nat {A} (a : list A) (n : nat) x : a !! n = Some x → aget a (Z.of_nat n) = Ok x.
Proof. intros ?. apply aget_Ok. split; [lia|]. by rewrite Nat2Z.id. Qed.

Lemma aget_in_range {A} (a : list A) i :
  0 ≤ i < zlen a → ∃ x, aget a i = Ok x ∧ a !! Z.to_nat i = Some x.
Proof.
  unfold zlen. intros Hi.
  destruct (lookup_lt_is_Some_2 a (Z.to_nat i)) as [x Hx]; [lia|].
  exists x. split; [|done]. apply aget_lookup; [lia|done].
Qed.

Lemma aget_range {A} (a : list A) i x : aget a i = Ok x → 0 ≤ i < zlen a.
Proof.
  intros [? H]%aget_Ok. apply lookup_lt_Some in H. unfold zlen. lia.
Qed.

Lemma aset_Ok {A} (a : list A) i x :
  0 ≤ i < zlen a → aset a i x = Ok (<[Z.to_nat i := x]> a).
Proof. intros H. unfold aset. by rewrite decide_True. Qed.

Lemma aset_inv {A} (a a' : list A) i x :
  aset a i x = Ok a' → 0 ≤ i < zlen a ∧ a' = <[Z.to_nat i := x]> a.
Proof. unfold aset, zlen. case_decide; naive_solver. Qed.

Lemma zlen_insert {A} (a : list A) n x : zlen (<[n := x]> a) = zlen a.
Proof. unfold zlen. by rewrite length_insert. Qed.

Lemma aget_insert_eq {A} (a : list A) i x :
  0 ≤ i < zlen a → aget (<[Z.to_nat i := x]> a) i = Ok x.
Proof.
  intros H. apply aget_lookup; [lia|].
  apply list_lookup_insert_eq. unfold zlen in H. lia.
Qed.

Lemma aget_insert_ne {A} (a : list A) i j x :
  0 ≤ i → i ≠ j → aget (<[Z.to_nat i := x]> a) j = aget a j.
Proof.
  intros Hi Hij. unfold aget. case_decide; [|done].
  rewrite list_lookup_insert_ne; [done|]. intros E. lia.
Qed.

Lemma aget_insert {A} (a : list A) i j x :
  0 ≤ i < zlen a → aget (<[Z.to_nat i := x]> a) j = if decide (j = i) then Ok x else aget a j.
Proof.
  intros Hi. case_decide as Hd; [subst; by apply aget_insert_eq|].
  apply aget_insert_ne; [lia|done].
Qed.

Lemma aget_fmap {A B} (f : A → B) (a : list A) i : aget (f <$> a) i = f <$> aget a i.
Proof.
  unfold aget. case_decide; [|done]. rewrite list_lookup_fmap.
  by destruct (a !! Z.to_nat i).
Qed.

Lemma zlen_fmap {A B} (f : A → B) (a : list A) : zlen (f <$> a) = zlen a.
Proof. unfold zlen. by rewrite length_fmap. Qed.

Lemma fmap_Ok {A B} (f : A → B) (m : outcome A) b : f <$> m = Ok b ↔ ∃ a, m = Ok a ∧ b = f a.
Proof. destruct m; simpl; naive_solver. Qed.

(** ** Lemmas on lists *)

#[global] Instance zlen_perm {A} : Proper ((≡ₚ) ==> (=)) (@zlen A).
Proof. intros l k Hp. unfold zlen. by rewrite Hp. Qed.

Lemma zlen_app {A} (l k : list A) : zlen (l ++ k) = zlen l + zlen k.
Proof. unfold zlen. rewrite length_app. lia. Qed.

Lemma zlen_cons {A} (x : A) l : zlen (x :: l) = zlen l + 1.
Proof. unfold zlen. cbn [length]. lia. Qed.

Lemma NoDup_perm {A} (l k : list A) : l ≡ₚ k → NoDup l → NoDup k.
Proof. by intros ->. Qed.

Lemma filter_all {A} (P : A → Prop) `{!∀ x, Decision (P x)} (l : list A) :
  Forall P l → filter P l = l.
Proof. induction 1; [done|]. rewrite filter_cons_True by done. by f_equal. Qed.

Lemma filter_none {A} (P : A → Prop) `{!∀ x, Decision (P x)} (l : list A) :
  Forall (λ x, ¬ P x) l → filter P l = [].
Proof. induction 1; [done|]. by rewrite filter_cons_False. Qed.

Lemma Forall_filter {A} (Q P : A → Prop) `{!∀ x, Decision (P x)} (l : list A) :
  Forall Q l → Forall Q (filter P l).
Proof. rewrite !Forall_forall. intros HQ x [_ Hx]%list_elem_of_filter. auto. Qed.

(** ** Lemmas on loops *)

(** Total correctness of a loop: an invariant [I] that every iteration keeps
    while a measure [m] decreases, and a postcondition [Q] every exit
    establishes.  With more fuel than the measure the loop returns. *)
Lemma loop_spec {S R} (I : S → Prop) (Q : R → Prop) (m : S → nat)
    (body : S → outcome (S + R)) :
  (∀ s, I s → ∃ x, body s = Ok x ∧
     match x with inl s' => I s' ∧ (m s' < m s)%nat | inr r => Q r end) →
  ∀ fuel s, I s → (m s < fuel)%nat → ∃ r, loop fuel body s = Ok r ∧ Q r.
Proof.
  intros Hbody fuel. induction fuel as [|fuel IH]; intros s HI Hm; [lia|].
  destruct (Hbody s HI) as ([s'|r] & Heq & Hx); simpl; rewrite Heq; simpl.
  - destruct Hx. apply IH; [done|lia].
  - by exists r.
Qed.

Lemma while_spec {S} (I : S → Prop) (Q : S → Prop) (m : S → nat)
    (cond : S → outcome bool) (body : S → outcome S) :
  (∀ s, I s → ∃ c, cond s = Ok c ∧
     if c then ∃ s', body s = Ok s' ∧ I s' ∧ (m s' < m s)%nat else Q s) →
  ∀ fuel s, I s → (m s < fuel)%nat → ∃ s', while fuel cond body s = Ok s' ∧ Q s'.
Proof.
  intros Hb fuel s HI Hm. unfold while. eapply (loop_spec I Q m); [|done|done].
  intros s0 HI0. destruct (Hb s0 HI0) as ([|] & Hc & H); rewrite Hc; simpl.
  - destruct H as (s' & -> & ? & ?). simpl. by exists (inl s').
  - by exists (inr s0).
Qed.

(** One unfolding of a loop, and more fuel than needed changes nothing. *)
Lemma loop_unfold {S R} fuel (body : S → outcome (S + R)) s :
  loop (Datatypes.S fuel) body s =
    x ← body s; match x with inl s' => loop fuel body s' | inr r => Ok r end.
Proof. done. Qed.

Lemma loop_more_fuel {S R} fuel fuel' (body : S → outcome (S + R)) s r :
  loop fuel body s = Ok r → (fuel ≤ fuel')%nat → loop fuel' body s = Ok r.
Proof.
  revert fuel' s. induction fuel as [|fuel IH]; intros fuel' s H Hle; [done|].
  destruct fuel' as [|fuel']; [lia|]. simpl in *.
  destruct (body s) as [[s'|r']|e]; simpl in *; [|done|done].
  apply IH; [done|lia].
Qed.

Lemma while_unfold {S} fuel (cond : S → outcome bool) (body : S → outcome S) s :
  while (Datatypes.S fuel) cond body s =
    c ← cond s; if (c : bool) then s' ← body s; while fuel cond body s' else Ok s.
Proof.
  unfold while. simpl. destruct (cond s) as [[|]|]; simpl; [|done|done].
  by destruct (body s).
Qed.

#[global] Arguments loop : simpl never.
#[global] Arguments while : simpl never.

Lemma for_up_spec {S} (I : Z → S → Prop) (body : Z → S → outcome S) n lo s :
  I lo s →
  (∀ i s, lo ≤ i < lo + Z.of_nat n → I i s → ∃ s', body i s = Ok s' ∧ I (i + 1) s') →
  ∃ s', for_up n lo body s = Ok s' ∧ I (lo + Z.of_nat n) s'.
Proof.
  revert lo s. induction n as [|n IH]; intros lo s HI Hb; simpl.
  - exists s. split; [done|]. by rewrite Z.add_0_r.
  - destruct (Hb lo s) as (s1 & -> & HI1); [lia|done|]. simpl.
    destruct (IH (lo + 1) s1 HI1) as (s2 & -> & HI2).
    + intros i s0 Hi. apply Hb. lia.
    + exists s2. split; [done|]. by replace (lo + Z.of_nat (Datatypes.S n))
        with (lo + 1 + Z.of_nat n) by lia.
Qed.

Lemma for_range_spec {S} (I : Z → S → Prop) (body : Z → S → outcome S) lo hi s :
  lo ≤ hi → I lo s →
  (∀ i s, lo ≤ i < hi → I i s → ∃ s', body i s = Ok s' ∧ I (i + 1) s') →
  ∃ s', for_range lo hi body s = Ok s' ∧ I hi s'.
Proof.
  intros Hle HI Hb. unfold for_range.
  destruct (for_up_spec I body (Z.to_nat (hi - lo)) lo s HI) as (s' & -> & H).
  - intros i s0 Hi. apply Hb. lia.
  - exists s'. split; [done|]. by replace (lo + Z.of_nat (Z.to_nat (hi - lo))) with hi in H by lia.
Qed.

(** Fixed-size [for] loops unfold one iteration at a time. *)
Lemma for_range_step {S} lo hi (body : Z → S → outcome S) s :
  lo < hi → for_range lo hi body s = s' ← body lo s; for_range (lo + 1) hi body s'.
Proof.
  intros H. unfold for_range.
  by replace (Z.to_nat (hi - lo)) with (Datatypes.S (Z.to_nat (hi - (lo + 1)))) by lia.
Qed.

Lemma for_range_nil {S} lo hi (body : Z → S → outcome S) s :
  hi ≤ lo → for_range lo hi body s = Ok s.
Proof. intros H. unfold for_range. by replace (Z.to_nat (hi - lo)) with O by lia. Qed.

Lemma for_up_app {S} n m lo (body : Z → S → outcome S) s :
  for_up (n + m) lo body s = s' ← for_up n lo body s; for_up m (lo + Z.of_nat n) body s'.
Proof.
  revert lo s. induction n as [|n IH]; intros lo s; simpl; [by rewrite Z.add_0_r|].
  destruct (body lo s) as [s1|]; simpl; [|done]. rewrite IH.
  by replace (lo + 1 + Z.of_nat n) with (lo + Z.of_nat (Datatypes.S n)) by lia.
Qed.

Lemma for_range_app {S} lo mid hi (body : Z → S → outcome S) s :
  lo ≤ mid ≤ hi →
  for_range lo hi body s = s' ← for_range lo mid body s; for_range mid hi body s'.
Proof.
  intros H. unfold for_range.
  replace (Z.to_nat (hi - lo)) with (Z.to_nat (mid - lo) + Z.to_nat (hi - mid))%nat by lia.
  rewrite for_up_app. by replace (lo + Z.of_nat (Z.to_nat (mid - lo))) with mid by lia.
Qed.

#[global] Arguments for_range : simpl never.

(** A [for] loop over the elements of an array is a fold. *)
Fixpoint mfold {A S} (f : A → S → outcome S) (l : list A) (s : S) : outcome S :=
  match l with [] => Ok s | x :: l' => s' ← f x s; mfold f l' s' end.

Lemma aget_app_middle {A} (pre l : list A) x : aget (pre ++ x :: l) (zlen pre) = Ok x.
Proof. apply aget_nat. by apply list_lookup_middle. Qed.

Lemma for_up_fold {A S} (f : A → S → outcome S) (pre l : list A) s :
  for_up (length l) (zlen pre) (λ i s, x ← aget (pre ++ l) i; f x s) s = mfold f l s.
Proof.
  revert pre s. induction l as [|x l IH]; intros pre s; [done|].
  cbn [length for_up mfold]. rewrite aget_app_middle. simpl. destruct (f x s) as [s1|]; simpl; [|done].
  rewrite <-(IH (pre ++ [x])), zlen_app. by rewrite <-(assoc_L (++)).
Qed.

Lemma for_range_fold {A S} (f : A → S → outcome S) (l : list A) s :
  for_range 0 (zlen l) (λ i s, x ← aget l i; f x s) s = mfold f l s.
Proof.
  unfold for_range. rewrite Z.sub_0_r. unfold zlen. rewrite Nat2Z.id.
  apply (for_up_fold f [] l s).
Qed.

(** ** Simulations between computations

    [osim Q x y]: when [x] has a result, so has [y], and [Q] relates them.
    The rules follow the structure of the code. *)

Definition osim {A B} (Q : A → B → Prop) (x : outcome A) (y : outcome B) : Prop :=
  ∀ a, x = Ok a → ∃ b, y = Ok b ∧ Q a b.

Definition sum_sim {A B A' B'} (R : A → B → Prop) (Q : A' → B' → Prop)
    (x : A + A') (y : B + B') : Prop :=
  match x, y with inl a, inl b => R a b | inr a, inr b => Q a b | _, _ => False end.

Lemma osim_ret {A B} (Q : A → B → Prop) a b : Q a b → osim Q (Ok a) (Ok b).
Proof. intros H a' [= <-]. eauto. Qed.

Lemma osim_err {A B} (Q : A → B → Prop) e y : osim Q (Err e) y.
Proof. by intros a. Qed.

Lemma osim_refl {A} (x : outcome A) : osim eq x x.
Proof. intros a Ha. eauto. Qed.

Lemma osim_bind {A B A' B'} (Q : A → B → Prop) (Q' : A' → B' → Prop) x y f g :
  osim Q x y → (∀ a b, Q a b → osim Q' (f a) (g b)) → osim Q' (x ≫= f) (y ≫= g).
Proof.
  intros Hx Hf c (a & Ha & Hc)%bind_Ok. destruct (Hx a Ha) as (b & -> & HQ). by eapply Hf.
Qed.

Lemma osim_loop {A B A' B'} (R : A → B → Prop) (Q : A' → B' → Prop) n n' f g a b :
  (∀ a b, R a b → osim (sum_sim R Q) (f a) (g b)) → (n ≤ n')%nat → R a b →
  osim Q (loop n f a) (loop n' g b).
Proof.
  intros Hfg. revert n' a b. induction n as [|n IH]; intros n' a b Hle HR; [apply osim_err|].
  destruct n' as [|n']; [lia|]. rewrite !loop_unfold.
  apply (osim_bind _ _ _ _ _ _ (Hfg a b HR)).
  intros [a1|a1] [b1|b1] H1; try done; [apply IH; [lia|done]|by apply osim_ret].
Qed.

(** ** Lemmas on sums *)

Lemma sumZ_app l1 l2 : sumZ (l1 ++ l2) = sumZ l1 + sumZ l2.
Proof. induction l1; simpl; [done|]. unfold sumZ in *. lia. Qed.

Lemma sumZ_cons x l : sumZ (x :: l) = x + sumZ l.
Proof. done. Qed.

Lemma sumZ_nonneg l : Forall (λ x, 0 ≤ x) l → 0 ≤ sumZ l.
Proof. induction 1; rewrite ?sumZ_cons; simpl in *; [done|lia]. Qed.

#[global] Instance sumZ_perm : Proper ((≡ₚ) ==> (=)) sumZ.
Proof. induction 1; rewrite ?sumZ_cons in *; lia. Qed.

(** ** Machine integers *)

Lemma u32_small z : 0 ≤ z < 2 ^ 32 → u32 z = z.
Proof. apply Z.mod_small. Qed.

Lemma u32_range z : 0 ≤ u32 z < 2 ^ 32.
Proof. by apply Z.mod_pos_bound. Qed.

Lemma s32_small z : int_min ≤ z ≤ int_max → s32 z = z.
Proof. unfold s32, int_min, int_max. intros H. rewrite Z.mod_small; lia. Qed.

(** ** Automation

    [osimp] runs the outcome monad forward: it replaces a computation by its
    known result and steps through the bind.  [oinv H] runs it backward. *)

Create HintDb outcome.
Create Rewrite HintDb arrays.
#[export] Hint Rewrite @aget_insert_eq @aset_Ok @zlen_insert using (rewrite ?zlen_insert; lia) : arrays.
#[export] Hint Resolve assert_true defined_true cint_Ok : outcome.

Ltac osimp :=
  repeat first
    [ progress simpl
    | match goal with
      | H : ?m = Ok _ |- context [?m ≫= _] => rewrite H
      end ].

Ltac bind_inv H :=
  let a := fresh "x" in let E := fresh "E" in
  apply bind_Ok in H as (a & E & H).

(** Closes a goal by [lia] after moving [zlen] through updates. *)
Ltac zlia := rewrite ?zlen_insert in *; unfold zlen in *; lia.
