(* ===== verification/ListH.v ===== *)
(** * list.h: the intrusive doubly linked list of the kernel

    Models src/Labweek11/lab2/libs/list.h.  A [list_entry] is a [prev] and a
    [next] pointer embedded in some other structure, so the functions are
    written over an interface: a state type [St], a type [E] of the addresses
    of entries, and [get_link]/[set_link], the access to the entry at an
    address ([Err Undef] for an address that holds no entry).  The first-fit
    allocator discharges the interface with its array of [struct Page].

    The representation predicate [dll st h xs] says that, in [st], the
    circular list headed by [h] links exactly the entries [xs] in order, and
    the theorems give the effect of every operation on it. *)

From stdpp Require Import base list numbers relations.
From S2P Require Import Prelude.

Record list_entry (E : Type) := LinkOf { prev : E; next : E }.
Arguments LinkOf {E} prev next.
Arguments prev {E} l.
Arguments next {E} l.

(** ** The store of entries *)

Class ListStore (St E : Type) := {
  get_link : St → E → outcome (list_entry E);
  set_link : St → E → list_entry E → outcome St
}.

(** What the list functions rely on: an entry that can be read can be written,
    and a write changes that entry only. *)
Class ListStoreLaws (St E : Type) `{ListStore St E} := {
  set_link_ok : ∀ st e l l', get_link st e = Ok l → ∃ st', set_link st e l' = Ok st';
  get_set_same : ∀ st st' e l, set_link st e l = Ok st' → get_link st' e = Ok l;
  get_set_other : ∀ st st' e e' l, set_link st e l = Ok st' → e ≠ e' →
    get_link st' e' = get_link st e'
}.

Section list_h.
Context {St E : Type} `{ListStore St E}.

(** [e->prev = v] and [e->next = v]: one field of the entry is written. *)
Definition set_prev (st : St) (e v : E) : outcome St :=
  l ← get_link st e; set_link st e (LinkOf v (next l)).

Definition set_next (st : St) (e v : E) : outcome St :=
  l ← get_link st e; set_link st e (LinkOf (prev l) v).

Definition list_next (st : St) (listelm : E) : outcome E :=
  l ← get_link st listelm; Ok (next l).

Definition list_prev (st : St) (listelm : E) : outcome E :=
  l ← get_link st listelm; Ok (prev l).

(** [elm->prev = elm->next = elm] *)
Definition list_init (st : St) (elm : E) : outcome St :=
  st ← set_next st elm elm; set_prev st elm elm.

(** [prev->next = next->prev = elm; elm->next = next; elm->prev = prev] *)
Definition __list_add (st : St) (elm prev next : E) : outcome St :=
  st ← set_prev st next elm;
  st ← set_next st prev elm;
  st ← set_next st elm next;
  set_prev st elm prev.

(** [prev->next = next; next->prev = prev] *)
Definition __list_del (st : St) (prev next : E) : outcome St :=
  st ← set_next st prev next;
  set_prev st next prev.

Definition list_add_after (st : St) (listelm elm : E) : outcome St :=
  n ← list_next st listelm; __list_add st elm listelm n.

Definition list_add (st : St) (listelm elm : E) : outcome St :=
  list_add_after st listelm elm.

Definition list_add_before (st : St) (listelm elm : E) : outcome St :=
  p ← list_prev st listelm; __list_add st elm p listelm.

Definition list_del (st : St) (listelm : E) : outcome St :=
  l ← get_link st listelm; __list_del st (prev l) (next l).

Definition list_del_init (st : St) (listelm : E) : outcome St :=
  st ← list_del st listelm; list_init st listelm.

Definition list_empty `{EqDecision E} (st : St) (list : E) : outcome bool :=
  n ← list_next st list; Ok (bool_decide (n = list)).

(** ** Representation *)

(** The next entry of [a] is [b] and the previous entry of [b] is [a]. *)
Definition linked (st : St) (a b : E) : Prop :=
  list_next st a = Ok b ∧ list_prev st b = Ok a.

(** The neighbouring pairs of the circular list [h :: xs]. *)
Definition edges (h : E) (xs : list E) : list (E * E) := zip (h :: xs) (xs ++ [h]).

Definition dll (st : St) (h : E) (xs : list E) : Prop :=
  NoDup (h :: xs) ∧ Forall (λ ab, linked st ab.1 ab.2) (edges h xs).

End list_h.

#[global] Arguments list_next : simpl never.
#[global] Arguments list_prev : simpl never.
#[global] Arguments set_next : simpl never.
#[global] Arguments set_prev : simpl never.
#[global] Arguments list_del : simpl never.
#[global] Arguments list_add_before : simpl never.
#[global] Arguments list_add_after : simpl never.
#[global] Arguments list_add : simpl never.

(** ** The effect of the operations *)

Section list_h_laws.
Context {St E : Type} `{ListStoreLaws St E, !EqDecision E}.
Implicit Types (st : St) (e h : E) (xs : list E).

(** [e] is the address of an entry. *)
Definition is_entry st e : Prop := ∃ l, get_link st e = Ok l.

(** One write to an entry, and any number of them.  Whatever a write to an
    entry preserves, every list operation preserves. *)
Definition link_write st st' : Prop := ∃ e l, set_link st e l = Ok st'.
Definition link_writes : St → St → Prop := rtc link_write.

Lemma is_entry_next st e n : list_next st e = Ok n → is_entry st e.
Proof. unfold list_next. intros (l & ? & ?)%bind_Ok. by exists l. Qed.

Lemma is_entry_prev st e n : list_prev st e = Ok n → is_entry st e.
Proof. unfold list_prev. intros (l & ? & ?)%bind_Ok. by exists l. Qed.

Lemma is_entry_write st st' e e' l :
  set_link st e l = Ok st' → is_entry st e' → is_entry st' e'.
Proof.
  intros Hs [l' Hl]. destruct (decide (e = e')) as [<-|Hne].
  - exists l. by eapply get_set_same.
  - exists l'. by erewrite get_set_other.
Qed.

Lemma link_writes_once st st' e l : set_link st e l = Ok st' → link_writes st st'.
Proof. intros Hs. apply rtc_once. by exists e, l. Qed.

Lemma set_next_spec st e v :
  is_entry st e → ∃ st', set_next st e v = Ok st' ∧ link_writes st st' ∧
    (∀ e', list_next st' e' = if decide (e' = e) then Ok v else list_next st e') ∧
    (∀ e', list_prev st' e' = list_prev st e') ∧
    (∀ e', is_entry st e' → is_entry st' e').
Proof.
  intros [l Hl]. destruct (set_link_ok st e l (LinkOf (prev l) v) Hl) as [st' Hs].
  exists st'. unfold set_next. rewrite Hl. simpl.
  split_and!; [done|by eapply link_writes_once| | |by eauto using is_entry_write].
  - intros e'. unfold list_next. case_decide as Hd; [subst|].
    + by rewrite (get_set_same _ _ _ _ Hs).
    + by rewrite (get_set_other _ _ _ _ _ Hs).
  - intros e'. unfold list_prev. destruct (decide (e' = e)) as [->|Hd].
    + by rewrite (get_set_same _ _ _ _ Hs), Hl.
    + by rewrite (get_set_other _ _ _ _ _ Hs).
Qed.

Lemma set_prev_spec st e v :
  is_entry st e → ∃ st', set_prev st e v = Ok st' ∧ link_writes st st' ∧
    (∀ e', list_prev st' e' = if decide (e' = e) then Ok v else list_prev st e') ∧
    (∀ e', list_next st' e' = list_next st e') ∧
    (∀ e', is_entry st e' → is_entry st' e').
Proof.
  intros [l Hl]. destruct (set_link_ok st e l (LinkOf v (next l)) Hl) as [st' Hs].
  exists st'. unfold set_prev. rewrite Hl. simpl.
  split_and!; [done|by eapply link_writes_once| | |by eauto using is_entry_write].
  - intros e'. unfold list_prev. case_decide as Hd; [subst|].
    + by rewrite (get_set_same _ _ _ _ Hs).
    + by rewrite (get_set_other _ _ _ _ _ Hs).
  - intros e'. unfold list_next. destruct (decide (e' = e)) as [->|Hd].
    + by rewrite (get_set_same _ _ _ _ Hs), Hl.
    + by rewrite (get_set_other _ _ _ _ _ Hs).
Qed.

(** *** Cutting the circle *)

Lemma edges_cut h xs1 xs2 l1 p n t :
  h :: xs1 = l1 ++ [p] → xs2 ++ [h] = n :: t →
  edges h (xs1 ++ xs2) = zip l1 xs1 ++ (p, n) :: zip xs2 t.
Proof.
  intros E1 E2. unfold edges.
  rewrite app_comm_cons, E1, <-!(assoc_L (++)), E2. simpl.
  rewrite zip_with_app; [done|].
  apply (f_equal length) in E1. rewrite length_app in E1. simpl in E1. lia.
Qed.

(** Every point of the circle can be cut: [p] before it, [n] after it. *)
Lemma cut_exists h xs1 xs2 :
  ∃ l1 p n t, h :: xs1 = l1 ++ [p] ∧ xs2 ++ [h] = n :: t.
Proof.
  destruct (exists_last (l := h :: xs1)) as (l1 & p & E1); [done|].
  destruct (xs2 ++ [h]) as [|n t] eqn:E2; [by destruct xs2|].
  by exists l1, p, n, t.
Qed.

Lemma cut_distinct h xs1 xs2 l1 p n t :
  NoDup (h :: xs1 ++ xs2) → h :: xs1 = l1 ++ [p] → xs2 ++ [h] = n :: t →
  (∀ a b, (a, b) ∈ zip l1 xs1 → a ≠ p ∧ b ≠ n) ∧
  (∀ a b, (a, b) ∈ zip xs2 t → a ≠ p ∧ b ≠ n).
Proof.
  intros Hnd E1 E2.
  assert (NoDup (l1 ++ [p] ++ xs2)) as Hs.
  { by rewrite (assoc_L (++)), <-E1. }
  assert (NoDup (xs1 ++ n :: t)) as Ht.
  { rewrite <-E2. apply (NoDup_perm (h :: xs1 ++ xs2)); [|done].
    by rewrite (assoc_L (++)), Permutation_cons_append. }
  apply NoDup_app in Hs as (_ & Hs1 & Hs2). apply NoDup_app in Ht as (_ & Ht1 & Ht2).
  apply NoDup_cons in Ht2 as [Ht2 _]. apply NoDup_app in Hs2 as (_ & Hs2 & _).
  split; intros a b Hab; split; intros ->;
    [apply elem_of_zip_l in Hab|apply elem_of_zip_r in Hab
    |apply elem_of_zip_l in Hab|apply elem_of_zip_r in Hab]; set_solver.
Qed.

(** The entries of a list are entries. *)
Lemma dll_is_entry st h xs e : dll st h xs → e ∈ h :: xs → is_entry st e.
Proof.
  intros [_ HF] He. rewrite Forall_forall in HF.
  apply list_elem_of_lookup in He as [i Hi].
  destruct (lookup_lt_is_Some_2 (xs ++ [h]) i) as [b Hb].
  { apply lookup_lt_Some in Hi. rewrite length_app. simpl in *. lia. }
  destruct (HF (e, b)) as [Hn _].
  { apply list_elem_of_lookup. exists i. apply lookup_zip_with_Some. by eexists _, _. }
  by eapply is_entry_next.
Qed.

(** The neighbours at a cut are linked to each other. *)
Lemma dll_linked st h xs1 xs2 l1 p n t :
  dll st h (xs1 ++ xs2) → h :: xs1 = l1 ++ [p] → xs2 ++ [h] = n :: t → linked st p n.
Proof.
  intros [_ HF] E1 E2. erewrite edges_cut in HF by done.
  rewrite Forall_app, Forall_cons in HF. by destruct HF as (_ & ? & _).
Qed.

Lemma dll_next st h xs1 a xs2 :
  dll st h (xs1 ++ a :: xs2) → list_next st a = Ok (default h (head xs2)).
Proof.
  rewrite cons_middle, (assoc_L (++)). intros Hd.
  destruct xs2 as [|b xs2]; simpl.
  - by destruct (dll_linked st h (xs1 ++ [a]) [] (h :: xs1) a h [] Hd).
  - by destruct (dll_linked st h (xs1 ++ [a]) (b :: xs2) (h :: xs1) a b (xs2 ++ [h]) Hd).
Qed.

Lemma dll_next_head st h xs : dll st h xs → list_next st h = Ok (default h (head xs)).
Proof.
  intros Hd. destruct xs as [|b xs]; simpl.
  - by destruct (dll_linked st h [] [] [] h h [] Hd).
  - by destruct (dll_linked st h [] (b :: xs) [] h b (xs ++ [h]) Hd).
Qed.

(** The entry after the first [length xs1] ones. *)
Lemma dll_next_cut st h xs1 xs2 :
  dll st h (xs1 ++ xs2) → list_next st (default h (last xs1)) = Ok (default h (head xs2)).
Proof.
  destruct xs1 as [|a xs1 _] using rev_ind; [apply dll_next_head|].
  rewrite last_snoc, <-(assoc_L (++)). apply dll_next.
Qed.

Lemma dll_prev st h xs1 a xs2 :
  dll st h (xs1 ++ a :: xs2) → list_prev st a = Ok (default h (last xs1)).
Proof.
  intros Hd. destruct (cut_exists h xs1 []) as (l1 & p & _ & _ & E1 & _).
  destruct (dll_linked st h xs1 (a :: xs2) l1 p a (xs2 ++ [h]) Hd E1) as [_ ->]; [done|].
  f_equal. destruct xs1 as [|x xs1]; simpl in *.
  - by destruct l1 as [|? [|]]; simplify_eq/=.
  - apply (f_equal last) in E1. rewrite last_snoc in E1. simpl in E1. by rewrite E1.
Qed.

(** *** Insertion and deletion *)

Lemma edges_frame st st' (l : list (E * E)) :
  (∀ a b, (a, b) ∈ l →
     list_next st' a = list_next st a ∧ list_prev st' b = list_prev st b) →
  Forall (λ ab, linked st ab.1 ab.2) l → Forall (λ ab, linked st' ab.1 ab.2) l.
Proof.
  intros Hf HF. rewrite Forall_forall in *. intros [a b] Hab.
  destruct (HF _ Hab) as [Hn Hp]. destruct (Hf a b Hab) as [En Ep].
  simpl in *. split; congruence.
Qed.

Lemma __list_add_spec st h xs1 xs2 l1 p n t e :
  dll st h (xs1 ++ xs2) → h :: xs1 = l1 ++ [p] → xs2 ++ [h] = n :: t →
  e ∉ h :: xs1 ++ xs2 → is_entry st e →
  ∃ st', __list_add st e p n = Ok st' ∧ dll st' h (xs1 ++ e :: xs2) ∧ link_writes st st'.
Proof.
  intros Hd E1 E2 He Hent. pose proof (dll_linked _ _ _ _ _ _ _ _ Hd E1 E2) as [Hn Hp].
  destruct (set_prev_spec st n e) as (s1 & R1 & W1 & P1 & N1 & V1);
    [by eapply is_entry_prev|].
  destruct (set_next_spec s1 p e) as (s2 & R2 & W2 & N2 & P2 & V2);
    [by eapply V1, is_entry_next|].
  destruct (set_next_spec s2 e n) as (s3 & R3 & W3 & N3 & P3 & V3); [by apply V2, V1|].
  destruct (set_prev_spec s3 e p) as (s4 & R4 & W4 & P4 & N4 & V4); [by apply V3, V2, V1|].
  exists s4. split; [|split].
  - unfold __list_add. rewrite R1. simpl. rewrite R2. simpl. by rewrite R3.
  - destruct Hd as [Hnd HF]. destruct (cut_distinct _ _ _ _ _ _ _ Hnd E1 E2) as [D1 D2].
    assert (p ≠ e ∧ n ≠ e) as [Hpe Hne].
    { split; intros ->; apply He; rewrite app_comm_cons, ?E1; [set_solver|].
      assert (e ∈ xs2 ++ [h]) by (rewrite E2; set_solver). set_solver. }
    assert (∀ a b, (a, b) ∈ zip l1 xs1 ∨ (a, b) ∈ zip xs2 t → a ≠ e ∧ b ≠ e) as D3.
    { assert (∀ a, a ∈ l1 → a ∈ h :: xs1) by (rewrite E1; set_solver).
      assert (∀ a, a ∈ t → a ∈ xs2 ++ [h]) by (rewrite E2; set_solver).
      intros a b [Hab|Hab]; split; intros ->;
        [apply elem_of_zip_l in Hab|apply elem_of_zip_r in Hab
        |apply elem_of_zip_l in Hab|apply elem_of_zip_r in Hab]; set_solver. }
    split.
    + apply (NoDup_perm (e :: h :: xs1 ++ xs2)); [|by constructor].
      rewrite <-Permutation_middle. constructor.
    + erewrite edges_cut in HF by done.
      rewrite cons_middle, (assoc_L (++)).
      rewrite (edges_cut h (xs1 ++ [e]) xs2 (h :: xs1) e n t) by done.
      rewrite E1, zip_with_app by (apply (f_equal length) in E1;
        rewrite length_app in E1; simpl in E1; lia).
      rewrite !Forall_app, !Forall_cons in *. simpl.
      destruct HF as (F1 & _ & F2). split_and!; [|apply Forall_singleton| |].
      * eapply edges_frame; [|exact F1]. intros a b Hab.
        destruct (D1 a b Hab), (D3 a b (or_introl Hab)).
        rewrite N4, N3, N2, N1, P4, P3, P2, P1. by rewrite !decide_False.
      * split; [rewrite N4, N3, N2; by rewrite decide_False, decide_True|].
        rewrite P4. by rewrite decide_True.
      * split; [rewrite N4, N3; by rewrite decide_True|].
        rewrite P4, P3, P2, P1. by rewrite decide_False, decide_True.
      * eapply edges_frame; [|exact F2]. intros a b Hab.
        destruct (D2 a b Hab), (D3 a b (or_intror Hab)).
        rewrite N4, N3, N2, N1, P4, P3, P2, P1. by rewrite !decide_False.
  - by repeat (etrans; [eassumption|]).
Qed.

(** Deletion of [e], whose neighbours are [p] and [n]. *)
Lemma __list_del_spec st h xs1 e xs2 l1 p n t :
  dll st h (xs1 ++ e :: xs2) → h :: xs1 = l1 ++ [p] → xs2 ++ [h] = n :: t →
  ∃ st', __list_del st p n = Ok st' ∧ dll st' h (xs1 ++ xs2) ∧ link_writes st st' ∧
    list_next st' e = list_next st e.
Proof.
  intros Hd E1 E2.
  destruct (dll_linked st h xs1 (e :: xs2) l1 p e (xs2 ++ [h]) Hd E1) as [Hn _]; [done|].
  assert (list_prev st n = Ok e) as Hp.
  { rewrite cons_middle, (assoc_L (++)) in Hd.
    by destruct (dll_linked st h (xs1 ++ [e]) xs2 (h :: xs1) e n t Hd). }
  destruct (set_next_spec st p n) as (s1 & R1 & W1 & N1 & P1 & V1); [by eapply is_entry_next|].
  destruct (set_prev_spec s1 n p) as (s2 & R2 & W2 & P2 & N2 & V2);
    [by eapply V1, is_entry_prev|].
  exists s2. destruct Hd as [Hnd HF].
  assert (e ≠ p) as Hep.
  { intros ->. rewrite app_comm_cons, E1 in Hnd. apply NoDup_app in Hnd as (_ & Hnd & _).
    apply (Hnd p); set_solver. }
  split_and!; [by unfold __list_del; rewrite R1| |by etrans
    |rewrite N2, N1; by rewrite decide_False].
  assert (NoDup (h :: xs1 ++ xs2)) as Hnd'.
  { apply (NoDup_perm _ (e :: h :: xs1 ++ xs2)) in Hnd; [by apply NoDup_cons in Hnd as [_ ?]|].
    rewrite <-Permutation_middle. constructor. }
  split; [done|]. destruct (cut_distinct _ _ _ _ _ _ _ Hnd' E1 E2) as [D1 D2].
  rewrite (edges_cut h xs1 xs2 l1 p n t) by done.
  rewrite cons_middle, (assoc_L (++)) in HF.
  rewrite (edges_cut h (xs1 ++ [e]) xs2 (h :: xs1) e n t) in HF by done.
  rewrite E1, zip_with_app in HF by (apply (f_equal length) in E1;
    rewrite length_app in E1; simpl in E1; lia).
  rewrite !Forall_app, !Forall_cons in *. simpl in *.
  destruct HF as ((F1 & _) & _ & F2). split_and!.
  - eapply edges_frame; [|exact F1]. intros a b Hab. destruct (D1 a b Hab).
    rewrite N2, N1, P2, P1. by rewrite !decide_False.
  - split; [rewrite N2, N1|rewrite P2]; by rewrite decide_True.
  - eapply edges_frame; [|exact F2]. intros a b Hab. destruct (D2 a b Hab).
    rewrite N2, N1, P2, P1. by rewrite !decide_False.
Qed.

(** A list only depends on the links. *)
Lemma dll_ext st st' h xs :
  (∀ e, get_link st' e = get_link st e) → dll st h xs → dll st' h xs.
Proof.
  intros Hl [Hnd HF]. split; [done|]. eapply edges_frame; [|done].
  intros a b _. unfold list_next, list_prev. by rewrite !Hl.
Qed.

Lemma list_init_spec st h :
  is_entry st h → ∃ st', list_init st h = Ok st' ∧ dll st' h [] ∧ link_writes st st'.
Proof.
  intros He. destruct (set_next_spec st h h He) as (s1 & R1 & W1 & N1 & P1 & V1).
  destruct (set_prev_spec s1 h h) as (s2 & R2 & W2 & P2 & N2 & V2); [by apply V1|].
  exists s2. unfold list_init. rewrite R1. simpl.
  split_and!; [done| |by etrans]. split; [by apply NoDup_singleton|].
  apply Forall_singleton. simpl. split; [rewrite N2, N1|rewrite P2]; by rewrite decide_True.
Qed.

(** [list_add_before] puts the new entry between the element (or the head)
    and the one before it; [list_add_after] symmetrically. *)
Lemma list_add_before_spec st h xs1 xs2 e n :
  dll st h (xs1 ++ xs2) → n = default h (head xs2) → e ∉ h :: xs1 ++ xs2 → is_entry st e →
  ∃ st', list_add_before st n e = Ok st' ∧ dll st' h (xs1 ++ e :: xs2) ∧ link_writes st st'.
Proof.
  intros Hd -> He Hent. destruct (cut_exists h xs1 xs2) as (l1 & p & n & t & E1 & E2).
  destruct (dll_linked _ _ _ _ _ _ _ _ Hd E1 E2) as [_ Hp].
  replace (default h (head xs2)) with n by (destruct xs2; by simplify_eq/=).
  unfold list_add_before. rewrite Hp. simpl. by eapply __list_add_spec.
Qed.

Lemma list_add_after_spec st h xs1 xs2 e p :
  dll st h (xs1 ++ xs2) → p = default h (last xs1) → e ∉ h :: xs1 ++ xs2 → is_entry st e →
  ∃ st', list_add_after st p e = Ok st' ∧ dll st' h (xs1 ++ e :: xs2) ∧ link_writes st st'.
Proof.
  intros Hd -> He Hent. destruct (cut_exists h xs1 xs2) as (l1 & p & n & t & E1 & E2).
  destruct (dll_linked _ _ _ _ _ _ _ _ Hd E1 E2) as [Hn _].
  replace (default h (last xs1)) with p.
  - unfold list_add_after. rewrite Hn. simpl. by eapply __list_add_spec.
  - apply (f_equal last) in E1. rewrite last_snoc in E1.
    destruct xs1 as [|x xs1]; [by simplify_eq/=|].
    change (last (x :: xs1) = Some p) in E1. by rewrite E1.
Qed.

Lemma list_del_spec st h xs1 e xs2 :
  dll st h (xs1 ++ e :: xs2) →
  ∃ st', list_del st e = Ok st' ∧ dll st' h (xs1 ++ xs2) ∧ link_writes st st' ∧
    list_next st' e = list_next st e.
Proof.
  intros Hd. destruct (cut_exists h xs1 xs2) as (l1 & p & n & t & E1 & E2).
  destruct (dll_linked st h xs1 (e :: xs2) l1 p e (xs2 ++ [h]) Hd E1) as [_ Hp]; [done|].
  assert (list_next st e = Ok n) as Hn.
  { pose proof Hd as Hd'. rewrite cons_middle, (assoc_L (++)) in Hd'.
    by destruct (dll_linked st h (xs1 ++ [e]) xs2 (h :: xs1) e n t Hd'). }
  unfold list_prev, list_next in Hp, Hn. unfold list_del.
  destruct (get_link st e) as [l|] eqn:Hl; simpl in *; [|done].
  injection Hp as ->. injection Hn as ->. by eapply __list_del_spec.
Qed.

Lemma list_empty_spec st h xs :
  dll st h xs → list_empty st h = Ok (bool_decide (xs = [])).
Proof.
  intros Hd. unfold list_empty. rewrite (dll_next_head st h xs Hd). simpl. f_equal.
  apply bool_decide_ext. destruct xs as [|x xs]; simpl; [done|].
  split; [|done]. intros ->. destruct Hd as [Hnd _].
  apply NoDup_cons in Hnd as [Hnd _]. set_solver.
Qed.

(** *** Frame: entries that are not touched *)

Lemma set_next_frame st st' e v e' : set_next st e v = Ok st' → e ≠ e' → get_link st' e' = get_link st e'.
Proof. unfold set_next. intros (l & _ & Hs)%bind_Ok. by eapply get_set_other. Qed.

Lemma set_prev_frame st st' e v e' : set_prev st e v = Ok st' → e ≠ e' → get_link st' e' = get_link st e'.
Proof. unfold set_prev. intros (l & _ & Hs)%bind_Ok. by eapply get_set_other. Qed.

Lemma __list_add_frame st st' e p n e' :
  __list_add st e p n = Ok st' → e' ∉ [e; p; n] → get_link st' e' = get_link st e'.
Proof.
  unfold __list_add. intros (s1 & R1 & (s2 & R2 & (s3 & R3 & R4)%bind_Ok)%bind_Ok)%bind_Ok He.
  rewrite (set_prev_frame _ _ _ _ e' R4), (set_next_frame _ _ _ _ e' R3), (set_next_frame _ _ _ _ e' R2),
    (set_prev_frame _ _ _ _ e' R1); [done|set_solver..].
Qed.

Lemma __list_del_frame st st' p n e' :
  __list_del st p n = Ok st' → e' ∉ [p; n] → get_link st' e' = get_link st e'.
Proof.
  unfold __list_del. intros (s1 & R1 & R2)%bind_Ok He.
  rewrite (set_prev_frame _ _ _ _ e' R2), (set_next_frame _ _ _ _ e' R1); [done|set_solver..].
Qed.

Lemma list_init_frame st st' h e' : list_init st h = Ok st' → e' ≠ h → get_link st' e' = get_link st e'.
Proof.
  unfold list_init. intros (s1 & R1 & R2)%bind_Ok He.
  by rewrite (set_prev_frame _ _ _ _ e' R2), (set_next_frame _ _ _ _ e' R1).
Qed.

(** The neighbours of an entry of the list are in the list. *)
Lemma dll_neighbours st h xs e :
  dll st h xs → e ∈ h :: xs →
  ∃ p n, list_prev st e = Ok p ∧ list_next st e = Ok n ∧ p ∈ h :: xs ∧ n ∈ h :: xs.
Proof.
  intros Hd He. apply elem_of_cons in He as [->|(xs1 & xs2 & ->)%list_elem_of_split].
  - destruct xs as [|x xs _] using rev_ind.
    + exists h, h. destruct Hd as [_ [[? ?] _]%Forall_cons]. split_and!; [done|done|set_solver..].
    + destruct (cut_exists h (xs ++ [x]) []) as (l1 & p & n & t & E1 & E2).
      destruct (dll_linked st h (xs ++ [x]) [] l1 p n t) as [_ Hp]; [by rewrite app_nil_r|done|done|].
      exists p, (default h (head (xs ++ [x]))). injection E2 as <- _.
      split_and!; [done|by apply dll_next_head| |].
      * rewrite E1. set_solver.
      * destruct xs; simpl; set_solver.
  - exists (default h (last xs1)), (default h (head xs2)). split_and!.
    + by eapply dll_prev.
    + by eapply dll_next.
    + destruct xs1 as [|x xs1 _] using rev_ind; [set_solver|]. rewrite last_snoc. simpl. set_solver.
    + destruct xs2; simpl; set_solver.
Qed.

Lemma list_del_frame st st' h xs e e' :
  dll st h xs → e ∈ h :: xs → list_del st e = Ok st' → e' ∉ h :: xs →
  get_link st' e' = get_link st e'.
Proof.
  intros Hd He. destruct (dll_neighbours _ _ _ _ Hd He) as (p & n & Hp & Hn & Hpi & Hni).
  unfold list_prev, list_next, list_del in *. destruct (get_link st e) as [l|]; [|done]. simpl in *.
  injection Hp as <-. injection Hn as <-. intros R He'. eapply __list_del_frame; [exact R|set_solver].
Qed.

Lemma list_add_before_frame st st' h xs n e e' :
  dll st h xs → n ∈ h :: xs → list_add_before st n e = Ok st' → e' ∉ e :: h :: xs →
  get_link st' e' = get_link st e'.
Proof.
  intros Hd He. destruct (dll_neighbours _ _ _ _ Hd He) as (p & n' & Hp & _ & Hpi & _).
  unfold list_add_before. rewrite Hp. simpl. intros R He'. eapply __list_add_frame; [exact R|set_solver].
Qed.

Lemma list_add_after_frame st st' h xs p e e' :
  dll st h xs → p ∈ h :: xs → list_add_after st p e = Ok st' → e' ∉ e :: h :: xs →
  get_link st' e' = get_link st e'.
Proof.
  intros Hd He. destruct (dll_neighbours _ _ _ _ Hd He) as (p' & n & _ & Hn & _ & Hni).
  unfold list_add_after. rewrite Hn. simpl. intros R He'. eapply __list_add_frame; [exact R|set_solver].
Qed.

(** A list only depends on the links of its own entries. *)
Lemma dll_local st st' h xs :
  (∀ e, e ∈ h :: xs → get_link st' e = get_link st e) → dll st h xs → dll st' h xs.
Proof.
  intros Hl [Hnd HF]. split; [done|]. eapply edges_frame; [|done]. intros a b Hab.
  assert (a ∈ h :: xs ∧ b ∈ h :: xs) as [Ha Hb].
  { split; [by apply elem_of_zip_l in Hab|]. apply elem_of_zip_r in Hab. set_solver. }
  unfold list_next, list_prev. by rewrite !Hl.
Qed.

End list_h_laws.
