(* ===== verification/DefaultPmm.v ===== *)
(** * default_pmm.c: the first-fit physical page allocator

    Models src/Labweek11/lab2/kern/mm/default_pmm.c with the parts of
    memlayout.h, pmm.h and atomic.h it uses.  A page is named by its index in
    the array [pages]; [EPage i] is the address of [pages[i].page_link] and
    [EHead] that of [free_area.free_list].  [property], [flags] and [nr_free]
    are 32-bit words and wrap around.

    Abstractly the allocator holds a list of blocks (first page, number of
    pages).  [pmm_rep st bs] relates a state to its blocks; the functions
    [alloc_blocks] and [free_blocks] are what [default_alloc_pages] and
    [default_free_pages] do to them, and [pages_of bs] is the set of free
    pages, on which allocation and release are inverse of each other. *)

From Stdlib Require Import Sorted.
From stdpp Require Import base list numbers relations.
From S2P Require Import Prelude.
From S2P Require Import ListH.

(** ** atomic.h: bit operations on a word *)

Definition set_bit (nr w : Z) : Z := Z.lor w (Z.shiftl 1 nr).
Definition clear_bit (nr w : Z) : Z := Z.ldiff w (Z.shiftl 1 nr).
Definition change_bit (nr w : Z) : Z := Z.lxor w (Z.shiftl 1 nr).
Definition test_bit (nr w : Z) : bool := Z.testbit w nr.

#[global] Arguments set_bit : simpl never.
#[global] Arguments clear_bit : simpl never.
#[global] Arguments change_bit : simpl never.
#[global] Arguments test_bit : simpl never.

(** ** struct Page and free_area_t *)

Inductive entry :=
| EHead
| EPage (i : Z).

#[global] Instance entry_eq_dec : EqDecision entry.
Proof. solve_decision. Defined.

Record Page := PageOf {
  ref : Z;
  flags : Z;
  property : Z;
  page_link : list_entry entry
}.

Record pmm := PmmOf {
  pages : list Page;
  free_list : list_entry entry;
  nr_free : Z
}.

Definition PG_reserved : Z := 0.
Definition PG_property : Z := 1.
Definition PageReserved (pg : Page) : bool := test_bit PG_reserved (flags pg).
Definition PageProperty (pg : Page) : bool := test_bit PG_property (flags pg).

Definition page (st : pmm) (p : Z) : outcome Page := aget (pages st) p.

Definition upd_page (st : pmm) (p : Z) (f : Page → Page) : outcome pmm :=
  pg ← page st p;
  ps ← aset (pages st) p (f pg);
  Ok (PmmOf ps (free_list st) (nr_free st)).

Definition set_flags (st : pmm) (p w : Z) : outcome pmm :=
  upd_page st p (λ pg, PageOf (ref pg) w (property pg) (page_link pg)).
Definition set_property (st : pmm) (p n : Z) : outcome pmm :=
  upd_page st p (λ pg, PageOf (ref pg) (flags pg) n (page_link pg)).
Definition set_page_ref (st : pmm) (p val : Z) : outcome pmm :=
  upd_page st p (λ pg, PageOf val (flags pg) (property pg) (page_link pg)).
Definition SetPageReserved (st : pmm) (p : Z) : outcome pmm :=
  pg ← page st p; set_flags st p (set_bit PG_reserved (flags pg)).
Definition SetPageProperty (st : pmm) (p : Z) : outcome pmm :=
  pg ← page st p; set_flags st p (set_bit PG_property (flags pg)).
Definition ClearPageProperty (st : pmm) (p : Z) : outcome pmm :=
  pg ← page st p; set_flags st p (clear_bit PG_property (flags pg)).
Definition set_nr_free (st : pmm) (n : Z) : pmm := PmmOf (pages st) (free_list st) n.

(** [le2page]: the page whose [page_link] is at this address. *)
Definition le2page (le : entry) : outcome Z :=
  match le with EPage i => Ok i | EHead => Err Undef end.

#[global] Instance pmm_store : ListStore pmm entry := {
  get_link st e := match e with
    | EHead => Ok (free_list st)
    | EPage i => pg ← page st i; Ok (page_link pg)
    end;
  set_link st e l := match e with
    | EHead => Ok (PmmOf (pages st) l (nr_free st))
    | EPage i => upd_page st i (λ pg, PageOf (ref pg) (flags pg) (property pg) l)
    end
}.

(** Enough iterations for any walk of the free list. *)
Definition walk_fuel (st : pmm) : nat := S (S (length (pages st))).

(** ** The functions of default_pmm.c *)

Definition default_init (st : pmm) : outcome pmm :=
  st ← list_init st EHead;
  Ok (set_nr_free st 0).

Definition init_page (base n : Z) (p : Z) (st : pmm) : outcome pmm :=
  pg ← page st p;
  assert_ (PageReserved pg);;
  st ← set_flags st p 0;
  st ← set_page_ref st p 0;
  if p =? base then
    st ← set_property st p n;
    SetPageProperty st p
  else set_property st p 0.

Definition default_init_memmap (st : pmm) (base n : Z) : outcome pmm :=
  assert_ (0 <? n);;
  st ← for_range base (base + n) (init_page base n) st;
  st ← list_add_before st EHead (EPage base);
  Ok (set_nr_free st (u32 (nr_free st + n))).

(** [while ((le = list_next(le)) != &free_list)]: the first page at or after
    which [property >= n]. *)
Definition find_step (st : pmm) (n : Z) (le : entry) : outcome (entry + option Z) :=
  le ← list_next st le;
  if decide (le = EHead) then Ok (inr None)
  else
    p ← le2page le;
    pg ← page st p;
    if n <=? property pg then Ok (inr (Some p)) else Ok (inl le).

(** The reorganisation of the list once [page_] has been chosen. *)
Definition take_block (st : pmm) (page_ n : Z) : outcome pmm :=
  st ← list_del st (EPage page_);
  pg ← page st page_;
  st ← (if n <? property pg then
          st ← set_property st (page_ + n) (u32 (property pg - n));
          st ← SetPageProperty st (page_ + n);
          list_add st EHead (EPage (page_ + n))
        else Ok st);
  let st := set_nr_free st (u32 (nr_free st - n)) in
  ClearPageProperty st page_.

Definition default_alloc_pages (st : pmm) (n : Z) : outcome (option Z * pmm) :=
  assert_ (0 <? n);;
  if nr_free st <? n then Ok (None, st)
  else
    found ← loop (walk_fuel st) (find_step st n) EHead;
    match found with
    | None => Ok (None, st)
    | Some page_ => st ← take_block st page_ n; Ok (Some page_, st)
    end.

Definition release_page (p : Z) (st : pmm) : outcome pmm :=
  pg ← page st p;
  assert_ (negb (PageReserved pg) && negb (PageProperty pg));;
  st ← set_flags st p 0;
  set_page_ref st p 0.

(** One iteration of the merging loop, on the state, [base] and [le]. *)
Definition merge_step (s : pmm * Z * entry) : outcome ((pmm * Z * entry) + (pmm * Z)) :=
  let '(st, base, le) := s in
  le ← list_next st le;
  if decide (le = EHead) then Ok (inr (st, base))
  else
    p ← le2page le;
    pb ← page st base;
    pp ← page st p;
    if base + property pb =? p then
      st ← set_property st base (u32 (property pb + property pp));
      st ← ClearPageProperty st p;
      st ← list_del st (EPage p);
      Ok (inl (st, base, le))
    else if p + property pp =? base then
      st ← set_property st p (u32 (property pp + property pb));
      st ← ClearPageProperty st base;
      st ← list_del st (EPage p);
      Ok (inl (st, p, le))
    else Ok (inl (st, base, le)).

(** One iteration of the loop that finds where to insert [base]. *)
Definition place_step (st : pmm) (base : Z) (le : entry) : outcome (entry + entry) :=
  le ← list_next st le;
  if decide (le = EHead) then Ok (inr le)
  else
    p ← le2page le;
    pb ← page st base;
    if base + property pb <=? p then Ok (inr le) else Ok (inl le).

Definition default_free_pages (st : pmm) (base n : Z) : outcome pmm :=
  assert_ (0 <? n);;
  st ← for_range base (base + n) release_page st;
  st ← set_property st base n;
  st ← SetPageProperty st base;
  r ← loop (walk_fuel st) merge_step (st, base, EHead);
  let '(st, base) := r in
  le ← loop (walk_fuel st) (place_step st base) EHead;
  let st := set_nr_free st (u32 (nr_free st + n)) in
  list_add_before st le (EPage base).

Definition default_nr_free_pages (st : pmm) : Z := nr_free st.

(** ** The abstract allocator *)

(** A free block: its first page and its number of pages. *)
Notation block := (Z * Z)%type.

Definition pages_of (bs : list block) : list Z := bs ≫= λ b, seqZ b.1 b.2.

(** First fit on the list of blocks: the chosen block, and the others. *)
Fixpoint first_fit (n : Z) (bs : list block) : option (block * list block) :=
  match bs with
  | [] => None
  | b :: bs' =>
      if n <=? b.2 then Some (b, bs')
      else '(b', rest) ← first_fit n bs'; Some (b', b :: rest)
  end.

(** What [default_alloc_pages] does to the blocks: the tail of a block that is
    too large becomes the first block of the list. *)
Definition alloc_blocks (n : Z) (bs : list block) : option (Z * list block) :=
  '(b, rest) ← first_fit n bs;
  Some (b.1, if n <? b.2 then (b.1 + n, b.2 - n) :: rest else rest).

(** What the merging loop does: the released block grows by every block of the
    list that is adjacent to it. *)
Fixpoint merge_blocks (r : block) (bs : list block) : block * list block :=
  match bs with
  | [] => (r, [])
  | b :: bs' =>
      if r.1 + r.2 =? b.1 then merge_blocks (r.1, r.2 + b.2) bs'
      else if b.1 + b.2 =? r.1 then merge_blocks (b.1, b.2 + r.2) bs'
      else let '(r', l) := merge_blocks r bs' in (r', b :: l)
  end.

Fixpoint place_block (r : block) (bs : list block) : list block :=
  match bs with
  | [] => [r]
  | b :: bs' => if r.1 + r.2 <=? b.1 then r :: b :: bs' else b :: place_block r bs'
  end.

Definition free_blocks (base n : Z) (bs : list block) : list block :=
  let '(r, l) := merge_blocks (base, n) bs in place_block r l.

(** No free block ends where another one starts. *)
Definition coalesced (bs : list block) : Prop :=
  ∀ b b', b ∈ bs → b' ∈ bs → b.1 + b.2 ≠ b'.1.

(** ** Representation *)

Definition page_data (pg : Page) : Z * Z * Z := (ref pg, flags pg, property pg).
Definition data (st : pmm) : list (Z * Z * Z) := page_data <$> pages st.

Definition entries (bs : list block) : list entry := (λ b, EPage b.1) <$> bs.

(** The page descriptors [pd] describe the free blocks [bs]: the blocks are
    disjoint ranges of pages that are not reserved, the first page of each one
    holds its size, and [PG_property] marks exactly those first pages. *)
Record blocks_ok (pd : list (Z * Z * Z)) (bs : list block) : Prop := {
  bok_npage : zlen pd < 2 ^ 32;
  bok_nodup : NoDup (pages_of bs);
  bok_free : ∀ i, i ∈ pages_of bs →
    ∃ d, aget pd i = Ok d ∧ test_bit PG_reserved d.1.2 = false;
  bok_size : ∀ b, b ∈ bs → 0 < b.2 ∧ ∃ d, aget pd b.1 = Ok d ∧ d.2 = b.2;
  bok_head : ∀ i d, aget pd i = Ok d →
    (test_bit PG_property d.1.2 = true ↔ i ∈ (fst <$> bs))
}.

Definition pmm_rep (st : pmm) (bs : list block) : Prop :=
  dll st EHead (entries bs) ∧ blocks_ok (data st) bs ∧
  nr_free st = zlen (pages_of bs).

(** Page [i] exists, is not reserved and is not free: it may be released. *)
Definition allocated (st : pmm) (bs : list block) (i : Z) : Prop :=
  (∃ pg, page st i = Ok pg ∧ PageReserved pg = false) ∧ i ∉ pages_of bs.

(** ** Bits *)

Lemma testbit_set nr nr' w : 0 ≤ nr → 0 ≤ nr' →
  test_bit nr' (set_bit nr w) = bool_decide (nr' = nr) || test_bit nr' w.
Proof.
  intros H H'. unfold test_bit, set_bit. rewrite Z.lor_spec, Z.shiftl_1_l, Z.pow2_bits_eqb by done.
  rewrite orb_comm. f_equal. case_bool_decide; lia.
Qed.

Lemma testbit_clear nr nr' w : 0 ≤ nr → 0 ≤ nr' →
  test_bit nr' (clear_bit nr w) = negb (bool_decide (nr' = nr)) && test_bit nr' w.
Proof.
  intros H H'. unfold test_bit, clear_bit. rewrite Z.ldiff_spec, Z.shiftl_1_l, Z.pow2_bits_eqb by done.
  rewrite andb_comm. f_equal. case_bool_decide; f_equal; lia.
Qed.

Lemma testbit_change nr nr' w : 0 ≤ nr → 0 ≤ nr' →
  test_bit nr' (change_bit nr w) = xorb (bool_decide (nr' = nr)) (test_bit nr' w).
Proof.
  intros H H'. unfold test_bit, change_bit. rewrite Z.lxor_spec, Z.shiftl_1_l, Z.pow2_bits_eqb by done.
  rewrite xorb_comm. f_equal. case_bool_decide; lia.
Qed.

(** ** The store of page links *)

Lemma upd_page_inv st st' p f :
  upd_page st p f = Ok st' → ∃ pg, page st p = Ok pg ∧ 0 ≤ p < zlen (pages st) ∧
    st' = PmmOf (<[Z.to_nat p := f pg]> (pages st)) (free_list st) (nr_free st).
Proof.
  unfold upd_page. intros (pg & Hp & (ps & Hs & [= <-])%bind_Ok)%bind_Ok.
  apply aset_inv in Hs as [? ->]. by exists pg.
Qed.

Lemma upd_page_Ok st p f pg :
  page st p = Ok pg →
  upd_page st p f = Ok (PmmOf (<[Z.to_nat p := f pg]> (pages st)) (free_list st) (nr_free st)).
Proof.
  intros Hp. unfold upd_page. rewrite Hp. simpl. rewrite aset_Ok; [done|].
  by eapply aget_range.
Qed.

Lemma page_insert_eq st p pg fl nr :
  page st p = Ok pg → ∀ pg', page (PmmOf (<[Z.to_nat p := pg']> (pages st)) fl nr) p = Ok pg'.
Proof. intros Hp pg'. apply aget_insert_eq. by eapply aget_range. Qed.

#[global] Instance pmm_store_laws : ListStoreLaws pmm entry.
Proof.
  split.
  - intros st [|i] l l' Hg; simpl in *; [by eexists|].
    apply bind_Ok in Hg as (pg & Hp & _). eexists. by apply upd_page_Ok.
  - intros st st' [|i] l Hs; simpl in *; [by simplify_eq|].
    apply upd_page_inv in Hs as (pg & Hp & Hi & ->). unfold page. simpl.
    by rewrite aget_insert_eq.
  - intros st st' [|i] [|j] l Hs Hne; simpl in *; simplify_eq; try done.
    + by apply upd_page_inv in Hs as (pg & Hp & Hi & ->).
    + apply upd_page_inv in Hs as (pg & Hp & Hi & ->). unfold page. simpl.
      rewrite aget_insert_ne; [done|lia|congruence].
Qed.

(** ** The page descriptors seen as data *)

Lemma page_data_Ok st i d :
  aget (data st) i = Ok d ↔ ∃ pg, page st i = Ok pg ∧ d = page_data pg.
Proof. unfold data, page. by rewrite aget_fmap, fmap_Ok. Qed.

(** [st'] is [st] with the descriptors [pd], the same links and counter. *)
Definition with_data (st st' : pmm) (pd : list (Z * Z * Z)) : Prop :=
  data st' = pd ∧ nr_free st' = nr_free st ∧ ∀ e : entry, get_link st' e = get_link st e.

Lemma with_data_trans st1 st2 st3 pd pd' :
  with_data st1 st2 pd → with_data st2 st3 pd' → with_data st1 st3 pd'.
Proof. intros (? & ? & E) (? & ? & E'). split_and!; [done|congruence|]. intros e. by rewrite E', E. Qed.

Lemma with_data_dll st st' pd xs : with_data st st' pd → dll st EHead xs → dll st' EHead xs.
Proof. intros (_ & _ & ?). by apply dll_ext. Qed.

Lemma upd_page_data st p f pg :
  page st p = Ok pg → page_link (f pg) = page_link pg →
  ∃ st', upd_page st p f = Ok st' ∧
    with_data st st' (<[Z.to_nat p := page_data (f pg)]> (data st)).
Proof.
  intros Hp Hl. eexists. split; [by apply upd_page_Ok|]. unfold data. simpl.
  split_and!; [by rewrite <-list_fmap_insert|done|].
  intros [|i]; simpl; [done|]. unfold page in *. simpl.
  rewrite aget_insert by (by eapply aget_range). case_decide; [|done].
  subst. rewrite Hp. simpl. by rewrite Hl.
Qed.

Lemma set_flags_data st p w r f s :
  aget (data st) p = Ok (r, f, s) →
  ∃ st', set_flags st p w = Ok st' ∧ with_data st st' (<[Z.to_nat p := (r, w, s)]> (data st)).
Proof.
  intros (pg & Hp & [= -> -> ->])%page_data_Ok.
  by destruct (upd_page_data st p (λ pg, PageOf (ref pg) w (property pg) (page_link pg)) pg Hp) as (st' & ? & ?); [|exists st'].
Qed.

Lemma set_property_data st p n r f s :
  aget (data st) p = Ok (r, f, s) →
  ∃ st', set_property st p n = Ok st' ∧ with_data st st' (<[Z.to_nat p := (r, f, n)]> (data st)).
Proof.
  intros (pg & Hp & [= -> -> ->])%page_data_Ok.
  by destruct (upd_page_data st p (λ pg, PageOf (ref pg) (flags pg) n (page_link pg)) pg Hp) as (st' & ? & ?); [|exists st'].
Qed.

Lemma set_page_ref_data st p v r f s :
  aget (data st) p = Ok (r, f, s) →
  ∃ st', set_page_ref st p v = Ok st' ∧ with_data st st' (<[Z.to_nat p := (v, f, s)]> (data st)).
Proof.
  intros (pg & Hp & [= -> -> ->])%page_data_Ok.
  by destruct (upd_page_data st p (λ pg, PageOf v (flags pg) (property pg) (page_link pg)) pg Hp) as (st' & ? & ?); [|exists st'].
Qed.

Lemma SetPageProperty_data st p r f s :
  aget (data st) p = Ok (r, f, s) →
  ∃ st', SetPageProperty st p = Ok st' ∧
    with_data st st' (<[Z.to_nat p := (r, set_bit PG_property f, s)]> (data st)).
Proof.
  intros Hd. destruct (set_flags_data _ _ (set_bit PG_property f) _ _ _ Hd) as (st' & ? & ?).
  apply page_data_Ok in Hd as (pg & Hp & [= -> -> ->]).
  exists st'. unfold SetPageProperty. by rewrite Hp.
Qed.

Lemma ClearPageProperty_data st p r f s :
  aget (data st) p = Ok (r, f, s) →
  ∃ st', ClearPageProperty st p = Ok st' ∧
    with_data st st' (<[Z.to_nat p := (r, clear_bit PG_property f, s)]> (data st)).
Proof.
  intros Hd. destruct (set_flags_data _ _ (clear_bit PG_property f) _ _ _ Hd) as (st' & ? & ?).
  apply page_data_Ok in Hd as (pg & Hp & [= -> -> ->]).
  exists st'. unfold ClearPageProperty. by rewrite Hp.
Qed.

(** List operations leave the descriptors alone. *)
Lemma link_writes_data st st' :
  link_writes (E := entry) st st' → data st' = data st ∧ nr_free st' = nr_free st.
Proof.
  induction 1 as [st|st st1 st2 (e & l & Hs) _ [-> ->]]; [done|].
  destruct e as [|i]; simpl in Hs; simplify_eq; [done|].
  apply upd_page_inv in Hs as (pg & Hp & Hi & ->). unfold data. simpl.
  split; [|done]. rewrite list_fmap_insert. apply list_insert_id.
  rewrite list_lookup_fmap. unfold page in Hp. apply aget_Ok in Hp as [_ ->]. done.
Qed.

Lemma page_is_entry st i d : aget (data st) i = Ok d → is_entry st (EPage i).
Proof. intros (pg & Hp & _)%page_data_Ok. exists (page_link pg). simpl. by rewrite Hp. Qed.

(** ** Blocks *)

Lemma pages_of_cons b bs : pages_of (b :: bs) = seqZ b.1 b.2 ++ pages_of bs.
Proof. done. Qed.

#[global] Instance pages_of_perm : Proper ((≡ₚ) ==> (≡ₚ)) pages_of.
Proof. intros bs bs' Hp. unfold pages_of. by rewrite Hp. Qed.

#[global] Instance blocks_ok_perm pd : Proper ((≡ₚ) ==> impl) (blocks_ok pd).
Proof.
  intros bs bs' Hp [H1 H2 H3 H4 H5]. split; [done|by rewrite <-Hp| | |].
  - intros i. rewrite <-Hp. apply H3.
  - intros b. rewrite <-Hp. apply H4.
  - intros i d. rewrite <-Hp. apply H5.
Qed.

Lemma elem_of_pages_of i bs : i ∈ pages_of bs ↔ ∃ b, b ∈ bs ∧ b.1 ≤ i < b.1 + b.2.
Proof. unfold pages_of. rewrite list_elem_of_bind. setoid_rewrite elem_of_seqZ. naive_solver. Qed.

Lemma zlen_seqZ a n : 0 ≤ n → zlen (seqZ a n) = n.
Proof. intros. unfold zlen. rewrite length_seqZ. lia. Qed.

Lemma seqZ_split a n m : 0 ≤ n ≤ m → seqZ a m = seqZ a n ++ seqZ (a + n) (m - n).
Proof. intros. rewrite <-seqZ_app by lia. f_equal. lia. Qed.

Lemma blocks_ok_head_lookup pd bs (b : block) :
  blocks_ok pd bs → b ∈ bs →
  ∃ r f, aget pd b.1 = Ok (r, f, b.2) ∧ 0 < b.2 ∧ 0 ≤ b.1 < zlen pd ∧
    test_bit PG_property f = true ∧ test_bit PG_reserved f = false.
Proof.
  intros Hok Hb. destruct (bok_size _ _ Hok b Hb) as (Hs & [[r f] s] & Hd & Hp).
  simpl in Hp. subst s. exists r, f. split_and!; [done|done|by eapply aget_range..| |].
  - eapply (bok_head _ _ Hok _ _ Hd). apply list_elem_of_fmap. by exists b.
  - destruct (bok_free _ _ Hok b.1) as (d & Hd' & Hr).
    + apply elem_of_pages_of. exists b. split; [done|lia].
    + by rewrite Hd in Hd'; injection Hd' as <-.
Qed.

(** Two blocks of the list do not overlap. *)
Lemma blocks_disjoint b b' bs i :
  NoDup (pages_of (b :: b' :: bs)) → b.1 ≤ i < b.1 + b.2 → b'.1 ≤ i < b'.1 + b'.2 → False.
Proof.
  rewrite !pages_of_cons. intros (_ & Hd & _)%NoDup_app Hi Hi'.
  apply (Hd i); [by apply elem_of_seqZ|]. apply elem_of_app. left. by apply elem_of_seqZ.
Qed.

Lemma block_in_rest_disjoint b b' bs i :
  NoDup (pages_of (b :: bs)) → b' ∈ bs → b.1 ≤ i < b.1 + b.2 → b'.1 ≤ i < b'.1 + b'.2 → False.
Proof.
  rewrite pages_of_cons. intros (_ & Hd & _)%NoDup_app Hb Hi Hi'.
  apply (Hd i); [by apply elem_of_seqZ|]. apply elem_of_pages_of. by exists b'.
Qed.

(** A head of the other blocks is not inside the first one. *)
Lemma head_not_inside pd b bs i :
  blocks_ok pd (b :: bs) → b.1 ≤ i < b.1 + b.2 → i ∉ (fst <$> bs).
Proof.
  intros Hok Hi (b' & -> & Hb')%list_elem_of_fmap.
  destruct (bok_size _ _ Hok b') as [Hs _]; [by right|].
  eapply block_in_rest_disjoint; [exact (bok_nodup _ _ Hok)|done|done|lia].
Qed.

(** The reserved bit of the free pages survives updates of the heads. *)
Lemma free_pages_insert (pd : list (Z * Z * Z)) p r f s r' f' s' (free : list Z) :
  aget pd p = Ok (r, f, s) →
  (test_bit PG_reserved f = false → test_bit PG_reserved f' = false) →
  (∀ i, i ∈ free → ∃ d, aget pd i = Ok d ∧ test_bit PG_reserved d.1.2 = false) →
  (∀ i, i ∈ free → ∃ d, aget (<[Z.to_nat p := (r', f', s')]> pd) i = Ok d ∧
     test_bit PG_reserved d.1.2 = false).
Proof.
  intros Hp Hf Hfree i Hi. destruct (Hfree i Hi) as (d & Hd & Hr).
  rewrite aget_insert by (by eapply aget_range). case_decide; [|by exists d].
  subst. rewrite Hd in Hp. injection Hp as ->. eexists. split; [done|]. simpl. by apply Hf.
Qed.

Lemma reserved_set f : test_bit PG_reserved f = false →
  test_bit PG_reserved (set_bit PG_property f) = false.
Proof. intros. rewrite testbit_set by done. by apply orb_false_iff. Qed.

Lemma reserved_clear f : test_bit PG_reserved f = false →
  test_bit PG_reserved (clear_bit PG_property f) = false.
Proof. intros. rewrite testbit_clear by done. by apply andb_false_iff; right. Qed.

Lemma property_set f : test_bit PG_property (set_bit PG_property f) = true.
Proof. by rewrite testbit_set by done. Qed.

Lemma property_clear f : test_bit PG_property (clear_bit PG_property f) = false.
Proof. by rewrite testbit_clear by done. Qed.

#[local] Hint Resolve reserved_set reserved_clear property_set property_clear : outcome.

(** Taking a block out of the free blocks. *)
Lemma blocks_ok_take pd b bs r f s :
  blocks_ok pd (b :: bs) → aget pd b.1 = Ok (r, f, s) →
  blocks_ok (<[Z.to_nat b.1 := (r, clear_bit PG_property f, s)]> pd) bs.
Proof.
  intros Hok Hd. pose proof (aget_range _ _ _ Hd) as Hr.
  destruct (blocks_ok_head_lookup pd _ b Hok) as (_ & _ & _ & Hb & _ & _); [by left|].
  assert (b.1 ∉ (fst <$> bs)) as Hni by (eapply head_not_inside; [done|lia]).
  split.
  - rewrite zlen_insert. exact (bok_npage _ _ Hok).
  - pose proof (bok_nodup _ _ Hok) as Hnd. rewrite pages_of_cons in Hnd.
    by apply NoDup_app in Hnd as (_ & _ & ?).
  - apply (free_pages_insert pd b.1 r f s); [done|auto with outcome|].
    intros i Hi. apply (bok_free _ _ Hok). rewrite pages_of_cons. set_solver.
  - intros b' Hb'. destruct (bok_size _ _ Hok b') as (Hs & d & Hd' & Hp); [by right|].
    split; [done|]. exists d. rewrite aget_insert by done. rewrite decide_False; [done|].
    intros E. apply Hni. rewrite <-E. apply list_elem_of_fmap. by exists b'.
  - intros i d. rewrite aget_insert by done. case_decide as Hi.
    + intros [= <-]. simpl. rewrite property_clear. subst i. naive_solver.
    + intros Hd'. rewrite (bok_head _ _ Hok _ _ Hd'). set_solver.
Qed.

(** Splitting a block: its first [n] pages are taken, the others form a block. *)
Lemma blocks_ok_split pd b bs n r f s rb fb sb :
  blocks_ok pd (b :: bs) → 0 < n < b.2 →
  aget pd b.1 = Ok (rb, fb, sb) → aget pd (b.1 + n) = Ok (r, f, s) →
  blocks_ok (<[Z.to_nat b.1 := (rb, clear_bit PG_property fb, sb)]>
    (<[Z.to_nat (b.1 + n) := (r, set_bit PG_property f, b.2 - n)]> pd))
    ((b.1 + n, b.2 - n) :: bs).
Proof.
  intros Hok Hn Hdb Hdn. pose proof (aget_range _ _ _ Hdb) as Hrb.
  pose proof (aget_range _ _ _ Hdn) as Hrn.
  assert (∀ i, b.1 ≤ i < b.1 + b.2 → i ∉ (fst <$> bs)) as Hni
    by (intros; by eapply head_not_inside).
  split.
  - rewrite !zlen_insert. exact (bok_npage _ _ Hok).
  - pose proof (bok_nodup _ _ Hok) as Hnd. rewrite !pages_of_cons in *. simpl.
    rewrite (seqZ_split b.1 n b.2), <-(assoc_L (++)) in Hnd by lia.
    by apply NoDup_app in Hnd as (_ & _ & ?).
  - eapply free_pages_insert; [|by apply reserved_clear|].
    { rewrite aget_insert by done. rewrite decide_False by lia. done. }
    apply (free_pages_insert pd (b.1 + n) r f s); [done|auto with outcome|].
    intros i Hi. apply (bok_free _ _ Hok). rewrite !pages_of_cons in *. simpl in *.
    rewrite (seqZ_split b.1 n b.2) by lia. set_solver.
  - intros b' [->|Hb']%elem_of_cons; simpl.
    + split; [lia|]. eexists. rewrite aget_insert by (by rewrite zlen_insert).
      rewrite decide_False by lia. rewrite aget_insert by done. by rewrite decide_True.
    + destruct (bok_size _ _ Hok b') as (Hs & d & Hd' & Hp); [by right|].
      assert (b'.1 ∈ (fst <$> bs)) as Hin by (apply list_elem_of_fmap; by exists b').
      split; [done|]. exists d. rewrite aget_insert by (by rewrite zlen_insert).
      rewrite decide_False by (intros E; apply (Hni b.1); [lia|congruence]).
      rewrite aget_insert by done.
      rewrite decide_False by (intros E; apply (Hni (b.1 + n)); [lia|congruence]). done.
  - intros i d. rewrite aget_insert by (by rewrite zlen_insert).
    rewrite fmap_cons, elem_of_cons. simpl. case_decide as Hi; [|rewrite aget_insert by done; case_decide as Hi'].
    + intros [= <-]. simpl. rewrite property_clear. split; [done|].
      intros [?|?]; [lia|]. exfalso. apply (Hni i); [lia|done].
    + intros [= <-]. simpl. rewrite property_set. naive_solver.
    + intros Hd'. rewrite (bok_head _ _ Hok _ _ Hd'). set_solver.
Qed.

(** Joining two adjacent blocks. *)
Lemma blocks_ok_join pd a b bs ra fa sa rb fb sb :
  blocks_ok pd (a :: b :: bs) → a.1 + a.2 = b.1 →
  aget pd a.1 = Ok (ra, fa, sa) → aget pd b.1 = Ok (rb, fb, sb) →
  blocks_ok (<[Z.to_nat b.1 := (rb, clear_bit PG_property fb, sb)]>
    (<[Z.to_nat a.1 := (ra, fa, a.2 + b.2)]> pd)) ((a.1, a.2 + b.2) :: bs).
Proof.
  intros Hok Hab Hda Hdb. pose proof (aget_range _ _ _ Hda) as Hra.
  pose proof (aget_range _ _ _ Hdb) as Hrb.
  destruct (bok_size _ _ Hok a) as (Hsa & _); [by left|].
  destruct (bok_size _ _ Hok b) as (Hsb & _); [by right; left|].
  assert (pages_of ((a.1, a.2 + b.2) :: bs) = pages_of (a :: b :: bs)) as Hpages.
  { rewrite !pages_of_cons. simpl. rewrite seqZ_app, Hab by lia. by rewrite (assoc_L (++)). }
  assert (∀ i, i ∈ (fst <$> bs) → i ≠ a.1 ∧ i ≠ b.1) as Hni.
  { intros i (b' & -> & Hb')%list_elem_of_fmap.
    destruct (bok_size _ _ Hok b') as (Hs & _); [by do 2 right|].
    split; (intros E; eapply (block_in_rest_disjoint (a.1, a.2 + b.2) b' bs b'.1);
      [rewrite Hpages; exact (bok_nodup _ _ Hok)|done|simpl; lia|lia]). }
  split.
  - rewrite !zlen_insert. exact (bok_npage _ _ Hok).
  - rewrite Hpages. exact (bok_nodup _ _ Hok).
  - rewrite Hpages. eapply free_pages_insert; [|by apply reserved_clear|].
    { rewrite aget_insert by done. rewrite decide_False by lia. done. }
    eapply free_pages_insert; [done|done|]. exact (bok_free _ _ Hok).
  - intros b' [->|Hb']%elem_of_cons; simpl.
    + split; [lia|]. eexists. rewrite aget_insert by (by rewrite zlen_insert).
      rewrite decide_False by lia. rewrite aget_insert by done. by rewrite decide_True.
    + destruct (bok_size _ _ Hok b') as (Hs & d & Hd' & Hp); [by do 2 right|].
      destruct (Hni b'.1) as [? ?]; [apply list_elem_of_fmap; by exists b'|].
      split; [done|]. exists d. rewrite aget_insert by (by rewrite zlen_insert).
      rewrite decide_False by done. rewrite aget_insert by done. by rewrite decide_False.
  - intros i d. rewrite aget_insert by (by rewrite zlen_insert).
    rewrite fmap_cons, elem_of_cons. simpl. case_decide as Hi; [|rewrite aget_insert by done; case_decide as Hi'].
    + intros [= <-]. simpl. rewrite property_clear. split; [done|].
      intros [?|?]; [lia|]. subst. by destruct (Hni b.1).
    + intros [= <-]. simpl. subst i. split; [by left|]. intros _.
      apply (bok_head _ _ Hok _ _ Hda). by left.
    + intros Hd'. rewrite (bok_head _ _ Hok _ _ Hd'). set_solver.
Qed.

Lemma heads_NoDup bs :
  NoDup (pages_of bs) → (∀ b, b ∈ bs → 0 < b.2) → NoDup (fst <$> bs).
Proof.
  induction bs as [|b bs IH]; intros Hnd Hs; [constructor|]. rewrite fmap_cons.
  constructor.
  - intros (b' & Hb' & Hin)%list_elem_of_fmap. assert (0 < b'.2) by (apply Hs; by right).
    assert (0 < b.2) by (apply Hs; by left).
    by eapply (block_in_rest_disjoint b b' bs b.1); [|done|lia|lia].
  - rewrite pages_of_cons in Hnd. apply NoDup_app in Hnd as (_ & _ & Hnd).
    apply IH; [done|]. intros b' ?. apply Hs. by right.
Qed.

Lemma blocks_ok_heads pd bs : blocks_ok pd bs → NoDup (fst <$> bs).
Proof.
  intros Hok. apply heads_NoDup; [exact (bok_nodup _ _ Hok)|].
  intros b Hb. by destruct (bok_size _ _ Hok b Hb).
Qed.

(** Distinct indices of an array are no more than its length. *)
Lemma NoDup_indices {A} (l : list A) (is_ : list Z) :
  NoDup is_ → (∀ i, i ∈ is_ → 0 ≤ i < zlen l) → (length is_ ≤ length l)%nat.
Proof.
  intros Hnd Hi. replace (length l) with (length (seqZ 0 (zlen l)))
    by (rewrite length_seqZ; unfold zlen; lia).
  apply submseteq_length, NoDup_submseteq; [done|].
  intros i ?%Hi. apply elem_of_seqZ. lia.
Qed.

Lemma blocks_ok_pages_range pd bs i : blocks_ok pd bs → i ∈ pages_of bs → 0 ≤ i < zlen pd.
Proof. intros Hok Hi. destruct (bok_free _ _ Hok i Hi) as (d & Hd & _). by eapply aget_range. Qed.

Lemma blocks_ok_npages pd bs : blocks_ok pd bs → zlen (pages_of bs) ≤ zlen pd.
Proof.
  intros Hok. unfold zlen at 1 2. apply Nat2Z.inj_le. apply NoDup_indices.
  - exact (bok_nodup _ _ Hok).
  - intros i. by apply blocks_ok_pages_range.
Qed.

Lemma blocks_ok_length pd bs : blocks_ok pd bs → (length bs ≤ length pd)%nat.
Proof.
  intros Hok. rewrite <-(length_fmap fst). apply NoDup_indices; [by eapply blocks_ok_heads|].
  intros i (b & -> & Hb)%list_elem_of_fmap.
  by destruct (blocks_ok_head_lookup pd bs b Hok Hb) as (? & ? & ? & ? & ? & ?).
Qed.

Lemma blocks_ok_bounds pd bs b :
  blocks_ok pd bs → b ∈ bs → 0 < b.2 ∧ 0 ≤ b.1 ∧ b.1 + b.2 ≤ zlen pd.
Proof.
  intros Hok Hb. destruct (bok_size _ _ Hok b Hb) as (Hs & d & Hd & _).
  apply aget_range in Hd. split_and!; [done|lia|].
  assert (0 ≤ b.1 + b.2 - 1 < zlen pd); [|lia].
  eapply blocks_ok_pages_range; [done|]. apply elem_of_pages_of. exists b. split; [done|lia].
Qed.

(** The head entries of distinct blocks are distinct. *)
Lemma entry_not_in pd b bs :
  blocks_ok pd (b :: bs) → EPage b.1 ∉ EHead :: entries bs.
Proof.
  intros Hok. apply not_elem_of_cons. split; [done|].
  intros (b' & [= Hb] & Hin)%list_elem_of_fmap. pose proof (blocks_ok_heads _ _ Hok) as Hnd.
  rewrite fmap_cons in Hnd. apply NoDup_cons in Hnd as [Hnd _]. apply Hnd.
  rewrite Hb. apply list_elem_of_fmap. by exists b'.
Qed.

(** *** Marking a range of pages *)

(** [pd'] is [pd] with [g] applied to the descriptors of the pages [lo..hi). *)
Definition range_data (pd pd' : list (Z * Z * Z)) (lo hi : Z)
    (g : Z → Z * Z * Z → Z * Z * Z) : Prop :=
  zlen pd' = zlen pd ∧
  ∀ i, aget pd' i = if decide (lo ≤ i < hi) then g i <$> aget pd i else aget pd i.

Lemma page_loop_spec body g lo hi st :
  lo ≤ hi →
  (∀ p s, lo ≤ p < hi → aget (data s) p = aget (data st) p →
     ∃ s' d, body p s = Ok s' ∧ aget (data s) p = Ok d ∧
       with_data s s' (<[Z.to_nat p := g p d]> (data s))) →
  ∃ st', for_range lo hi body st = Ok st' ∧ nr_free st' = nr_free st ∧
    (∀ e : entry, get_link st' e = get_link st e) ∧
    range_data (data st) (data st') lo hi g.
Proof.
  intros Hle Hb.
  apply (for_range_spec (λ p s, nr_free s = nr_free st ∧
    (∀ e : entry, get_link s e = get_link st e) ∧ range_data (data st) (data s) lo p g)).
  - done.
  - split_and!; [done|done|]. split; [done|]. intros i. by rewrite decide_False by lia.
  - intros p s Hp (Hnr & Hl & Hz & Hr).
    destruct (Hb p s Hp) as (s' & d & Hs' & Hd & Hda & Hn' & Hl').
    { by rewrite Hr, decide_False by lia. }
    exists s'. split; [done|]. split_and!; [congruence|intros e; by rewrite Hl', Hl|].
    pose proof (aget_range _ _ _ Hd). split; [by rewrite Hda, zlen_insert|].
    intros i. rewrite Hda, aget_insert by done. case_decide as Hi.
    + subst i. rewrite decide_True by lia. rewrite Hr, decide_False in Hd by lia. by rewrite Hd.
    + rewrite Hr. by repeat case_decide; try lia.
Qed.

(** Pages that are not free become a free block once they are cleared and the
    first one is marked. *)
Lemma blocks_ok_release pd pd' bs base n (h : Z * Z * Z → Z) :
  blocks_ok pd bs → 0 < n →
  (∀ i, base ≤ i < base + n → (∃ d, aget pd i = Ok d) ∧ i ∉ pages_of bs) →
  range_data pd pd' base (base + n) (λ i d,
    if i =? base then (0, set_bit PG_property 0, n) else (0, 0, h d)) →
  blocks_ok pd' ((base, n) :: bs).
Proof.
  intros Hok Hn Hr [Hz Hpd].
  assert (∀ b, b ∈ bs → ¬ base ≤ b.1 < base + n) as Hheads.
  { intros b Hb Hi. apply Hr in Hi as [_ Hi]. apply Hi, elem_of_pages_of.
    destruct (bok_size _ _ Hok b Hb). exists b. split; [done|lia]. }
  split.
  - rewrite Hz. exact (bok_npage _ _ Hok).
  - rewrite pages_of_cons. apply NoDup_app. split_and!; [apply NoDup_seqZ| |exact (bok_nodup _ _ Hok)].
    intros i Hi. apply elem_of_seqZ in Hi. by apply Hr.
  - intros i. rewrite pages_of_cons, elem_of_app, elem_of_seqZ. simpl. intros Hi.
    rewrite Hpd. case_decide as Hd.
    + destruct (Hr i Hd) as [[d ->] _]. simpl. eexists. split; [done|]. by case_match.
    + destruct Hi as [?|Hi]; [done|]. by apply (bok_free _ _ Hok).
  - intros b [->|Hb]%elem_of_cons; simpl.
    + split; [done|]. rewrite Hpd, decide_True by lia. destruct (Hr base) as [[d ->] _]; [lia|].
      simpl. rewrite Z.eqb_refl. by eexists.
    + rewrite Hpd, decide_False by (by apply Hheads). by apply (bok_size _ _ Hok).
  - intros i d. rewrite Hpd, fmap_cons, elem_of_cons. simpl. case_decide as Hd.
    + intros (d0 & Hd0 & ->)%fmap_Ok. destruct (Z.eqb_spec i base); simpl.
      { rewrite property_set. naive_solver. }
      split; [done|]. intros [?|(b & -> & Hb)%list_elem_of_fmap]; [done|]. by destruct (Hheads b Hb).
    + intros Hd0. rewrite (bok_head _ _ Hok _ _ Hd0). split; [by right|].
      intros [->|?]; [lia|done].
Qed.

(** *** What the list operations keep of a descriptor *)

(** The reference count and the reserved bit of every page. *)
Definition kept (pd : list (Z * Z * Z)) : list (Z * bool) :=
  (λ d, (d.1.1, test_bit PG_reserved d.1.2)) <$> pd.

(** The free pages have no reference and are not reserved. *)
Definition unreferenced (st : pmm) (bs : list block) : Prop :=
  ∀ i, i ∈ pages_of bs → aget (kept (data st)) i = Ok (0, false).

Lemma kept_insert pd p r f s f' s' :
  aget pd p = Ok (r, f, s) → test_bit PG_reserved f' = test_bit PG_reserved f →
  kept (<[Z.to_nat p := (r, f', s')]> pd) = kept pd.
Proof.
  intros [_ Hp]%aget_Ok Hf. unfold kept. rewrite list_fmap_insert. simpl. rewrite Hf.
  apply list_insert_id. by rewrite list_lookup_fmap, Hp.
Qed.

Lemma reserved_set_eq f : test_bit PG_reserved (set_bit PG_property f) = test_bit PG_reserved f.
Proof. by rewrite testbit_set. Qed.

Lemma reserved_clear_eq f : test_bit PG_reserved (clear_bit PG_property f) = test_bit PG_reserved f.
Proof. by rewrite testbit_clear. Qed.

Lemma page_loop_kept pd pd' lo hi g i :
  range_data pd pd' lo hi g →
  aget (kept pd') i =
    if decide (lo ≤ i < hi)
    then (λ d, ((g i d).1.1, test_bit PG_reserved (g i d).1.2)) <$> aget pd i
    else aget (kept pd) i.
Proof.
  intros [_ Hpd]. unfold kept. rewrite !aget_fmap, Hpd. case_decide; [|done].
  by destruct (aget pd i).
Qed.

(** *** The loops over the free list *)

Lemma entries_app l k : entries (l ++ k) = entries l ++ entries k.
Proof. apply fmap_app. Qed.

(** Blocks [hid] that are free but linked in another list: their descriptors
    are those of free blocks, the list of [st] and its counter ignore them. *)
Definition pmm_rep_with (st : pmm) (bs hid : list block) : Prop :=
  dll st EHead (entries bs) ∧ blocks_ok (data st) (bs ++ hid) ∧ nr_free st = zlen (pages_of bs).

Lemma pmm_rep_with_nil st bs : pmm_rep_with st bs [] ↔ pmm_rep st bs.
Proof. unfold pmm_rep_with, pmm_rep. by rewrite app_nil_r. Qed.

(** The links of the hidden blocks. *)
Definition links_kept (st st' : pmm) (hid : list block) : Prop :=
  ∀ b, b ∈ hid → get_link st' (EPage b.1) = get_link st (EPage b.1).

Lemma links_kept_trans st1 st2 st3 hid :
  links_kept st1 st2 hid → links_kept st2 st3 hid → links_kept st1 st3 hid.
Proof. intros H1 H2 b Hb. by rewrite H2, H1. Qed.

Lemma links_kept_all st st' hid :
  (∀ e : entry, get_link st' e = get_link st e) → links_kept st st' hid.
Proof. intros H b _. apply H. Qed.

Lemma links_kept_step st st1 st2 hid :
  (∀ e : entry, get_link st1 e = get_link st e) → links_kept st1 st2 hid → links_kept st st2 hid.
Proof. intros H H2 b Hb. by rewrite H2, H. Qed.

Lemma links_kept_last st st1 st2 hid :
  links_kept st st1 hid → (∀ b : block, get_link st2 (EPage b.1) = get_link st1 (EPage b.1)) →
  links_kept st st2 hid.
Proof. intros H H2 b Hb. by rewrite H2, H. Qed.

Lemma hidden_not_entry pd l bs hid (b : block) :
  blocks_ok pd (l ++ bs ++ hid) → b ∈ hid → EPage b.1 ∉ EHead :: entries bs.
Proof.
  intros Hok Hb. apply not_elem_of_cons. split; [done|].
  intros (b' & [= E] & Hin)%list_elem_of_fmap. pose proof (blocks_ok_heads _ _ Hok) as Hnd.
  rewrite !fmap_app in Hnd. apply NoDup_app in Hnd as (_ & _ & (_ & Hd & _)%NoDup_app).
  apply (Hd b'.1); [by apply list_elem_of_fmap_2|]. rewrite <-E. by apply list_elem_of_fmap_2.
Qed.

Lemma pages_of_app bs hid : pages_of (bs ++ hid) = pages_of bs ++ pages_of hid.
Proof. apply bind_app. Qed.

Lemma last_entries_snoc l b : last (entries (l ++ [b])) = Some (EPage b.1).
Proof. rewrite entries_app. apply last_snoc. Qed.

Lemma page_of_block st b bs :
  blocks_ok (data st) bs → b ∈ bs → ∃ pg, page st b.1 = Ok pg ∧ property pg = b.2 ∧
    aget (data st) b.1 = Ok (ref pg, flags pg, b.2).
Proof.
  intros Hok Hb. destruct (blocks_ok_head_lookup _ _ _ Hok Hb) as (r & f & Hd & _).
  pose proof Hd as Hd'. apply page_data_Ok in Hd' as (pg & Hp & [= -> -> Hs]). by exists pg.
Qed.

(** The search loop of [default_alloc_pages] is [first_fit]. *)
Lemma find_loop_spec st n pre post hid fuel :
  dll st EHead (entries (pre ++ post)) → blocks_ok (data st) ((pre ++ post) ++ hid) →
  (length post < fuel)%nat →
  loop fuel (find_step st n) (default EHead (last (entries pre))) =
    Ok ((λ br, br.1.1) <$> first_fit n post).
Proof.
  revert pre fuel. induction post as [|b post IH]; intros pre fuel Hd Hok Hf;
    (destruct fuel as [|fuel]; [simpl in Hf; lia|]); rewrite loop_unfold; unfold find_step at 2;
    pose proof Hd as Hd'; rewrite entries_app in Hd'; rewrite (dll_next_cut _ _ _ _ Hd'); simpl.
  - done.
  - destruct (page_of_block st b _ Hok) as (pg & Hp & Hs & _); [set_solver|].
    rewrite Hp. simpl. rewrite Hs. destruct (n <=? b.2); simpl; [done|].
    rewrite cons_middle, (assoc_L (++)) in Hd, Hok.
    specialize (IH (pre ++ [b]) fuel Hd Hok). rewrite last_entries_snoc in IH. simpl in *.
    rewrite IH by lia. by destruct (first_fit n post) as [[? ?]|].
Qed.

(** The merging loop is [merge_blocks]. *)
Lemma merge_loop_spec seen rest hid r st le fuel :
  dll st EHead (entries (seen ++ rest)) → blocks_ok (data st) (r :: (seen ++ rest) ++ hid) →
  list_next st le = Ok (default EHead (head (entries rest))) → (length rest < fuel)%nat →
  ∃ st' r' l, loop fuel merge_step (st, r.1, le) = Ok (st', r'.1) ∧
    merge_blocks r rest = (r', l) ∧ dll st' EHead (entries (seen ++ l)) ∧
    blocks_ok (data st') (r' :: (seen ++ l) ++ hid) ∧ nr_free st' = nr_free st ∧
    kept (data st') = kept (data st) ∧ links_kept st st' hid.
Proof.
  revert seen r st le fuel. induction rest as [|b rest IH]; intros seen r st le fuel Hd Hok Hle Hf;
    (destruct fuel as [|fuel]; [simpl in Hf; lia|]); rewrite loop_unfold; unfold merge_step at 2;
    rewrite Hle; simpl.
  - exists st, r, []. by split_and!.
  - destruct (page_of_block st r _ Hok) as (pr & Hpr & Hsr & Hdr); [by left|].
    destruct (page_of_block st b _ Hok) as (pb & Hpb & Hsb & Hdb); [set_solver|].
    rewrite Hpr. simpl. rewrite Hpb. simpl. rewrite Hsr, Hsb.
    assert (blocks_ok (data st) (r :: b :: (seen ++ rest) ++ hid)) as Hok1
      by (eapply blocks_ok_perm; [|exact Hok]; by rewrite <-Permutation_middle).
    assert (blocks_ok (data st) (b :: r :: (seen ++ rest) ++ hid)) as Hok2
      by (eapply blocks_ok_perm; [|exact Hok1]; constructor).
    pose proof (blocks_ok_bounds _ _ r Hok ltac:(by left)) as Br.
    pose proof (blocks_ok_bounds _ _ b Hok ltac:(set_solver)) as Bb.
    pose proof (bok_npage _ _ Hok) as Hnp.
    assert (∀ st1 pd, with_data st st1 pd → ∃ st2, list_del st1 (EPage b.1) = Ok st2 ∧
      dll st2 EHead (entries (seen ++ rest)) ∧ data st2 = pd ∧ nr_free st2 = nr_free st ∧
      list_next st2 (EPage b.1) = Ok (default EHead (head (entries rest))) ∧
      links_kept st st2 hid) as Hdel.
    { intros st1 pd Hw. pose proof (with_data_dll _ _ _ _ Hw Hd) as Hd1. pose proof Hd1 as Hd0.
      rewrite entries_app in Hd1. pose proof (dll_next _ _ _ _ _ Hd1) as Hnext.
      destruct (list_del_spec _ _ _ _ _ Hd1) as (st2 & R & Hd2 & W & E).
      destruct (link_writes_data _ _ W) as [E1 E2]. destruct Hw as (E3 & E4 & L4).
      exists st2. rewrite entries_app. split_and!; [done|done|congruence|congruence|by rewrite E|].
      apply (links_kept_step _ _ _ _ L4). intros h Hh.
      eapply list_del_frame; [exact Hd0| |exact R|exact (hidden_not_entry _ [r] _ _ h Hok Hh)].
      right. apply list_elem_of_fmap. exists b. split; [done|set_solver]. }
    destruct (Z.eqb_spec (r.1 + r.2) b.1) as [Hadj|Hadj].
    { destruct (set_property_data st r.1 (u32 (r.2 + b.2)) _ _ _ Hdr) as (st1 & -> & W1). simpl.
      rewrite u32_small in W1 by lia.
      assert (aget (data st1) b.1 = Ok (ref pb, flags pb, b.2)) as Hdb1.
      { destruct W1 as (-> & _). rewrite aget_insert by (by eapply aget_range).
        by rewrite decide_False by lia. }
      destruct (ClearPageProperty_data _ _ _ _ _ Hdb1) as (st2 & -> & W2). simpl.
      pose proof (with_data_trans _ _ _ _ _ W1 W2) as W. destruct W1 as (E1 & _). rewrite E1 in W.
      destruct (Hdel st2 _ W) as (st3 & -> & Hd3 & E3 & Hnr & Hn3 & Hk3). simpl.
      destruct (IH seen (r.1, r.2 + b.2) st3 (EPage b.1) fuel Hd3) as (st' & r' & l & R & M & Hd' & Hok' & Hnr' & Hz' & Hk');
        [by rewrite E3; eapply blocks_ok_join|done|simpl in Hf; lia|].
      exists st', r', l. split_and!; try done; [congruence| |exact (links_kept_trans _ _ _ _ Hk3 Hk')].
      rewrite Hz', E3. rewrite E1 in Hdb1. by rewrite (kept_insert _ _ _ _ _ _ _ Hdb1 (reserved_clear_eq _)), (kept_insert _ _ _ _ _ _ _ Hdr). }
    destruct (Z.eqb_spec (b.1 + b.2) r.1) as [Hadj'|Hadj'].
    { destruct (set_property_data st b.1 (u32 (b.2 + r.2)) _ _ _ Hdb) as (st1 & -> & W1). simpl.
      rewrite u32_small in W1 by lia.
      assert (aget (data st1) r.1 = Ok (ref pr, flags pr, r.2)) as Hdr1.
      { destruct W1 as (-> & _). rewrite aget_insert by (by eapply aget_range).
        by rewrite decide_False by lia. }
      destruct (ClearPageProperty_data _ _ _ _ _ Hdr1) as (st2 & -> & W2). simpl.
      pose proof (with_data_trans _ _ _ _ _ W1 W2) as W. destruct W1 as (E1 & _). rewrite E1 in W.
      destruct (Hdel st2 _ W) as (st3 & -> & Hd3 & E3 & Hnr & Hn3 & Hk3). simpl.
      destruct (IH seen (b.1, b.2 + r.2) st3 (EPage b.1) fuel Hd3) as (st' & r' & l & R & M & Hd' & Hok' & Hnr' & Hz' & Hk');
        [by rewrite E3; eapply blocks_ok_join|done|simpl in Hf; lia|].
      exists st', r', l. split_and!; try done; [congruence| |exact (links_kept_trans _ _ _ _ Hk3 Hk')].
      rewrite Hz', E3. rewrite E1 in Hdr1. by rewrite (kept_insert _ _ _ _ _ _ _ Hdr1 (reserved_clear_eq _)), (kept_insert _ _ _ _ _ _ _ Hdb). }
    rewrite cons_middle, (assoc_L (++)) in Hd, Hok. pose proof Hd as Hd1.
    rewrite (entries_app (seen ++ [b])) in Hd1. pose proof (dll_next_cut _ _ _ _ Hd1) as Hn.
    rewrite last_entries_snoc in Hn. simpl in Hn.
    destruct (IH (seen ++ [b]) r st (EPage b.1) fuel Hd Hok Hn) as (st' & r' & l & R & M & Hd' & Hok' & Hnr' & Hz' & Hk');
      [simpl in Hf; lia|].
    exists st', r', (b :: l). rewrite M. rewrite <-(assoc_L (++) seen [b] l) in Hd', Hok'. by split_and!.
Qed.

(** The placing loop stops at the entry before which [place_block] puts [r]. *)
Lemma place_loop_spec st r pre post hid fuel :
  dll st EHead (entries (pre ++ post)) → blocks_ok (data st) (r :: (pre ++ post) ++ hid) →
  (length post < fuel)%nat →
  ∃ l1 l2, post = l1 ++ l2 ∧ place_block r post = l1 ++ r :: l2 ∧
    loop fuel (place_step st r.1) (default EHead (last (entries pre))) =
      Ok (default EHead (head (entries l2))).
Proof.
  revert pre fuel. induction post as [|b post IH]; intros pre fuel Hd Hok Hf;
    (destruct fuel as [|fuel]; [simpl in Hf; lia|]); rewrite loop_unfold; unfold place_step at 2;
    pose proof Hd as Hd'; rewrite entries_app in Hd'; rewrite (dll_next_cut _ _ _ _ Hd'); simpl.
  - by exists [], [].
  - destruct (page_of_block st r _ Hok) as (pr & Hpr & Hsr & Hdr); [by left|].
    rewrite Hpr. simpl. rewrite Hsr. destruct (r.1 + r.2 <=? b.1); simpl.
    { by exists [], (b :: post). }
    rewrite cons_middle, (assoc_L (++)) in Hd, Hok.
    destruct (IH (pre ++ [b]) fuel Hd Hok) as (l1 & l2 & E1 & E2 & E3); [simpl in *; lia|].
    rewrite last_entries_snoc in E3. simpl in E3.
    exists (b :: l1), l2. split_and!; [by rewrite E1|by rewrite E2|done].
Qed.

(** *** Facts about the abstract functions *)

Lemma first_fit_Some n bs b rest :
  first_fit n bs = Some (b, rest) →
  ∃ pre post, bs = pre ++ b :: post ∧ rest = pre ++ post ∧ n ≤ b.2 ∧ Forall (λ b', b'.2 < n) pre.
Proof.
  revert b rest. induction bs as [|b0 bs IH]; intros b rest; simpl; [done|].
  destruct (Z.leb_spec n b0.2).
  - intros [= <- <-]. exists [], bs. by split_and!.
  - intros Hff. destruct (first_fit n bs) as [[b1 rest1]|] eqn:E; simpl in Hff; [|done].
    injection Hff as <- <-. destruct (IH b1 rest1 eq_refl) as (pre & post & -> & -> & ? & ?).
    exists (b0 :: pre), post. split_and!; [done|done|done|by constructor].
Qed.

Lemma first_fit_None n bs : first_fit n bs = None ↔ Forall (λ b, b.2 < n) bs.
Proof.
  induction bs as [|b bs IH]; simpl; [done|]. rewrite Forall_cons, <-IH.
  destruct (Z.leb_spec n b.2); destruct (first_fit n bs) as [[? ?]|]; simpl; naive_solver lia.
Qed.

Lemma merge_blocks_pages r bs r' l :
  merge_blocks r bs = (r', l) → 0 ≤ r.2 → Forall (λ b, 0 ≤ b.2) bs →
  pages_of (r' :: l) ≡ₚ pages_of (r :: bs).
Proof.
  revert r r' l. induction bs as [|b bs IH]; intros r r' l.
  { by intros [= <- <-]. }
  cbn [merge_blocks].
  intros Hm Hr [Hb Hbs]%Forall_cons.
  destruct (Z.eqb_spec (r.1 + r.2) b.1) as [E|_].
  { rewrite (IH _ _ _ Hm); [|simpl; lia|done]. rewrite !pages_of_cons. simpl.
    by rewrite seqZ_app, E, (assoc_L (++)) by lia. }
  destruct (Z.eqb_spec (b.1 + b.2) r.1) as [E|_].
  { rewrite (IH _ _ _ Hm); [|simpl; lia|done]. rewrite !pages_of_cons. simpl.
    rewrite seqZ_app, E by lia. rewrite (assoc_L (++)). f_equiv. by rewrite (comm (++)). }
  destruct (merge_blocks r bs) as [r1 l1] eqn:M. injection Hm as <- <-.
  specialize (IH _ _ _ M Hr Hbs). rewrite !pages_of_cons in *. rewrite Permutation_app_swap_app, IH.
  apply Permutation_app_swap_app.
Qed.

Lemma place_block_perm r bs : place_block r bs ≡ₚ r :: bs.
Proof.
  induction bs as [|b bs IH]; simpl; [done|]. case_match; [done|].
  rewrite IH. constructor.
Qed.

Lemma free_blocks_pages base n bs :
  0 ≤ n → Forall (λ b, 0 ≤ b.2) bs →
  pages_of (free_blocks base n bs) ≡ₚ seqZ base n ++ pages_of bs.
Proof.
  intros Hn Hbs. unfold free_blocks. destruct (merge_blocks (base, n) bs) as [r l] eqn:M.
  rewrite place_block_perm. by rewrite (merge_blocks_pages _ _ _ _ M).
Qed.

Lemma alloc_blocks_pages n bs b bs' :
  alloc_blocks n bs = Some (b, bs') → 0 ≤ n →
  pages_of bs ≡ₚ seqZ b n ++ pages_of bs'.
Proof.
  unfold alloc_blocks. destruct (first_fit n bs) as [[c rest]|] eqn:Ff; simpl; [|done].
  intros [= <- <-] Hn. apply first_fit_Some in Ff as (pre & post & -> & -> & Hc & _).
  rewrite <-Permutation_middle, pages_of_cons. case_match eqn:E.
  - rewrite pages_of_cons. simpl. rewrite (seqZ_split c.1 n c.2) by lia.
    by rewrite (assoc_L (++)).
  - apply Z.ltb_ge in E. by replace c.2 with n by lia.
Qed.

Lemma coalesced_perm bs bs' : bs ≡ₚ bs' → coalesced bs → coalesced bs'.
Proof. intros Hp Hc b b'. rewrite <-Hp. apply Hc. Qed.

(** After the merging loop nothing left in the list is adjacent to the merged
    block, provided the list had no two adjacent blocks to start with. *)
Lemma merge_blocks_coalesced_gen seen bs r r' l :
  merge_blocks r bs = (r', l) → coalesced (seen ++ bs) → 0 < r.2 →
  Forall (λ b, 0 < b.2) bs →
  (∀ k, k ∈ seen → r.1 + r.2 ≠ k.1 ∧ k.1 + k.2 ≠ r.1) →
  coalesced (r' :: seen ++ l).
Proof.
  revert seen r l. induction bs as [|b bs IH]; intros seen r l; cbn [merge_blocks].
  { intros [= <- <-] Hc Hr _ Hk. rewrite app_nil_r in *. intros x y Hx Hy.
    apply elem_of_cons in Hx as [->|Hx]; apply elem_of_cons in Hy as [->|Hy];
      [lia|by apply Hk|by apply Hk|by apply Hc]. }
  intros Hm Hc Hr [Hb Hbs]%Forall_cons Hk.
  assert (coalesced (seen ++ bs)) as Hc' by (intros x y Hx Hy; apply Hc; set_solver).
  assert (∀ k, k ∈ seen → b.1 + b.2 ≠ k.1 ∧ k.1 + k.2 ≠ b.1) as Hbk
    by (intros k ?; split; apply Hc; set_solver).
  destruct (Z.eqb_spec (r.1 + r.2) b.1).
  { apply (IH _ _ _ Hm Hc'); simpl; [lia|done|]. intros k Hin.
    destruct (Hk k Hin), (Hbk k Hin). lia. }
  destruct (Z.eqb_spec (b.1 + b.2) r.1).
  { apply (IH _ _ _ Hm Hc'); simpl; [lia|done|]. intros k Hin.
    destruct (Hk k Hin), (Hbk k Hin). lia. }
  destruct (merge_blocks r bs) as [r1 l1] eqn:M. injection Hm as <- <-.
  rewrite cons_middle, (assoc_L (++)) in Hc |- *. apply (IH _ _ _ M); [done|done|done|].
  intros k [Hin| ->%list_elem_of_singleton]%elem_of_app; [by apply Hk|done].
Qed.

Lemma free_blocks_coalesced base n bs :
  coalesced bs → 0 < n → Forall (λ b, 0 < b.2) bs → coalesced (free_blocks base n bs).
Proof.
  intros Hc Hn Hbs. unfold free_blocks. destruct (merge_blocks (base, n) bs) as [r l] eqn:M.
  eapply coalesced_perm; [symmetry; apply place_block_perm|].
  eapply (merge_blocks_coalesced_gen []); [done|done|done|done|].
  intros k Hk. by apply not_elem_of_nil in Hk.
Qed.

Lemma alloc_blocks_coalesced n bs b bs' :
  coalesced bs → 0 < n → Forall (λ b, 0 < b.2) bs → NoDup (pages_of bs) →
  alloc_blocks n bs = Some (b, bs') → coalesced bs'.
Proof.
  unfold alloc_blocks. intros Hc Hn Hpos Hnd Ha.
  destruct (first_fit n bs) as [[c rest]|] eqn:Ff; simpl in Ha; [|done].
  injection Ha as <- <-. apply first_fit_Some in Ff as (pre & post & -> & -> & Hcn & _).
  assert (coalesced (pre ++ post)) as Hc' by (intros x y Hx Hy; apply Hc; set_solver).
  case_match eqn:E; [|done]. apply Z.ltb_lt in E. intros x y Hx Hy.
  apply elem_of_cons in Hx as [->|Hx]; apply elem_of_cons in Hy as [->|Hy]; simpl; [lia| | |by apply Hc'].
  - replace (c.1 + n + (c.2 - n)) with (c.1 + c.2) by lia. apply Hc; set_solver.
  - intros Hxc. rewrite Forall_forall in Hpos. assert (0 < x.2) by (apply Hpos; set_solver).
    rewrite <-Permutation_middle in Hnd.
    eapply (block_in_rest_disjoint c x (pre ++ post) (c.1 + n - 1)); [done|done|lia|lia].
Qed.

(** ** The operations *)

Lemma blocks_ok_pos pd bs : blocks_ok pd bs → Forall (λ b, 0 < b.2) bs.
Proof. intros Hok. apply Forall_forall. intros b Hb. by destruct (bok_size _ _ Hok b Hb). Qed.

Lemma pmm_rep_with_nr_free st bs hid :
  pmm_rep_with st bs hid → 0 ≤ nr_free st ≤ zlen (pages st) ∧ zlen (pages st) < 2 ^ 32.
Proof.
  intros (_ & Hok & ->). pose proof (blocks_ok_npages _ _ Hok) as H1. pose proof (bok_npage _ _ Hok).
  rewrite pages_of_app, zlen_app in H1. unfold data in *. rewrite zlen_fmap in *.
  pose proof (zlen_nonneg (pages_of bs)). pose proof (zlen_nonneg (pages_of hid)). lia.
Qed.

Lemma pmm_rep_nr_free st bs : pmm_rep st bs → 0 ≤ nr_free st < 2 ^ 32.
Proof. intros H%pmm_rep_with_nil%pmm_rep_with_nr_free. lia. Qed.

Lemma walk_fuel_enough st bs : blocks_ok (data st) bs → (length bs < walk_fuel st)%nat.
Proof.
  intros Hok. apply blocks_ok_length in Hok. unfold data in Hok. rewrite length_fmap in Hok.
  unfold walk_fuel. lia.
Qed.

(** [default_init]: with no page marked as a block head, the allocator has no
    free page. *)
Lemma default_init_spec st :
  zlen (pages st) < 2 ^ 32 → (∀ i pg, page st i = Ok pg → PageProperty pg = false) →
  ∃ st', default_init st = Ok st' ∧ pmm_rep st' [] ∧ data st' = data st.
Proof.
  intros Hnp Hh. unfold default_init.
  destruct (list_init_spec st EHead) as (st1 & -> & Hd & W); [by eexists|]. simpl.
  destruct (link_writes_data _ _ W) as [E1 E2].
  exists (set_nr_free st1 0). split; [done|]. split; [|done]. split; [|split; [|done]].
  - eapply dll_ext; [|exact Hd]. by intros [|].
  - change (data (set_nr_free st1 0)) with (data st1). rewrite E1. split.
    + unfold data. by rewrite zlen_fmap.
    + constructor.
    + intros i Hi. by apply not_elem_of_nil in Hi.
    + intros b Hb. by apply not_elem_of_nil in Hb.
    + intros i d (pg & Hp & ->)%page_data_Ok. specialize (Hh i pg Hp).
      unfold PageProperty in Hh. simpl. rewrite Hh. split; [done|].
      intros Hi. by apply not_elem_of_nil in Hi.
Qed.

Lemma pmm_rep_intro st st' bs :
  dll st EHead (entries bs) → blocks_ok (data st) bs →
  data st' = data st → (∀ e : entry, get_link st' e = get_link st e) →
  nr_free st' = zlen (pages_of bs) → pmm_rep st' bs.
Proof. intros Hd Hok E1 E2 Hn. split; [by eapply dll_ext|]. by rewrite E1. Qed.

(** Inserting the released block before the entry the placing loop found. *)
Lemma insert_block_spec st r l1 l2 hid :
  dll st EHead (entries (l1 ++ l2)) → blocks_ok (data st) (r :: (l1 ++ l2) ++ hid) →
  ∃ st', list_add_before st (default EHead (head (entries l2))) (EPage r.1) = Ok st' ∧
    dll st' EHead (entries (l1 ++ r :: l2)) ∧ data st' = data st ∧ nr_free st' = nr_free st ∧
    links_kept st st' hid.
Proof.
  intros Hd Hok. pose proof Hd as Hd0. rewrite entries_app in Hd.
  destruct (list_add_before_spec st EHead (entries l1) (entries l2) (EPage r.1)
    (default EHead (head (entries l2)))) as (st' & R & Hd' & W); [done|done| | |].
  - rewrite <-entries_app. intros Hin. apply (entry_not_in _ _ _ Hok). rewrite (entries_app (l1 ++ l2)), app_comm_cons. apply elem_of_app. by left.
  - destruct (bok_size _ _ Hok r) as (_ & d & Hdr & _); [by left|]. by eapply page_is_entry.
  - exists st'. rewrite entries_app. destruct (link_writes_data _ _ W).
    split_and!; [done|done|done|done|]. intros h Hh.
    assert (EPage h.1 ∉ EHead :: entries (l1 ++ l2)) as Hn by (by apply (hidden_not_entry _ [r] _ _ h Hok)).
    eapply list_add_before_frame; [exact Hd0| |exact R|].
    + rewrite entries_app. destruct l2; simpl; set_solver.
    + apply not_elem_of_cons. split; [|done]. intros [= E].
      apply (hidden_not_entry _ [] [r] ((l1 ++ l2) ++ hid) h Hok); [set_solver|]. rewrite E. set_solver.
Qed.

Lemma pages_of_size b bs : b ∈ bs → Forall (λ b, 0 < b.2) bs → b.2 ≤ zlen (pages_of bs).
Proof.
  intros (l1 & l2 & ->)%list_elem_of_split HF. rewrite Forall_app, Forall_cons in HF.
  destruct HF as (_ & ? & _). rewrite <-Permutation_middle, pages_of_cons, zlen_app, zlen_seqZ by lia.
  pose proof (zlen_nonneg (pages_of (l1 ++ l2))). lia.
Qed.

Lemma alloc_blocks_size n bs b bs' :
  alloc_blocks n bs = Some (b, bs') → Forall (λ b, 0 < b.2) bs → n ≤ zlen (pages_of bs).
Proof.
  unfold alloc_blocks. destruct (first_fit n bs) as [[c rest]|] eqn:Ff; simpl; [|done].
  intros _ HF. apply first_fit_Some in Ff as (pre & post & -> & _ & ? & _).
  assert (c.2 ≤ zlen (pages_of (pre ++ c :: post))); [|lia].
  apply pages_of_size; [set_solver|done].
Qed.

(** What the code after the search does to a state whose chosen block is [c]. *)
Lemma take_block_spec st pre c post hid n :
  pmm_rep_with st (pre ++ c :: post) hid → 0 < n ≤ c.2 →
  let bs' := if n <? c.2 then (c.1 + n, c.2 - n) :: pre ++ post else pre ++ post in
  ∃ st', take_block st c.1 n = Ok st' ∧
    pmm_rep_with st' bs' hid ∧ kept (data st') = kept (data st) ∧ links_kept st st' hid.
Proof.
  intros Hrep Hn bs'. unfold take_block. pose proof (pmm_rep_with_nr_free _ _ _ Hrep) as Hnr. destruct Hrep as (Hd & Hok & Hnrf).
  assert (blocks_ok (data st) (c :: (pre ++ post) ++ hid)) as Hok'
    by (eapply blocks_ok_perm; [|exact Hok]; by rewrite <-Permutation_middle).
  assert (zlen (pages_of bs') = nr_free st - n) as Hlen.
  { rewrite Hnrf. apply Z.add_cancel_r with n. rewrite Z.sub_add.
    rewrite <-Permutation_middle, pages_of_cons. unfold bs'. case_match eqn:E.
    - rewrite pages_of_cons, !zlen_app, !zlen_seqZ; simpl; lia.
    - apply Z.ltb_ge in E. rewrite !zlen_app, !zlen_seqZ; lia. }
  assert (0 ≤ nr_free st - n < 2 ^ 32) as Hsub by (pose proof (zlen_nonneg (pages_of bs')); lia).
  pose proof Hd as Hd0. rewrite entries_app in Hd. change (entries (c :: post)) with (EPage c.1 :: entries post) in Hd.
  destruct (list_del_spec _ _ _ _ _ Hd) as (st1 & R1 & Hd1 & W1 & _).
  rewrite R1. simpl. destruct (link_writes_data _ _ W1) as [D1 N1].
  assert (links_kept st st1 hid) as K1.
  { intros h Hh. eapply list_del_frame; [exact Hd0| |exact R1|exact (hidden_not_entry _ [] _ _ h Hok Hh)].
    right. apply list_elem_of_fmap. exists c. split; [done|set_solver]. }
  rewrite <-entries_app in Hd1. rewrite <-D1 in Hok'.
  destruct (page_of_block st1 c _ Hok') as (pg & Hp & Hs & Hdc); [by left|].
  rewrite Hp. simpl. rewrite Hs. unfold bs' in *. clear bs'.
  pose proof (blocks_ok_bounds _ _ c Hok' ltac:(by left)) as Bc.
  pose proof (bok_npage _ _ Hok') as Hnp. pose proof (zlen_nonneg (pages_of (pre ++ post))).
  destruct (Z.ltb_spec n c.2).
  - destruct (aget_in_range (data st1) (c.1 + n)) as ([[r f] s] & Hdn & _); [lia|].
    destruct (set_property_data st1 (c.1 + n) (u32 (c.2 - n)) _ _ _ Hdn) as (st2 & -> & X2). simpl.
    rewrite u32_small in X2 by lia. pose proof X2 as (E2 & _).
    destruct (SetPageProperty_data st2 (c.1 + n) r f (c.2 - n)) as (st3 & -> & X3).
    { rewrite E2, aget_insert by lia. by rewrite decide_True. }
    simpl. pose proof (with_data_trans _ _ _ _ _ X2 X3) as X. rewrite E2, list_insert_insert_eq in X.
    destruct (list_add_after_spec st3 EHead [] (entries (pre ++ post)) (EPage (c.1 + n)) EHead)
      as (st4 & R4 & Hd4 & W4).
    { by eapply with_data_dll. } { done. }
    { apply not_elem_of_cons. split; [done|]. intros (b' & [= Hb] & Hin)%list_elem_of_fmap.
      apply (head_not_inside _ _ _ (c.1 + n) Hok'); [lia|]. rewrite Hb.
      apply list_elem_of_fmap. exists b'. split; [done|set_solver]. }
    { destruct X as (E3 & _). eapply page_is_entry. rewrite E3, aget_insert by lia.
      by rewrite decide_True. }
    assert (links_kept st st4 hid) as K4.
    { eapply links_kept_trans; [exact K1|]. destruct X as (_ & _ & L3). apply (links_kept_step _ _ _ _ L3). intros h Hh.
      eapply list_add_after_frame; [exact (dll_ext _ _ _ _ L3 Hd1)| |exact R4|]; [by left|].
      apply not_elem_of_cons. split; [|exact (hidden_not_entry _ [c] _ _ h Hok' Hh)]. intros [= E].
      apply (head_not_inside _ _ _ (c.1 + n) Hok'); [lia|]. rewrite <-E. apply list_elem_of_fmap_2. set_solver. }
    unfold list_add. rewrite R4. simpl. destruct (link_writes_data _ _ W4) as [D4 N4].
    destruct X as (E3 & N3 & _). rewrite E3 in D4.
    destruct (ClearPageProperty_data (set_nr_free st4 (u32 (nr_free st4 - n))) c.1 (ref pg) (flags pg) c.2)
      as (st5 & -> & D5 & N5 & L5).
    { change (data (set_nr_free _ _)) with (data st4). rewrite D4, aget_insert by lia.
      by rewrite decide_False by lia. }
    change (data (set_nr_free _ _)) with (data st4) in D5. rewrite D4 in D5. simpl.
    eexists. split; [done|]. split; [split; [|split]|split].
    + eapply dll_ext; [|exact Hd4]. intros e. rewrite L5. by destruct e.
    + rewrite D5. by eapply blocks_ok_split; [exact Hok'|lia|exact Hdc|exact Hdn].
    + rewrite N5. simpl. rewrite N4, N3, N1, u32_small; [done|lia].
    + rewrite D5, <-D1. erewrite kept_insert; [|rewrite aget_insert, decide_False by lia; done|apply reserved_clear_eq].
      eapply kept_insert; [done|apply reserved_set_eq].
    + apply (links_kept_last _ _ _ _ K4). intros b. by rewrite L5.
  - simpl. destruct (ClearPageProperty_data (set_nr_free st1 (u32 (nr_free st1 - n))) c.1 _ _ _ Hdc)
      as (st5 & -> & D5 & N5 & L5).
    change (data (set_nr_free _ _)) with (data st1) in D5. simpl.
    eexists. split; [done|]. split; [split; [|split]|split].
    + eapply dll_ext; [|exact Hd1]. intros e. rewrite L5. by destruct e.
    + rewrite D5. by eapply blocks_ok_take.
    + rewrite N5. simpl. rewrite N1, u32_small; [done|lia].
    + rewrite D5, <-D1. eapply kept_insert; [done|apply reserved_clear_eq].
    + apply (links_kept_last _ _ _ _ K1). intros b. by rewrite L5.
Qed.

Lemma allocated_data st bs i :
  allocated st bs i ↔
    (∃ d, aget (data st) i = Ok d ∧ test_bit PG_reserved d.1.2 = false) ∧ i ∉ pages_of bs.
Proof.
  unfold allocated. f_equiv. split.
  - intros (pg & Hp & Hr). exists (page_data pg). split; [|done]. apply page_data_Ok. by exists pg.
  - intros (d & (pg & Hp & ->)%page_data_Ok & Hr). by exists pg.
Qed.

Lemma kept_allocated st st' bs bs' i :
  aget (kept (data st')) i = aget (kept (data st)) i →
  i ∉ pages_of bs' → allocated st bs i → allocated st' bs' i.
Proof.
  intros Hk Hi [(d & Hd & Hr) _]%allocated_data. apply allocated_data. split; [|done].
  unfold kept in Hk. rewrite !aget_fmap, Hd in Hk. simpl in Hk.
  apply fmap_Ok in Hk as (d' & Hd' & [= _ Hr']). exists d'. split; [done|congruence].
Qed.

(** An allocated page is not marked as the head of a free block. *)
Lemma allocated_not_head st bs i r f s :
  blocks_ok (data st) bs → i ∉ pages_of bs → aget (data st) i = Ok (r, f, s) →
  test_bit PG_property f = false.
Proof.
  intros Hok Hi Hd. destruct (test_bit PG_property f) eqn:E; [|done]. exfalso.
  apply (bok_head _ _ Hok _ _ Hd) in E as (b & -> & Hb)%list_elem_of_fmap.
  apply Hi, elem_of_pages_of. destruct (bok_size _ _ Hok b Hb). exists b. split; [done|lia].
Qed.

Lemma alloc_pages_with st bs hid n :
  pmm_rep_with st bs hid → 0 < n →
  match alloc_blocks n bs with
  | None => default_alloc_pages st n = Ok (None, st)
  | Some (b, bs') => ∃ st', default_alloc_pages st n = Ok (Some b, st') ∧ pmm_rep_with st' bs' hid ∧
      (∀ i, b ≤ i < b + n → allocated st' (bs' ++ hid) i ∧ i ∈ pages_of bs) ∧
      kept (data st') = kept (data st) ∧ links_kept st st' hid
  end.
Proof.
  intros Hrep Hn. pose proof Hrep as (Hd & Hok & Hnr). unfold default_alloc_pages.
  rewrite assert_true by lia. simpl.
  destruct (Z.ltb_spec (nr_free st) n) as [Hlt|Hle].
  { destruct (alloc_blocks n bs) as [[b bs']|] eqn:Ha; [|done].
    apply alloc_blocks_size in Ha; [lia|]. by apply blocks_ok_pos, Forall_app in Hok as [? _]. }
  assert (length bs < walk_fuel st)%nat as Hf by (apply walk_fuel_enough in Hok; rewrite length_app in Hok; lia).
  pose proof (find_loop_spec st n [] bs hid (walk_fuel st) Hd Hok Hf) as Hfind.
  change (default EHead (last (entries []))) with EHead in Hfind. rewrite Hfind. simpl.
  destruct (alloc_blocks n bs) as [[b bs']|] eqn:Ha; unfold alloc_blocks in Ha;
    destruct (first_fit n bs) as [[c rest]|] eqn:Ff; simpl in Ha; try done. simpl.
  pose proof (alloc_blocks_pages n bs b bs') as Hpg. unfold alloc_blocks in Hpg.
  rewrite Ff in Hpg. specialize (Hpg Ha ltac:(lia)). injection Ha as <- <-.
  apply first_fit_Some in Ff as (pre & post & -> & -> & Hc & _).
  destruct (take_block_spec st pre c post hid n Hrep ltac:(lia)) as (st' & -> & Hrep' & Hrefs & Hlk).
  exists st'. split_and!; [done|done| |done|done].
  intros i Hi. assert (i ∈ pages_of (pre ++ c :: post)) as Hin.
  { rewrite Hpg. apply elem_of_app. left. by apply elem_of_seqZ. }
  split; [|done]. destruct (bok_free _ _ Hok i) as (d & Hd' & Hres); [rewrite pages_of_app; set_solver|].
  pose proof (bok_nodup _ _ Hok) as Hnd. rewrite pages_of_app, Hpg, <-(assoc_L (++)), <-pages_of_app in Hnd.
  apply NoDup_app in Hnd as (_ & Hnd & _). assert (i ∉ pages_of
    ((if n <? c.2 then (c.1 + n, c.2 - n) :: pre ++ post else pre ++ post) ++ hid)) as Hni
    by (by apply Hnd, elem_of_seqZ).
  eapply (kept_allocated st st' []); [by rewrite Hrefs|done|].
  apply allocated_data. split; [by exists d|]. apply not_elem_of_nil.
Qed.

Lemma alloc_pages_spec st bs n :
  pmm_rep st bs → 0 < n →
  match alloc_blocks n bs with
  | None => default_alloc_pages st n = Ok (None, st)
  | Some (b, bs') => ∃ st', default_alloc_pages st n = Ok (Some b, st') ∧ pmm_rep st' bs' ∧
      (∀ i, b ≤ i < b + n → allocated st' bs' i ∧ i ∈ pages_of bs) ∧
      kept (data st') = kept (data st)
  end.
Proof.
  intros Hrep%pmm_rep_with_nil Hn. pose proof (alloc_pages_with st bs [] n Hrep Hn) as H.
  destruct (alloc_blocks n bs) as [[b bs']|]; [|done]. destruct H as (st' & R & Hr%pmm_rep_with_nil & Ha & Hk & _).
  rewrite app_nil_r in Ha. by exists st'.
Qed.

(** The body of [default_free_pages] after the pages are cleared. *)
Lemma release_loop_spec st bs base n :
  blocks_ok (data st) bs → 0 < n → (∀ i, base ≤ i < base + n → allocated st bs i) →
  ∃ st', for_range base (base + n) release_page st = Ok st' ∧ nr_free st' = nr_free st ∧
    (∀ e : entry, get_link st' e = get_link st e) ∧
    range_data (data st) (data st') base (base + n) (λ _ d, (0, 0, d.2)).
Proof.
  intros Hok Hn Ha. apply page_loop_spec; [lia|]. intros p s Hp Hs.
  destruct (Ha p Hp) as [_ Hnf]. destruct (proj1 (allocated_data _ _ _) (Ha p Hp)) as [([[r f] sz] & Hd & Hres) _].
  pose proof (allocated_not_head _ _ _ _ _ _ Hok Hnf Hd) as Hnh. rewrite <-Hs in Hd.
  pose proof Hd as (pg & Hpg & [= -> -> ->])%page_data_Ok. simpl in Hres.
  unfold release_page. rewrite Hpg. simpl. unfold PageReserved, PageProperty.
  rewrite Hres, Hnh. simpl.
  destruct (set_flags_data s p 0 _ _ _ Hd) as (s1 & -> & W1). simpl.
  destruct (set_page_ref_data s1 p 0 (ref pg) 0 (property pg)) as (s2 & R2 & W2).
  { destruct W1 as (-> & _). apply aget_insert_eq. by eapply aget_range. }
  exists s2, (ref pg, flags pg, property pg). split_and!; [done|done|].
  pose proof (with_data_trans _ _ _ _ _ W1 W2) as W. destruct W1 as (E1 & _).
  rewrite E1, list_insert_insert_eq in W. exact W.
Qed.

Lemma free_pages_with st bs hid base n :
  pmm_rep_with st bs hid → 0 < n → (∀ i, base ≤ i < base + n → allocated st (bs ++ hid) i) →
  ∃ st', default_free_pages st base n = Ok st' ∧ pmm_rep_with st' (free_blocks base n bs) hid ∧
    (∀ i, aget (kept (data st')) i =
      if decide (base ≤ i < base + n) then Ok (0, false) else aget (kept (data st)) i) ∧
    links_kept st st' hid.
Proof.
  intros Hrep Hn Ha. destruct Hrep as (Hd & Hok & Hnr).
  destruct (release_loop_spec st (bs ++ hid) base n Hok Hn Ha) as (st1 & R1 & N1 & L1 & Hr1).
  unfold default_free_pages. rewrite assert_true by lia. simpl. rewrite R1. simpl.
  destruct (proj1 (allocated_data _ _ _) (Ha base ltac:(lia))) as [([[r f] s] & Hdb & _) _].
  assert (aget (data st1) base = Ok (0, 0, s)) as Hdb1.
  { destruct Hr1 as [_ Hr1]. by rewrite Hr1, decide_True, Hdb by lia. }
  destruct (set_property_data st1 base n _ _ _ Hdb1) as (st2 & -> & W2). simpl. pose proof W2 as (E2 & _).
  destruct (SetPageProperty_data st2 base 0 0 n) as (st3 & -> & W3).
  { rewrite E2. apply aget_insert_eq. by eapply aget_range. }
  simpl. pose proof (with_data_trans _ _ _ _ _ W2 W3) as (E3 & N3 & L3).
  rewrite E2, list_insert_insert_eq in E3.
  assert (dll st3 EHead (entries bs)) as Hd3.
  { eapply dll_ext; [|exact Hd]. intros e. by rewrite L3, L1. }
  assert (range_data (data st) (data st3) base (base + n) (λ i d,
    if i =? base then (0, set_bit PG_property 0, n) else (0, 0, d.2))) as Hr3.
  { destruct Hr1 as [Hz Hr1]. split; [by rewrite E3, zlen_insert|]. intros i.
    rewrite E3, aget_insert by (by eapply aget_range). case_decide as Hi.
    - subst i. rewrite decide_True, Hdb by lia. simpl. by rewrite Z.eqb_refl.
    - rewrite Hr1. case_decide; [|done]. destruct (Z.eqb_spec i base); [done|].
      by destruct (aget (data st) i). }
  assert (blocks_ok (data st3) ((base, n) :: bs ++ hid)) as Hok3.
  { eapply (blocks_ok_release _ _ _ _ _ snd); [done|done| |done]. intros i Hi.
    destruct (proj1 (allocated_data _ _ _) (Ha i Hi)) as [(d & ? & _) ?]. eauto. }
  destruct (merge_loop_spec [] bs hid (base, n) st3 EHead (walk_fuel st3) Hd3 Hok3)
    as (st4 & r4 & l & R4 & M & Hd4 & Hok4 & N4 & Hrefs & K4).
  { by apply dll_next_head in Hd3. }
  { apply walk_fuel_enough in Hok3. simpl in Hok3. rewrite length_app in Hok3. lia. }
  simpl in R4. rewrite R4. simpl in Hd4, Hok4 |- *.
  destruct (place_loop_spec st4 r4 [] l hid (walk_fuel st4)) as (l1 & l2 & E5 & E6 & R5);
    [done|done|apply walk_fuel_enough in Hok4; simpl in Hok4; rewrite length_app in Hok4; lia|].
  change (default EHead (last (entries []))) with EHead in R5. rewrite R5. simpl. subst l.
  set (st5 := set_nr_free st4 (u32 (nr_free st4 + n))).
  destruct (insert_block_spec st5 r4 l1 l2 hid) as (st6 & R6 & Hd6 & D6 & N6 & K6).
  { eapply dll_ext; [|exact Hd4]. by intros [|]. } { done. }
  rewrite R6. exists st6. split; [done|].
  assert (free_blocks base n bs = l1 ++ r4 :: l2) as -> by (unfold free_blocks; by rewrite M, E6).
  split; [split; [done|split]|split].
  - rewrite D6. eapply blocks_ok_perm; [|exact Hok4]. by rewrite <-Permutation_middle.
  - rewrite N6. simpl. rewrite N4, N3, N1, Hnr.
    assert (pages_of (l1 ++ r4 :: l2) ≡ₚ seqZ base n ++ pages_of bs) as ->.
    { rewrite <-Permutation_middle. rewrite (merge_blocks_pages _ _ _ _ M); [done|simpl; lia|].
      apply blocks_ok_pos, Forall_app in Hok as [Hp _]. eapply Forall_impl; [exact Hp|]. simpl. intros. lia. }
    rewrite zlen_app, zlen_seqZ, Z.add_comm by lia. apply u32_small.
    pose proof (blocks_ok_npages _ _ Hok3) as Hb. rewrite pages_of_cons, zlen_app, zlen_seqZ, pages_of_app, zlen_app in Hb
      by (simpl; lia). simpl in Hb. pose proof (zlen_nonneg (pages_of hid)). pose proof (bok_npage _ _ Hok3).
    pose proof (zlen_nonneg (pages_of bs)). lia.
  - intros i. rewrite D6. change (data st5) with (data st4). rewrite Hrefs, (page_loop_kept _ _ _ _ _ _ Hr3).
    case_decide as Hi; [|done].
    destruct (proj1 (allocated_data _ _ _) (Ha i Hi)) as [(d & -> & _) _]. simpl. by case_match.
  - eapply links_kept_trans; [|exact K6]. eapply links_kept_trans; [|exact K4].
    apply links_kept_all. intros e. by rewrite L3, L1.
Qed.

Lemma free_pages_spec st bs base n :
  pmm_rep st bs → 0 < n → (∀ i, base ≤ i < base + n → allocated st bs i) →
  ∃ st', default_free_pages st base n = Ok st' ∧ pmm_rep st' (free_blocks base n bs) ∧
    ∀ i, aget (kept (data st')) i =
      if decide (base ≤ i < base + n) then Ok (0, false) else aget (kept (data st)) i.
Proof.
  intros Hrep%pmm_rep_with_nil Hn Ha.
  destruct (free_pages_with st bs [] base n Hrep Hn) as (st' & R & Hr%pmm_rep_with_nil & Hk & _);
    [by rewrite app_nil_r|]. by exists st'.
Qed.

Lemma init_loop_spec st base n :
  0 < n → (∀ i, base ≤ i < base + n → ∃ pg, page st i = Ok pg ∧ PageReserved pg = true) →
  ∃ st', for_range base (base + n) (init_page base n) st = Ok st' ∧ nr_free st' = nr_free st ∧
    (∀ e : entry, get_link st' e = get_link st e) ∧
    range_data (data st) (data st') base (base + n) (λ i d,
      if i =? base then (0, set_bit PG_property 0, n) else (0, 0, 0)).
Proof.
  intros Hn Ha. apply page_loop_spec; [lia|]. intros p s Hp Hs.
  destruct (Ha p Hp) as (pg0 & Hpg0 & Hres).
  assert (aget (data s) p = Ok (page_data pg0)) as Hd.
  { rewrite Hs. apply page_data_Ok. by exists pg0. }
  pose proof Hd as (pg & Hpg & Epg)%page_data_Ok.
  unfold init_page. rewrite Hpg. simpl. unfold PageReserved in *.
  replace (flags pg) with (flags pg0) by (unfold page_data in Epg; congruence).
  rewrite Hres. simpl. unfold page_data in Hd.
  destruct (set_flags_data s p 0 _ _ _ Hd) as (s1 & -> & W1). simpl. pose proof W1 as (E1 & _).
  pose proof (aget_range _ _ _ Hd) as Hr.
  assert (∀ s' pd d, with_data s s' (<[Z.to_nat p := d]> pd) → zlen pd = zlen (data s) →
    aget (data s') p = Ok d) as Hget.
  { intros s' pd d (-> & _) Hz. apply aget_insert_eq. by rewrite Hz. }
  destruct (set_page_ref_data s1 p 0 (ref pg0) 0 (property pg0)) as (s2 & -> & W2).
  { by eapply Hget. }
  simpl. pose proof (with_data_trans _ _ _ _ _ W1 W2) as W. rewrite E1, list_insert_insert_eq in W.
  pose proof W as (E2 & _). assert (aget (data s2) p = Ok (0, 0, property pg0)) as Hd2
    by (by eapply Hget).
  destruct (Z.eqb_spec p base) as [->|Hne].
  - destruct (set_property_data s2 base n _ _ _ Hd2) as (s3 & -> & W3). simpl.
    pose proof (with_data_trans _ _ _ _ _ W W3) as W'. rewrite E2, list_insert_insert_eq in W'.
    pose proof W' as (E3 & _).
    destruct (SetPageProperty_data s3 base 0 0 n) as (s4 & -> & W4); [by eapply Hget|].
    pose proof (with_data_trans _ _ _ _ _ W' W4) as W''. rewrite E3, list_insert_insert_eq in W''.
    exists s4, (page_data pg0). by split_and!.
  - destruct (set_property_data s2 p 0 _ _ _ Hd2) as (s3 & -> & W3). simpl.
    pose proof (with_data_trans _ _ _ _ _ W W3) as W'. rewrite E2, list_insert_insert_eq in W'.
    exists s3, (page_data pg0). by split_and!.
Qed.

(** [default_init_memmap] adds a block of reserved pages at the end of the
    list. *)
Lemma default_init_memmap_spec st bs base n :
  pmm_rep st bs → 0 < n →
  (∀ i, base ≤ i < base + n → ∃ pg, page st i = Ok pg ∧ PageReserved pg = true) →
  ∃ st', default_init_memmap st base n = Ok st' ∧ pmm_rep st' (bs ++ [(base, n)]) ∧
    range_data (data st) (data st') base (base + n) (λ i d,
      if i =? base then (0, set_bit PG_property 0, n) else (0, 0, 0)).
Proof.
  intros Hrep Hn Ha. destruct (init_loop_spec st base n Hn Ha) as (st1 & R1 & N1 & L1 & Hr1).
  destruct Hrep as (Hd & Hok & Hnr).
  assert (∀ i, base ≤ i < base + n → (∃ d, aget (data st) i = Ok d) ∧ i ∉ pages_of bs) as Hfresh.
  { intros i Hi. destruct (Ha i Hi) as (pg & Hpg & Hres). split.
    - exists (page_data pg). apply page_data_Ok. by exists pg.
    - intros Hin. destruct (bok_free _ _ Hok i Hin) as (d & (pg' & Hpg' & ->)%page_data_Ok & Hres').
      rewrite Hpg in Hpg'. injection Hpg' as <-. unfold PageReserved in Hres. simpl in Hres'. congruence. }
  pose proof (blocks_ok_release _ _ _ _ _ (λ _, 0) Hok Hn Hfresh Hr1) as Hok1.
  unfold default_init_memmap. rewrite assert_true by lia. simpl. rewrite R1. simpl.
  assert (dll st1 EHead (entries bs)) as Hd1 by (eapply dll_ext; [|exact Hd]; done).
  destruct (insert_block_spec st1 (base, n) bs [] []) as (st2 & R2 & Hd2 & D2 & N2 & _);
    [by rewrite ?app_nil_r..|].
  simpl in R2. rewrite R2. simpl. eexists. split; [done|].
  assert (pages_of (bs ++ [(base, n)]) ≡ₚ pages_of ((base, n) :: bs)) as Hperm
    by (by rewrite <-Permutation_cons_append).
  split; [split; [|split]|].
  - eapply dll_ext; [|exact Hd2]. by intros [|].
  - change (data (set_nr_free _ _)) with (data st2). rewrite D2.
    eapply blocks_ok_perm; [|exact Hok1]. apply Permutation_cons_append.
  - simpl. rewrite Hperm, pages_of_cons, zlen_app, zlen_seqZ by (simpl; lia). simpl.
    rewrite N2, N1, Hnr, Z.add_comm. apply u32_small.
    pose proof (blocks_ok_npages _ _ Hok1) as Hb. rewrite pages_of_cons, zlen_app, zlen_seqZ in Hb
      by (simpl; lia). simpl in Hb. pose proof (bok_npage _ _ Hok1).
    pose proof (zlen_nonneg (pages_of bs)). lia.
  - change (data (set_nr_free _ _)) with (data st2). by rewrite D2.
Qed.

(** ** Sequences of operations *)

(** The calls the kernel makes, with the list [own] of the pages it currently
    holds: regions are registered while reserved and not next to free pages,
    and only pages that are held are released. *)
Inductive pmm_reach (st0 : pmm) : pmm → list Z → Prop :=
| reach_init st : default_init st0 = Ok st → pmm_reach st0 st []
| reach_memmap st own base n st' :
    pmm_reach st0 st own → 0 < n →
    (∀ i, base ≤ i < base + n → ∃ pg, page st i = Ok pg ∧ PageReserved pg = true) →
    (∀ i pg, i = base - 1 ∨ i = base + n → page st i = Ok pg → PageReserved pg = true) →
    default_init_memmap st base n = Ok st' → Forall (λ i, ¬ base ≤ i < base + n) own →
    pmm_reach st0 st' own
| reach_alloc st own n r st' :
    pmm_reach st0 st own → 0 < n → default_alloc_pages st n = Ok (r, st') →
    pmm_reach st0 st' (match r with Some b => seqZ b n ++ own | None => own end)
| reach_free st own base n own' st' :
    pmm_reach st0 st own → 0 < n → own ≡ₚ seqZ base n ++ own' →
    default_free_pages st base n = Ok st' → pmm_reach st0 st' own'.

(** A reserved page is not free. *)
Lemma reserved_not_free st bs i pg :
  blocks_ok (data st) bs → page st i = Ok pg → PageReserved pg = true → i ∉ pages_of bs.
Proof.
  intros Hok Hp Hr Hi. destruct (bok_free _ _ Hok i Hi) as (d & (pg' & Hp' & ->)%page_data_Ok & Hr').
  rewrite Hp in Hp'. injection Hp' as <-. unfold PageReserved in Hr. simpl in Hr'. congruence.
Qed.

Lemma memmap_coalesced st bs base n :
  blocks_ok (data st) bs → coalesced bs → 0 < n →
  (∀ i pg, i = base - 1 ∨ i = base + n → page st i = Ok pg → PageReserved pg = true) →
  coalesced (bs ++ [(base, n)]).
Proof.
  intros Hok Hc Hn Hadj.
  assert (∀ i, i = base - 1 ∨ i = base + n → i ∉ pages_of bs) as Hnot.
  { intros i Hi Hin. destruct (bok_free _ _ Hok i Hin) as (d & Hd & _).
    apply page_data_Ok in Hd as (pg & Hp & _).
    by eapply reserved_not_free; [| |by eapply Hadj|]. }
  intros x y Hx Hy. apply elem_of_app in Hx as [Hx| ->%list_elem_of_singleton];
    apply elem_of_app in Hy as [Hy| ->%list_elem_of_singleton]; simpl; [by apply Hc| | |lia].
  - intros E. apply (Hnot (base - 1)); [by left|]. apply elem_of_pages_of. exists x.
    destruct (bok_size _ _ Hok x Hx). split; [done|lia].
  - intros E. apply (Hnot (base + n)); [by right|]. apply elem_of_pages_of. exists y.
    destruct (bok_size _ _ Hok y Hy). split; [done|lia].
Qed.

(** What holds in every reachable state. *)
Definition pmm_inv (st : pmm) (own : list Z) : Prop :=
  ∃ bs, pmm_rep st bs ∧ coalesced bs ∧ NoDup own ∧ ∀ i, i ∈ own → allocated st bs i.

Lemma pmm_inv_alloc st own n r st' :
  pmm_inv st own → 0 < n → default_alloc_pages st n = Ok (r, st') →
  pmm_inv st' (match r with Some b => seqZ b n ++ own | None => own end).
Proof.
  intros (bs & Hrep & Hc & Hnd & Hown) Hn R.
  pose proof (alloc_pages_spec st bs n Hrep Hn) as Hspec. rewrite R in Hspec.
  pose proof Hrep as (_ & Hok & _).
  destruct (alloc_blocks n bs) as [[b bs']|] eqn:Ha.
  2:{ injection Hspec as -> ->. by exists bs. }
  destruct Hspec as (st2 & [= -> ->] & Hrep' & Hnew & Hk).
  pose proof (alloc_blocks_pages _ _ _ _ Ha ltac:(lia)) as Hpg.
  assert (∀ i, i ∈ own → i ∉ seqZ b n ∧ i ∉ pages_of bs') as Hdisj.
  { intros i Hi. destruct (Hown i Hi) as [_ Hni]. rewrite Hpg in Hni. set_solver. }
  exists bs'. split_and!; [done| | |].
  - eapply alloc_blocks_coalesced; [done|done|by eapply blocks_ok_pos|exact (bok_nodup _ _ Hok)|done].
  - apply NoDup_app. split_and!; [apply NoDup_seqZ| |done]. intros i Hi Hi'.
    by destruct (Hdisj i Hi').
  - intros i [Hi|Hi]%elem_of_app.
    + apply Hnew. by apply elem_of_seqZ in Hi.
    + eapply kept_allocated; [by rewrite Hk|by apply Hdisj|by apply Hown].
Qed.

Lemma pmm_inv_free st base n own' st' :
  pmm_inv st (seqZ base n ++ own') → 0 < n → default_free_pages st base n = Ok st' →
  pmm_inv st' own'.
Proof.
  intros (bs & Hrep & Hc & Hnd & Hown) Hn R. pose proof Hrep as (_ & Hok & _).
  destruct (free_pages_spec st bs base n Hrep Hn) as (st2 & R2 & Hrep' & Hk).
  { intros i Hi. apply Hown, elem_of_app. left. by apply elem_of_seqZ. }
  rewrite R in R2. injection R2 as <-. apply NoDup_app in Hnd as (_ & Hd & Hnd).
  exists (free_blocks base n bs). split_and!; [done| |done|].
  - apply free_blocks_coalesced; [done|done|by eapply blocks_ok_pos].
  - intros i Hi. assert (¬ base ≤ i < base + n) as Hr.
    { intros Hr%elem_of_seqZ. by apply (Hd i). }
    destruct (Hown i) as [_ Hni]; [set_solver|].
    eapply kept_allocated; [by rewrite Hk, decide_False| |apply Hown; set_solver].
    rewrite free_blocks_pages; [|lia|eapply Forall_impl; [by eapply blocks_ok_pos|simpl; lia]].
    rewrite not_elem_of_app, elem_of_seqZ. done.
Qed.

Lemma pmm_inv_memmap st own base n st' :
  pmm_inv st own → 0 < n →
  (∀ i, base ≤ i < base + n → ∃ pg, page st i = Ok pg ∧ PageReserved pg = true) →
  (∀ i pg, i = base - 1 ∨ i = base + n → page st i = Ok pg → PageReserved pg = true) →
  default_init_memmap st base n = Ok st' → Forall (λ i, ¬ base ≤ i < base + n) own →
  pmm_inv st' own.
Proof.
  intros (bs & Hrep & Hc & Hnd & Hown) Hn Ha Hadj R Hout. pose proof Hrep as (_ & Hok & _).
  destruct (default_init_memmap_spec st bs base n Hrep Hn Ha) as (st2 & R2 & Hrep' & Hr).
  rewrite R in R2. injection R2 as <-. exists (bs ++ [(base, n)]).
  split_and!; [done|by eapply memmap_coalesced|done|].
  intros i Hi. rewrite Forall_forall in Hout. destruct (Hown i Hi) as [_ Hni].
  eapply kept_allocated; [|  |by apply Hown].
  - rewrite (page_loop_kept _ _ _ _ _ _ Hr), decide_False; [done|by apply Hout].
  - rewrite <-Permutation_cons_append, pages_of_cons, not_elem_of_app, elem_of_seqZ.
    split; [by apply Hout|done].
Qed.

(** [C1] [default_alloc_pages] implements first fit on the free blocks: when a
    block is large enough it returns the first page of the first such block,
    the state represents the blocks [alloc_blocks] computes, every page of the
    result is an allocated page, and no reference count or reserved bit changes;
    otherwise it returns NULL and changes nothing.  (The comment above the
    functions, step 4.1.2, has PG_reserved set for the pages of the result; the
    code leaves it clear, and [default_free_pages] asserts that it is.) *)
Theorem default_alloc_pages_refines st bs n :
  pmm_rep st bs → 0 < n →
  match alloc_blocks n bs with
  | None => default_alloc_pages st n = Ok (None, st)
  | Some (b, bs') => ∃ st', default_alloc_pages st n = Ok (Some b, st') ∧ pmm_rep st' bs' ∧
      (∀ i, b ≤ i < b + n → allocated st' bs' i ∧ i ∈ pages_of bs) ∧
      kept (data st') = kept (data st)
  end.
Proof. apply alloc_pages_spec. Qed.

(** [C2] [default_free_pages] gives back exactly the pages it is passed: it
    merges them with the adjacent free blocks, puts the result in the list and
    clears the reference counts of the released pages. *)
Theorem default_free_pages_refines st bs base n :
  pmm_rep st bs → 0 < n → (∀ i, base ≤ i < base + n → allocated st bs i) →
  ∃ st', default_free_pages st base n = Ok st' ∧ pmm_rep st' (free_blocks base n bs) ∧
    ∀ i, aget (kept (data st')) i =
      if decide (base ≤ i < base + n) then Ok (0, false) else aget (kept (data st)) i.
Proof. apply free_pages_spec. Qed.


(** Round trip: releasing what an allocation returned succeeds and gives
    the allocator back exactly the free pages (and the counter) it had. *)
Theorem alloc_free_roundtrip st bs n b st1 :
  pmm_rep st bs → 0 < n → default_alloc_pages st n = Ok (Some b, st1) →
  ∃ st2 bs2, default_free_pages st1 b n = Ok st2 ∧ pmm_rep st2 bs2 ∧
    pages_of bs2 ≡ₚ pages_of bs ∧ nr_free st2 = nr_free st.
Proof.
  intros Hrep Hn R. pose proof (alloc_pages_spec st bs n Hrep Hn) as Hspec.
  rewrite R in Hspec. destruct (alloc_blocks n bs) as [[b' bs']|] eqn:Ha; [|done].
  destruct Hspec as (st' & [= <- <-] & Hrep1 & Hnew & _).
  destruct (free_pages_spec st1 bs' b n Hrep1 Hn) as (st2 & R2 & Hrep2 & _).
  { intros i Hi. by apply Hnew. }
  assert (pages_of (free_blocks b n bs') ≡ₚ pages_of bs) as Hpg.
  { rewrite (alloc_blocks_pages _ _ _ _ Ha) by lia. apply free_blocks_pages; [lia|].
    destruct Hrep1 as (_ & Hok & _). eapply Forall_impl; [by eapply blocks_ok_pos|simpl; lia]. }
  exists st2, (free_blocks b n bs'). split_and!; [done|done|done|].
  destruct Hrep as (_ & _ & ->). destruct Hrep2 as (_ & _ & ->). by rewrite Hpg.
Qed.

(** Releasing a block twice panics: [default_free_pages] on a range that
    contains the first page of a free block fails its assertion (the pages
    before it having been allocated), and so does a range with a reserved page. *)
Theorem default_free_pages_panics st bs base n i :
  pmm_rep st bs → base ≤ i < base + n →
  (∀ j, base ≤ j < i → allocated st bs j) →
  (i ∈ (fst <$> bs) ∨ ∃ pg, page st i = Ok pg ∧ PageReserved pg = true) →
  default_free_pages st base n = Err Panic.
Proof.
  intros Hrep Hi Hbefore Hbad. unfold default_free_pages. rewrite assert_true by lia. simpl.
  assert (∃ s1, for_range base i release_page st = Ok s1 ∧ aget (data s1) i = aget (data st) i)
    as (s1 & R1 & Hs1).
  { destruct (decide (base = i)) as [->|Hne].
    - exists st. by rewrite for_range_nil.
    - destruct (release_loop_spec st bs base (i - base)) as (s1 & R1 & _ & _ & _ & Hr1); [apply Hrep|lia| |].
      { intros j Hj. apply Hbefore. lia. }
      replace (base + (i - base)) with i in R1, Hr1 by lia.
      exists s1. split; [done|]. by rewrite Hr1, decide_False by lia. }
  rewrite (for_range_app base i) by lia. rewrite R1. simpl.
  rewrite for_range_step by lia. unfold release_page at 2.
  destruct Hrep as (_ & Hok & _).
  assert (∃ pg, page s1 i = Ok pg ∧ (PageReserved pg = true ∨ PageProperty pg = true)) as (pg & -> & Hpg).
  { destruct Hbad as [(b & -> & Hb)%list_elem_of_fmap|(pg & Hp & Hres)].
    - destruct (blocks_ok_head_lookup _ _ _ Hok Hb) as (r & f & Hd & _ & _ & Hf & _).
      rewrite <-Hs1 in Hd. apply page_data_Ok in Hd as (pg & Hp & [= -> -> _]).
      exists pg. split; [done|by right].
    - assert (aget (data s1) i = Ok (page_data pg)) as (pg' & Hp' & E)%page_data_Ok.
      { rewrite Hs1. apply page_data_Ok. by exists pg. }
      exists pg'. split; [done|left]. unfold PageReserved in *. by injection E as _ <- _. }
  simpl. by destruct Hpg as [-> | ->]; rewrite ?andb_false_r.
Qed.

(** ** A concrete memory *)

(** Eight reserved pages, as [page_init] leaves them. *)
Definition reserved_pages (n : nat) : pmm :=
  PmmOf (replicate n (PageOf 0 1 0 (LinkOf EHead EHead))) (LinkOf EHead EHead) 0.

Definition demo_run : outcome pmm :=
  st ← default_init (reserved_pages 8);
  st ← default_init_memmap st 1 2;
  default_init_memmap st 4 4.

(** The memory after two regions have been registered. *)
Definition demo : pmm :=
  match demo_run with Ok st => st | Err _ => reserved_pages 8 end.

Definition demo_blocks : list block := [(1, 2); (4, 4)].

Lemma page_dec st (P : Z → Page → bool) :
  forallb (λ i, match page st i with Ok pg => P i pg | Err _ => true end)
    (seqZ 0 (zlen (pages st))) = true →
  ∀ i pg, page st i = Ok pg → P i pg = true.
Proof.
  intros Hf i pg Hp. rewrite forallb_forall in Hf. specialize (Hf i).
  rewrite Hp in Hf. apply Hf. apply list_elem_of_In, elem_of_seqZ. apply aget_range in Hp. lia.
Qed.

Lemma page_range_dec st (lo n : Z) (P : Page → bool) :
  forallb (λ i, match page st i with Ok pg => P pg | Err _ => false end) (seqZ lo n) = true →
  ∀ i, lo ≤ i < lo + n → ∃ pg, page st i = Ok pg ∧ P pg = true.
Proof.
  intros Hf i Hi. rewrite forallb_forall in Hf. specialize (Hf i).
  assert (In i (seqZ lo n)) as Hin%Hf by (apply list_elem_of_In, elem_of_seqZ; lia).
  destruct (page st i) as [pg|]; [by exists pg|done].
Qed.

Lemma demo_rep : pmm_rep demo demo_blocks.
Proof.
  destruct (default_init_spec (reserved_pages 8)) as (st1 & R1 & H1 & _); [by vm_compute| |].
  { intros i pg Hp. apply negb_true_iff. revert i pg Hp.
    by apply (page_dec _ (λ _ pg, negb (PageProperty pg))). }
  vm_compute in R1. injection R1 as <-.
  destruct (default_init_memmap_spec _ _ 1 2 H1) as (st2 & R2 & H2 & _); [done|by apply page_range_dec|].
  vm_compute in R2. injection R2 as <-.
  destruct (default_init_memmap_spec _ _ 4 4 H2) as (st3 & R3 & H3 & _); [done|by apply page_range_dec|].
  vm_compute in R3. injection R3 as <-. exact H3.
Qed.

(** The state after 3 pages have been allocated from [demo]. *)
Definition demo_held : pmm :=
  match default_alloc_pages demo 3 with Ok (_, st) => st | Err _ => demo end.

Definition demo_held_blocks : list block := [(7, 1); (1, 2)].

Lemma demo_held_rep :
  pmm_rep demo_held demo_held_blocks ∧
  ∀ i, 4 ≤ i < 4 + 3 → allocated demo_held demo_held_blocks i.
Proof.
  pose proof (alloc_pages_spec demo demo_blocks 3 demo_rep eq_refl) as H.
  assert (alloc_blocks 3 demo_blocks = Some (4, demo_held_blocks)) as E by done.
  rewrite E in H. destruct H as (st' & R & Hrep & Hal & _).
  assert (demo_held = st') as -> by (unfold demo_held; by rewrite R).
  split; [done|]. intros i Hi. by apply Hal.
Qed.

Lemma default_alloc_pages_refines_witness :
  ∃ st', default_alloc_pages demo 3 = Ok (Some 4, st') ∧ pmm_rep st' demo_held_blocks.
Proof.
  pose proof (default_alloc_pages_refines demo demo_blocks 3 demo_rep eq_refl) as H.
  assert (alloc_blocks 3 demo_blocks = Some (4, demo_held_blocks)) as E by reflexivity.
  rewrite E in H. destruct H as (st' & R & Hrep & _). exists st'. split; [exact R|exact Hrep].
Defined.

Lemma default_free_pages_refines_witness :
  ∃ st', default_free_pages demo_held 4 3 = Ok st' ∧ pmm_rep st' [(1, 2); (4, 4)].
Proof.
  destruct (default_free_pages_refines demo_held demo_held_blocks 4 3) as (st' & R & Hrep & _).
  - apply demo_held_rep.
  - reflexivity.
  - apply demo_held_rep.
  - exists st'. split; [exact R|exact Hrep].
Defined.


Lemma alloc_free_roundtrip_witness :
  ∃ st2 bs2, default_free_pages demo_held 4 3 = Ok st2 ∧ pmm_rep st2 bs2 ∧
    pages_of bs2 ≡ₚ [1; 2; 4; 5; 6; 7] ∧ nr_free st2 = 6.
Proof.
  destruct (alloc_free_roundtrip demo demo_blocks 3 4 demo_held) as (st2 & bs2 & R & Hrep & Hp & Hn).
  - exact demo_rep.
  - reflexivity.
  - by vm_compute.
  - exists st2, bs2. split; [exact R|split; [exact Hrep|split; [exact Hp|exact Hn]]].
Defined.

Lemma default_free_pages_panics_witness : default_free_pages demo 1 2 = Err Panic.
Proof.
  apply (default_free_pages_panics demo demo_blocks 1 2 1 demo_rep).
  - lia.
  - intros j Hj. exfalso. lia.
  - left. by left.
Defined.

(** The free list is not kept in address order: allocating part of a
    block that is not the first one puts its tail at the front of the list, so
    first fit then prefers it to blocks at lower addresses. *)
Lemma alloc_breaks_address_order :
  ∃ st bs st' bs', pmm_rep st bs ∧ StronglySorted (λ b b', b.1 < b'.1) bs ∧
    default_alloc_pages st 3 = Ok (Some 4, st') ∧ pmm_rep st' bs' ∧
    ¬ StronglySorted (λ b b', b.1 < b'.1) bs'.
Proof.
  exists demo, demo_blocks, demo_held, demo_held_blocks. split_and!.
  - exact demo_rep.
  - repeat constructor.
  - by vm_compute.
  - apply demo_held_rep.
  - intros Hs. inversion_clear Hs as [|? ? _ Hf]. inversion_clear Hf as [|? ? Hlt]. simpl in Hlt. lia.
Qed.
