(* ===== verification/Hdd.v ===== *)
(** * HDD_scheduling.c: disk head scheduling

    Models src/Labweek18/HDD_scheduling.c: the six scheduling algorithms over a
    disk of [CYLINDER_NUM] cylinders, with [cylinders[c]] the number of pending
    requests for cylinder [c].  A run keeps the array, the head, the previous
    position, the total movement and the positions printed after "head's
    movement: "; [print_run] is the text the run prints.

    [path_len h l] is the length of the head's path from [h] through [l].
    The theorems say in which order each algorithm serves the requests, that
    every request is served exactly once, and how the printed total relates to
    the length of the printed path. *)

From stdpp Require Import base list numbers sets sorting.
From S2P Require Import Prelude.

Definition CYLINDER_REQ_NUM : Z := 8.
Definition CYLINDER_NUM : Z := 200.

Record run := RunOf {
  cylinders : list Z;
  cylinder_head : Z;
  pre_cylinder_head : Z;
  head_move_sum : Z;
  moved : list Z
}.

(** ** Helpers *)

Definition abs_int (num : Z) : outcome Z :=
  if 0 <=? num then Ok num else cint (- num).

Definition set_cylinder (id : Z) (cyl : list Z) : outcome (list Z) :=
  n ← cyl.[id]; aset cyl id (n + 1).

Definition set_cylinders (cyl cylinder_req : list Z) : outcome (list Z) :=
  for_range 0 CYLINDER_REQ_NUM
    (λ i cyl, id ← cylinder_req.[i]; set_cylinder id cyl) cyl.

(** [printf("%d ", c)] for every [c] of the list. *)
Definition print_ints (l : list Z) : list tok := c ← l; [TInt c; TStr " "].

Definition print_cylinder_req (cylinder_req : list Z) : list tok :=
  TStr "cylinder request: " :: print_ints cylinder_req ++ [TStr "\n"].

Definition print_head_dir (head_dir : Z) : list tok :=
  TStr "The direction of head movement in the beginning: toward cylinder " ::
  (if head_dir =? 0 then [TStr "0\n"] else [TInt (CYLINDER_NUM - 1); TStr "\n"]).

(** One iteration of the search in both directions: the two probes. *)
Definition find_round (cyl : list Z) (s : Z * Z) : outcome ((Z * Z) + Z) :=
  let '(d0, d1) := s in
  if (0 <=? d0) || (d1 <? CYLINDER_NUM) then
    r0 ← (if 0 <=? d0 then
            n ← cyl.[d0]; Ok (if 0 <? n then inr d0 else inl (d0 - 1))
          else Ok (inl d0));
    match r0 with
    | inr c => Ok (inr c)
    | inl d0 =>
        if d1 <? CYLINDER_NUM then
          n ← cyl.[d1]; Ok (if 0 <? n then inr d1 else inl (d0, d1 + 1))
        else Ok (inl (d0, d1))
    end
  else Ok (inr (-1)).

Definition find_cylinder_min_seek_dis (cyl : list Z) (cylinder_head : Z) : outcome Z :=
  loop (S (S (Z.to_nat CYLINDER_NUM))) (find_round cyl) (cylinder_head, cylinder_head).

(** ** The common parts of the algorithms *)

(** The beginning of every algorithm: clear the disk, set the requests, print
    the head when no request is pending under it. *)
Definition start (cylinder_req : list Z) (cylinder_head : Z) : outcome run :=
  cyl ← set_cylinders (replicate (Z.to_nat CYLINDER_NUM) 0) cylinder_req;
  n ← cyl.[cylinder_head];
  Ok (RunOf cyl cylinder_head cylinder_head 0 (if n =? 0 then [cylinder_head] else [])).

(** [head_move_sum += abs_int(cylinder_head - pre_cylinder_head)] *)
Definition add_move (r : run) : outcome run :=
  d ← abs_int (cylinder_head r - pre_cylinder_head r);
  sum ← cint (head_move_sum r + d);
  Ok (RunOf (cylinders r) (cylinder_head r) (cylinder_head r) sum (moved r)).

Definition print_head (r : run) : run :=
  RunOf (cylinders r) (cylinder_head r) (pre_cylinder_head r) (head_move_sum r)
    (moved r ++ [cylinder_head r]).

Definition set_head (r : run) (h : Z) : run :=
  RunOf (cylinders r) h (pre_cylinder_head r) (head_move_sum r) (moved r).

Definition set_pre (r : run) : run :=
  RunOf (cylinders r) (cylinder_head r) (cylinder_head r) (head_move_sum r) (moved r).

Definition add_sum (r : run) (d : Z) : outcome run :=
  sum ← cint (head_move_sum r + d);
  Ok (RunOf (cylinders r) (cylinder_head r) (pre_cylinder_head r) sum (moved r)).

(** [cylinders[cylinder_head]--] *)
Definition dec_request (r : run) : outcome run :=
  n ← (cylinders r).[cylinder_head r];
  cyl ← aset (cylinders r) (cylinder_head r) (n - 1);
  Ok (RunOf cyl (cylinder_head r) (pre_cylinder_head r) (head_move_sum r) (moved r)).

(** [while (cylinders[cylinder_head] > 0) {...}]: serves every request of the
    cylinder under the head. *)
Definition serve (r : run) : outcome run :=
  while (S (Z.to_nat CYLINDER_REQ_NUM))
    (λ r, n ← (cylinders r).[cylinder_head r]; Ok (0 <? n))
    (λ r, r ← add_move (print_head r); dec_request r) r.

Definition step_head (head_dir : Z) (r : run) : run :=
  set_head r (if head_dir =? 0 then cylinder_head r - 1 else cylinder_head r + 1).

(** [while (cylinder_head >= lo && cylinder_head <= hi) {...}]: one sweep. *)
Definition sweep (lo hi head_dir : Z) (r : run) : outcome run :=
  while (S (Z.to_nat CYLINDER_NUM))
    (λ r, Ok ((lo <=? cylinder_head r) && (cylinder_head r <=? hi)))
    (λ r, r ← serve r; Ok (step_head head_dir r)) r.

(** [FCFS] and [SSTF] serve one request at the given cylinder. *)
Definition serve_at (cylinder_id : Z) (r : run) : outcome run :=
  let r := RunOf (cylinders r) (cylinder_head r) (pre_cylinder_head r) (head_move_sum r)
             (moved r ++ [cylinder_id]) in
  n ← (cylinders r).[cylinder_id];
  cyl ← aset (cylinders r) cylinder_id (n - 1);
  d ← abs_int (cylinder_head r - cylinder_id);
  sum ← cint (head_move_sum r + d);
  Ok (RunOf cyl cylinder_id (pre_cylinder_head r) sum (moved r)).

(** The two farthest requests. *)
Definition farthest (cylinder_req : list Z) : outcome (Z * Z) :=
  c0 ← cylinder_req.[0];
  for_range 0 CYLINDER_REQ_NUM
    (λ i s, id ← cylinder_req.[i];
       Ok (if id <? s.1 then id else s.1, if s.2 <? id then id else s.2)) (c0, c0).

(** ** The algorithms *)

Definition FCFS_run (cylinder_req : list Z) (cylinder_head : Z) : outcome run :=
  r ← start cylinder_req cylinder_head;
  for_range 0 CYLINDER_REQ_NUM (λ i r, id ← cylinder_req.[i]; serve_at id r) r.

Definition SSTF_run (cylinder_req : list Z) (cylinder_head_ : Z) : outcome run :=
  r ← start cylinder_req cylinder_head_;
  for_range 0 CYLINDER_REQ_NUM
    (λ _ r, id ← find_cylinder_min_seek_dis (cylinders r) (cylinder_head r); serve_at id r) r.

(** [SCAN] and [C_SCAN] up to the end of the disk: sweep, come back inside the
    disk, and move to the end. *)
Definition to_disk_end (r : run) : outcome run :=
  let r := if cylinder_head r =? -1 then set_head r (cylinder_head r + 1) else r in
  let r := if cylinder_head r =? CYLINDER_NUM then set_head r (cylinder_head r - 1) else r in
  if pre_cylinder_head r =? cylinder_head r then Ok r else add_move (print_head r).

Definition SCAN_run (cylinder_req : list Z) (cylinder_head_ head_dir : Z) : outcome run :=
  r ← start cylinder_req cylinder_head_;
  r ← sweep 0 (CYLINDER_NUM - 1) head_dir r;
  r ← to_disk_end r;
  let head_dir := if head_dir =? 0 then 1 else 0 in
  sweep 0 (CYLINDER_NUM - 1) head_dir r.

(** [C_SCAN]: from one end of the disk directly to the other. *)
Definition to_other_end (r : run) : outcome run :=
  let r := if cylinder_head r =? 0 then set_head r (CYLINDER_NUM - 1)
           else if cylinder_head r =? CYLINDER_NUM - 1 then set_head r 0 else r in
  r ← add_sum (set_pre r) (CYLINDER_NUM - 1);
  n ← (cylinders r).[cylinder_head r];
  Ok (if n =? 0 then print_head r else r).

Definition C_SCAN_run (cylinder_req : list Z) (cylinder_head_ head_dir : Z) : outcome run :=
  r ← start cylinder_req cylinder_head_;
  r ← sweep 0 (CYLINDER_NUM - 1) head_dir r;
  r ← to_disk_end r;
  r ← to_other_end r;
  sweep 0 (CYLINDER_NUM - 1) head_dir r.

(** [LOOK] and [C_LOOK]: a head outside the requests first moves to the nearest
    farthest request.  The two sums are those of the source, which computes
    them after [cylinder_head] has been assigned. *)
Definition to_requests (lo hi : Z) (r : run) : outcome run :=
  if cylinder_head r <? lo then
    let r := set_head r lo in add_sum r (lo - cylinder_head r)
  else if hi <? cylinder_head r then
    let r := set_head r hi in add_sum r (hi - lo)
  else Ok r.

Definition LOOK_run (cylinder_req : list Z) (cylinder_head_ head_dir : Z) : outcome run :=
  r ← start cylinder_req cylinder_head_;
  m ← farthest cylinder_req;
  let '(lo, hi) := m in
  r ← to_requests lo hi r;
  r ← sweep lo hi head_dir r;
  let r := if cylinder_head r =? lo - 1 then set_head r lo else r in
  let r := if cylinder_head r =? hi + 1 then set_head r hi else r in
  let head_dir := if head_dir =? 0 then 1 else 0 in
  sweep lo hi head_dir r.

Definition C_LOOK_run (cylinder_req : list Z) (cylinder_head_ head_dir : Z) : outcome run :=
  r ← start cylinder_req cylinder_head_;
  m ← farthest cylinder_req;
  let '(lo, hi) := m in
  r ← to_requests lo hi r;
  r ← sweep lo hi head_dir r;
  r ← add_sum r (hi - lo);
  let r := if cylinder_head r =? lo - 1 then set_head r hi else r in
  let r := if cylinder_head r =? hi + 1 then set_head r lo else r in
  sweep lo hi head_dir (set_pre r).

(** ** The printed text *)

Definition print_run (name : string) (info : list tok) (r : run) : list tok :=
  [TStr "\n--------------------------------------------------------\n";
   TStr "HDD Scheduling Algorithm: "; TStr name; TStr "\n"] ++ info ++
  [TStr "\n"; TStr "head's movement: "] ++ print_ints (moved r) ++
  [TStr "\nThe total movement of head = "; TInt (head_move_sum r); TStr " cylinders\n";
   TStr "--------------------------------------------------------\n"].

Definition FCFS (req : list Z) (head : Z) : outcome (list tok) :=
  r ← FCFS_run req head; Ok (print_run "FCFS" (print_cylinder_req req) r).
Definition SSTF (req : list Z) (head : Z) : outcome (list tok) :=
  r ← SSTF_run req head; Ok (print_run "SSTF" (print_cylinder_req req) r).
Definition SCAN (req : list Z) (head dir : Z) : outcome (list tok) :=
  r ← SCAN_run req head dir;
  Ok (print_run "SCAN" (print_cylinder_req req ++ print_head_dir dir) r).
Definition C_SCAN (req : list Z) (head dir : Z) : outcome (list tok) :=
  r ← C_SCAN_run req head dir;
  Ok (print_run "C-SCAN" (print_cylinder_req req ++ print_head_dir dir) r).
Definition LOOK (req : list Z) (head dir : Z) : outcome (list tok) :=
  r ← LOOK_run req head dir;
  Ok (print_run "LOOK" (print_cylinder_req req ++ print_head_dir dir) r).
Definition C_LOOK (req : list Z) (head dir : Z) : outcome (list tok) :=
  r ← C_LOOK_run req head dir;
  Ok (print_run "C-LOOK" (print_cylinder_req req ++ print_head_dir dir) r).

(** [main] after the input has been read: the six algorithms in turn. *)
Definition main (req : list Z) (head dir : Z) : outcome (list tok) :=
  o1 ← FCFS req head; o2 ← SSTF req head; o3 ← SCAN req head dir;
  o4 ← C_SCAN req head dir; o5 ← LOOK req head dir; o6 ← C_LOOK req head dir;
  Ok (o1 ++ o2 ++ o3 ++ o4 ++ o5 ++ o6).

(** ** Paths, directions and pending requests *)

(** Where the head is after it went from [h] through [l], and how far it moved. *)
Definition last_pos (h : Z) (l : list Z) : Z := default h (last l).

Fixpoint path_len (h : Z) (l : list Z) : Z :=
  match l with [] => 0 | c :: l' => Z.abs (c - h) + path_len c l' end.

(** [ord dir a b]: a head moving in direction [dir] meets [a] before [b]. *)
Definition ord (dir a b : Z) : Prop := if dir =? 0 then b ≤ a else a ≤ b.

#[global] Instance ord_dec dir : RelDecision (ord dir).
Proof. intros a b. unfold ord. destruct (dir =? 0); apply _. Defined.
#[global] Instance ord_trans dir : Transitive (ord dir).
Proof. intros a b c. unfold ord. destruct (dir =? 0); lia. Qed.
#[global] Instance ord_total dir : Total (ord dir).
Proof. intros a b. unfold ord. destruct (dir =? 0); lia. Qed.
#[global] Instance ord_antisymm dir : AntiSymm (=) (ord dir).
Proof. intros a b. unfold ord. destruct (dir =? 0); lia. Qed.

(** The requests [l] in the order a head moving in direction [dir] meets them. *)
Definition in_order (dir : Z) (l : list Z) : list Z := merge_sort (ord dir) l.

(** The requests a head at [h] moving in direction [dir] will meet, and those
    it leaves behind. *)
Definition ahead (dir h : Z) (l : list Z) : list Z := filter (ord dir h) l.
Definition behind (dir h : Z) (l : list Z) : list Z := filter (λ c, ¬ ord dir h c) l.

Definition on_disk (c : Z) : Prop := 0 ≤ c < CYLINDER_NUM.

Definition times (l : list Z) (c : Z) : nat := length (filter (c =.) l).

(** The array [cyl] holds exactly the pending requests [l]. *)
Definition pending (cyl l : list Z) : Prop :=
  zlen cyl = CYLINDER_NUM ∧ Forall on_disk l ∧
  ∀ c, on_disk c → cyl !! Z.to_nat c = Some (Z.of_nat (times l c)).

Definition valid_req (req : list Z) : Prop :=
  zlen req = CYLINDER_REQ_NUM ∧ Forall on_disk req.

Section path.
Implicit Types l k : list Z.

Lemma last_pos_app h l k : last_pos h (l ++ k) = last_pos (last_pos h l) k.
Proof. unfold last_pos. rewrite last_app. by destruct (last k). Qed.

Lemma last_pos_cons h x l : last_pos h (x :: l) = last_pos x l.
Proof. apply (last_pos_app h [x] l). Qed.

Lemma path_len_app h l k : path_len h (l ++ k) = path_len h l + path_len (last_pos h l) k.
Proof.
  revert h. induction l as [|x l IH]; intros h; [done|].
  simpl. rewrite IH, last_pos_cons. lia.
Qed.

Lemma path_len_nonneg h l : 0 ≤ path_len h l.
Proof. revert h. induction l as [|x l IH]; intros h; simpl; [lia|]. specialize (IH x). lia. Qed.

Lemma path_len_bound h l :
  on_disk h → Forall on_disk l → path_len h l ≤ (CYLINDER_NUM - 1) * zlen l.
Proof.
  unfold on_disk, zlen. intros Hh Hl. revert h Hh.
  induction Hl as [|x l Hx _ IH]; intros h Hh; [simpl; lia|].
  specialize (IH x Hx). cbn [path_len length]. rewrite Nat2Z.inj_succ. lia.
Qed.

Lemma path_len_replicate h n : path_len h (replicate n h) = 0.
Proof. induction n as [|n IH]; simpl; [done|]. rewrite IH. lia. Qed.

Lemma last_pos_replicate h n : last_pos h (replicate n h) = h.
Proof. induction n as [|n IH]; [done|]. simpl. by rewrite last_pos_cons. Qed.

Lemma last_pos_on_disk h l : on_disk h → Forall on_disk l → on_disk (last_pos h l).
Proof.
  intros Hh Hl. revert h Hh. induction Hl as [|x l Hx _ IH]; intros h Hh; [done|].
  rewrite last_pos_cons. by apply IH.
Qed.
End path.

Section pending_lemmas.
Implicit Types (l k cyl : list Z) (c : Z).

#[global] Instance in_order_perm dir : Proper ((≡ₚ) ==> (=)) (in_order dir).
Proof.
  intros l k Hp. unfold in_order.
  apply (Sorted_unique (ord dir)); [apply Sorted_merge_sort, _..|].
  by rewrite !merge_sort_Permutation.
Qed.

Lemma in_order_Permutation dir l : in_order dir l ≡ₚ l.
Proof. apply merge_sort_Permutation. Qed.

Lemma in_order_sorted dir l : StronglySorted (ord dir) (in_order dir l).
Proof. apply Sorted_StronglySorted; [apply _|]. apply Sorted_merge_sort, _. Qed.

Lemma in_order_unique dir l k :
  StronglySorted (ord dir) k → k ≡ₚ l → in_order dir l = k.
Proof.
  intros Hs Hp. apply (Sorted_unique (ord dir)).
  - apply Sorted_merge_sort, _.
  - by apply StronglySorted_Sorted.
  - by rewrite in_order_Permutation.
Qed.

Lemma Forall_in_order P dir l : Forall P l → Forall P (in_order dir l).
Proof. by rewrite in_order_Permutation. Qed.

#[global] Instance times_perm : Proper ((≡ₚ) ==> (=) ==> (=)) times.
Proof. intros l k Hp c ? <-. unfold times. by rewrite Hp. Qed.

Lemma times_pos l c : (0 < times l c)%nat ↔ c ∈ l.
Proof.
  unfold times. split; intros H.
  - destruct (filter (c =.) l) as [|x ?] eqn:E; [simpl in H; lia|].
    assert (x ∈ filter (c =.) l) as [-> ?]%list_elem_of_filter by (rewrite E; left). done.
  - assert (c ∈ filter (c =.) l) by (by apply list_elem_of_filter).
    destruct (filter (c =.) l); [by apply not_elem_of_nil in H0|simpl; lia].
Qed.

Lemma times_le l c : (times l c ≤ length l)%nat.
Proof. apply length_filter. Qed.

Lemma times_cons l c x : times (x :: l) c = ((if decide (c = x) then 1 else 0) + times l c)%nat.
Proof. unfold times. rewrite filter_cons. by case_decide. Qed.

Lemma times_remove l c x :
  times (filter (x ≠.) l) c = if decide (c = x) then O else times l c.
Proof.
  unfold times. rewrite list_filter_filter.
  case_decide as Hc.
  - subst. induction l as [|y l IH]; [done|]. rewrite filter_cons. case_decide; naive_solver.
  - f_equal. apply list_filter_iff. naive_solver.
Qed.

Lemma split_times l c : l ≡ₚ replicate (times l c) c ++ filter (c ≠.) l.
Proof.
  induction l as [|x l IH]; [done|]. rewrite times_cons, filter_cons.
  destruct (decide (c = x)) as [->|Hn].
  - rewrite decide_False by naive_solver. simpl. by rewrite <-IH.
  - rewrite decide_True by done. simpl. rewrite <-Permutation_middle. by rewrite <-IH.
Qed.

#[global] Instance pending_perm : Proper ((=) ==> (≡ₚ) ==> iff) pending.
Proof.
  intros ? cyl -> l k Hp. unfold pending. rewrite Hp.
  split; intros (? & ? & Ht); split_and!; try done; intros c Hc; rewrite Ht by done;
    by rewrite Hp.
Qed.

Lemma pending_aget cyl l c :
  pending cyl l → on_disk c → aget cyl c = Ok (Z.of_nat (times l c)).
Proof. intros (_ & _ & Ht) Hc. apply aget_lookup; [apply Hc|by apply Ht]. Qed.

Lemma pending_aset cyl l l' c n :
  pending cyl l → on_disk c → Forall on_disk l' →
  (∀ x, on_disk x → times l' x = if decide (x = c) then n else times l x) →
  ∃ cyl', aset cyl c (Z.of_nat n) = Ok cyl' ∧ pending cyl' l'.
Proof.
  intros (Hlen & _ & Ht) Hc Hl' Hn. exists (<[Z.to_nat c := Z.of_nat n]> cyl).
  split; [apply aset_Ok; by rewrite Hlen|].
  split_and!; [by rewrite zlen_insert|done|]. intros x Hx. rewrite Hn by done.
  case_decide as Hxc; [subst; apply list_lookup_insert_eq|
    rewrite list_lookup_insert_ne; [by apply Ht|]];
    unfold on_disk, zlen in *; lia.
Qed.

Lemma pending_empty : pending (replicate (Z.to_nat CYLINDER_NUM) 0) [].
Proof.
  split_and!; [done|by constructor|]. intros c Hc.
  apply lookup_replicate_2. unfold on_disk in Hc. lia.
Qed.

Lemma pending_nil cyl : pending cyl [] → cyl = replicate (Z.to_nat CYLINDER_NUM) 0.
Proof.
  intros (Hlen & _ & Ht). symmetry. apply replicate_as_elem_of. split; [unfold zlen in Hlen; lia|].
  intros x [i Hi]%list_elem_of_lookup. pose proof (lookup_lt_Some _ _ _ Hi).
  assert (on_disk (Z.of_nat i)) as Hd by (unfold on_disk, zlen in *; lia).
  specialize (Ht _ Hd). rewrite Nat2Z.id, Hi in Ht. by simplify_eq/=.
Qed.

(** Setting and serving one request. *)
Lemma set_cylinder_spec cyl l c :
  pending cyl l → on_disk c → ∃ cyl', set_cylinder c cyl = Ok cyl' ∧ pending cyl' (c :: l).
Proof.
  intros Hp Hc. unfold set_cylinder. rewrite (pending_aget _ _ _ Hp Hc). simpl.
  replace (Z.of_nat (times l c) + 1) with (Z.of_nat (S (times l c))) by lia.
  eapply pending_aset; [done|done|constructor; [done|apply Hp]|].
  intros x _. rewrite times_cons. by case_decide as Hd; [subst|].
Qed.

Lemma remove_request cyl l c :
  pending cyl l → c ∈ l → on_disk c →
  ∃ cyl' l', aset cyl c (Z.of_nat (times l c) - 1) = Ok cyl' ∧ pending cyl' l' ∧ l ≡ₚ c :: l'.
Proof.
  intros Hp Hc Hd. destruct (proj1 (elem_of_Permutation l c) Hc) as [l' Hl'].
  rewrite Hl' in Hp. rewrite (times_perm _ _ Hl' c c eq_refl), times_cons, decide_True by done.
  replace (Z.of_nat (1 + times l' c) - 1) with (Z.of_nat (times l' c)) by lia.
  destruct (pending_aset cyl (c :: l') l' c (times l' c)) as (cyl' & ? & ?); [done|done| | |].
  - destruct Hp as (_ & Hf & _). by inversion Hf.
  - intros x _. rewrite times_cons. by case_decide; subst.
  - by exists cyl', l'.
Qed.
End pending_lemmas.

(** ** Serving a cylinder and sweeping *)

(** The run [r] after the head served [out], with the disk [cyl] left. *)
Definition walked (r : run) (cyl : list Z) (h : Z) (out : list Z) : run :=
  RunOf cyl h (last_pos (pre_cylinder_head r) out)
    (head_move_sum r + path_len (pre_cylinder_head r) out) (moved r ++ out).

(** No overflow on the way. *)
Definition room (r : run) (out : list Z) : Prop :=
  0 ≤ head_move_sum r ∧ head_move_sum r + path_len (pre_cylinder_head r) out ≤ int_max.

Lemma abs_int_Ok z : - int_max ≤ z ≤ int_max → abs_int z = Ok (Z.abs z).
Proof.
  intros Hz. unfold abs_int. destruct (Z.leb_spec 0 z).
  - by rewrite Z.abs_eq.
  - rewrite Z.abs_neq by lia. apply cint_Ok. unfold int_min, int_max in *. lia.
Qed.

Lemma add_move_spec r :
  on_disk (cylinder_head r) → on_disk (pre_cylinder_head r) → room r [cylinder_head r] →
  add_move (print_head r) = Ok (walked r (cylinders r) (cylinder_head r) [cylinder_head r]).
Proof.
  unfold on_disk, room, add_move, walked. intros Hh Hp [H1 H2]. simpl in *.
  rewrite abs_int_Ok by (unfold int_max, CYLINDER_NUM in *; lia). simpl.
  rewrite cint_Ok by (unfold int_min; lia). simpl. by rewrite Z.add_0_r.
Qed.

Lemma walked_walked r cyl1 h1 out1 cyl2 h2 out2 :
  walked (walked r cyl1 h1 out1) cyl2 h2 out2 = walked r cyl2 h2 (out1 ++ out2).
Proof.
  unfold walked. simpl. by rewrite path_len_app, last_pos_app, (assoc_L (++)), Z.add_assoc.
Qed.

Lemma room_walked r cyl h out1 out2 :
  room r (out1 ++ out2) ↔ room r out1 ∧ room (walked r cyl h out1) out2.
Proof.
  unfold room, walked. simpl. rewrite path_len_app.
  pose proof (path_len_nonneg (pre_cylinder_head r) out1).
  pose proof (path_len_nonneg (last_pos (pre_cylinder_head r) out1) out2). lia.
Qed.

Lemma serve_loop n : ∀ r l c,
  cylinder_head r = c →
  pending (cylinders r) l → on_disk c → on_disk (pre_cylinder_head r) →
  (times l c < n)%nat → room r (replicate (times l c) c) →
  ∃ cyl', pending cyl' (filter (c ≠.) l) ∧
    while n (λ r, n ← (cylinders r).[cylinder_head r]; Ok (0 <? n))
      (λ r, r ← add_move (print_head r); dec_request r) r
    = Ok (walked r cyl' c (replicate (times l c) c)).
Proof.
  induction n as [|n IH]; intros r l c Hh Hp Hc Hpre Ht Hroom; [lia|].
  rewrite while_unfold. cbn beta. rewrite Hh, (pending_aget _ _ _ Hp Hc). simpl.
  destruct (times l c) as [|t] eqn:Et.
  - exists (cylinders r). split.
    + rewrite (split_times l c), Et in Hp. done.
    + simpl. unfold walked. simpl. rewrite Z.add_0_r, app_nil_r. destruct r; by simplify_eq/=.
  - replace (0 <? Z.of_nat (S t)) with true by (symmetry; apply Z.ltb_lt; lia).
    change (replicate (S t) c) with ([c] ++ replicate t c) in *.
    apply (room_walked r (cylinders r) c) in Hroom as [Hr1 Hr2].
    rewrite add_move_spec by (by rewrite ?Hh). unfold dec_request. simpl.
    rewrite Hh, (pending_aget _ _ _ Hp Hc). simpl.
    destruct (remove_request _ _ _ Hp (proj1 (times_pos l c) ltac:(lia)) Hc)
      as (cyl' & l' & -> & Hp' & Hl). simpl.
    assert (times l' c = t) as Et'
      by (rewrite (times_perm _ _ Hl c c eq_refl), times_cons, decide_True in Et by done; lia).
    destruct (IH (walked r cyl' c [c]) l' c) as (cyl2 & Hp2 & Hw);
      rewrite ?Et'; try done; [lia|].
    exists cyl2. split.
    + rewrite Hl, filter_cons, decide_False by naive_solver. done.
    + rewrite Et', walked_walked in Hw. exact Hw.
Qed.

Lemma serve_spec r l c :
  cylinder_head r = c →
  pending (cylinders r) l → on_disk c → on_disk (pre_cylinder_head r) →
  zlen l ≤ CYLINDER_REQ_NUM → room r (replicate (times l c) c) →
  ∃ cyl', pending cyl' (filter (c ≠.) l) ∧ serve r = Ok (walked r cyl' c (replicate (times l c) c)).
Proof.
  intros ???? Hl ?. apply serve_loop; try done.
  pose proof (times_le l c). unfold zlen in Hl. lia.
Qed.

(** Where a head leaves the range [lo, hi], and the cylinder after [h]. *)
Definition exit_pos (dir lo hi : Z) : Z := if dir =? 0 then lo - 1 else hi + 1.
Definition next_pos (dir h : Z) : Z := if dir =? 0 then h - 1 else h + 1.
(** How many cylinders are left on the way. *)
Definition to_go (dir lo hi h : Z) : Z := if dir =? 0 then h - lo + 1 else hi - h + 1.

Lemma ahead_step dir l h :
  ahead dir h l ≡ₚ
  replicate (times l h) h ++ ahead dir (next_pos dir h) (filter (h ≠.) l).
Proof.
  unfold ahead. rewrite (split_times l h) at 1. rewrite filter_app. f_equiv.
  - rewrite filter_all; [done|]. apply Forall_replicate. unfold ord. destruct (dir =? 0); lia.
  - rewrite !list_filter_filter. apply reflexive_eq, list_filter_iff.
    intros x. unfold ord, next_pos. destruct (dir =? 0); lia.
Qed.

Lemma in_order_step dir l h :
  in_order dir (ahead dir h l) =
  replicate (times l h) h ++ in_order dir (ahead dir (next_pos dir h) (filter (h ≠.) l)).
Proof.
  apply in_order_unique; [|by rewrite in_order_Permutation, <-ahead_step].
  apply StronglySorted_app. split_and!.
  - intros x y [-> _]%elem_of_replicate. rewrite in_order_Permutation. unfold ahead.
    rewrite list_elem_of_filter. unfold ord, next_pos. destruct (dir =? 0); lia.
  - induction (times l h); simpl; constructor; [done|]. apply Forall_replicate.
    unfold ord. destruct (dir =? 0); lia.
  - apply in_order_sorted.
Qed.

Lemma behind_step dir l h :
  behind dir h l = behind dir (next_pos dir h) (filter (h ≠.) l).
Proof.
  unfold behind. rewrite list_filter_filter. apply list_filter_iff.
  intros x. unfold ord, next_pos. destruct (dir =? 0); lia.
Qed.

Lemma sweep_loop lo hi dir n : ∀ r l h,
  cylinder_head r = h →
  pending (cylinders r) l → Forall (λ c, lo ≤ c ≤ hi) l → 0 ≤ lo → hi < CYLINDER_NUM →
  lo - 1 ≤ h ≤ hi + 1 → (Z.to_nat (to_go dir lo hi h) < n)%nat → 0 ≤ to_go dir lo hi h →
  (to_go dir lo hi h ≤ hi - lo + 1) →
  on_disk (pre_cylinder_head r) → zlen l ≤ CYLINDER_REQ_NUM →
  room r (in_order dir (ahead dir h l)) →
  ∃ cyl', pending cyl' (behind dir h l) ∧
    while n (λ r, Ok ((lo <=? cylinder_head r) && (cylinder_head r <=? hi)))
      (λ r, r ← serve r; Ok (step_head dir r)) r
    = Ok (walked r cyl' (exit_pos dir lo hi) (in_order dir (ahead dir h l))).
Proof.
  induction n as [|n IH]; intros r l h Hh Hp Hl Hlo Hhi Hr Hn Hpos Hmax Hpre Hlen Hroom; [lia|].
  rewrite while_unfold. cbn beta. rewrite Hh. cbn [mbind outcome_bind].
  destruct ((lo <=? h) && (h <=? hi)) eqn:Hin.
  - apply andb_true_iff in Hin as [Hi1%Z.leb_le Hi2%Z.leb_le].
    rewrite in_order_step in Hroom |- *.
    apply (room_walked r (cylinders r) h) in Hroom as [Hr1 Hr2].
    destruct (serve_spec r l h) as (cyl1 & Hp1 & Hs); try done; [unfold on_disk; lia|].
    rewrite Hs. cbn [mbind outcome_bind].
    destruct (IH (step_head dir (walked r cyl1 h (replicate (times l h) h)))
      (filter (h ≠.) l) (next_pos dir h)) as (cyl2 & Hp2 & Hw); try done.
    + by apply Forall_filter.
    + unfold next_pos. destruct (dir =? 0); lia.
    + unfold to_go, next_pos in *. destruct (dir =? 0); lia.
    + unfold to_go, next_pos in *. destruct (dir =? 0); lia.
    + unfold to_go, next_pos in *. destruct (dir =? 0); lia.
    + apply last_pos_on_disk; [done|]. apply Forall_replicate. unfold on_disk; lia.
    + unfold zlen in *. pose proof (length_filter (h ≠.) l). lia.
    + exists cyl2. rewrite behind_step. split; [done|]. etrans; [exact Hw|].
      f_equal. rewrite <-(walked_walked r cyl1 h _ cyl2). done.
  - apply andb_false_iff in Hin.
    assert (ahead dir h l = []) as Ha.
    { apply filter_none. eapply Forall_impl; [exact Hl|]. intros c Hc. unfold ord.
      unfold to_go in *. destruct Hin as [?%Z.leb_gt|?%Z.leb_gt]; destruct (dir =? 0); lia. }
    exists (cylinders r). split.
    + unfold behind. rewrite filter_all; [done|].
      eapply Forall_impl; [exact Hl|]. intros c Hc. unfold ord.
      unfold to_go in *. destruct Hin as [?%Z.leb_gt|?%Z.leb_gt]; destruct (dir =? 0); lia.
    + rewrite Ha. unfold walked, in_order. cbn.
      rewrite Z.add_0_r, app_nil_r. f_equal. destruct r. cbn in *. subst. f_equal.
      unfold exit_pos, to_go in *. destruct Hin as [?%Z.leb_gt|?%Z.leb_gt]; destruct (dir =? 0); lia.
Qed.

(** The first cylinder of the range a head moving in direction [dir] meets. *)
Definition first_pos (dir lo hi : Z) : Z := if dir =? 0 then hi else lo.
Definition reverse_dir (dir : Z) : Z := if dir =? 0 then 1 else 0.

Definition in_range (lo hi : Z) (l : list Z) : Prop := Forall (λ c, lo ≤ c ≤ hi) l.

Lemma sweep_spec lo hi dir r l h :
  cylinder_head r = h → pending (cylinders r) l → in_range lo hi l →
  0 ≤ lo → hi < CYLINDER_NUM → lo ≤ h ≤ hi → on_disk (pre_cylinder_head r) →
  zlen l ≤ CYLINDER_REQ_NUM → room r (in_order dir (ahead dir h l)) →
  ∃ cyl', pending cyl' (behind dir h l) ∧
    sweep lo hi dir r = Ok (walked r cyl' (exit_pos dir lo hi) (in_order dir (ahead dir h l))).
Proof.
  intros Hh Hp Hl Hlo Hhi Hr Hpre Hlen Hroom. unfold sweep.
  apply (sweep_loop lo hi dir (S (Z.to_nat CYLINDER_NUM)) r l h); try done.
  all: unfold to_go, CYLINDER_NUM in *; destruct (dir =? 0); lia.
Qed.

Lemma in_range_ord dir lo hi l :
  in_range lo hi l → Forall (ord dir (first_pos dir lo hi)) l.
Proof.
  intros Hl. eapply Forall_impl; [exact Hl|]. cbn. intros c Hc.
  unfold ord, first_pos. destruct (dir =? 0); lia.
Qed.

(** A sweep from the end of the range serves everything. *)
Lemma sweep_all lo hi dir r l :
  cylinder_head r = first_pos dir lo hi → pending (cylinders r) l → in_range lo hi l →
  0 ≤ lo → hi < CYLINDER_NUM → lo ≤ hi → on_disk (pre_cylinder_head r) →
  zlen l ≤ CYLINDER_REQ_NUM → room r (in_order dir l) →
  sweep lo hi dir r =
    Ok (walked r (replicate (Z.to_nat CYLINDER_NUM) 0) (exit_pos dir lo hi) (in_order dir l)).
Proof.
  intros Hh Hp Hl Hlo Hhi Hle Hpre Hlen Hroom.
  pose proof (in_range_ord dir lo hi l Hl) as Ho.
  assert (ahead dir (first_pos dir lo hi) l = l) as Ha by (by apply filter_all).
  assert (behind dir (first_pos dir lo hi) l = []) as Hb.
  { apply filter_none. eapply Forall_impl; [exact Ho|]. naive_solver. }
  destruct (sweep_spec lo hi dir r l _ Hh Hp Hl) as (cyl' & Hp' & Hs); rewrite ?Ha; try done.
  - unfold first_pos. destruct (dir =? 0); lia.
  - rewrite Ha in Hs. rewrite Hb in Hp'. by apply pending_nil in Hp' as ->.
Qed.

Lemma ahead_behind dir h l : ahead dir h l ++ behind dir h l ≡ₚ l.
Proof.
  unfold ahead, behind. induction l as [|x l IH]; [done|]. rewrite !filter_cons.
  destruct (decide (ord dir h x)).
  - rewrite decide_False by naive_solver. simpl. by rewrite IH.
  - rewrite decide_True by done. by rewrite <-Permutation_middle, IH.
Qed.

Lemma zlen_ahead_behind dir h l : zlen (ahead dir h l) + zlen (behind dir h l) = zlen l.
Proof. by rewrite <-zlen_app, ahead_behind. Qed.

Lemma zlen_in_order dir l : zlen (in_order dir l) = zlen l.
Proof. by rewrite in_order_Permutation. Qed.

(** Everything these runs add up fits an [int]. *)
Definition small (r : run) : Prop := 0 ≤ head_move_sum r ≤ 1000000 ∧ on_disk (pre_cylinder_head r).

Lemma room_small r out : small r → Forall on_disk out → zlen out ≤ 100 → room r out.
Proof.
  intros [Hs Hp] Ho Hz. unfold room. pose proof (path_len_bound _ _ Hp Ho).
  unfold CYLINDER_NUM, int_max in *. lia.
Qed.

(** The cylinder printed first, when nothing is requested there. *)
Definition first_print (head : Z) (req : list Z) : list Z :=
  if decide (head ∈ req) then [] else [head].

Lemma set_cylinders_spec cyl req l :
  pending cyl l → valid_req req →
  ∃ cyl', set_cylinders cyl req = Ok cyl' ∧ pending cyl' (req ++ l).
Proof.
  intros Hp [Hlen Hd]. unfold set_cylinders. rewrite <-Hlen, for_range_fold. clear Hlen.
  revert cyl l Hp. induction Hd as [|c req Hc Hd IH]; intros cyl l Hp; [by exists cyl|].
  simpl. destruct (set_cylinder_spec cyl l c) as (cyl1 & -> & Hp1); [done..|]. simpl.
  destruct (IH cyl1 (c :: l) Hp1) as (cyl2 & -> & Hp2). exists cyl2. split; [done|].
  by rewrite Permutation_middle.
Qed.

Lemma start_spec req head :
  valid_req req → on_disk head →
  ∃ cyl, pending cyl req ∧ start req head = Ok (RunOf cyl head head 0 (first_print head req)).
Proof.
  intros Hv Hh. destruct (set_cylinders_spec _ req [] pending_empty Hv) as (cyl & Hs & Hp).
  rewrite app_nil_r in Hp. exists cyl. split; [done|]. unfold start. rewrite Hs. simpl.
  rewrite (pending_aget _ _ _ Hp Hh). simpl. unfold first_print.
  pose proof (times_pos req head). destruct (Z.eqb_spec (Z.of_nat (times req head)) 0);
    case_decide; try done; lia || (exfalso; naive_solver lia).
Qed.

Lemma path_len_first_print head req l :
  path_len head (first_print head req ++ l) = path_len head l.
Proof. unfold first_print. case_decide; simpl; lia. Qed.

(** The cylinder [e] is printed when the head is not already there. *)
Definition jump (p e : Z) : list Z := if decide (p = e) then [] else [e].

Lemma reverse_first dir lo hi :
  first_pos (reverse_dir dir) lo hi = if dir =? 0 then lo else hi.
Proof. unfold first_pos, reverse_dir. by destruct (dir =? 0). Qed.

Lemma on_disk_first dir : on_disk (first_pos dir 0 (CYLINDER_NUM - 1)).
Proof. unfold on_disk, first_pos, CYLINDER_NUM. destruct (dir =? 0); lia. Qed.

Lemma jump_on_disk p e : on_disk e → Forall on_disk (jump p e).
Proof. intros He. unfold jump. case_decide; [apply Forall_nil_2|by apply Forall_singleton]. Qed.

Lemma zlen_jump p e : zlen (jump p e) ≤ 1.
Proof. unfold jump. by case_decide. Qed.

Lemma small_walked r cyl h out :
  small r → Forall on_disk out → 0 ≤ zlen out ≤ 100 → head_move_sum r ≤ 900000 →
  small (walked r cyl h out).
Proof.
  intros [Hs Hp] Ho Hz H9. pose proof (path_len_bound _ _ Hp Ho).
  pose proof (path_len_nonneg (pre_cylinder_head r) out).
  split; [|by apply last_pos_on_disk]. unfold walked, CYLINDER_NUM in *. cbn. lia.
Qed.

Lemma to_disk_end_spec r dir :
  cylinder_head r = exit_pos dir 0 (CYLINDER_NUM - 1) → small r →
  let e := first_pos (reverse_dir dir) 0 (CYLINDER_NUM - 1) in
  to_disk_end r = Ok (walked r (cylinders r) e (jump (pre_cylinder_head r) e)).
Proof.
  intros Hh Hs. cbn zeta. rewrite reverse_first. unfold exit_pos in Hh.
  assert (∀ e, on_disk e → (if pre_cylinder_head r =? e then Ok (set_head r e)
      else add_move (print_head (set_head r e))) =
      Ok (walked r (cylinders r) e (jump (pre_cylinder_head r) e))) as Hj.
  { intros e He. unfold jump. destruct (Z.eqb_spec (pre_cylinder_head r) e) as [E|E].
    - rewrite decide_True by done. unfold walked, set_head. cbn.
      by rewrite Z.add_0_r, app_nil_r.
    - rewrite decide_False by done. rewrite add_move_spec; [done|done|apply Hs|].
      apply (room_small (set_head r e)); [done|by apply Forall_singleton|done]. }
  unfold to_disk_end. rewrite Hh. unfold CYLINDER_NUM in *. destruct (dir =? 0).
  - change (0 - 1 =? -1) with true. cbn. apply (Hj 0). done.
  - change (200 - 1 + 1 =? -1) with false. cbn. rewrite Hh. apply (Hj 199). done.
Qed.

Lemma valid_in_range req : valid_req req → in_range 0 (CYLINDER_NUM - 1) req.
Proof.
  intros [_ Hd]. eapply Forall_impl; [exact Hd|]. unfold on_disk. cbn. intros c Hc. lia.
Qed.

(** [SCAN] and [C_SCAN] up to the end of the disk. *)
Lemma scan_half req head dir :
  valid_req req → on_disk head →
  let e := first_pos (reverse_dir dir) 0 (CYLINDER_NUM - 1) in
  let out := in_order dir (ahead dir head req) in
  ∃ cyl, pending cyl (behind dir head req) ∧
    (r ← start req head; r ← sweep 0 (CYLINDER_NUM - 1) dir r; to_disk_end r) =
    Ok (walked (RunOf cyl head head 0 (first_print head req)) cyl e
          (out ++ jump (last_pos head out) e)).
Proof.
  intros Hv Hh. cbn zeta.
  destruct (start_spec req head Hv Hh) as (cyl & Hp & ->). cbn [mbind outcome_bind].
  set (r0 := RunOf cyl head head 0 (first_print head req)).
  set (out := in_order dir (ahead dir head req)).
  assert (Forall on_disk out) as Ho by (apply Forall_in_order, Forall_filter, Hv).
  assert (zlen out ≤ 8) as Hz.
  { destruct Hv as [Hlen _]. unfold out. rewrite zlen_in_order.
    pose proof (zlen_ahead_behind dir head req). pose proof (zlen_nonneg (behind dir head req)).
    unfold CYLINDER_REQ_NUM in *. lia. }
  assert (small r0) as Hs0 by (split; [cbn; lia|done]).
  destruct (sweep_spec 0 (CYLINDER_NUM - 1) dir r0 req head) as (cyl1 & Hp1 & Hsw);
    try done; [by apply valid_in_range|unfold on_disk in Hh; lia|apply Z.eq_le_incl, Hv| |].
  { apply room_small; [done|done|]. fold out. lia. }
  exists cyl1. split; [done|]. fold out in Hsw. rewrite Hsw. cbn [mbind outcome_bind].
  rewrite (to_disk_end_spec _ dir); [by rewrite walked_walked|done|].
  apply small_walked; [done|done| |cbn; lia]. pose proof (zlen_nonneg out). lia.
Qed.

(** *** The printed path of [SCAN] and of [C_SCAN] *)

Definition scan_first (req : list Z) (head dir : Z) : list Z :=
  in_order dir (ahead dir head req).

Definition scan_path (req : list Z) (head dir : Z) : list Z :=
  let e := first_pos (reverse_dir dir) 0 (CYLINDER_NUM - 1) in
  let out := scan_first req head dir in
  out ++ jump (last_pos head out) e ++ in_order (reverse_dir dir) (behind dir head req).

Definition c_scan_path (req : list Z) (head dir : Z) : list Z :=
  let e := first_pos (reverse_dir dir) 0 (CYLINDER_NUM - 1) in
  let e' := first_pos dir 0 (CYLINDER_NUM - 1) in
  let out := scan_first req head dir in
  let rest := behind dir head req in
  out ++ jump (last_pos head out) e ++ (if decide (e' ∈ rest) then [] else [e']) ++
  in_order dir rest.

Lemma zlen_behind req head dir : valid_req req → 0 ≤ zlen (behind dir head req) ≤ 8.
Proof.
  intros [Hlen _]. pose proof (zlen_ahead_behind dir head req).
  pose proof (zlen_nonneg (behind dir head req)). pose proof (zlen_nonneg (ahead dir head req)).
  unfold CYLINDER_REQ_NUM in *. lia.
Qed.

Lemma zlen_ahead req head dir : valid_req req → 0 ≤ zlen (ahead dir head req) ≤ 8.
Proof.
  intros [Hlen _]. pose proof (zlen_ahead_behind dir head req).
  pose proof (zlen_nonneg (behind dir head req)). pose proof (zlen_nonneg (ahead dir head req)).
  unfold CYLINDER_REQ_NUM in *. lia.
Qed.

Lemma scan_first_small req head dir cyl m :
  valid_req req → on_disk head →
  let e := first_pos (reverse_dir dir) 0 (CYLINDER_NUM - 1) in
  let out := scan_first req head dir in
  small (walked (RunOf cyl head head 0 m) cyl e (out ++ jump (last_pos head out) e)) ∧
  last_pos head (out ++ jump (last_pos head out) e) = e ∧
  path_len head (out ++ jump (last_pos head out) e) ≤ 2000.
Proof.
  intros Hv Hh. cbn zeta. set (e := first_pos _ _ _). set (out := scan_first req head dir).
  assert (on_disk e) as He by apply on_disk_first.
  assert (Forall on_disk (out ++ jump (last_pos head out) e)) as Ho.
  { apply Forall_app. split; [apply Forall_in_order, Forall_filter, Hv|by apply jump_on_disk]. }
  assert (0 ≤ zlen (out ++ jump (last_pos head out) e) ≤ 9) as Hz.
  { rewrite zlen_app. pose proof (zlen_jump (last_pos head out) e).
    pose proof (zlen_nonneg (jump (last_pos head out) e)).
    assert (0 ≤ zlen out ≤ 8); [|lia]. unfold out, scan_first. rewrite zlen_in_order.
    by apply zlen_ahead. }
  split_and!.
  - apply small_walked; [split; [cbn; lia|done]|done|lia|cbn; lia].
  - rewrite last_pos_app. unfold jump. case_decide; [done|by rewrite last_pos_cons].
  - pose proof (path_len_bound _ _ Hh Ho). unfold CYLINDER_NUM in *. lia.
Qed.

Lemma behind_small req head dir r :
  valid_req req → small r → room r (in_order (dir) (behind dir head req)) ∧
  room r (in_order (reverse_dir dir) (behind dir head req)).
Proof.
  intros Hv Hs. pose proof (zlen_behind req head dir Hv).
  split; apply room_small; rewrite ?zlen_in_order; try done; try lia;
    apply Forall_in_order, Forall_filter, Hv.
Qed.

(** [SCAN] serves first the requests ahead of the head in the order the
    head meets them, then goes to the end of the disk, then serves the
    remaining ones on the way back.  Every request is served, no index leaves
    the array, nothing overflows, and the printed total is the length of the
    printed path. *)
Theorem SCAN_correct req head dir :
  valid_req req → on_disk head →
  ∃ r, SCAN_run req head dir = Ok r ∧
    moved r = first_print head req ++ scan_path req head dir ∧
    head_move_sum r = path_len head (moved r) ∧
    cylinders r = replicate (Z.to_nat CYLINDER_NUM) 0.
Proof.
  intros Hv Hh. destruct (scan_half req head dir Hv Hh) as (cyl & Hp & Hs).
  apply bind_Ok in Hs as (r1 & Hs1 & (r2 & Hs2 & Hs3)%bind_Ok).
  unfold SCAN_run. rewrite Hs1. cbn [mbind outcome_bind]. rewrite Hs2.
  cbn [mbind outcome_bind]. rewrite Hs3. cbn [mbind outcome_bind].
  destruct (scan_first_small req head dir cyl (first_print head req) Hv Hh) as (Hsm & Hl & _).
  rewrite (sweep_all _ _ (reverse_dir dir) _ (behind dir head req)); try done.
  - rewrite walked_walked. eexists. split_and!; [done|..|done]; cbn.
    + unfold scan_path. by rewrite <-(assoc_L (++)).
    + by rewrite path_len_first_print.
  - apply Forall_filter, valid_in_range, Hv.
  - cbn. fold (scan_first req head dir). rewrite Hl. apply on_disk_first.
  - pose proof (zlen_behind req head dir Hv). unfold CYLINDER_REQ_NUM. lia.
  - apply behind_small; [done|]. exact Hsm.
Qed.

Lemma in_order_head dir x l :
  x ∈ l → Forall (ord dir x) l → ∃ k, in_order dir l = x :: k.
Proof.
  intros Hx Ho. destruct (proj1 (elem_of_Permutation l x) Hx) as [l' Hl'].
  exists (in_order dir l'). apply in_order_unique; [|by rewrite Hl', in_order_Permutation].
  constructor; [apply in_order_sorted|]. rewrite in_order_Permutation.
  rewrite Hl' in Ho. by inversion Ho.
Qed.

(** The jump of [C_SCAN] and of [C_LOOK] over the whole range is the distance
    counted, whether or not the other end is requested. *)
Lemma jump_len dir lo hi l :
  lo ≤ hi → in_range lo hi l →
  let e := first_pos (reverse_dir dir) lo hi in
  let e' := first_pos dir lo hi in
  path_len e ((if decide (e' ∈ l) then [] else [e']) ++ in_order dir l)
  = (hi - lo) + path_len e' (in_order dir l).
Proof.
  intros Hle Hl. cbn zeta.
  assert (Z.abs (first_pos dir lo hi - first_pos (reverse_dir dir) lo hi) = hi - lo) as Hd.
  { rewrite reverse_first. unfold first_pos. destruct (dir =? 0); lia. }
  case_decide as Hin; [|cbn; lia].
  destruct (in_order_head dir _ l Hin (in_range_ord dir lo hi l Hl)) as [k ->]. cbn. lia.
Qed.

Lemma to_other_end_spec r dir l :
  let e' := first_pos dir 0 (CYLINDER_NUM - 1) in
  cylinder_head r = first_pos (reverse_dir dir) 0 (CYLINDER_NUM - 1) →
  pending (cylinders r) l → 0 ≤ head_move_sum r ≤ 10000 →
  to_other_end r = Ok (RunOf (cylinders r) e' e' (head_move_sum r + (CYLINDER_NUM - 1))
    (moved r ++ (if decide (e' ∈ l) then [] else [e']))).
Proof.
  cbn zeta. rewrite reverse_first. intros Hh Hp Hs. unfold to_other_end.
  pose proof (on_disk_first dir) as Hd.
  assert ((if cylinder_head r =? 0 then set_head r (CYLINDER_NUM - 1)
      else if cylinder_head r =? CYLINDER_NUM - 1 then set_head r 0 else r)
    = set_head r (first_pos dir 0 (CYLINDER_NUM - 1))) as ->.
  { rewrite Hh. unfold first_pos. by destruct (dir =? 0). }
  unfold add_sum. rewrite cint_Ok by (unfold int_min, int_max, CYLINDER_NUM; cbn; lia).
  cbn [mbind outcome_bind cylinders cylinder_head set_pre set_head].
  rewrite (pending_aget _ _ _ Hp Hd). cbn [mbind outcome_bind].
  pose proof (times_pos l (first_pos dir 0 (CYLINDER_NUM - 1))) as Ht.
  destruct (Z.eqb_spec (Z.of_nat (times l (first_pos dir 0 (CYLINDER_NUM - 1)))) 0); case_decide.
  - exfalso. naive_solver lia.
  - done.
  - cbn. by rewrite app_nil_r.
  - exfalso. naive_solver lia.
Qed.

(** [C_SCAN] serves the requests ahead of the head, goes to the end of the
    disk, jumps to the other end and serves the remaining requests in the same
    direction; the printed total is the length of the printed path, the jump
    included. *)
Theorem C_SCAN_correct req head dir :
  valid_req req → on_disk head →
  ∃ r, C_SCAN_run req head dir = Ok r ∧
    moved r = first_print head req ++ c_scan_path req head dir ∧
    head_move_sum r = path_len head (moved r) ∧
    cylinders r = replicate (Z.to_nat CYLINDER_NUM) 0.
Proof.
  intros Hv Hh. destruct (scan_half req head dir Hv Hh) as (cyl & Hp & Hs).
  apply bind_Ok in Hs as (r1 & Hs1 & (r2 & Hs2 & Hs3)%bind_Ok).
  unfold C_SCAN_run. rewrite Hs1. cbn [mbind outcome_bind]. rewrite Hs2.
  cbn [mbind outcome_bind]. rewrite Hs3. cbn [mbind outcome_bind].
  destruct (scan_first_small req head dir cyl (first_print head req) Hv Hh) as (Hsm & Hl & Hb).
  fold (scan_first req head dir). set (out := scan_first req head dir) in *.
  rewrite (to_other_end_spec _ dir (behind dir head req)); [|done|done|].
  2: { destruct Hsm as [Hsm _]. cbn in Hsm |- *. lia. }
  assert (in_range 0 (CYLINDER_NUM - 1) (behind dir head req)) as Hir
    by apply Forall_filter, valid_in_range, Hv.
  cbn [mbind outcome_bind]. rewrite (sweep_all _ _ dir _ (behind dir head req)); try done.
  - eexists. split_and!; [done|..|done]; cbn.
    + unfold c_scan_path. fold out. by rewrite <-!(assoc_L (++)).
    + rewrite <-(assoc_L (++) (first_print head req ++ _)), <-(assoc_L (++) (first_print head req)).
      rewrite path_len_first_print, (path_len_app head (out ++ _) (_ ++ _)), Hl.
      rewrite jump_len by done. lia.
  - apply on_disk_first.
  - pose proof (zlen_behind req head dir Hv). unfold CYLINDER_REQ_NUM. lia.
  - apply behind_small; [done|]. split; [|apply on_disk_first].
    destruct Hsm as [Hsm _]. unfold walked, CYLINDER_NUM in *.
    cbn [head_move_sum pre_cylinder_head] in Hsm |- *. lia.
Qed.

(** *** [LOOK] and [C_LOOK] *)

Lemma farthest_spec req :
  valid_req req →
  ∃ lo hi, farthest req = Ok (lo, hi) ∧ lo ∈ req ∧ hi ∈ req ∧ in_range lo hi req.
Proof.
  intros [Hlen _]. unfold farthest. rewrite <-Hlen.
  destruct req as [|c0 req]; [done|]. change ((c0 :: req).[0]) with (Ok c0). cbn [mbind outcome_bind].
  rewrite for_range_fold. clear Hlen.
  assert (∀ l lo hi, lo ≤ hi → ∃ lo' hi',
    mfold (λ id s, Ok (if id <? s.1 then id else s.1, if s.2 <? id then id else s.2)) l (lo, hi)
      = Ok (lo', hi') ∧ lo' ∈ lo :: l ∧ hi' ∈ hi :: l ∧ in_range lo' hi' l ∧ lo' ≤ lo ∧ hi ≤ hi')
    as Hf.
  { induction l as [|x l IH]; intros lo hi Hle.
    - exists lo, hi. split_and!; try done; [by left|by left|by constructor].
    - cbn [mfold mbind outcome_bind fst snd].
      destruct (IH (if x <? lo then x else lo) (if hi <? x then x else hi))
        as (lo' & hi' & -> & H1 & H2 & H3 & H4 & H5).
      { destruct (Z.ltb_spec x lo), (Z.ltb_spec hi x); lia. }
      exists lo', hi'. split; [done|]. split_and!.
      + destruct (x <? lo); set_solver.
      + destruct (hi <? x); set_solver.
      + constructor; [|done]. destruct (Z.ltb_spec x lo), (Z.ltb_spec hi x); lia.
      + destruct (Z.ltb_spec x lo); lia.
      + destruct (Z.ltb_spec hi x); lia. }
  destruct (Hf (c0 :: req) c0 c0) as (lo & hi & -> & H1 & H2 & H3 & _); [lia|].
  exists lo, hi. split; [done|]. set_solver.
Qed.

(** Where [LOOK] starts: the nearest cylinder between the farthest requests. *)
Definition clamp (lo hi h : Z) : Z := if h <? lo then lo else if hi <? h then hi else h.

Lemma clamp_range lo hi h : lo ≤ hi → lo ≤ clamp lo hi h ≤ hi.
Proof. unfold clamp. destruct (Z.ltb_spec h lo), (Z.ltb_spec hi h); lia. Qed.

(** What [to_requests] adds to the sum. *)
Definition look_extra (lo hi h : Z) : Z := if hi <? h then hi - lo else 0.

(** [LOOK] and [C_LOOK] up to the end of the first sweep. *)
Lemma look_half req head dir :
  valid_req req → on_disk head →
  ∃ lo hi cyl, farthest req = Ok (lo, hi) ∧ lo ∈ req ∧ hi ∈ req ∧ in_range lo hi req ∧
    let h := clamp lo hi head in
    let r0 := RunOf cyl head head (look_extra lo hi head) (first_print head req) in
    pending cyl (behind dir h req) ∧
    small (walked r0 cyl (exit_pos dir lo hi) (in_order dir (ahead dir h req))) ∧
    head_move_sum (walked r0 cyl (exit_pos dir lo hi) (in_order dir (ahead dir h req))) ≤ 10000 ∧
    (r ← start req head; r ← to_requests lo hi r; sweep lo hi dir r) =
    Ok (walked r0 cyl (exit_pos dir lo hi) (in_order dir (ahead dir h req))).
Proof.
  intros Hv Hh. destruct (farthest_spec req Hv) as (lo & hi & Hf & Hlo & Hhi & Hir).
  destruct (start_spec req head Hv Hh) as (cyl & Hp & Hst).
  pose proof (proj2 Hv) as Hd. rewrite Forall_forall in Hd.
  pose proof (Hd lo Hlo) as Dlo. pose proof (Hd hi Hhi) as Dhi. unfold on_disk in Dlo, Dhi.
  assert (lo ≤ hi) as Hle by (eapply Forall_forall in Hir; [apply Hir|done]).
  set (h := clamp lo hi head). pose proof (clamp_range lo hi head Hle) as Hc. fold h in Hc.
  set (r0 := λ cyl, RunOf cyl head head (look_extra lo hi head) (first_print head req)).
  assert (to_requests lo hi (RunOf cyl head head 0 (first_print head req)) =
          Ok (set_head (r0 cyl) h)) as Htr.
  { unfold to_requests, add_sum, set_head, r0, h, clamp, look_extra. cbn.
    destruct (Z.ltb_spec head lo), (Z.ltb_spec hi head); try lia; cbn; try done;
      rewrite cint_Ok by (unfold int_min, int_max, CYLINDER_NUM in *; lia); cbn; do 2 f_equal; lia. }
  assert (Forall on_disk (in_order dir (ahead dir h req))) as Ho
    by (apply Forall_in_order, Forall_filter, Hv).
  pose proof (zlen_ahead req h dir Hv) as Hz. rewrite <-(zlen_in_order dir) in Hz.
  assert (0 ≤ look_extra lo hi head ≤ 200) as Hx.
  { unfold look_extra, CYLINDER_NUM in *. destruct (hi <? head); lia. }
  assert (∀ cyl, small (r0 cyl)) as Hs0 by (intros c; split; [cbn; lia|done]).
  destruct (sweep_spec lo hi dir (set_head (r0 cyl) h) req h) as (cyl1 & Hp1 & Hsw);
    try done; [lia|lia|apply Z.eq_le_incl, Hv| |].
  { apply (room_small (set_head (r0 cyl) h)); [apply Hs0|done|lia]. }
  exists lo, hi, cyl1. cbn zeta. fold h. split_and!; try done.
  - apply small_walked; [apply Hs0|done|lia|cbn; lia].
  - cbn. pose proof (path_len_bound _ _ Hh Ho). unfold CYLINDER_NUM in *. lia.
  - rewrite Hst. cbn [mbind outcome_bind]. rewrite Htr.
    cbn [mbind outcome_bind]. exact Hsw.
Qed.

Definition look_path (req : list Z) (lo hi head dir : Z) : list Z :=
  let h := clamp lo hi head in
  in_order dir (ahead dir h req) ++ in_order (reverse_dir dir) (behind dir h req).

Definition c_look_path (req : list Z) (lo hi head dir : Z) : list Z :=
  let h := clamp lo hi head in
  in_order dir (ahead dir h req) ++ in_order dir (behind dir h req).

(** Where [LOOK] turns round. *)
Lemma back_in_range r lo hi dir :
  lo ≤ hi → cylinder_head r = exit_pos dir lo hi →
  (let r := if cylinder_head r =? lo - 1 then set_head r lo else r in
   if cylinder_head r =? hi + 1 then set_head r hi else r) =
  set_head r (first_pos (reverse_dir dir) lo hi).
Proof.
  intros Hle Hh. rewrite reverse_first. cbn zeta. unfold exit_pos in Hh. rewrite Hh.
  destruct (dir =? 0).
  - rewrite Z.eqb_refl. cbn. destruct (Z.eqb_spec lo (hi + 1)); [lia|done].
  - destruct (Z.eqb_spec (hi + 1) (lo - 1)); [lia|]. by rewrite Hh, Z.eqb_refl.
Qed.

Lemma wrap_in_range r lo hi dir :
  lo ≤ hi → cylinder_head r = exit_pos dir lo hi →
  (let r := if cylinder_head r =? lo - 1 then set_head r hi else r in
   if cylinder_head r =? hi + 1 then set_head r lo else r) =
  set_head r (first_pos dir lo hi).
Proof.
  intros Hle Hh. cbn zeta. unfold exit_pos in Hh. rewrite Hh. unfold first_pos.
  destruct (dir =? 0).
  - rewrite Z.eqb_refl. cbn. destruct (Z.eqb_spec hi (hi + 1)); [lia|done].
  - destruct (Z.eqb_spec (hi + 1) (lo - 1)); [lia|]. by rewrite Hh, Z.eqb_refl.
Qed.

(** [LOOK] serves the requests in the order of an elevator that turns at
    the farthest request; the printed total is the length of the printed path,
    plus the distance of the two farthest requests when the head starts beyond
    the greatest one. *)
Theorem LOOK_correct req head dir :
  valid_req req → on_disk head →
  ∃ r lo hi, LOOK_run req head dir = Ok r ∧
    lo ∈ req ∧ hi ∈ req ∧ in_range lo hi req ∧
    moved r = first_print head req ++ look_path req lo hi head dir ∧
    head_move_sum r = path_len head (moved r) + look_extra lo hi head ∧
    cylinders r = replicate (Z.to_nat CYLINDER_NUM) 0.
Proof.
  intros Hv Hh.
  destruct (look_half req head dir Hv Hh)
    as (lo & hi & cyl & Hf & Hlo & Hhi & Hir & Hp & Hsm & _ & Hs).
  apply bind_Ok in Hs as (r1 & Hs1 & (r2 & Hs2 & Hs3)%bind_Ok).
  assert (lo ≤ hi) as Hle by (eapply Forall_forall in Hir; [apply Hir|done]).
  pose proof (proj2 Hv) as Hd. rewrite Forall_forall in Hd.
  pose proof (Hd lo Hlo) as Dlo. pose proof (Hd hi Hhi) as Dhi.
  unfold LOOK_run. rewrite Hs1. cbn [mbind outcome_bind]. rewrite Hf.
  cbn [mbind outcome_bind]. rewrite Hs2. cbn [mbind outcome_bind]. rewrite Hs3.
  cbn [mbind outcome_bind]. rewrite back_in_range with (dir := dir) by done.
  set (h := clamp lo hi head) in *.
  rewrite (sweep_all lo hi (reverse_dir dir) _ (behind dir h req)); try done.
  - eexists _, lo, hi. split_and!; [done..| | |done]; cbn; fold h.
    + unfold look_path. fold h. by rewrite <-(assoc_L (++)).
    + rewrite <-(assoc_L (++)), path_len_first_print, path_len_app. lia.
  - by apply Forall_filter.
  - apply Dlo.
  - apply Dhi.
  - apply Hsm.
  - pose proof (zlen_behind req h dir Hv). unfold CYLINDER_REQ_NUM. lia.
  - by apply behind_small.
Qed.

(** The end of the range is where the sweep of [LOOK] stops. *)
Lemma last_pos_ahead dir lo hi h l :
  lo ∈ l → hi ∈ l → in_range lo hi l → lo ≤ clamp lo hi h ≤ hi →
  last_pos h (in_order dir (ahead dir (clamp lo hi h) l)) = first_pos (reverse_dir dir) lo hi.
Proof.
  set (c := clamp lo hi h). intros Hlo Hhi Hir Hc. set (e := first_pos _ _ _).
  set (k := ahead dir c l).
  assert (e ∈ k) as Hek.
  { apply list_elem_of_filter. unfold e. rewrite reverse_first. unfold ord.
    destruct (dir =? 0); split; (lia || done). }
  assert (∃ q, in_order dir k = q ++ [e]) as [q ->].
  { destruct (proj1 (elem_of_Permutation k e) Hek) as [k' Hk'].
    exists (in_order dir k'). apply in_order_unique.
    - apply StronglySorted_app. split_and!; [|apply in_order_sorted|by repeat constructor].
      intros x y Hx ->%list_elem_of_singleton. rewrite in_order_Permutation in Hx.
      assert (x ∈ k) as Hxk by (rewrite Hk'; by right).
      apply list_elem_of_filter in Hxk as [_ Hxl].
      eapply Forall_forall in Hir; [|exact Hxl]. unfold e. rewrite reverse_first.
      unfold ord. destruct (dir =? 0); lia.
    - rewrite in_order_Permutation, Hk'. by rewrite (comm (++)). }
  rewrite last_pos_app, last_pos_cons. done.
Qed.

Lemma rest_first dir lo hi h l :
  lo ∈ l → hi ∈ l → in_range lo hi l → behind dir h l ≠ [] →
  first_pos dir lo hi ∈ behind dir h l.
Proof.
  intros Hlo Hhi Hir Hne. destruct (behind dir h l) as [|x k] eqn:E; [done|]. rewrite <-E.
  assert (x ∈ behind dir h l) as [Hx Hxl]%list_elem_of_filter by (rewrite E; by left).
  eapply Forall_forall in Hir; [|exact Hxl].
  apply list_elem_of_filter. unfold first_pos. unfold ord in *.
  destruct (dir =? 0); split; (lia || done).
Qed.

(** What [C_LOOK] counts beyond the printed path: the jump of a head that has
    nothing left to serve. *)
Definition c_look_extra (req : list Z) (lo hi head dir : Z) : Z :=
  look_extra lo hi head +
  if decide (behind dir (clamp lo hi head) req = []) then hi - lo else 0.

(** [C_LOOK] serves the requests ahead, jumps to the other farthest request
    and goes on in the same direction; the printed total is the length of the
    printed path plus the useless jump when nothing is left, plus the distance
    of the two farthest requests when the head starts beyond the greatest one. *)
Theorem C_LOOK_correct req head dir :
  valid_req req → on_disk head →
  ∃ r lo hi, C_LOOK_run req head dir = Ok r ∧
    lo ∈ req ∧ hi ∈ req ∧ in_range lo hi req ∧
    moved r = first_print head req ++ c_look_path req lo hi head dir ∧
    head_move_sum r = path_len head (moved r) + c_look_extra req lo hi head dir ∧
    cylinders r = replicate (Z.to_nat CYLINDER_NUM) 0.
Proof.
  intros Hv Hh.
  destruct (look_half req head dir Hv Hh)
    as (lo & hi & cyl & Hf & Hlo & Hhi & Hir & Hp & Hsm & Hsm2 & Hs).
  apply bind_Ok in Hs as (r1 & Hs1 & (r2 & Hs2 & Hs3)%bind_Ok).
  assert (lo ≤ hi) as Hle by (eapply Forall_forall in Hir; [apply Hir|done]).
  pose proof (proj2 Hv) as Hd. rewrite Forall_forall in Hd.
  pose proof (Hd lo Hlo) as Dlo. pose proof (Hd hi Hhi) as Dhi. unfold on_disk in Dlo, Dhi.
  unfold C_LOOK_run. rewrite Hs1. cbn [mbind outcome_bind]. rewrite Hf.
  cbn [mbind outcome_bind]. rewrite Hs2. cbn [mbind outcome_bind]. rewrite Hs3.
  cbn [mbind outcome_bind]. unfold add_sum at 1. destruct Hsm as [Hsm Hpre].
  rewrite cint_Ok by (unfold int_min, int_max, CYLINDER_NUM in *; lia).
  cbn [mbind outcome_bind]. rewrite wrap_in_range with (dir := dir) by done.
  pose proof (clamp_range lo hi head Hle) as Hc.
  pose proof (last_pos_ahead dir lo hi head req Hlo Hhi Hir Hc) as Hlast.
  set (h := clamp lo hi head) in *.
  assert (on_disk (first_pos dir lo hi)) as Hdf
    by (unfold first_pos, on_disk; destruct (dir =? 0); lia).
  assert (in_range lo hi (behind dir h req)) as Hirb by (by apply Forall_filter).
  rewrite (sweep_all lo hi dir _ (behind dir h req)); try done; try lia.
  - eexists _, lo, hi. split_and!; [done..| | |done]; cbn.
    + unfold c_look_path. fold h. by rewrite <-(assoc_L (++)).
    + rewrite <-(assoc_L (++)), path_len_first_print, path_len_app. rewrite Hlast.
      unfold c_look_extra. fold h. case_decide as Hb; [rewrite Hb; cbn; lia|].
      pose proof (jump_len dir lo hi (behind dir h req) Hle Hirb) as Hj. cbn zeta in Hj.
      rewrite decide_True in Hj by (by apply rest_first). cbn in Hj. rewrite Hj. lia.
  - pose proof (zlen_behind req h dir Hv). unfold CYLINDER_REQ_NUM. lia.
  - apply behind_small; [done|]. split; [|done]. cbn in Hsm |- *.
    cbn in Hsm2. unfold CYLINDER_NUM in *. lia.
Qed.

(** *** [FCFS] and [SSTF] *)

Lemma serve_at_spec r l c :
  pending (cylinders r) l → c ∈ l → on_disk (cylinder_head r) → on_disk c →
  0 ≤ head_move_sum r ≤ 1000000 →
  ∃ cyl l', l ≡ₚ c :: l' ∧ pending cyl l' ∧
    serve_at c r = Ok (RunOf cyl c (pre_cylinder_head r)
      (head_move_sum r + Z.abs (c - cylinder_head r)) (moved r ++ [c])).
Proof.
  intros Hp Hin Hh Hc Hs. unfold serve_at. cbn [cylinders cylinder_head].
  rewrite (pending_aget _ _ _ Hp Hc). cbn [mbind outcome_bind].
  destruct (remove_request _ _ _ Hp Hin Hc) as (cyl & l' & -> & Hp' & Hl).
  exists cyl, l'. split; [done|]. split; [done|]. cbn.
  unfold on_disk, CYLINDER_NUM in *.
  rewrite abs_int_Ok by (unfold int_max; lia). cbn.
  rewrite cint_Ok by (unfold int_min, int_max; lia). cbn. do 2 f_equal. lia.
Qed.

Lemma FCFS_loop req : ∀ r l,
  pending (cylinders r) (req ++ l) → on_disk (cylinder_head r) → Forall on_disk req →
  0 ≤ head_move_sum r → head_move_sum r + 200 * zlen req ≤ 1000000 →
  ∃ cyl h, pending cyl l ∧
    mfold serve_at req r =
    Ok (RunOf cyl h (pre_cylinder_head r)
          (head_move_sum r + path_len (cylinder_head r) req) (moved r ++ req)).
Proof.
  induction req as [|c req IH]; intros r l Hp Hh Hd Hs Hb.
  - exists (cylinders r), (cylinder_head r). split; [done|].
    cbn. rewrite Z.add_0_r, app_nil_r. by destruct r.
  - inversion Hd as [|?? Hc Hd']; subst. unfold zlen in Hb. cbn [length] in Hb.
    destruct (serve_at_spec r (c :: req ++ l) c) as (cyl & l' & Hl & Hp' & Hsv);
      try done; [by left|lia|].
    apply (inj (c ::.)) in Hl. rewrite <-Hl in Hp'. cbn [mfold]. rewrite Hsv. cbn [mbind outcome_bind].
    unfold on_disk, CYLINDER_NUM in Hh, Hc.
    destruct (IH (RunOf cyl c (pre_cylinder_head r)
      (head_move_sum r + Z.abs (c - cylinder_head r)) (moved r ++ [c])) l)
      as (cyl2 & h & Hp2 & Hm); try done; [cbn; lia|cbn; unfold zlen; lia|].
    exists cyl2, h. split; [done|]. rewrite Hm. cbn. rewrite <-(assoc_L (++)). do 2 f_equal. lia.
Qed.

(** [FCFS] serves the requests in the order of the array. *)
Lemma FCFS_correct req head :
  valid_req req → on_disk head →
  ∃ r, FCFS_run req head = Ok r ∧ moved r = first_print head req ++ req ∧
    head_move_sum r = path_len head (moved r) ∧
    cylinders r = replicate (Z.to_nat CYLINDER_NUM) 0.
Proof.
  intros Hv Hh. destruct (start_spec req head Hv Hh) as (cyl & Hp & Hs).
  unfold FCFS_run. rewrite Hs. cbn [mbind outcome_bind].
  destruct Hv as [Hlen Hd]. rewrite <-Hlen, for_range_fold.
  destruct (FCFS_loop req (RunOf cyl head head 0 (first_print head req)) []) as (cyl' & h & Hp' & ->);
    try done; [by rewrite app_nil_r|cbn; rewrite Hlen; unfold CYLINDER_REQ_NUM; lia|].
  eexists. split_and!; [done|done| |by apply pending_nil].
  cbn. by rewrite path_len_first_print.
Qed.

(** [c] is the nearest request of [l] to the head [h], the lower one of two. *)
Definition nearest (h c : Z) (l : list Z) : Prop :=
  c ∈ l ∧ ∀ x, x ∈ l → Z.abs (c - h) ≤ Z.abs (x - h) ∧ (Z.abs (c - h) = Z.abs (x - h) → c ≤ x).

Lemma probe cyl l c :
  pending cyl l → on_disk c →
  ∃ n, aget cyl c = Ok n ∧ ((0 < n ∧ c ∈ l) ∨ (n = 0 ∧ c ∉ l)).
Proof.
  intros Hp Hc. exists (Z.of_nat (times l c)). split; [by apply pending_aget|].
  pose proof (times_pos l c) as Ht. destruct (decide (c ∈ l)) as [Hin|Hin].
  - left. split; [|done]. apply Ht in Hin. lia.
  - right. split; [|done]. destruct (times l c); [done|]. exfalso. apply Hin, Ht. lia.
Qed.

(** What [find_cylinder_min_seek_dis] keeps: after [k] rounds no request is
    nearer than [k]. *)
Definition find_inv (l : list Z) (h : Z) (s : Z * Z) : Prop :=
  ∃ k, 0 ≤ k ∧ s.1 = Z.max (-1) (h - k) ∧ s.2 = Z.min CYLINDER_NUM (h + k) ∧
    ∀ x, x ∈ l → k ≤ Z.abs (x - h).

Lemma find_round_spec cyl l h s :
  pending cyl l → l ≠ [] → on_disk h → find_inv l h s →
  ∃ x, find_round cyl s = Ok x ∧
    match x with
    | inl s' => find_inv l h s' ∧
        (Z.to_nat (s'.1 + 1 + CYLINDER_NUM - s'.2) < Z.to_nat (s.1 + 1 + CYLINDER_NUM - s.2))%nat
    | inr c => nearest h c l
    end.
Proof.
  intros Hp Hne Hh (k & Hk & Hd0 & Hd1 & Hx). destruct s as [d0 d1]. cbn [fst snd] in *.
  assert (∀ x, x ∈ l → on_disk x) as Hd by (apply Forall_forall, Hp).
  unfold on_disk, CYLINDER_NUM in *. unfold find_round.
  destruct (Z.leb_spec 0 d0) as [H0|H0]; cbn [orb].
  - assert (d0 = h - k) as -> by lia.
    destruct (probe cyl l (h - k)) as (n & -> & Hn); [done|unfold on_disk, CYLINDER_NUM; lia|].
    cbn [mbind outcome_bind]. destruct Hn as [[Hn Hin]|[-> Hin]].
    + replace (0 <? n) with true by (symmetry; apply Z.ltb_lt; lia). eexists. split; [done|].
      split; [done|]. intros x Hxl. specialize (Hx x Hxl). lia.
    + cbn. assert (∀ x, x ∈ l → x ≠ h - k) as Hk0 by (intros x ? ->; done).
      unfold CYLINDER_NUM. destruct (Z.ltb_spec d1 200) as [H1|H1].
      * assert (d1 = h + k) as -> by lia.
        destruct (probe cyl l (h + k)) as (n & -> & Hn); [done|unfold on_disk, CYLINDER_NUM; lia|].
        cbn [mbind outcome_bind]. destruct Hn as [[Hn Hin1]|[-> Hin1]].
        -- replace (0 <? n) with true by (symmetry; apply Z.ltb_lt; lia). eexists.
           split; [done|]. split; [done|]. intros x Hxl. specialize (Hx x Hxl).
           specialize (Hk0 x Hxl). lia.
        -- cbn. eexists. split; [done|]. cbn. split; [|lia]. exists (k + 1). cbn.
           split_and!; try (unfold CYLINDER_NUM; lia). intros x Hxl. specialize (Hx x Hxl).
           specialize (Hk0 x Hxl). assert (x ≠ h + k) by (intros ->; done). lia.
      * eexists. split; [done|]. cbn. split; [|lia]. exists (k + 1). cbn.
        split_and!; try (unfold CYLINDER_NUM; lia). intros x Hxl. specialize (Hx x Hxl).
        specialize (Hk0 x Hxl). specialize (Hd x Hxl). lia.
  - unfold CYLINDER_NUM. destruct (Z.ltb_spec d1 200) as [H1|H1].
    + assert (d1 = h + k) as -> by lia. cbn.
      destruct (probe cyl l (h + k)) as (n & -> & Hn); [done|unfold on_disk, CYLINDER_NUM; lia|].
      cbn [mbind outcome_bind]. destruct Hn as [[Hn Hin1]|[-> Hin1]].
      * replace (0 <? n) with true by (symmetry; apply Z.ltb_lt; lia). eexists.
        split; [done|]. split; [done|]. intros x Hxl. specialize (Hx x Hxl).
        specialize (Hd x Hxl). lia.
      * cbn. eexists. split; [done|]. cbn. split; [|lia]. exists (k + 1). cbn.
        split_and!; try (unfold CYLINDER_NUM; lia). intros x Hxl. specialize (Hx x Hxl).
        specialize (Hd x Hxl). assert (x ≠ h + k) by (intros ->; done). lia.
    + exfalso. destruct l as [|x l]; [done|].
      specialize (Hx x ltac:(by left)). specialize (Hd x ltac:(by left)). lia.
Qed.

Lemma find_min_spec cyl l h :
  pending cyl l → l ≠ [] → on_disk h →
  ∃ c, find_cylinder_min_seek_dis cyl h = Ok c ∧ nearest h c l.
Proof.
  intros Hp Hne Hh. unfold find_cylinder_min_seek_dis.
  apply (loop_spec (find_inv l h) (λ c, nearest h c l)
    (λ s, Z.to_nat (s.1 + 1 + CYLINDER_NUM - s.2))).
  - intros s Hs. by apply find_round_spec.
  - exists 0. unfold on_disk in Hh. cbn. split_and!; try lia.
  - cbn. unfold on_disk, CYLINDER_NUM in *. lia.
Qed.

(** [out] is an order of the requests [l] in which every request is the nearest
    of the remaining ones. *)
Inductive greedy : Z → list Z → list Z → Prop :=
| greedy_nil h l : l ≡ₚ [] → greedy h l []
| greedy_cons h l c l' out :
    nearest h c l → l ≡ₚ c :: l' → greedy c l' out → greedy h l (c :: out).

Lemma SSTF_loop n : ∀ r l i,
  pending (cylinders r) l → length l = n → on_disk (cylinder_head r) →
  0 ≤ head_move_sum r → head_move_sum r + 200 * Z.of_nat n ≤ 1000000 →
  ∃ cyl h out, greedy (cylinder_head r) l out ∧ l ≡ₚ out ∧ pending cyl [] ∧
    for_up n i (λ _ r, id ← find_cylinder_min_seek_dis (cylinders r) (cylinder_head r);
       serve_at id r) r =
    Ok (RunOf cyl h (pre_cylinder_head r)
          (head_move_sum r + path_len (cylinder_head r) out) (moved r ++ out)).
Proof.
  induction n as [|n IH]; intros r l i Hp Hl Hh Hs Hb.
  - apply nil_length_inv in Hl as ->. exists (cylinders r), (cylinder_head r), [].
    split_and!; [by constructor|done|done|]. cbn. rewrite Z.add_0_r, app_nil_r. by destruct r.
  - cbn [for_up]. destruct (find_min_spec _ _ (cylinder_head r) Hp) as (c & -> & Hn);
      [by destruct l|done|]. cbn [mbind outcome_bind].
    assert (on_disk c) as Hc by (destruct Hp as (_ & Hf & _); eapply Forall_forall; [done|apply Hn]).
    destruct (serve_at_spec r l c) as (cyl & l' & Hl' & Hp' & Hsv); try done; [apply Hn|lia|].
    rewrite Hsv. cbn [mbind outcome_bind]. unfold on_disk, CYLINDER_NUM in Hh, Hc.
    destruct (IH (RunOf cyl c (pre_cylinder_head r)
      (head_move_sum r + Z.abs (c - cylinder_head r)) (moved r ++ [c])) l' (i + 1))
      as (cyl2 & h & out & Hg & Hperm & Hp2 & Hm); try done; [|cbn; lia|cbn; lia|].
    { rewrite Hl' in Hl. cbn in Hl. lia. }
    cbn in Hg, Hm. exists cyl2, h, (c :: out). split_and!; [by eapply greedy_cons| |done|].
    + by rewrite Hl', Hperm.
    + etrans; [exact Hm|]. cbn. rewrite <-(assoc_L (++)). do 2 f_equal. lia.
Qed.

(** [C4] [SSTF] serves at every step the request nearest to the head, the lower
    cylinder of two; all requests are served once, the search never fails, and
    the printed total is the length of the printed path. *)
Theorem SSTF_correct req head :
  valid_req req → on_disk head →
  ∃ r out, SSTF_run req head = Ok r ∧ greedy head req out ∧ out ≡ₚ req ∧
    moved r = first_print head req ++ out ∧
    head_move_sum r = path_len head (moved r) ∧
    cylinders r = replicate (Z.to_nat CYLINDER_NUM) 0.
Proof.
  intros Hv Hh. destruct (start_spec req head Hv Hh) as (cyl & Hp & Hs).
  unfold SSTF_run. rewrite Hs. cbn [mbind outcome_bind]. unfold for_range.
  destruct (SSTF_loop (Z.to_nat (CYLINDER_REQ_NUM - 0))
    (RunOf cyl head head 0 (first_print head req)) req 0)
    as (cyl' & h & out & Hg & Hperm & Hp' & ->); try done.
  { destruct Hv as [Hlen _]. unfold zlen, CYLINDER_REQ_NUM in *. lia. }
  eexists _, out. split_and!; [done|done|done|done| |by apply pending_nil].
  cbn. by rewrite path_len_first_print.
Qed.

(** *** Invalid input *)

Lemma set_cylinder_undef cyl c :
  zlen cyl = CYLINDER_NUM → ¬ on_disk c → set_cylinder c cyl = Err Undef.
Proof.
  intros Hl Hc. unfold set_cylinder. destruct (cyl.[c]) as [n|e] eqn:E.
  - apply aget_range in E. rewrite Hl in E. done.
  - revert E. unfold aget. case_decide; [|naive_solver].
    destruct (cyl !! Z.to_nat c); naive_solver.
Qed.

Lemma set_cylinder_zlen cyl c cyl' : set_cylinder c cyl = Ok cyl' → zlen cyl' = zlen cyl.
Proof.
  unfold set_cylinder. intros H. bind_inv H. apply aset_inv in H as [_ ->]. apply zlen_insert.
Qed.

Lemma set_cylinder_total cyl c :
  zlen cyl = CYLINDER_NUM → on_disk c → ∃ cyl', set_cylinder c cyl = Ok cyl' ∧ zlen cyl' = CYLINDER_NUM.
Proof.
  intros Hl Hc. destruct (aget_in_range cyl c) as (n & Hn & _); [by rewrite Hl|].
  exists (<[Z.to_nat c := n + 1]> cyl). unfold set_cylinder. rewrite Hn. cbn.
  split; [apply aset_Ok; by rewrite Hl|by rewrite zlen_insert].
Qed.

(** The program does not check its input: with a request outside the disk
    the first algorithm already accesses an element outside [cylinders], which C does not define. *)
Lemma main_undefined req head dir :
  zlen req = CYLINDER_REQ_NUM → ¬ Forall on_disk req → main req head dir = Err Undef.
Proof.
  intros Hlen Hbad. unfold main, FCFS, FCFS_run, start, set_cylinders.
  rewrite <-Hlen, for_range_fold.
  assert (∀ l cyl, zlen cyl = CYLINDER_NUM → ¬ Forall on_disk l →
    mfold set_cylinder l cyl = Err Undef) as Hf; [|by rewrite Hf].
  clear. induction l as [|c l IH]; intros cyl Hl Hbad; [by destruct Hbad|]. cbn.
  destruct (decide (0 ≤ c < CYLINDER_NUM)) as [Hc|Hc].
  - destruct (set_cylinder_total cyl c Hl Hc) as (cyl' & -> & Hl'). cbn. apply IH; [done|].
    intros H. apply Hbad. by constructor.
  - by rewrite set_cylinder_undef.
Qed.

(** ** The algorithms on the example of the report *)

Definition demo_req : list Z := [98; 183; 37; 122; 14; 124; 65; 67].

Lemma demo_valid : valid_req demo_req.
Proof. split; [done|]. unfold demo_req. repeat (apply Forall_cons_2; [done|]). by apply Forall_nil_2. Qed.

Lemma FCFS_correct_witness :
  (∃ r, FCFS_run demo_req 53 = Ok r ∧ moved r = first_print 53 demo_req ++ demo_req ∧
    head_move_sum r = path_len 53 (moved r) ∧
    cylinders r = replicate (Z.to_nat CYLINDER_NUM) 0) ∧
  head_move_sum <$> FCFS_run demo_req 53 = Ok 640.
Proof.
  split; [|vm_compute; reflexivity]. apply (FCFS_correct demo_req 53); [apply demo_valid|done].
Defined.

Lemma SSTF_correct_witness :
  (∃ r out, SSTF_run demo_req 53 = Ok r ∧ greedy 53 demo_req out ∧ out ≡ₚ demo_req ∧
    moved r = first_print 53 demo_req ++ out ∧
    head_move_sum r = path_len 53 (moved r) ∧
    cylinders r = replicate (Z.to_nat CYLINDER_NUM) 0) ∧
  moved <$> SSTF_run demo_req 53 = Ok [53; 65; 67; 37; 14; 98; 122; 124; 183].
Proof.
  split; [|vm_compute; reflexivity]. apply (SSTF_correct demo_req 53); [apply demo_valid|done].
Defined.

Lemma SCAN_correct_witness :
  (∃ r, SCAN_run demo_req 53 0 = Ok r ∧
    moved r = first_print 53 demo_req ++ scan_path demo_req 53 0 ∧
    head_move_sum r = path_len 53 (moved r) ∧
    cylinders r = replicate (Z.to_nat CYLINDER_NUM) 0) ∧
  scan_path demo_req 53 0 = [37; 14; 0; 65; 67; 98; 122; 124; 183].
Proof.
  split; [|vm_compute; reflexivity]. apply (SCAN_correct demo_req 53 0); [apply demo_valid|done].
Defined.

Lemma C_SCAN_correct_witness :
  (∃ r, C_SCAN_run demo_req 53 1 = Ok r ∧
    moved r = first_print 53 demo_req ++ c_scan_path demo_req 53 1 ∧
    head_move_sum r = path_len 53 (moved r) ∧
    cylinders r = replicate (Z.to_nat CYLINDER_NUM) 0) ∧
  c_scan_path demo_req 53 1 = [65; 67; 98; 122; 124; 183; 199; 0; 14; 37].
Proof.
  split; [|vm_compute; reflexivity]. apply (C_SCAN_correct demo_req 53 1); [apply demo_valid|done].
Defined.

Lemma LOOK_correct_witness :
  (∃ r lo hi, LOOK_run demo_req 190 0 = Ok r ∧
    lo ∈ demo_req ∧ hi ∈ demo_req ∧ in_range lo hi demo_req ∧
    moved r = first_print 190 demo_req ++ look_path demo_req lo hi 190 0 ∧
    head_move_sum r = path_len 190 (moved r) + look_extra lo hi 190 ∧
    cylinders r = replicate (Z.to_nat CYLINDER_NUM) 0) ∧
  (head_move_sum <$> LOOK_run demo_req 190 0) = Ok 345 ∧
  ((λ r, path_len 190 (moved r)) <$> LOOK_run demo_req 190 0) = Ok 176.
Proof.
  split; [|vm_compute; split; reflexivity].
  apply (LOOK_correct demo_req 190 0); [apply demo_valid|done].
Defined.

Lemma C_LOOK_correct_witness :
  (∃ r lo hi, C_LOOK_run demo_req 53 1 = Ok r ∧
    lo ∈ demo_req ∧ hi ∈ demo_req ∧ in_range lo hi demo_req ∧
    moved r = first_print 53 demo_req ++ c_look_path demo_req lo hi 53 1 ∧
    head_move_sum r = path_len 53 (moved r) + c_look_extra demo_req lo hi 53 1 ∧
    cylinders r = replicate (Z.to_nat CYLINDER_NUM) 0) ∧
  moved <$> C_LOOK_run demo_req 53 1 = Ok [53; 65; 67; 98; 122; 124; 183; 14; 37].
Proof.
  split; [|vm_compute; reflexivity]. apply (C_LOOK_correct demo_req 53 1); [apply demo_valid|done].
Defined.

Lemma main_undefined_witness :
  zlen [98; 183; 200; 122; 14; 124; 65; 67] = CYLINDER_REQ_NUM ∧
  main [98; 183; 200; 122; 14; 124; 65; 67] 53 0 = Err Undef.
Proof.
  split; [reflexivity|]. apply (main_undefined [98; 183; 200; 122; 14; 124; 65; 67] 53 0);
    [reflexivity|]. rewrite Forall_forall. intros H. destruct (H 200) as [_ H2]; [|done].
  apply list_elem_of_In. simpl. auto 10.
Defined.
