(* ===== verification/Heap.v ===== *)
(** * A heap of nodes

    The programs that link [malloc]ed nodes through pointers share this model
    of the heap: a finite map from addresses to nodes of one type and the next
    free address.  Address 0 is [NULL] and is never allocated; a load, a store
    or a [free] at an address that is not allocated is undefined. *)

From stdpp Require Import base gmap list.
From S2P Require Import Prelude.

Definition NULL : Z := 0.

Record heap (A : Type) := Heap { cells : gmap Z A; fresh_addr : Z }.
Arguments Heap {A}.
Arguments cells {A}.
Arguments fresh_addr {A}.

Section operations.
Context {A : Type}.
Implicit Types (h : heap A) (p : Z) (x : A).

Definition empty_heap : heap A := Heap ∅ 1.

Definition malloc (h : heap A) (x : A) : Z * heap A :=
  (fresh_addr h, Heap (<[fresh_addr h := x]> (cells h)) (fresh_addr h + 1)).

(** [malloc] when the memory can run out: [mem] says whether it finds a block,
    and if not it returns [NULL]. *)
Definition try_malloc (mem : bool) (h : heap A) (x : A) : Z * heap A :=
  if mem then malloc h x else (NULL, h).

Definition load (h : heap A) (p : Z) : outcome A := of_option (cells h !! p).

(** [p->field = ...]: the node at [p] changed by [f]. *)
Definition update (h : heap A) (p : Z) (f : A → A) : outcome (heap A) :=
  x ← load h p; Ok (Heap (<[p := f x]> (cells h)) (fresh_addr h)).

Definition free (h : heap A) (p : Z) : outcome (heap A) :=
  x ← load h p; Ok (Heap (delete p (cells h)) (fresh_addr h)).

(** Every allocated address is between [NULL] and the next free one. *)
Definition heap_ok (h : heap A) : Prop :=
  0 < fresh_addr h ∧ ∀ p, is_Some (cells h !! p) → 0 < p < fresh_addr h.

Lemma empty_heap_ok : heap_ok empty_heap.
Proof. split; [done|]. intros p [x H]. done. Qed.

Lemma load_Ok h p x : load h p = Ok x ↔ cells h !! p = Some x.
Proof. unfold load. destruct (cells h !! p); naive_solver. Qed.

Lemma load_mk (c : gmap Z A) (f p : Z) x : c !! p = Some x → load (Heap c f) p = Ok x.
Proof. by intros ?%(load_Ok (Heap c f)). Qed.

Lemma load_NULL h : heap_ok h → load h NULL = Err Undef.
Proof.
  intros [_ Hh]. unfold load. destruct (cells h !! NULL) eqn:E; [|done].
  specialize (Hh NULL ltac:(eauto)). unfold NULL in Hh. lia.
Qed.

Lemma update_Ok h p f x :
  cells h !! p = Some x → update h p f = Ok (Heap (<[p := f x]> (cells h)) (fresh_addr h)).
Proof. intros H. unfold update, load. by rewrite H. Qed.

Lemma update_alter h p f :
  is_Some (cells h !! p) → update h p f = Ok (Heap (alter f p (cells h)) (fresh_addr h)).
Proof.
  intros [x Hx]. rewrite (update_Ok _ _ _ x) by done. do 2 f_equal. apply map_eq. intros q.
  destruct (decide (p = q)) as [->|].
  - by rewrite lookup_insert_eq, lookup_alter_eq, Hx.
  - by rewrite lookup_insert_ne, lookup_alter_ne.
Qed.

Lemma free_Ok h p x :
  cells h !! p = Some x → free h p = Ok (Heap (delete p (cells h)) (fresh_addr h)).
Proof. intros H. unfold free, load. by rewrite H. Qed.

Lemma malloc_ok h x : heap_ok h → heap_ok (malloc h x).2.
Proof.
  intros [Hf Hh]. split; cbn; [lia|]. intros p [y Hp].
  apply lookup_insert_Some in Hp as [[<- _]|[_ Hp]]; [lia|].
  specialize (Hh p ltac:(eauto)). lia.
Qed.

(** The new node is filled through the pointer that [try_malloc] returns. *)
Lemma try_malloc_fill (mem : bool) h x y : heap_ok h →
  (let '(p, h') := try_malloc mem h x in h' ← update h' p (λ _, y); Ok (p, h')) =
  if mem then Ok (malloc h y) else Err Undef.
Proof.
  intros Hh. destruct mem; cbn -[update].
  - rewrite (update_Ok _ _ _ x) by apply lookup_insert_eq. cbn. by rewrite insert_insert_eq.
  - unfold update. by rewrite load_NULL.
Qed.

Lemma malloc_fresh h x p y : heap_ok h → cells h !! p = Some y → p ≠ (malloc h x).1.
Proof. intros [_ Hh] Hp. specialize (Hh p ltac:(eauto)). cbn. lia. Qed.

Lemma update_heap_ok h p f h' : heap_ok h → update h p f = Ok h' → heap_ok h'.
Proof.
  intros [Hf Hh]. unfold update. intros (x & Hx & [= <-])%bind_Ok.
  apply load_Ok in Hx. split; [done|]. cbn. intros q [y Hq].
  apply lookup_insert_Some in Hq as [[<- _]|[_ Hq]]; eauto.
Qed.

Lemma free_heap_ok h p h' : heap_ok h → free h p = Ok h' → heap_ok h'.
Proof.
  intros [Hf Hh]. unfold free. intros (x & Hx & [= <-])%bind_Ok.
  split; [done|]. cbn. intros q [y [_ Hq]%lookup_delete_Some]. eauto.
Qed.
End operations.
Arguments empty_heap : clear implicits.
