(* ===== verification/Paging.v ===== *)
(** * page_replacement.c: page frames, FIFO, LRU by a matrix

    Models the parts of src/Labweek17/page_replacement.c that keep their state
    in arrays: [print_pageframe], [FIFO], the matrix of [LRU_matrix].  A run
    answers one [event] per reference: the page, whether it faulted, the page
    frames printed and the text printed after them.

    The specifications are the textbook policies: a queue of loaded pages for
    FIFO, the list of the frames in order of last use for LRU. *)

From stdpp Require Import base list numbers sets.
From S2P Require Import Prelude.

Definition REFERENCE_STRING_LENGTH : Z := 20.
Definition PAGE_SIZE : Z := 10.
Definition FRAME_SIZE : Z := 5.

Record event := Event {
  ev_page : Z;
  ev_fault : bool;
  ev_frame : list Z;
  ev_extra : list tok
}.

(** ** Printing *)

Definition print_page (page_num : Z) : tok :=
  if page_num =? -1 then TStr " " else TInt page_num.

Definition print_pageframe (page_frame : list Z) : outcome (list tok) :=
  for_range 0 FRAME_SIZE
    (λ i out, x ← page_frame.[i];
       Ok (out ++ [TStr "|"; print_page x] ++
           if i =? FRAME_SIZE - 1 then [TStr "|"] else [])) [].

Definition print_reference_string (reference_string : list Z) : outcome (list tok) :=
  out ← for_range 0 REFERENCE_STRING_LENGTH
    (λ i out, x ← reference_string.[i]; Ok (out ++ [TInt x; TStr " "])) [];
  Ok (TStr "reference_string:\n" :: out ++ [TStr "\n"]).

(** The line of one reference: "page: frames, (no) page fault" and the rest. *)
Definition print_event (hit fault : string) (e : event) : outcome (list tok) :=
  f ← print_pageframe (ev_frame e);
  Ok (TInt (ev_page e) :: TStr ": " :: f ++ TStr (if ev_fault e then fault else hit) :: ev_extra e).

Definition print_events (hit fault : string) (evs : list event) : outcome (list tok) :=
  mfold (λ e out, l ← print_event hit fault e; Ok (out ++ l)) evs [].

(** ** The loop over the reference string *)

Definition run_refs {S E} (step : Z → S → outcome (S * E))
    (reference_string : list Z) (s : S) : outcome (S * list E) :=
  for_range 0 REFERENCE_STRING_LENGTH
    (λ i st, page_num ← reference_string.[i];
       r ← step page_num st.1; Ok (r.1, st.2 ++ [r.2])) (s, []).

(** [for (j = 0; j < FRAME_SIZE; ++j) if (page_frame[j] == page_num) break;] *)
Definition find_frame (page_frame : list Z) (page_num : Z) : outcome Z :=
  loop (S (Z.to_nat FRAME_SIZE))
    (λ j, if j <? FRAME_SIZE then
            x ← page_frame.[j]; Ok (if x =? page_num then inr j else inl (j + 1))
          else Ok (inr j)) 0.

Definition init_frame : list Z := replicate (Z.to_nat FRAME_SIZE) (-1).

(** ** FIFO *)

Record fifo := FifoSt { page_frame : list Z; replace_index : Z }.

Definition FIFO_step (page_num : Z) (s : fifo) : outcome (fifo * event) :=
  j ← find_frame (page_frame s) page_num;
  if j =? FRAME_SIZE then
    frame ← aset (page_frame s) (replace_index s) page_num;
    Ok (FifoSt frame (Z.rem (replace_index s + 1) FRAME_SIZE), Event page_num true frame [TStr "\n"])
  else Ok (s, Event page_num false (page_frame s) [TStr "\n"]).

Definition FIFO_run (reference_string : list Z) : outcome (list event) :=
  r ← run_refs FIFO_step reference_string (FifoSt init_frame 0); Ok r.2.

Definition FIFO (reference_string : list Z) : outcome (list tok) :=
  evs ← FIFO_run reference_string;
  out ← print_events ", no page fault" ", page fault" evs;
  Ok ([TStr "\n---------------------------------------\n";
       TStr "page-replacement algorithm: FIFO\n\n"] ++ out ++
      [TStr "---------------------------------------\n"]).

(** ** LRU by a matrix *)

Notation matrix := (list (list Z)).

Definition mget (m : matrix) (i j : Z) : outcome Z := row ← m.[i]; row.[j].

Definition mset (m : matrix) (i j x : Z) : outcome matrix :=
  row ← m.[i]; row ← aset row j x; aset m i row.

Definition setrow1 (m : matrix) (row : Z) : outcome matrix :=
  for_range 0 FRAME_SIZE (λ i m, mset m row i 1) m.

Definition setcolumn0 (m : matrix) (column : Z) : outcome matrix :=
  for_range 0 FRAME_SIZE
    (λ i m, if i =? column then Ok m else mset m i column 0) m.

Definition count_ones (m : matrix) (i : Z) : outcome Z :=
  for_range 0 FRAME_SIZE
    (λ j one_sum, x ← mget m i j; Ok (if x =? 1 then one_sum + 1 else one_sum)) 0.

Definition find_least_row (m : matrix) : outcome Z :=
  r ← for_range 0 FRAME_SIZE
    (λ i s, one_sum ← count_ones m i;
       Ok (if one_sum <? s.1 then (one_sum, i) else s)) (FRAME_SIZE, 0);
  Ok r.2.

Definition print_LRU_matrix (m : matrix) : outcome (list tok) :=
  out ← for_range 0 FRAME_SIZE
    (λ i out,
       out ← for_range 0 FRAME_SIZE (λ j out, x ← mget m i j; Ok (out ++ [TInt x; TStr " "])) out;
       Ok (out ++ [TStr "\n"])) [];
  Ok (TStr "LRU matrix:\n" :: out).

Record lru_matrix := LruMatrix { lm_frame : list Z; lm_matrix : matrix }.

Definition LRU_matrix_step (page_num : Z) (s : lru_matrix) : outcome (lru_matrix * event) :=
  j ← find_frame (lm_frame s) page_num;
  if j =? FRAME_SIZE then
    row ← find_least_row (lm_matrix s);
    frame ← aset (lm_frame s) row page_num;
    m ← setrow1 (lm_matrix s) row;
    m ← setcolumn0 m row;
    out ← print_LRU_matrix m;
    Ok (LruMatrix frame m, Event page_num true frame (TStr "\n" :: out))
  else
    m ← setrow1 (lm_matrix s) j;
    m ← setcolumn0 m j;
    out ← print_LRU_matrix m;
    Ok (LruMatrix (lm_frame s) m, Event page_num false (lm_frame s) (TStr "\n" :: out)).

Definition init_matrix : matrix :=
  replicate (Z.to_nat FRAME_SIZE) (replicate (Z.to_nat FRAME_SIZE) 0).

Definition LRU_matrix_run (reference_string : list Z) : outcome (list event) :=
  r ← run_refs LRU_matrix_step reference_string (LruMatrix init_frame init_matrix); Ok r.2.

Definition LRU_matrix (reference_string : list Z) : outcome (list tok) :=
  evs ← LRU_matrix_run reference_string;
  out ← print_events ", no page fault" ", page fault" evs;
  Ok ([TStr "\n------------------------------------------------------------------\n";
       TStr "page-replacement algorithm: LRU implemented by matrix\n\n"] ++ out ++
      [TStr "------------------------------------------------------------------\n"]).

(** ** Specifications and simulation *)

(** What the policies are compared on: page, fault, frames (or queue). *)
Notation observation := (Z * bool * list Z)%type.

Definition observe (e : event) : observation := (ev_page e, ev_fault e, ev_frame e).

Fixpoint spec_run {T O} (spec : Z → T → T * O) (refs : list Z) (t : T) : T * list O :=
  match refs with
  | [] => (t, [])
  | p :: refs =>
      let r := spec p t in let rs := spec_run spec refs r.1 in (rs.1, r.2 :: rs.2)
  end.

Section simulation.
Context {S T E O : Type} (step : Z → S → outcome (S * E)) (spec : Z → T → T * O).
Context (P : Z → Prop) (R : S → T → Prop) (Q : E → O → Prop).
Hypothesis step_sim : ∀ p s t, P p → R s t →
  ∃ s' e, step p s = Ok (s', e) ∧ R s' (spec p t).1 ∧ Q e (spec p t).2.

Lemma mfold_sim refs : ∀ s t evs,
  Forall P refs → R s t →
  ∃ s' evs', mfold (λ page_num st, r ← step page_num st.1; Ok (r.1, st.2 ++ [r.2]))
      refs (s, evs) = Ok (s', evs ++ evs') ∧
    R s' (spec_run spec refs t).1 ∧ Forall2 Q evs' (spec_run spec refs t).2.
Proof using step_sim.
  induction refs as [|p refs IH]; intros s t evs HP HR.
  - exists s, []. split_and!; [by rewrite app_nil_r|done|constructor].
  - inversion HP; subst. cbn. destruct (step_sim p s t) as (s1 & e & -> & HR1 & HQ); [done..|].
    cbn. destruct (IH s1 (spec p t).1 (evs ++ [e])) as (s2 & evs2 & -> & HR2 & HQ2); [done..|].
    exists s2, (e :: evs2). split_and!; [by rewrite <-(assoc_L (++))|done|by constructor].
Qed.

Lemma run_refs_sim refs s t :
  zlen refs = REFERENCE_STRING_LENGTH → Forall P refs → R s t →
  ∃ s' evs, run_refs step refs s = Ok (s', evs) ∧
    R s' (spec_run spec refs t).1 ∧ Forall2 Q evs (spec_run spec refs t).2.
Proof using step_sim.
  intros Hl HP HR. unfold run_refs. rewrite <-Hl, for_range_fold.
  by apply (mfold_sim refs s t []).
Qed.
End simulation.

Lemma find_frame_spec frame p :
  zlen frame = FRAME_SIZE →
  ∃ j, find_frame frame p = Ok j ∧
    ((j = FRAME_SIZE ∧ p ∉ frame) ∨ (0 ≤ j < FRAME_SIZE ∧ frame !! Z.to_nat j = Some p)).
Proof.
  intros Hl. unfold find_frame.
  apply (loop_spec (λ j, 0 ≤ j ≤ FRAME_SIZE ∧ ∀ i, (i < Z.to_nat j)%nat → frame !! i ≠ Some p)
    (λ j, (j = FRAME_SIZE ∧ p ∉ frame) ∨ (0 ≤ j < FRAME_SIZE ∧ frame !! Z.to_nat j = Some p))
    (λ j, Z.to_nat (FRAME_SIZE - j))).
  - intros j [Hj Hi]. destruct (Z.ltb_spec j FRAME_SIZE) as [Hlt|Hge].
    + destruct (aget_in_range frame j) as (x & -> & Hx); [lia|]. cbn.
      destruct (Z.eqb_spec x p) as [->|Hne]; eexists; (split; [done|]); cbn; [right; split; [lia|done]|].
      split; [split; [lia|]|lia]. intros i Hlti.
      destruct (decide (i = Z.to_nat j)) as [->|]; [congruence|]. apply Hi. lia.
    + eexists. split; [done|]. left. split; [lia|]. intros [i Hin]%list_elem_of_lookup.
      pose proof (lookup_lt_Some _ _ _ Hin). unfold zlen in Hl. apply (Hi i); [lia|done].
  - split; [done|]. intros i Hi. lia.
  - unfold FRAME_SIZE. lia.
Qed.

(** Printing never fails on full arrays of frames. *)
Lemma print_pageframe_Ok frame :
  zlen frame = FRAME_SIZE → ∃ out, print_pageframe frame = Ok out.
Proof.
  intros Hl. unfold print_pageframe.
  destruct (for_range_spec (λ _ _, True) (λ i out, x ← frame.[i];
    Ok (out ++ [TStr "|"; print_page x] ++ if i =? FRAME_SIZE - 1 then [TStr "|"] else []))
    0 FRAME_SIZE []) as (out & -> & _); [done|done| |eauto].
  intros i s Hi _. destruct (aget_in_range frame i) as (x & -> & _); [lia|]. cbn. eauto.
Qed.

Lemma print_events_Ok hit fault evs :
  Forall (λ e, zlen (ev_frame e) = FRAME_SIZE) evs → ∃ out, print_events hit fault evs = Ok out.
Proof.
  unfold print_events. intros H. generalize (@nil tok).
  induction H as [|e evs He _ IH]; intros acc; [by eexists|]. cbn. unfold print_event.
  destruct (print_pageframe_Ok _ He) as [f ->]. cbn. apply IH.
Qed.

(** The first-in first-out policy on the queue of pages, the oldest first. *)
Definition fifo_spec (p : Z) (q : list Z) : list Z * observation :=
  if decide (p ∈ q) then (q, (p, false, q)) else (tail q ++ [p], (p, true, tail q ++ [p])).

(** The queue of the frames: they are filled in a circle from [replace_index]. *)
Definition fifo_rel (s : fifo) (q : list Z) : Prop :=
  zlen (page_frame s) = FRAME_SIZE ∧ 0 ≤ replace_index s < FRAME_SIZE ∧
  q = rotate (Z.to_nat (replace_index s)) (page_frame s).

Lemma five_cells (l : list Z) :
  zlen l = FRAME_SIZE → ∃ a b c d e, l = [a; b; c; d; e].
Proof.
  unfold zlen, FRAME_SIZE. intros H. do 5 (destruct l as [|? l]; [cbn in H; lia|]).
  destruct l; [by eexists _, _, _, _, _|]. cbn in H. lia.
Qed.

Lemma five_indices (i : Z) : 0 ≤ i < FRAME_SIZE → i = 0 ∨ i = 1 ∨ i = 2 ∨ i = 3 ∨ i = 4.
Proof. unfold FRAME_SIZE. lia. Qed.

Lemma fifo_replace (frame : list Z) (r p : Z) :
  zlen frame = FRAME_SIZE → 0 ≤ r < FRAME_SIZE →
  rotate (Z.to_nat (Z.rem (r + 1) FRAME_SIZE)) (<[Z.to_nat r := p]> frame) =
  (tail (rotate (Z.to_nat r) frame) ++ [p])%list.
Proof.
  intros (a & b & c & d & e & ->)%five_cells Hr%five_indices.
  destruct Hr as [->|[->|[->|[->| ->]]]]; reflexivity.
Qed.

Lemma FIFO_step_sim p s q :
  fifo_rel s q →
  ∃ s' e, FIFO_step p s = Ok (s', e) ∧ fifo_rel s' (fifo_spec p q).1 ∧
    ((observe e).1 = (fifo_spec p q).2.1 ∧ zlen (ev_frame e) = FRAME_SIZE ∧
     ∃ r, (fifo_spec p q).2.2 = rotate r (ev_frame e)).
Proof.
  intros (Hl & Hr & ->). unfold FIFO_step, fifo_spec. set (n := Z.to_nat (replace_index s)).
  assert (p ∈ rotate n (page_frame s) ↔ p ∈ page_frame s) as Hin.
  { assert (rotate n (page_frame s) ≡ₚ page_frame s) as ->; [|done].
    unfold rotate. by rewrite (comm (++)), take_drop. }
  destruct (find_frame_spec (page_frame s) p Hl) as (j & -> & [[-> Hn]|[Hj Hp]]); cbn.
  - rewrite decide_False by naive_solver. rewrite aset_Ok by (by rewrite Hl). cbn.
    eexists _, _. split; [done|]. cbn. split_and!; [|done|by rewrite zlen_insert|].
    + unfold fifo_rel. cbn. split; [by rewrite zlen_insert|].
      split; [apply Z.rem_bound_pos; unfold FRAME_SIZE in *; lia|].
      symmetry. by apply fifo_replace.
    + eexists. symmetry. by apply fifo_replace.
  - rewrite decide_True by (apply Hin, list_elem_of_lookup; eauto).
    replace (j =? FRAME_SIZE) with false by (symmetry; apply Z.eqb_neq; lia).
    eexists _, _. split; [done|]. cbn. split_and!; [done|done|done|by eexists].
Qed.

(** [FIFO] is the first-in first-out policy: on every reference string the
    run answers, reference by reference, the faults of the queue, and the page
    frames are a rotation of the queue. *)
Theorem FIFO_refines refs :
  zlen refs = REFERENCE_STRING_LENGTH →
  ∃ evs, FIFO_run refs = Ok evs ∧
    Forall2 (λ e o, (observe e).1 = o.1 ∧ zlen (ev_frame e) = FRAME_SIZE ∧
      ∃ r, o.2 = rotate r (ev_frame e)) evs (spec_run fifo_spec refs init_frame).2 ∧
    ∃ out, FIFO refs = Ok out.
Proof.
  intros Hl. destruct (run_refs_sim FIFO_step fifo_spec (λ _, True) fifo_rel
    (λ e o, (observe e).1 = o.1 ∧ zlen (ev_frame e) = FRAME_SIZE ∧
      ∃ r, o.2 = rotate r (ev_frame e))) with
    (refs := refs) (s := FifoSt init_frame 0) (t := init_frame) as (s' & evs & Hrun & _ & Hq).
  - intros p s q _. apply FIFO_step_sim.
  - done.
  - by apply Forall_true.
  - done.
  - exists evs. unfold FIFO. assert (FIFO_run refs = Ok evs) as Hev
      by (unfold FIFO_run; by rewrite Hrun).
    rewrite Hev. cbn [mbind outcome_bind]. split_and!; [done|done|].
    destruct (print_events_Ok ", no page fault" ", page fault" evs) as [out ->]; [|by eexists].
    clear -Hq. induction Hq as [|e o evs os (_ & He & _) _ IH]; by constructor.
Qed.

(** ** The least-recently-used policy

    The state is the page frames and the list of the frame indices in order of
    last use, the least recently used first. *)

Definition touch (i : Z) (order : list Z) : list Z := filter (i ≠.) order ++ [i].

Definition holds (frame : list Z) (p i : Z) : Prop := frame !! Z.to_nat i = Some p.
#[global] Instance holds_dec frame p i : Decision (holds frame p i) := decide (frame !! Z.to_nat i = Some p).

Definition lru_spec (p : Z) (s : list Z * list Z) : (list Z * list Z) * observation :=
  let '(frame, order) := s in
  match filter (holds frame p) order with
  | i :: _ => ((frame, touch i order), (p, false, frame))
  | [] =>
      match order with
      | v :: _ => let frame := <[Z.to_nat v := p]> frame in ((frame, touch v order), (p, true, frame))
      | [] => (s, (p, true, frame))
      end
  end.

Definition init_order : list Z := [0; 1; 2; 3; 4].

(** *** The matrix of a list of indices

    [k] frames are in use, the first [FRAME_SIZE - k] indices of [order] are
    those of the free ones.  A row has a 1 for every frame not used after it. *)

Fixpoint position (i : Z) (order : list Z) : Z :=
  match order with [] => 0 | x :: order => if x =? i then 0 else 1 + position i order end.

Definition matrix_of (order : list Z) (k : Z) : matrix :=
  (λ i, (λ j, if (i <? k) && (position j order <=? position i order) then 1 else 0)
          <$> init_order) <$> init_order.

#[global] Arguments matrix_of : simpl never.

(** All the orders that occur: the free frames are the last ones. *)
Definition lru_orders : list (list Z * Z) :=
  k ← [0; 1; 2; 3; 4; 5];
  (λ p, (seqZ k (FRAME_SIZE - k) ++ p, k)) <$> permutations (seqZ 0 k).

Definition touch_matrix (m : matrix) (i : Z) : outcome matrix :=
  m ← setrow1 m i; setcolumn0 m i.

#[global] Arguments lru_orders : simpl never.

(** The check of one order: referencing a frame in use, and replacing. *)
Definition check_touch (s : list Z * Z) (i : Z) : bool :=
  let k := Z.max s.2 (i + 1) in
  bool_decide (touch_matrix (matrix_of s.1 s.2) i = Ok (matrix_of (touch i s.1) k)) &&
  bool_decide ((touch i s.1, k) ∈ lru_orders).

Definition check_order (s : list Z * Z) : bool :=
  forallb (λ i, check_touch s i) (seqZ 0 s.2) &&
  match s.1 with
  | v :: _ => bool_decide (find_least_row (matrix_of s.1 s.2) = Ok v) && check_touch s v &&
      bool_decide (v = if s.2 <? FRAME_SIZE then s.2 else v) && bool_decide (0 ≤ v < FRAME_SIZE)
  | [] => false
  end && bool_decide (s.1 ≡ₚ init_order) && bool_decide (0 ≤ s.2 ≤ FRAME_SIZE) &&
  match print_LRU_matrix (matrix_of s.1 s.2) with Ok _ => true | Err _ => false end.

(** The matrix represents the order: checked on all of them. *)
Lemma matrix_orders : Forall (λ s, check_order s = true) lru_orders.
Proof.
  apply Forall_forall. intros s Hs.
  assert (forallb check_order lru_orders = true) as Hall by (vm_compute; reflexivity).
  rewrite forallb_forall in Hall. apply Hall. by apply list_elem_of_In.
Qed.

Lemma init_matrix_order : init_matrix = matrix_of init_order 0 ∧ (init_order, 0) ∈ lru_orders.
Proof. split; [reflexivity|]. apply (bool_decide_unpack _). vm_compute. exact I. Qed.

Lemma order_facts order k :
  (order, k) ∈ lru_orders →
  order ≡ₚ init_order ∧ 0 ≤ k ≤ FRAME_SIZE ∧ (∃ out, print_LRU_matrix (matrix_of order k) = Ok out) ∧
  ∃ v rest, order = v :: rest ∧ 0 ≤ v < FRAME_SIZE ∧ (k < FRAME_SIZE → v = k) ∧
    find_least_row (matrix_of order k) = Ok v ∧
    ∀ i, 0 ≤ i < k ∨ i = v →
      touch_matrix (matrix_of order k) i = Ok (matrix_of (touch i order) (Z.max k (i + 1))) ∧
      (touch i order, Z.max k (i + 1)) ∈ lru_orders.
Proof.
  intros Hin. pose proof matrix_orders as Hall. rewrite Forall_forall in Hall.
  specialize (Hall _ Hin). unfold check_order in Hall. cbn [fst snd] in Hall.
  apply andb_true_iff in Hall as [Hall Hpr].
  apply andb_true_iff in Hall as [Hall Hk%bool_decide_eq_true].
  apply andb_true_iff in Hall as [Hall Hp%bool_decide_eq_true].
  apply andb_true_iff in Hall as [Ht Hall].
  destruct order as [|v rest]; [done|].
  apply andb_true_iff in Hall as [Hall Hv%bool_decide_eq_true].
  apply andb_true_iff in Hall as [Hall Hvk%bool_decide_eq_true].
  apply andb_true_iff in Hall as [Hf%bool_decide_eq_true Htv].
  split_and!; [done|lia|lia| |].
  { destruct (print_LRU_matrix _); [eauto|done]. }
  exists v, rest. split_and!; [done|lia|lia| |done|].
  { intros Hlt. destruct (Z.ltb_spec k FRAME_SIZE); [done|lia]. }
  assert (∀ i, check_touch (v :: rest, k) i = true →
    touch_matrix (matrix_of (v :: rest) k) i =
      Ok (matrix_of (touch i (v :: rest)) (Z.max k (i + 1))) ∧
    (touch i (v :: rest), Z.max k (i + 1)) ∈ lru_orders) as Hc.
  { intros i [H1%bool_decide_eq_true H2%bool_decide_eq_true]%andb_true_iff. done. }
  intros i [Hi| ->]; apply Hc; [|done]. rewrite forallb_forall in Ht. apply Ht.
  apply list_elem_of_In, elem_of_seqZ. lia.
Qed.

(** The frames agree with the order: the used ones hold distinct pages. *)
Definition frames_ok (frame : list Z) (k : Z) : Prop :=
  zlen frame = FRAME_SIZE ∧
  (∀ i, (i < Z.to_nat FRAME_SIZE)%nat → frame !! i = Some (-1) ↔ (Z.to_nat k ≤ i)%nat) ∧
  ∀ i j p, p ≠ -1 → frame !! i = Some p → frame !! j = Some p → i = j.

Definition matrix_rel (s : lru_matrix) (t : list Z * list Z) : Prop :=
  lm_frame s = t.1 ∧
  ∃ k, (t.2, k) ∈ lru_orders ∧ frames_ok t.1 k ∧ lm_matrix s = matrix_of t.2 k.

Lemma frames_ok_replace frame k v p :
  frames_ok frame k → 0 ≤ k ≤ FRAME_SIZE → 0 ≤ v < FRAME_SIZE → (k < FRAME_SIZE → v = k) →
  p ∉ frame → p ≠ -1 → frames_ok (<[Z.to_nat v := p]> frame) (Z.max k (v + 1)).
Proof.
  intros (Hl & Hfree & Hinj) Hk Hv Hvk Hp Hp1. unfold frames_ok. unfold zlen in *.
  rewrite length_insert. split; [done|]. split.
  - intros i Hi. destruct (decide (i = Z.to_nat v)) as [->|Hne].
    + rewrite list_lookup_insert_eq by lia. split; [intros [= ?]; done|lia].
    + rewrite list_lookup_insert_ne by done. rewrite Hfree by done. lia.
  - assert (∀ i, frame !! i ≠ Some p) as Hn by (intros i ?%list_elem_of_lookup_2; done).
    intros i j q Hq. rewrite !list_lookup_insert.
    repeat case_decide; intros H1 H2; destruct_and?; simplify_eq; naive_solver.
Qed.

Lemma filter_holds_unique frame order p i :
  frame !! Z.to_nat i = Some p → i ∈ order → Forall (λ i, 0 ≤ i) order →
  (∀ i j, frame !! i = Some p → frame !! j = Some p → i = j) →
  ∃ rest, filter (holds frame p) order = i :: rest.
Proof.
  intros Hi Hin Hpos Hinj.
  assert (i ∈ filter (holds frame p) order) as Hf by (by apply list_elem_of_filter).
  destruct (filter (holds frame p) order) as [|j rest] eqn:E; [by apply not_elem_of_nil in Hf|].
  exists rest. f_equal. rewrite Forall_forall in Hpos.
  assert (j ∈ filter (holds frame p) order) as [Hj Hjo]%list_elem_of_filter by (rewrite E; left).
  pose proof (Hpos _ Hin). pose proof (Hpos _ Hjo). specialize (Hinj _ _ Hj Hi). lia.
Qed.

Lemma order_nonneg order : order ≡ₚ init_order → Forall (λ i, 0 ≤ i) order.
Proof. intros ->. repeat (apply Forall_cons_2; [lia|]). apply Forall_nil_2. Qed.

Lemma in_init_order i : 0 ≤ i < FRAME_SIZE → i ∈ init_order.
Proof. intros Hi%five_indices. unfold init_order. set_solver. Qed.

Lemma LRU_matrix_step_sim p s t :
  p ≠ -1 → matrix_rel s t →
  ∃ s' e, LRU_matrix_step p s = Ok (s', e) ∧ matrix_rel s' (lru_spec p t).1 ∧
    observe e = (lru_spec p t).2.
Proof.
  intros Hp1 (Hfr & k & Hord & Hok & Hm). destruct t as [frame order], s as [lf m]. cbn in *. subst.
  destruct (order_facts _ _ Hord) as (Hperm & Hk & _ & v & rest & -> & Hv & Hvk & Hleast & Htouch).
  destruct Hok as (Hl & Hfree & Hinj).
  unfold LRU_matrix_step. cbn [lm_frame lm_matrix].
  destruct (find_frame_spec frame p Hl) as (j & -> & [[-> Hn]|[Hj Hjp]]); cbn [mbind outcome_bind].
  - rewrite Z.eqb_refl, Hleast. cbn [mbind outcome_bind]. rewrite aset_Ok by lia.
    cbn [mbind outcome_bind].
    destruct (Htouch v (or_intror eq_refl)) as [Ht Hin]. unfold touch_matrix in Ht.
    apply bind_Ok in Ht as (m1 & -> & Ht). cbn [mbind outcome_bind]. rewrite Ht.
    destruct (order_facts _ _ Hin) as (_ & _ & (out & Hout) & _). cbn [mbind outcome_bind]. rewrite Hout.
    eexists _, _. split; [done|].
    rewrite filter_none.
    + split; [|done]. split; [done|]. exists (Z.max k (v + 1)). cbn.
      split; [done|]. split; [|done]. by apply frames_ok_replace.
    + apply Forall_forall. intros i _ Hh. apply Hn. by eapply list_elem_of_lookup_2.
  - replace (j =? FRAME_SIZE) with false by (symmetry; apply Z.eqb_neq; lia).
    assert (j < k) as Hjk.
    { destruct (decide (j < k)); [done|]. exfalso. apply Hp1.
      assert (frame !! Z.to_nat j = Some (-1)); [|congruence]. apply Hfree; lia. }
    destruct (Htouch j (or_introl (conj (proj1 Hj) Hjk))) as [Ht Hin]. unfold touch_matrix in Ht.
    apply bind_Ok in Ht as (m1 & -> & Ht). cbn [mbind outcome_bind]. rewrite Ht.
    destruct (order_facts _ _ Hin) as (_ & _ & (out & Hout) & _). cbn [mbind outcome_bind]. rewrite Hout.
    eexists _, _. split; [done|].
    destruct (filter_holds_unique frame (v :: rest) p j) as [? ->]; try done.
    + rewrite Hperm. by apply in_init_order.
    + by apply order_nonneg.
    + intros i1 i2. by apply Hinj.
    + split; [|done]. split; [done|]. exists (Z.max k (j + 1)). cbn.
      split; [done|]. split; [|done]. by replace (Z.max k (j + 1)) with k by lia.
Qed.

(** ** Least recently used, on the pages themselves

    [recent] lists the pages referenced so far, the most recently used first.
    The policy keeps the first [FRAME_SIZE] of them, [-1] standing for a free
    frame. *)
Definition kept (recent : list Z) : list Z :=
  take (Z.to_nat FRAME_SIZE) (recent ++ init_frame).

Definition recency_spec (p : Z) (recent : list Z) : list Z * observation :=
  let recent' := p :: filter (p ≠.) recent in
  (recent', (p, bool_decide (p ∉ kept recent), kept recent')).

Definition page_at (frame : list Z) (i : Z) : Z := default (-1) (frame !! Z.to_nat i).

Definition recency_rel (t : list Z * list Z) (recent : list Z) : Prop :=
  zlen t.1 = FRAME_SIZE ∧ t.2 ≡ₚ init_order ∧ NoDup recent ∧ -1 ∉ recent ∧
  reverse (page_at t.1 <$> t.2) = kept recent.

Section filter_take.
Implicit Types (p : Z) (l : list Z).

Lemma filter_notin p l : p ∉ l → filter (p ≠.) l = l.
Proof. intros H. apply filter_all, Forall_forall. intros x Hx <-. done. Qed.

Lemma take_filter_miss p n l : p ∉ take n l → take n (filter (p ≠.) l) = take n l.
Proof.
  revert n. induction l as [|x l IH]; intros [|n] Hn; [done..|].
  cbn in Hn. rewrite not_elem_of_cons in Hn. destruct Hn as [Hx Hn].
  rewrite filter_cons_True by done. cbn. by rewrite IH.
Qed.

Lemma take_filter_hit p n l :
  NoDup (filter (p =.) l) → p ∈ take (S n) l → filter (p ≠.) (take (S n) l) = take n (filter (p ≠.) l).
Proof.
  revert n. induction l as [|x l IH]; intros n Hd Hp; [by apply not_elem_of_nil in Hp|].
  destruct (decide (p = x)) as [->|Hx].
  - rewrite firstn_cons, !filter_cons_False by naive_solver.
    rewrite filter_cons_True in Hd by done.
    assert (x ∉ l) as Hn.
    { intros Hin. inversion Hd as [|?? Hni _]; subst. apply Hni. by apply list_elem_of_filter. }
    rewrite !filter_notin; [done|done|]. intros Hin. apply Hn.
    by eapply subseteq_take.
  - rewrite firstn_cons, !filter_cons_True by done.
    rewrite filter_cons_False in Hd by done. cbn in Hp.
    apply elem_of_cons in Hp as [->|Hp]; [done|]. destruct n as [|n].
    + by apply not_elem_of_nil in Hp.
    + rewrite firstn_cons. f_equal. by apply IH.
Qed.
End filter_take.

(** The policy on the list of kept pages, whichever frames hold them. *)
Lemma kept_step p recent :
  NoDup recent → p ≠ -1 →
  kept (p :: filter (p ≠.) recent) =
  p :: (if decide (p ∈ kept recent) then filter (p ≠.) (kept recent)
        else take 4 (kept recent)).
Proof.
  intros Hd Hp. unfold kept. change (Z.to_nat FRAME_SIZE) with 5%nat. rewrite <-app_comm_cons.
  rewrite firstn_cons. f_equal.
  assert (filter (p ≠.) (recent ++ init_frame) = filter (p ≠.) recent ++ init_frame) as Hf.
  { rewrite filter_app. f_equal. rewrite filter_notin; [done|].
    intros [-> _]%elem_of_replicate. done. }
  rewrite <-Hf. case_decide as Hin.
  - rewrite take_filter_hit; [done| |done].
    rewrite filter_app, (filter_none _ init_frame), app_nil_r.
    + by apply NoDup_filter.
    + apply Forall_replicate. done.
  - rewrite take_take. change (4 `min` 5)%nat with 4%nat. apply take_filter_miss.
    intros (i & Hi & Hlt)%elem_of_take. apply Hin, elem_of_take. exists i. split; [done|lia].
Qed.

Section recency.
Implicit Types (frame order recent : list Z) (p i : Z).

Lemma page_at_frame frame order :
  zlen frame = FRAME_SIZE → order ≡ₚ init_order → page_at frame <$> order ≡ₚ frame.
Proof. intros (a & b & c & d & e & ->)%five_cells ->. reflexivity. Qed.

Lemma holds_page_at frame p i : p ≠ -1 → holds frame p i ↔ page_at frame i = p.
Proof. intros Hp. unfold holds, page_at. destruct (frame !! Z.to_nat i); naive_solver. Qed.

(** The pages of a touched order. *)
Lemma pages_touch frame order i :
  NoDup (filter (page_at frame i =.) (page_at frame <$> order)) →
  i ∈ order →
  page_at frame <$> touch i order =
  filter (page_at frame i ≠.) (page_at frame <$> order) ++ [page_at frame i].
Proof.
  intros Hd Hin. unfold touch. rewrite fmap_app. f_equal.
  induction order as [|x order IH]; [by apply not_elem_of_nil in Hin|].
  rewrite fmap_cons in *. destruct (decide (page_at frame i = page_at frame x)) as [He|Hne].
  - rewrite (filter_cons_False _ (page_at frame x)) by naive_solver.
    rewrite filter_cons_True in Hd by done.
    assert (page_at frame i ∉ page_at frame <$> order) as Hni.
    { intros Hin'. inversion Hd as [|?? Hn _]; subst. apply Hn.
      apply list_elem_of_filter. by rewrite <-He. }
    rewrite (filter_notin _ (page_at frame <$> order)) by done.
    assert (∀ k : list Z, page_at frame i ∉ page_at frame <$> k → filter (i ≠.) k = k) as Hk.
    { intros k Hk. apply filter_notin. intros H. apply Hk. by apply list_elem_of_fmap_2. }
    apply elem_of_cons in Hin as [->|Hin].
    + rewrite filter_cons_False by naive_solver. by rewrite Hk.
    + exfalso. apply Hni. by apply list_elem_of_fmap_2.
  - rewrite (filter_cons_True _ (page_at frame x)) by done.
    rewrite filter_cons_True by naive_solver. rewrite fmap_cons. f_equal.
    apply IH.
    + by rewrite filter_cons_False in Hd.
    + by apply elem_of_cons in Hin as [->|Hin].
Qed.

Lemma page_at_insert frame order v p :
  0 ≤ v < zlen frame → v ∉ order → Forall (λ i, 0 ≤ i) order →
  page_at (<[Z.to_nat v := p]> frame) <$> order = page_at frame <$> order.
Proof.
  intros Hv Hn Hpos. apply list_fmap_ext. intros k i Hi. unfold page_at.
  rewrite list_lookup_insert_ne; [done|]. intros He.
  apply list_elem_of_lookup_2 in Hi. rewrite Forall_forall in Hpos. specialize (Hpos _ Hi).
  apply Hn. by replace v with i by lia.
Qed.

Lemma kept_NoDup p recent : NoDup recent → p ≠ -1 → NoDup (filter (p =.) (kept recent)).
Proof.
  intros Hd Hp. assert (NoDup (filter (p =.) (recent ++ init_frame))) as H.
  { rewrite filter_app, (filter_none _ init_frame), app_nil_r by (apply Forall_replicate; done).
    by apply NoDup_filter. }
  rewrite <-(take_drop (Z.to_nat FRAME_SIZE) (recent ++ init_frame)), filter_app in H.
  by apply NoDup_app in H as [H _].
Qed.

Lemma kept_length recent : length (kept recent) = 5%nat.
Proof. unfold kept. rewrite length_take, length_app.
  change (length init_frame) with 5%nat. change (Z.to_nat FRAME_SIZE) with 5%nat. lia. Qed.

(** Both ways of replacing: the pages of the new order are those the policy keeps. *)
Lemma kept_pages_hit frame order recent p i :
  p ≠ -1 → NoDup recent → reverse (page_at frame <$> order) = kept recent →
  i ∈ order → page_at frame i = p →
  reverse (page_at frame <$> touch i order) = kept (p :: filter (p ≠.) recent) ∧ p ∈ kept recent.
Proof.
  intros Hp Hd Hk Hin Hi.
  assert (p ∈ kept recent) as Hpk.
  { rewrite <-Hk. apply elem_of_reverse. rewrite <-Hi. by apply list_elem_of_fmap_2. }
  split; [|done]. rewrite kept_step, decide_True by done.
  rewrite pages_touch, Hi, reverse_app, <-filter_reverse, Hk; [done| |done].
  rewrite <-(reverse_involutive (page_at frame <$> order)), Hk, filter_reverse, Hi.
  rewrite reverse_Permutation. by apply kept_NoDup.
Qed.

Lemma kept_pages_miss frame v rest recent p :
  p ≠ -1 → NoDup recent → zlen frame = FRAME_SIZE → v :: rest ≡ₚ init_order →
  reverse (page_at frame <$> v :: rest) = kept recent → p ∉ kept recent →
  reverse (page_at (<[Z.to_nat v := p]> frame) <$> touch v (v :: rest))
  = kept (p :: filter (p ≠.) recent).
Proof.
  intros Hp Hd Hl Hperm Hk Hin. rewrite kept_step, decide_False by done.
  assert (NoDup (v :: rest)) as Hnd by (rewrite Hperm; apply (bool_decide_unpack _); exact I).
  apply NoDup_cons in Hnd as [Hv Hnd]. pose proof (order_nonneg _ Hperm) as Hpos.
  assert (v ∈ init_order) as Hvin by (rewrite <-Hperm; left).
  assert (0 ≤ v < zlen frame) as Hvr.
  { rewrite Hl. unfold FRAME_SIZE. unfold init_order in Hvin. set_solver by lia. }
  unfold touch. rewrite filter_cons_False by naive_solver. rewrite filter_notin by done.
  rewrite fmap_app, reverse_app. cbn. rewrite page_at_insert; [|done|done|by inversion Hpos].
  unfold page_at at 1. rewrite list_lookup_insert_eq by (unfold zlen in Hvr; lia). cbn. f_equal.
  rewrite fmap_cons, reverse_cons in Hk. pose proof (f_equal length Hk) as Hlen.
  rewrite kept_length, length_app, length_reverse in Hlen. cbn in Hlen.
  rewrite <-Hk, take_app_length'; [done|]. rewrite length_reverse. lia.
Qed.

Lemma recency_step p t recent :
  p ≠ -1 → recency_rel t recent →
  recency_rel (lru_spec p t).1 (recency_spec p recent).1 ∧
  (lru_spec p t).2.1 = (recency_spec p recent).2.1 ∧
  (lru_spec p t).2.2 ≡ₚ (recency_spec p recent).2.2.
Proof.
  intros Hp (Hl & Hperm & Hd & Hn1 & Hk). destruct t as [frame order]. unfold lru_spec, recency_spec.
  cbn [fst snd] in *.
  assert (∀ frame' order', zlen frame' = FRAME_SIZE → order' ≡ₚ init_order →
    reverse (page_at frame' <$> order') = kept (p :: filter (p ≠.) recent) →
    recency_rel (frame', order') (p :: filter (p ≠.) recent) ∧
    frame' ≡ₚ kept (p :: filter (p ≠.) recent)) as Hrel.
  { intros frame' order' Hl' Hperm' Hk'. split.
    - split_and!; cbn; try done.
      + apply NoDup_cons. split; [by intros [? _]%list_elem_of_filter|by apply NoDup_filter].
      + rewrite elem_of_cons, list_elem_of_filter. naive_solver.
    - rewrite <-Hk', reverse_Permutation. by rewrite page_at_frame. }
  assert (∀ i, i ∈ order → touch i order ≡ₚ init_order) as Ht.
  { intros i Hi. unfold touch. rewrite <-Hperm. rewrite (comm (++)). cbn.
    assert (NoDup order) as Hnd by (rewrite Hperm; apply (bool_decide_unpack _); exact I).
    clear -Hnd Hi. induction Hnd as [|x l Hx Hnd IH]; [by apply not_elem_of_nil in Hi|].
    apply elem_of_cons in Hi as [->|Hi].
    - rewrite filter_cons_False by naive_solver. by rewrite filter_notin.
    - rewrite filter_cons_True by (intros ->; done). rewrite Permutation_swap. by rewrite IH. }
  destruct (filter (holds frame p) order) as [|i r] eqn:E.
  - assert (p ∉ kept recent) as Hin.
    { rewrite <-Hk. intros (i & -> & Hi)%elem_of_reverse%list_elem_of_fmap.
      assert (i ∈ filter (holds frame (page_at frame i)) order) as Hf
        by (apply list_elem_of_filter; split; [by apply holds_page_at|done]).
      rewrite E in Hf. by apply not_elem_of_nil in Hf. }
    destruct order as [|v rest]; [by apply Permutation_nil_l in Hperm|].
    destruct (Hrel (<[Z.to_nat v:=p]> frame) (touch v (v :: rest))) as [Hr Hf];
      [by rewrite zlen_insert|apply Ht; left|by apply kept_pages_miss|].
    rewrite bool_decide_eq_true_2 by done. done.
  - assert (i ∈ filter (holds frame p) order) as [Hh Hi]%list_elem_of_filter
      by (rewrite E; left).
    apply holds_page_at in Hh; [|done].
    destruct (kept_pages_hit frame order recent p i) as [Hk' Hin]; try done.
    destruct (Hrel frame (touch i order)) as [Hr Hf]; [done|by apply Ht|done|].
    rewrite bool_decide_eq_false_2 by (intros H; done). done.
Qed.
End recency.

(** [LRU_matrix] follows the policy on frames and indices ... *)
Lemma LRU_matrix_run_spec refs :
  zlen refs = REFERENCE_STRING_LENGTH → Forall (λ p, p ≠ -1) refs →
  ∃ evs, LRU_matrix_run refs = Ok evs ∧
    Forall2 (λ e o, observe e = o) evs (spec_run lru_spec refs (init_frame, init_order)).2.
Proof.
  intros Hl Hp. destruct (run_refs_sim LRU_matrix_step lru_spec (λ p, p ≠ -1) matrix_rel
    (λ e o, observe e = o) LRU_matrix_step_sim refs (LruMatrix init_frame init_matrix)
    (init_frame, init_order)) as (s' & evs & Hrun & _ & Hq); [done|done| |].
  - destruct init_matrix_order as [Hm Hin]. split; [done|]. exists 0. split; [done|].
    split; [|done]. split_and!; [done| |].
    + intros i Hi. change (Z.to_nat FRAME_SIZE) with 5%nat in Hi. cbn [fst].
      split; [intros; lia|]. intros _. apply lookup_replicate_2.
      change (Z.to_nat FRAME_SIZE) with 5%nat. lia.
    + intros i j p Hne Hi. apply lookup_replicate in Hi as [-> _]. done.
  - exists evs. unfold LRU_matrix_run. by rewrite Hrun.
Qed.

(** ... and that policy keeps the most recently used pages. *)
Lemma lru_spec_recency refs :
  Forall (λ p, p ≠ -1) refs →
  Forall2 (λ o o' : observation, o.1 = o'.1 ∧ o.2 ≡ₚ o'.2)
    (spec_run lru_spec refs (init_frame, init_order)).2 (spec_run recency_spec refs []).2.
Proof.
  intros Hp. assert (recency_rel (init_frame, init_order) []) as Hr.
  { split_and!; [done|done|constructor|by apply not_elem_of_nil|done]. }
  revert Hr. generalize (init_frame, init_order) (@nil Z).
  induction Hp as [|p refs Hp _ IH]; intros t recent Hr; [constructor|]. cbn.
  destruct (recency_step p t recent Hp Hr) as (Hr' & H1 & H2). constructor; [done|by apply IH].
Qed.

(** The two together, for any implementation of the policy. *)
Lemma observe_recency evs refs :
  Forall (λ p, p ≠ -1) refs →
  Forall2 (λ e o, observe e = o) evs (spec_run lru_spec refs (init_frame, init_order)).2 →
  Forall2 (λ e o, (observe e).1 = o.1 ∧ ev_frame e ≡ₚ o.2) evs (spec_run recency_spec refs []).2.
Proof.
  intros Hp H. pose proof (lru_spec_recency refs Hp) as H2. revert H2.
  generalize (spec_run recency_spec refs []).2.
  induction H as [|e o evs os He _ IH]; intros l Hl; inversion Hl; subst; constructor.
  - done.
  - by apply IH.
Qed.

Lemma recency_frames refs : ∀ recent,
  Forall (λ o : observation, zlen o.2 = FRAME_SIZE) (spec_run recency_spec refs recent).2.
Proof.
  induction refs as [|p refs IH]; intros recent; [constructor|]. cbn. constructor; [|apply IH].
  unfold zlen. apply (f_equal Z.of_nat (kept_length (p :: filter (p ≠.) recent))).
Qed.

Lemma recency_print hit fault evs refs :
  Forall2 (λ e o, (observe e).1 = o.1 ∧ ev_frame e ≡ₚ o.2) evs (spec_run recency_spec refs []).2 →
  ∃ out, print_events hit fault evs = Ok out.
Proof.
  intros H. apply print_events_Ok. pose proof (recency_frames refs []) as Hf. revert Hf.
  induction H as [|e o evs os [_ He] _ IH]; intros Hf; [constructor|].
  inversion Hf; subst. constructor; [by rewrite He|by apply IH].
Qed.

(** [LRU_matrix] evicts the least recently used page: for every reference
    string of pages (no page is the free mark [-1]) the faults and the resident
    pages after every reference are those of the policy that keeps the
    [FRAME_SIZE] most recently used pages. *)
Theorem LRU_matrix_refines refs :
  zlen refs = REFERENCE_STRING_LENGTH → Forall (λ p, p ≠ -1) refs →
  ∃ evs, LRU_matrix_run refs = Ok evs ∧
    Forall2 (λ e o, (observe e).1 = o.1 ∧ ev_frame e ≡ₚ o.2) evs
      (spec_run recency_spec refs []).2 ∧
    ∃ out, LRU_matrix refs = Ok out.
Proof.
  intros Hl Hp. destruct (LRU_matrix_run_spec refs Hl Hp) as (evs & Hrun & Ho).
  pose proof (observe_recency evs refs Hp Ho) as Hq.
  exists evs. unfold LRU_matrix. rewrite Hrun. cbn [mbind outcome_bind].
  destruct (recency_print ", no page fault" ", page fault" evs refs Hq) as [out ->].
  split_and!; [done|done|by eexists].
Qed.

(** ** A reference string *)

Definition demo_refs : list Z := [7; 0; 1; 2; 0; 3; 0; 4; 2; 3; 0; 3; 2; 1; 2; 0; 1; 7; 0; 1].

Lemma demo_refs_pages : Forall (λ p, p ≠ -1) demo_refs.
Proof. repeat (apply Forall_cons_2; [done|]). apply Forall_nil_2. Qed.

Lemma FIFO_refines_witness :
  (∃ evs, FIFO_run demo_refs = Ok evs ∧
    Forall2 (λ e o, (observe e).1 = o.1 ∧ zlen (ev_frame e) = FRAME_SIZE ∧
      ∃ r, o.2 = rotate r (ev_frame e)) evs (spec_run fifo_spec demo_refs init_frame).2 ∧
    ∃ out, FIFO demo_refs = Ok out) ∧
  (map ev_fault <$> FIFO_run demo_refs) =
    Ok [true; true; true; true; false; true; false; true; false; false;
        false; false; false; false; false; false; false; true; true; true].
Proof. split; [|vm_compute; reflexivity]. apply (FIFO_refines demo_refs). reflexivity. Defined.

Lemma LRU_matrix_refines_witness :
  (∃ evs, LRU_matrix_run demo_refs = Ok evs ∧
    Forall2 (λ e o, (observe e).1 = o.1 ∧ ev_frame e ≡ₚ o.2) evs
      (spec_run recency_spec demo_refs []).2 ∧
    ∃ out, LRU_matrix demo_refs = Ok out) ∧
  (map ev_fault <$> LRU_matrix_run demo_refs) =
    Ok [true; true; true; true; false; true; false; true; false; false;
        false; false; false; false; false; false; false; true; false; false].
Proof.
  split; [|vm_compute; reflexivity].
  apply (LRU_matrix_refines demo_refs); [reflexivity|apply demo_refs_pages].
Defined.

(** ** Memory for the nodes

    [gets i]: [malloc] finds memory for the node of the frame [i]. *)
Definition enough (gets : Z → bool) : Prop := ∀ i, 0 ≤ i < FRAME_SIZE → gets i = true.

Lemma enough_all gets : enough gets ↔ forallb gets (seqZ 0 FRAME_SIZE) = true.
Proof.
  rewrite List.forallb_forall. unfold enough. split; intros H i.
  - intros Hi%list_elem_of_In%elem_of_seqZ. apply H. lia.
  - intros Hi. apply H, list_elem_of_In, elem_of_seqZ. lia.
Qed.

Definition plenty (i : Z) : bool := true.
