(* ===== verification/LruStack.v ===== *)
(** * page_replacement.c: LRU by a stack

    Models [PageNode_LRU], [PageStack] and [LRU_stack] of
    src/Labweek17/page_replacement.c: a doubly linked list of [malloc]ed nodes,
    the least recently used page at its head, with every pointer assignment of
    the source.  [seg] says that a list of nodes is linked in the heap; the
    theorems say that [LRU_stack] follows the policy of [Paging.recency_spec],
    that it and the matrix of [LRU_matrix] make the same decisions, and that
    [free_PageStack] frees every node once.  [malloc] may fail: [gets i] says
    whether it finds memory for the node of the frame [i]. *)

From stdpp Require Import base gmap list numbers sets.
From S2P Require Import Prelude Heap Paging.

Record PageNode_LRU := NodeLRU {
  page_num : Z;
  page_index : Z;
  pre : Z;
  next : Z
}.

Definition set_pre (p : Z) (n : PageNode_LRU) : PageNode_LRU :=
  NodeLRU (page_num n) (page_index n) p (next n).
Definition set_next (p : Z) (n : PageNode_LRU) : PageNode_LRU :=
  NodeLRU (page_num n) (page_index n) (pre n) p.
Definition set_page_num (x : Z) (n : PageNode_LRU) : PageNode_LRU :=
  NodeLRU x (page_index n) (pre n) (next n).

(** [PageStack], with the heap its nodes are in. *)
Record PageStack := Stack { nodes : heap PageNode_LRU; head : Z; tail : Z }.

(** The result of [malloc] is not tested before the node is filled; what the
    memory held before, [garbage], is overwritten. *)
Definition garbage : PageNode_LRU := NodeLRU 0 0 NULL NULL.

Definition creat_PageNode_LRU (mem : bool) (num index : Z) (h : heap PageNode_LRU)
  : outcome (Z * heap PageNode_LRU) :=
  let '(new_node, h) := try_malloc mem h garbage in
  h ← update h new_node (λ _, NodeLRU num index NULL NULL);
  Ok (new_node, h).

Definition init_PageStack (gets : Z → bool) : outcome PageStack :=
  '(hd, h) ← creat_PageNode_LRU (gets 0) (-1) 0 (empty_heap PageNode_LRU);
  r ← for_range 1 FRAME_SIZE
    (λ i s,
       let '(cur, h) := s in
       '(new, h) ← creat_PageNode_LRU (gets i) (-1) i h;
       h ← update h cur (set_next new);
       h ← update h new (set_pre cur);
       Ok (new, h)) (hd, h);
  Ok (Stack r.2 hd r.1).

Definition free_PageStack (stk : PageStack) : outcome (heap PageNode_LRU) :=
  loop (S (Z.to_nat FRAME_SIZE))
    (λ s, let '(t, h) := s in
       if t =? NULL then Ok (inr h)
       else n ← load h t; h ← free h t; Ok (inl (next n, h)))
    (head stk, nodes stk).

Definition print_LRU_stack (stk : PageStack) : outcome (list tok) :=
  out ← loop (S (Z.to_nat FRAME_SIZE))
    (λ s, let '(cur, out) := s in
       if cur =? NULL then Ok (inr out)
       else n ← load (nodes stk) cur;
         let out := out ++ [TStr "|"; print_page (page_num n)] in
         let out := if next n =? NULL then out ++ [TStr "|"] else out in
         Ok (inl (next n, out)))
    (head stk, [TStr "LRU stack: "]);
  Ok (out ++ [TStr "(top)\n"]).

(** The search of the loop over the list: the node of the page or [NULL]. *)
Definition find_node (stk : PageStack) (num : Z) : outcome Z :=
  loop (S (Z.to_nat FRAME_SIZE))
    (λ cur, if cur =? NULL then Ok (inr NULL)
       else n ← load (nodes stk) cur;
         Ok (if page_num n =? num then inr cur else inl (next n)))
    (head stk).

(** The page is resident: its node moves to the tail, the top of the stack. *)
Definition move_to_top (stk : PageStack) (cur : Z) : outcome PageStack :=
  if cur =? tail stk then Ok stk
  else
    let h := nodes stk in
    n ← load h cur;
    h ← (if pre n =? NULL then Ok h else update h (pre n) (set_next (next n)));
    n ← load h cur;
    h ← (if next n =? NULL then Ok h else update h (next n) (set_pre (pre n)));
    h ← update h (tail stk) (set_next cur);
    h ← update h cur (set_pre (tail stk));
    n ← load h cur;
    let hd := if cur =? head stk then next n else head stk in
    h ← update h cur (set_next NULL);
    Ok (Stack h hd cur).

(** A page fault: the bottom of the stack is the victim. *)
Definition replace_bottom (stk : PageStack) (frame : list Z) (num : Z)
  : outcome (PageStack * list Z) :=
  let old_head := head stk in
  n ← load (nodes stk) old_head;
  let hd := next n in
  h ← update (nodes stk) hd (set_pre NULL);
  h ← update h old_head (set_page_num num);
  n ← load h old_head;
  frame ← aset frame (page_index n) num;
  h ← update h (tail stk) (set_next old_head);
  h ← update h old_head (set_pre (tail stk));
  h ← update h old_head (set_next NULL);
  Ok (Stack h hd old_head, frame).

Definition LRU_stack_step (num : Z) (s : PageStack * list Z)
  : outcome ((PageStack * list Z) * event) :=
  let '(stk, frame) := s in
  cur ← find_node stk num;
  if cur =? NULL then
    r ← replace_bottom stk frame num;
    out ← print_LRU_stack r.1;
    Ok (r, Event num true r.2 out)
  else
    stk ← move_to_top stk cur;
    out ← print_LRU_stack stk;
    Ok ((stk, frame), Event num false frame out).

(** The run, and the heap it leaves after [free_PageStack]. *)
Definition LRU_stack_run (gets : Z → bool) (reference_string : list Z)
  : outcome (list event * heap PageNode_LRU) :=
  stk ← init_PageStack gets;
  r ← run_refs LRU_stack_step reference_string (stk, init_frame);
  h ← free_PageStack r.1.1;
  Ok (r.2, h).

Definition LRU_stack (gets : Z → bool) (reference_string : list Z) : outcome (list tok) :=
  r ← LRU_stack_run gets reference_string;
  out ← print_events ", no page fault, " ", page fault, " r.1;
  Ok ([TStr "\n------------------------------------------------------------------\n";
       TStr "page-replacement algorithm: LRU implemented by stack\n\n"] ++ out ++
      [TStr "------------------------------------------------------------------\n"]).

(** ** Linked segments

    [seg c p l q]: the nodes at the addresses [l] are linked in this order,
    [p] before the first and [q] after the last. *)
Fixpoint seg (c : gmap Z PageNode_LRU) (p : Z) (l : list Z) (q : Z) : Prop :=
  match l with
  | [] => True
  | a :: l' => (∃ n, c !! a = Some n ∧ pre n = p ∧ next n = hd q l') ∧ seg c a l' q
  end.

(** What the nodes hold, their links aside. *)
Definition content (n : PageNode_LRU) : Z * Z := (page_num n, page_index n).

Section segments.
Implicit Types (c : gmap Z PageNode_LRU) (a p q x : Z) (l : list Z).

Lemma seg_frame f a c p l q : a ∉ l → seg c p l q → seg (alter f a c) p l q.
Proof.
  revert p. induction l as [|b l IH]; intros p Ha; [done|].
  apply not_elem_of_cons in Ha as [Hab Ha]. intros [(n & Hn & ?) Hs]. split; [|by apply IH].
  exists n. by rewrite lookup_alter_ne.
Qed.

Lemma seg_delete a c p l q : a ∉ l → seg c p l q → seg (delete a c) p l q.
Proof.
  revert p. induction l as [|b l IH]; intros p Ha; [done|].
  apply not_elem_of_cons in Ha as [Hab Ha]. intros [(n & Hn & ?) Hs]. split; [|by apply IH].
  exists n. by rewrite lookup_delete_ne.
Qed.

(** A change of the page of a node is no change of the links. *)
Lemma seg_same_links f a c p l q :
  (∀ n, pre (f n) = pre n ∧ next (f n) = next n) → seg c p l q → seg (alter f a c) p l q.
Proof.
  intros Hf. revert p. induction l as [|b l IH]; intros p; [done|].
  intros [(n & Hn & ? & ?) Hs]. split; [|by apply IH].
  destruct (Hf n). destruct (decide (a = b)) as [->|].
  - exists (f n). rewrite lookup_alter_eq, Hn. split; [done|]. by split; congruence.
  - exists n. by rewrite lookup_alter_ne.
Qed.

Lemma seg_app c p l1 l2 q :
  seg c p (l1 ++ l2) q ↔ seg c p l1 (hd q l2) ∧ seg c (List.last l1 p) l2 q.
Proof.
  revert p. induction l1 as [|a l1 IH]; intros p; [naive_solver|].
  cbn [app seg]. rewrite IH.
  assert (List.last (a :: l1) p = List.last l1 a) as ->.
  { destruct l1 as [|b l1]; [done|]. cbn. clear. revert b. induction l1; [done|]. intros b. by cbn. }
  assert (hd q (l1 ++ l2) = hd (hd q l2) l1) as -> by (by destruct l1). naive_solver.
Qed.

Lemma seg_set_next c p l a q x :
  a ∉ l → seg c p (l ++ [a]) q → seg (alter (set_next x) a c) p (l ++ [a]) x.
Proof.
  rewrite !seg_app. intros Ha [H1 [(n & Hn & ? & ?) _]]. split; [by apply seg_frame|].
  split; [|done]. exists (set_next x n). by rewrite lookup_alter_eq, Hn.
Qed.

Lemma seg_set_pre c p l a q x :
  a ∉ l → seg c p (a :: l) q → seg (alter (set_pre x) a c) x (a :: l) q.
Proof.
  intros Ha [(n & Hn & ? & ?) Hs]. split; [|by apply seg_frame].
  exists (set_pre x n). by rewrite lookup_alter_eq, Hn.
Qed.

Lemma seg_is_Some c p l q a : seg c p l q → a ∈ l → is_Some (c !! a).
Proof.
  revert p. induction l as [|b l IH]; intros p Hs Ha; [by apply not_elem_of_nil in Ha|].
  destruct Hs as [(n & Hn & _) Hs]. apply elem_of_cons in Ha as [->|Ha]; eauto.
Qed.

(** Link updates keep the contents. *)
Lemma content_alter f a c b :
  (∀ n, content (f n) = content n) → content <$> (alter f a c !! b) = content <$> (c !! b).
Proof.
  intros Hf. destruct (decide (a = b)) as [->|].
  - rewrite lookup_alter_eq. destruct (c !! b); cbn; [by rewrite Hf|done].
  - by rewrite lookup_alter_ne.
Qed.

Lemma seg_nodes c p l q :
  seg c p l q → ∀ a, a ∈ l → ∃ n, c !! a = Some n.
Proof. intros Hs a Ha. by destruct (seg_is_Some _ _ _ _ _ Hs Ha); eauto. Qed.
End segments.

(** The list of the stack: linked from [head] to [tail]. *)
Definition stack_list (stk : PageStack) (l : list Z) : Prop :=
  seg (cells (nodes stk)) NULL l NULL ∧ NoDup l ∧ NULL ∉ l ∧ l ≠ [] ∧
  head stk = hd NULL l ∧ tail stk = List.last l NULL.

(** Two stacks with the same pages in the nodes. *)
Definition same_contents (c c' : gmap Z PageNode_LRU) : Prop :=
  ∀ a, content <$> (c' !! a) = content <$> (c !! a).

Lemma last_snoc_list (l : list Z) a d : List.last (l ++ [a]) d = a.
Proof. by rewrite List.last_last. Qed.

Lemma split_last (l : list Z) : l ≠ [] → ∃ l' a, l = l' ++ [a].
Proof. intros Hl. destruct (exists_last Hl) as (l' & a & ->). eauto. Qed.

(** The links while a node [x] is moved from the middle to the end: [x] is
    linked between [l1] and [l2] in the first state, the two lists are linked
    to each other in the second. *)
Definition mid_state (c : gmap Z PageNode_LRU) (l1 : list Z) (x : Z) (l2 : list Z)
    (n1 p2 q2 : Z) : Prop :=
  seg c NULL l1 n1 ∧ (∃ n, c !! x = Some n ∧ pre n = List.last l1 NULL ∧ next n = hd NULL l2) ∧
  seg c p2 l2 q2.

Section moving.
Context (l1 l2 : list Z) (x : Z).
Context (Hnd : NoDup (l1 ++ x :: l2)) (Hnull : NULL ∉ l1 ++ x :: l2) (Hne : l2 ≠ []).
Implicit Types (h : heap PageNode_LRU).

Local Lemma distinct : x ∉ l1 ∧ x ∉ l2 ∧ (∀ a, a ∈ l1 → a ∉ l2) ∧ NoDup l1 ∧ NoDup l2.
Proof using Hnd Hnull Hne.
  apply NoDup_app in Hnd as (H1 & H2 & H3). apply NoDup_cons in H3 as [H3 H4].
  split_and!; [|done|intros a Ha|done..]; set_solver.
Qed.

Lemma hd_in : hd NULL l2 ∈ l2.
Proof using Hnd Hnull Hne. destruct l2; [done|left]. Qed.

Lemma hd_not_null : hd NULL l2 ≠ NULL.
Proof using Hnd Hnull Hne.
  pose proof hd_in as Hin. intros He. rewrite He in Hin. apply Hnull. set_solver.
Qed.

(** [if (cur->pre != NULL) cur->pre->next = cur->next;] *)
Lemma unlink_pre h n :
  mid_state (cells h) l1 x l2 x x NULL → pre n = List.last l1 NULL → next n = hd NULL l2 →
  ∃ c, (if pre n =? NULL then Ok h else update h (pre n) (set_next (next n)))
         = Ok (Heap c (fresh_addr h)) ∧
    mid_state c l1 x l2 (hd NULL l2) x NULL ∧ same_contents (cells h) c.
Proof using Hnd Hnull Hne.
  intros (H1 & (m & Hm & Hmp & Hmn) & H2) -> ->. destruct distinct as (D1 & D2 & D3 & D4 & _).
  destruct (decide (l1 = [])) as [->|Hl1].
  - exists (cells h). cbn. split; [by destruct h|]. split; [|done].
    split_and!; [done|by exists m|done].
  - destruct (split_last l1 Hl1) as (k & a & ->). rewrite last_snoc_list in *.
    assert (a ≠ NULL) as Ha by set_solver.
    replace (a =? NULL) with false by (symmetry; by apply Z.eqb_neq).
    rewrite update_alter.
    2: { apply (seg_is_Some _ _ _ _ _ H1). set_solver. }
    eexists. split; [done|]. split; [split_and!|].
    + apply (seg_set_next _ _ k a x); [|done]. apply NoDup_app in D4. set_solver.
    + exists m. rewrite last_snoc_list. rewrite lookup_alter_ne by set_solver. done.
    + apply seg_frame; [|done]. apply D3. set_solver.
    + intros b. by apply content_alter.
Qed.

(** [if (cur->next != NULL) cur->next->pre = cur->pre;] *)
Lemma unlink_next h n :
  mid_state (cells h) l1 x l2 (hd NULL l2) x NULL → pre n = List.last l1 NULL →
  next n = hd NULL l2 →
  ∃ c, (if next n =? NULL then Ok h else update h (next n) (set_pre (pre n)))
         = Ok (Heap c (fresh_addr h)) ∧
    mid_state c l1 x l2 (hd NULL l2) (List.last l1 NULL) NULL ∧ same_contents (cells h) c.
Proof using Hnd Hnull Hne.
  intros (H1 & (m & Hm & Hmp & Hmn) & H2) -> ->. destruct distinct as (D1 & D2 & D3 & D4 & D5).
  pose proof hd_in as Hin. pose proof hd_not_null as Hy. set (y := hd NULL l2) in *.
  replace (y =? NULL) with false by (symmetry; by apply Z.eqb_neq).
  rewrite update_alter by (by apply (seg_is_Some _ _ _ _ _ H2)).
  eexists. split; [done|]. split; [split_and!|].
  - apply seg_frame; [|done]. intros H. by apply (D3 y).
  - exists m. rewrite lookup_alter_ne by (intros E; apply D2; by rewrite <-E). done.
  - destruct l2 as [|z l2']; [done|]. cbn in y. subst y. apply seg_set_pre with (p := x); [|done].
    by apply NoDup_cons in D5 as [? _].
  - intros b. by apply content_alter.
Qed.

(** The last three assignments of the move. *)
Lemma relink h t :
  mid_state (cells h) l1 x l2 (hd NULL l2) (List.last l1 NULL) NULL → t = List.last l2 NULL →
  ∃ c1 c2, (h ← update h t (set_next x); update h x (set_pre t))
             = Ok (Heap c1 (fresh_addr h)) ∧
    (∃ n, c1 !! x = Some n ∧ next n = hd NULL l2) ∧
    update (Heap c1 (fresh_addr h)) x (set_next NULL) = Ok (Heap c2 (fresh_addr h)) ∧
    seg c2 NULL (l1 ++ l2 ++ [x]) NULL ∧ same_contents (cells h) c2.
Proof using Hnd Hnull Hne.
  intros (H1 & (m & Hm & Hmp & Hmn) & H2) ->. destruct distinct as (D1 & D2 & D3 & D4 & D5).
  destruct (split_last l2 Hne) as (k & t & Hl2). rewrite Hl2, last_snoc_list.
  assert (t ∈ l2) as Ht by (rewrite Hl2; set_solver).
  assert (x ≠ t) as Hxt by (intros <-; done).
  rewrite update_alter by (by apply (seg_is_Some _ _ _ _ _ H2)). cbn [mbind outcome_bind].
  rewrite update_alter; cbn [cells fresh_addr].
  2: { rewrite lookup_alter_ne by done. eauto. }
  eexists _, _. split; [done|]. split.
  { exists (set_pre t m). rewrite lookup_alter_eq, lookup_alter_ne, Hm by done.
    split; [done|]. cbn. by rewrite Hmn, Hl2. }
  split.
  { rewrite update_alter; [done|]. cbn. rewrite lookup_alter_eq, lookup_alter_ne, Hm by done. eauto. }
  cbn [cells]. split.
  - rewrite <-Hl2, !seg_app. assert (hd NULL (l2 ++ [x]) = hd NULL l2) as -> by (by destruct l2).
    split_and!.
    + do 2 (apply seg_frame; [done|]). apply seg_frame; [set_solver|done].
    + do 2 (apply seg_frame; [done|]). cbn. rewrite Hl2 in H2 |- *.
      apply seg_set_next with (q := NULL); [|done]. rewrite Hl2 in D5. apply NoDup_app in D5. set_solver.
    + split; [|done]. exists (set_next NULL (set_pre t m)).
      rewrite !lookup_alter_eq, lookup_alter_ne, Hm by done.
      rewrite Hl2, last_snoc_list. done.
  - intros b. by rewrite !content_alter.
Qed.
End moving.

Lemma same_contents_trans c1 c2 c3 :
  same_contents c1 c2 → same_contents c2 c3 → same_contents c1 c3.
Proof. intros H1 H2 a. by rewrite H2, H1. Qed.

Lemma last_app_cons (l1 l2 : list Z) x d :
  l2 ≠ [] → List.last (l1 ++ x :: l2) d = List.last l2 d.
Proof. intros (k & a & ->)%split_last. by rewrite app_comm_cons, (assoc_L (++)), !last_snoc_list. Qed.

Lemma filter_middle (l1 l2 : list Z) x :
  NoDup (l1 ++ x :: l2) → filter (x ≠.) (l1 ++ x :: l2) = l1 ++ l2.
Proof.
  intros (H1 & H2 & H3)%NoDup_app. apply NoDup_cons in H3 as [H3 _].
  rewrite filter_app, filter_cons_False by naive_solver.
  rewrite !filter_notin; [done|done|]. intros Hx. apply (H2 x Hx). left.
Qed.

Lemma touch_list_NoDup x (l : list Z) :
  NoDup l → x ∈ l → touch x l ≡ₚ l.
Proof.
  intros Hd Hx. apply list_elem_of_split in Hx as (l1 & l2 & ->).
  unfold touch. rewrite filter_middle by done. rewrite <-(assoc_L (++)).
  f_equiv. symmetry. apply Permutation_cons_append.
Qed.

Lemma move_to_top_spec stk l cur :
  stack_list stk l → cur ∈ l →
  ∃ stk', move_to_top stk cur = Ok stk' ∧ stack_list stk' (touch cur l) ∧
    same_contents (cells (nodes stk)) (cells (nodes stk')).
Proof.
  intros (Hs & Hnd & Hnull & Hne & Hhd & Htl) Hin.
  pose proof (touch_list_NoDup cur l Hnd Hin) as Hperm.
  apply list_elem_of_split in Hin as (l1 & l2 & ->).
  unfold touch in Hperm |- *. rewrite filter_middle in Hperm |- * by done.
  destruct (decide (l2 = [])) as [->|Hl2].
  { exists stk. rewrite app_nil_r. split; [|done]. unfold move_to_top.
    rewrite Htl, last_snoc_list, Z.eqb_refl. done. }
  rewrite (last_app_cons l1 l2 cur NULL Hl2) in Htl.
  destruct (distinct l1 l2 cur Hnd Hnull Hl2) as (D1 & D2 & D3 & D4 & D5).
  assert (mid_state (cells (nodes stk)) l1 cur l2 cur cur NULL) as Hmid.
  { apply seg_app in Hs as [Hs1 [Hn Hs2]]. by split_and!. }
  destruct (split_last l2 Hl2) as (k & t & Hkt).
  unfold move_to_top. rewrite Htl. replace (cur =? List.last l2 NULL) with false.
  2: { symmetry. apply Z.eqb_neq. rewrite Hkt, last_snoc_list. intros ->. apply D2.
       rewrite Hkt. set_solver. }
  destruct Hmid as (M1 & (n & Hn & Hnp & Hnn) & M2). rewrite (proj2 (load_Ok _ _ _) Hn).
  cbn [mbind outcome_bind].
  destruct (unlink_pre l1 l2 cur Hnd Hnull Hl2 (nodes stk) n) as (c1 & -> & Hm1 & Hc1);
    [by split_and!; eauto|done|done|]. cbn [mbind outcome_bind].
  pose proof Hm1 as (_ & (n1 & Hn1 & Hn1p & Hn1n) & _).
  rewrite (load_mk _ _ _ _ Hn1). cbn [mbind outcome_bind].
  destruct (unlink_next l1 l2 cur Hnd Hnull Hl2 (Heap c1 (fresh_addr (nodes stk))) n1)
    as (c2 & -> & Hm2 & Hc2); [done..|]. cbn [mbind outcome_bind].
  destruct (relink l1 l2 cur Hnd Hnull Hl2 (Heap c2 (fresh_addr (nodes stk))) (List.last l2 NULL))
    as (c3 & c4 & Hu & (n3 & Hn3 & Hn3n) & Hu2 & Hs' & Hc3); [done..|].
  cbn [cells fresh_addr] in *. apply bind_Ok in Hu as (h3 & -> & Hu). cbn [mbind outcome_bind].
  rewrite Hu. cbn [mbind outcome_bind]. rewrite (load_mk _ _ _ _ Hn3).
  cbn [mbind outcome_bind]. rewrite Hu2. cbn [mbind outcome_bind].
  eexists. split; [done|]. cbn [nodes cells]. split.
  - rewrite <-(assoc_L (++)) in Hperm |- *. split_and!; cbn [nodes head tail cells]; [done|..].
    + by rewrite Hperm.
    + by rewrite Hperm.
    + by destruct l1, l2.
    + rewrite Hhd. destruct l1 as [|b l1]; cbn.
      * rewrite Z.eqb_refl, Hn3n. by destruct l2.
      * replace (cur =? b) with false; [done|]. symmetry. apply Z.eqb_neq. intros ->.
        apply D1. left.
    + by rewrite (assoc_L (++)), last_snoc_list.
  - eapply same_contents_trans; [exact Hc1|]. by eapply same_contents_trans.
Qed.

Lemma replace_bottom_spec stk frame num v l idx x0 :
  stack_list stk (v :: l) → l ≠ [] → content <$> (cells (nodes stk) !! v) = Some (x0, idx) →
  0 ≤ idx < zlen frame →
  ∃ stk', replace_bottom stk frame num = Ok (stk', <[Z.to_nat idx := num]> frame) ∧
    stack_list stk' (l ++ [v]) ∧
    content <$> (cells (nodes stk') !! v) = Some (num, idx) ∧
    ∀ a, a ≠ v → content <$> (cells (nodes stk') !! a) = content <$> (cells (nodes stk) !! a).
Proof.
  intros (Hs & Hnd & Hnull & _ & Hhd & Htl) Hl Hc Hidx. cbn [hd] in Hhd.
  apply NoDup_cons in Hnd as [Hv Hnd]. apply not_elem_of_cons in Hnull as [Hvn Hnull].
  destruct Hs as [(n & Hn & Hnp & Hnn) Hs].
  assert (idx = page_index n) as -> by (rewrite Hn in Hc; cbn in Hc; unfold content in Hc; congruence).
  assert (tail stk = List.last l NULL) as Htl'
    by (rewrite Htl; apply (last_app_cons [] l v NULL Hl)).
  clear Htl. rename Htl' into Htl.
  destruct (split_last l Hl) as (k & t & Hkt). rewrite Hkt, last_snoc_list in Htl.
  assert (t ∈ l) as Ht by (rewrite Hkt; set_solver).
  assert (v ≠ t) as Hvt by (intros ->; done).
  destruct l as [|y l']; [done|]. cbn [hd] in Hnn.
  assert (v ≠ y) as Hvy by set_solver.
  unfold replace_bottom. rewrite Hhd, (proj2 (load_Ok _ _ _) Hn). cbn [mbind outcome_bind].
  rewrite Hnn. rewrite update_alter by (apply (seg_is_Some _ _ _ _ _ Hs); left).
  cbn [mbind outcome_bind]. rewrite update_alter; cbn [cells fresh_addr].
  2: { rewrite lookup_alter_ne by done. eauto. }
  cbn [mbind outcome_bind]. unfold load. cbn [cells].
  rewrite lookup_alter_eq, lookup_alter_ne, Hn by done. cbn [fmap option_fmap option_map of_option].
  cbn [mbind outcome_bind page_index set_page_num]. rewrite aset_Ok by done. cbn [mbind outcome_bind].
  rewrite Htl. rewrite update_alter; cbn [cells fresh_addr].
  2: { rewrite lookup_alter_ne by done. apply lookup_alter_is_Some.
       by apply (seg_is_Some _ _ _ _ _ Hs). }
  cbn [mbind outcome_bind]. rewrite update_alter; cbn [cells fresh_addr].
  2: { rewrite lookup_alter_ne by done. rewrite lookup_alter_eq, lookup_alter_ne, Hn by done. eauto. }
  cbn [mbind outcome_bind]. rewrite update_alter; cbn [cells fresh_addr].
  2: { rewrite lookup_alter_eq, lookup_alter_ne, lookup_alter_eq, lookup_alter_ne, Hn by done. eauto. }
  cbn [mbind outcome_bind]. eexists. split; [done|]. cbn [nodes cells]. split; [split_and!|split].
  - cbn [nodes cells]. apply seg_app. split.
    + do 2 (apply seg_frame; [done|]). cbn [hd]. rewrite Hkt.
      apply seg_set_next with (q := NULL).
      { rewrite Hkt in Hnd. apply NoDup_app in Hnd. set_solver. }
      rewrite <-Hkt. apply seg_frame; [done|]. apply seg_set_pre with (p := v); [|done].
      by apply NoDup_cons in Hnd as [? _].
    + split; [|done]. eexists.
      rewrite !lookup_alter_eq, lookup_alter_ne, lookup_alter_eq, lookup_alter_ne, Hn by done.
      split; [done|]. rewrite Hkt, last_snoc_list. done.
  - rewrite (comm (++)). by apply NoDup_cons.
  - set_solver.
  - done.
  - done.
  - by rewrite last_snoc_list.
  - rewrite !lookup_alter_eq, lookup_alter_ne, lookup_alter_eq, lookup_alter_ne, Hn by done. done.
  - intros a Ha. rewrite 2!content_alter by done. rewrite (content_alter (set_next v)) by done.
    rewrite lookup_alter_ne by done. by rewrite content_alter.
Qed.

(** ** The stack and the order of last use *)

(** The node of the frame [i]. *)
Definition addr (i : Z) : Z := i + 1.
#[global] Instance addr_inj : Inj (=) (=) addr.
Proof. intros x y. unfold addr. lia. Qed.

(** The nodes hold the pages of their frames. *)
Definition nodes_ok (c : gmap Z PageNode_LRU) (frame order : list Z) : Prop :=
  ∀ i, i ∈ order → ∃ x, frame !! Z.to_nat i = Some x ∧ content <$> (c !! addr i) = Some (x, i).

Definition stack_rel (s : PageStack * list Z) (t : list Z * list Z) : Prop :=
  s.2 = t.1 ∧ zlen t.1 = FRAME_SIZE ∧ t.2 ≡ₚ init_order ∧
  stack_list s.1 (addr <$> t.2) ∧ nodes_ok (cells (nodes s.1)) t.1 t.2 ∧
  ∀ a, is_Some (cells (nodes s.1) !! a) → a ∈ addr <$> t.2.

Lemma find_node_loop c frame num order : ∀ n p,
  seg c p (addr <$> order) NULL → NULL ∉ addr <$> order → nodes_ok c frame order →
  (length order < n)%nat →
  loop n (λ cur, if cur =? NULL then Ok (inr NULL)
       else nd ← of_option (c !! cur);
         Ok (if page_num nd =? num then inr cur else inl (next nd)))
    (hd NULL (addr <$> order)) = Ok (hd NULL (addr <$> filter (holds frame num) order)).
Proof.
  induction order as [|i order IH]; intros n p Hs Hnull Hok Hn; (destruct n as [|n]; [cbn in Hn; lia|]);
    rewrite loop_unfold.
  - done.
  - rewrite fmap_cons in *. apply not_elem_of_cons in Hnull as [Hi Hnull]. cbn [hd].
    replace (addr i =? NULL) with false by (symmetry; apply Z.eqb_neq; congruence).
    destruct Hs as [(nd & Hnd & _ & Hnext) Hs].
    destruct (Hok i) as (x & Hx & Hc); [left|]. rewrite Hnd in Hc |- *.
    cbn in Hc. unfold content in Hc. injection Hc as Hpn _. cbn [of_option mbind outcome_bind].
    rewrite Hpn, filter_cons. destruct (Z.eqb_spec x num) as [->|Hne].
    + rewrite decide_True by done. done.
    + rewrite decide_False by (unfold holds; congruence). rewrite Hnext.
      apply (IH n (addr i)); [done|done| |cbn in Hn; lia].
      intros j Hj. apply Hok. by right.
Qed.

Lemma order_fuel order : order ≡ₚ init_order → (length order < S (Z.to_nat FRAME_SIZE))%nat.
Proof. intros ->. apply (bool_decide_unpack _). exact I. Qed.

Lemma find_node_spec stk frame num t :
  stack_rel (stk, frame) t →
  find_node stk num = Ok (hd NULL (addr <$> filter (holds frame num) t.2)).
Proof.
  intros (Hf & _ & Hperm & (Hs & _ & Hnull & _ & Hhd & _) & Hok & _). cbn [fst snd] in *. subst.
  unfold find_node, load. rewrite Hhd. eapply find_node_loop; try done.
  by apply order_fuel.
Qed.

(** Printing and freeing walk the whole list. *)
Lemma print_stack_loop c l : ∀ n p out,
  seg c p l NULL → NULL ∉ l → (length l < n)%nat →
  ∃ out', loop n (λ s : Z * list tok, let '(cur, out) := s in
       if cur =? NULL then Ok (inr out)
       else n ← of_option (c !! cur);
         Ok (inl (next n,
           if next n =? NULL then (out ++ [TStr "|"; print_page (page_num n)]) ++ [TStr "|"]
           else out ++ [TStr "|"; print_page (page_num n)]))) (hd NULL l, out) = Ok out'.
Proof.
  induction l as [|a l IH]; intros n p out Hs Hnull Hn; (destruct n as [|n]; [cbn in Hn; lia|]);
    rewrite loop_unfold; [by eexists|].
  apply not_elem_of_cons in Hnull as [Ha Hnull]. cbn [hd].
  replace (a =? NULL) with false by (symmetry; apply Z.eqb_neq; congruence).
  destruct Hs as [(nd & Hnd & _ & Hnext) Hs]. rewrite Hnd. cbn [of_option mbind outcome_bind].
  rewrite Hnext. eapply IH; [done|done|cbn in Hn; lia].
Qed.

Lemma print_stack_Ok stk frame t :
  stack_rel (stk, frame) t → ∃ out, print_LRU_stack stk = Ok out.
Proof.
  intros (_ & _ & Hperm & (Hs & _ & Hnull & _ & Hhd & _) & _).
  cbn [fst snd] in *. unfold print_LRU_stack, load.
  rewrite Hhd.
  destruct (print_stack_loop _ _ (S (Z.to_nat FRAME_SIZE)) _ [TStr "LRU stack: "] Hs Hnull)
    as [out ->]; [|by eexists]. rewrite length_fmap. by apply order_fuel.
Qed.

Lemma free_loop l : ∀ n h p,
  seg (cells h) p l NULL → NoDup l → NULL ∉ l → (length l < n)%nat →
  ∃ h', loop n (λ s, let '(t, h) := s in
       if t =? NULL then Ok (inr h)
       else n ← load h t; h ← free h t; Ok (inl (next n, h))) (hd NULL l, h) = Ok h' ∧
    ∀ a, cells h' !! a = if decide (a ∈ l) then None else cells h !! a.
Proof.
  induction l as [|b l IH]; intros n h p Hs Hnd Hnull Hn; (destruct n as [|n]; [cbn in Hn; lia|]);
    rewrite loop_unfold; [by eexists|].
  apply not_elem_of_cons in Hnull as [Hb Hnull]. apply NoDup_cons in Hnd as [Hbl Hnd]. cbn [hd].
  replace (b =? NULL) with false by (symmetry; apply Z.eqb_neq; congruence).
  destruct Hs as [(nd & Hn1 & _ & Hnext) Hs]. rewrite (proj2 (load_Ok _ _ _) Hn1).
  cbn [mbind outcome_bind]. rewrite (free_Ok _ _ nd) by done. cbn [mbind outcome_bind]. rewrite Hnext.
  destruct (IH n (Heap (delete b (cells h)) (fresh_addr h)) b) as (h' & -> & Hh'); try done.
  - by apply seg_delete.
  - cbn in Hn. lia.
  - exists h'. split; [done|]. intros a. rewrite Hh'. cbn.
    destruct (decide (a ∈ l)) as [Hal|Hal].
    + rewrite decide_True by (by right). done.
    + destruct (decide (a = b)) as [->|Hab].
      * rewrite decide_True by left. by rewrite lookup_delete_eq.
      * rewrite decide_False by (by rewrite elem_of_cons; naive_solver).
        by rewrite lookup_delete_ne.
Qed.

(** [free_PageStack] frees every node of the stack: the heap is empty. *)
Lemma free_stack_spec stk frame t :
  stack_rel (stk, frame) t → ∃ h, free_PageStack stk = Ok h ∧ cells h = ∅.
Proof.
  intros (_ & _ & Hperm & (Hs & Hnd & Hnull & _ & Hhd & _) & _ & Hdom).
  cbn [fst snd] in *. unfold free_PageStack.
  rewrite Hhd.
  destruct (free_loop _ (S (Z.to_nat FRAME_SIZE)) _ _ Hs Hnd Hnull) as (h & -> & Hh).
  { rewrite length_fmap. by apply order_fuel. }
  exists h. split; [done|]. apply map_eq. intros a. rewrite Hh, lookup_empty. case_decide; [done|].
  destruct (cells (nodes stk) !! a) eqn:E; [|done]. exfalso. apply H, Hdom. cbn. by rewrite E.
Qed.

(** The contents of a stack after a move. *)
Lemma nodes_ok_same c c' frame order order' :
  same_contents c c' → order' ≡ₚ order → nodes_ok c frame order → nodes_ok c' frame order'.
Proof.
  intros Hc Hp Hok i Hi. rewrite Hp in Hi. destruct (Hok i Hi) as (x & Hx & Hn).
  exists x. split; [done|]. by rewrite Hc.
Qed.

Lemma same_contents_dom c c' : same_contents c c' → ∀ a, is_Some (c' !! a) → is_Some (c !! a).
Proof. intros Hc a. specialize (Hc a). destruct (c !! a), (c' !! a); naive_solver. Qed.

Lemma touch_addr i order : touch (addr i) (addr <$> order) = addr <$> touch i order.
Proof.
  unfold touch. rewrite fmap_app. f_equal. induction order as [|j order IH]; [done|].
  rewrite fmap_cons, !filter_cons. rewrite IH. destruct (decide (i = j)) as [->|Hij].
  - by rewrite !decide_False by naive_solver.
  - rewrite !decide_True; [done|done|]. by intros ?%(inj addr).
Qed.

Lemma init_order_NoDup order : order ≡ₚ init_order → NoDup order.
Proof. intros ->. apply (bool_decide_unpack _). exact I. Qed.

Lemma init_order_range order i : order ≡ₚ init_order → i ∈ order → 0 ≤ i < FRAME_SIZE.
Proof. intros ->. unfold init_order, FRAME_SIZE. set_solver by lia. Qed.

Lemma LRU_stack_step_sim p s t :
  stack_rel s t →
  ∃ s' e, LRU_stack_step p s = Ok (s', e) ∧ stack_rel s' (lru_spec p t).1 ∧
    observe e = (lru_spec p t).2.
Proof.
  destruct s as [stk frame0], t as [frame order]. intros Hrel.
  pose proof (find_node_spec _ _ p _ Hrel) as Hfind.
  destruct Hrel as (Hf & Hl & Hperm & Hlist & Hok & Hdom). cbn [fst snd] in *. subst frame0.
  unfold LRU_stack_step, lru_spec. rewrite Hfind. cbn [mbind outcome_bind].
  destruct (filter (holds frame p) order) as [|i rest] eqn:E.
  - destruct order as [|v order]; [by apply Permutation_nil_l in Hperm|].
    pose proof (init_order_range _ v Hperm ltac:(left)) as Hv.
    destruct (Hok v ltac:(left)) as (x & Hx & Hc).
    destruct (replace_bottom_spec stk frame p (addr v) (addr <$> order) v x)
      as (stk' & Hr & Hlist' & Hcv & Hca); [done| |done|lia|].
    { intros ->%fmap_nil_inv. apply Permutation_length in Hperm. done. }
    cbn [hd fmap list_fmap]. change (NULL =? NULL) with true. cbn match.
    rewrite Hr. cbn [mbind outcome_bind fst snd].
    assert (touch v (v :: order) = order ++ [v]) as Ht.
    { pose proof (init_order_NoDup _ Hperm) as [Hvo _]%NoDup_cons. unfold touch.
      rewrite filter_cons_False by naive_solver. by rewrite filter_notin. }
    assert (stack_rel (stk', <[Z.to_nat v:=p]> frame)
      (<[Z.to_nat v:=p]> frame, touch v (v :: order))) as Hrel'.
    { rewrite Ht. split; [done|]. cbn [fst snd]. split; [by rewrite zlen_insert|].
      assert (order ++ [v] ≡ₚ v :: order) as Hpv by (by rewrite (comm (++))).
      split; [by rewrite Hpv|]. split; [by rewrite fmap_app|]. split.
      - intros j Hj. rewrite Hpv in Hj. destruct (decide (j = v)) as [->|Hjv].
        + exists p. split; [apply list_lookup_insert_eq; unfold zlen, FRAME_SIZE in *; lia|done].
        + pose proof (init_order_range _ j Hperm Hj).
          destruct (Hok j Hj) as (y & Hy & Hcy). exists y. split.
          * rewrite list_lookup_insert_ne by lia. done.
          * rewrite Hca by (by intros ?%(inj addr)). done.
      - intros a Ha. rewrite Hpv. apply Hdom.
        destruct (decide (a = addr v)) as [->|Hav].
        + destruct (cells (nodes stk) !! addr v); [by eexists|done].
        + specialize (Hca a Hav). destruct (cells (nodes stk) !! a); [by eexists|].
          destruct Ha as [y Hy]. by rewrite Hy in Hca. }
    destruct (print_stack_Ok _ _ _ Hrel') as [out ->]. cbn [mbind outcome_bind].
    eexists _, _. split; [done|]. split; [exact Hrel'|done].
  - assert (i ∈ filter (holds frame p) order) as [Hi Hin]%list_elem_of_filter by (rewrite E; left).
    pose proof (init_order_range _ i Hperm Hin) as Hir.
    rewrite fmap_cons. cbn [hd]. replace (addr i =? NULL) with false
      by (symmetry; apply Z.eqb_neq; unfold addr, NULL; lia).
    destruct (move_to_top_spec stk (addr <$> order) (addr i) Hlist) as (stk' & -> & Hlist' & Hsame);
      [by apply list_elem_of_fmap_2|]. cbn [mbind outcome_bind].
    pose proof (touch_list_NoDup i order (init_order_NoDup _ Hperm) Hin) as Htp.
    assert (stack_rel (stk', frame) (frame, touch i order)) as Hrel'.
    { split; [done|]. cbn [fst snd]. split; [done|]. split; [by rewrite Htp|].
      split; [by rewrite <-touch_addr|]. split.
      - by apply (nodes_ok_same _ _ _ order _ Hsame).
      - intros a Ha. rewrite Htp. apply Hdom. by apply (same_contents_dom _ _ Hsame). }
    destruct (print_stack_Ok _ _ _ Hrel') as [out ->]. cbn [mbind outcome_bind].
    eexists _, _. split; [done|]. split; [exact Hrel'|done].
Qed.

Lemma init_stack_gets gets : init_PageStack gets =
  if forallb gets (seqZ 0 FRAME_SIZE) then init_PageStack (λ _, true) else Err Undef.
Proof.
  unfold init_PageStack, for_range. change (Z.to_nat (FRAME_SIZE - 1)) with 4%nat.
  change (seqZ 0 FRAME_SIZE) with [0; 1; 2; 3; 4]. cbn [for_up forallb]. change (1 + 1) with 2. change (2 + 1) with 3.
  change (3 + 1) with 4.
  by destruct (gets 0); [destruct (gets 1); [destruct (gets 2); [destruct (gets 3); [destruct (gets 4)|]|]|]|]; vm_compute.
Qed.

Lemma stack_no_memory gets refs i : 0 ≤ i < FRAME_SIZE → gets i = false → LRU_stack_run gets refs = Err Undef.
Proof.
  intros Hi Hg. unfold LRU_stack_run. rewrite init_stack_gets.
  destruct (forallb gets _) eqn:E; [|done]. apply enough_all in E. by rewrite (E i Hi) in Hg.
Qed.

Lemma init_stack_rel gets : enough gets →
  ∃ stk, init_PageStack gets = Ok stk ∧ stack_rel (stk, init_frame) (init_frame, init_order).
Proof.
  intros Hg%enough_all. rewrite init_stack_gets, Hg. clear gets Hg.
  destruct (init_PageStack _) as [stk|e] eqn:E; [|vm_compute in E; done].
  exists stk. split; [done|]. vm_compute in E. injection E as <-.
  split; [done|]. split; [done|]. split; [done|]. split; [|split].
  - split_and!; try done.
    + cbn. split_and!; try done; eexists; done.
    + apply (bool_decide_unpack _). exact I.
    + apply (bool_decide_unpack _). exact I.
  - intros i Hi%init_order_range; [|done]. apply five_indices in Hi.
    exists (-1). destruct Hi as [->|[->|[->|[->| ->]]]]; done.
  - intros a [n Hn]. apply elem_of_map_to_list in Hn. vm_compute in Hn. set_solver.
Qed.

Lemma LRU_stack_run_spec gets refs :
  enough gets → zlen refs = REFERENCE_STRING_LENGTH →
  ∃ evs h, LRU_stack_run gets refs = Ok (evs, h) ∧ cells h = ∅ ∧
    Forall2 (λ e o, observe e = o) evs (spec_run lru_spec refs (init_frame, init_order)).2.
Proof.
  intros Hg Hl. destruct (init_stack_rel gets Hg) as (stk & Hinit & Hrel).
  destruct (run_refs_sim LRU_stack_step lru_spec (λ _, True) stack_rel
    (λ e o, observe e = o)) with (refs := refs) (s := (stk, init_frame))
    (t := (init_frame, init_order)) as ([stk' frame'] & evs & Hrun & Hrel' & Hq);
    [intros; by apply LRU_stack_step_sim|done|by apply Forall_true|done|].
  destruct (free_stack_spec _ _ _ Hrel') as (h & Hfree & Hh).
  exists evs, h. unfold LRU_stack_run. rewrite Hinit. cbn [mbind outcome_bind].
  rewrite Hrun. cbn [mbind outcome_bind fst snd]. rewrite Hfree. done.
Qed.

(** [C5] [LRU_stack] evicts the least recently used page: the pointer list
    follows, reference by reference, the policy that keeps the [FRAME_SIZE]
    most recently used pages; no pointer is dereferenced after it is freed or
    when it is [NULL], and at the end every node has been freed.  This is so
    when [malloc] finds memory for every node; if it does not for one, the
    function stores through [NULL]. *)
Theorem LRU_stack_refines gets refs :
  zlen refs = REFERENCE_STRING_LENGTH → Forall (λ p, p ≠ -1) refs →
  (enough gets →
   ∃ evs h, LRU_stack_run gets refs = Ok (evs, h) ∧ cells h = ∅ ∧
     Forall2 (λ e o, (observe e).1 = o.1 ∧ ev_frame e ≡ₚ o.2) evs
       (spec_run recency_spec refs []).2 ∧
     ∃ out, LRU_stack gets refs = Ok out) ∧
  ∀ i, 0 ≤ i < FRAME_SIZE → gets i = false → LRU_stack gets refs = Err Undef.
Proof.
  intros Hl Hp. split; [|intros i Hi Hg; unfold LRU_stack; by rewrite (stack_no_memory gets refs i Hi Hg)].
  intros Hg. destruct (LRU_stack_run_spec gets refs Hg Hl) as (evs & h & Hrun & Hh & Ho).
  pose proof (observe_recency evs refs Hp Ho) as Hq.
  exists evs, h. unfold LRU_stack. rewrite Hrun. cbn [mbind outcome_bind fst].
  destruct (recency_print ", no page fault, " ", page fault, " evs refs Hq) as [out ->].
  split_and!; [done|done|done|by eexists].
Qed.

(** [C6] The two implementations of LRU make the same decisions: on every
    reference string of pages the stack and the matrix fault at the same
    references and have the same pages in the same frames, provided that the
    stack gets memory for its nodes. *)
Theorem LRU_stack_matrix_equiv gets refs :
  enough gets → zlen refs = REFERENCE_STRING_LENGTH → Forall (λ p, p ≠ -1) refs →
  ∃ evs evs' h, LRU_stack_run gets refs = Ok (evs, h) ∧ LRU_matrix_run refs = Ok evs' ∧
    observe <$> evs = observe <$> evs'.
Proof.
  intros Hg Hl Hp. destruct (LRU_stack_run_spec gets refs Hg Hl) as (evs & h & Hrun & _ & Ho).
  destruct (LRU_matrix_run_spec refs Hl Hp) as (evs' & Hrun' & Ho').
  exists evs, evs', h. split; [done|]. split; [done|]. clear -Ho Ho'. revert evs' Ho'.
  induction Ho as [|e o evs os He _ IH]; intros evs' Ho'; inversion Ho' as [|e' ? ? ? He' Ho2]; subst;
    [done|]. by rewrite !fmap_cons, He', (IH _ Ho2).
Qed.

(** ** The reference string of the textbook *)

Lemma LRU_stack_refines_witness :
  (∃ evs h, LRU_stack_run plenty demo_refs = Ok (evs, h) ∧ cells h = ∅ ∧
    Forall2 (λ e o, (observe e).1 = o.1 ∧ ev_frame e ≡ₚ o.2) evs
      (spec_run recency_spec demo_refs []).2 ∧
    ∃ out, LRU_stack plenty demo_refs = Ok out) ∧
  ((λ r, map ev_fault r.1) <$> LRU_stack_run plenty demo_refs) =
    Ok [true; true; true; true; false; true; false; true; false; false;
        false; false; false; false; false; false; false; true; false; false].
Proof.
  split; [|vm_compute; reflexivity].
  exact (proj1 (LRU_stack_refines plenty demo_refs eq_refl demo_refs_pages) (λ _ _, eq_refl)).
Defined.

Lemma LRU_stack_matrix_equiv_witness :
  (∃ evs evs' h, LRU_stack_run plenty demo_refs = Ok (evs, h) ∧ LRU_matrix_run demo_refs = Ok evs' ∧
    observe <$> evs = observe <$> evs').
Proof. exact (LRU_stack_matrix_equiv plenty demo_refs (λ _ _, eq_refl) eq_refl demo_refs_pages). Defined.
