(* ===== verification/SecondChance.v ===== *)
(** * page_replacement.c: the second chance algorithm

    Models [PageNode_Second_Chance], [PageQueue] and [Second_Chance] of
    src/Labweek17/page_replacement.c: a circular list of [malloc]ed nodes with
    a reference bit and the clock pointer.  The specification is the queue seen
    from the clock pointer: a fault moves the pages with their bit set to the
    back, with the bit cleared, and evicts the first page without it.  The
    theorem implies that the loop over the clock pointer terminates. *)

From stdpp Require Import base gmap list numbers sets.
From S2P Require Import Prelude Heap Paging.

Record PageNode_Second_Chance := NodeSC {
  page_num : Z;
  page_index : Z;
  reference_bit : Z;
  next : Z
}.

Definition set_next (p : Z) (n : PageNode_Second_Chance) : PageNode_Second_Chance :=
  NodeSC (page_num n) (page_index n) (reference_bit n) p.
Definition set_reference_bit (b : Z) (n : PageNode_Second_Chance) : PageNode_Second_Chance :=
  NodeSC (page_num n) (page_index n) b (next n).
Definition set_page_num (x : Z) (n : PageNode_Second_Chance) : PageNode_Second_Chance :=
  NodeSC x (page_index n) (reference_bit n) (next n).

(** [PageQueue], with the heap its nodes are in. *)
Record PageQueue := Queue {
  nodes : heap PageNode_Second_Chance;
  head : Z;
  clock_pointer : Z
}.

(** [malloc] may fail, [mem] says whether it does not; the result is not tested
    before the node is filled, and what the memory held before is overwritten. *)
Definition garbage : PageNode_Second_Chance := NodeSC 0 0 0 NULL.

Definition creat_PageNode_Second_Chance (mem : bool) (num index : Z) (h : heap PageNode_Second_Chance)
  : outcome (Z * heap PageNode_Second_Chance) :=
  let '(new_node, h) := try_malloc mem h garbage in
  h ← update h new_node (λ _, NodeSC num index 0 NULL);
  Ok (new_node, h).

(** [gets i]: [malloc] finds memory for the node of the frame [i]. *)
Definition init_PageQueue (gets : Z → bool) : outcome PageQueue :=
  '(hd, h) ← creat_PageNode_Second_Chance (gets 0) (-1) 0 (empty_heap PageNode_Second_Chance);
  r ← for_range 1 FRAME_SIZE
    (λ i s,
       let '(cur, h) := s in
       '(new, h) ← creat_PageNode_Second_Chance (gets i) (-1) i h;
       h ← update h cur (set_next new);
       Ok (new, h)) (hd, h);
  h ← update r.2 r.1 (set_next hd);
  Ok (Queue h hd hd).

Definition free_PageQueue (q : PageQueue) : outcome (heap PageNode_Second_Chance) :=
  r ← for_range 0 FRAME_SIZE
    (λ _ s, let '(t, h) := s in n ← load h t; h ← free h t; Ok (next n, h)) (head q, nodes q);
  Ok r.2.

Definition print_PageQueue (q : PageQueue) : outcome (list tok) :=
  r ← for_range 0 FRAME_SIZE
    (λ i s, let '(cur, out) := s in
       n ← load (nodes q) cur;
       let mark := clock_pointer q =? cur in
       let cell :=
         if page_num n =? -1 then [TStr (if mark then "(C)" else " ")]
         else [TInt (page_num n)] ++
              (if reference_bit n =? 1 then [TStr "*"] else []) ++
              (if mark then [TStr "(C)"] else []) in
       Ok (next n, out ++ [TStr "|"] ++ cell ++ if i =? FRAME_SIZE - 1 then [TStr "|"] else []))
    (head q, [TStr "page queue: "]);
  Ok (r.2 ++ [TStr "\n"]).

(** The loop that looks for the page: the node it stops at, and whether the
    page was found there. *)
Definition search (q : PageQueue) (num : Z) : outcome (Z * bool) :=
  loop (S (Z.to_nat FRAME_SIZE))
    (λ s, let '(j, cur) := s in
       if j <? FRAME_SIZE then
         n ← load (nodes q) cur;
         Ok (if page_num n =? num then inr (cur, true) else inl (j + 1, next n))
       else Ok (inr (cur, false)))
    (0, head q).

(** [while (queue.clock_pointer->reference_bit != 0) {...}] *)
Definition advance_clock (q : PageQueue) : outcome PageQueue :=
  loop (S (S (Z.to_nat FRAME_SIZE)))
    (λ q, n ← load (nodes q) (clock_pointer q);
       if reference_bit n =? 0 then Ok (inr q)
       else
         h ← update (nodes q) (clock_pointer q) (set_reference_bit 0);
         Ok (inl (Queue h (head q) (next n)))) q.

(** The victim under the clock pointer is replaced. *)
Definition replace_victim (q : PageQueue) (frame : list Z) (num : Z)
  : outcome (PageQueue * list Z) :=
  let c := clock_pointer q in
  n ← load (nodes q) c;
  frame ← aset frame (page_index n) num;
  h ← update (nodes q) c (set_page_num num);
  h ← update h c (set_reference_bit 1);
  n ← load h c;
  Ok (Queue h (head q) (next n), frame).

(** One reference: the lines printed, [None] when nothing is. *)
Definition Second_Chance_step (num : Z) (s : PageQueue * list Z)
  : outcome ((PageQueue * list Z) * option event) :=
  let '(q, frame) := s in
  r ← search q num;
  let '(cur, found) := r in
  h ← (if found : bool then update (nodes q) cur (set_reference_bit 1) else Ok (nodes q));
  let q := Queue h (head q) (clock_pointer q) in
  ev ← (if found : bool then out ← print_PageQueue q; Ok (Some (Event num false frame out))
        else Ok None);
  n ← load (nodes q) cur;
  if page_num n =? num then Ok ((q, frame), ev)
  else
    q ← advance_clock q;
    r ← replace_victim q frame num;
    out ← print_PageQueue r.1;
    Ok (r, Some (Event num true r.2 out)).

Definition Second_Chance_run (gets : Z → bool) (reference_string : list Z)
  : outcome (list (option event) * heap PageNode_Second_Chance) :=
  q ← init_PageQueue gets;
  r ← run_refs Second_Chance_step reference_string (q, init_frame);
  h ← free_PageQueue r.1.1;
  Ok (r.2, h).

(** The character of a double quote. *)
Definition dquote : string := String (Ascii.ascii_of_nat 34) EmptyString.

Definition Second_Chance (gets : Z → bool) (reference_string : list Z) : outcome (list tok) :=
  r ← Second_Chance_run gets reference_string;
  out ← print_events ", no page fault, " ", page fault, " (omap id r.1);
  Ok ([TStr "\n------------------------------------------------------------------\n";
       TStr "page-replacement algorithm: Second chance\n";
       TStr "("; TStr dquote; TStr "*"; TStr dquote; TStr " means the reference bit is 1, ";
       TStr dquote; TStr "(C)"; TStr dquote;
       TStr " means the clock pointer's position)\n\n"] ++ out ++
      [TStr "------------------------------------------------------------------\n"]).

(** ** The queue seen from the clock pointer *)

Definition succ (i : Z) : Z := (i + 1) mod FRAME_SIZE.
Definition bit_at (bits : list Z) (i : Z) : Z := default 0 (bits !! Z.to_nat i).

Record clock := Clock { c_frame : list Z; c_bits : list Z; c_hand : Z }.

Definition node_at (frame bits : list Z) (i : Z) : PageNode_Second_Chance :=
  NodeSC (page_at frame i) i (bit_at bits i) (succ i + 1).

Definition clock_ok (t : clock) : Prop :=
  zlen (c_frame t) = FRAME_SIZE ∧ zlen (c_bits t) = FRAME_SIZE ∧
  Forall (λ b, b = 0 ∨ b = 1) (c_bits t) ∧ 0 ≤ c_hand t < FRAME_SIZE ∧
  ∀ i j p, p ≠ -1 → c_frame t !! i = Some p → c_frame t !! j = Some p → i = j.

(** The heap is the circular list of the five nodes. *)
Definition ring (h : heap PageNode_Second_Chance) (frame bits : list Z) : Prop :=
  (∀ i, 0 ≤ i < FRAME_SIZE → cells h !! (i + 1) = Some (node_at frame bits i)) ∧
  ∀ a, is_Some (cells h !! a) → 1 ≤ a ≤ FRAME_SIZE.

Definition queue_rel (s : PageQueue * list Z) (t : clock) : Prop :=
  s.2 = c_frame t ∧ clock_ok t ∧ head s.1 = 1 ∧ clock_pointer s.1 = c_hand t + 1 ∧
  ring (nodes s.1) (c_frame t) (c_bits t).

(** The pages and bits in the order in which the clock meets them. *)
Definition from_hand (t : clock) : list (Z * Z) :=
  rotate (Z.to_nat (c_hand t)) (zip (c_frame t) (c_bits t)).

(** Pages with their bit set go to the back of the queue with the bit cleared;
    the first page without it is evicted, the first of all when every bit was
    set. *)
Fixpoint sc_replace (p : Z) (skipped q : list (Z * Z)) : list (Z * Z) :=
  match q with
  | [] => tail skipped ++ [(p, 1)]
  | (x, b) :: q =>
      if b =? 0 then q ++ skipped ++ [(p, 1)] else sc_replace p (skipped ++ [(x, 0)]) q
  end.

Definition second_chance_spec (p : Z) (q : list (Z * Z)) : list (Z * Z) * observation :=
  if decide (p ∈ q.*1) then
    let q := (λ x : Z * Z, (x.1, if x.1 =? p then 1 else x.2)) <$> q in (q, (p, false, q.*1))
  else let q := sc_replace p [] q in (q, (p, true, q.*1)).

Section ring.
Implicit Types (h : heap PageNode_Second_Chance) (frame bits : list Z) (i : Z).

Lemma succ_range i : 0 ≤ succ i < FRAME_SIZE.
Proof. apply Z.mod_pos_bound. done. Qed.

Lemma ring_load h frame bits i :
  ring h frame bits → 0 ≤ i < FRAME_SIZE → load h (i + 1) = Ok (node_at frame bits i).
Proof. intros [Hr _] Hi. unfold load. by rewrite Hr. Qed.

Lemma ring_update h frame bits frame' bits' i f :
  ring h frame bits → 0 ≤ i < FRAME_SIZE →
  f (node_at frame bits i) = node_at frame' bits' i →
  (∀ j, 0 ≤ j < FRAME_SIZE → j ≠ i → node_at frame bits j = node_at frame' bits' j) →
  ∃ h', update h (i + 1) f = Ok h' ∧ ring h' frame' bits'.
Proof.
  intros [Hr Hd] Hi Hf Hne. rewrite (update_Ok _ _ _ (node_at frame bits i)) by (by apply Hr).
  eexists. split; [done|]. split; cbn.
  - intros j Hj. destruct (decide (j = i)) as [->|Hji].
    + by rewrite lookup_insert_eq, Hf.
    + rewrite lookup_insert_ne by lia. rewrite Hr by done. by rewrite Hne.
  - intros a [x Ha]. apply lookup_insert_Some in Ha as [[<- _]|[_ Ha]]; [lia|eauto].
Qed.

Lemma page_at_insert_eq frame i p : 0 ≤ i < zlen frame → page_at (<[Z.to_nat i:=p]> frame) i = p.
Proof. intros Hi. unfold page_at. rewrite list_lookup_insert_eq; [done|]. unfold zlen in Hi. lia. Qed.

Lemma page_at_insert_ne frame i j p :
  0 ≤ i → 0 ≤ j → i ≠ j → page_at (<[Z.to_nat i:=p]> frame) j = page_at frame j.
Proof. intros. unfold page_at. by rewrite list_lookup_insert_ne by lia. Qed.

Lemma bit_at_insert_eq bits i b : 0 ≤ i < zlen bits → bit_at (<[Z.to_nat i:=b]> bits) i = b.
Proof. intros Hi. unfold bit_at. rewrite list_lookup_insert_eq; [done|]. unfold zlen in Hi. lia. Qed.

Lemma bit_at_insert_ne bits i j b :
  0 ≤ i → 0 ≤ j → i ≠ j → bit_at (<[Z.to_nat i:=b]> bits) j = bit_at bits j.
Proof. intros. unfold bit_at. by rewrite list_lookup_insert_ne by lia. Qed.

(** [p->reference_bit = b;] *)
Lemma ring_set_bit h frame bits i b :
  ring h frame bits → zlen bits = FRAME_SIZE → 0 ≤ i < FRAME_SIZE →
  ∃ h', update h (i + 1) (set_reference_bit b) = Ok h' ∧ ring h' frame (<[Z.to_nat i:=b]> bits).
Proof.
  intros Hr Hl Hi. eapply ring_update; [done|done| |].
  - unfold node_at, set_reference_bit. cbn. by rewrite bit_at_insert_eq by lia.
  - intros j Hj Hji. unfold node_at. rewrite bit_at_insert_ne; [done|lia..|done].
Qed.

Lemma ring_set_page h frame bits i p :
  ring h frame bits → zlen frame = FRAME_SIZE → 0 ≤ i < FRAME_SIZE →
  ∃ h', update h (i + 1) (set_page_num p) = Ok h' ∧ ring h' (<[Z.to_nat i:=p]> frame) bits.
Proof.
  intros Hr Hl Hi. eapply ring_update; [done|done| |].
  - unfold node_at, set_page_num. cbn. by rewrite page_at_insert_eq by lia.
  - intros j Hj Hji. unfold node_at. rewrite page_at_insert_ne; [done|lia..|done].
Qed.
End ring.

(** *** The search and the clock *)

Lemma search_spec q frame bits p :
  head q = 1 → zlen frame = FRAME_SIZE → ring (nodes q) frame bits →
  (∃ i, search q p = Ok (i + 1, true) ∧ 0 ≤ i < FRAME_SIZE ∧ frame !! Z.to_nat i = Some p) ∨
  (search q p = Ok (1, false) ∧ p ∉ frame).
Proof.
  intros Hh Hl Hr. unfold search. rewrite Hh.
  destruct (loop_spec
    (λ s : Z * Z, 0 ≤ s.1 ≤ FRAME_SIZE ∧ s.2 = s.1 mod FRAME_SIZE + 1 ∧
       ∀ i, (i < Z.to_nat s.1)%nat → frame !! i ≠ Some p)
    (λ r : Z * bool, (∃ i, r = (i + 1, true) ∧ 0 ≤ i < FRAME_SIZE ∧ frame !! Z.to_nat i = Some p) ∨
       (r = (1, false) ∧ p ∉ frame))
    (λ s, Z.to_nat (FRAME_SIZE - s.1))
    (λ s, let '(j, cur) := s in
       if j <? FRAME_SIZE then
         n ← load (nodes q) cur;
         Ok (if page_num n =? p then inr (cur, true) else inl (j + 1, next n))
       else Ok (inr (cur, false)))) with (fuel := S (Z.to_nat FRAME_SIZE)) (s := (0, 1))
    as (r & -> & Hr').
  - intros [j cur] (Hj & Hcur & Hi). cbn [fst snd] in *. subst cur.
    destruct (Z.ltb_spec j FRAME_SIZE) as [Hlt|Hge].
    + rewrite (Z.mod_small j) by lia. rewrite (ring_load _ frame bits) by (done || lia).
      cbn [mbind outcome_bind page_num node_at next].
      destruct (lookup_lt_is_Some_2 frame (Z.to_nat j)) as [x Hx]; [unfold zlen in Hl; lia|].
      assert (page_at frame j = x) as -> by (unfold page_at; by rewrite Hx).
      destruct (Z.eqb_spec x p) as [->|Hne]; eexists; (split; [done|]); cbn.
      * left. exists j. split_and!; (done || lia).
      * split; [|lia]. split; [lia|]. split; [done|]. intros i Hlti.
        destruct (decide (i = Z.to_nat j)) as [->|]; [congruence|]. apply Hi. lia.
    + eexists. split; [done|]. assert (j = FRAME_SIZE) as -> by lia. right.
      split; [done|]. intros [i Hin]%list_elem_of_lookup.
      pose proof (lookup_lt_Some _ _ _ Hin). unfold zlen in Hl. apply (Hi i); [lia|done].
  - split; [done|]. split; [done|]. cbn. intros i Hi. lia.
  - unfold FRAME_SIZE. cbn. lia.
  - destruct Hr' as [(i & -> & ?)|[-> ?]]; [left; by exists i|by right].
Qed.

(** The hand on the array of the bits. *)
Fixpoint scan (n : nat) (bits : list Z) (i : Z) : option (list Z * Z) :=
  match n with
  | O => None
  | S n =>
      if bit_at bits i =? 0 then Some (bits, i) else scan n (<[Z.to_nat i := 0]> bits) (succ i)
  end.

Lemma advance_scan frame n : ∀ q bits i bits' i',
  ring (nodes q) frame bits → zlen bits = FRAME_SIZE → 0 ≤ i < FRAME_SIZE →
  clock_pointer q = i + 1 → scan n bits i = Some (bits', i') →
  ∃ h, loop n (λ q, n ← load (nodes q) (clock_pointer q);
       if reference_bit n =? 0 then Ok (inr q)
       else
         h ← update (nodes q) (clock_pointer q) (set_reference_bit 0);
         Ok (inl (Queue h (head q) (next n)))) q = Ok (Queue h (head q) (i' + 1)) ∧
    ring h frame bits'.
Proof.
  induction n as [|n IH]; intros q bits i bits' i' Hr Hl Hi Hc Hs; [done|].
  rewrite loop_unfold. rewrite Hc, (ring_load _ frame bits) by done.
  cbn [mbind outcome_bind node_at reference_bit next]. cbn [scan] in Hs.
  destruct (bit_at bits i =? 0).
  - injection Hs as <- <-. exists (nodes q). destruct q; cbn in *. by subst.
  - destruct (ring_set_bit (nodes q) frame bits i 0) as (h & -> & Hr'); [done..|].
    cbn [mbind outcome_bind].
    destruct (IH (Queue h (head q) (succ i + 1)) (<[Z.to_nat i:=0]> bits) (succ i) bits' i')
      as (h' & -> & Hr''); [done|by rewrite zlen_insert|apply succ_range|done|done|].
    by exists h'.
Qed.

(** On the bits of five frames the hand stops, and what it leaves is the queue
    of the specification. *)
Lemma scan_spec frame bits i p :
  zlen frame = FRAME_SIZE → zlen bits = FRAME_SIZE → Forall (λ b, b = 0 ∨ b = 1) bits →
  0 ≤ i < FRAME_SIZE →
  ∃ bits' v, scan (S (S (Z.to_nat FRAME_SIZE))) bits i = Some (bits', v) ∧ 0 ≤ v < FRAME_SIZE ∧
    zlen bits' = FRAME_SIZE ∧ Forall (λ b, b = 0 ∨ b = 1) bits' ∧
    from_hand (Clock (<[Z.to_nat v := p]> frame) (<[Z.to_nat v := 1]> bits') (succ v)) =
    sc_replace p [] (from_hand (Clock frame bits i)).
Proof.
  intros (x0 & x1 & x2 & x3 & x4 & ->)%five_cells (b0 & b1 & b2 & b3 & b4 & ->)%five_cells Hb
    Hi%five_indices.
  rewrite !Forall_cons in Hb. destruct Hb as (H0 & H1 & H2 & H3 & H4 & _).
  assert (∀ v : Z, v = 0 ∨ v = 1 ∨ v = 2 ∨ v = 3 ∨ v = 4 → 0 ≤ v < FRAME_SIZE) as Hv
    by (unfold FRAME_SIZE; lia).
  destruct Hi as [->|[->|[->|[->| ->]]]]; destruct H0 as [->| ->]; destruct H1 as [->| ->];
    destruct H2 as [->| ->]; destruct H3 as [->| ->]; destruct H4 as [->| ->];
    (eexists _, _; split; [reflexivity|]; split; [apply Hv; auto|]; split; [reflexivity|];
     split; [repeat (apply Forall_cons_2; [auto|]); apply Forall_nil_2|reflexivity]).
Qed.

(** *** One reference *)

Lemma rotate_fmap {A B} (f : A → B) n (l : list A) : f <$> rotate n l = rotate n (f <$> l).
Proof. unfold rotate. by rewrite fmap_app, fmap_drop, fmap_take, length_fmap. Qed.

Lemma from_hand_fst t :
  clock_ok t → (from_hand t).*1 = rotate (Z.to_nat (c_hand t)) (c_frame t).
Proof.
  intros (Hl & Hb & _). unfold from_hand. rewrite rotate_fmap, fst_zip; [done|].
  unfold zlen in *. lia.
Qed.

Lemma rotate_perm {A} n (l : list A) : rotate n l ≡ₚ l.
Proof. unfold rotate. by rewrite (comm (++)), take_drop. Qed.

Lemma set_bit_from_hand t i p :
  clock_ok t → p ≠ -1 → 0 ≤ i < FRAME_SIZE → c_frame t !! Z.to_nat i = Some p →
  from_hand (Clock (c_frame t) (<[Z.to_nat i := 1]> (c_bits t)) (c_hand t)) =
  (λ x : Z * Z, (x.1, if x.1 =? p then 1 else x.2)) <$> from_hand t.
Proof.
  intros (Hl & Hb & _ & _ & Hinj) Hp Hi Hip. unfold from_hand. cbn. rewrite rotate_fmap. f_equal.
  apply list_eq. intros k. rewrite list_lookup_fmap, !lookup_zip_with.
  destruct (c_frame t !! k) as [x|] eqn:Ex; cbn; [|done].
  destruct (decide (k = Z.to_nat i)) as [->|Hk].
  - rewrite list_lookup_insert_eq by (unfold zlen in *; lia). cbn.
    destruct (lookup_lt_is_Some_2 (c_bits t) (Z.to_nat i)) as [b ->]; [unfold zlen in *; lia|].
    cbn. assert (x = p) as -> by congruence. by rewrite Z.eqb_refl.
  - rewrite list_lookup_insert_ne by done. destruct (c_bits t !! k) as [b|]; cbn; [|done].
    destruct (Z.eqb_spec x p) as [->|]; [|done]. exfalso. apply Hk. by eapply Hinj.
Qed.

Lemma print_queue_Ok q frame bits :
  head q = 1 → ring (nodes q) frame bits → ∃ out, print_PageQueue q = Ok out.
Proof.
  intros Hh Hr. unfold print_PageQueue. rewrite Hh.
  match goal with |- context [for_range 0 FRAME_SIZE ?body ?st] =>
    destruct (for_range_spec (λ i (s : Z * list tok), s.1 = i mod FRAME_SIZE + 1) body 0 FRAME_SIZE st)
      as (r & -> & _) end; [done|done| |by eexists].
  intros i [cur out] Hi Hcur. cbn in Hcur. subst cur. rewrite (Z.mod_small i) by lia.
  rewrite (ring_load _ frame bits) by done. cbn [mbind outcome_bind].
  eexists. split; [done|]. done.
Qed.

Lemma free_queue_spec q frame bits :
  head q = 1 → ring (nodes q) frame bits → ∃ h, free_PageQueue q = Ok h ∧ cells h = ∅.
Proof.
  intros Hh [Hr Hd]. unfold free_PageQueue. rewrite Hh.
  destruct (for_range_spec
    (λ i (s : Z * heap PageNode_Second_Chance), s.1 = i mod FRAME_SIZE + 1 ∧
       (∀ j, i ≤ j < FRAME_SIZE → cells s.2 !! (j + 1) = Some (node_at frame bits j)) ∧
       ∀ a, is_Some (cells s.2 !! a) → i + 1 ≤ a ≤ FRAME_SIZE)
    (λ _ s, let '(t, h) := s in n ← load h t; h ← free h t; Ok (next n, h))
    0 FRAME_SIZE (1, nodes q)) as ([t h] & -> & _ & _ & Hh2).
  - done.
  - split_and!; [done|done|]. intros a Ha. specialize (Hd a Ha). cbn. lia.
  - intros i [t h] Hi (Ht & Hc & Hdom). cbn [fst snd] in *. subst t. rewrite (Z.mod_small i) by lia.
    rewrite (proj2 (load_Ok _ _ (node_at frame bits i))) by (apply Hc; lia). cbn [mbind outcome_bind].
    rewrite (free_Ok _ _ (node_at frame bits i)) by (apply Hc; lia). cbn [mbind outcome_bind].
    eexists. split; [done|]. cbn. split; [done|]. split.
    + intros j Hj. rewrite lookup_delete_ne by lia. apply Hc. lia.
    + intros a [x [Ha1 Ha]%lookup_delete_Some]. specialize (Hdom a ltac:(eauto)). lia.
  - exists h. split; [done|]. apply map_eq. intros a. rewrite lookup_empty.
    destruct (cells h !! a) eqn:E; [|done]. cbn in Hh2. specialize (Hh2 a ltac:(eauto)). lia.
Qed.

(** What a run shows of one reference. *)
Definition shows (e : option event) (o : observation) : Prop :=
  ∃ ev, e = Some ev ∧ (observe ev).1 = o.1 ∧ zlen (ev_frame ev) = FRAME_SIZE ∧
    ∃ r, o.2 = rotate r (ev_frame ev).

Lemma clock_hit p q frame t i :
  queue_rel (q, frame) t → p ≠ -1 → 0 ≤ i < FRAME_SIZE → search q p = Ok (i + 1, true) →
  c_frame t !! Z.to_nat i = Some p →
  ∃ h ev, Second_Chance_step p (q, frame) =
      Ok ((Queue h (head q) (clock_pointer q), frame), ev) ∧
    queue_rel (Queue h (head q) (clock_pointer q), frame)
      (Clock (c_frame t) (<[Z.to_nat i := 1]> (c_bits t)) (c_hand t)) ∧
    ev_page <$> ev = Some p ∧ ev_fault <$> ev = Some false ∧ ev_frame <$> ev = Some frame.
Proof.
  intros (Hf & Hok & Hh & Hc & Hr) Hp Hi Hs Hip. cbn [fst snd] in *.
  pose proof Hok as (Hl & Hb & Hb01 & Hhand & Hinj).
  unfold Second_Chance_step. rewrite Hs. cbn [mbind outcome_bind].
  destruct (ring_set_bit _ _ _ i 1 Hr Hb Hi) as (h & -> & Hr'). cbn [mbind outcome_bind nodes head].
  destruct (print_queue_Ok (Queue h (head q) (clock_pointer q)) _ _ Hh Hr') as [out ->].
  cbn [mbind outcome_bind]. rewrite (ring_load _ _ _ i Hr' Hi). cbn [mbind outcome_bind node_at page_num].
  assert (page_at (c_frame t) i = p) as -> by (unfold page_at; by rewrite Hip).
  rewrite Z.eqb_refl. eexists _, _. split; [done|]. split; [|done].
  split; [done|]. split; [|done]. split; [done|]. split; [cbn; by rewrite zlen_insert|].
  split; [|done]. apply Forall_insert; [done|by right].
Qed.

Lemma clock_miss p q frame t :
  queue_rel (q, frame) t → p ≠ -1 → search q p = Ok (1, false) → p ∉ frame →
  ∃ s' ev t', Second_Chance_step p (q, frame) = Ok (s', Some ev) ∧ queue_rel s' t' ∧
    from_hand t' = sc_replace p [] (from_hand t) ∧
    ev_page ev = p ∧ ev_fault ev = true ∧ ev_frame ev = c_frame t'.
Proof.
  intros (Hf & Hok & Hh & Hc & Hr) Hp Hs Hn. cbn [fst snd] in *. subst frame.
  destruct Hok as (Hl & Hb & Hb01 & Hhand & Hinj).
  unfold Second_Chance_step. rewrite Hs. cbn [mbind outcome_bind nodes].
  rewrite (ring_load _ (c_frame t) (c_bits t) 0 Hr ltac:(done) : load _ 1 = _).
  cbn [mbind outcome_bind node_at page_num].
  replace (page_at (c_frame t) 0 =? p) with false.
  2: { symmetry. apply Z.eqb_neq. intros He. apply Hn. unfold page_at in He.
       destruct (c_frame t !! Z.to_nat 0) eqn:E; cbn in He; [|congruence]. subst.
       by eapply list_elem_of_lookup_2. }
  destruct (scan_spec (c_frame t) (c_bits t) (c_hand t) p Hl Hb Hb01 Hhand)
    as (bits' & v & Hscan & Hv & Hb' & Hb01' & Hfrom).
  destruct (advance_scan (c_frame t) _ (Queue (nodes q) (head q) (clock_pointer q)) _ _ _ _ Hr Hb
    Hhand Hc Hscan) as (h & Hadv & Hr1).
  unfold advance_clock. rewrite Hadv. cbn [mbind outcome_bind]. unfold replace_victim.
  cbn [nodes clock_pointer head]. rewrite (ring_load _ _ _ v Hr1 Hv).
  cbn [mbind outcome_bind node_at page_index]. rewrite aset_Ok by (by rewrite Hl).
  cbn [mbind outcome_bind].
  destruct (ring_set_page _ _ _ v p Hr1 Hl Hv) as (h2 & -> & Hr2). cbn [mbind outcome_bind].
  destruct (ring_set_bit _ _ _ v 1 Hr2 Hb' Hv) as (h3 & -> & Hr3). cbn [mbind outcome_bind].
  rewrite (ring_load _ _ _ v Hr3 Hv). cbn [mbind outcome_bind node_at next fst snd].
  destruct (print_queue_Ok (Queue h3 (head q) (succ v + 1)) _ _ Hh Hr3) as [out ->].
  cbn [mbind outcome_bind].
  eexists _, _, (Clock (<[Z.to_nat v:=p]> (c_frame t)) (<[Z.to_nat v:=1]> bits') (succ v)).
  split; [done|]. split; [|split; [by destruct t|done]].
  split; [done|]. split; [|done]. unfold clock_ok. cbn [c_frame c_bits c_hand].
  split; [by rewrite zlen_insert|]. split; [by rewrite zlen_insert|].
  split; [apply Forall_insert; [done|by right]|]. split; [apply succ_range|].
  assert (∀ i, c_frame t !! i ≠ Some p) as Hnp by (intros i ?%list_elem_of_lookup_2; done).
  intros i j x Hx. rewrite !list_lookup_insert.
  repeat case_decide; intros H1 H2; destruct_and?; simplify_eq; naive_solver.
Qed.

Lemma Second_Chance_step_sim p s (q : list (Z * Z)) :
  p ≠ -1 → (∃ t, queue_rel s t ∧ q = from_hand t) →
  ∃ s' e, Second_Chance_step p s = Ok (s', e) ∧
    (∃ t', queue_rel s' t' ∧ (second_chance_spec p q).1 = from_hand t') ∧
    shows e (second_chance_spec p q).2.
Proof.
  intros Hp (t & Hrel & ->). destruct s as [q frame].
  pose proof Hrel as (Hf & Hok & Hh & Hc & Hr). cbn [fst snd] in *.
  pose proof (from_hand_fst t Hok) as Hfst.
  assert (p ∈ (from_hand t).*1 ↔ p ∈ frame) as Hin by (by rewrite Hfst, rotate_perm, Hf).
  unfold second_chance_spec.
  destruct (search_spec q (c_frame t) (c_bits t) p Hh (proj1 Hok) Hr) as [(i & Hs & Hi & Hip)|[Hs Hn]].
  - destruct (clock_hit p q frame t i Hrel Hp Hi Hs Hip) as (h & ev & Hstep & Hrel' & He1 & He2 & He3).
    rewrite decide_True by (apply Hin; rewrite Hf; by eapply list_elem_of_lookup_2).
    destruct ev as [ev|]; [|done]. cbn in He1, He2, He3.
    injection He1 as <-. injection He2 as He2. injection He3 as He3.
    eexists _, _. split; [exact Hstep|]. cbn [fst snd]. split.
    + eexists. split; [exact Hrel'|]. by rewrite <-(set_bit_from_hand t i _).
    + exists ev. split; [done|]. unfold observe. cbn. rewrite He2. split; [done|].
      rewrite He3, Hf. split; [apply Hok|]. exists (Z.to_nat (c_hand t)).
      rewrite <-Hfst, <-list_fmap_compose. done.
  - rewrite <-Hf in Hn.
    destruct (clock_miss p q frame t Hrel Hp Hs Hn) as (s' & ev & t' & Hstep & Hrel' & Hfrom & <- & He2 & He3).
    rewrite decide_False by (by rewrite Hin).
    eexists _, _. split; [exact Hstep|]. cbn [fst snd]. split; [by exists t'|].
    exists ev. split; [done|]. unfold observe. cbn. rewrite He2. split; [done|].
    destruct Hrel' as (_ & Hok' & _). rewrite He3. split; [apply Hok'|].
    exists (Z.to_nat (c_hand t')). by rewrite <-Hfrom, from_hand_fst.
Qed.

Definition init_queue : list (Z * Z) := replicate (Z.to_nat FRAME_SIZE) (-1, 0).

Lemma init_queue_gets gets : init_PageQueue gets =
  if forallb gets (seqZ 0 FRAME_SIZE) then init_PageQueue (λ _, true) else Err Undef.
Proof.
  unfold init_PageQueue, for_range. change (Z.to_nat (FRAME_SIZE - 1)) with 4%nat.
  change (seqZ 0 FRAME_SIZE) with [0; 1; 2; 3; 4]. cbn [for_up forallb]. change (1 + 1) with 2. change (2 + 1) with 3.
  change (3 + 1) with 4.
  by destruct (gets 0); [destruct (gets 1); [destruct (gets 2); [destruct (gets 3); [destruct (gets 4)|]|]|]|]; vm_compute.
Qed.

Lemma queue_no_memory gets refs i : 0 ≤ i < FRAME_SIZE → gets i = false → Second_Chance_run gets refs = Err Undef.
Proof.
  intros Hi Hg. unfold Second_Chance_run. rewrite init_queue_gets.
  destruct (forallb gets _) eqn:E; [|done]. apply enough_all in E. by rewrite (E i Hi) in Hg.
Qed.

Lemma init_PageQueue_rel gets : enough gets →
  ∃ q t, init_PageQueue gets = Ok q ∧ queue_rel (q, init_frame) t ∧ init_queue = from_hand t.
Proof.
  intros Hg%enough_all. rewrite init_queue_gets, Hg. clear gets Hg.
  destruct (init_PageQueue _) as [q|e] eqn:E; [|vm_compute in E; done].
  exists q, (Clock init_frame (replicate 5 0) 0). split; [done|]. vm_compute in E. injection E as <-.
  split; [|done]. split; [done|]. split; [|split; [done|split; [done|]]].
  - split; [done|]. split; [done|]. split; [apply Forall_replicate; by left|]. split; [done|].
    intros i j p Hp [-> _]%lookup_replicate. done.
  - split.
    + intros i Hi%five_indices. destruct Hi as [->|[->|[->|[->| ->]]]]; reflexivity.
    + intros a [n Hn]. apply elem_of_map_to_list in Hn. vm_compute in Hn.
      repeat (apply elem_of_cons in Hn as [[= -> _]|Hn]; [done|]). by apply not_elem_of_nil in Hn.
Qed.

(** [C7] [Second_Chance] is the second chance policy on the queue that starts at
    the clock pointer: the loop over the clock pointer always stops (after at
    most one round), the victim is the first page whose reference bit is not
    set, the bits of the pages passed are cleared, a reference to a resident
    page sets its bit; every reference prints its line, and at the end every
    node of the circular list has been freed.  This is so when [malloc] finds
    memory for every node; if it does not for one, the function stores through
    [NULL]. *)
Theorem Second_Chance_refines gets refs :
  zlen refs = REFERENCE_STRING_LENGTH → Forall (λ p, p ≠ -1) refs →
  (enough gets →
   ∃ evs h, Second_Chance_run gets refs = Ok (evs, h) ∧ cells h = ∅ ∧
     Forall2 shows evs (spec_run second_chance_spec refs init_queue).2 ∧
     ∃ out, Second_Chance gets refs = Ok out) ∧
  ∀ i, 0 ≤ i < FRAME_SIZE → gets i = false → Second_Chance gets refs = Err Undef.
Proof.
  intros Hl Hp. split; [|intros i Hi Hg; unfold Second_Chance; by rewrite (queue_no_memory gets refs i Hi Hg)].
  intros Hg. destruct (init_PageQueue_rel gets Hg) as (q & t & Hinit & Hrel & Hq0).
  destruct (run_refs_sim Second_Chance_step second_chance_spec (λ p, p ≠ -1)
    (λ s q, ∃ t, queue_rel s t ∧ q = from_hand t) shows Second_Chance_step_sim refs
    (q, init_frame) init_queue Hl Hp) as ([q' frame'] & evs & Hrun & (t' & Hrel' & _) & Hq);
    [by exists t|].
  destruct Hrel' as (_ & _ & Hh & _ & Hr). cbn [fst] in *.
  destruct (free_queue_spec _ _ _ Hh Hr) as (h & Hfree & Hempty).
  assert (Second_Chance_run gets refs = Ok (evs, h)) as Hall.
  { unfold Second_Chance_run. rewrite Hinit. cbn [mbind outcome_bind]. rewrite Hrun.
    cbn [mbind outcome_bind fst snd]. by rewrite Hfree. }
  exists evs, h. unfold Second_Chance. rewrite Hall. cbn [mbind outcome_bind fst].
  split_and!; [done|done|done|].
  destruct (print_events_Ok ", no page fault, " ", page fault, " (omap id evs)) as [out ->];
    [|by eexists].
  clear -Hq. induction Hq as [|e o evs os (ev & -> & _ & Hev & _) _ IH]; [constructor|].
  cbn. by constructor.
Qed.

Lemma Second_Chance_refines_witness :
  (∃ evs h, Second_Chance_run plenty demo_refs = Ok (evs, h) ∧ cells h = ∅ ∧
    Forall2 shows evs (spec_run second_chance_spec demo_refs init_queue).2 ∧
    ∃ out, Second_Chance plenty demo_refs = Ok out) ∧
  (r ← Second_Chance_run plenty demo_refs; Ok (map ev_fault (omap id r.1))) =
    Ok ([true; true; true; true; false; true; false; true; false; false;
        false; false; false; false; false; false; false; true; true; true]).
Proof.
  split; [|vm_compute; reflexivity].
  exact (proj1 (Second_Chance_refines plenty demo_refs eq_refl demo_refs_pages) (λ _ _, eq_refl)).
Defined.
