(* ===== verification/Banker.v ===== *)
(** * alg.17-1-bankers-5.c: the banker's algorithm

    Models [safecheck] and [resource_request] of
    src/Labweek15/alg.17-1-bankers-5.c: the global vectors and matrices are the
    record [bank], [out] is what the program printed.  Computations on [int] are
    undefined when they overflow.

    A state is safe when the processes can finish one after the other, each
    with what is available and what those before it release ([Safe]).  The
    theorems: [safecheck] answers success exactly when the pretended state is
    safe; granting a request keeps the state well-formed and safe and no
    resource is created or lost; a denied request changes nothing; a negative
    request, which the program accepts, breaks the conservation. *)

From stdpp Require Import base list numbers sets.
From S2P Require Import Prelude.

(** [N] and [M] of the source. *)
Definition N_PROC : Z := 5.
Definition M_RES : Z := 3.

Definition EXIT_SUCCESS : Z := 0.
Definition EXIT_FAILURE : Z := 1.

Record bank := Bank {
  available : list Z;
  need : list (list Z);
  allocation : list (list Z);
  request : list Z;
  work : list Z;
  out : list tok
}.

Definition print (s : bank) (t : list tok) : bank :=
  Bank (available s) (need s) (allocation s) (request s) (work s) (out s ++ t).

Definition set_work (s : bank) (w : list Z) : bank :=
  Bank (available s) (need s) (allocation s) (request s) w (out s).

(** The need of process [j] the check looks at: that of [pro_i] is pretended. *)
Definition need_at (s : bank) (pro_i j k : Z) : outcome Z :=
  row ← (need s).[j]; n ← row.[k];
  if j =? pro_i then r ← (request s).[k]; cint (n - r) else Ok n.

(** The loop over [k] that compares the need of process [j] with [work]; it
    leaves [k == M] when all of it is available. *)
Definition fits (s : bank) (pro_i j : Z) : outcome Z :=
  loop (S (Z.to_nat M_RES))
    (λ k, if k <? M_RES then
        n ← need_at s pro_i j k; w ← (work s).[k];
        Ok (if w <? n then inr k else inl (k + 1))
      else Ok (inr k)) 0.

(** The loop over [l]: process [j] releases what it holds. *)
Definition release (s : bank) (pro_i j : Z) : outcome bank :=
  for_range 0 M_RES
    (λ l s, row ← (allocation s).[j]; a ← row.[l];
       a ← (if j =? pro_i then r ← (request s).[l]; cint (a + r) else Ok a);
       w ← (work s).[l]; w ← cint (w + a);
       work' ← aset (work s) l w;
       Ok (print (set_work s work') [TInt w; TStr ", "])) s.

(** The loop over [j]: the first unfinished process whose need fits. *)
Definition select (s : bank) (pro_i : Z) (finish : list Z) : outcome Z :=
  loop (S (Z.to_nat N_PROC))
    (λ j, if j <? N_PROC then
        f ← finish.[j];
        if f =? 0 then
          k ← fits s pro_i j;
          Ok (if k =? M_RES then inr j else inl (j + 1))
        else Ok (inl (j + 1))
      else Ok (inr j)) 0.

(** The loop over [i]: [i], the finished processes and the safe sequence. *)
Definition select_all (s : bank) (pro_i : Z) : outcome (bank * Z * list Z) :=
  loop (S (Z.to_nat N_PROC))
    (λ st, let '(s, i, finish, safe_seq) := st in
       if i <? N_PROC then
         j ← select s pro_i finish;
         if j =? N_PROC then Ok (inr (s, i, safe_seq))
         else
           safe_seq ← aset safe_seq i j;
           finish ← aset finish j 1;
           let s := print s [TStr "safe_seq["; TInt i; TStr "] = "; TInt j; TStr "\n";
                             TStr "new work vector: "] in
           s ← release s pro_i j;
           Ok (inl (print s [TStr "\n"], i + 1, finish, safe_seq))
       else Ok (inr (s, i, safe_seq)))
    (s, 0, replicate (Z.to_nat N_PROC) 0, replicate (Z.to_nat N_PROC) 0).

Definition safecheck (s : bank) (pro_i : Z) : outcome (bank * Z) :=
  let s := print s [TStr "==== safecheck starting ====\n"] in
  r ← select_all s pro_i;
  let '(s, i, safe_seq) := r in
  if i =? N_PROC then
    let s := print s ([TStr "A safty sequence is: "] ++
               (j ← safe_seq; [TStr "P"; TInt j; TStr ", "]) ++ [TStr "\n"]) in
    Ok (s, EXIT_SUCCESS)
  else
    Ok (print s [TStr "safecheck failed, process "; TInt pro_i; TStr " suspended\n"], EXIT_FAILURE).

(** The first [k] at which the request exceeds the bound, [M] when none does. *)
Definition exceeds (req bound : list Z) : outcome Z :=
  loop (S (Z.to_nat M_RES))
    (λ k, if k <? M_RES then
        r ← req.[k]; b ← bound.[k]; Ok (if b <? r then inr k else inl (k + 1))
      else Ok (inr k)) 0.

(** [a[k] = b[k] op c[k]] for all [k]. *)
Definition vector_op (op : Z → Z → Z) (b c a : list Z) : outcome (list Z) :=
  for_range 0 M_RES (λ k a, x ← b.[k]; y ← c.[k]; z ← cint (op x y); aset a k z) a.

(** [available[k] -= request[k]; need[pro_i][k] -= request[k]; ...] *)
Definition confirm (s : bank) (pro_i : Z) : outcome bank :=
  for_range 0 M_RES
    (λ k s,
       r ← (request s).[k];
       a ← (available s).[k]; a ← cint (a - r); avail ← aset (available s) k a;
       row ← (need s).[pro_i]; n ← row.[k]; n ← cint (n - r);
       row ← aset row k n; need' ← aset (need s) pro_i row;
       row ← (allocation s).[pro_i]; c ← row.[k]; c ← cint (c + r);
       row ← aset row k c; allocation' ← aset (allocation s) pro_i row;
       Ok (Bank avail need' allocation' (request s) (work s) (out s))) s.

Definition print_exceeds (what : string) (k r b : Z) : list tok :=
  [TStr "request[k] > "; TStr what; TStr ", k = "; TInt k; TStr ", request[k] = "; TInt r;
   TStr ", "; TStr what; TStr " = "; TInt b; TStr "\n"].

Definition resource_request (s : bank) (pro_i : Z) : outcome (bank * Z) :=
  row ← (need s).[pro_i];
  k ← exceeds (request s) row;
  if negb (k =? M_RES) then
    r ← (request s).[k]; b ← row.[k];
    Ok (print s (print_exceeds "need[pro_i][k]" k r b), EXIT_FAILURE)
  else
  k ← exceeds (request s) (available s);
  if negb (k =? M_RES) then
    r ← (request s).[k]; b ← (available s).[k];
    Ok (print s (print_exceeds "available[k]" k r b), EXIT_FAILURE)
  else
  w ← vector_op Z.sub (available s) (request s) (work s);
  r ← safecheck (set_work s w) pro_i;
  let '(s, ret) := r in
  if ret =? EXIT_SUCCESS then s ← confirm s pro_i; Ok (s, ret)
  else Ok (s, ret).

(** [printf("%2d", x)] *)
Definition width2 (x : Z) : list tok := if (0 <=? x) && (x <? 10) then [TStr " "; TInt x] else [TInt x].

Definition print_row (row : list Z) : list tok := x ← row; width2 x ++ [TStr ","].

Definition print_stat (s : bank) : list tok :=
  TStr " available\t need\t\t allocation\n" :: print_row (available s) ++
  concat (imap (λ j rows, (if decide (j = O) then [TStr "\t"] else [TStr "\t\t"]) ++
            print_row rows.1 ++ [TStr "\t"] ++ print_row rows.2 ++ [TStr "\n"])
     (zip (need s) (allocation s))).

(** [main]: the start, and one command of the loop. *)
Definition resource : list Z := [10; 5; 7].
Definition max : list (list Z) := [[7; 5; 3]; [3; 2; 2]; [9; 0; 2]; [2; 2; 2]; [4; 3; 3]].

(** The global [allocation] is zero, so [need] is [max] and [available] is
    [resource]. *)
Definition init_bank : outcome bank :=
  let alloc := replicate (Z.to_nat N_PROC) (replicate (Z.to_nat M_RES) 0) in
  need ← for_range 0 N_PROC
    (λ j need, row ← max.[j]; arow ← alloc.[j]; nrow ← need.[j];
       nrow ← vector_op Z.sub row arow nrow; aset need j nrow) alloc;
  avail ← for_range 0 N_PROC
    (λ j avail, arow ← alloc.[j]; vector_op Z.sub avail arow avail) resource;
  let s := Bank avail need alloc (replicate (Z.to_nat M_RES) 0) (replicate (Z.to_nat M_RES) 0) [] in
  Ok (print s (TStr "==== initial state ====\n" :: print_stat s)).

Definition set_request (s : bank) (req : list Z) : bank :=
  Bank (available s) (need s) (allocation s) req (work s) (out s).

(** The request [req] of process [pro_i] is read and printed, then handled. *)
Definition read_request (s : bank) (pro_i : Z) (req : list Z) : bank :=
  let s := print s [TStr "input request vectore of lemgth "; TInt M_RES; TStr ", separated by a space: "] in
  print (set_request s req)
    ([TStr "pro_i = "; TInt pro_i; TStr "\n"; TStr "request = "] ++
     (r ← req; [TInt r; TStr ", "]) ++ [TStr "\n"]).

Definition command (s : bank) (pro_i : Z) (req : list Z) : outcome (bank * Z) :=
  resource_request (read_request s pro_i req) pro_i.

(** One round of the loop of [main] on the input read by [scanf]: [inr] quits. *)
Definition main_round (s : bank) (pro_i : Z) (req : list Z) : outcome (bank + bank) :=
  let s := print s [TStr "input process number (0 - "; TInt (N_PROC - 1); TStr ", -1 quit): "] in
  if pro_i <? 0 then Ok (inr s)
  else if N_PROC <=? pro_i then Ok (inl (print s [TStr "pro_i out of range\n"]))
  else
    r ← command s pro_i req;
    Ok (inl (if r.2 =? EXIT_SUCCESS then print r.1 (TStr "==== new state ====\n" :: print_stat r.1)
             else r.1)).

(** ** Safe states *)

Definition row_of (m : list (list Z)) (j : Z) : list Z := default [] (m !! Z.to_nat j).

Notation row_le := (Forall2 Z.le).
Notation vadd := (zip_with Z.add).
Notation vsub := (zip_with Z.sub).

(** The pretended state: the request of [pro_i] is granted. *)
Definition pretend_need (s : bank) (pro_i j : Z) : list Z :=
  if j =? pro_i then vsub (row_of (need s) j) (request s) else row_of (need s) j.
Definition pretend_allocation (s : bank) (pro_i j : Z) : list Z :=
  if j =? pro_i then vadd (row_of (allocation s) j) (request s) else row_of (allocation s) j.

(** The processes [seq] can finish one after the other from [w]. *)
Fixpoint finishes (pn pa : Z → list Z) (w : list Z) (seq : list Z) : Prop :=
  match seq with
  | [] => True
  | j :: seq => row_le (pn j) w ∧ finishes pn pa (vadd w (pa j)) seq
  end.

Definition Safe (pn pa : Z → list Z) (w : list Z) (procs : list Z) : Prop :=
  ∃ seq, seq ≡ₚ procs ∧ finishes pn pa w seq.

Definition vec (l : list Z) : Prop := zlen l = M_RES.
Definition nonneg (l : list Z) : Prop := Forall (λ x, 0 ≤ x) l.
Definition procs : list Z := [0; 1; 2; 3; 4].

(** All that is available or allocated. *)
Definition total (w : list Z) (rows : list (list Z)) : list Z := foldr vadd w rows.

Lemma three_cells (l : list Z) : vec l → ∃ a b c, l = [a; b; c].
Proof.
  unfold vec, zlen, M_RES. intros H. do 3 (destruct l as [|? l]; [cbn in H; lia|]).
  destruct l; [by eexists _, _, _|]. cbn in H. lia.
Qed.

Section vectors.
Implicit Types (a b w : list Z).

Lemma vec_zip op a b : vec a → vec b → vec (zip_with op a b).
Proof. by intros (?&?&?&->)%three_cells (?&?&?&->)%three_cells. Qed.

Lemma vadd_comm a b : vadd a b = vadd b a.
Proof. revert b. induction a as [|x a IH]; intros [|y b]; cbn; [done..|]. by rewrite IH, Z.add_comm. Qed.

Lemma vadd_assoc a b w : vadd (vadd a b) w = vadd a (vadd b w).
Proof.
  revert b w. induction a as [|x a IH]; intros [|y b] [|z w]; cbn; [done..|].
  by rewrite IH, Z.add_assoc.
Qed.

Lemma row_le_refl a : row_le a a.
Proof. induction a; constructor; [lia|done]. Qed.

Lemma row_le_add a w b : row_le a w → nonneg b → vec w → vec b → row_le a (vadd w b).
Proof.
  intros Hle Hb (w0&w1&w2&->)%three_cells (b0&b1&b2&->)%three_cells.
  unfold nonneg in Hb. rewrite !Forall_cons in Hb.
  inversion_clear Hle as [|????? H1]. inversion_clear H1 as [|????? H2].
  inversion_clear H2 as [|????? H3]. inversion H3; subst.
  repeat constructor; lia.
Qed.

Lemma total_app w l1 l2 : total w (l1 ++ l2) = total (total w l2) l1.
Proof. apply foldr_app. Qed.

Lemma total_cons w b rows : total w (b :: rows) = vadd b (total w rows).
Proof. done. Qed.

Lemma total_vadd w a rows : total (vadd w a) rows = vadd (total w rows) a.
Proof.
  induction rows as [|b rows IH]; [done|]. rewrite !total_cons. by rewrite IH, vadd_assoc.
Qed.

Lemma vec_total w rows : vec w → Forall vec rows → vec (total w rows).
Proof. intros Hw. induction 1; [done|]. by apply vec_zip. Qed.

#[global] Instance total_perm w : Proper ((≡ₚ) ==> (=)) (total w).
Proof.
  intros l k Hp. induction Hp; rewrite ?total_cons; try congruence.
  by rewrite <-!vadd_assoc, (vadd_comm x y).
Qed.

Lemma nonneg_vadd a b : nonneg a → nonneg b → nonneg (vadd a b).
Proof.
  unfold nonneg. intros Ha. revert b. induction Ha as [|x a Hx Ha IH]; intros b Hb; [constructor|].
  destruct Hb as [|y b Hy Hb]; constructor; [lia|auto].
Qed.
End vectors.

(** ** Greedy choice is enough *)
Section greedy.
Context (pn pa : Z → list Z).
Implicit Types (w : list Z) (seq rem : list Z).

Lemma finishes_app w seq1 seq2 :
  finishes pn pa w (seq1 ++ seq2) ↔
  finishes pn pa w seq1 ∧ finishes pn pa (total w (pa <$> seq1)) seq2.
Proof.
  revert w. induction seq1 as [|j seq1 IH]; intros w; cbn [app finishes fmap list_fmap]; [naive_solver|].
  rewrite IH, total_vadd, total_cons, (vadd_comm (pa j)). tauto.
Qed.

(** A safe state has a process whose need fits. *)
Lemma Safe_head w rem :
  Safe pn pa w rem → rem ≠ [] → ∃ j, j ∈ rem ∧ row_le (pn j) w.
Proof.
  intros ([|j seq] & Hp & Hf) Hne; [by apply Permutation_nil_l in Hp|].
  exists j. split; [rewrite <-Hp; left|apply Hf].
Qed.

Context (Hvec : ∀ j, j ∈ procs → vec (pa j) ∧ nonneg (pa j)).

Lemma finishes_more w a seq :
  vec w → vec a → nonneg a → seq ⊆ procs → finishes pn pa w seq → finishes pn pa (vadd w a) seq.
Proof using Hvec.
  intros Hw Ha Hn. revert w Hw. induction seq as [|j seq IH]; intros w Hw Hs; [done|].
  intros [Hj Hf]. destruct (Hvec j ltac:(set_solver)) as [Hvj Hnj]. split.
  - by apply row_le_add.
  - rewrite vadd_assoc, (vadd_comm a), <-vadd_assoc. apply IH; [by apply vec_zip|set_solver|done].
Qed.

(** A process whose need fits may finish first. *)
Lemma Safe_step w j rem rem' :
  vec w → rem ≡ₚ j :: rem' → rem ⊆ procs → row_le (pn j) w →
  Safe pn pa w rem ↔ Safe pn pa (vadd w (pa j)) rem'.
Proof using Hvec.
  intros Hw Hp Hs Hj. split.
  - intros (seq & Hseq & Hf). assert (j ∈ seq) as Hin by (rewrite Hseq, Hp; left).
    apply list_elem_of_split in Hin as (l1 & l2 & ->).
    assert (l1 ++ l2 ≡ₚ rem') as Hrem.
    { apply (inj (j ::.)). rewrite <-Hp, <-Hseq. by rewrite Permutation_middle. }
    exists (l1 ++ l2). split; [done|].
    apply finishes_app in Hf as [Hf1 [_ Hf2]].
    assert (∀ x, x ∈ l1 ++ j :: l2 → x ∈ procs) as Hsub by (intros x; rewrite Hseq; apply Hs).
    destruct (Hvec j) as [Hvj Hnj]; [apply Hsub, elem_of_app; right; left|].
    apply finishes_app. split.
    + apply finishes_more; try done. intros x Hx. apply Hsub, elem_of_app. by left.
    + by rewrite total_vadd.
  - intros (seq & Hseq & Hf). exists (j :: seq). split; [by rewrite Hseq|done].
Qed.
End greedy.

(** ** The loops over the resources *)

Section cells.
Context {A : Type} (a b c x : A).
Lemma aget3_0 : [a; b; c].[0] = Ok a.
Proof. done. Qed.
Lemma aget3_1 : [a; b; c].[1] = Ok b.
Proof. done. Qed.
Lemma aget3_2 : [a; b; c].[2] = Ok c.
Proof. done. Qed.
Lemma aset3_0 : aset [a; b; c] 0 x = Ok [x; b; c].
Proof. done. Qed.
Lemma aset3_1 : aset [a; b; c] 1 x = Ok [a; x; c].
Proof. done. Qed.
Lemma aset3_2 : aset [a; b; c] 2 x = Ok [a; b; x].
Proof. done. Qed.
End cells.
Create Rewrite HintDb cells.
#[export] Hint Rewrite @aget3_0 @aget3_1 @aget3_2 @aset3_0 @aset3_1 @aset3_2 : cells.

Definition ints (l : list Z) : Prop := Forall (λ x, int_min ≤ x ≤ int_max) l.

Lemma row_le_3 a b c x y z : row_le [a; b; c] [x; y; z] ↔ a ≤ x ∧ b ≤ y ∧ c ≤ z.
Proof.
  split.
  - intros H. inversion_clear H as [|????? H1]. inversion_clear H1 as [|????? H2].
    by inversion_clear H2.
  - intros (?&?&?). by repeat constructor.
Qed.

Lemma ints_3 a b c :
  ints [a; b; c] ↔ int_min ≤ a ≤ int_max ∧ int_min ≤ b ≤ int_max ∧ int_min ≤ c ≤ int_max.
Proof. unfold ints. rewrite !Forall_cons. naive_solver. Qed.

(** Three unfoldings of a loop over the resources. *)
Lemma loop3 {R} (body : Z → outcome (Z + R)) :
  loop (S (Z.to_nat M_RES)) body 0 =
  x ← body 0; match x with inr r => Ok r | inl k =>
  x ← body k; match x with inr r => Ok r | inl k =>
  x ← body k; match x with inr r => Ok r | inl k =>
  x ← body k; match x with inr r => Ok r | inl k => Err NoFuel end end end end.
Proof.
  change (S (Z.to_nat M_RES)) with 4%nat. rewrite !loop_unfold.
  destruct (body 0) as [[?|?]|?]; cbn; [|done..]. rewrite loop_unfold.
  destruct (body z) as [[?|?]|?]; cbn; [|done..]. rewrite loop_unfold.
  destruct (body z0) as [[?|?]|?]; cbn; [|done..]. rewrite loop_unfold. done.
Qed.

Lemma for3 {S} (body : Z → S → outcome S) s :
  for_range 0 M_RES body s = s ← body 0 s; s ← body 1 s; body 2 s.
Proof.
  unfold for_range. change (Z.to_nat (M_RES - 0)) with 3%nat. cbn [for_up].
  change (0 + 1 + 1) with 2. change (0 + 1) with 1.
  destruct (body 0 s) as [s1|]; cbn; [|done]. destruct (body 1 s1) as [s2|]; cbn; [|done].
  by destruct (body 2 s2).
Qed.

(** The comparing loops: [cell k] is compared with [w.[k]]. *)
Lemma compare_spec (cell : Z → outcome Z) (w : list Z) x0 x1 x2 :
  vec w → cell 0 = Ok x0 → cell 1 = Ok x1 → cell 2 = Ok x2 →
  ∃ k, loop (S (Z.to_nat M_RES)) (λ k, if k <? M_RES then
        n ← cell k; y ← w.[k]; Ok (if y <? n then inr k else inl (k + 1))
      else Ok (inr k)) 0 = Ok k ∧ 0 ≤ k ≤ M_RES ∧ (k = M_RES ↔ row_le [x0; x1; x2] w).
Proof.
  intros (w0&w1&w2&->)%three_cells H0 H1 H2. rewrite loop3. setoid_rewrite row_le_3. unfold M_RES.
  change (0 <? 3) with true. cbn match. rewrite H0. cbn [mbind outcome_bind].
  autorewrite with cells. cbn [mbind outcome_bind].
  destruct (Z.ltb_spec w0 x0); cbn [mbind outcome_bind]; [exists 0; split; [done|lia]|].
  change (0 + 1 <? 3) with true. change (0 + 1) with 1. cbn match. rewrite H1. cbn [mbind outcome_bind].
  autorewrite with cells. cbn [mbind outcome_bind].
  destruct (Z.ltb_spec w1 x1); cbn [mbind outcome_bind]; [exists 1; split; [done|lia]|].
  change (1 + 1 <? 3) with true. change (1 + 1) with 2. cbn match. rewrite H2. cbn [mbind outcome_bind].
  autorewrite with cells. cbn [mbind outcome_bind].
  destruct (Z.ltb_spec w2 x2); cbn [mbind outcome_bind]; [exists 2; split; [done|lia]|].
  exists 3. split; [done|]. lia.
Qed.

Lemma exceeds_spec req bound :
  vec req → vec bound →
  ∃ k, exceeds req bound = Ok k ∧ 0 ≤ k ≤ M_RES ∧ (k = M_RES ↔ row_le req bound).
Proof.
  intros (r0&r1&r2&->)%three_cells Hb.
  exact (compare_spec (λ k, [r0; r1; r2].[k]) bound r0 r1 r2 Hb eq_refl eq_refl eq_refl).
Qed.

Lemma vector_op_spec op b c a :
  vec a → vec b → vec c → ints (zip_with op b c) → vector_op op b c a = Ok (zip_with op b c).
Proof.
  intros (a0&a1&a2&->)%three_cells (b0&b1&b2&->)%three_cells (c0&c1&c2&->)%three_cells.
  cbn [zip_with]. rewrite ints_3. intros (?&?&?). unfold vector_op. rewrite for3.
  autorewrite with cells. cbn [mbind outcome_bind]. rewrite cint_Ok by done. cbn [mbind outcome_bind].
  autorewrite with cells. cbn [mbind outcome_bind]. rewrite cint_Ok by done. cbn [mbind outcome_bind].
  autorewrite with cells. cbn [mbind outcome_bind]. rewrite cint_Ok by done. cbn [mbind outcome_bind].
  by autorewrite with cells.
Qed.

(** A well-formed bank: five rows of three. *)
Definition shape (s : bank) : Prop :=
  vec (available s) ∧ vec (request s) ∧ vec (work s) ∧
  zlen (need s) = N_PROC ∧ Forall vec (need s) ∧
  zlen (allocation s) = N_PROC ∧ Forall vec (allocation s).

Lemma row_aget m j :
  zlen m = N_PROC → Forall vec m → 0 ≤ j < N_PROC → m.[j] = Ok (row_of m j) ∧ vec (row_of m j).
Proof.
  intros Hl Hv Hj. destruct (aget_in_range m j) as (row & -> & Hrow); [lia|].
  unfold row_of. rewrite Hrow. split; [done|]. by eapply Forall_lookup_1.
Qed.

Lemma need_at_spec s pro_i j :
  shape s → 0 ≤ j < N_PROC → ints (pretend_need s pro_i j) →
  ∃ x0 x1 x2, pretend_need s pro_i j = [x0; x1; x2] ∧
    need_at s pro_i j 0 = Ok x0 ∧ need_at s pro_i j 1 = Ok x1 ∧ need_at s pro_i j 2 = Ok x2.
Proof.
  intros (_ & Hr & _ & Hn & Hnv & _) Hj. unfold need_at, pretend_need.
  destruct (row_aget _ _ Hn Hnv Hj) as [-> (n0&n1&n2&->)%three_cells].
  destruct (three_cells _ Hr) as (r0&r1&r2&->). cbn [mbind outcome_bind].
  autorewrite with cells. cbn [mbind outcome_bind]. destruct (j =? pro_i).
  - cbn [zip_with]. rewrite ints_3. intros Hi. eexists _, _, _. split; [done|].
    by rewrite !cint_Ok by naive_solver.
  - intros _. by eexists _, _, _.
Qed.

Lemma fits_spec s pro_i j :
  shape s → 0 ≤ j < N_PROC → ints (pretend_need s pro_i j) →
  ∃ k, fits s pro_i j = Ok k ∧ (k = M_RES ↔ row_le (pretend_need s pro_i j) (work s)).
Proof.
  intros Hs Hj Hi. destruct (need_at_spec s pro_i j Hs Hj Hi) as (x0 & x1 & x2 & -> & H0 & H1 & H2).
  destruct (compare_spec (need_at s pro_i j) (work s) x0 x1 x2) as (k & Hk & _ & Hiff);
    [apply Hs|done..|]. by exists k.
Qed.

(** The bank during [safecheck]: only the work vector and the output change. *)
Definition with_work (s : bank) (w : list Z) (o : list tok) : bank :=
  Bank (available s) (need s) (allocation s) (request s) w o.

Lemma with_work_shape s w o : shape s → vec w → shape (with_work s w o).
Proof. intros (?&?&_&?&?&?&?) Hw. by split_and!. Qed.

Lemma release_spec s pro_i j :
  shape s → 0 ≤ j < N_PROC → ints (pretend_allocation s pro_i j) →
  ints (vadd (work s) (pretend_allocation s pro_i j)) →
  ∃ o, release s pro_i j = Ok (with_work s (vadd (work s) (pretend_allocation s pro_i j)) o).
Proof.
  intros (_ & Hr & Hw & _ & _ & Ha & Hav) Hj. unfold release, pretend_allocation.
  destruct (row_aget _ _ Ha Hav Hj) as [Hrow (a0&a1&a2&Ea)%three_cells]. rewrite for3.
  destruct s as [av nd al rq wk ot]. cbn [allocation request work] in *. rewrite Hrow, Ea.
  destruct (three_cells _ Hr) as (r0&r1&r2&->). destruct (three_cells _ Hw) as (w0&w1&w2&->).
  destruct (j =? pro_i); cbn [zip_with]; rewrite !ints_3; intros (?&?&?) (?&?&?);
    repeat (cbn [mbind outcome_bind work set_work print allocation request];
            rewrite ?Hrow, ?Ea; autorewrite with cells; rewrite ?cint_Ok by done);
    cbn [mbind outcome_bind work set_work print allocation request];
    unfold with_work; cbn; eexists; reflexivity.
Qed.

(** [finish] marks the processes that are not in [rem]. *)
Definition finish_rel (finish rem : list Z) : Prop :=
  zlen finish = N_PROC ∧
  ∀ j, 0 ≤ j < N_PROC → finish.[j] = Ok (if decide (j ∈ rem) then 0 else 1).

Lemma select_spec s pro_i finish rem :
  shape s → (∀ j, 0 ≤ j < N_PROC → ints (pretend_need s pro_i j)) → finish_rel finish rem →
  ∃ j, select s pro_i finish = Ok j ∧
    ((0 ≤ j < N_PROC ∧ j ∈ rem ∧ row_le (pretend_need s pro_i j) (work s)) ∨
     (j = N_PROC ∧ ∀ i, 0 ≤ i < N_PROC → i ∈ rem → ¬ row_le (pretend_need s pro_i i) (work s))).
Proof.
  intros Hs Hi [Hl Hf]. unfold select.
  apply (loop_spec
    (λ j, 0 ≤ j ≤ N_PROC ∧ ∀ i, 0 ≤ i < j → i ∈ rem → ¬ row_le (pretend_need s pro_i i) (work s))
    (λ j, (0 ≤ j < N_PROC ∧ j ∈ rem ∧ row_le (pretend_need s pro_i j) (work s)) ∨
     (j = N_PROC ∧ ∀ i, 0 ≤ i < N_PROC → i ∈ rem → ¬ row_le (pretend_need s pro_i i) (work s)))
    (λ j, Z.to_nat (N_PROC - j))).
  - intros j [Hj Hnone].
    destruct (Z.ltb_spec j N_PROC) as [Hlt|Hge].
    2: { eexists. split; [done|]. right. assert (j = N_PROC) as -> by lia. done. }
    assert (∀ x : outcome Z, (j ∈ rem → ¬ row_le (pretend_need s pro_i j) (work s)) →
      (0 ≤ j + 1 ≤ N_PROC ∧ ∀ i, 0 ≤ i < j + 1 → i ∈ rem → ¬ row_le (pretend_need s pro_i i) (work s)) ∧
      (Z.to_nat (N_PROC - (j + 1)) < Z.to_nat (N_PROC - j))%nat) as Hnext.
    { intros _ Hn. split; [|lia]. split; [lia|]. intros i Hij.
      destruct (decide (i = j)) as [->|]; [done|]. apply Hnone. lia. }
    rewrite Hf by lia. cbn [mbind outcome_bind]. destruct (decide (j ∈ rem)) as [Hin|Hin].
    + change (0 =? 0) with true. destruct (fits_spec s pro_i j Hs) as (k & -> & Hk); [lia|apply Hi; lia|].
      cbn [mbind outcome_bind]. eexists. split; [done|].
      destruct (Z.eqb_spec k M_RES) as [->|Hne].
      * left. split; [lia|]. split; [done|]. by apply Hk.
      * apply (Hnext (Ok 0)). intros _. naive_solver.
    + change (1 =? 0) with false. eexists. split; [done|]. by apply (Hnext (Ok 0)).
  - split; [done|]. intros i Hi0. lia.
  - unfold N_PROC. lia.
Qed.

Lemma finish_rel_step finish rem rem' j :
  finish_rel finish rem → rem ≡ₚ j :: rem' → NoDup rem → 0 ≤ j < N_PROC →
  ∃ finish', aset finish j 1 = Ok finish' ∧ finish_rel finish' rem'.
Proof.
  intros [Hl Hf] Hp Hnd Hj. rewrite Hp in Hnd. apply NoDup_cons in Hnd as [Hjr _].
  rewrite aset_Ok by lia. eexists. split; [done|]. split; [by rewrite zlen_insert|].
  intros i Hi. rewrite aget_insert by lia. destruct (decide (i = j)) as [->|Hij].
  - by rewrite decide_False.
  - rewrite Hf by done. destruct (decide (i ∈ rem)) as [Hin|Hin]; rewrite Hp, elem_of_cons in Hin.
    + rewrite decide_True by naive_solver. done.
    + rewrite decide_False by naive_solver. done.
Qed.

Lemma total_ge w rows :
  vec w → Forall vec rows → Forall nonneg rows → row_le w (total w rows).
Proof.
  intros Hw Hv Hn. induction Hv as [|a rows Ha Hv IH]; [apply row_le_refl|].
  inversion Hn; subst. rewrite total_cons, vadd_comm. apply row_le_add; [by apply IH|done| |done].
  by apply vec_total.
Qed.

Lemma ints_between w t : nonneg w → row_le w t → ints t → ints w.
Proof.
  unfold nonneg, ints. intros Hn Hle. induction Hle as [|x y w t Hxy Hle IH]; [done|].
  rewrite !Forall_cons in *. intros [Hy Ht]. split; [unfold int_min in *; lia|naive_solver].
Qed.

Lemma nonneg_total w rows : nonneg w → Forall nonneg rows → nonneg (total w rows).
Proof.
  intros Hw. induction 1 as [|a rows Ha _ IH]; [done|]. rewrite total_cons. by apply nonneg_vadd.
Qed.

Lemma in_procs j : j ∈ procs ↔ 0 ≤ j < N_PROC.
Proof. unfold procs, N_PROC. split; [set_solver by lia|]. intros H.
  assert (j = 0 ∨ j = 1 ∨ j = 2 ∨ j = 3 ∨ j = 4) by lia. set_solver. Qed.

(** *** The check *)

(** What [safecheck] starts from: a well-formed bank whose pretended rows are
    not negative and sum up to what an [int] holds. *)
Definition checkable (s : bank) (pro_i : Z) : Prop :=
  shape s ∧ nonneg (work s) ∧
  (∀ j, 0 ≤ j < N_PROC → ints (pretend_need s pro_i j)) ∧
  (∀ j, 0 ≤ j < N_PROC → nonneg (pretend_allocation s pro_i j)) ∧
  ints (total (work s) (pretend_allocation s pro_i <$> procs)).

Section check.
Context (s0 : bank) (pro_i : Z) (Hs0 : checkable s0 pro_i).
Let pn := pretend_need s0 pro_i.
Let pa := pretend_allocation s0 pro_i.

Local Lemma rows_ok j : j ∈ procs → vec (pa j) ∧ nonneg (pa j).
Proof using Hs0.
  intros Hj%in_procs. destruct Hs0 as ((_ & Hr & _ & _ & _ & Ha & Hav) & _ & _ & Hn & _).
  split; [|by apply Hn]. unfold pa, pretend_allocation.
  destruct (row_aget _ _ Ha Hav Hj) as [_ Hv]. destruct (j =? pro_i); [by apply vec_zip|done].
Qed.

Local Lemma rows_Forall seq : seq ⊆ procs → Forall vec (pa <$> seq) ∧ Forall nonneg (pa <$> seq).
Proof using Hs0.
  intros Hs. split; apply Forall_fmap, Forall_forall; intros j Hj; apply rows_ok; by apply Hs.
Qed.

(** After the processes [done], [rem] being left. *)
Definition select_inv (st : bank * Z * list Z * list Z) : Prop :=
  let '(s, i, finish, safe_seq) := st in
  ∃ done rem o, s = with_work s0 (total (work s0) (pa <$> done)) o ∧
    done ++ rem ≡ₚ procs ∧ i = zlen done ∧ zlen safe_seq = N_PROC ∧
    take (length done) safe_seq = done ∧ finish_rel finish rem ∧
    finishes pn pa (work s0) done ∧
    (Safe pn pa (work s0) procs ↔ Safe pn pa (total (work s0) (pa <$> done)) rem).

(** What the loop over [i] answers. *)
Definition select_post (r : bank * Z * list Z) : Prop :=
  let '(s, i, safe_seq) := r in
  (∃ w o, s = with_work s0 w o ∧ vec w) ∧ (i = N_PROC ↔ Safe pn pa (work s0) procs) ∧
  (i = N_PROC → safe_seq ≡ₚ procs ∧ finishes pn pa (work s0) safe_seq).

Local Lemma work_facts dn rem :
  dn ++ rem ≡ₚ procs →
  vec (total (work s0) (pa <$> dn)) ∧ nonneg (total (work s0) (pa <$> dn)) ∧
  ∀ j rem', rem ≡ₚ j :: rem' → ints (vadd (total (work s0) (pa <$> dn)) (pa j)) ∧ ints (pa j).
Proof using Hs0.
  intros Hp. pose proof Hs0 as ((_ & _ & Hw & _) & Hnw & _ & _ & Htot). fold pa in Htot.
  assert (dn ⊆ procs) as Hd by (intros x Hx; rewrite <-Hp; apply elem_of_app; by left).
  destruct (rows_Forall dn Hd) as [Hdv Hdn].
  assert (vec (total (work s0) (pa <$> dn))) as Hv by (by apply vec_total).
  assert (nonneg (total (work s0) (pa <$> dn))) as Hn by (by apply nonneg_total).
  split; [done|]. split; [done|]. intros j rem' Hj. rewrite Hj in Hp.
  assert (j ∈ procs) as Hjp by (rewrite <-Hp; apply elem_of_app; right; left).
  destruct (rows_ok j Hjp) as [Hvj Hnj].
  assert (rem' ⊆ procs) as Hr by (intros x Hx; rewrite <-Hp; apply elem_of_app; right; by right).
  destruct (rows_Forall rem' Hr) as [Hrv Hrn].
  assert (ints (vadd (total (work s0) (pa <$> dn)) (pa j))) as Hi.
  { apply ints_between with (t := total (vadd (total (work s0) (pa <$> dn)) (pa j)) (pa <$> rem')).
    - by apply nonneg_vadd.
    - apply total_ge; [by apply vec_zip|done|done].
    - rewrite <-Hp, fmap_app, fmap_cons, Permutation_app_comm, <-app_comm_cons in Htot.
      rewrite total_cons, total_app, vadd_comm, <-total_vadd in Htot. exact Htot. }
  split; [done|]. apply ints_between with (t := vadd (total (work s0) (pa <$> dn)) (pa j)); try done.
  rewrite vadd_comm. apply row_le_add; [apply row_le_refl|done..].
Qed.

Local Lemma select_round s i finish safe_seq :
  select_inv (s, i, finish, safe_seq) → i < N_PROC →
  ∃ j, select s pro_i finish = Ok j ∧
    ((j = N_PROC ∧ select_post (s, i, safe_seq)) ∨
     (0 ≤ j < N_PROC ∧ ∃ safe_seq' finish' s',
       aset safe_seq i j = Ok safe_seq' ∧ aset finish j 1 = Ok finish' ∧
       ∀ o, ∃ o', release (with_work s0 (work s) o) pro_i j = Ok (with_work s0 (work s') o') ∧
         ∀ o'', select_inv (with_work s0 (work s') o'', i + 1, finish', safe_seq'))).
Proof using Hs0.
  intros (dn & rem & o & -> & Hp & -> & Hl & Htake & Hfin & Hf & Hsafe) Hi.
  destruct (work_facts dn rem Hp) as (Hv & Hn & Hstep).
  pose proof Hs0 as (Hshape & _ & Hints & _ & _).
  pose proof (with_work_shape s0 _ o Hshape Hv) as Hshape'.
  destruct (select_spec (with_work s0 (total (work s0) (pa <$> dn)) o) pro_i finish rem)
    as (j & Hsel & Hj); [done|exact Hints|done|].
  exists j. split; [done|]. assert (NoDup (dn ++ rem)) as Hnd
    by (rewrite Hp; apply (bool_decide_unpack _); exact I).
  assert (∀ x, x ∈ rem → 0 ≤ x < N_PROC) as Hrem
    by (intros x Hx; apply in_procs; rewrite <-Hp; apply elem_of_app; by right).
  destruct Hj as [(Hj & Hin & Hle)|[-> Hnone]].
  - right. split; [done|]. destruct (proj1 (elem_of_Permutation rem j) Hin) as [rem' Hrem'].
    destruct (Hstep j rem' Hrem') as [Hi1 Hi2].
    destruct (finish_rel_step finish rem rem' j Hfin Hrem') as (finish' & Hfa & Hfin');
      [by apply NoDup_app in Hnd as (_ & _ & ?)|done|].
    rewrite aset_Ok by (unfold zlen in *; lia).
    eexists _, finish', (with_work s0 (total (work s0) (pa <$> (dn ++ [j]))) o).
    split; [done|]. split; [done|]. intros o1.
    destruct (release_spec (with_work s0 (total (work s0) (pa <$> dn)) o1) pro_i j)
      as (o' & Hrel); [by apply with_work_shape|done|done|done|].
    assert (total (work s0) (pa <$> dn ++ [j]) = vadd (total (work s0) (pa <$> dn)) (pa j)) as Ht.
    { rewrite fmap_app, total_app. cbn [fmap list_fmap]. rewrite total_cons.
      change (total (work s0) []) with (work s0). by rewrite vadd_comm, total_vadd. }
    exists o'. split; [cbn [work with_work]; rewrite Ht; exact Hrel|]. intros o''.
    exists (dn ++ [j]), rem', o''. cbn [work with_work].
    assert (length dn < length safe_seq)%nat as Hlen by (unfold zlen, N_PROC in *; lia).
    split; [done|]. split; [by rewrite <-(assoc_L (++)), <-Hrem'|].
    split; [by rewrite zlen_app|]. split; [by rewrite zlen_insert|]. split.
    { unfold zlen. rewrite Nat2Z.id, length_app. cbn [length].
      rewrite Nat.add_1_r, (take_S_r _ _ j) by (by apply list_lookup_insert_eq).
      rewrite take_insert_ge by lia. by rewrite Htake. }
    split; [done|]. split; [apply finishes_app; by split_and!|].
    rewrite Hsafe, Ht. apply (Safe_step pn pa rows_ok); try done.
    intros x Hx. by apply in_procs, Hrem.
  - left. split; [done|]. assert (rem ≠ []) as Hne.
    { intros ->. rewrite app_nil_r in Hp. rewrite Hp in Hi. done. }
    assert (¬ Safe pn pa (work s0) procs) as Hns.
    { rewrite Hsafe. intros Hsf. destruct (Safe_head pn pa _ rem Hsf Hne) as (x & Hx & Hlex).
      apply (Hnone x); [by apply Hrem|done|]. exact Hlex. }
    split; [by eexists _, _|]. split; [|lia]. split; [lia|done].
Qed.

Lemma select_all_spec o :
  ∃ r, select_all (with_work s0 (work s0) o) pro_i = Ok r ∧ select_post r.
Proof using Hs0.
  unfold select_all.
  apply (loop_spec select_inv select_post (λ st, Z.to_nat (N_PROC - st.1.1.2))).
  - intros [[[s i] finish] safe_seq] Hinv. cbn [fst snd].
    destruct (Z.ltb_spec i N_PROC) as [Hlt|Hge].
    + destruct (select_round s i finish safe_seq Hinv Hlt) as (j & -> & Hj).
      cbn [mbind outcome_bind].
      destruct Hj as [[-> Hpost]|(Hj & safe_seq' & finish' & s' & -> & -> & Hrel)].
      * rewrite Z.eqb_refl. eexists. by split.
      * replace (j =? N_PROC) with false by (symmetry; apply Z.eqb_neq; lia). cbn [mbind outcome_bind].
        destruct Hinv as (dn & rem & o1 & -> & _).
        match goal with |- context [release (print ?b ?t) pro_i j] =>
          destruct (Hrel (o1 ++ t)) as (o' & Hr & Hinv');
          change (release (print b t) pro_i j)
            with (release (with_work s0 (work b) (o1 ++ t)) pro_i j) end.
        rewrite Hr. cbn [mbind outcome_bind].
        eexists. split; [done|]. split; [apply Hinv'|]. cbn. lia.
    + eexists. split; [done|]. destruct Hinv as (dn & rem & o1 & -> & Hp & -> & Hl & Htake & _ & Hf & Hsafe).
      assert (rem = []) as ->.
      { apply Permutation_length in Hp. rewrite length_app in Hp.
        change (length procs) with 5%nat in Hp. unfold zlen, N_PROC in *.
        destruct rem; [done|]. cbn in Hp. lia. }
      rewrite app_nil_r in Hp.
      assert (zlen dn = N_PROC) as Hz by (by rewrite Hp).
      split; [eexists _, _; split; [done|by apply (work_facts dn []); rewrite app_nil_r]|].
      assert (safe_seq = dn) as ->.
      { rewrite take_ge in Htake; [done|]. unfold zlen in *. lia. }
      split; [|by intros _]. split; [|done]. intros _. rewrite Hsafe. by exists [].
  - exists [], procs, o. cbn [fmap list_fmap length take]. change (total (work s0) []) with (work s0).
    split_and!; try done. split; [done|]. intros j Hj%in_procs.
    rewrite decide_True by done. apply in_procs in Hj. unfold N_PROC in Hj.
    assert (j = 0 ∨ j = 1 ∨ j = 2 ∨ j = 3 ∨ j = 4) as [->|[->|[->|[->| ->]]]] by lia; done.
  - unfold N_PROC. cbn. lia.
Qed.
End check.

Lemma safecheck_spec s pro_i :
  checkable s pro_i →
  ∃ w o ret, safecheck s pro_i = Ok (with_work s w o, ret) ∧ vec w ∧
    (ret = EXIT_SUCCESS ∨ ret = EXIT_FAILURE) ∧
    (ret = EXIT_SUCCESS ↔
     Safe (pretend_need s pro_i) (pretend_allocation s pro_i) (work s) procs).
Proof.
  intros Hc. unfold safecheck.
  destruct (select_all_spec s pro_i Hc (out s ++ [TStr "==== safecheck starting ====\n"]))
    as ([[s' i] safe_seq] & Hsel & (w & o & -> & Hw) & Hi & _).
  change (print s _) with (with_work s (work s) (out s ++ [TStr "==== safecheck starting ====\n"])).
  rewrite Hsel. cbn [mbind outcome_bind]. destruct (Z.eqb_spec i N_PROC) as [He|He].
  - eexists w, _, _. split; [reflexivity|]. split; [done|]. split; [by left|]. naive_solver.
  - eexists w, _, _. split; [reflexivity|]. split; [done|]. split; [by right|]. split; [done|]. naive_solver.
Qed.

Definition with_row (m : list (list Z)) (j : Z) (row : list Z) : list (list Z) :=
  <[Z.to_nat j := row]> m.

Lemma with_row_facts m j row :
  zlen m = N_PROC → 0 ≤ j < N_PROC →
  aset m j row = Ok (with_row m j row) ∧ (with_row m j row).[j] = Ok row ∧
  zlen (with_row m j row) = N_PROC ∧ ∀ row', with_row (with_row m j row) j row' = with_row m j row'.
Proof.
  intros Hl Hj. unfold with_row. split_and!.
  - apply aset_Ok. lia.
  - apply aget_insert_eq. lia.
  - by rewrite zlen_insert.
  - intros row'. apply list_insert_insert_eq.
Qed.

Lemma confirm_spec s pro_i :
  shape s → 0 ≤ pro_i < N_PROC →
  ints (vsub (available s) (request s)) → ints (vsub (row_of (need s) pro_i) (request s)) →
  ints (vadd (row_of (allocation s) pro_i) (request s)) →
  confirm s pro_i =
    Ok (Bank (vsub (available s) (request s))
          (with_row (need s) pro_i (vsub (row_of (need s) pro_i) (request s)))
          (with_row (allocation s) pro_i (vadd (row_of (allocation s) pro_i) (request s)))
          (request s) (work s) (out s)).
Proof.
  destruct s as [av nd al rq wk ot]. cbn [available need allocation request work out].
  intros (Hav & Hrq & _ & Hn & Hnv & Ha & Hal) Hj. cbn [available need allocation request] in *.
  destruct (row_aget _ _ Hn Hnv Hj) as [En (n0&n1&n2&Hrn)%three_cells].
  destruct (row_aget _ _ Ha Hal Hj) as [Ea (c0&c1&c2&Hra)%three_cells].
  rewrite Hrn in En. rewrite Hra in Ea. rewrite Hrn, Hra. clear Hrn Hra Hnv Hal.
  destruct (three_cells _ Hav) as (a0&a1&a2&->). destruct (three_cells _ Hrq) as (r0&r1&r2&->).
  cbn [zip_with]. rewrite !ints_3. intros (?&?&?) (?&?&?) (?&?&?).
  unfold confirm. rewrite for3.
  assert (∀ row, aset nd pro_i row = Ok (with_row nd pro_i row) ∧
    (with_row nd pro_i row).[pro_i] = Ok row ∧
    ∀ row', aset (with_row nd pro_i row) pro_i row' = Ok (with_row nd pro_i row')) as Wn.
  { intros row. destruct (with_row_facts nd pro_i row Hn Hj) as (H1' & H2' & H3' & H4').
    split_and!; [done|done|]. intros row'.
    destruct (with_row_facts (with_row nd pro_i row) pro_i row' H3' Hj) as (-> & _). by rewrite H4'. }
  assert (∀ row, aset al pro_i row = Ok (with_row al pro_i row) ∧
    (with_row al pro_i row).[pro_i] = Ok row ∧
    ∀ row', aset (with_row al pro_i row) pro_i row' = Ok (with_row al pro_i row')) as Wa.
  { intros row. destruct (with_row_facts al pro_i row Ha Hj) as (H1' & H2' & H3' & H4').
    split_and!; [done|done|]. intros row'.
    destruct (with_row_facts (with_row al pro_i row) pro_i row' H3' Hj) as (-> & _). by rewrite H4'. }
  repeat (cbn [mbind outcome_bind available need allocation request work out];
    first [ progress autorewrite with cells | rewrite cint_Ok by done
          | rewrite En | rewrite Ea
          | rewrite (proj1 (Wn _)) | rewrite (proj1 (Wa _))
          | rewrite (proj1 (proj2 (Wn _))) | rewrite (proj1 (proj2 (Wa _)))
          | rewrite (proj2 (proj2 (Wn _))) | rewrite (proj2 (proj2 (Wa _))) ]).
  reflexivity.
Qed.

(** ** Requests *)

(** The invariant of the program: [R] is what the system owns, [mx] the
    declared maxima. *)
Definition bank_ok (R : list Z) (mx : list (list Z)) (s : bank) : Prop :=
  shape s ∧ nonneg (available s) ∧
  (∀ j, 0 ≤ j < N_PROC → nonneg (row_of (need s) j) ∧ nonneg (row_of (allocation s) j) ∧
     ints (row_of mx j) ∧ vadd (row_of (need s) j) (row_of (allocation s) j) = row_of mx j) ∧
  total (available s) (row_of (allocation s) <$> procs) = R ∧ ints R.

(** What is available lets all processes finish. *)
Definition safe_state (s : bank) : Prop :=
  Safe (row_of (need s)) (row_of (allocation s)) (available s) procs.

Lemma split_proc j : 0 ≤ j < N_PROC → ∃ rest, procs ≡ₚ j :: rest ∧ j ∉ rest ∧ rest ⊆ procs.
Proof.
  intros Hj%in_procs. destruct (proj1 (elem_of_Permutation procs j) Hj) as [rest Hp].
  exists rest. split; [done|]. assert (NoDup (j :: rest)) as Hnd
    by (rewrite <-Hp; apply (bool_decide_unpack _); exact I).
  apply NoDup_cons in Hnd as [? _]. split; [done|]. intros x Hx. rewrite Hp. by right.
Qed.

Lemma total_change w w' (f g : Z → list Z) j :
  0 ≤ j < N_PROC → (∀ i, i ≠ j → f i = g i) → vadd w (f j) = vadd w' (g j) →
  total w (f <$> procs) = total w' (g <$> procs).
Proof.
  intros Hj Hfg Hw. destruct (split_proc j Hj) as (rest & Hp & Hjr & _).
  rewrite Hp. rewrite !fmap_cons, !total_cons.
  rewrite (vadd_comm (f j)), (vadd_comm (g j)), <-!total_vadd, Hw. f_equal.
  apply list_fmap_ext. intros k i Hi. apply Hfg. intros ->. apply Hjr. by eapply list_elem_of_lookup_2.
Qed.

Lemma row_of_with_row m j row i :
  zlen m = N_PROC → 0 ≤ j < N_PROC → 0 ≤ i →
  row_of (with_row m j row) i = if i =? j then row else row_of m i.
Proof.
  intros Hl Hj Hi. unfold row_of, with_row. destruct (Z.eqb_spec i j) as [->|Hij].
  - rewrite list_lookup_insert_eq; [done|]. unfold zlen in Hl. lia.
  - rewrite list_lookup_insert_ne; [done|lia].
Qed.

Lemma nonneg_3 a b c : nonneg [a; b; c] ↔ 0 ≤ a ∧ 0 ≤ b ∧ 0 ≤ c.
Proof. unfold nonneg. rewrite !Forall_cons. naive_solver. Qed.

Lemma vsub_facts a r : vec a → vec r → nonneg r → row_le r a →
  nonneg (vsub a r) ∧ vec (vsub a r) ∧ (ints a → ints (vsub a r)).
Proof.
  intros (a0&a1&a2&->)%three_cells (r0&r1&r2&->)%three_cells. cbn [zip_with].
  rewrite !nonneg_3, row_le_3, !ints_3. unfold vec, int_min, int_max. intros ??. split_and!; try lia.
  done.
Qed.

Lemma vsub_vadd a b r : vec a → vec b → vec r → vadd (vsub a r) (vadd b r) = vadd a b.
Proof.
  intros (a0&a1&a2&->)%three_cells (b0&b1&b2&->)%three_cells (r0&r1&r2&->)%three_cells.
  cbn. assert (∀ x y z : Z, x - z + (y + z) = x + y) as He by lia. by rewrite !He.
Qed.

Lemma ints_summands a b : vec a → vec b → nonneg a → nonneg b → ints (vadd a b) → ints a ∧ ints b.
Proof.
  intros (a0&a1&a2&->)%three_cells (b0&b1&b2&->)%three_cells. cbn [zip_with].
  rewrite !nonneg_3, !ints_3. unfold int_min. lia.
Qed.

Section request.
Context (R : list Z) (mx : list (list Z)) (s : bank) (pro_i : Z).
Context (Hok : bank_ok R mx s) (Hpro : 0 ≤ pro_i < N_PROC) (Hreq : nonneg (request s)).

Local Lemma row_facts j : 0 ≤ j < N_PROC →
  vec (row_of (need s) j) ∧ vec (row_of (allocation s) j) ∧
  nonneg (row_of (need s) j) ∧ nonneg (row_of (allocation s) j) ∧ ints (row_of (need s) j).
Proof using Hok.
  intros Hj. destruct Hok as ((_ & _ & _ & Hn & Hnv & Ha & Hal) & _ & Hrows & _).
  destruct (row_aget _ _ Hn Hnv Hj) as [_ Hvn]. destruct (row_aget _ _ Ha Hal Hj) as [_ Hva].
  destruct (Hrows j Hj) as (Hnn & Hna & Hi & He). rewrite <-He in Hi.
  by destruct (ints_summands _ _ Hvn Hva Hnn Hna Hi).
Qed.

Local Lemma alloc_total_ints :
  ints (available s) ∧ ∀ j, 0 ≤ j < N_PROC → ints (row_of (allocation s) j).
Proof using Hok.
  destruct Hok as (Hsh & Hnav & Hrows & Htot & HR).
  destruct Hsh as (Hav & _). assert (∀ l, l ⊆ procs →
    Forall vec (row_of (allocation s) <$> l) ∧ Forall nonneg (row_of (allocation s) <$> l)) as Hl.
  { intros l Hl. split; apply Forall_fmap, Forall_forall; intros j Hj%Hl%in_procs; by apply row_facts. }
  destruct (Hl procs) as [Hv Hn]; [done|]. split.
  - apply ints_between with (t := R); [done| |done]. rewrite <-Htot. by apply total_ge.
  - intros j Hj. destruct (split_proc j Hj) as (rest & Hp & _ & Hsub).
    destruct (Hl rest Hsub) as [Hv' Hn']. destruct (row_facts j Hj) as (_ & Hvj & _ & Hnj & _).
    apply ints_between with (t := R); [done| |done].
    rewrite <-Htot, Hp, fmap_cons, total_cons. apply row_le_add; [apply row_le_refl|..]; try done.
    + by apply nonneg_total.
    + by apply vec_total.
Qed.

Context (Hneed : row_le (request s) (row_of (need s) pro_i)).
Context (Havail : row_le (request s) (available s)).

(** The bank while the request is pretended to be granted. *)
Definition pretended : bank := set_work s (vsub (available s) (request s)).

Lemma pretended_total :
  total (vsub (available s) (request s)) (pretend_allocation pretended pro_i <$> procs) = R.
Proof using Hok Hpro.
  destruct Hok as ((Hav & Hrq & _) & _ & _ & Htot & _). rewrite <-Htot.
  apply total_change with pro_i; [done| |].
  - intros i Hi. unfold pretend_allocation. by replace (i =? pro_i) with false by (symmetry; by apply Z.eqb_neq).
  - unfold pretend_allocation. rewrite Z.eqb_refl. cbn [allocation request pretended set_work].
    destruct (row_facts pro_i Hpro) as (_ & Hva & _). by apply vsub_vadd.
Qed.

Lemma pretended_checkable : checkable pretended pro_i.
Proof using Hok Hpro Hreq Hneed Havail.
  pose proof Hok as ((Hav & Hrq & Hw & Hn1 & Hn2 & Ha1 & Ha2) & Hnav & Hrows & Htot & HR).
  destruct (vsub_facts _ _ Hav Hrq Hreq Havail) as (Hn & Hv & _).
  split; [by split_and!|]. split; [done|]. split; [|split].
  - intros j Hj. unfold pretend_need. destruct (row_facts j Hj) as (Hvn & _ & _ & _ & Hi).
    destruct (Z.eqb_spec j pro_i) as [->|]; [|done].
    cbn [need request pretended set_work].
    by destruct (vsub_facts _ _ Hvn Hrq Hreq Hneed) as (_ & _ & Hs); apply Hs.
  - intros j Hj. unfold pretend_allocation. destruct (row_facts j Hj) as (_ & _ & _ & Hna & _).
    destruct (j =? pro_i); [by apply nonneg_vadd|done].
  - cbn [work pretended set_work]. rewrite pretended_total. done.
Qed.

(** The granted request leads to a well-formed bank ... *)
Definition granted (w : list Z) (o : list tok) : bank :=
  Bank (vsub (available s) (request s))
    (with_row (need s) pro_i (vsub (row_of (need s) pro_i) (request s)))
    (with_row (allocation s) pro_i (vadd (row_of (allocation s) pro_i) (request s)))
    (request s) w o.

Lemma granted_rows w o j :
  0 ≤ j → row_of (need (granted w o)) j = pretend_need pretended pro_i j ∧
    row_of (allocation (granted w o)) j = pretend_allocation pretended pro_i j.
Proof using Hok Hpro.
  intros Hj. destruct Hok as ((_ & _ & _ & Hn & _ & Ha & _) & _). cbn [need allocation granted].
  rewrite !row_of_with_row by done. unfold pretend_need, pretend_allocation.
  destruct (Z.eqb_spec j pro_i) as [->|]; done.
Qed.

Lemma granted_ok w o : vec w → bank_ok R mx (granted w o).
Proof using Hok Hpro Hreq Hneed Havail.
  intros Hw. pose proof Hok as ((Hav & Hrq & _ & Hn & Hnv & Ha & Hal) & Hnav & Hrows & Htot & HR).
  destruct (vsub_facts _ _ Hav Hrq Hreq Havail) as (Hn' & Hv & _).
  destruct (row_facts pro_i Hpro) as (Hvn & Hva & Hnn & Hna & _).
  destruct (vsub_facts _ _ Hvn Hrq Hreq Hneed) as (Hsn & Hsv & _).
  split; [|split; [done|split; [|split; [|done]]]].
  - split_and!; try done; cbn [need allocation granted]; unfold with_row.
    + by rewrite zlen_insert.
    + by apply Forall_insert.
    + by rewrite zlen_insert.
    + apply Forall_insert; [done|by apply vec_zip].
  - intros j Hj. destruct (Hrows j Hj) as (Hnj & Haj & Hij & Hej).
    cbn [need allocation granted]. rewrite !row_of_with_row by (done || lia).
    destruct (Z.eqb_spec j pro_i) as [->|]; [|done].
    split_and!; [done|by apply nonneg_vadd|done|]. rewrite <-Hej. by apply vsub_vadd.
  - rewrite <-pretended_total. cbn [available granted]. f_equal. apply list_fmap_ext.
    intros k j Hj. apply (granted_rows w o). apply list_elem_of_lookup_2, in_procs in Hj. lia.
Qed.

(** ... which is safe when the check says so. *)
Lemma finishes_ext pn pa pn' pa' w seq :
  (∀ j, j ∈ seq → pn j = pn' j ∧ pa j = pa' j) →
  finishes pn pa w seq → finishes pn' pa' w seq.
Proof.
  revert w. induction seq as [|j seq IH]; intros w Hj; [done|]. cbn [finishes].
  destruct (Hj j ltac:(left)) as [<- <-]. intros [H1 H2]. split; [done|].
  apply IH; [|done]. intros i Hi. apply Hj. by right.
Qed.

Lemma granted_safe w o :
  Safe (pretend_need pretended pro_i) (pretend_allocation pretended pro_i)
    (vsub (available s) (request s)) procs → safe_state (granted w o).
Proof using Hok Hpro.
  intros (seq & Hp & Hf). exists seq. split; [done|]. eapply finishes_ext; [|exact Hf].
  intros j Hj. rewrite Hp in Hj. apply in_procs in Hj.
  destruct (granted_rows w o j) as [-> ->]; [lia|done].
Qed.

(** The whole of a request that is within need and availability. *)
Lemma request_checked :
  ∃ s' ret, resource_request s pro_i = Ok (s', ret) ∧ bank_ok R mx s' ∧
    (ret = EXIT_SUCCESS ↔
      Safe (pretend_need pretended pro_i) (pretend_allocation pretended pro_i)
        (vsub (available s) (request s)) procs) ∧
    (ret = EXIT_SUCCESS → ∃ w o, s' = granted w o) ∧
    (ret ≠ EXIT_SUCCESS → ∃ w o, s' = with_work s w o).
Proof using Hok Hpro Hreq Hneed Havail.
  pose proof Hok as ((Hav & Hrq & Hw & Hn & Hnv & Ha & Hal) & Hnav & Hrows & Htot & HR).
  unfold resource_request.
  destruct (row_aget _ _ Hn Hnv Hpro) as [-> Hvn]. cbn [mbind outcome_bind].
  destruct (exceeds_spec (request s) (row_of (need s) pro_i) Hrq Hvn) as (k1 & -> & _ & Hk1).
  cbn [mbind outcome_bind]. rewrite (proj2 Hk1 Hneed). cbn [negb]. rewrite Z.eqb_refl. cbn [negb].
  destruct (exceeds_spec (request s) (available s) Hrq Hav) as (k2 & -> & _ & Hk2).
  cbn [mbind outcome_bind]. rewrite (proj2 Hk2 Havail), Z.eqb_refl. cbn [negb].
  destruct (vsub_facts _ _ Hav Hrq Hreq Havail) as (_ & _ & Hsi).
  destruct alloc_total_ints as [Hai Hali].
  rewrite vector_op_spec by (try done; by apply Hsi). cbn [mbind outcome_bind]. fold pretended.
  pose proof pretended_checkable as Hchk.
  destruct (safecheck_spec pretended pro_i Hchk) as (w & o & ret & -> & Hwv & Hret & Hiff).
  cbn [mbind outcome_bind]. destruct (Z.eqb_spec ret EXIT_SUCCESS) as [->|Hne].
  - destruct (Hrows pro_i Hpro) as (Hnn & Hna & Himx & Hemx).
    destruct (row_facts pro_i Hpro) as (_ & Hva & _).
    destruct (vsub_facts _ _ Hvn Hrq Hreq Hneed) as (Hsn & Hsv & _).
    destruct (ints_summands (vsub (row_of (need s) pro_i) (request s))
      (vadd (row_of (allocation s) pro_i) (request s))) as [Hi1 Hi2];
      [done|by apply vec_zip|done|by apply nonneg_vadd|by rewrite vsub_vadd, Hemx|].
    rewrite confirm_spec; [|by split_and!|done|by apply Hsi|done|done]. cbn [mbind outcome_bind].
    change (Bank _ _ _ _ _ _) with (granted w o).
    eexists _, _. split; [done|]. split; [by apply granted_ok|]. split; [done|].
    split; [by eexists _, _|done].
  - change (with_work pretended w o) with (with_work s w o).
    eexists _, _. split; [done|]. split; [|split; [done|split; [done|by eexists _, _]]].
    split; [by split_and!|]. done.
Qed.
End request.

(** [C9] [safecheck] is exact: on a well-formed pretended state it always
    returns, answers [EXIT_SUCCESS] if and only if the processes can finish in
    some order, and changes nothing but the work vector (and what it prints). *)
Theorem safecheck_exact s pro_i :
  checkable s pro_i →
  ∃ s' ret, safecheck s pro_i = Ok (s', ret) ∧
    (ret = EXIT_SUCCESS ↔
     Safe (pretend_need s pro_i) (pretend_allocation s pro_i) (work s) procs) ∧
    available s' = available s ∧ need s' = need s ∧ allocation s' = allocation s.
Proof.
  intros Hc. destruct (safecheck_spec s pro_i Hc) as (w & o & ret & -> & _ & _ & Hiff).
  by eexists _, _.
Qed.

(** A request in any bank: granted exactly when it is within the need and the
    availability and leads to a safe state. *)
Lemma request_spec R mx s pro_i :
  bank_ok R mx s → 0 ≤ pro_i < N_PROC → nonneg (request s) →
  ∃ s' ret, resource_request s pro_i = Ok (s', ret) ∧ bank_ok R mx s' ∧
    (ret = EXIT_SUCCESS ↔
      row_le (request s) (row_of (need s) pro_i) ∧ row_le (request s) (available s) ∧
      Safe (pretend_need (pretended s) pro_i) (pretend_allocation (pretended s) pro_i)
        (vsub (available s) (request s)) procs) ∧
    (ret = EXIT_SUCCESS → safe_state s' ∧ ∃ w o, s' = granted s pro_i w o) ∧
    (ret ≠ EXIT_SUCCESS → ∃ w o, s' = with_work s w o).
Proof.
  intros Hok Hpro Hreq.
  pose proof Hok as ((Hav & Hrq & Hw & Hn & Hnv & Ha & Hal) & Hrest).
  destruct (row_aget _ _ Hn Hnv Hpro) as [Hrow Hvn].
  assert (∀ t k, k ≠ M_RES → 0 ≤ k ≤ M_RES → ∀ row what, vec row →
    (r ← (request s).[k]; b ← row.[k];
     Ok (print s (print_exceeds what k r b), EXIT_FAILURE)) = Ok t →
    t.2 = EXIT_FAILURE ∧ ∃ o, t.1 = with_work s (work s) o) as Hprint.
  { intros t k _ _ row what _ H. apply bind_Ok in H as (r & _ & (b & _ & [= <-])%bind_Ok).
    split; [done|by eexists]. }
  assert (∀ k row what, k ≠ M_RES → 0 ≤ k ≤ M_RES → vec row → ∃ t,
    (r ← (request s).[k]; b ← row.[k];
     Ok (print s (print_exceeds what k r b), EXIT_FAILURE)) = Ok t) as Hgo.
  { intros k row what Hk Hk2 Hv. destruct (aget_in_range (request s) k) as (r & -> & _);
      [unfold vec in Hrq; lia|]. destruct (aget_in_range row k) as (b & -> & _); [unfold vec in Hv; lia|].
    by eexists. }
  assert (∀ w o, vec w → bank_ok R mx (with_work s w o)) as Hkeep.
  { intros w o Hwv. split; [by split_and!|]. exact Hrest. }
  destruct (exceeds_spec (request s) (row_of (need s) pro_i) Hrq Hvn) as (k1 & He1 & Hr1 & Hk1).
  destruct (exceeds_spec (request s) (available s) Hrq Hav) as (k2 & He2 & Hr2 & Hk2).
  destruct (decide (k1 = M_RES)) as [->|Hne1]; [destruct (decide (k2 = M_RES)) as [->|Hne2]|].
  - pose proof (proj1 Hk1 eq_refl) as Hneed. pose proof (proj1 Hk2 eq_refl) as Havail.
    destruct (request_checked R mx s pro_i Hok Hpro Hreq Hneed Havail)
      as (s' & ret & -> & Hok' & Hiff & Hyes & Hno).
    exists s', ret. split_and!; try done; [naive_solver|..].
    + intros Hret. destruct (Hyes Hret) as (w & o & ->). split; [|by eexists _, _].
      apply (granted_safe R mx s pro_i Hok Hpro). by apply Hiff.
  - destruct (Hgo k2 (available s) "available[k]"%string Hne2 Hr2 Hav) as [t Ht].
    destruct (Hprint t k2 Hne2 Hr2 (available s) "available[k]"%string Hav Ht) as [Hret [o Ho]].
    unfold resource_request. rewrite Hrow. cbn [mbind outcome_bind]. rewrite He1.
    cbn [mbind outcome_bind]. rewrite Z.eqb_refl. cbn [negb]. rewrite He2. cbn [mbind outcome_bind].
    replace (k2 =? M_RES) with false by (symmetry; by apply Z.eqb_neq). cbn [negb].
    rewrite Ht. destruct t as [s' ret]. cbn in Hret, Ho. subst.
    eexists _, _. split; [done|]. split; [by apply Hkeep|]. split; [|split; [done|by eexists _, _]].
    split; [done|]. intros (_ & Hle & _). by apply Hk2 in Hle.
  - destruct (Hgo k1 (row_of (need s) pro_i) "need[pro_i][k]"%string Hne1 Hr1 Hvn) as [t Ht].
    destruct (Hprint t k1 Hne1 Hr1 _ "need[pro_i][k]"%string Hvn Ht) as [Hret [o Ho]].
    unfold resource_request. rewrite Hrow. cbn [mbind outcome_bind]. rewrite He1.
    cbn [mbind outcome_bind].
    replace (k1 =? M_RES) with false by (symmetry; by apply Z.eqb_neq). cbn [negb].
    rewrite Ht. destruct t as [s' ret]. cbn in Hret, Ho. subst.
    eexists _, _. split; [done|]. split; [by apply Hkeep|]. split; [|split; [done|by eexists _, _]].
    split; [done|]. intros (Hle & _). by apply Hk1 in Hle.
Qed.

(** [C8] The banker's algorithm: a request is granted exactly when it exceeds
    neither the declared need nor what is available and the state it leads to
    is safe.  A granted request moves the resources from available to allocated
    and the new state is safe; a denied one leaves every matrix as it was.  In
    both cases what the system owns and the declared maxima are preserved. *)
Theorem resource_request_correct R mx s pro_i :
  bank_ok R mx s → 0 ≤ pro_i < N_PROC → nonneg (request s) →
  ∃ s' ret, resource_request s pro_i = Ok (s', ret) ∧ bank_ok R mx s' ∧
    (ret = EXIT_SUCCESS ↔
      row_le (request s) (row_of (need s) pro_i) ∧ row_le (request s) (available s) ∧
      Safe (pretend_need (pretended s) pro_i) (pretend_allocation (pretended s) pro_i)
        (vsub (available s) (request s)) procs) ∧
    (ret = EXIT_SUCCESS → safe_state s' ∧ ∃ w o, s' = granted s pro_i w o) ∧
    (ret ≠ EXIT_SUCCESS → ∃ w o, s' = with_work s w o).
Proof. apply request_spec. Qed.

(** ** The states of the program *)

(** The states [main] reaches with requests that are not negative. *)
Inductive bank_reach : bank → Prop :=
| reach_init s : init_bank = Ok s → bank_reach s
| reach_command s pro_i req s' ret :
    bank_reach s → 0 ≤ pro_i < N_PROC → vec req → nonneg req →
    command s pro_i req = Ok (s', ret) → bank_reach s'.

Lemma init_bank_ok : ∃ s, init_bank = Ok s ∧ bank_ok resource max s ∧ safe_state s.
Proof.
  destruct init_bank as [s|] eqn:E; [|vm_compute in E; done]. exists s. split; [done|].
  vm_compute in E. injection E as <-. split.
  - split; [|split; [|split; [|split]]].
    + split_and!; try done; repeat (apply Forall_cons_2; [done|]); by apply Forall_nil_2.
    + by apply nonneg_3.
    + intros j Hj. unfold N_PROC in Hj.
      assert (j = 0 ∨ j = 1 ∨ j = 2 ∨ j = 3 ∨ j = 4) as [->|[->|[->|[->| ->]]]] by lia;
        (split; [by apply nonneg_3|split; [by apply nonneg_3|split; [by apply ints_3|done]]]).
    + done.
    + by apply ints_3.
  - exists procs. split; [done|]. repeat (split; [by apply row_le_3|]). done.
Qed.

Lemma request_bank_ok R mx s pro_i req :
  bank_ok R mx s → vec req → bank_ok R mx (read_request s pro_i req).
Proof. intros ((?&_&?&?&?&?&?) & Hrest) Hv. split; [by split_and!|exact Hrest]. Qed.

Lemma reach_ok s : bank_reach s → bank_ok resource max s ∧ safe_state s.
Proof.
  induction 1 as [s Hi|s pro_i req s' ret _ [Hok Hsafe] Hpro Hv Hn Hc].
  - destruct init_bank_ok as (s0 & H0 & Hok). rewrite Hi in H0. by injection H0 as <-.
  - destruct (request_spec _ _ _ pro_i (request_bank_ok _ _ _ pro_i _ Hok Hv) Hpro Hn)
      as (s1 & ret1 & Hr & Hok1 & _ & Hyes & Hno).
    unfold command in Hc. rewrite Hr in Hc. injection Hc as -> ->. split; [done|].
    destruct (decide (ret = EXIT_SUCCESS)) as [He|He]; [by apply Hyes|].
    destruct (Hno He) as (w & o & ->). exact Hsafe.
Qed.

(** [C10] Whatever commands with non-negative requests are given, the state stays
    well-formed and safe, every command returns, and nothing overflows. *)
Theorem bank_reach_safe s :
  bank_reach s →
  bank_ok resource max s ∧ safe_state s ∧
  ∀ pro_i req, 0 ≤ pro_i < N_PROC → vec req → nonneg req →
    ∃ r, command s pro_i req = Ok r ∧ bank_reach r.1.
Proof.
  intros Hr. destruct (reach_ok s Hr) as [Hok Hsafe]. split; [done|]. split; [done|].
  intros pro_i req Hpro Hv Hn.
  destruct (request_spec _ _ _ pro_i (request_bank_ok _ _ _ pro_i _ Hok Hv) Hpro Hn)
    as (s1 & ret1 & Hc & _).
  exists (s1, ret1). split; [exact Hc|]. by apply (reach_command s pro_i req s1 ret1).
Qed.

(** The program does not reject negative requests: in the first state the
    request [-1 0 0] of process 0 is granted, after which 11 of the 10 resources
    of the first type are available and process 0 holds [-1] of them. *)
Lemma negative_request_granted :
  ∃ s s', init_bank = Ok s ∧ command s 0 [-1; 0; 0] = Ok (s', EXIT_SUCCESS) ∧
    available s' = [11; 5; 7] ∧ row_of (allocation s') 0 = [-1; 0; 0].
Proof. eexists _, _. split; [vm_compute; reflexivity|]. split; [vm_compute; reflexivity|]. done. Qed.

(** ** The state in the comments of the source *)

Definition demo_bank (req w : list Z) : bank :=
  Bank [3; 3; 2] [[7; 4; 3]; [1; 2; 2]; [6; 0; 0]; [0; 1; 1]; [4; 3; 1]]
    [[0; 1; 0]; [2; 0; 0]; [3; 0; 2]; [2; 1; 1]; [0; 0; 2]] req w [].

Lemma demo_bank_ok req w : vec req → vec w → bank_ok resource max (demo_bank req w).
Proof.
  intros Hr Hw. split; [|split; [|split; [|split]]].
  - split_and!; try done; repeat (apply Forall_cons_2; [done|]); by apply Forall_nil_2.
  - by apply nonneg_3.
  - intros j Hj. unfold N_PROC in Hj.
    assert (j = 0 ∨ j = 1 ∨ j = 2 ∨ j = 3 ∨ j = 4) as [->|[->|[->|[->| ->]]]] by lia;
      (split; [by apply nonneg_3|split; [by apply nonneg_3|split; [by apply ints_3|done]]]).
  - done.
  - by apply ints_3.
Qed.

(** The request of the textbook, granted; and one that leads to an unsafe state. *)
Lemma resource_request_correct_witness :
  (∃ s' ret, resource_request (demo_bank [1; 0; 2] [0; 0; 0]) 1 = Ok (s', ret) ∧
    bank_ok resource max s') ∧
  (r ← resource_request (demo_bank [1; 0; 2] [0; 0; 0]) 1; Ok (available r.1, r.2))
    = Ok ([2; 3; 0], EXIT_SUCCESS) ∧
  (r ← resource_request (demo_bank [0; 3; 0] [0; 0; 0]) 0; Ok (available r.1, r.2))
    = Ok ([3; 3; 2], EXIT_FAILURE).
Proof.
  split; [|split; vm_compute; reflexivity].
  destruct (resource_request_correct resource max (demo_bank [1; 0; 2] [0; 0; 0]) 1)
    as (s' & ret & H1 & H2 & _); [by apply demo_bank_ok|done|by apply nonneg_3|].
  exists s', ret. split; assumption.
Defined.

Lemma safecheck_exact_witness :
  ∃ s' ret, safecheck (demo_bank [1; 0; 2] [2; 3; 0]) 1 = Ok (s', ret) ∧
    (ret = EXIT_SUCCESS ↔
     Safe (pretend_need (demo_bank [1; 0; 2] [2; 3; 0]) 1)
       (pretend_allocation (demo_bank [1; 0; 2] [2; 3; 0]) 1) [2; 3; 0] procs).
Proof.
  destruct (safecheck_exact (demo_bank [1; 0; 2] [2; 3; 0]) 1) as (s' & ret & H1 & H2 & _).
  - apply (pretended_checkable resource max (demo_bank [1; 0; 2] [0; 0; 0]));
      [by apply demo_bank_ok|done|by apply nonneg_3|by apply row_le_3|by apply row_le_3].
  - exists s', ret. split; assumption.
Defined.

Lemma bank_reach_safe_witness :
  ∃ s, init_bank = Ok s ∧ safe_state s ∧ ∃ r, command s 0 [0; 1; 0] = Ok r ∧ bank_reach r.1.
Proof.
  destruct init_bank as [s|] eqn:E; [|vm_compute in E; discriminate].
  exists s. split; [reflexivity|].
  destruct (bank_reach_safe s (reach_init s E)) as (_ & Hs & Hc). split; [exact Hs|].
  apply Hc; [done|done|by apply nonneg_3].
Defined.
