(* ===== verification/Mem.v ===== *)
(** * Byte memory and the string instructions of x86

    The memory the C library of ucore works on: a finite map from addresses to
    bytes; a load or a store at an address that is not mapped is undefined.
    [movsb], [movsl], [stosb] and [rep] are the instructions the inline
    assembler of src/Labweek11/lab2/libs/x86.h uses, with their registers and
    the direction flag.  A walk over the memory needs at most one step per
    mapped byte, so the loops take [fuel_of m] steps. *)

From stdpp Require Import base gmap list numbers sets.
From S2P Require Import Prelude.

Notation mem := (gmap Z Z).

Definition ldb (m : mem) (a : Z) : outcome Z := of_option (m !! a).

Definition stb (m : mem) (a v : Z) : outcome mem :=
  match m !! a with Some _ => Ok (<[a := v mod 256]> m) | None => Err Undef end.

Definition fuel_of (m : mem) : nat := S (size m).

(** A [char] is signed: the value C computes with. *)
Definition schar (b : Z) : Z := if b <? 128 then b else b - 256.

(** ** Contents *)

Definition byte_ok (b : Z) : Prop := 0 ≤ b < 256.

(** The bytes [l] are in memory from [p] on. *)
Definition bytes_at (m : mem) (p : Z) (l : list Z) : Prop :=
  ∀ i b, l !! i = Some b → m !! (p + Z.of_nat i) = Some b.

(** The C string [s] is in memory at [p]. *)
Definition str_at (m : mem) (p : Z) (s : list Z) : Prop :=
  bytes_at m p (s ++ [0]) ∧ Forall (λ b, 0 < b < 256) s.

(** [n] bytes are mapped from [p] on. *)
Definition mapped (m : mem) (p : Z) (n : nat) : Prop :=
  ∀ i, (i < n)%nat → is_Some (m !! (p + Z.of_nat i)).

(** The memory after [l] was written from [p] on. *)
Fixpoint put (m : mem) (p : Z) (l : list Z) : mem :=
  match l with [] => m | b :: l => put (<[p := b mod 256]> m) (p + 1) l end.

Definition read (m : mem) (p : Z) (n : nat) : list Z :=
  (λ i, default 0 (m !! (p + Z.of_nat i))) <$> seq 0 n.

Lemma ldb_Ok m a b : ldb m a = Ok b ↔ m !! a = Some b.
Proof. unfold ldb. destruct (m !! a); naive_solver. Qed.

Lemma stb_Ok m a v : is_Some (m !! a) → stb m a v = Ok (<[a := v mod 256]> m).
Proof. intros [x Hx]. unfold stb. by rewrite Hx. Qed.

Lemma bytes_at_cons m p b l : bytes_at m p (b :: l) ↔ m !! p = Some b ∧ bytes_at m (p + 1) l.
Proof.
  split.
  - intros H. split; [rewrite <-(Z.add_0_r p); by apply (H O)|]. intros i x Hi.
    replace (p + 1 + Z.of_nat i) with (p + Z.of_nat (S i)) by lia. by apply H.
  - intros [Hp H] [|i] x Hi; cbn in Hi.
    + simplify_eq. by rewrite Z.add_0_r.
    + replace (p + Z.of_nat (S i)) with (p + 1 + Z.of_nat i) by lia. by apply H.
Qed.

Lemma bytes_at_app m p l k :
  bytes_at m p (l ++ k) ↔ bytes_at m p l ∧ bytes_at m (p + zlen l) k.
Proof.
  revert p. induction l as [|b l IH]; intros p.
  - cbn. rewrite Z.add_0_r. split; [|naive_solver]. intros H. split; [|done]. by intros [|i] x.
  - rewrite <-app_comm_cons, !bytes_at_cons, IH. unfold zlen. cbn [length].
    replace (p + 1 + Z.of_nat (length l)) with (p + Z.of_nat (S (length l))) by lia. tauto.
Qed.

Lemma str_at_cons m p b s : str_at m p (b :: s) ↔ m !! p = Some b ∧ 0 < b < 256 ∧ str_at m (p + 1) s.
Proof. unfold str_at. rewrite <-app_comm_cons, bytes_at_cons, Forall_cons. tauto. Qed.

Lemma str_at_nil m p : str_at m p [] ↔ m !! p = Some 0.
Proof.
  unfold str_at. cbn. rewrite bytes_at_cons. split; [tauto|]. intros H.
  split; [|constructor]. split; [done|]. by intros [|i] x.
Qed.

Lemma bytes_mapped m p l : bytes_at m p l → mapped m p (length l).
Proof. intros H i Hi. destruct (lookup_lt_is_Some_2 l i Hi) as [b Hb]. rewrite (H i b Hb). eauto. Qed.

(** The loops have the fuel they need. *)
Lemma mapped_size m p n : mapped m p n → (n < fuel_of m)%nat.
Proof.
  intros H. unfold fuel_of. apply le_n_S.
  rewrite <-(size_dom m (D := gset Z)).
  assert (list_to_set ((λ i, p + Z.of_nat i) <$> seq 0 n) ⊆ dom m) as Hs%subseteq_size.
  { intros a Ha%elem_of_list_to_set. apply list_elem_of_fmap in Ha as (i & -> & Hi%elem_of_seq).
    apply elem_of_dom, H. lia. }
  rewrite size_list_to_set in Hs.
  - by rewrite length_fmap, length_seq in Hs.
  - apply NoDup_fmap_2_strong; [|apply NoDup_seq]. intros x y _ _. lia.
Qed.

Lemma put_lookup m p l a :
  put m p l !! a =
  if decide (p ≤ a < p + zlen l) then (λ b, b mod 256) <$> (l !! Z.to_nat (a - p)) else m !! a.
Proof.
  revert m p. induction l as [|b l IH]; intros m p; cbn [put].
  - rewrite decide_False by (unfold zlen; cbn; lia). done.
  - rewrite IH. unfold zlen in *. cbn [length]. destruct (decide (a = p)) as [->|Hap].
    + rewrite decide_False by lia. rewrite decide_True by lia.
      rewrite lookup_insert_eq. by replace (Z.to_nat (p - p)) with O by lia.
    + rewrite lookup_insert_ne by done. destruct (decide (p + 1 ≤ a < p + 1 + Z.of_nat (length l))).
      * rewrite decide_True by lia.
        by replace (Z.to_nat (a - p)) with (S (Z.to_nat (a - (p + 1)))) by lia.
      * by rewrite decide_False by lia.
Qed.

Lemma put_app m p l k : put m p (l ++ k) = put (put m p l) (p + zlen l) k.
Proof.
  revert m p. induction l as [|b l IH]; intros m p; cbn [app put].
  - by rewrite Z.add_0_r.
  - rewrite IH. f_equal. unfold zlen. cbn [length]. lia.
Qed.

Lemma put_mapped m p l q n : mapped m q n → mapped (put m p l) q n.
Proof.
  intros H i Hi. rewrite put_lookup. case_decide as Hd; [|by apply H].
  apply fmap_is_Some. apply lookup_lt_is_Some_2. unfold zlen in Hd. lia.
Qed.

Lemma put_bytes m p l : Forall byte_ok l → bytes_at (put m p l) p l.
Proof.
  intros Hl i b Hi. rewrite put_lookup. pose proof (lookup_lt_Some _ _ _ Hi).
  rewrite decide_True by (unfold zlen; lia).
  replace (Z.to_nat (p + Z.of_nat i - p)) with i by lia. rewrite Hi. cbn. f_equal.
  apply Z.mod_small. by eapply Forall_lookup_1 in Hl.
Qed.

Lemma read_spec m p l : bytes_at m p l → read m p (length l) = l.
Proof.
  intros H. apply list_eq. intros i. unfold read. rewrite list_lookup_fmap.
  destruct (l !! i) as [b|] eqn:E.
  - rewrite lookup_seq_lt by (by eapply lookup_lt_Some). cbn. by rewrite (H i b E).
  - rewrite lookup_seq_ge; [done|]. by apply lookup_ge_None.
Qed.

(** ** String instructions *)

Record cpu := Cpu { esi : Z; edi : Z; ecx : Z; df : bool }.

(** [esi] and [edi] move by [size] in the direction of the flag. *)
Definition advance (size : Z) (c : cpu) : cpu :=
  let d := if df c then - size else size in Cpu (esi c + d) (edi c + d) (ecx c) (df c).

Definition movsb (m : mem) (c : cpu) : outcome (mem * cpu) :=
  b ← ldb m (esi c); m ← stb m (edi c) b; Ok (m, advance 1 c).

(** Four bytes are read before four bytes are written. *)
Definition movsl (m : mem) (c : cpu) : outcome (mem * cpu) :=
  b0 ← ldb m (esi c); b1 ← ldb m (esi c + 1); b2 ← ldb m (esi c + 2); b3 ← ldb m (esi c + 3);
  m ← stb m (edi c) b0; m ← stb m (edi c + 1) b1; m ← stb m (edi c + 2) b2;
  m ← stb m (edi c + 3) b3;
  Ok (m, advance 4 c).

Definition stosb (al : Z) (m : mem) (c : cpu) : outcome (mem * cpu) :=
  m ← stb m (edi c) al;
  let d := if df c then - 1 else 1 in Ok (m, Cpu (esi c) (edi c + d) (ecx c) (df c)).

(** [rep; op]: [ecx] times, [ecx] being 0 afterwards. *)
Fixpoint rep_n (n : nat) (op : mem → cpu → outcome (mem * cpu)) (m : mem) (c : cpu)
  : outcome (mem * cpu) :=
  match n with
  | O => Ok (m, c)
  | S n =>
      r ← op m c;
      rep_n n op r.1 (Cpu (esi r.2) (edi r.2) (ecx r.2 - 1) (df r.2))
  end.

Definition rep (op : mem → cpu → outcome (mem * cpu)) (m : mem) (c : cpu)
  : outcome (mem * cpu) := rep_n (Z.to_nat (ecx c)) op m c.

(** ** Forward and backward copies *)

Lemma bytes_at_put m p l q k :
  bytes_at m p l → q + zlen k ≤ p ∨ p + zlen l ≤ q → bytes_at (put m q k) p l.
Proof.
  intros H Hd i b Hi. rewrite put_lookup. pose proof (lookup_lt_Some _ _ _ Hi).
  unfold zlen in Hd. case_decide as Hr; [unfold zlen in Hr; lia|]. by apply H.
Qed.

Lemma mapped_S m p n : mapped m p (S n) ↔ is_Some (m !! p) ∧ mapped m (p + 1) n.
Proof.
  split.
  - intros H. split; [rewrite <-(Z.add_0_r p); apply (H O); lia|]. intros i Hi.
    replace (p + 1 + Z.of_nat i) with (p + Z.of_nat (S i)) by lia. apply H. lia.
  - intros [H0 H] [|i] Hi; [by rewrite Z.add_0_r|].
    replace (p + Z.of_nat (S i)) with (p + 1 + Z.of_nat i) by lia. apply H. lia.
Qed.

(** Where a copy in increasing order is right: the destination does not start
    inside the rest of the source. *)
Definition forward_ok (dst src n : Z) : Prop := dst ≤ src ∨ src + n ≤ dst ∨ n ≤ 0.

Lemma copy_step m dst src b l :
  bytes_at m src (b :: l) → mapped m dst (S (length l)) → forward_ok dst src (zlen (b :: l)) →
  let m' := <[dst := b mod 256]> m in
  ldb m src = Ok b ∧ stb m dst b = Ok m' ∧
  bytes_at m' (src + 1) l ∧ mapped m' (dst + 1) (length l) ∧ forward_ok (dst + 1) (src + 1) (zlen l).
Proof.
  intros [Hb Hl]%bytes_at_cons [Hd Hm]%mapped_S Hf. unfold forward_ok, zlen in Hf. cbn [length] in Hf.
  split; [by apply ldb_Ok|]. split; [by apply stb_Ok|]. split_and!.
  - apply (bytes_at_put m (src + 1) l dst [b] Hl). unfold zlen. cbn. lia.
  - by apply (put_mapped m dst [b]).
  - unfold forward_ok, zlen. lia.
Qed.

Lemma rep_movsb_forward l : ∀ m dst src c,
  bytes_at m src l → mapped m dst (length l) → forward_ok dst src (zlen l) →
  rep_n (length l) movsb m (Cpu src dst c false) =
    Ok (put m dst l, Cpu (src + zlen l) (dst + zlen l) (c - zlen l) false).
Proof.
  induction l as [|b l IH]; intros m dst src c Hb Hm Hf.
  - cbn. by rewrite !Z.add_0_r, Z.sub_0_r.
  - destruct (copy_step m dst src b l Hb Hm Hf) as (Hld & Hst & Hb' & Hm' & Hf').
    cbn [length rep_n]. unfold movsb at 2. cbn [esi edi]. rewrite Hld. cbn [mbind outcome_bind].
    rewrite Hst. cbn [mbind outcome_bind fst snd advance esi edi ecx df].
    rewrite (IH _ (dst + 1) (src + 1)) by done. cbn [put]. unfold zlen. cbn [length].
    do 3 f_equal; lia.
Qed.

Lemma rep_movsl_forward n : ∀ l m dst src c,
  length l = (4 * n)%nat →
  bytes_at m src l → mapped m dst (length l) → forward_ok dst src (zlen l) →
  rep_n n movsl m (Cpu src dst c false) =
    Ok (put m dst l, Cpu (src + zlen l) (dst + zlen l) (c - Z.of_nat n) false).
Proof.
  induction n as [|n IH]; intros l m dst src c Hl Hb Hm Hf.
  - destruct l; [|done]. cbn. by rewrite !Z.add_0_r, Z.sub_0_r.
  - do 4 (destruct l as [|? l]; [cbn in Hl; lia|]). rename z into b0, z0 into b1, z1 into b2, z2 into b3.
    pose proof Hb as (H0 & (H1 & (H2 & (H3 & Hb')%bytes_at_cons)%bytes_at_cons)%bytes_at_cons)%bytes_at_cons.
    cbn [length] in Hm. pose proof Hm as (M0 & (M1 & (M2 & (M3 & Hm')%mapped_S)%mapped_S)%mapped_S)%mapped_S.
    replace (src + 1 + 1) with (src + 2) in * by lia. replace (src + 2 + 1) with (src + 3) in * by lia.
    replace (dst + 1 + 1) with (dst + 2) in * by lia. replace (dst + 2 + 1) with (dst + 3) in * by lia.
    cbn [rep_n]. unfold movsl at 2. cbn [esi edi]. unfold ldb. rewrite H0, H1, H2, H3.
    cbn [of_option mbind outcome_bind].
    rewrite stb_Ok by done. cbn [mbind outcome_bind].
    rewrite stb_Ok by (rewrite lookup_insert_ne by lia; done). cbn [mbind outcome_bind].
    rewrite stb_Ok by (rewrite !lookup_insert_ne by lia; done). cbn [mbind outcome_bind].
    rewrite stb_Ok by (rewrite !lookup_insert_ne by lia; done).
    cbn [mbind outcome_bind fst snd advance esi edi ecx df].
    assert (<[dst + 3:=b3 mod 256]> (<[dst + 2:=b2 mod 256]> (<[dst + 1:=b1 mod 256]>
      (<[dst:=b0 mod 256]> m))) = put m dst [b0; b1; b2; b3]) as ->.
    { cbn [put]. by replace (dst + 1 + 1) with (dst + 2) by lia; replace (dst + 2 + 1) with (dst + 3) by lia. }
    unfold forward_ok, zlen in Hf. cbn [length] in Hf, Hl.
    rewrite (IH l).
    + change (b0 :: b1 :: b2 :: b3 :: l) with ([b0; b1; b2; b3] ++ l).
      rewrite put_app, zlen_app. change (zlen [b0; b1; b2; b3]) with 4. do 3 f_equal; lia.
    + lia.
    + apply bytes_at_put; [by replace (src + 4) with (src + 3 + 1) by lia|]. unfold zlen. cbn. lia.
    + apply put_mapped. by replace (dst + 4) with (dst + 3 + 1) by lia.
    + unfold forward_ok, zlen. lia.
Qed.

Lemma put_snoc m p l b : put m p (l ++ [b]) = <[p + zlen l := b mod 256]> (put m p l).
Proof. by rewrite put_app. Qed.

Lemma put_insert_comm m p l a v :
  ¬ (p ≤ a < p + zlen l) → put (<[a := v]> m) p l = <[a := v]> (put m p l).
Proof.
  intros Ha. apply map_eq. intros x. destruct (decide (x = a)) as [->|Hx].
  - rewrite put_lookup, decide_False by done. by rewrite !lookup_insert_eq.
  - rewrite lookup_insert_ne by done. rewrite !put_lookup.
    case_decide; [done|]. by rewrite lookup_insert_ne.
Qed.

Lemma bytes_at_snoc m p l b : bytes_at m p (l ++ [b]) → bytes_at m p l ∧ m !! (p + zlen l) = Some b.
Proof. rewrite bytes_at_app. intros [H1 H2]. split; [done|]. by apply bytes_at_cons in H2 as [? _]. Qed.

(** One byte of a copy in decreasing order. *)
Lemma copy_step_back m dst src b l :
  bytes_at m src (l ++ [b]) → mapped m dst (S (length l)) → src ≤ dst ∨ dst + zlen l < src →
  let m' := <[dst + zlen l := b mod 256]> m in
  ldb m (src + zlen l) = Ok b ∧ stb m (dst + zlen l) b = Ok m' ∧
  bytes_at m' src l ∧ mapped m' dst (length l) ∧
  put m' dst l = put m dst (l ++ [b]).
Proof.
  intros [Hl Hb]%bytes_at_snoc Hm Hf. split; [by apply ldb_Ok|]. split.
  { apply stb_Ok. apply Hm. lia. }
  split_and!.
  - apply (bytes_at_put m src l (dst + zlen l) [b] Hl). unfold zlen in *. cbn. lia.
  - apply (put_mapped m (dst + zlen l) [b]). intros i Hi. apply Hm. lia.
  - rewrite put_snoc, put_insert_comm; [done|]. lia.
Qed.

Lemma rep_movsb_backward l : ∀ m dst src c,
  bytes_at m src l → mapped m dst (length l) → src ≤ dst →
  rep_n (length l) movsb m (Cpu (zlen l - 1 + src) (zlen l - 1 + dst) c true) =
    Ok (put m dst l, Cpu (src - 1) (dst - 1) (c - zlen l) true).
Proof.
  induction l as [|b l IH] using rev_ind; intros m dst src c Hb Hm Hf.
  - cbn. change (zlen []) with 0. do 2 f_equal; f_equal; lia.
  - rewrite length_app in Hm |- *. cbn [length] in Hm |- *. rewrite Nat.add_1_r in Hm |- *.
    destruct (copy_step_back m dst src b l Hb Hm (or_introl Hf)) as (Hld & Hst & Hb' & Hm' & Hput).
    rewrite zlen_app. change (zlen [b]) with 1. cbn [rep_n]. unfold movsb at 2. cbn [esi edi].
    replace (zlen l + 1 - 1 + src) with (src + zlen l) by lia.
    replace (zlen l + 1 - 1 + dst) with (dst + zlen l) by lia.
    rewrite Hld. cbn [mbind outcome_bind]. rewrite Hst.
    cbn [mbind outcome_bind fst snd advance esi edi ecx df].
    replace (src + zlen l + - (1)) with (zlen l - 1 + src) by lia.
    replace (dst + zlen l + - (1)) with (zlen l - 1 + dst) by lia.
    rewrite IH by done. rewrite Hput. do 2 f_equal; f_equal; lia.
Qed.

Lemma rep_stosb b n : ∀ m s c,
  mapped m s n → rep_n n (stosb b) m (Cpu 0 s c false) =
    Ok (put m s (replicate n b), Cpu 0 (s + Z.of_nat n) (c - Z.of_nat n) false).
Proof.
  induction n as [|n IH]; intros m s c Hm; cbn [rep_n replicate put].
  - by rewrite Z.add_0_r, Z.sub_0_r.
  - apply mapped_S in Hm as [H0 Hm]. unfold stosb at 2. cbn [edi esi ecx df].
    rewrite stb_Ok by done. cbn [mbind outcome_bind fst snd edi esi ecx df].
    rewrite IH by (by apply (put_mapped m s [b])). do 2 f_equal; f_equal; lia.
Qed.
