(* ===== verification/CString.v ===== *)
(** * libs/string.c and the string functions of libs/x86.h

    Models every function of src/Labweek11/lab2/libs/string.c (the copy under
    Labweek1/lab1 is the same code), and the inline assembler of libs/x86.h
    that replaces [strcmp], [strcpy], [memset], [memmove] and [memcpy]
    ([__strcmp], ...; the portable loops of string.c are [strcmp], ...).

    The theorems: the assembler [__memmove] is correct for every overlap;
    [__strcmp] is the sign of [strcmp], which orders strings; lengths, copies
    and searches of C strings; [strtol] computes the value of the digits. *)

From stdpp Require Import base gmap list numbers sets.
From S2P Require Import Prelude Mem.

Definition NULL : Z := 0.

(** ** Lengths *)

Definition strlen (m : mem) (s : Z) : outcome Z :=
  loop (fuel_of m)
    (λ st, let '(s, cnt) := st in
       b ← ldb m s; Ok (if b =? 0 then inr cnt else inl (s + 1, cnt + 1))) (s, 0).

Definition strnlen (m : mem) (s len : Z) : outcome Z :=
  loop (fuel_of m)
    (λ st, let '(s, cnt) := st in
       if cnt <? len then b ← ldb m s; Ok (if b =? 0 then inr cnt else inl (s + 1, cnt + 1))
       else Ok (inr cnt)) (s, 0).

(** ** Copies *)

Definition strcpy (m : mem) (dst src : Z) : outcome mem :=
  loop (fuel_of m)
    (λ st, let '(m, p, src) := st in
       b ← ldb m src; m ← stb m p b;
       Ok (if b =? 0 then inr m else inl (m, p + 1, src + 1))) (m, dst, src).

(** "1: lodsb; stosb; testb %al, %al; jne 1b" *)
Definition __strcpy (m : mem) (dst src : Z) : outcome mem :=
  loop (fuel_of m)
    (λ st, let '(m, c) := st in
       al ← ldb m (esi c);
       let c := Cpu (esi c + 1) (edi c) (ecx c) (df c) in
       r ← stosb al m c;
       Ok (if al =? 0 then inr r.1 else inl r)) (m, Cpu src dst 0 false).

Definition strncpy (m : mem) (dst src len : Z) : outcome mem :=
  loop (S (Z.to_nat len))
    (λ st, let '(m, p, src, len) := st in
       if 0 <? len then
         b ← ldb m src; m ← stb m p b;
         Ok (inl (m, p + 1, (if b =? 0 then src else src + 1), len - 1))
       else Ok (inr m)) (m, dst, src, len).

(** ** Comparisons *)

Definition strcmp (m : mem) (s1 s2 : Z) : outcome Z :=
  loop (fuel_of m)
    (λ st, let '(s1, s2) := st in
       a ← ldb m s1;
       if a =? 0 then b ← ldb m s2; Ok (inr (a - b))
       else b ← ldb m s2;
         Ok (if a =? b then inl (s1 + 1, s2 + 1) else inr (a - b))) (s1, s2).

(** "1: lodsb; scasb; jne 2f; testb %al, %al; jne 1b; xorl %eax, %eax; jmp 3f;
    2: sbbl %eax, %eax; orb $1, %al; 3:": [scasb] sets the carry flag when [al]
    is below the byte at [edi]; [sbbl] makes [eax] 0 or all ones. *)
Definition __strcmp (m : mem) (s1 s2 : Z) : outcome Z :=
  loop (fuel_of m)
    (λ st, let '(s1, s2) := st in
       al ← ldb m s1;
       b ← ldb m s2;
       let cf := al <? b in
       if al =? b then
         Ok (if al =? 0 then inr (Z.lxor al al) else inl (s1 + 1, s2 + 1))
       else
         let eax := if cf then 2 ^ 32 - 1 else 0 in
         Ok (inr (s32 (Z.lor eax 1)))) (s1, s2).

Definition strncmp (m : mem) (s1 s2 n : Z) : outcome Z :=
  loop (fuel_of m)
    (λ st, let '(s1, s2, n) := st in
       if n =? 0 then Ok (inr 0)
       else
         a ← ldb m s1;
         if a =? 0 then b ← ldb m s2; Ok (inr (a - b))
         else b ← ldb m s2;
           Ok (if a =? b then inl (s1 + 1, s2 + 1, n - 1) else inr (a - b))) (s1, s2, n).

Definition memcmp (m : mem) (v1 v2 n : Z) : outcome Z :=
  loop (S (Z.to_nat n))
    (λ st, let '(s1, s2, n) := st in
       if 0 <? n then
         a ← ldb m s1; b ← ldb m s2;
         Ok (if a =? b then inl (s1 + 1, s2 + 1, n - 1) else inr (a - b))
       else Ok (inr 0)) (v1, v2, n).

(** ** Searches *)

Definition strchr (m : mem) (s c : Z) : outcome Z :=
  loop (fuel_of m)
    (λ s, b ← ldb m s;
       Ok (if b =? 0 then inr NULL else if schar b =? c then inr s else inl (s + 1))) s.

Definition strfind (m : mem) (s c : Z) : outcome Z :=
  loop (fuel_of m)
    (λ s, b ← ldb m s;
       Ok (if b =? 0 then inr s else if schar b =? c then inr s else inl (s + 1))) s.

(** ** Memory blocks *)

Definition memset (m : mem) (s c n : Z) : outcome mem :=
  loop (S (Z.to_nat n))
    (λ st, let '(m, p, n) := st in
       if 0 <? n then m ← stb m p c; Ok (inl (m, p + 1, n - 1)) else Ok (inr m)) (m, s, n).

(** "rep; stosb" *)
Definition __memset (m : mem) (s c n : Z) : outcome mem :=
  r ← rep (stosb c) m (Cpu 0 s n false); Ok r.1.

Definition memcpy (m : mem) (dst src n : Z) : outcome mem :=
  loop (S (Z.to_nat n))
    (λ st, let '(m, d, s, n) := st in
       if 0 <? n then b ← ldb m s; m ← stb m d b; Ok (inl (m, d + 1, s + 1, n - 1))
       else Ok (inr m)) (m, dst, src, n).

(** "rep; movsl; movl %4, %ecx; andl $3, %ecx; jz 1f; rep; movsb; 1:" *)
Definition __memcpy (m : mem) (dst src n : Z) : outcome mem :=
  r ← rep movsl m (Cpu src dst (n / 4) false);
  let '(m, c) := r in
  let ecx := Z.land n 3 in
  if ecx =? 0 then Ok m
  else r ← rep movsb m (Cpu (esi c) (edi c) ecx (df c)); Ok r.1.

Definition memmove (m : mem) (dst src n : Z) : outcome mem :=
  if (src <? dst) && (dst <? src + n) then
    loop (S (Z.to_nat n))
      (λ st, let '(m, d, s, n) := st in
         if 0 <? n then b ← ldb m (s - 1); m ← stb m (d - 1) b; Ok (inl (m, d - 1, s - 1, n - 1))
         else Ok (inr m)) (m, dst + n, src + n, n)
  else memcpy m dst src n.

(** "std; rep; movsb; cld" from the last byte, when [dst] is not below [src]. *)
Definition __memmove (m : mem) (dst src n : Z) : outcome mem :=
  if dst <? src then __memcpy m dst src n
  else r ← rep movsb m (Cpu (n - 1 + src) (n - 1 + dst) n true); Ok r.1.

(** ** Numbers *)

(** The value of a character as a digit. *)
Definition digit (c : Z) : option Z :=
  let c := schar c in
  if (48 <=? c) && (c <=? 57) then Some (c - 48)
  else if (97 <=? c) && (c <=? 122) then Some (c - 97 + 10)
  else if (65 <=? c) && (c <=? 90) then Some (c - 65 + 10)
  else None.

(** The [while (1)] over the digits. *)
Definition digits_loop (m : mem) (s base : Z) : outcome (Z * Z) :=
  loop (fuel_of m)
    (λ st, let '(s, val) := st in
       b ← ldb m s;
       match digit b with
       | None => Ok (inr (s, val))
       | Some dig =>
           if base <=? dig then Ok (inr (s, val))
           else v ← cint (val * base); v ← cint (v + dig); Ok (inl (s + 1, v))
       end) (s, 0).

(** The value and [*endptr]. *)
Definition strtol (m : mem) (s base : Z) : outcome (Z * Z) :=
  s ← loop (fuel_of m)
        (λ s, b ← ldb m s; Ok (if (b =? 32) || (b =? 9) then inl (s + 1) else inr s)) s;
  b ← ldb m s;
  let '(s, neg) := if b =? 43 then (s + 1, false) else if b =? 45 then (s + 1, true) else (s, false) in
  b ← ldb m s;
  hex ← (if ((base =? 0) || (base =? 16)) && (b =? 48) then b1 ← ldb m (s + 1); Ok (b1 =? 120)
         else Ok false);
  let '(s, base) :=
    if hex : bool then (s + 2, 16)
    else if (base =? 0) && (b =? 48) then (s + 1, 8)
    else if base =? 0 then (s, 10)
    else (s, base) in
  r ← digits_loop m s base;
  v ← (if neg then cint (- r.2) else Ok r.2);
  Ok (v, r.1).

(** ** Blocks *)

Lemma __memcpy_spec m dst src l :
  bytes_at m src l → mapped m dst (length l) → forward_ok dst src (zlen l) →
  __memcpy m dst src (zlen l) = Ok (put m dst l).
Proof.
  intros Hb Hm Hf. unfold __memcpy, rep. cbn [ecx].
  set (n := (length l / 4)%nat).
  assert (zlen l / 4 = Z.of_nat n) as Hdiv by (unfold zlen, n; by rewrite Nat2Z.inj_div).
  assert (Z.land (zlen l) 3 = Z.of_nat (length l mod 4)) as Hland.
  { change 3 with (Z.ones 2). rewrite Z.land_ones by lia. unfold zlen. by rewrite Nat2Z.inj_mod. }
  pose proof (Nat.div_mod_eq (length l) 4) as Hsplit. fold n in Hsplit.
  pose proof (Nat.mod_upper_bound (length l) 4 ltac:(lia)) as Hlt.
  set (l1 := take (4 * n) l). set (l2 := drop (4 * n) l).
  assert (l = l1 ++ l2) as El by (symmetry; apply take_drop).
  assert (length l1 = 4 * n)%nat as Hl1 by (unfold l1; rewrite length_take; lia).
  assert (length l2 = length l mod 4)%nat as Hl2 by (unfold l2; rewrite length_drop; lia).
  rewrite El in Hb. apply bytes_at_app in Hb as [Hb1 Hb2].
  rewrite Hdiv, Nat2Z.id, Hland.
  rewrite (rep_movsl_forward n l1); [|done|done|intros i Hi; apply Hm; lia|
    unfold forward_ok, zlen in *; lia].
  cbn [mbind outcome_bind esi edi df]. destruct (Z.eqb_spec (Z.of_nat (length l mod 4)) 0) as [H0|H0].
  - assert (l2 = []) as E2 by (apply nil_length_inv; lia).
    by rewrite El, E2, app_nil_r.
  - rewrite <-Hl2, Nat2Z.id. unfold zlen. rewrite Hl1.
    rewrite (rep_movsb_forward l2).
    + cbn [mbind outcome_bind fst]. rewrite El, put_app. unfold zlen. by rewrite Hl1.
    + apply bytes_at_put; [unfold zlen in Hb2; by rewrite Hl1 in Hb2|].
      unfold forward_ok, zlen in *. lia.
    + apply put_mapped. intros i Hi.
      replace (dst + Z.of_nat (4 * n) + Z.of_nat i) with (dst + Z.of_nat (4 * n + i)) by lia.
      apply Hm. lia.
    + unfold forward_ok, zlen in *. lia.
Qed.

Lemma memcpy_loop l : ∀ n m dst src,
  bytes_at m src l → mapped m dst (length l) → forward_ok dst src (zlen l) → (length l < n)%nat →
  loop n (λ st, let '(m, d, s, n) := st in
       if 0 <? n then b ← ldb m s; m ← stb m d b; Ok (inl (m, d + 1, s + 1, n - 1))
       else Ok (inr m)) (m, dst, src, zlen l) = Ok (put m dst l).
Proof.
  induction l as [|b l IH]; intros n m dst src Hb Hm Hf Hn; (destruct n as [|n]; [cbn in Hn; lia|]);
    rewrite loop_unfold; [done|].
  destruct (copy_step m dst src b l Hb Hm Hf) as (Hld & Hst & Hb' & Hm' & Hf').
  replace (0 <? zlen (b :: l)) with true by (symmetry; apply Z.ltb_lt; unfold zlen; cbn; lia).
  rewrite Hld. cbn [mbind outcome_bind]. rewrite Hst. cbn [mbind outcome_bind].
  replace (zlen (b :: l) - 1) with (zlen l) by (unfold zlen; cbn [length]; lia).
  cbn [put]. apply IH; try done. cbn in Hn. lia.
Qed.

Lemma memcpy_spec m dst src l :
  bytes_at m src l → mapped m dst (length l) → forward_ok dst src (zlen l) →
  memcpy m dst src (zlen l) = Ok (put m dst l).
Proof. intros Hb Hm Hf. apply memcpy_loop; try done. unfold zlen. lia. Qed.

Lemma memmove_loop l : ∀ n m dst src,
  bytes_at m src l → mapped m dst (length l) → src ≤ dst → (length l < n)%nat →
  loop n (λ st, let '(m, d, s, n) := st in
         if 0 <? n then b ← ldb m (s - 1); m ← stb m (d - 1) b; Ok (inl (m, d - 1, s - 1, n - 1))
         else Ok (inr m)) (m, dst + zlen l, src + zlen l, zlen l) = Ok (put m dst l).
Proof.
  induction l as [|b l IH] using rev_ind; intros n m dst src Hb Hm Hf Hn;
    (destruct n as [|n]; [lia|]); rewrite loop_unfold; [done|].
  rewrite length_app in Hm, Hn. cbn [length] in Hm, Hn. rewrite Nat.add_1_r in Hm.
  destruct (copy_step_back m dst src b l Hb Hm (or_introl Hf)) as (Hld & Hst & Hb' & Hm' & Hput).
  rewrite zlen_app. change (zlen [b]) with 1.
  replace (0 <? zlen l + 1) with true by (symmetry; apply Z.ltb_lt; unfold zlen; lia).
  replace (src + (zlen l + 1) - 1) with (src + zlen l) by lia.
  replace (dst + (zlen l + 1) - 1) with (dst + zlen l) by lia.
  rewrite Hld. cbn [mbind outcome_bind]. rewrite Hst. cbn [mbind outcome_bind].
  replace (zlen l + 1 - 1) with (zlen l) by lia. rewrite <-Hput. apply IH; try done. lia.
Qed.

Lemma memmove_spec m dst src l :
  bytes_at m src l → mapped m dst (length l) → memmove m dst src (zlen l) = Ok (put m dst l).
Proof.
  intros Hb Hm. unfold memmove. destruct (Z.ltb_spec src dst), (Z.ltb_spec dst (src + zlen l)); cbn [andb].
  - apply memmove_loop; try done; [lia|]. unfold zlen. lia.
  - apply memcpy_spec; try done. right. lia.
  - apply memcpy_spec; try done. left. lia.
  - apply memcpy_spec; try done. left. lia.
Qed.

Lemma __memmove_spec m dst src l :
  bytes_at m src l → mapped m dst (length l) → __memmove m dst src (zlen l) = Ok (put m dst l).
Proof.
  intros Hb Hm. unfold __memmove. destruct (Z.ltb_spec dst src).
  - apply __memcpy_spec; try done. left. lia.
  - unfold rep. cbn [ecx]. unfold zlen at 1. rewrite Nat2Z.id.
    by rewrite rep_movsb_backward by done.
Qed.

Lemma memset_loop b n : ∀ k m s,
  mapped m s n → (n < k)%nat →
  loop k (λ st, let '(m, p, n) := st in
       if 0 <? n then m ← stb m p b; Ok (inl (m, p + 1, n - 1)) else Ok (inr m))
    (m, s, Z.of_nat n) = Ok (put m s (replicate n b)).
Proof.
  induction n as [|n IH]; intros k m s Hm Hk; (destruct k as [|k]; [lia|]); rewrite loop_unfold; [done|].
  apply mapped_S in Hm as [H0 Hm].
  replace (0 <? Z.of_nat (S n)) with true by (symmetry; apply Z.ltb_lt; lia).
  rewrite stb_Ok by done. cbn [mbind outcome_bind replicate put].
  replace (Z.of_nat (S n) - 1) with (Z.of_nat n) by lia.
  apply IH; [by apply (put_mapped m s [b])|lia].
Qed.

Lemma memset_spec m s b n :
  mapped m s n → memset m s b (Z.of_nat n) = Ok (put m s (replicate n b)) ∧
    __memset m s b (Z.of_nat n) = Ok (put m s (replicate n b)).
Proof.
  intros Hm. split.
  - apply memset_loop; [done|]. lia.
  - unfold __memset, rep. cbn [ecx]. rewrite Nat2Z.id, rep_stosb by done. done.
Qed.

(** [C11] The assembler [__memmove] ("rep movsl" forwards, "std; rep movsb"
    backwards) moves the block for every overlap of source and destination: the
    destination holds what the source held before, every other byte is
    unchanged.  So does the portable [memmove] it replaces. *)
Theorem memmove_any_overlap m dst src l :
  bytes_at m src l → Forall byte_ok l → mapped m dst (length l) →
  ∃ m', __memmove m dst src (zlen l) = Ok m' ∧ memmove m dst src (zlen l) = Ok m' ∧
    bytes_at m' dst l ∧ ∀ a, ¬ (dst ≤ a < dst + zlen l) → m' !! a = m !! a.
Proof.
  intros Hb Hl Hm. exists (put m dst l).
  rewrite __memmove_spec, memmove_spec by done. split_and!; [done|done|by apply put_bytes|].
  intros a Ha. by rewrite put_lookup, decide_False.
Qed.

(** ** Strings *)

Lemma str_at_end m p s : str_at m p s → m !! (p + zlen s) = Some 0.
Proof. intros [H _]. apply bytes_at_app in H as [_ H]. by apply bytes_at_cons in H as [? _]. Qed.

Lemma str_fuel m p s : str_at m p s → (S (length s) < fuel_of m)%nat.
Proof.
  intros [H _]. apply bytes_mapped, mapped_size in H. rewrite length_app in H. cbn in H. lia.
Qed.

Lemma strlen_loop s : ∀ n m p cnt,
  str_at m p s → (length s < n)%nat →
  loop n (λ st, let '(s, cnt) := st in
       b ← ldb m s; Ok (if b =? 0 then inr cnt else inl (s + 1, cnt + 1))) (p, cnt)
  = Ok (cnt + zlen s).
Proof.
  induction s as [|b s IH]; intros n m p cnt Hs Hn; (destruct n as [|n]; [cbn in Hn; lia|]);
    rewrite loop_unfold.
  - apply str_at_nil in Hs. rewrite (proj2 (ldb_Ok _ _ _) Hs). cbn. f_equal. unfold zlen. cbn. lia.
  - apply str_at_cons in Hs as (Hb & Hr & Hs). rewrite (proj2 (ldb_Ok _ _ _) Hb). cbn [mbind outcome_bind].
    replace (b =? 0) with false by (symmetry; apply Z.eqb_neq; lia).
    rewrite IH by (try done; cbn in Hn; lia). f_equal. unfold zlen. cbn [length]. lia.
Qed.

Lemma strlen_spec m p s : str_at m p s → strlen m p = Ok (zlen s).
Proof.
  intros Hs. unfold strlen. pose proof (str_fuel _ _ _ Hs). by rewrite (strlen_loop s) by (done || lia).
Qed.

Lemma strnlen_loop s len : ∀ n m p cnt,
  str_at m p s → (length s < n)%nat → 0 ≤ cnt ≤ len →
  loop n (λ st, let '(s, cnt) := st in
       if cnt <? len then b ← ldb m s; Ok (if b =? 0 then inr cnt else inl (s + 1, cnt + 1))
       else Ok (inr cnt)) (p, cnt)
  = Ok (Z.min len (cnt + zlen s)).
Proof.
  induction s as [|b s IH]; intros n m p cnt Hs Hn Hc; (destruct n as [|n]; [cbn in Hn; lia|]);
    rewrite loop_unfold; destruct (Z.ltb_spec cnt len) as [Hlt|Hge].
  - apply str_at_nil in Hs. rewrite (proj2 (ldb_Ok _ _ _) Hs). cbn. f_equal. unfold zlen. cbn. lia.
  - cbn. f_equal. unfold zlen. cbn. lia.
  - apply str_at_cons in Hs as (Hb & Hr & Hs). rewrite (proj2 (ldb_Ok _ _ _) Hb). cbn [mbind outcome_bind].
    replace (b =? 0) with false by (symmetry; apply Z.eqb_neq; lia).
    rewrite IH by (try done; cbn in Hn; lia). f_equal. unfold zlen. cbn [length]. lia.
  - cbn [mbind outcome_bind]. f_equal. unfold zlen. cbn [length]. lia.
Qed.

Lemma strnlen_spec m p s len : str_at m p s → 0 ≤ len → strnlen m p len = Ok (Z.min len (zlen s)).
Proof.
  intros Hs Hl. unfold strnlen. pose proof (str_fuel _ _ _ Hs).
  by rewrite (strnlen_loop s) by (done || lia).
Qed.

(** The order of two strings: the difference of the first bytes that differ. *)
Fixpoint cmp_bytes (s t : list Z) : Z :=
  match s, t with
  | [], [] => 0
  | [], b :: _ => - b
  | a :: _, [] => a
  | a :: s, b :: t => if a =? b then cmp_bytes s t else a - b
  end.

Lemma cmp_bytes_eq s t :
  Forall (λ b, 0 < b < 256) s → Forall (λ b, 0 < b < 256) t → cmp_bytes s t = 0 ↔ s = t.
Proof.
  intros Hs. revert t. induction Hs as [|a s Ha Hs IH]; intros t Ht; destruct Ht as [|b t Hb Ht]; cbn.
  - done.
  - split; [lia|done].
  - split; [lia|done].
  - destruct (Z.eqb_spec a b) as [->|Hab]; [rewrite IH by done; naive_solver|].
    split; [lia|]. intros [= ??]. lia.
Qed.

Lemma cmp_bytes_antisym s t : cmp_bytes t s = - cmp_bytes s t.
Proof.
  revert t. induction s as [|a s IH]; intros [|b t]; cbn; [lia..|].
  rewrite (Z.eqb_sym b a). destruct (a =? b); [apply IH|lia].
Qed.

Lemma cmp_loop s : ∀ t n m p q (cmp : Z → Z → Z) (f : Z → Z),
  str_at m p s → str_at m q t → (length s < n)%nat →
  cmp 0 0 = f 0 → (∀ a b, 0 ≤ a < 256 → 0 ≤ b < 256 → a ≠ b → cmp a b = f (a - b)) →
  loop n (λ st, let '(s1, s2) := st in
       a ← ldb m s1; b ← ldb m s2;
       if a =? b then Ok (if a =? 0 then inr (cmp a b) else inl (s1 + 1, s2 + 1))
       else Ok (inr (cmp a b))) (p, q) = Ok (f (cmp_bytes s t)).
Proof.
  induction s as [|a s IH]; intros t n m p q cmp f Hs Ht Hn H0 Hf;
    (destruct n as [|n]; [cbn in Hn; lia|]); rewrite loop_unfold.
  - apply str_at_nil in Hs. rewrite (proj2 (ldb_Ok _ _ _) Hs). cbn [mbind outcome_bind].
    destruct t as [|b t].
    + apply str_at_nil in Ht. rewrite (proj2 (ldb_Ok _ _ _) Ht). cbn. by rewrite H0.
    + apply str_at_cons in Ht as (Hb & Hr & _). rewrite (proj2 (ldb_Ok _ _ _) Hb). cbn [mbind outcome_bind].
      replace (0 =? b) with false by (symmetry; apply Z.eqb_neq; lia).
      cbn [mbind outcome_bind cmp_bytes]. rewrite Hf by lia. do 2 f_equal.
  - apply str_at_cons in Hs as (Ha & Hra & Hs). rewrite (proj2 (ldb_Ok _ _ _) Ha).
    cbn [mbind outcome_bind]. destruct t as [|b t].
    + apply str_at_nil in Ht. rewrite (proj2 (ldb_Ok _ _ _) Ht). cbn [mbind outcome_bind].
      replace (a =? 0) with false by (symmetry; apply Z.eqb_neq; lia).
      cbn [mbind outcome_bind cmp_bytes]. rewrite Hf by lia. do 2 f_equal. lia.
    + apply str_at_cons in Ht as (Hb & Hrb & Ht). rewrite (proj2 (ldb_Ok _ _ _) Hb).
      cbn [mbind outcome_bind cmp_bytes]. destruct (Z.eqb_spec a b) as [->|Hab].
      * replace (b =? 0) with false by (symmetry; apply Z.eqb_neq; lia). cbn [mbind outcome_bind].
        apply (IH t n m (p + 1) (q + 1) cmp f); try done. cbn in Hn. lia.
      * cbn [mbind outcome_bind]. rewrite Hf by lia. done.
Qed.

(** The two comparing loops are the same loop with another result. *)
Lemma loop_ext {S R} n (f g : S → outcome (S + R)) s :
  (∀ s, f s = g s) → loop n f s = loop n g s.
Proof.
  intros Hfg. revert s. induction n as [|n IH]; intros s; [done|]. rewrite !loop_unfold, Hfg.
  destruct (g s) as [[s'|r]|]; cbn; [apply IH|done|done].
Qed.

Lemma strcmp_spec m p q s t :
  str_at m p s → str_at m q t → strcmp m p q = Ok (cmp_bytes s t).
Proof.
  intros Hs Ht. pose proof (str_fuel _ _ _ Hs). unfold strcmp.
  etrans; [|apply (cmp_loop s t (fuel_of m) m p q Z.sub (λ x, x)); (done || lia)].
  apply loop_ext. intros [s1 s2]. destruct (ldb m s1) as [a|]; cbn; [|done].
  destruct (ldb m s2) as [b|]; cbn; [|by destruct (a =? 0)].
  destruct (Z.eqb_spec a b) as [<-|]; cbn; destruct (Z.eqb_spec a 0) as [->|]; done.
Qed.

Lemma __strcmp_spec m p q s t :
  str_at m p s → str_at m q t → __strcmp m p q = Ok (Z.sgn (cmp_bytes s t)).
Proof.
  intros Hs Ht. pose proof (str_fuel _ _ _ Hs). unfold __strcmp.
  rewrite <-(cmp_loop s t (fuel_of m) m p q
    (λ a b, if a =? b then 0 else if a <? b then -1 else 1) Z.sgn); [| done|done|lia|done|].
  - apply loop_ext. intros [s1 s2]. destruct (ldb m s1) as [a|]; cbn; [|done].
    destruct (ldb m s2) as [b|]; cbn; [|done]. destruct (Z.eqb_spec a b) as [->|].
    + rewrite Z.lxor_nilpotent. by destruct (b =? 0).
    + by destruct (a <? b).
  - intros a b Ha Hb Hab. rewrite (proj2 (Z.eqb_neq a b) Hab).
    destruct (Z.ltb_spec a b); [rewrite Z.sgn_neg; lia|rewrite Z.sgn_pos; lia].
Qed.

(** [strcmp] orders C strings by their bytes, and the assembler
    [__strcmp] that replaces it answers the sign of the same difference: 0
    exactly for equal strings, and the order is antisymmetric. *)
Lemma strcmp_order m p q s t :
  str_at m p s → str_at m q t →
  strcmp m p q = Ok (cmp_bytes s t) ∧ __strcmp m p q = Ok (Z.sgn (cmp_bytes s t)) ∧
  strcmp m q p = Ok (- cmp_bytes s t) ∧ (strcmp m p q = Ok 0 ↔ s = t).
Proof.
  intros Hs Ht. rewrite (strcmp_spec m q p t s), (cmp_bytes_antisym s t) by done.
  rewrite (strcmp_spec m p q s t), (__strcmp_spec m p q s t) by done.
  split; [done|]. split; [done|]. split; [done|].
  rewrite <-(cmp_bytes_eq s t (proj2 Hs) (proj2 Ht)). split; [by intros [= ?]|by intros ->].
Qed.

(** *** Copies of strings *)

Lemma copy_str_step m dst src b s :
  bytes_at m src (b :: s) → mapped m dst (S (length s)) → forward_ok dst src (zlen (b :: s)) →
  ldb m src = Ok b ∧ stb m dst b = Ok (<[dst := b mod 256]> m) ∧
  bytes_at (<[dst := b mod 256]> m) (src + 1) s ∧
  mapped (<[dst := b mod 256]> m) (dst + 1) (length s) ∧ forward_ok (dst + 1) (src + 1) (zlen s).
Proof. apply copy_step. Qed.

Lemma strcpy_loop s : ∀ n m dst src,
  bytes_at m src (s ++ [0]) → Forall (λ b, 0 < b < 256) s → mapped m dst (length (s ++ [0])) →
  forward_ok dst src (zlen (s ++ [0])) → (length s < n)%nat →
  loop n (λ st, let '(m, p, src) := st in
       b ← ldb m src; m ← stb m p b;
       Ok (if b =? 0 then inr m else inl (m, p + 1, src + 1))) (m, dst, src)
  = Ok (put m dst (s ++ [0])).
Proof.
  induction s as [|b s IH]; intros n m dst src Hb Hs Hm Hf Hn; (destruct n as [|n]; [lia|]);
    rewrite loop_unfold; (destruct (copy_step _ _ _ _ _ Hb Hm Hf) as (Hld & Hst & Hb' & Hm' & Hf'));
    rewrite Hld; cbn [mbind outcome_bind]; rewrite Hst; cbn [mbind outcome_bind].
  - done.
  - inversion Hs; subst. replace (b =? 0) with false by (symmetry; apply Z.eqb_neq; lia).
    cbn [app put]. apply IH; try done. cbn in Hn. lia.
Qed.

Lemma __strcpy_loop s : ∀ n m dst src,
  bytes_at m src (s ++ [0]) → Forall (λ b, 0 < b < 256) s → mapped m dst (length (s ++ [0])) →
  forward_ok dst src (zlen (s ++ [0])) → (length s < n)%nat →
  loop n (λ st, let '(m, c) := st in
       al ← ldb m (esi c);
       let c := Cpu (esi c + 1) (edi c) (ecx c) (df c) in
       r ← stosb al m c;
       Ok (if al =? 0 then inr r.1 else inl r)) (m, Cpu src dst 0 false)
  = Ok (put m dst (s ++ [0])).
Proof.
  induction s as [|b s IH]; intros n m dst src Hb Hs Hm Hf Hn; (destruct n as [|n]; [lia|]);
    rewrite loop_unfold; (destruct (copy_step _ _ _ _ _ Hb Hm Hf) as (Hld & Hst & Hb' & Hm' & Hf'));
    cbn [esi edi ecx df]; rewrite Hld; cbn [mbind outcome_bind]; unfold stosb at 2;
    cbn [esi edi ecx df]; rewrite Hst; cbn [mbind outcome_bind fst].
  - done.
  - inversion Hs; subst. replace (b =? 0) with false by (symmetry; apply Z.eqb_neq; lia).
    cbn [app put]. apply IH; try done. cbn in Hn. lia.
Qed.

(** [strcpy] and the assembler [__strcpy] copy the string with its
    terminator into any mapped destination that does not start inside it, and
    change no other byte; the copy then has the length of the original. *)
Lemma strcpy_copies m dst src s :
  str_at m src s → mapped m dst (length (s ++ [0])) → forward_ok dst src (zlen (s ++ [0])) →
  ∃ m', strcpy m dst src = Ok m' ∧ __strcpy m dst src = Ok m' ∧ str_at m' dst s ∧
    strlen m' dst = strlen m src ∧
    ∀ a, ¬ (dst ≤ a < dst + zlen s + 1) → m' !! a = m !! a.
Proof.
  intros Hs Hm Hf. pose proof (str_fuel _ _ _ Hs). destruct Hs as [Hb Hr].
  exists (put m dst (s ++ [0])). unfold strcpy, __strcpy.
  rewrite (strcpy_loop s), (__strcpy_loop s) by (done || lia).
  assert (str_at (put m dst (s ++ [0])) dst s) as Hs'.
  { split; [|done]. apply put_bytes. apply Forall_app. split; [|by apply Forall_singleton].
    eapply Forall_impl; [exact Hr|]. unfold byte_ok. cbn. lia. }
  split_and!; [done|done|done| |].
  - rewrite !(strlen_spec _ _ s); done.
  - intros a Ha. rewrite put_lookup, decide_False; [done|].
    rewrite zlen_app. change (zlen [0]) with 1. lia.
Qed.

(** *** Searches *)

(** The index of the first byte that is the character [c]. *)
Fixpoint index_of (c : Z) (s : list Z) : option Z :=
  match s with
  | [] => None
  | b :: s => if schar b =? c then Some 0 else Z.succ <$> index_of c s
  end.

Lemma search_loop {R} (found : Z → R) (none : Z → R) c s : ∀ n m p,
  str_at m p s → (length s < n)%nat →
  loop n (λ s, b ← ldb m s;
       Ok (if b =? 0 then inr (none s) else if schar b =? c then inr (found s) else inl (s + 1))) p
  = Ok (match index_of c s with Some i => found (p + i) | None => none (p + zlen s) end).
Proof.
  induction s as [|b s IH]; intros n m p Hs Hn; (destruct n as [|n]; [lia|]); rewrite loop_unfold.
  - apply str_at_nil in Hs. rewrite (proj2 (ldb_Ok _ _ _) Hs). cbn. do 2 f_equal. unfold zlen. cbn. lia.
  - apply str_at_cons in Hs as (Hb & Hr & Hs). rewrite (proj2 (ldb_Ok _ _ _) Hb).
    cbn [mbind outcome_bind index_of]. replace (b =? 0) with false by (symmetry; apply Z.eqb_neq; lia).
    destruct (schar b =? c); cbn [mbind outcome_bind]; [by rewrite Z.add_0_r|].
    rewrite IH by (try done; cbn in Hn; lia). f_equal. destruct (index_of c s); cbn.
    + f_equal. lia.
    + f_equal. unfold zlen. cbn [length]. lia.
Qed.

Lemma strchr_spec m p s c :
  str_at m p s → strchr m p c = Ok (match index_of c s with Some i => p + i | None => NULL end) ∧
    strfind m p c = Ok (match index_of c s with Some i => p + i | None => p + zlen s end).
Proof.
  intros Hs. pose proof (str_fuel _ _ _ Hs). split.
  - unfold strchr. by rewrite (search_loop id (λ _, NULL) c s) by (done || lia).
  - unfold strfind. by rewrite (search_loop id id c s) by (done || lia).
Qed.

(** *** Bounded comparisons and copies *)

Lemma memcmp_loop l1 : ∀ l2 k m p q,
  length l1 = length l2 → bytes_at m p l1 → bytes_at m q l2 → (length l1 < k)%nat →
  loop k (λ st, let '(s1, s2, n) := st in
       if 0 <? n then
         a ← ldb m s1; b ← ldb m s2;
         Ok (if a =? b then inl (s1 + 1, s2 + 1, n - 1) else inr (a - b))
       else Ok (inr 0)) (p, q, zlen l1) = Ok (cmp_bytes l1 l2).
Proof.
  induction l1 as [|a l1 IH]; intros l2 k m p q Hl H1 H2 Hk; (destruct k as [|k]; [cbn in Hk; lia|]);
    (destruct l2 as [|b l2]; [|]); try done.
  rewrite loop_unfold. apply bytes_at_cons in H1 as [Ha H1]. apply bytes_at_cons in H2 as [Hb H2].
  replace (0 <? zlen (a :: l1)) with true by (symmetry; apply Z.ltb_lt; unfold zlen; cbn; lia).
  rewrite (proj2 (ldb_Ok _ _ _) Ha), (proj2 (ldb_Ok _ _ _) Hb). cbn [mbind outcome_bind cmp_bytes].
  destruct (a =? b); [|done]. replace (zlen (a :: l1) - 1) with (zlen l1) by (unfold zlen; cbn; lia).
  apply IH; try done; cbn in *; lia.
Qed.

Lemma memcmp_spec m p q l1 l2 :
  length l1 = length l2 → bytes_at m p l1 → bytes_at m q l2 →
  memcmp m p q (zlen l1) = Ok (cmp_bytes l1 l2).
Proof. intros. apply memcmp_loop; try done. unfold zlen. lia. Qed.

(** [strncmp] compares the first [n] characters. *)
Lemma strncmp_loop s : ∀ t k n m p q,
  str_at m p s → str_at m q t → (length s < k)%nat → 0 ≤ n →
  loop k (λ st, let '(s1, s2, n) := st in
       if n =? 0 then Ok (inr 0)
       else
         a ← ldb m s1;
         if a =? 0 then b ← ldb m s2; Ok (inr (a - b))
         else b ← ldb m s2;
           Ok (if a =? b then inl (s1 + 1, s2 + 1, n - 1) else inr (a - b))) (p, q, n)
  = Ok (cmp_bytes (take (Z.to_nat n) s) (take (Z.to_nat n) t)).
Proof.
  induction s as [|a s IH]; intros t k n m p q Hs Ht Hk Hn; (destruct k as [|k]; [cbn in Hk; lia|]);
    rewrite loop_unfold; (destruct (Z.eqb_spec n 0) as [->|Hn0]; [done|]);
    (destruct (Z.to_nat n) as [|n'] eqn:En; [lia|]).
  - apply str_at_nil in Hs. rewrite (proj2 (ldb_Ok _ _ _) Hs). cbn [mbind outcome_bind Z.eqb take].
    destruct t as [|b t].
    + apply str_at_nil in Ht. by rewrite (proj2 (ldb_Ok _ _ _) Ht).
    + apply str_at_cons in Ht as (Hb & _ & _). by rewrite (proj2 (ldb_Ok _ _ _) Hb).
  - apply str_at_cons in Hs as (Ha & Hra & Hs). rewrite (proj2 (ldb_Ok _ _ _) Ha).
    cbn [mbind outcome_bind take]. rewrite (proj2 (Z.eqb_neq a 0)) by lia. destruct t as [|b t].
    + apply str_at_nil in Ht. rewrite (proj2 (ldb_Ok _ _ _) Ht). cbn [mbind outcome_bind take cmp_bytes].
      rewrite (proj2 (Z.eqb_neq a 0)) by lia. cbn [mbind outcome_bind]. f_equal. lia.
    + apply str_at_cons in Ht as (Hb & Hrb & Ht). rewrite (proj2 (ldb_Ok _ _ _) Hb).
      cbn [mbind outcome_bind take cmp_bytes]. destruct (a =? b); [|done].
      rewrite (IH t) by (done || cbn in Hk; lia). by replace (Z.to_nat (n - 1)) with n' by lia.
Qed.

Lemma strncmp_spec m p q s t n :
  str_at m p s → str_at m q t → 0 ≤ n →
  strncmp m p q n = Ok (cmp_bytes (take (Z.to_nat n) s) (take (Z.to_nat n) t)).
Proof. intros Hs Ht Hn. pose proof (str_fuel _ _ _ Hs). apply strncmp_loop; try done. lia. Qed.

(** [strncpy] writes exactly [len] bytes: the string, cut or padded with
    zeros. *)
Definition fit (len : nat) (s : list Z) : list Z := take len s ++ replicate (len - length s) 0.

Lemma strncpy_loop len : ∀ s k m p src,
  str_at m src s → mapped m p len → p + Z.of_nat len ≤ src ∨ src + zlen s < p →
  (len < k)%nat →
  loop k (λ st, let '(m, p, src, len) := st in
       if 0 <? len then
         b ← ldb m src; m ← stb m p b;
         Ok (inl (m, p + 1, (if b =? 0 then src else src + 1), len - 1))
       else Ok (inr m)) (m, p, src, Z.of_nat len) = Ok (put m p (fit len s)).
Proof.
  induction len as [|len IH]; intros s k m p src Hs Hm Hd Hk; (destruct k as [|k]; [lia|]);
    rewrite loop_unfold; [by destruct s|].
  apply mapped_S in Hm as [H0 Hm].
  replace (0 <? Z.of_nat (S len)) with true by (symmetry; apply Z.ltb_lt; lia).
  replace (Z.of_nat (S len) - 1) with (Z.of_nat len) by lia. unfold fit.
  destruct s as [|b s].
  - pose proof Hs as Hb. apply str_at_nil in Hb. rewrite (proj2 (ldb_Ok _ _ _) Hb). cbn [mbind outcome_bind].
    rewrite stb_Ok by done. cbn [mbind outcome_bind Z.eqb]. rewrite (IH []); [|..|lia].
    + unfold fit. rewrite !take_nil. cbn [length]. by rewrite !Nat.sub_0_r.
    + split; [|by destruct Hs]. apply (bytes_at_put m src [0] p [0]); [by destruct Hs|].
      change (zlen [0]) with 1. change (zlen (A := Z) []) with 0 in Hd. lia.
    + by apply (put_mapped m p [0]).
    + lia.
  - apply str_at_cons in Hs as (Hb & Hr & Hs). rewrite (proj2 (ldb_Ok _ _ _) Hb). cbn [mbind outcome_bind].
    rewrite stb_Ok by done. cbn [mbind outcome_bind]. rewrite (proj2 (Z.eqb_neq b 0)) by lia.
    replace (zlen (b :: s)) with (zlen s + 1) in Hd by (unfold zlen; cbn; lia).
    rewrite (IH s); [|..|lia].
    + done.
    + split; [|by destruct Hs]. apply (bytes_at_put m (src + 1) (s ++ [0]) p [b]); [by destruct Hs|].
      rewrite zlen_app. change (zlen [0]) with 1. change (zlen [b]) with 1. lia.
    + by apply (put_mapped m p [b]).
    + lia.
Qed.

Lemma strncpy_spec m p src s len :
  str_at m src s → mapped m p (Z.to_nat len) → 0 ≤ len →
  p + len ≤ src ∨ src + zlen s < p →
  strncpy m p src len = Ok (put m p (fit (Z.to_nat len) s)).
Proof.
  intros Hs Hm Hl Hd. unfold strncpy. rewrite <-(Z2Nat.id len) at 2 by done.
  apply strncpy_loop; try done; rewrite ?Z2Nat.id by done; try done. lia.
Qed.

(** *** Numbers *)

(** The value of digits after a number [v]. *)
Definition value_from (base v : Z) (ds : list Z) : Z :=
  foldl (λ v c, v * base + default 0 (digit c)) v ds.

Definition digits_of (base : Z) (ds : list Z) : Prop :=
  Forall (λ c, ∃ d, digit c = Some d ∧ d < base) ds.

(** A character that ends a number. *)
Definition stops (base e : Z) : Prop := ∀ d, digit e = Some d → base ≤ d.

Lemma digit_nonneg c d : digit c = Some d → 0 ≤ d.
Proof. unfold digit. repeat case_match; intros [= <-]; lia. Qed.

Lemma value_from_mono base v ds : 2 ≤ base → 0 ≤ v → digits_of base ds → v ≤ value_from base v ds.
Proof.
  intros Hb Hv Hd. revert v Hv. induction Hd as [|c ds (d & Hc & Hlt) Hd IH]; intros v Hv; cbn; [lia|].
  rewrite Hc. cbn. apply digit_nonneg in Hc as Hd0. etrans; [|apply IH; nia]. nia.
Qed.

Lemma value_from_cons base v c ds :
  value_from base v (c :: ds) = value_from base (v * base + default 0 (digit c)) ds.
Proof. done. Qed.

Lemma digits_loop_spec base e ds : ∀ n m p v,
  2 ≤ base → 0 ≤ v → bytes_at m p (ds ++ [e]) → digits_of base ds → stops base e →
  value_from base v ds ≤ int_max → (length ds < n)%nat →
  loop n
    (λ st, let '(s, val) := st in
       b ← ldb m s;
       match digit b with
       | None => Ok (inr (s, val))
       | Some dig =>
           if base <=? dig then Ok (inr (s, val))
           else v ← cint (val * base); v ← cint (v + dig); Ok (inl (s + 1, v))
       end) (p, v) = Ok (p + zlen ds, value_from base v ds).
Proof.
  induction ds as [|c ds IH]; intros n m p v Hb Hv Hm Hd He Hmax Hn; (destruct n as [|n]; [cbn in Hn; lia|]);
    rewrite loop_unfold; apply bytes_at_cons in Hm as [Hc Hm]; rewrite (proj2 (ldb_Ok _ _ _) Hc);
    cbn [mbind outcome_bind].
  - change (zlen (A := Z) []) with 0. rewrite Z.add_0_r. destruct (digit e) as [d|] eqn:E; [|done].
    by rewrite (proj2 (Z.leb_le base d)) by (by apply He).
  - apply Forall_cons in Hd as [(d & Hdc & Hlt) Hd]. rewrite value_from_cons, Hdc in *. cbn [default id] in *.
    apply digit_nonneg in Hdc as Hd0. assert (0 ≤ v * base) by nia.
    pose proof (value_from_mono base (v * base + d) ds Hb ltac:(lia) Hd).
    rewrite (proj2 (Z.leb_gt base d)) by lia.
    rewrite !cint_Ok by (unfold int_max, int_min in *; lia). cbn [mbind outcome_bind].
    rewrite cint_Ok by (unfold int_max, int_min in *; lia). cbn [mbind outcome_bind].
    rewrite IH by (done || (cbn in Hn; lia)). do 2 f_equal.
    unfold zlen. cbn. lia.
Qed.

Lemma skip_blanks k : ∀ n m p c,
  bytes_at m p (replicate k 32 ++ [c]) → c ≠ 32 → c ≠ 9 → (k < n)%nat →
  loop n (λ s, b ← ldb m s; Ok (if (b =? 32) || (b =? 9) then inl (s + 1) else inr s)) p
  = Ok (p + Z.of_nat k).
Proof.
  induction k as [|k IH]; intros n m p c Hm H1 H2 Hn; (destruct n as [|n]; [lia|]);
    rewrite loop_unfold; apply bytes_at_cons in Hm as [Hc Hm]; rewrite (proj2 (ldb_Ok _ _ _) Hc);
    cbn [mbind outcome_bind].
  - rewrite (proj2 (Z.eqb_neq c 32)), (proj2 (Z.eqb_neq c 9)) by done. cbn. by rewrite Z.add_0_r.
  - cbn [Z.eqb orb]. rewrite Pos.eqb_refl. cbn [orb]. rewrite (IH _ _ _ c) by (done || lia). f_equal. lia.
Qed.

(** The sign characters a number may start with. *)
Definition sign_of (neg : bool) : list Z := if neg then [45] else [].

Lemma digit_not_special c d : digit c = Some d → c ≠ 32 ∧ c ≠ 9 ∧ c ≠ 43 ∧ c ≠ 45.
Proof. intros H. split_and!; intros ->; by vm_compute in H. Qed.

(** A number in [base], blanks and a minus sign before it. *)
Lemma strtol_number m p base k neg c ds e :
  2 ≤ base → bytes_at m p (replicate k 32 ++ sign_of neg ++ (c :: ds) ++ [e]) →
  digits_of base (c :: ds) → stops base e → (base = 16 → ds ++ [e] ≠ [120]) →
  value_from base 0 (c :: ds) ≤ int_max →
  strtol m p base =
    Ok ((if neg then - value_from base 0 (c :: ds) else value_from base 0 (c :: ds)),
        p + zlen (replicate k 32 ++ sign_of neg ++ (c :: ds))).
Proof.
  intros Hb Hm Hd He Hx Hmax. unfold strtol.
  assert (k + 1 < fuel_of m)%nat as Hk.
  { apply bytes_mapped, mapped_size in Hm. rewrite !length_app in Hm. rewrite length_replicate in Hm. cbn in Hm. lia. }
  assert (length (c :: ds) < fuel_of m)%nat as Hk'.
  { apply bytes_mapped, mapped_size in Hm. rewrite !length_app in Hm. cbn in *. lia. }
  pose proof Hd as [(d & Hc & _) _]%Forall_cons. apply digit_not_special in Hc as (C1 & C2 & C3 & C4).
  pose proof Hm as [Hblank Hm']%bytes_at_app. rewrite (skip_blanks k _ m p (if neg then 45 else c)); [..|lia]; cycle 1.
  { apply bytes_at_app. split; [done|]. apply bytes_at_cons.
    destruct neg; apply bytes_at_cons in Hm' as [? ?]; (split; [done|by intros [|]]). }
  { by destruct neg. }
  { by destruct neg. }
  cbn [mbind outcome_bind]. unfold zlen in Hm'. rewrite length_replicate in Hm'.
  set (q := p + Z.of_nat k) in *.
  apply bytes_at_app in Hm' as [Hsgn Hnum].
  assert (∃ b, ldb m q = Ok b ∧
    (if b =? 43 then (q + 1, false) else if b =? 45 then (q + 1, true) else (q, false))
      = (q + zlen (sign_of neg), neg)) as (b & -> & Esgn).
  { destruct neg.
    - exists 45. split; [|done]. apply ldb_Ok. by apply bytes_at_cons in Hsgn as [? _].
    - exists c. apply bytes_at_cons in Hnum as [Hq _]. rewrite Z.add_0_r in *. split; [by apply ldb_Ok|].
      by rewrite (proj2 (Z.eqb_neq c 43)), (proj2 (Z.eqb_neq c 45)) by done; unfold zlen; cbn [sign_of length Z.of_nat]; rewrite ?Z.add_0_r. }
  cbn [mbind outcome_bind]. rewrite Esgn. set (r := q + zlen (sign_of neg)) in *.
  pose proof Hnum as Hc%bytes_at_cons. destruct Hc as [Hc Hrest]. rewrite (proj2 (ldb_Ok _ _ _) Hc).
  cbn [mbind outcome_bind]. rewrite (proj2 (Z.eqb_neq base 0)) by lia. cbn [orb andb].
  assert (∀ f : bool → outcome (Z * Z),
    (hex ← (if (base =? 16) && (c =? 48) then b1 ← ldb m (r + 1); Ok (b1 =? 120) else Ok false); f hex)
    = f false) as Hhex.
  { intros f. destruct (Z.eqb_spec base 16) as [E16|], (Z.eqb_spec c 48); cbn [andb mbind outcome_bind]; try done.
    destruct ds as [|c2 ds2].
    - apply bytes_at_cons in Hrest as [He1 _]. rewrite (proj2 (ldb_Ok _ _ _) He1). cbn [mbind outcome_bind].
      rewrite (proj2 (Z.eqb_neq e 120)); [done|]. intros ->. by apply Hx.
    - apply bytes_at_cons in Hrest as [He1 _]. rewrite (proj2 (ldb_Ok _ _ _) He1). cbn [mbind outcome_bind].
      rewrite (proj2 (Z.eqb_neq c2 120)); [done|]. intros ->.
      apply Forall_cons in Hd as [_ [(x & Hx3 & Hx4) _]%Forall_cons].
      change (digit 120) with (Some 33) in Hx3. simplify_eq. }
  rewrite Hhex. unfold digits_loop. rewrite (digits_loop_spec base e (c :: ds)) by (done || lia).
  pose proof (value_from_mono base 0 (c :: ds) Hb ltac:(lia) Hd).
  cbn [mbind outcome_bind fst snd].
  destruct neg; [rewrite cint_Ok by (unfold int_max, int_min in *; lia)|]; cbn [mbind outcome_bind];
    do 2 f_equal; rewrite !zlen_app; unfold r, q, zlen; rewrite length_replicate; lia.
Qed.

(** *** Concrete memories *)

(** [mem_holds m p l] decides [bytes_at m p l]. *)
Definition mem_holds (m : mem) (p : Z) (l : list Z) : bool :=
  bool_decide (read m p (length l) = l) && forallb (λ i, bool_decide (is_Some (m !! (p + Z.of_nat i)))) (seq 0 (length l)).

Lemma mem_holds_bytes m p l : mem_holds m p l = true → bytes_at m p l.
Proof.
  unfold mem_holds. intros [Hr%bool_decide_eq_true Hm]%andb_prop i b Hi.
  rewrite forallb_forall in Hm. pose proof (lookup_lt_Some _ _ _ Hi).
  specialize (Hm i). rewrite bool_decide_eq_true in Hm. destruct Hm as [x Hx].
  { apply list_elem_of_In, elem_of_seq. lia. }
  rewrite Hx. f_equal. rewrite <-Hr in Hi. unfold read in Hi.
  rewrite list_lookup_fmap, lookup_seq_lt in Hi by done. cbn in Hi. rewrite Hx in Hi. cbn in Hi. congruence.
Qed.

(** [n] bytes from [p] on are mapped, decided. *)
Definition mappedb (m : mem) (p : Z) (n : nat) : bool :=
  forallb (λ i, bool_decide (is_Some (m !! (p + Z.of_nat i)))) (seq 0 n).

Lemma mappedb_mapped m p n : mappedb m p n = true → mapped m p n.
Proof.
  unfold mappedb. rewrite forallb_forall. intros H i Hi.
  apply (bool_decide_eq_true (is_Some (m !! (p + Z.of_nat i)))), H, list_elem_of_In, elem_of_seq. lia.
Qed.

Definition zeros (p : Z) (n : nat) : mem := put ∅ p (replicate n 0).
(** "hello" at 100, "help" at 110, and 20 free bytes from 120 on. *)
Definition mem_w : mem :=
  put (put (put ∅ 100 [104; 101; 108; 108; 111; 0]) 110 [104; 101; 108; 112; 0]) 120 (replicate 20 0).

Lemma memmove_any_overlap_witness :
  ∃ m', __memmove mem_w 102 100 3 = Ok m' ∧ memmove mem_w 102 100 3 = Ok m' ∧
    bytes_at m' 102 [104; 101; 108] ∧ ∀ a, ¬ (102 ≤ a < 102 + 3) → m' !! a = mem_w !! a.
Proof.
  apply (memmove_any_overlap mem_w 102 100 [104; 101; 108]).
  - apply mem_holds_bytes. by vm_compute.
  - repeat constructor; unfold byte_ok; lia.
  - apply mappedb_mapped. by vm_compute.
Defined.

Lemma strcmp_order_witness :
  strcmp mem_w 100 110 = Ok (-4) ∧ __strcmp mem_w 100 110 = Ok (-1) ∧
  strcmp mem_w 110 100 = Ok 4 ∧ (strcmp mem_w 100 110 = Ok 0 ↔ [104; 101; 108; 108; 111] = [104; 101; 108; 112]).
Proof.
  apply (strcmp_order mem_w 100 110 [104; 101; 108; 108; 111] [104; 101; 108; 112]);
    (split; [apply mem_holds_bytes; by vm_compute|]); repeat constructor.
Defined.

Lemma strcpy_copies_witness :
  ∃ m', strcpy mem_w 120 100 = Ok m' ∧ __strcpy mem_w 120 100 = Ok m' ∧
    str_at m' 120 [104; 101; 108; 108; 111] ∧ strlen m' 120 = strlen mem_w 100 ∧
    ∀ a, ¬ (120 ≤ a < 120 + zlen [104; 101; 108; 108; 111] + 1) → m' !! a = mem_w !! a.
Proof.
  apply (strcpy_copies mem_w 120 100 [104; 101; 108; 108; 111]).
  - split; [apply mem_holds_bytes; by vm_compute|repeat constructor].
  - apply mappedb_mapped. by vm_compute.
  - right. left. by vm_compute.
Defined.
