(* ===== verification/Printfmt.v ===== *)
(** * libs/printfmt.c: formatted output

    Models every function of src/Labweek11/lab2/libs/printfmt.c and [do_div] of
    libs/x86.h.  The functions take the callback [putch] as the C code does: it
    maps a character and the state (the memory and the object [putdat] points
    to) to the new state.  Format strings and strings are read from that same
    memory, while the callback may be writing into it.  The variable arguments
    are the 32-bit words of the caller's frame.

    The theorems: [printnum] prints the digits of the number; a format that is
    written by the directives of [directive] is rendered as [render] says; with
    [sprintputch], [vsnprintf] writes exactly the bytes that fit into the
    buffer, terminates them and counts all of them; [strtol] reads back what
    "%d" printed. *)

From stdpp Require Import base gmap list numbers sets.
From S2P Require Import Prelude Mem CString.

(** The addresses of the literals of the file: "(null)", "error %d", "%s" and
    the messages of [error_string], NULL at index 0. *)
Record literals := Literals {
  lit_null : Z;
  lit_error_d : Z;
  lit_s : Z;
  error_string : list Z
}.

Definition MAXERROR : Z := 6.
Definition E_INVAL : Z := 3.

(** "0123456789abcdef" with its terminator. *)
Definition hexdigits : list Z :=
  [48; 49; 50; 51; 52; 53; 54; 55; 56; 57; 97; 98; 99; 100; 101; 102; 0].

(** [divl]: the quotient and remainder of [edx:eax]; a quotient that does not
    fit (and a zero divisor) is a divide error. *)
Definition divl (base low upper : Z) : outcome (Z * Z) :=
  if upper <? base
  then Ok ((upper * 2 ^ 32 + low) / base, (upper * 2 ^ 32 + low) mod base) else Err Undef.

(** The new value of [n] and the remainder. *)
Definition do_div (n base : Z) : outcome (Z * Z) :=
  let low := n mod 2 ^ 32 in
  let high := n / 2 ^ 32 in
  uh ← (if high =? 0 then Ok (high, high)
        else if base =? 0 then Err Undef else Ok (high mod base, high / base));
  lm ← divl base low uh.1;
  Ok (lm.1 + uh.2 * 2 ^ 32, lm.2).

(** [va_arg] with the types the file uses. *)
Definition va_word (ap : list Z) : outcome (Z * list Z) :=
  match ap with w :: ap => Ok (w, ap) | [] => Err Undef end.

Definition va_int (ap : list Z) : outcome (Z * list Z) :=
  wa ← va_word ap; Ok (s32 wa.1, wa.2).

Definition va_ulonglong (ap : list Z) : outcome (Z * list Z) :=
  lo ← va_word ap; hi ← va_word lo.2; Ok (lo.1 + hi.1 * 2 ^ 32, hi.2).

Definition getuint (ap : list Z) (lflag : Z) : outcome (Z * list Z) :=
  if 2 <=? lflag then va_ulonglong ap
  else if negb (lflag =? 0) then va_word ap
  else va_word ap.

Definition getint (ap : list Z) (lflag : Z) : outcome (Z * list Z) :=
  if 2 <=? lflag then va ← va_ulonglong ap; Ok (s64 va.1, va.2)
  else if negb (lflag =? 0) then va_int ap
  else va_int ap.

(** What the escape sequence has collected, and where it is. *)
Record spec := Spec {
  s_fmt : Z;
  s_padc : Z;
  s_width : Z;
  s_precision : Z;
  s_lflag : Z;
  s_altflag : bool;
  s_ap : list Z
}.

Definition set_fmt (sp : spec) (f : Z) : spec :=
  Spec f (s_padc sp) (s_width sp) (s_precision sp) (s_lflag sp) (s_altflag sp) (s_ap sp).
Definition set_padc (sp : spec) (c : Z) : spec :=
  Spec (s_fmt sp) c (s_width sp) (s_precision sp) (s_lflag sp) (s_altflag sp) (s_ap sp).
Definition set_width (sp : spec) (w p : Z) : spec :=
  Spec (s_fmt sp) (s_padc sp) w p (s_lflag sp) (s_altflag sp) (s_ap sp).
Definition set_lflag (sp : spec) (l : Z) : spec :=
  Spec (s_fmt sp) (s_padc sp) (s_width sp) (s_precision sp) l (s_altflag sp) (s_ap sp).
Definition set_altflag (sp : spec) : spec :=
  Spec (s_fmt sp) (s_padc sp) (s_width sp) (s_precision sp) (s_lflag sp) true (s_ap sp).
Definition set_ap (sp : spec) (ap : list Z) : spec :=
  Spec (s_fmt sp) (s_padc sp) (s_width sp) (s_precision sp) (s_lflag sp) (s_altflag sp) ap.

(** [process_precision:] *)
Definition process_precision (sp : spec) (precision : Z) : spec :=
  if s_width sp <? 0 then set_width sp precision (-1) else set_width sp (s_width sp) precision.

(** The width field: the [for] loop from its first character [ch]; the
    precision and the place after the digits. *)
Definition read_digits (m : mem) (fmt ch : Z) : outcome (Z * Z) :=
  loop (fuel_of m)
    (λ st, let '(fmt, precision, ch) := st in
       p ← cint (precision * 10);
       p ← cint (p + ch);
       p ← cint (p - 48);
       b ← ldb m fmt;
       let ch := schar b in
       if (ch <? 48) || (57 <? ch) then Ok (inr (fmt, p)) else Ok (inl (fmt + 1, p, ch)))
    (fmt, 0, ch).

(** One pass through the [switch] behind [reswitch:]: a flag, or the character
    of the conversion. *)
Definition reswitch_step (m : mem) (sp : spec) : outcome (spec + Z * spec) :=
  ch ← ldb m (s_fmt sp);
  let sp := set_fmt sp (s_fmt sp + 1) in
  if ch =? 45 then Ok (inl (set_padc sp 45))
  else if ch =? 48 then Ok (inl (set_padc sp 48))
  else if (49 <=? ch) && (ch <=? 57) then
    fp ← read_digits m (s_fmt sp) ch;
    Ok (inl (process_precision (set_fmt sp fp.1) fp.2))
  else if ch =? 42 then
    va ← va_int (s_ap sp);
    Ok (inl (process_precision (set_ap sp va.2) va.1))
  else if ch =? 46 then
    Ok (inl (if s_width sp <? 0 then set_width sp 0 (s_precision sp) else sp))
  else if ch =? 35 then Ok (inl (set_altflag sp))
  else if ch =? 108 then l ← cint (s_lflag sp + 1); Ok (inl (set_lflag sp l))
  else Ok (inr (ch, sp)).

(** [reswitch:]: the flags, until a character that is none; it is returned and
    [s_fmt] is behind it. *)
Definition reswitch (m : mem) (sp : spec) : outcome (Z * spec) :=
  loop (fuel_of m) (reswitch_step m) sp.

(** [for (fmt --; fmt[-1] != '%'; fmt --)] *)
Definition back_to_percent (m : mem) (fmt : Z) : outcome Z :=
  loop (fuel_of m)
    (λ fmt, b ← ldb m (fmt - 1); Ok (if b =? 37 then inr fmt else inl (fmt - 1))) (fmt - 1).

Section printfmt.
Context {D : Type} (putch : Z → mem * D → outcome (mem * D)) (lits : literals).

(** [while (-- width > 0) putch(padc, putdat);] *)
Definition pad_before (width padc : Z) (s : mem * D) : outcome (mem * D) :=
  loop (S (Z.to_nat width))
    (λ st, let '(width, s) := st in
       w ← cint (width - 1);
       if 0 <? w then s ← putch padc s; Ok (inl (w, s)) else Ok (inr s)) (width, s).

(** [for (; width > 0; width --) putch(padc, putdat);] *)
Definition pad_after (width padc : Z) (s : mem * D) : outcome (mem * D) :=
  loop (S (Z.to_nat width))
    (λ st, let '(width, s) := st in
       if 0 <? width then s ← putch padc s; Ok (inl (width - 1, s)) else Ok (inr s)) (width, s).

Fixpoint printnum_n (fuel : nat) (num base width padc : Z) (s : mem * D) : outcome (mem * D) :=
  match fuel with
  | O => Err NoFuel
  | S fuel =>
      rm ← do_div num base;
      s ← (if base <=? num then
             w ← cint (width - 1); printnum_n fuel rm.1 base w padc s
           else pad_before width padc s);
      d ← hexdigits.[rm.2];
      putch d s
  end.

(** 64 digits are enough for a 64-bit number. *)
Definition printnum (num base width padc : Z) (s : mem * D) : outcome (mem * D) :=
  printnum_n 64 num base width padc s.

(** The text before the next escape: the place behind its '%', or [None] at
    the end of the format. *)
Definition copy_text (fmt : Z) (s : mem * D) : outcome (option Z * (mem * D)) :=
  loop (fuel_of s.1)
    (λ st, let '(fmt, s) := st in
       ch ← ldb s.1 fmt;
       if ch =? 37 then Ok (inr (Some (fmt + 1), s))
       else if ch =? 0 then Ok (inr (None, s))
       else s ← putch ch s; Ok (inl (fmt + 1, s))) (fmt, s).

(** The loop over the characters: the remaining width. *)
Definition put_chars (altflag : bool) (p precision width : Z) (s : mem * D)
  : outcome (Z * (mem * D)) :=
  loop (fuel_of s.1)
    (λ st, let '(p, precision, width, s) := st in
       b ← ldb (s : mem * D).1 p;
       let ch := schar b in
       if ch =? 0 then Ok (inr (width, s))
       else
         c ← (if precision <? 0 then Ok (true, precision)
              else Ok (0 <=? precision - 1, precision - 1));
         if (c : bool * Z).1 then
           s ← putch (if altflag && ((ch <? 32) || (126 <? ch)) then 63 else ch) s;
           w ← cint (width - 1);
           Ok (inl (p + 1, c.2, w, s))
         else Ok (inr (width, s)))
    (p, precision, width, s).

(** case 's' behind [va_arg] *)
Definition print_string (sp : spec) (p : Z) (s : mem * D) : outcome (mem * D) :=
  let p := if p =? 0 then lit_null lits else p in
  ws ← (if (0 <? s_width sp) && negb (s_padc sp =? 45) then
          n ← strnlen s.1 p (u32 (s_precision sp));
          let width := s32 (s_width sp - n) in
          s ← pad_after width (s_padc sp) s;
          Ok (Z.min width 0, s)
        else Ok (s_width sp, s));
  ws ← put_chars (s_altflag sp) p (s_precision sp) ws.1 ws.2;
  pad_after ws.1 32 ws.2.

(** The conversion [ch]; [rec] is the nested [printfmt].  The new [fmt] and
    [ap] and the state. *)
Definition conversion (rec : Z → list Z → mem * D → outcome (mem * D))
    (ch : Z) (sp : spec) (s : mem * D) : outcome (Z * list Z * (mem * D)) :=
  let number num base ap s :=
    s ← printnum num base (s_width sp) (s_padc sp) s; Ok (s_fmt sp, ap, s) in
  if ch =? 99 then
    va ← va_int (s_ap sp); s ← putch va.1 s; Ok (s_fmt sp, va.2, s)
  else if ch =? 101 then
    va ← va_int (s_ap sp);
    err ← (if va.1 <? 0 then cint (- va.1) else Ok va.1);
    p ← (if MAXERROR <? err then Ok 0 else (error_string lits).[err]);
    s ← (if p =? 0 then rec (lit_error_d lits) [u32 err] s else rec (lit_s lits) [p] s);
    Ok (s_fmt sp, va.2, s)
  else if ch =? 115 then
    va ← va_word (s_ap sp); s ← print_string sp va.1 s; Ok (s_fmt sp, va.2, s)
  else if ch =? 100 then
    va ← getint (s_ap sp) (s_lflag sp);
    ns ← (if va.1 <? 0 then
            s ← putch 45 s; n ← (if va.1 =? - 2 ^ 63 then Err Undef else Ok (- va.1)); Ok (n, s)
          else Ok (va.1, s));
    number ns.1 10 va.2 ns.2
  else if ch =? 117 then va ← getuint (s_ap sp) (s_lflag sp); number va.1 10 va.2 s
  else if ch =? 111 then va ← getuint (s_ap sp) (s_lflag sp); number va.1 8 va.2 s
  else if ch =? 112 then
    s ← putch 48 s; s ← putch 120 s; va ← va_word (s_ap sp); number va.1 16 va.2 s
  else if ch =? 120 then va ← getuint (s_ap sp) (s_lflag sp); number va.1 16 va.2 s
  else if ch =? 37 then s ← putch ch s; Ok (s_fmt sp, s_ap sp, s)
  else
    s ← putch 37 s; fmt ← back_to_percent s.1 (s_fmt sp); Ok (fmt, s_ap sp, s).

(** [vprintfmt]; the nested calls of case 'e' are [depth] deep at most: the
    formats "error %d" and "%s" have no 'e' conversion. *)
Fixpoint vprintfmt_n (depth : nat) (fmt : Z) (ap : list Z) (s : mem * D) : outcome (mem * D) :=
  match depth with
  | O => Err NoFuel
  | S depth =>
      loop (fuel_of s.1)
        (λ st, let '(fmt, ap, s) := st in
           fs ← copy_text fmt s;
           match fs with
           | (None, s) => Ok (inr s)
           | (Some fmt, s) =>
               cs ← reswitch s.1 (Spec fmt 32 (-1) (-1) 0 false ap);
               r ← conversion (vprintfmt_n depth) cs.1 cs.2 s;
               Ok (inl r)
           end) (fmt, ap, s)
  end.

Definition vprintfmt := vprintfmt_n 2.

Definition printfmt (fmt : Z) (args : list Z) (s : mem * D) : outcome (mem * D) :=
  vprintfmt fmt args s.
End printfmt.

(** ** Printing into a buffer *)

Record sprintbuf := Sprintbuf { buf : Z; ebuf : Z; cnt : Z }.

Definition sprintputch (ch : Z) (s : mem * sprintbuf) : outcome (mem * sprintbuf) :=
  let '(m, b) := s in
  c ← cint (cnt b + 1);
  if buf b <? ebuf b then
    m ← stb m (buf b) ch; Ok (m, Sprintbuf (buf b + 1) (ebuf b) c)
  else Ok (m, Sprintbuf (buf b) (ebuf b) c).

Definition vsnprintf (lits : literals) (str size fmt : Z) (ap : list Z) (m : mem)
  : outcome (Z * mem) :=
  let b := Sprintbuf str (u32 (str + size - 1)) 0 in
  if (str =? 0) || (ebuf b <? buf b) then Ok (- E_INVAL, m)
  else
    s ← vprintfmt sprintputch lits fmt ap (m, b);
    m ← stb s.1 (buf s.2) 0;
    Ok (cnt s.2, m).

Definition snprintf (lits : literals) (str size fmt : Z) (args : list Z) (m : mem)
  : outcome (Z * mem) := vsnprintf lits str size fmt args m.

(** ** The text a format produces

    The same functions with a callback that leaves the memory alone and
    collects the characters, at most as many as an [int] counts. *)

Definition logput (c : Z) (s : mem * list Z) : outcome (mem * list Z) :=
  if bool_decide (zlen s.2 < int_max) then Ok (s.1, s.2 ++ [c]) else Err Undef.

(** The text of a call on a memory that is not written to. *)
Definition text (lits : literals) (m : mem) (fmt : Z) (ap : list Z) : outcome (list Z) :=
  s ← vprintfmt logput lits fmt ap (m, []); Ok s.2.

Lemma ldb_sub (m0 m : mem) a : m0 ⊆ m → osim eq (ldb m0 a) (ldb m a).
Proof.
  intros Hsub b Hb%ldb_Ok. exists b. split; [|done]. apply ldb_Ok. by eapply lookup_weaken.
Qed.

Lemma fuel_sub (m0 m : mem) : m0 ⊆ m → (fuel_of m0 ≤ fuel_of m)%nat.
Proof. intros Hsub. unfold fuel_of. apply le_n_S. by apply map_subseteq_size. Qed.

Section simulation.
Context {D : Type} (putch : Z → mem * D → outcome (mem * D)) (lits : literals).
Context (m0 : mem) (R : mem * D → list Z → Prop).
Context (R_sub : ∀ s log, R s log → m0 ⊆ s.1).
Context (R_putch : ∀ c s log, R s log → zlen log < int_max →
  ∃ s', putch c s = Ok s' ∧ R s' (log ++ [c])).

(** States of the text run and of the real run. *)
Definition RS (t : mem * list Z) (s : mem * D) : Prop := t.1 = m0 ∧ R s t.2.

Lemma RS_sub t s : RS t s → t.1 ⊆ s.1.
Proof. intros [-> H]. by eapply R_sub. Qed.

Lemma putch_sim c t s : RS t s → osim RS (logput c t) (putch c s).
Proof.
  intros [Ht HR]. unfold logput. case_bool_decide; [|apply osim_err]. intros t' [= <-].
  destruct (R_putch c s t.2 HR) as (s' & Hs & HR'); [done|]. exists s'. by split.
Qed.

Lemma pad_before_sim w c t s : RS t s → osim RS (pad_before logput w c t) (pad_before putch w c s).
Proof.
  intros H. apply (osim_loop (λ a b, a.1 = b.1 ∧ RS a.2 b.2)); [|done|done].
  intros [w1 t1] [w2 s1] [[= ->] H1]. eapply osim_bind; [apply osim_refl|]. intros w' ? <-.
  destruct (0 <? w'); [|by apply osim_ret].
  eapply osim_bind; [by apply putch_sim|]. intros t2 s2 H2. by apply osim_ret.
Qed.

Lemma pad_after_sim w c t s : RS t s → osim RS (pad_after logput w c t) (pad_after putch w c s).
Proof.
  intros H. apply (osim_loop (λ a b, a.1 = b.1 ∧ RS a.2 b.2)); [|done|done].
  intros [w1 t1] [w2 s1] [[= ->] H1]. destruct (0 <? w2); [|by apply osim_ret].
  eapply osim_bind; [by apply putch_sim|]. intros t2 s2 H2. by apply osim_ret.
Qed.

Lemma printnum_sim n : ∀ num base w c t s,
  RS t s → osim RS (printnum_n logput n num base w c t) (printnum_n putch n num base w c s).
Proof.
  induction n as [|n IH]; intros num base w c t s H; [apply osim_err|]. cbn [printnum_n].
  eapply osim_bind; [apply osim_refl|]. intros rm ? <-.
  eapply (osim_bind RS).
  - destruct (base <=? num); [|by apply pad_before_sim].
    eapply osim_bind; [apply osim_refl|]. intros w' ? <-. by apply IH.
  - intros t1 s1 H1. eapply osim_bind; [apply osim_refl|]. intros d ? <-. by apply putch_sim.
Qed.

Lemma copy_text_sim fmt t s :
  RS t s → osim (λ a b, a.1 = b.1 ∧ RS a.2 b.2) (copy_text logput fmt t) (copy_text putch fmt s).
Proof.
  intros H. apply (osim_loop (λ a b, a.1 = b.1 ∧ RS a.2 b.2)); [|by apply fuel_sub, RS_sub|done].
  intros [f1 t1] [f2 s1] [[= ->] H1]. cbn in H1.
  eapply osim_bind; [by apply ldb_sub, RS_sub|]. intros b ? <-.
  destruct (b =? 37); [by apply osim_ret|]. destruct (b =? 0); [by apply osim_ret|].
  eapply osim_bind; [by apply putch_sim|]. intros t2 s2 H2. by apply osim_ret.
Qed.

Lemma read_digits_sim (m : mem) fmt ch : m0 ⊆ m → osim eq (read_digits m0 fmt ch) (read_digits m fmt ch).
Proof.
  intros H. apply (osim_loop eq); [|by apply fuel_sub|done]. intros [[f p] c] ? <-.
  do 3 (eapply osim_bind; [apply osim_refl|]; intros ? ? <-).
  eapply osim_bind; [by apply ldb_sub|]. intros b ? <-. cbn beta zeta.
  destruct ((schar b <? 48) || (57 <? schar b)); by apply osim_ret.
Qed.

Lemma reswitch_sim (m : mem) sp : m0 ⊆ m → osim eq (reswitch m0 sp) (reswitch m sp).
Proof.
  intros H. apply (osim_loop eq); [|by apply fuel_sub|done]. intros sp1 ? <-. unfold reswitch_step.
  eapply osim_bind; [by apply ldb_sub|]. intros ch ? <-. cbn beta zeta.
  repeat (destruct (_ =? _); [by first [apply osim_ret | eapply osim_bind; [apply osim_refl|]; intros ? ? <-; apply osim_ret]|]).
  destruct ((49 <=? ch) && (ch <=? 57)).
  - eapply osim_bind; [by apply read_digits_sim|]. intros fp ? <-. by apply osim_ret.
  - repeat (destruct (_ =? _); [by first [apply osim_ret | eapply osim_bind; [apply osim_refl|]; intros ? ? <-; apply osim_ret]|]).
    by apply osim_ret.
Qed.
Lemma back_sim (m : mem) fmt : m0 ⊆ m → osim eq (back_to_percent m0 fmt) (back_to_percent m fmt).
Proof.
  intros H. apply (osim_loop eq); [|by apply fuel_sub|done]. intros f ? <-.
  eapply osim_bind; [by apply ldb_sub|]. intros b ? <-. by destruct (b =? 37); apply osim_ret.
Qed.

Lemma strnlen_sim (m : mem) p n : m0 ⊆ m → osim eq (strnlen m0 p n) (strnlen m p n).
Proof.
  intros H. apply (osim_loop eq); [|by apply fuel_sub|done]. intros [f c] ? <-.
  destruct (c <? n); [|by apply osim_ret].
  eapply osim_bind; [by apply ldb_sub|]. intros b ? <-. by destruct (b =? 0); apply osim_ret.
Qed.

(** Pairs of equal values and related states. *)
Definition VS {A} (x : A * (mem * list Z)) (y : A * (mem * D)) : Prop := x.1 = y.1 ∧ RS x.2 y.2.

Lemma put_chars_sim alt p q w t s :
  RS t s → osim VS (put_chars logput alt p q w t) (put_chars putch alt p q w s).
Proof.
  intros H. apply (osim_loop (λ a b, a.1 = b.1 ∧ RS a.2 b.2)); [|by apply fuel_sub, RS_sub|done].
  intros [[[p1 q1] w1] t2] [[[p2 q2] w2] s2] [[= -> -> ->] H2]. cbn in H2.
  eapply osim_bind; [by apply ldb_sub, RS_sub|]. intros b ? <-. cbn beta zeta.
  destruct (schar b =? 0); [by apply osim_ret|].
  eapply osim_bind; [apply osim_refl|]. intros c ? <-. destruct c.1; [|by apply osim_ret].
  eapply osim_bind; [by apply putch_sim|]. intros t3 s3 H3.
  eapply osim_bind; [apply osim_refl|]. intros w3 ? <-. by apply osim_ret.
Qed.

Lemma print_string_sim sp p t s :
  RS t s → osim RS (print_string logput lits sp p t) (print_string putch lits sp p s).
Proof.
  intros H. unfold print_string. eapply (osim_bind VS).
  - destruct ((0 <? s_width sp) && negb (s_padc sp =? 45)); [|by apply osim_ret].
    eapply osim_bind; [destruct H as [-> ?]; by eapply strnlen_sim, R_sub|]. intros n ? <-.
    eapply osim_bind; [by apply pad_after_sim|]. intros t1 s1 H1. by apply osim_ret.
  - intros [w t1] [w' s1] [[= ->] H1]. eapply (osim_bind VS); [by apply put_chars_sim|].
    intros [w2 t2] [w2' s2] [[= ->] H2]. by apply pad_after_sim.
Qed.

(** Results of a conversion. *)
Lemma number_sim sp num base ap t s :
  RS t s →
  osim VS (t ← printnum logput num base (s_width sp) (s_padc sp) t; Ok (s_fmt sp, ap : list Z, t))
    (s ← printnum putch num base (s_width sp) (s_padc sp) s; Ok (s_fmt sp, ap, s)).
Proof.
  intros H. eapply osim_bind; [by apply printnum_sim|]. intros t1 s1 H1. by apply osim_ret.
Qed.

Lemma conversion_sim rec rec' ch sp t s :
  (∀ f ap t s, RS t s → osim RS (rec f ap t) (rec' f ap s)) → RS t s →
  osim VS (conversion logput lits rec ch sp t) (conversion putch lits rec' ch sp s).
Proof.
  intros Hrec H. unfold conversion.
  destruct (ch =? 99).
  { eapply osim_bind; [apply osim_refl|]. intros va ? <-.
    eapply osim_bind; [by apply putch_sim|]. intros t1 s1 H1. by apply osim_ret. }
  destruct (ch =? 101).
  { eapply osim_bind; [apply osim_refl|]. intros va ? <-.
    eapply osim_bind; [apply osim_refl|]. intros err ? <-.
    eapply osim_bind; [apply osim_refl|]. intros p ? <-.
    eapply (osim_bind RS); [destruct (p =? 0); by apply Hrec|]. intros t1 s1 H1. by apply osim_ret. }
  destruct (ch =? 115).
  { eapply osim_bind; [apply osim_refl|]. intros va ? <-.
    eapply osim_bind; [by apply print_string_sim|]. intros t1 s1 H1. by apply osim_ret. }
  destruct (ch =? 100).
  { eapply osim_bind; [apply osim_refl|]. intros va ? <-.
    eapply (osim_bind VS).
    - destruct (va.1 <? 0); [|by apply osim_ret].
      eapply osim_bind; [by apply putch_sim|]. intros t1 s1 H1.
      eapply osim_bind; [apply osim_refl|]. intros n ? <-. by apply osim_ret.
    - intros [n t1] [n' s1] [[= ->] H1]. by apply number_sim. }
  do 2 (destruct (_ =? _); [eapply osim_bind; [apply osim_refl|]; intros va ? <-; by apply number_sim|]).
  destruct (ch =? 112).
  { eapply osim_bind; [by apply putch_sim|]. intros t1 s1 H1.
    eapply osim_bind; [by apply putch_sim|]. intros t2 s2 H2.
    eapply osim_bind; [apply osim_refl|]. intros va ? <-. by apply number_sim. }
  destruct (_ =? _); [eapply osim_bind; [apply osim_refl|]; intros va ? <-; by apply number_sim|].
  destruct (ch =? 37).
  { eapply osim_bind; [by apply putch_sim|]. intros t1 s1 H1. by apply osim_ret. }
  eapply osim_bind; [by apply putch_sim|]. intros t1 s1 H1.
  eapply osim_bind; [destruct H1 as [-> ?]; by eapply back_sim, R_sub|]. intros f ? <-. by apply osim_ret.
Qed.

Lemma vprintfmt_sim n : ∀ fmt ap t s,
  RS t s → osim RS (vprintfmt_n logput lits n fmt ap t) (vprintfmt_n putch lits n fmt ap s).
Proof.
  induction n as [|n IH]; intros fmt ap t s H; [apply osim_err|]. cbn [vprintfmt_n].
  apply (osim_loop VS); [|by apply fuel_sub, RS_sub|done].
  intros [[f ap1] t1] [[f2 ap2] s1] [[= -> ->] H1]. cbn in H1.
  eapply osim_bind; [by apply copy_text_sim|]. intros [o t2] [o' s2] [[= ->] H2].
  destruct o' as [f3|]; [|by apply osim_ret].
  cbn in H2. eapply osim_bind; [destruct H2 as [E ?]; rewrite E; by eapply reswitch_sim, R_sub|]. intros cs ? <-.
  eapply osim_bind; [by apply conversion_sim|]. intros r r' Hr. by apply osim_ret.
Qed.

(** A call that produces [l] as text drives the callback through [l]. *)
Lemma vprintfmt_text fmt ap s l :
  text lits m0 fmt ap = Ok l → R s [] →
  ∃ s', vprintfmt putch lits fmt ap s = Ok s' ∧ R s' l.
Proof.
  unfold text. intros (t & Ht & [= <-])%bind_Ok HR.
  destruct (vprintfmt_sim 2 fmt ap (m0, []) s) with (a := t) as (s' & Hs & [_ H]); [by split|done|].
  by exists s'.
Qed.
End simulation.

(** ** The buffer *)

(** The state of [sprintputch] after the characters [log], for a buffer of
    [size] bytes at [str] in the memory [m]. *)
Definition buffer_inv (m0 m : mem) (str size : Z) (s : mem * sprintbuf) (log : list Z) : Prop :=
  let stored := take (Z.to_nat (size - 1)) log in
  m0 ⊆ s.1 ∧ cnt s.2 = zlen log ∧ buf s.2 = str + zlen stored ∧ ebuf s.2 = str + size - 1 ∧
  s.1 = put m str stored.

Lemma sprintputch_inv (m0 m : mem) str size c s log :
  mapped m str (Z.to_nat size) → 1 ≤ size →
  (∀ a, is_Some (m0 !! a) → ¬ (str ≤ a < str + size)) →
  buffer_inv m0 m str size s log → zlen log < int_max →
  ∃ s', sprintputch c s = Ok s' ∧ buffer_inv m0 m str size s' (log ++ [c]).
Proof.
  intros Hm Hsz Hdis (Hsub & Hcnt & Hbuf & Hebuf & Hput) Hlen. destruct s as [m1 b]. cbn in *.
  pose proof (zlen_nonneg log). unfold sprintputch.
  rewrite Hcnt, cint_Ok by (unfold int_min, int_max in *; lia). cbn [mbind outcome_bind].
  rewrite Hbuf, Hebuf in *. set (k := Z.to_nat (size - 1)) in *.
  assert (zlen (take k log) = Z.min (Z.of_nat k) (zlen log)) as Ht.
  { unfold zlen. rewrite length_take. lia. }
  destruct (Z.ltb_spec (str + zlen (take k log)) (str + size - 1)) as [Hlt|Hge].
  - assert (length log < k)%nat as Hk by (unfold zlen in *; lia).
    assert (take k log = log) as E by (apply take_ge; lia). rewrite E in *.
    assert (take k (log ++ [c]) = log ++ [c]) as E' by (apply take_ge; rewrite length_app; cbn; lia).
    rewrite stb_Ok.
    + cbn [mbind outcome_bind]. eexists. split; [done|]. unfold buffer_inv. cbn. fold k.
      rewrite E', !zlen_app. change (zlen [c]) with 1. split_and!; [|lia|lia|lia|].
      * apply map_subseteq_spec. intros a x Ha. rewrite lookup_insert_ne; [by eapply lookup_weaken|].
        intros <-. apply (Hdis (str + zlen log)); [by eexists|]. lia.
      * by rewrite put_snoc, Hput.
    + rewrite Hput. destruct (put_mapped m str log str _ Hm (length log)) as [x Hx]; [unfold k in *; lia|].
      unfold zlen. by exists x.
  - eexists. split; [done|]. unfold buffer_inv. cbn. fold k.
    assert (k ≤ length log)%nat by (unfold zlen in *; lia).
    rewrite take_app_le by lia. rewrite zlen_app. change (zlen [c]) with 1. split_and!; done || lia.
Qed.

Lemma vsnprintf_ok lits (m0 m : mem) str size fmt ap l :
  text lits m0 fmt ap = Ok l → m0 ⊆ m →
  (∀ a, is_Some (m0 !! a) → ¬ (str ≤ a < str + size)) →
  0 < str → 1 ≤ size → str + size ≤ 2 ^ 32 → mapped m str (Z.to_nat size) →
  ∃ m', vsnprintf lits str size fmt ap m = Ok (zlen l, m') ∧
    bytes_at m' str (((λ c, c mod 256) <$> take (Z.to_nat (size - 1)) l) ++ [0]) ∧
    ∀ a, ¬ (str ≤ a < str + size) → m' !! a = m !! a.
Proof.
  intros Ht Hsub Hdis Hstr Hsz Hwrap Hm. unfold vsnprintf.
  rewrite u32_small by lia. cbn [buf ebuf]. rewrite (proj2 (Z.eqb_neq str 0)) by lia.
  rewrite (proj2 (Z.ltb_ge (str + size - 1) str)) by lia. cbn [orb].
  set (s0 := (m, Sprintbuf str (str + size - 1) 0)).
  destruct (vprintfmt_text sprintputch lits m0 (buffer_inv m0 m str size)) with (fmt := fmt) (ap := ap)
    (s := s0) (l := l) as ([m1 b1] & Hrun & Hinv); [..|done| |].
  - by intros s log (H & _).
  - intros c s log. by apply sprintputch_inv.
  - unfold buffer_inv, zlen. rewrite take_nil. cbn. split_and!; done || lia.
  - rewrite Hrun. destruct Hinv as (_ & Hcnt & Hbuf & Hebuf & Hput). cbn in *. subst m1.
    set (w := take (Z.to_nat (size - 1)) l) in *.
    assert (zlen w ≤ size - 1) as Hw by (unfold w, zlen; rewrite length_take; lia).
    rewrite Hbuf, stb_Ok; cbn [mbind outcome_bind].
    + rewrite Hcnt. eexists. split; [done|]. rewrite <-put_snoc. split.
      * assert (∀ k p M, put M p ((λ c, c mod 256) <$> k) = put M p k) as Hmod.
        { induction k as [|c k IH]; intros p M; [done|]. cbn. by rewrite Z.mod_mod, IH. }
        rewrite <-Hmod, fmap_app. apply put_bytes. apply Forall_app. split; [|by repeat constructor].
        apply Forall_fmap, Forall_true. intros c. apply Z.mod_pos_bound. lia.
      * intros a Ha. rewrite put_lookup, decide_False; [done|]. rewrite zlen_app. change (zlen [0]) with 1. lia.
    + destruct (put_mapped m str w str _ Hm (length w)) as [x Hx]; [unfold zlen in Hw; lia|].
      unfold zlen. by exists x.
Qed.

(** ** Numbers *)

Lemma do_div_spec n base :
  0 ≤ n < 2 ^ 64 → 1 ≤ base < 2 ^ 32 → do_div n base = Ok (n / base, n mod base).
Proof.
  intros Hn Hb. unfold do_div.
  pose proof (Z.div_mod n (2 ^ 32) ltac:(lia)) as Hnd. pose proof (Z.mod_pos_bound n (2 ^ 32) ltac:(lia)).
  assert (0 ≤ n / 2 ^ 32) by (apply Z.div_pos; lia).
  set (lo := n mod 2 ^ 32) in *. set (hi := n / 2 ^ 32) in *.
  pose proof (Z.div_mod hi base ltac:(lia)). pose proof (Z.mod_pos_bound hi base ltac:(lia)).
  assert ((if hi =? 0 then Ok (hi, hi) else if base =? 0 then Err Undef else Ok (hi mod base, hi / base))
    = Ok (hi mod base, hi / base)) as ->.
  { destruct (Z.eqb_spec hi 0) as [->|]; [by rewrite Z.mod_0_l, Z.div_0_l by lia|].
    by rewrite (proj2 (Z.eqb_neq base 0)) by lia. }
  cbn [mbind outcome_bind fst snd]. unfold divl. rewrite (proj2 (Z.ltb_lt (hi mod base) base)) by lia.
  cbn [mbind outcome_bind fst snd].
  assert (n = (hi mod base * 2 ^ 32 + lo) + (hi / base * 2 ^ 32) * base) as En by lia.
  rewrite En at 1 2. rewrite Z.div_add, Z.mod_add by lia. do 2 f_equal; lia.
Qed.

(** The character of a digit. *)
Definition digit_char (d : Z) : Z := if d <? 10 then 48 + d else 87 + d.

Fixpoint number_n (fuel : nat) (base n : Z) : list Z :=
  match fuel with
  | O => []
  | S fuel =>
      (if base <=? n then number_n fuel base (n / base) else []) ++ [digit_char (n mod base)]
  end.

(** The digits of [n] in [base]. *)
Definition number (base n : Z) : list Z := number_n 64 base n.
#[global] Arguments number : simpl never.

Lemma hexdigits_char d : 0 ≤ d < 16 → hexdigits.[d] = Ok (digit_char d).
Proof.
  intros H. assert (d ∈ seqZ 0 16) as Hin by (apply elem_of_seqZ; lia). revert d Hin H.
  assert (Forall (λ d, hexdigits.[d] = Ok (digit_char d)) (seqZ 0 16)) as HF by (by repeat constructor).
  rewrite Forall_forall in HF. auto.
Qed.

Lemma digit_char_digit d : 0 ≤ d < 16 → digit (digit_char d) = Some d.
Proof.
  intros H. assert (d ∈ seqZ 0 16) as Hin by (apply elem_of_seqZ; lia). revert d Hin H.
  assert (Forall (λ d, digit (digit_char d) = Some d) (seqZ 0 16)) as HF by (by repeat constructor).
  rewrite Forall_forall in HF. auto.
Qed.

Lemma number_n_digits base fuel : ∀ n,
  2 ≤ base ≤ 16 → 0 ≤ n → digits_of base (number_n fuel base n).
Proof.
  induction fuel as [|fuel IH]; intros n Hb Hn; cbn; [constructor|].
  pose proof (Z.mod_pos_bound n base ltac:(lia)).
  apply Forall_app. split.
  - destruct (base <=? n); [apply IH; [done|]|constructor]. apply Z.div_pos; lia.
  - repeat constructor. exists (n mod base). split; [|lia]. apply digit_char_digit. lia.
Qed.

Lemma value_from_app base v l k : value_from base v (l ++ k) = value_from base (value_from base v l) k.
Proof. apply foldl_app. Qed.

Lemma div_lt_pow n base fuel : 2 ≤ base → 0 ≤ n < 2 ^ Z.of_nat (S fuel) → 0 ≤ n / base < 2 ^ Z.of_nat fuel.
Proof.
  intros Hb Hn. split; [apply Z.div_pos; lia|]. apply Z.div_lt_upper_bound; [lia|].
  rewrite Nat2Z.inj_succ, Z.pow_succ_r in Hn by lia. nia.
Qed.

Lemma number_n_value base fuel : ∀ n,
  2 ≤ base ≤ 16 → 0 ≤ n < 2 ^ Z.of_nat fuel → value_from base 0 (number_n fuel base n) = n.
Proof.
  induction fuel as [|fuel IH]; intros n Hb Hn; cbn [number_n].
  { change (2 ^ Z.of_nat 0) with 1 in Hn. cbn. lia. }
  pose proof (Z.mod_pos_bound n base ltac:(lia)) as Hmod.
  pose proof (Z.div_mod n base ltac:(lia)) as Hdm.
  rewrite value_from_app. cbn [value_from foldl].
  rewrite digit_char_digit by lia. cbn [default id].
  destruct (Z.leb_spec base n).
  - rewrite IH; [lia|done|]. apply div_lt_pow; lia.
  - cbn. rewrite Z.mod_small by lia. lia.
Qed.

(** No leading zero. *)
Lemma number_n_head base fuel : ∀ n c ds,
  2 ≤ base ≤ 16 → 0 < n < 2 ^ Z.of_nat fuel → number_n fuel base n = c :: ds → c ≠ 48.
Proof.
  induction fuel as [|fuel IH]; intros n c ds Hb Hn E; [done|]. cbn [number_n] in E.
  destruct (Z.leb_spec base n).
  - destruct (number_n fuel base (n / base)) as [|c' ds'] eqn:E'.
    + pose proof (number_n_value base fuel (n / base) Hb) as Hv. rewrite E' in Hv. cbn in Hv.
      pose proof (div_lt_pow n base fuel ltac:(lia) ltac:(lia)).
      assert (1 ≤ n / base) by (apply Z.div_le_lower_bound; lia). lia.
    + simplify_eq/=. apply (IH (n / base) c ds'); [done| |done].
      pose proof (div_lt_pow n base fuel ltac:(lia) ltac:(lia)).
      assert (1 ≤ n / base) by (apply Z.div_le_lower_bound; lia). lia.
  - simplify_eq/=. rewrite Z.mod_small by lia. unfold digit_char. case_match; lia.
Qed.

Lemma digit_char_range d : 0 ≤ d < 16 → 48 ≤ digit_char d ≤ 102.
Proof. unfold digit_char. case_match; lia. Qed.

Lemma number_n_bytes base fuel : ∀ n,
  2 ≤ base ≤ 16 → Forall (λ c, 48 ≤ c ≤ 102) (number_n fuel base n).
Proof.
  induction fuel as [|fuel IH]; intros n Hb; cbn; [constructor|].
  apply Forall_app. split; [by destruct (base <=? n); [apply IH|constructor]|].
  repeat constructor; apply digit_char_range; pose proof (Z.mod_pos_bound n base); lia.
Qed.

Lemma number_n_length base fuel n : (length (number_n fuel base n) ≤ fuel)%nat.
Proof.
  revert n. induction fuel as [|fuel IH]; intros n; cbn; [done|]. rewrite length_app. cbn.
  destruct (base <=? n); cbn; [specialize (IH (n / base)); lia|lia].
Qed.

Lemma number_nonempty base n : number base n ≠ [].
Proof. unfold number. intros E%(f_equal length). cbn [number_n] in E. rewrite length_app in E. cbn in E. lia. Qed.

(** *** printnum *)

Lemma mfold_app {A S} (f : A → S → outcome S) l k s :
  mfold f (l ++ k) s = s ← mfold f l s; mfold f k s.
Proof.
  revert s. induction l as [|x l IH]; intros s; cbn; [done|]. destruct (f x s); cbn; [apply IH|done].
Qed.

Section number.
Context {D : Type} (putch : Z → mem * D → outcome (mem * D)).

Lemma pad_before_spec c : ∀ n w s,
  n = Z.to_nat (w - 1) → int_min < w ≤ int_max →
  pad_before putch w c s = mfold putch (replicate n c) s.
Proof.
  intros n w s Hn Hw. unfold pad_before. assert (n < S (Z.to_nat w))%nat as Hf by lia. revert Hf.
  generalize (S (Z.to_nat w)) as f. revert w s Hn Hw.
  induction n as [|n IH]; intros w s Hn Hw f Hf; (destruct f as [|f]; [lia|]); rewrite loop_unfold;
    rewrite cint_Ok by lia; cbn [mbind outcome_bind].
  - by rewrite (proj2 (Z.ltb_ge 0 (w - 1))) by lia.
  - rewrite (proj2 (Z.ltb_lt 0 (w - 1))) by lia. cbn [replicate mfold].
    destruct (putch c s); cbn [mbind outcome_bind]; [|done]. apply IH; unfold int_min in *; lia.
Qed.

Lemma pad_after_spec c : ∀ n w s,
  n = Z.to_nat w → pad_after putch w c s = mfold putch (replicate n c) s.
Proof.
  intros n w s Hn. unfold pad_after. assert (n < S (Z.to_nat w))%nat as Hf by lia. revert Hf.
  generalize (S (Z.to_nat w)) as f. revert w s Hn.
  induction n as [|n IH]; intros w s Hn f Hf; (destruct f as [|f]; [lia|]); rewrite loop_unfold.
  - by rewrite (proj2 (Z.ltb_ge 0 w)) by lia.
  - rewrite (proj2 (Z.ltb_lt 0 w)) by lia. cbn [replicate mfold].
    destruct (putch c s); cbn [mbind outcome_bind]; [|done]. apply IH; lia.
Qed.

Lemma printnum_n_spec base c fuel : ∀ num w s,
  2 ≤ base ≤ 16 → 0 ≤ num < 2 ^ Z.of_nat fuel → (1 ≤ fuel ≤ 64)%nat →
  int_min + Z.of_nat fuel ≤ w ≤ int_max →
  printnum_n putch fuel num base w c s =
    mfold putch (replicate (Z.to_nat (w - zlen (number_n fuel base num))) c ++ number_n fuel base num) s.
Proof.
  induction fuel as [|fuel IH]; intros num w s Hb Hn Hf Hw.
  { lia. }
  assert (2 ^ Z.of_nat (S fuel) ≤ 2 ^ 64) by (apply Z.pow_le_mono_r; lia).
  pose proof (Z.mod_pos_bound num base ltac:(lia)).
  cbn [printnum_n number_n]. rewrite do_div_spec by lia. cbn [mbind outcome_bind fst snd].
  rewrite hexdigits_char by lia. cbn [mbind outcome_bind].
  rewrite (assoc_L (++)), mfold_app. rewrite zlen_app. change (zlen [digit_char (num mod base)]) with 1.
  destruct (Z.leb_spec base num).
  - rewrite cint_Ok by lia. cbn [mbind outcome_bind].
    assert (fuel ≠ 0%nat) by (intros ->; change (2 ^ Z.of_nat 1) with 2 in Hn; lia).
    rewrite IH; [|done|by apply div_lt_pow; lia|lia|lia].
    replace (w - 1 - zlen (number_n fuel base (num / base)))
      with (w - (zlen (number_n fuel base (num / base)) + 1)) by lia.
    destruct (mfold putch _ s) as [s1|]; cbn; [|done]. by destruct (putch _ s1).
  - change (zlen (A := Z) []) with 0. rewrite app_nil_r. rewrite (pad_before_spec c _ w s eq_refl) by lia.
    replace (w - (0 + 1)) with (w - 1) by lia.
    destruct (mfold putch _ s) as [s1|]; cbn; [|done]. by destruct (putch _ s1).
Qed.

End number.

(** [printnum] prints the digits of the number in its base, without
    leading zeros and behind enough padding to fill the width, for every
    callback and every base from 2 to 16; read back as a number the digits have
    the value that was printed. *)
Lemma printnum_prints {D} (putch : Z → mem * D → outcome (mem * D)) num base width padc s :
  2 ≤ base ≤ 16 → 0 ≤ num < 2 ^ 64 → int_min + 64 ≤ width ≤ int_max →
  printnum putch num base width padc s =
    mfold putch (replicate (Z.to_nat (width - zlen (number base num))) padc ++ number base num) s ∧
  digits_of base (number base num) ∧ value_from base 0 (number base num) = num ∧
  (∀ ds, number base num = 48 :: ds → num = 0).
Proof.
  intros Hb Hn Hw. split; [by apply printnum_n_spec; [done|done|lia|]|].
  split; [apply number_n_digits; lia|]. split; [by apply number_n_value|].
  intros ds E. destruct (decide (num = 0)); [done|]. exfalso.
  by apply (number_n_head base 64 num 48 ds); [done|lia| |].
Qed.

Lemma printnum_prints_witness :
  printnum (λ c s, Ok (s.1, s.2 ++ [c])) 255 16 4 48 (∅ : mem, []) =
    mfold (λ c s, Ok (s.1, s.2 ++ [c])) [48; 48; 102; 102] (∅ : mem, []) ∧
  digits_of 16 (number 16 255) ∧ value_from 16 0 (number 16 255) = 255 ∧
  (∀ ds, number 16 255 = 48 :: ds → 255 = 0).
Proof. by apply (printnum_prints (λ c s, Ok (s.1, s.2 ++ [c])) 255 16 4 48 (∅, [])). Defined.

(** With base 1, which the comment of [printnum] allows, the recursion has no
    end: no depth gives a result. *)
Lemma printnum_base_1 {D} (putch : Z → mem * D → outcome (mem * D)) fuel : ∀ num w c s,
  1 ≤ num < 2 ^ 64 → ∀ s', printnum_n putch fuel num 1 w c s ≠ Ok s'.
Proof.
  induction fuel as [|fuel IH]; intros num w c s Hn s' H; [done|]. cbn [printnum_n] in H.
  rewrite do_div_spec in H by lia. cbn [mbind outcome_bind fst snd] in H.
  rewrite (proj2 (Z.leb_le 1 num)), Z.div_1_r in H by lia.
  apply bind_Ok in H as (s1 & (w' & _ & H1)%bind_Ok & _). by eapply IH.
Qed.

(** ** Formats written as directives *)

Inductive conv := Cc | Cs | Cd | Cu | Co | Cx | Cp | Cpct.

Record directive := Directive {
  d_pad : option Z;       (** '-' or '0' *)
  d_alt : bool;           (** '#' *)
  d_width : option Z;
  d_prec : option Z;
  d_long : nat;           (** how many 'l' *)
  d_conv : conv
}.

Definition conv_char (c : conv) : Z :=
  match c with
  | Cc => 99 | Cs => 115 | Cd => 100 | Cu => 117 | Co => 111 | Cx => 120 | Cp => 112 | Cpct => 37
  end.

(** How a directive is written, behind its '%'. *)
Definition print_directive (d : directive) : list Z :=
  match d_pad d with Some c => [c] | None => [] end ++
  (if d_alt d then [35] else []) ++
  match d_width d with Some w => number 10 w | None => [] end ++
  match d_prec d with Some p => 46 :: number 10 p | None => [] end ++
  replicate (d_long d) 108 ++ [conv_char (d_conv d)].

Definition small (o : option Z) : Prop := match o with Some w => 1 ≤ w < 100000000 | None => True end.

Definition directive_ok (d : directive) : Prop :=
  match d_pad d with Some c => c = 45 ∨ c = 48 | None => True end ∧
  small (d_width d) ∧ small (d_prec d) ∧ (d_long d ≤ 2)%nat.

(** What the directive leaves in the variables of [vprintfmt]. *)
Definition pad_of (d : directive) : Z := default 32 (d_pad d).
Definition width_of (d : directive) : Z :=
  match d_width d with Some w => w | None => match d_prec d with Some _ => 0 | None => -1 end end.
Definition prec_of (d : directive) : Z := default (-1) (d_prec d).

Definition spec_of (d : directive) (fmt : Z) (ap : list Z) : spec :=
  Spec fmt (pad_of d) (width_of d) (prec_of d) (Z.of_nat (d_long d)) (d_alt d) ap.

Lemma digit_10 c d : digit c = Some d → d < 10 → 0 < c < 256 → 48 ≤ c ≤ 57 ∧ schar c = c ∧ d = c - 48.
Proof.
  unfold digit, schar. intros H Hd Hc. destruct (Z.ltb_spec c 128); repeat case_match; simplify_eq;
    rewrite ?andb_true_iff, ?andb_false_iff, ?Z.leb_le, ?Z.leb_gt in *; lia.
Qed.

Lemma read_digits_loop e rest : ∀ n m f c acc,
  digits_of 10 (c :: rest) → Forall (λ c, 0 < c < 256) (c :: rest) → ¬ (48 ≤ schar e ≤ 57) →
  bytes_at m f (rest ++ [e]) → 0 ≤ acc → value_from 10 acc (c :: rest) < 100000000 →
  (length rest < n)%nat →
  loop n
    (λ st, let '(fmt, precision, ch) := st in
       p ← cint (precision * 10);
       p ← cint (p + ch);
       p ← cint (p - 48);
       b ← ldb m fmt;
       let ch := schar b in
       if (ch <? 48) || (57 <? ch) then Ok (inr (fmt, p)) else Ok (inl (fmt + 1, p, ch)))
    (f, acc, c) = Ok (f + zlen rest, value_from 10 acc (c :: rest)).
Proof.
  induction rest as [|c2 rest IH]; intros n m f c acc Hd Hby He Hm Hacc Hmax Hn; (destruct n as [|n]; [cbn in Hn; lia|]);
    rewrite loop_unfold;
    pose proof Hd as [(d & Hc & Hlt) Hd']%Forall_cons; pose proof Hby as [Hby1 Hby']%Forall_cons;
  destruct (digit_10 _ _ Hc Hlt Hby1) as (Hr & Hs & ->);
    rewrite value_from_cons, Hc in *; cbn [default id] in *;
    pose proof (value_from_mono 10 (acc * 10 + (c - 48)) _ ltac:(lia) ltac:(lia) Hd');
    do 3 (rewrite cint_Ok by (unfold int_min, int_max; lia); cbn [mbind outcome_bind]);
    pose proof Hm as [Hb Hm']%bytes_at_cons; rewrite (proj2 (ldb_Ok _ _ _) Hb); cbn [mbind outcome_bind].
  - assert ((schar e <? 48) || (57 <? schar e) = true) as ->.
    { apply orb_true_iff. rewrite !Z.ltb_lt. lia. }
    cbn [mbind outcome_bind value_from foldl]. change (zlen (A := Z) []) with 0. do 2 f_equal; lia.
  - pose proof Hd' as [(d2 & Hc2 & Hlt2) _]%Forall_cons. pose proof Hby' as [Hby2 _]%Forall_cons.
    destruct (digit_10 _ _ Hc2 Hlt2 Hby2) as (Hr2 & Hs2 & ->).
    rewrite Hs2, (proj2 (Z.ltb_ge c2 48)), (proj2 (Z.ltb_ge 57 c2)) by lia. cbn [orb mbind outcome_bind].
    replace (acc * 10 + c - 48) with (acc * 10 + (c - 48)) by lia.
    rewrite IH by (done || lia || (cbn in Hn; lia)). do 2 f_equal. unfold zlen. cbn. lia.
Qed.

Lemma read_digits_spec m f c rest e w :
  number 10 w = c :: rest → 1 ≤ w < 100000000 → ¬ (48 ≤ schar e ≤ 57) →
  bytes_at m f (rest ++ [e]) →
  read_digits m f c = Ok (f + zlen rest, w).
Proof.
  intros En Hw He Hm.
  assert (Forall (λ c, 0 < c < 256) (c :: rest)) as Hby.
  { rewrite <-En. eapply Forall_impl; [apply number_n_bytes; lia|]. cbn. lia. }
  assert (digits_of 10 (c :: rest)) as Hd by (rewrite <-En; apply number_n_digits; lia).
  assert (value_from 10 0 (c :: rest) = w) as Hv by (rewrite <-En; apply number_n_value; lia).
  pose proof Hm as Hf%bytes_mapped%mapped_size. rewrite length_app in Hf. cbn in Hf.
  unfold read_digits. rewrite (read_digits_loop e rest) by (done || (rewrite ?Hv; lia)).
  by rewrite Hv.
Qed.

(** [k] flags lead from [sp] to [sp']. *)
Definition rsteps (m : mem) (k : nat) (sp sp' : spec) : Prop :=
  ∀ n, loop (k + n) (reswitch_step m) sp = loop n (reswitch_step m) sp'.

Lemma rsteps_trans m k k' sp1 sp2 sp3 :
  rsteps m k sp1 sp2 → rsteps m k' sp2 sp3 → rsteps m (k + k') sp1 sp3.
Proof. intros H1 H2 n. by rewrite <-Nat.add_assoc, H1, H2. Qed.

Lemma rsteps_one m sp sp' : reswitch_step m sp = Ok (inl sp') → rsteps m 1 sp sp'.
Proof. intros H n. cbn [Nat.add]. by rewrite loop_unfold, H. Qed.

Lemma rsteps_zero m sp : rsteps m 0 sp sp.
Proof. by intros n. Qed.

(** A step on a character that is known. *)
Ltac rstep Hc :=
  unfold reswitch_step; cbn [s_fmt]; rewrite (proj2 (ldb_Ok _ _ _) Hc); cbn [mbind outcome_bind].

Lemma rs_width m sp w e T :
  bytes_at m (s_fmt sp) (number 10 w ++ e :: T) → 1 ≤ w < 100000000 → ¬ (48 ≤ schar e ≤ 57) →
  rsteps m 1 sp (process_precision (set_fmt sp (s_fmt sp + zlen (number 10 w))) w).
Proof.
  intros Hm Hw He. apply rsteps_one.
  destruct (number 10 w) as [|c rest] eqn:En; [by apply number_nonempty in En|].
  apply bytes_at_cons in Hm as [Hc Hm]. rstep Hc.
  pose proof (number_n_digits 10 64 w ltac:(lia) ltac:(lia)) as Hd.
  pose proof (number_n_bytes 10 64 w ltac:(lia)) as Hby. fold (number 10 w) in Hd, Hby.
  rewrite En in Hd, Hby. apply Forall_cons in Hd as [(d & Hcd & Hlt) _]. apply Forall_cons in Hby as [Hby _].
  destruct (digit_10 _ _ Hcd Hlt ltac:(lia)) as (Hr & _ & _).
  assert (c ≠ 48) by (eapply (number_n_head 10 64 w); [lia|lia|exact En]).
  rewrite (proj2 (Z.eqb_neq c 45)), (proj2 (Z.eqb_neq c 48)), (proj2 (Z.leb_le 49 c)), (proj2 (Z.leb_le c 57)) by lia.
  cbn [andb]. rewrite (read_digits_spec m _ c rest e w); [|done|done|done|].
  - cbn [mbind outcome_bind fst snd]. do 2 f_equal. unfold set_fmt. cbn [s_fmt s_padc s_width s_precision s_lflag s_altflag s_ap].
    f_equal. f_equal. unfold zlen. cbn [length]. lia.
  - cbn [s_fmt set_fmt]. change (rest ++ [e]) with (rest ++ ([e] ++ [])).
    rewrite (bytes_at_app m (s_fmt sp + 1) rest (e :: T)) in Hm. destruct Hm as [H1 H2].
    apply bytes_at_app. split; [done|]. apply bytes_at_cons in H2 as [H2 _]. apply bytes_at_cons. split; [done|by intros [|]].
Qed.

Lemma rs_char m sp c sp' :
  m !! s_fmt sp = Some c →
  match c with
  | 45 => sp' = set_padc (set_fmt sp (s_fmt sp + 1)) 45
  | 48 => sp' = set_padc (set_fmt sp (s_fmt sp + 1)) 48
  | 35 => sp' = set_altflag (set_fmt sp (s_fmt sp + 1))
  | 46 => sp' = (if s_width sp <? 0 then set_width (set_fmt sp (s_fmt sp + 1)) 0 (s_precision sp)
                 else set_fmt sp (s_fmt sp + 1))
  | 108 => sp' = set_lflag (set_fmt sp (s_fmt sp + 1)) (s_lflag sp + 1) ∧ 0 ≤ s_lflag sp ≤ 10
  | _ => False
  end → rsteps m 1 sp sp'.
Proof.
  intros Hc H. apply rsteps_one. rstep Hc.
  destruct (decide (c = 45)) as [->|]; [by subst sp'|]. destruct (decide (c = 48)) as [->|]; [by subst sp'|].
  destruct (decide (c = 35)) as [->|]; [by subst sp'|]. destruct (decide (c = 46)) as [->|]; [by subst sp'|].
  destruct (decide (c = 108)) as [->|]; [|exfalso; repeat (case_match; try done)].
  destruct H as [-> Hl]. cbn [Z.eqb Z.leb Pos.eqb andb Z.compare Pos.compare Pos.compare_cont set_fmt s_lflag].
  by rewrite cint_Ok by (unfold int_min, int_max; lia).
Qed.

Lemma rs_longs m k : ∀ sp T,
  bytes_at m (s_fmt sp) (replicate k 108 ++ T) → 0 ≤ s_lflag sp → s_lflag sp + Z.of_nat k ≤ 10 →
  rsteps m k sp (set_lflag (set_fmt sp (s_fmt sp + Z.of_nat k)) (s_lflag sp + Z.of_nat k)).
Proof.
  induction k as [|k IH]; intros sp T Hm H0 Hk.
  - rewrite !Z.add_0_r. destruct sp. apply rsteps_zero.
  - apply bytes_at_cons in Hm as [Hc Hm]. apply (rsteps_trans m 1 k _ (set_lflag (set_fmt sp (s_fmt sp + 1)) (s_lflag sp + 1))).
    + apply (rs_char m sp 108); [done|]. split; [done|lia].
    + assert (set_lflag (set_fmt sp (s_fmt sp + Z.of_nat (S k))) (s_lflag sp + Z.of_nat (S k)) =
        set_lflag (set_fmt (set_lflag (set_fmt sp (s_fmt sp + 1)) (s_lflag sp + 1)) (s_fmt sp + 1 + Z.of_nat k))
          (s_lflag sp + 1 + Z.of_nat k)) as ->.
      { destruct sp. unfold set_lflag, set_fmt. cbn. f_equal; lia. }
      apply (IH (set_lflag (set_fmt sp (s_fmt sp + 1)) (s_lflag sp + 1)) T); cbn; [done|lia|lia].
Qed.

(** The parts of a written directive. *)
Definition pad_bytes (d : directive) : list Z := match d_pad d with Some c => [c] | None => [] end.
Definition alt_bytes (d : directive) : list Z := if d_alt d then [35] else [].
Definition width_bytes (d : directive) : list Z := match d_width d with Some w => number 10 w | None => [] end.
Definition prec_bytes (d : directive) : list Z := match d_prec d with Some p => 46 :: number 10 p | None => [] end.
Definition long_bytes (d : directive) : list Z := replicate (d_long d) 108.

Lemma print_directive_parts d :
  print_directive d = pad_bytes d ++ alt_bytes d ++ width_bytes d ++ prec_bytes d ++ long_bytes d ++ [conv_char (d_conv d)].
Proof. done. Qed.

Lemma long_head d : ∃ e T, long_bytes d ++ [conv_char (d_conv d)] = e :: T ∧ ¬ (48 ≤ schar e ≤ 57).
Proof.
  unfold long_bytes. destruct (d_long d) as [|k]; cbn; [|by eexists _, _; split; [done|cbn; lia]].
  eexists _, _. split; [done|]. destruct (d_conv d); cbn; lia.
Qed.

Lemma prec_head d : ∃ e T, prec_bytes d ++ long_bytes d ++ [conv_char (d_conv d)] = e :: T ∧ ¬ (48 ≤ schar e ≤ 57).
Proof.
  unfold prec_bytes. destruct (d_prec d); [|apply long_head]. eexists _, _. split; [done|]. cbn. lia.
Qed.

Lemma rs_pad m f w p l a ap d :
  bytes_at m f (pad_bytes d) → directive_ok d →
  rsteps m (length (pad_bytes d)) (Spec f 32 w p l a ap) (Spec (f + zlen (pad_bytes d)) (pad_of d) w p l a ap).
Proof.
  unfold pad_bytes, pad_of. intros Hm [Hp _]. destruct (d_pad d) as [c|]; cbn.
  - apply bytes_at_cons in Hm as [Hc _]. change (zlen [c]) with 1.
    destruct Hp as [-> | ->]; by eapply rs_char.
  - rewrite Z.add_0_r. apply rsteps_zero.
Qed.

Lemma rs_alt m f c w p l ap d :
  bytes_at m f (alt_bytes d) →
  rsteps m (length (alt_bytes d)) (Spec f c w p l false ap) (Spec (f + zlen (alt_bytes d)) c w p l (d_alt d) ap).
Proof.
  unfold alt_bytes. intros Hm. destruct (d_alt d); cbn.
  - apply bytes_at_cons in Hm as [Hc _]. by eapply rs_char.
  - rewrite Z.add_0_r. apply rsteps_zero.
Qed.

Lemma rs_width_opt m f c l a ap d e T :
  bytes_at m f (width_bytes d ++ e :: T) → directive_ok d → ¬ (48 ≤ schar e ≤ 57) →
  ∃ k, (k ≤ length (width_bytes d))%nat ∧
    rsteps m k (Spec f c (-1) (-1) l a ap) (Spec (f + zlen (width_bytes d)) c (default (-1) (d_width d)) (-1) l a ap).
Proof.
  unfold width_bytes. intros Hm (_ & Hw & _) He. destruct (d_width d) as [w|]; cbn in *.
  - exists 1%nat. split; [destruct (number 10 w) eqn:E; [by apply number_nonempty in E|cbn; lia]|].
    by apply (rs_width m (Spec f c (-1) (-1) l a ap) w e T).
  - exists 0%nat. split; [done|]. rewrite Z.add_0_r. apply rsteps_zero.
Qed.

Lemma rs_prec_opt m f c l a ap d e T :
  bytes_at m f (prec_bytes d ++ e :: T) → directive_ok d → ¬ (48 ≤ schar e ≤ 57) →
  ∃ k, (k ≤ length (prec_bytes d))%nat ∧
    rsteps m k (Spec f c (default (-1) (d_width d)) (-1) l a ap)
      (Spec (f + zlen (prec_bytes d)) c (width_of d) (prec_of d) l a ap).
Proof.
  unfold prec_bytes, width_of, prec_of. intros Hm (_ & Hw & Hp & _) He. destruct (d_prec d) as [p|]; cbn in *.
  - exists 2%nat. split; [destruct (number 10 p) eqn:E; [by apply number_nonempty in E|cbn; lia]|].
    apply bytes_at_cons in Hm as [Hc Hm].
    set (w := match d_width d with Some w => w | None => 0 end).
    assert (0 ≤ w) by (unfold w; destruct (d_width d); cbn in Hw; lia).
    apply (rsteps_trans m 1 1 _ (Spec (f + 1) c w (-1) l a ap)).
    + eapply rs_char; [done|]. unfold w. destruct (d_width d) as [w'|]; cbn in *; [|done].
      by rewrite (proj2 (Z.ltb_ge w' 0)) by lia.
    + pose proof (rs_width m (Spec (f + 1) c w (-1) l a ap) p e T Hm Hp He) as H1.
      unfold process_precision in H1. cbn in H1. rewrite (proj2 (Z.ltb_ge w 0)) in H1 by lia.
      replace (f + zlen (46 :: number 10 p)) with (f + 1 + zlen (number 10 p)) by (unfold zlen; cbn [length]; lia).
      exact H1.
  - exists 0%nat. split; [done|]. rewrite Z.add_0_r. destruct (d_width d); apply rsteps_zero.
Qed.

Lemma reswitch_directive m f ap d :
  bytes_at m f (print_directive d) → directive_ok d →
  reswitch m (Spec f 32 (-1) (-1) 0 false ap)
  = Ok (conv_char (d_conv d), spec_of d (f + zlen (print_directive d)) ap).
Proof.
  intros Hm Hd. pose proof (mapped_size _ _ _ (bytes_mapped _ _ _ Hm)) as Hfuel.
  rewrite print_directive_parts in *. rewrite !zlen_app. rewrite !length_app in Hfuel. cbn in Hfuel.
  apply bytes_at_app in Hm as [H1 Hm]. apply bytes_at_app in Hm as [H2 Hm].
  pose proof Hm as Hm'. apply bytes_at_app in Hm as [H3 Hm]. pose proof Hm as Hm''.
  apply bytes_at_app in Hm as [_ Hm]. pose proof Hm as H5. apply bytes_at_app in Hm as [_ Hm].
  apply bytes_at_cons in Hm as [Hc _].
  destruct (prec_head d) as (e & T & E & He). rewrite E in Hm'.
  destruct (rs_width_opt m _ (pad_of d) 0 (d_alt d) ap d e T Hm' Hd He) as (k3 & Hk3 & S3).
  destruct (long_head d) as (e2 & T2 & E2 & He2). rewrite E2 in Hm''.
  destruct (rs_prec_opt m _ (pad_of d) 0 (d_alt d) ap d e2 T2 Hm'' Hd He2) as (k4 & Hk4 & S4).
  pose proof (rs_pad m f (-1) (-1) 0 false ap d H1 Hd) as S1.
  pose proof (rs_alt m _ (pad_of d) (-1) (-1) 0 ap d H2) as S2.
  set (f4 := f + zlen (pad_bytes d) + zlen (alt_bytes d) + zlen (width_bytes d) + zlen (prec_bytes d)) in *.
  pose proof (rs_longs m (d_long d) (Spec f4 (pad_of d) (width_of d) (prec_of d) 0 (d_alt d) ap) _ H5) as S5.
  destruct Hd as (_ & _ & _ & Hl).
  specialize (S5 ltac:(cbn; lia) ltac:(cbn; lia)).
  pose proof (rsteps_trans _ _ _ _ _ _ S1 (rsteps_trans _ _ _ _ _ _ S2 (rsteps_trans _ _ _ _ _ _ S3
    (rsteps_trans _ _ _ _ _ _ S4 S5)))) as St.
  unfold reswitch. eapply (loop_more_fuel _ (fuel_of m)).
  - rewrite (St 1%nat), loop_unfold. unfold set_lflag, set_fmt. cbn [s_fmt s_padc s_width s_precision s_lflag s_altflag s_ap].
    unfold long_bytes, zlen in Hc. rewrite length_replicate in Hc. rstep Hc.
    transitivity (Ok (conv_char (d_conv d), spec_of d (f4 + Z.of_nat (d_long d) + 1) ap)).
    + unfold set_fmt, spec_of. cbn [s_fmt s_padc s_width s_precision s_lflag s_altflag s_ap].
      rewrite Z.add_0_l. by destruct (d_conv d).
    + do 3 f_equal. unfold f4, zlen, long_bytes. rewrite ?length_replicate. cbn [length]. lia.
  - unfold long_bytes in Hfuel. rewrite length_replicate in Hfuel. lia.
Qed.

(** *** What a directive prints *)

Inductive value :=
| VNum (v : Z)
| VStr (p : Z) (s : list Z)   (** the string [s] at [p]; "(null)" when [p] is NULL *)
| VNone.

(** A 64-bit argument takes two words. *)
Definition wide (d : directive) : bool :=
  (2 <=? Z.of_nat (d_long d)) &&
  match d_conv d with Cd | Cu | Co | Cx => true | _ => false end.

Definition words (d : directive) (v : value) : list Z :=
  match v with
  | VNum v => if wide d then [u64 v mod 2 ^ 32; u64 v / 2 ^ 32] else [u32 v]
  | VStr p _ => [p]
  | VNone => []
  end.

Definition value_ok (lits : literals) (m : mem) (d : directive) (v : value) : Prop :=
  match d_conv d, v with
  | Cc, VNum v => int_min ≤ v ≤ int_max
  | Cs, VStr p s => str_at m (if p =? 0 then lit_null lits else p) s ∧ zlen s < 100000000
  | Cd, VNum v => if wide d then - 2 ^ 63 < v < 2 ^ 63 else int_min ≤ v ≤ int_max
  | (Cu | Co | Cx), VNum v => if wide d then 0 ≤ v < 2 ^ 64 else 0 ≤ v < 2 ^ 32
  | Cp, VNum v => 0 ≤ v < 2 ^ 32
  | Cpct, VNone => True
  | _, _ => False
  end.

Definition text_number (d : directive) (base n : Z) : list Z :=
  replicate (Z.to_nat (width_of d - zlen (number base n))) (pad_of d) ++ number base n.

(** A character of a string: '#' shows the unprintable ones as '?'. *)
Definition shown_char (alt : bool) (b : Z) : Z :=
  if alt && ((schar b <? 32) || (126 <? schar b)) then 63 else schar b.

Definition cut (q : Z) (s : list Z) : list Z := if q <? 0 then s else take (Z.to_nat q) s.

Definition text_string (d : directive) (s : list Z) : list Z :=
  let t := shown_char (d_alt d) <$> cut (prec_of d) s in
  let fill := Z.to_nat (width_of d - zlen t) in
  if pad_of d =? 45 then t ++ replicate fill 32 else replicate fill (pad_of d) ++ t.

(** The text of a directive.  The sign of a negative number stands before the
    padding, and '-' pads a number with minus signs on the left: this is what
    the code does. *)
Definition render_directive (d : directive) (v : value) : list Z :=
  match d_conv d, v with
  | Cc, VNum v => [v]
  | Cs, VStr _ s => text_string d s
  | Cd, VNum v => (if v <? 0 then [45] else []) ++ text_number d 10 (Z.abs v)
  | Cu, VNum v => text_number d 10 v
  | Co, VNum v => text_number d 8 v
  | Cx, VNum v => text_number d 16 v
  | Cp, VNum v => 48 :: 120 :: text_number d 16 v
  | Cpct, _ => [37]
  | _, _ => []
  end.

Lemma logput_text (m : mem) c log : zlen log < int_max → logput c (m, log) = Ok (m, log ++ [c]).
Proof. intros H. unfold logput. by rewrite bool_decide_eq_true_2. Qed.

(** The callback of [text] collects what fits into an [int]. *)
Lemma emit_text (m : mem) l : ∀ log, zlen log + zlen l ≤ int_max → mfold logput l (m, log) = Ok (m, log ++ l).
Proof.
  induction l as [|c l IH]; intros log H; cbn [mfold]; [by rewrite app_nil_r|].
  unfold zlen in *. cbn [length] in H.
  rewrite logput_text by (unfold zlen; lia). cbn [mbind outcome_bind].
  rewrite IH by (rewrite length_app; cbn; lia). by rewrite <-(assoc_L (++)).
Qed.

Lemma cut_cons q b s : q ≠ 0 → cut q (b :: s) = b :: cut (if q <? 0 then q else q - 1) s.
Proof.
  intros Hq. unfold cut. destruct (Z.ltb_spec q 0) as [H|H].
  - by rewrite (proj2 (Z.ltb_lt q 0)) by lia.
  - rewrite (proj2 (Z.ltb_ge (q - 1) 0)) by lia.
    by replace (Z.to_nat q) with (S (Z.to_nat (q - 1))) by lia.
Qed.

Lemma cut_nil q : cut q [] = [].
Proof. unfold cut. case_match; [done|]. by rewrite take_nil. Qed.

Lemma cut_length q s : zlen (cut q s) ≤ zlen s.
Proof. unfold cut, zlen. case_match; [lia|]. rewrite length_take. lia. Qed.

Lemma string_loop alt s : ∀ n m p q w log,
  str_at m p s → (length s < n)%nat → - 200000000 < w - zlen s → w ≤ int_max →
  zlen log + zlen (cut q s) ≤ int_max →
  loop n
    (λ st, let '(p, precision, width, s) := st in
       b ← ldb (s : mem * list Z).1 p;
       let ch := schar b in
       if ch =? 0 then Ok (inr (width, s))
       else
         c ← (if precision <? 0 then Ok (true, precision)
              else Ok (0 <=? precision - 1, precision - 1));
         if (c : bool * Z).1 then
           s ← logput (if alt && ((ch <? 32) || (126 <? ch)) then 63 else ch) s;
           w ← cint (width - 1);
           Ok (inl (p + 1, c.2, w, s))
         else Ok (inr (width, s)))
    (p, q, w, (m, log))
  = Ok (w - zlen (cut q s), (m, log ++ (shown_char alt <$> cut q s))).
Proof.
  induction s as [|b s IH]; intros n m p q w log Hs Hn Hw1 Hw2 Hlog; (destruct n as [|n]; [cbn in Hn; lia|]);
    rewrite loop_unfold.
  - apply str_at_nil in Hs. cbn [fst]. rewrite (proj2 (ldb_Ok _ _ _) Hs). cbn [mbind outcome_bind schar Z.ltb Z.compare Z.eqb].
    rewrite cut_nil. cbn. by rewrite Z.sub_0_r, app_nil_r.
  - apply str_at_cons in Hs as (Hb & Hr & Hs). cbn [fst]. rewrite (proj2 (ldb_Ok _ _ _) Hb).
    cbn [mbind outcome_bind]. assert (schar b ≠ 0) as H0 by (unfold schar; case_match; lia).
    rewrite (proj2 (Z.eqb_neq _ _) H0). destruct (decide (q = 0)) as [->|Hq].
    + cbn. by rewrite Z.sub_0_r, app_nil_r.
    + assert ((if q <? 0 then Ok (true, q) else Ok (0 <=? q - 1, q - 1)) = Ok (true, if q <? 0 then q else q - 1)) as ->.
      { destruct (Z.ltb_spec q 0); [done|]. by rewrite (proj2 (Z.leb_le 0 (q - 1))) by lia. }
      rewrite cut_cons in * by done. cbn [mbind outcome_bind fst snd].
      assert (∀ A (x : A) l, zlen (x :: l) = zlen l + 1) as Hz by (intros; unfold zlen; cbn; lia).
      rewrite Hz in *. pose proof (zlen_nonneg s). pose proof (zlen_nonneg (cut (if q <? 0 then q else q - 1) s)).
      rewrite logput_text by lia. cbn [mbind outcome_bind].
      rewrite cint_Ok by (unfold int_min in *; lia). cbn [mbind outcome_bind].
      rewrite IH; [|done|cbn in Hn; lia|lia|lia|rewrite zlen_app; change (zlen (A := Z) [_]) with 1; lia].
      cbn [fmap list_fmap]. rewrite <-(assoc_L (++)). do 2 f_equal. lia.
Qed.

Lemma width_range d : directive_ok d → -1 ≤ width_of d < 100000000.
Proof.
  intros (_ & Hw & Hp & _). unfold width_of. destruct (d_width d); cbn in *; [lia|]. destruct (d_prec d); lia.
Qed.

Lemma put_chars_text alt m p q w s log :
  str_at m p s → - 200000000 < w - zlen s → w ≤ int_max → zlen log + zlen (cut q s) ≤ int_max →
  put_chars logput alt p q w (m, log) = Ok (w - zlen (cut q s), (m, log ++ (shown_char alt <$> cut q s))).
Proof.
  intros Hs H1 H2 H3. pose proof (str_fuel _ _ _ Hs). apply string_loop; done || (cbn; lia).
Qed.

Lemma strnlen_cut m p s d :
  str_at m p s → zlen s < 100000000 → directive_ok d →
  strnlen m p (u32 (prec_of d)) = Ok (zlen (cut (prec_of d) s)).
Proof.
  intros Hs Hlen (_ & _ & Hp & _). pose proof (zlen_nonneg s).
  rewrite (strnlen_spec m p s) by (done || apply u32_range). f_equal. unfold prec_of, cut.
  destruct (d_prec d) as [q|]; cbn in *.
  - rewrite u32_small, (proj2 (Z.ltb_ge q 0)) by lia. unfold zlen in *. rewrite length_take. lia.
  - change (u32 (-1)) with (2 ^ 32 - 1). unfold zlen in *. lia.
Qed.

Lemma zlen_shown alt q s : zlen (shown_char alt <$> cut q s) = zlen (cut q s).
Proof. apply zlen_fmap. Qed.

Lemma zlen_replicate {A} n (x : A) : zlen (replicate n x) = Z.of_nat n.
Proof. unfold zlen. by rewrite length_replicate. Qed.

Lemma print_string_text lits m d f ap p s log :
  str_at m (if p =? 0 then lit_null lits else p) s → zlen s < 100000000 → directive_ok d →
  zlen log + zlen (text_string d s) ≤ int_max →
  print_string logput lits (spec_of d f ap) p (m, log) = Ok (m, log ++ text_string d s).
Proof.
  intros Hs Hlen Hd Hmax. unfold print_string, text_string, spec_of in *.
  cbn [s_width s_padc s_precision s_altflag fst] in *. set (p' := if p =? 0 then lit_null lits else p) in *.
  pose proof (width_range d Hd) as Hw. pose proof (str_fuel _ _ _ Hs) as Hf.
  pose proof (cut_length (prec_of d) s) as Hcut. pose proof (zlen_nonneg (cut (prec_of d) s)) as Hcut0.
  pose proof (zlen_nonneg log) as Hlog0.
  rewrite zlen_shown in *. set (k := zlen (cut (prec_of d) s)) in *.
  set (t := shown_char (d_alt d) <$> cut (prec_of d) s) in *.
  assert (zlen t = k) as Ht by apply zlen_shown.
  destruct (Z.eqb_spec (pad_of d) 45) as [E45|E45]; cbn [negb]; [rewrite andb_false_r|rewrite andb_true_r].
  - rewrite zlen_app, zlen_replicate in Hmax. cbn [mbind outcome_bind fst snd].
    rewrite (put_chars_text (d_alt d) m p' (prec_of d) _ s) by (done || unfold int_max in *; lia). cbn [mbind outcome_bind fst snd].
    rewrite (pad_after_spec logput 32 (Z.to_nat (width_of d - k))) by done.
    rewrite emit_text by (rewrite zlen_app, zlen_replicate; fold t; lia). by rewrite <-(assoc_L (++)).
  - rewrite zlen_app, zlen_replicate in Hmax. destruct (Z.ltb_spec 0 (width_of d)) as [Hw0|Hw0].
    + rewrite (strnlen_cut m p' s d) by done. fold k. cbn [mbind outcome_bind].
      rewrite s32_small by (unfold int_min, int_max; lia).
      rewrite (pad_after_spec logput (pad_of d) (Z.to_nat (width_of d - k))) by done.
      rewrite emit_text by (rewrite zlen_replicate; lia). cbn [mbind outcome_bind fst snd].
      rewrite (put_chars_text (d_alt d) m p' (prec_of d) _ s); [|done|unfold int_max in *; lia..|
        rewrite zlen_app, zlen_replicate; fold k; lia].
      cbn [mbind outcome_bind fst snd]. rewrite (pad_after_spec logput 32 0) by (fold k; lia).
      cbn [mfold replicate]. by rewrite <-(assoc_L (++)).
    + cbn [mbind outcome_bind fst snd].
      rewrite (put_chars_text (d_alt d) m p' (prec_of d) _ s) by (done || unfold int_max in *; fold k; lia). cbn [mbind outcome_bind fst snd].
      rewrite (pad_after_spec logput 32 0) by (fold k; lia).
      replace (Z.to_nat (width_of d - k)) with O by lia. done.
Qed.

Lemma number_text m d base n f ap ap' log :
  2 ≤ base ≤ 16 → 0 ≤ n < 2 ^ 64 → directive_ok d → zlen log + zlen (text_number d base n) ≤ int_max →
  (s ← printnum logput n base (s_width (spec_of d f ap)) (s_padc (spec_of d f ap)) (m, log);
   Ok (s_fmt (spec_of d f ap), ap' : list Z, s)) = Ok (f, ap', (m, log ++ text_number d base n)).
Proof.
  intros Hb Hn Hd Hmax. pose proof (width_range d Hd). unfold printnum. cbn [spec_of s_width s_padc s_fmt].
  rewrite printnum_n_spec; [|done|done|lia|unfold int_min, int_max; lia]. fold (number base n).
  change (replicate (Z.to_nat (width_of d - zlen (number base n))) (pad_of d) ++ number base n) with (text_number d base n).
  by rewrite emit_text.
Qed.

(** *** Arguments *)

Lemma s32_u32 v : int_min ≤ v ≤ int_max → s32 (u32 v) = v.
Proof. unfold s32, u32, int_min, int_max. intros H. rewrite Z.add_mod_idemp_l by lia. rewrite Z.mod_small; lia. Qed.

Lemma s64_u64 v : - 2 ^ 63 ≤ v < 2 ^ 63 → s64 (u64 v) = v.
Proof. unfold s64, u64. intros H. rewrite Z.add_mod_idemp_l by lia. rewrite Z.mod_small; lia. Qed.

Lemma u64_words v : u64 v mod 2 ^ 32 + u64 v / 2 ^ 32 * 2 ^ 32 = u64 v.
Proof. pose proof (Z.div_mod (u64 v) (2 ^ 32) ltac:(lia)). lia. Qed.

Lemma wide_lflag d f ap : match d_conv d with Cd | Cu | Co | Cx => True | _ => False end →
  (2 <=? s_lflag (spec_of d f ap)) = wide d.
Proof. unfold wide. cbn [spec_of s_lflag]. destruct (d_conv d); intros H; by rewrite ?andb_true_r. Qed.

Lemma getint_words d f ap v :
  d_conv d = Cd → (if wide d then - 2 ^ 63 < v < 2 ^ 63 else int_min ≤ v ≤ int_max) →
  getint (s_ap (spec_of d f (words d (VNum v) ++ ap))) (s_lflag (spec_of d f (words d (VNum v) ++ ap))) = Ok (v, ap).
Proof.
  intros Hc Hv. unfold getint. rewrite wide_lflag by (by rewrite Hc). unfold spec_of. cbn [words s_ap].
  destruct (wide d); cbn [app va_ulonglong va_word va_int mbind outcome_bind fst snd].
  - rewrite u64_words, s64_u64 by lia. done.
  - rewrite s32_u32 by lia. by destruct (negb _).
Qed.

Lemma getuint_words d f ap v :
  match d_conv d with Cu | Co | Cx => True | _ => False end → (if wide d then 0 ≤ v < 2 ^ 64 else 0 ≤ v < 2 ^ 32) →
  getuint (s_ap (spec_of d f (words d (VNum v) ++ ap))) (s_lflag (spec_of d f (words d (VNum v) ++ ap))) = Ok (v, ap).
Proof.
  intros Hc Hv. unfold getuint. rewrite wide_lflag by (by destruct (d_conv d)). unfold spec_of. cbn [words s_ap].
  destruct (wide d); cbn [app va_ulonglong va_word va_int mbind outcome_bind fst snd].
  - rewrite u64_words. unfold u64. by rewrite Z.mod_small by lia.
  - rewrite u32_small by lia. by destruct (negb _).
Qed.

Lemma conversion_text lits m rec d v f ap log :
  value_ok lits m d v → directive_ok d → zlen log + zlen (render_directive d v) ≤ int_max →
  conversion logput lits rec (conv_char (d_conv d)) (spec_of d f (words d v ++ ap)) (m, log)
  = Ok (f, ap, (m, log ++ render_directive d v)).
Proof.
  intros Hv Hd Hmax. unfold value_ok, render_directive in *. pose proof (zlen_nonneg log) as Hl0.
  unfold conversion. destruct (d_conv d) eqn:Ec; destruct v as [v|p s|]; try done;
    cbn [conv_char Z.eqb Pos.eqb].
  - (* %c *) cbn [spec_of s_ap s_fmt words]. unfold wide. rewrite Ec, andb_false_r.
    cbn [app va_int va_word mbind outcome_bind fst snd].
    rewrite s32_u32 by done. change (zlen [v]) with 1 in Hmax. by rewrite logput_text by lia.
  - (* %s *) destruct Hv as [Hs Hlen]. cbn [words app]. cbn [spec_of s_ap va_word mbind outcome_bind fst snd].
    rewrite (print_string_text lits m d f (p :: ap) p s log) by done. done.
  - (* %d *) rewrite (getint_words d f ap v Ec Hv). cbn [mbind outcome_bind fst snd].
    assert (- 2 ^ 63 < v < 2 ^ 63) as Hv'.
    { revert Hv. unfold int_min, int_max. destruct (wide d); lia. }
    destruct (Z.ltb_spec v 0) as [Hneg|Hpos].
    + rewrite zlen_app in Hmax. change (zlen [45]) with 1 in Hmax.
      pose proof (zlen_nonneg (text_number d 10 (Z.abs v))).
      rewrite logput_text by lia. cbn [mbind outcome_bind].
      rewrite (proj2 (Z.eqb_neq v (- 2 ^ 63))) by lia. cbn [mbind outcome_bind fst snd].
      replace (- v) with (Z.abs v) by lia.
      rewrite number_text; [by rewrite <-(assoc_L (++))|lia|lia|done|].
      rewrite zlen_app. change (zlen [45]) with 1. lia.
    + cbn [mbind outcome_bind fst snd app] in *. rewrite Z.abs_eq in * by lia. rewrite number_text; [done|lia|lia|done|lia].
  - rewrite (getuint_words d f ap v) by (by rewrite ?Ec). cbn [mbind outcome_bind fst snd].
    rewrite number_text; [done|lia|destruct (wide d); lia|done|lia].
  - rewrite (getuint_words d f ap v) by (by rewrite ?Ec). cbn [mbind outcome_bind fst snd].
    rewrite number_text; [done|lia|destruct (wide d); lia|done|lia].
  - rewrite (getuint_words d f ap v) by (by rewrite ?Ec). cbn [mbind outcome_bind fst snd].
    rewrite number_text; [done|lia|destruct (wide d); lia|done|lia].
  - (* %p *) change (48 :: 120 :: text_number d 16 v) with ([48] ++ [120] ++ text_number d 16 v) in *.
    rewrite !zlen_app in Hmax. change (zlen [48]) with 1 in Hmax. change (zlen [120]) with 1 in Hmax.
    pose proof (zlen_nonneg (text_number d 16 v)).
    rewrite logput_text by lia. cbn [mbind outcome_bind].
    rewrite logput_text by (rewrite zlen_app; change (zlen [48]) with 1; lia). cbn [mbind outcome_bind].
    cbn [words]. unfold wide. rewrite Ec, andb_false_r. rewrite u32_small by lia.
    change (va_word (s_ap (spec_of d f ([v] ++ ap)))) with (Ok (v, ap)). cbn [mbind outcome_bind fst snd].
    rewrite number_text; [by rewrite <-!(assoc_L (++))|lia|lia|done|].
    rewrite !zlen_app. change (zlen [48]) with 1. change (zlen [120]) with 1. lia.
  - (* %% *) change (zlen [37]) with 1 in Hmax. by rewrite logput_text by lia.
Qed.

(** *** Whole formats *)

Definition print_pieces (ps : list (list Z * directive)) : list Z :=
  concat ((λ td, td.1 ++ 37 :: print_directive td.2) <$> ps).

Fixpoint render (ps : list (list Z * directive)) (vs : list value) : list Z :=
  match ps, vs with
  | (t, d) :: ps, v :: vs => t ++ render_directive d v ++ render ps vs
  | _, _ => []
  end.

Fixpoint all_words (ps : list (list Z * directive)) (vs : list value) : list Z :=
  match ps, vs with
  | (_, d) :: ps, v :: vs => words d v ++ all_words ps vs
  | _, _ => []
  end.

Definition plain (t : list Z) : Prop := Forall (λ b, 0 < b < 256 ∧ b ≠ 37) t.

Definition pieces_ok (lits : literals) (m : mem) : list (list Z * directive) → list value → Prop :=
  Forall2 (λ td v, plain td.1 ∧ directive_ok td.2 ∧ value_ok lits m td.2 v).

Lemma copy_text_loop t e : ∀ n (m : mem) f log,
  bytes_at m f (t ++ [e]) → plain t → e = 37 ∨ e = 0 → zlen log + zlen t ≤ int_max → (length t < n)%nat →
  loop n
    (λ st, let '(fmt, s) := st in
       ch ← ldb (s : mem * list Z).1 fmt;
       if ch =? 37 then Ok (inr (Some (fmt + 1), s))
       else if ch =? 0 then Ok (inr (None, s))
       else s ← logput ch s; Ok (inl (fmt + 1, s))) (f, (m, log))
  = Ok (if e =? 37 then Some (f + zlen t + 1) else None, (m, log ++ t)).
Proof.
  induction t as [|b t IH]; intros n m f log Hm Hp He Hlog Hn; (destruct n as [|n]; [cbn in Hn; lia|]);
    rewrite loop_unfold; apply bytes_at_cons in Hm as [Hb Hm]; cbn [fst];
    rewrite (proj2 (ldb_Ok _ _ _) Hb); cbn [mbind outcome_bind].
  - rewrite app_nil_r. change (zlen (A := Z) []) with 0. rewrite Z.add_0_r. by destruct He as [-> | ->].
  - apply Forall_cons in Hp as [[Hr H37] Hp].
    rewrite (proj2 (Z.eqb_neq b 37)), (proj2 (Z.eqb_neq b 0)) by lia.
    replace (zlen (b :: t)) with (zlen t + 1) in * by (unfold zlen; cbn; lia). pose proof (zlen_nonneg t).
    rewrite logput_text by lia. cbn [mbind outcome_bind].
    rewrite IH; [|done|done|done|rewrite zlen_app; change (zlen [b]) with 1; lia|cbn in Hn; lia].
    rewrite <-(assoc_L (++)). do 2 f_equal. destruct (e =? 37); [|done]. f_equal. lia.
Qed.

Lemma copy_text_spec t e (m : mem) f log :
  bytes_at m f (t ++ [e]) → plain t → e = 37 ∨ e = 0 → zlen log + zlen t ≤ int_max →
  copy_text logput f (m, log) = Ok (if e =? 37 then Some (f + zlen t + 1) else None, (m, log ++ t)).
Proof.
  intros Hm Hp He Hl. apply copy_text_loop; try done. cbn [fst].
  pose proof (mapped_size _ _ _ (bytes_mapped _ _ _ Hm)) as Hf. rewrite length_app in Hf. cbn in Hf. lia.
Qed.

Lemma print_pieces_cons t d ps :
  print_pieces ((t, d) :: ps) = t ++ 37 :: print_directive d ++ print_pieces ps.
Proof. unfold print_pieces. cbn. by rewrite <-(assoc_L (++)). Qed.

Lemma vprintfmt_pieces lits m k ps : ∀ vs tl ap n f log,
  bytes_at m f (print_pieces ps ++ tl ++ [0]) → plain tl → pieces_ok lits m ps vs →
  zlen log + zlen (render ps vs ++ tl) ≤ int_max → (length ps < n)%nat →
  loop n
    (λ st, let '(fmt, ap, s) := st in
       fs ← copy_text logput fmt s;
       match fs with
       | (None, s) => Ok (inr s)
       | (Some fmt, s) =>
           cs ← reswitch (s : mem * list Z).1 (Spec fmt 32 (-1) (-1) 0 false ap);
           r ← conversion logput lits (vprintfmt_n logput lits k) cs.1 cs.2 s;
           Ok (inl r)
       end) (f, all_words ps vs ++ ap, (m, log))
  = Ok (m, log ++ render ps vs ++ tl).
Proof.
  induction ps as [|[t d] ps IH]; intros vs tl ap n f log Hm Htl Hok Hlog Hn;
    (destruct n as [|n]; [lia|]); rewrite loop_unfold; inversion Hok as [|? v ? vs' (Ht & Hd & Hv) Hok']; subst.
  - rewrite (copy_text_spec tl 0) by (done || tauto). done.
  - rewrite print_pieces_cons in Hm. cbn [fst snd] in *.
    cbn [render all_words]. cbn [render] in Hlog. rewrite !zlen_app in Hlog.
    pose proof (zlen_nonneg t). pose proof (zlen_nonneg (render_directive d v)). pose proof (zlen_nonneg (render ps vs')).
    pose proof (zlen_nonneg tl).
    rewrite <-(assoc_L (++)) in Hm. cbn [app] in Hm. rewrite <-(assoc_L (++)) in Hm. apply bytes_at_app in Hm as [Hmt Hm].
    apply bytes_at_cons in Hm as [H37 Hm]. apply bytes_at_app in Hm as [Hmd Hm].
    rewrite (copy_text_spec t 37); [|apply bytes_at_app; split; [done|apply bytes_at_cons; split; [done|by intros [|]]]|done|tauto|lia].
    cbn [Z.eqb Pos.eqb mbind outcome_bind fst]. rewrite <-(assoc_L (++)).
    rewrite (reswitch_directive m _ _ d) by done. cbn [mbind outcome_bind fst snd].
    rewrite conversion_text by (done || rewrite zlen_app; lia). cbn [mbind outcome_bind].
    rewrite (IH vs' tl); [|done|done|done|rewrite !zlen_app; lia|cbn in Hn; lia].
    by rewrite <-!(assoc_L (++)).
Qed.

Lemma print_pieces_length ps : (length ps ≤ length (print_pieces ps))%nat.
Proof.
  induction ps as [|[t d] ps IH]; [done|]. rewrite print_pieces_cons, length_app. cbn [length]. rewrite length_app. cbn [length]. lia.
Qed.

Lemma vprintfmt_render lits m f ps vs tl ap :
  bytes_at m f (print_pieces ps ++ tl ++ [0]) → plain tl → pieces_ok lits m ps vs →
  zlen (render ps vs ++ tl) ≤ int_max →
  text lits m f (all_words ps vs ++ ap) = Ok (render ps vs ++ tl).
Proof.
  intros Hm Htl Hok Hl. unfold text, vprintfmt. cbn [vprintfmt_n].
  pose proof (mapped_size _ _ _ (bytes_mapped _ _ _ Hm)) as Hf. rewrite !length_app in Hf. cbn in Hf.
  pose proof (print_pieces_length ps).
  rewrite (vprintfmt_pieces lits m 1 ps vs tl) by (done || (cbn [fst]; lia)). done.
Qed.

(** [C12] [vprintfmt] interprets every format that is made of plain text and
    written directives - flags '-', '0' and '#', width, precision, 'l' and the
    conversions c s d u o x p % - as [render] says: the characters it hands to
    the callback are exactly the text and the rendered arguments, in order; it
    reads exactly the words of the arguments and always returns.  The callback
    is the one that collects the characters, and %e is left out.  ([render] has
    strings padded to the width as well, and numbers with the flag '-' padded on
    the left with minus signs, as the code does; the comments say that a width is
    supported for the numeric formats only and that '-' pads on the right.) *)
Theorem vprintfmt_renders lits m f ps vs tl ap :
  bytes_at m f (print_pieces ps ++ tl ++ [0]) → plain tl → pieces_ok lits m ps vs →
  zlen (render ps vs ++ tl) ≤ int_max →
  vprintfmt logput lits f (all_words ps vs ++ ap) (m, []) = Ok (m, render ps vs ++ tl).
Proof.
  intros Hm Htl Hok Hl. pose proof (mapped_size _ _ _ (bytes_mapped _ _ _ Hm)) as Hf.
  rewrite !length_app in Hf. cbn in Hf. pose proof (print_pieces_length ps).
  unfold vprintfmt. cbn [vprintfmt_n]. by rewrite (vprintfmt_pieces lits m 1 ps vs tl) by (done || (cbn [fst]; lia)).
Qed.

(** [C13] [vsnprintf] for every format, every arguments and every buffer that
    overlaps neither of them: when the format denotes the text [l], the call
    stores the first [size - 1] characters of [l] and a terminator, changes no
    byte outside the buffer, and answers the length of the whole text. *)
Theorem vsnprintf_bounded lits (m0 m : mem) str size fmt ap l :
  text lits m0 fmt ap = Ok l → m0 ⊆ m →
  (∀ a, is_Some (m0 !! a) → ¬ (str ≤ a < str + size)) →
  0 < str → 1 ≤ size → str + size ≤ 2 ^ 32 → mapped m str (Z.to_nat size) →
  ∃ m', vsnprintf lits str size fmt ap m = Ok (zlen l, m') ∧
    bytes_at m' str (((λ c, c mod 256) <$> take (Z.to_nat (size - 1)) l) ++ [0]) ∧
    ∀ a, ¬ (str ≤ a < str + size) → m' !! a = m !! a.
Proof. apply vsnprintf_ok. Qed.

(** The literals of the examples, and a memory that holds them, "%5d|%s" at 100,
    "hello" at 200 and a buffer of 16 bytes at 1000. *)
Definition lits_w : literals := Literals 500 510 520 [0; 530; 530; 530; 530; 530; 530].
Definition fmt_w : list Z := [37; 53; 100; 124; 37; 115].
Definition mem_text : mem :=
  put (put (put ∅ 100 (fmt_w ++ [0])) 200 [104; 101; 108; 108; 111; 0]) 300 [37; 100; 0].
Definition mem_buf : mem := put mem_text 1000 (replicate 16 0).

Lemma mem_text_sub : mem_text ⊆ mem_buf.
Proof. by apply (bool_decide_eq_true_1 (mem_text ⊆ mem_buf)); vm_compute. Qed.

Lemma mem_text_low a : is_Some (mem_text !! a) → ¬ (1000 ≤ a < 1000 + 16).
Proof.
  intros [x Hx] Ha. assert (a ∈ seqZ 1000 16) as Hin by (apply elem_of_seqZ; lia).
  assert (Forall (λ a, mem_text !! a = None) (seqZ 1000 16)) as HF by (by repeat constructor).
  rewrite Forall_forall in HF. rewrite (HF a Hin) in Hx. done.
Qed.

Lemma vsnprintf_bounded_witness :
  ∃ m', vsnprintf lits_w 1000 8 100 [u32 (-3); 200] mem_buf = Ok (12, m') ∧
    bytes_at m' 1000 ([45; 32; 32; 32; 32; 51; 124] ++ [0]) ∧
    ∀ a, ¬ (1000 ≤ a < 1000 + 8) → m' !! a = mem_buf !! a.
Proof.
  apply (vsnprintf_bounded lits_w mem_text mem_buf 1000 8 100 [u32 (-3); 200]
    [45; 32; 32; 32; 32; 51; 124; 104; 101; 108; 108; 111]).
  - by vm_compute.
  - exact mem_text_sub.
  - intros a Ha. pose proof (mem_text_low a Ha). lia.
  - lia.
  - lia.
  - lia.
  - apply mappedb_mapped. by vm_compute.
Defined.

Lemma vprintfmt_renders_witness :
  vprintfmt logput lits_w 100 ([u32 (-3); 200] ++ []) (mem_text, []) =
    Ok (mem_text, [45; 32; 32; 32; 32; 51; 124; 104; 101; 108; 108; 111]).
Proof.
  apply (vprintfmt_renders lits_w mem_text 100
    [([], Directive None false (Some 5) None 0 Cd); ([124], Directive None false None None 0 Cs)]
    [VNum (-3); VStr 200 [104; 101; 108; 108; 111]] [] []).
  - apply mem_holds_bytes. by vm_compute.
  - constructor.
  - constructor; [|constructor; [|constructor]]; (split; [repeat constructor; lia|]; split; [by repeat constructor|]).
    + split; by vm_compute.
    + cbn. split; [|by vm_compute]. split; [apply mem_holds_bytes; by vm_compute|repeat constructor].
  - by vm_compute.
Defined.

(** ** Reading back *)

Lemma number_n_short base k fuel : ∀ n,
  2 ≤ base → 0 ≤ n < base ^ Z.of_nat k → (1 ≤ k)%nat → (length (number_n fuel base n) ≤ k)%nat.
Proof.
  revert fuel. induction k as [|k IH]; intros fuel n Hb Hn Hk; [lia|].
  destruct fuel as [|fuel]; cbn [number_n]; [cbn; lia|]. rewrite length_app. cbn [length].
  destruct (Z.leb_spec base n); [|cbn; lia].
  destruct k as [|k]; [change (Z.of_nat 1) with 1 in Hn; rewrite Z.pow_1_r in Hn; lia|].
  specialize (IH fuel (n / base) Hb). rewrite Nat2Z.inj_succ, Z.pow_succ_r in Hn by lia.
  assert (0 ≤ n / base < base ^ Z.of_nat (S k)).
  { split; [apply Z.div_pos; lia|]. apply Z.div_lt_upper_bound; lia. }
  specialize (IH H0 ltac:(lia)). lia.
Qed.

(** The text of "%d". *)
Lemma text_percent_d lits m f v :
  bytes_at m f [37; 100; 0] → int_min ≤ v ≤ int_max →
  text lits m f [u32 v] = Ok (sign_of (v <? 0) ++ number 10 (Z.abs v)).
Proof.
  intros Hm Hv. set (d := Directive None false None None 0 Cd).
  assert (render [([], d)] [VNum v] ++ [] = sign_of (v <? 0) ++ number 10 (Z.abs v)) as E.
  { cbn. rewrite !app_nil_r. unfold text_number. cbn.
    pose proof (zlen_nonneg (number 10 (Z.abs v))).
    replace (Z.to_nat (-1 - zlen (number 10 (Z.abs v)))) with O by lia. by destruct (v <? 0). }
  rewrite <-E. apply (vprintfmt_render lits m f [([], d)] [VNum v] [] []).
  - exact Hm.
  - constructor.
  - constructor; [|constructor]. split; [constructor|]. split; [by repeat constructor|exact Hv].
  - rewrite E, zlen_app. pose proof (number_n_length 10 64 (Z.abs v)). unfold number, zlen, int_max.
    destruct (v <? 0); cbn [sign_of length]; lia.
Qed.



(** ** Flags that do not do what they are for *)

(** The memory with the format [f] at 100 and "hello" at 200. *)
Definition mem_fmt (f : list Z) : mem := put (put ∅ 100 (f ++ [0])) 200 [104; 101; 108; 108; 111; 0].

(** "%-5d" of 3 is "----3": the flag that should pad on the right makes the
    minus sign the padding on the left. *)
Lemma minus_flag_number :
  text lits_w (mem_fmt [37; 45; 53; 100]) 100 [3] = Ok [45; 45; 45; 45; 51].
Proof. by vm_compute. Qed.

(** "%5d" of -3 is six characters wide: the sign is printed before the padding
    and not counted. *)
Lemma sign_before_padding :
  text lits_w (mem_fmt [37; 53; 100]) 100 [u32 (-3)] = Ok [45; 32; 32; 32; 32; 51].
Proof. by vm_compute. Qed.

(** "%.0s" prints the whole string: the precision 0 is taken for the flag. *)
Lemma precision_zero_ignored :
  text lits_w (mem_fmt [37; 46; 48; 115]) 100 [200] = Ok [104; 101; 108; 108; 111].
Proof. by vm_compute. Qed.
