(* ===== verification/PmmManager.v ===== *)
(** * struct pmm_manager: the interface of a physical page allocator

    The operations of [struct pmm_manager] in src/Labweek11/lab2/kern/mm/pmm.h
    together with the reference counts of the array [pages], as a type class
    over the state of the manager, and the laws the code of pmm.c relies on.
    [mgr_inv st own] holds when the kernel currently owns exactly the pages
    [own].  pmm.c is verified against the laws; DefaultPmmManager.v shows that
    the first-fit allocator has them. *)

From stdpp Require Import base list numbers.
From S2P Require Import Prelude.

Class PmmManager (M : Type) := {
  mgr_init : M → outcome M;
  mgr_init_memmap : M → Z → Z → outcome M;
  mgr_alloc_pages : M → Z → outcome (option Z * M);
  mgr_free_pages : M → Z → Z → outcome M;
  mgr_nr_free_pages : M → Z;
  (** [pages[p].ref], and [pages] itself *)
  mgr_ref : M → Z → outcome Z;
  mgr_set_ref : M → Z → Z → outcome M;
  mgr_set_reserved : M → Z → outcome M;
  mgr_reserved : M → Z → bool;
  mgr_npage : M → Z
}.

Class PmmManagerLaws (M : Type) `{PmmManager M} := {
  mgr_inv : M → list Z → Prop;
  mgr_inv_own m own :
    mgr_inv m own → NoDup own ∧ ∀ p, p ∈ own → 0 ≤ p < mgr_npage m ∧ mgr_reserved m p = false;
  mgr_inv_perm m own own' : mgr_inv m own → own ≡ₚ own' → mgr_inv m own';
  mgr_alloc_law m own n :
    mgr_inv m own → 0 < n → ∃ r m', mgr_alloc_pages m n = Ok (r, m') ∧
      (∀ q, mgr_ref m' q = mgr_ref m q ∧ mgr_reserved m' q = mgr_reserved m q) ∧
      mgr_npage m' = mgr_npage m ∧
      match r with None => m' = m | Some p => mgr_inv m' (seqZ p n ++ own) end;
  mgr_free_law m base n own :
    mgr_inv m (seqZ base n ++ own) → 0 < n → ∃ m', mgr_free_pages m base n = Ok m' ∧
      (∀ q, mgr_ref m' q = (if decide (base ≤ q < base + n) then Ok 0 else mgr_ref m q) ∧
        mgr_reserved m' q = mgr_reserved m q) ∧
      mgr_npage m' = mgr_npage m ∧ mgr_inv m' own;
  mgr_ref_law m own p : mgr_inv m own → 0 ≤ p < mgr_npage m → ∃ r, mgr_ref m p = Ok r;
  mgr_set_ref_law m own p v :
    mgr_inv m own → p ∈ own → ∃ m', mgr_set_ref m p v = Ok m' ∧
      (∀ q, mgr_ref m' q = (if decide (q = p) then Ok v else mgr_ref m q) ∧
        mgr_reserved m' q = mgr_reserved m q) ∧
      mgr_npage m' = mgr_npage m ∧ mgr_inv m' own;
  (** The number of free pages; a single page is found when there is one. *)
  mgr_nr_nonneg m own : mgr_inv m own → 0 ≤ mgr_nr_free_pages m;
  mgr_alloc_one m own :
    mgr_inv m own → 0 < mgr_nr_free_pages m → ∃ p m', mgr_alloc_pages m 1 = Ok (Some p, m');
  mgr_alloc_nr m own n p m' :
    mgr_inv m own → 0 < n → mgr_alloc_pages m n = Ok (Some p, m') →
    mgr_nr_free_pages m' = mgr_nr_free_pages m - n;
  mgr_free_nr m base n own m' :
    mgr_inv m (seqZ base n ++ own) → 0 < n → mgr_free_pages m base n = Ok m' →
    mgr_nr_free_pages m' = mgr_nr_free_pages m + n;
  mgr_set_ref_nr m p v m' :
    mgr_set_ref m p v = Ok m' → mgr_nr_free_pages m' = mgr_nr_free_pages m
}.
