(* ===== verification/DefaultPmmManager.v ===== *)
(** * The first-fit allocator is a pmm_manager

    [default_pmm_manager] of src/Labweek11/lab2/kern/mm/default_pmm.c: the
    instance of the interface of PmmManager.v, with its laws. *)

From stdpp Require Import base list numbers.
From S2P Require Import Prelude ListH DefaultPmm PmmManager.

#[global] Instance default_pmm_manager : PmmManager pmm := {
  mgr_init := default_init;
  mgr_init_memmap := default_init_memmap;
  mgr_alloc_pages := default_alloc_pages;
  mgr_free_pages := default_free_pages;
  mgr_nr_free_pages := default_nr_free_pages;
  mgr_ref st p := pg ← page st p; Ok (ref pg);
  mgr_set_ref := set_page_ref;
  mgr_set_reserved := SetPageReserved;
  mgr_reserved st p := match page st p with Ok pg => PageReserved pg | Err _ => false end;
  mgr_npage st := zlen (pages st)
}.

(** The reference counts are part of what the list operations keep. *)
Lemma ref_kept st p : mgr_ref st p = fst <$> aget (kept (data st)) p.
Proof.
  cbn. unfold page, kept, data. rewrite !aget_fmap. by destruct (aget (pages st) p).
Qed.

Lemma reserved_kept st p :
  mgr_reserved st p = match aget (kept (data st)) p with Ok d => d.2 | Err _ => false end.
Proof.
  cbn. unfold page, kept, data. rewrite !aget_fmap. by destruct (aget (pages st) p).
Qed.

Lemma npage_kept st : zlen (pages st) = zlen (kept (data st)).
Proof. unfold kept, data. by rewrite !zlen_fmap. Qed.

Lemma zlen_aget {A B} (l : list A) (k : list B) :
  (∀ i, (∃ x, aget l i = Ok x) ↔ ∃ y, aget k i = Ok y) → zlen l = zlen k.
Proof.
  intros H. pose proof (zlen_nonneg l). pose proof (zlen_nonneg k).
  destruct (Z.lt_trichotomy (zlen l) (zlen k)) as [Hlt|[He|Hlt]]; [exfalso|done|exfalso].
  - destruct (aget_in_range k (zlen l)) as (y & Hy & _); [lia|].
    destruct (proj2 (H (zlen l)) (ex_intro _ y Hy)) as [x Hx]. apply aget_range in Hx. lia.
  - destruct (aget_in_range l (zlen k)) as (y & Hy & _); [lia|].
    destruct (proj1 (H (zlen k)) (ex_intro _ y Hy)) as [x Hx]. apply aget_range in Hx. lia.
Qed.

Lemma allocated_range st bs i : allocated st bs i → 0 ≤ i < zlen (pages st).
Proof. intros [(pg & Hp & _) _]. by eapply aget_range. Qed.

(** The interface's invariant: [pmm_inv]. *)
Definition default_inv (st : pmm) (own : list Z) : Prop := pmm_inv st own.

Lemma default_alloc_law st own n :
  default_inv st own → 0 < n → ∃ r st', mgr_alloc_pages st n = Ok (r, st') ∧
    (∀ q, mgr_ref st' q = mgr_ref st q ∧ mgr_reserved st' q = mgr_reserved st q) ∧
    mgr_npage st' = mgr_npage st ∧
    match r with None => st' = st | Some p => default_inv st' (seqZ p n ++ own) end.
Proof.
  intros Hinv Hn. pose proof Hinv as (bs & Hrep & _). pose proof (alloc_pages_spec st bs n Hrep Hn) as H.
  destruct (alloc_blocks n bs) as [[b bs']|].
  - destruct H as (st' & R & _ & _ & Hk). exists (Some b), st'. split; [exact R|].
    split; [intros q; by rewrite !ref_kept, !reserved_kept, Hk|]. split; [cbn; by rewrite !npage_kept, Hk|].
    exact (pmm_inv_alloc st own n (Some b) st' Hinv Hn R).
  - by exists None, st.
Qed.

Lemma default_free_law st base n own :
  default_inv st (seqZ base n ++ own) → 0 < n → ∃ st', mgr_free_pages st base n = Ok st' ∧
    (∀ q, mgr_ref st' q = (if decide (base ≤ q < base + n) then Ok 0 else mgr_ref st q) ∧
      mgr_reserved st' q = mgr_reserved st q) ∧
    mgr_npage st' = mgr_npage st ∧ default_inv st' own.
Proof.
  intros Hinv Hn. pose proof Hinv as (bs & Hrep & _ & _ & Hown).
  assert (∀ i, base ≤ i < base + n → allocated st bs i) as Ha.
  { intros i Hi. apply Hown, elem_of_app. left. by apply elem_of_seqZ. }
  destruct (free_pages_spec st bs base n Hrep Hn Ha) as (st' & R & _ & Hk).
  exists st'. split; [exact R|]. split; [|split; [|by eapply pmm_inv_free]].
  - intros q. rewrite !ref_kept, !reserved_kept, Hk. case_decide as Hq; [|done]. split; [done|].
    apply Ha, allocated_data in Hq as [(d & Hd & Hr) _]. unfold kept. rewrite aget_fmap, Hd. by cbn.
  - cbn. rewrite !npage_kept. apply zlen_aget. intros i. rewrite Hk. case_decide as Hd; [|done].
    split; [|by eexists]. intros _. destruct (aget_in_range (kept (data st)) i) as (y & Hy & _); [|by eexists].
    rewrite <-npage_kept. by eapply allocated_range, Ha.
Qed.

(** Writing the reference count of a page keeps the blocks. *)
Lemma blocks_ok_ref pd p v r f s bs :
  blocks_ok pd bs → aget pd p = Ok (r, f, s) → blocks_ok (<[Z.to_nat p := (v, f, s)]> pd) bs.
Proof.
  intros Hok Hp. pose proof (aget_range _ _ _ Hp) as Hr. split.
  - rewrite zlen_insert. exact (bok_npage _ _ Hok).
  - exact (bok_nodup _ _ Hok).
  - by apply (free_pages_insert pd p r f s); [|auto|apply (bok_free _ _ Hok)].
  - intros b Hb. destruct (bok_size _ _ Hok b Hb) as (Hs & d & Hd & Hd2). split; [done|].
    rewrite aget_insert by done. case_decide as E; [|by exists d].
    exists (v, f, s). split; [done|]. subst p. rewrite Hd in Hp. by injection Hp as ->.
  - intros i d. rewrite aget_insert by done. case_decide as E.
    + intros [= <-]. subst i. exact (bok_head _ _ Hok p (r, f, s) Hp).
    + apply (bok_head _ _ Hok).
Qed.

Lemma default_set_ref_law st own p v :
  default_inv st own → p ∈ own → ∃ st', mgr_set_ref st p v = Ok st' ∧
    (∀ q, mgr_ref st' q = (if decide (q = p) then Ok v else mgr_ref st q) ∧
      mgr_reserved st' q = mgr_reserved st q) ∧
    mgr_npage st' = mgr_npage st ∧ default_inv st' own.
Proof.
  intros (bs & (Hd & Hok & Hnr) & Hc & Hnd & Hown) Hp.
  destruct (Hown p Hp) as [(pg & Hpg & Hres) Hni].
  assert (aget (data st) p = Ok (ref pg, flags pg, property pg)) as Hdp
    by (apply page_data_Ok; by exists pg).
  destruct (set_page_ref_data st p v _ _ _ Hdp) as (st' & R & Hw). pose proof Hw as (Hdata & Hn & Hl).
  pose proof (aget_range _ _ _ Hdp) as Hr.
  assert (∀ q, aget (kept (data st')) q = if decide (q = p) then Ok (v, false) else aget (kept (data st)) q) as Hk.
  { intros q. unfold kept. rewrite Hdata, !aget_fmap, aget_insert by done. case_decide; [|done].
    cbn. unfold PageReserved in Hres. by rewrite Hres. }
  exists st'. split; [exact R|]. split; [|split].
  - intros q. rewrite !ref_kept, !reserved_kept, Hk. case_decide as Hq; [|done]. split; [done|]. subst q.
    unfold kept. rewrite aget_fmap, Hdp. cbn. by unfold PageReserved in Hres.
  - cbn. transitivity (zlen (data st')); [unfold data; by rewrite zlen_fmap|].
    rewrite Hdata, zlen_insert. unfold data. by rewrite zlen_fmap.
  - exists bs. split; [split; [by eapply with_data_dll|split]|split; [done|split; [done|]]].
    + rewrite Hdata. by eapply blocks_ok_ref.
    + by rewrite Hn.
    + intros i Hi. destruct (Hown i Hi) as [_ Hni']. destruct (decide (i = p)) as [->|Hne].
      * apply allocated_data. split; [|done]. exists (v, flags pg, property pg).
        rewrite Hdata, aget_insert_eq by done. done.
      * eapply kept_allocated; [|done|by apply Hown]. by rewrite Hk, decide_False.
Qed.

(** ** The number of free pages *)

Lemma default_alloc_one st own :
  default_inv st own → 0 < mgr_nr_free_pages st → ∃ p st', mgr_alloc_pages st 1 = Ok (Some p, st').
Proof.
  intros (bs & Hrep & _) Hn. pose proof (alloc_pages_spec st bs 1 Hrep ltac:(lia)) as H.
  pose proof Hrep as (_ & Hok & Hnr). change (0 < nr_free st) in Hn.
  destruct (alloc_blocks 1 bs) as [[b bs']|] eqn:Ha; [destruct H as (st' & R & _); by exists b, st'|exfalso].
  unfold alloc_blocks in Ha. destruct (first_fit 1 bs) as [[c rest]|] eqn:Ff; [done|].
  apply first_fit_None in Ff. rewrite Hnr in Hn. destruct bs as [|b bs]; [done|].
  apply Forall_cons in Ff as [Hb _]. pose proof (blocks_ok_pos _ _ Hok) as [Hp _]%Forall_cons. lia.
Qed.

Lemma default_alloc_nr st own n p st' :
  default_inv st own → 0 < n → mgr_alloc_pages st n = Ok (Some p, st') →
  mgr_nr_free_pages st' = mgr_nr_free_pages st - n.
Proof.
  intros (bs & Hrep & _) Hn R. pose proof (alloc_pages_spec st bs n Hrep Hn) as H.
  pose proof Hrep as (_ & Hok & Hnr).
  destruct (alloc_blocks n bs) as [[b bs']|] eqn:Ha; cbn in R; [|congruence].
  destruct H as (st2 & R2 & (_ & _ & Hnr') & _). rewrite R in R2. injection R2 as -> ->.
  cbn. unfold default_nr_free_pages. rewrite Hnr, Hnr', (alloc_blocks_pages _ _ _ _ Ha) by lia.
  rewrite zlen_app, zlen_seqZ; lia.
Qed.

Lemma default_free_nr st base n own st' :
  default_inv st (seqZ base n ++ own) → 0 < n → mgr_free_pages st base n = Ok st' →
  mgr_nr_free_pages st' = mgr_nr_free_pages st + n.
Proof.
  intros (bs & Hrep & _ & _ & Hown) Hn R. pose proof Hrep as (_ & Hok & Hnr).
  destruct (free_pages_spec st bs base n Hrep Hn) as (st2 & R2 & (_ & _ & Hnr') & _).
  { intros i Hi. apply Hown, elem_of_app. left. by apply elem_of_seqZ. }
  cbn in R. rewrite R in R2. injection R2 as ->. cbn. unfold default_nr_free_pages.
  rewrite Hnr, Hnr', free_blocks_pages, zlen_app, zlen_seqZ; [lia..|].
  eapply Forall_impl; [by eapply blocks_ok_pos|cbn; lia].
Qed.

#[global] Instance default_pmm_manager_laws : PmmManagerLaws pmm.
Proof.
  refine {| mgr_inv := default_inv |}.
  - intros st own (bs & _ & _ & Hnd & Hown). split; [done|]. intros p Hp.
    split; [by eapply allocated_range, Hown|]. destruct (Hown p Hp) as [(pg & Hpg & Hres) _]. cbn. by rewrite Hpg.
  - intros st own own' (bs & Hrep & Hc & Hnd & Hown) Hperm. exists bs.
    split; [done|]. split; [done|]. split; [by rewrite <-Hperm|]. intros i. rewrite <-Hperm. apply Hown.
  - exact default_alloc_law.
  - exact default_free_law.
  - intros st own p _ Hp. cbn in *. unfold page. destruct (aget_in_range (pages st) p Hp) as (pg & -> & _). by eexists.
  - exact default_set_ref_law.
  - intros st own (bs & Hrep & _). by eapply pmm_rep_nr_free.
  - exact default_alloc_one.
  - exact default_alloc_nr.
  - exact default_free_nr.
  - intros st p v st' R. apply upd_page_inv in R as (pg & _ & _ & ->). done.
Defined.
