(* ===== verification/Mmu.v ===== *)
(** * mmu.h, memlayout.h, defs.h: addresses, page table entries, descriptors

    Models the address macros of src/Labweek11/lab2/kern/mm/mmu.h, the
    rounding macros of libs/defs.h, the memory layout of memlayout.h, and the
    segment and gate descriptors with their bit fields.  Addresses are 32-bit
    words; a bit field stores its value modulo its width.

    The theorems: an address is composed of directory index, table index and
    offset, and [PGADDR] puts it together again; a segment or gate descriptor
    holds the base, limit or offset it was made from. *)

From stdpp Require Import base numbers list.
From S2P Require Import Prelude.

(** ** Constants *)

Definition KERNBASE : Z := 0xC0000000.
Definition KMEMSIZE : Z := 0x38000000.
Definition KERNTOP : Z := KERNBASE + KMEMSIZE.
Definition VPT : Z := 0xFAC00000.
Definition PGSIZE : Z := 4096.
Definition PGSHIFT : Z := 12.
Definition PTXSHIFT : Z := 12.
Definition PDXSHIFT : Z := 22.
Definition NPDEENTRY : Z := 1024.
Definition NPTEENTRY : Z := 1024.
Definition PTSIZE : Z := PGSIZE * NPTEENTRY.
Definition PTE_P : Z := 1.
Definition PTE_W : Z := 2.
Definition PTE_U : Z := 4.
Definition PTE_USER : Z := Z.lor (Z.lor PTE_U PTE_W) PTE_P.

(** ** Addresses *)

Definition PDX (la : Z) : Z := Z.land (Z.shiftr la PDXSHIFT) 0x3FF.
Definition PTX (la : Z) : Z := Z.land (Z.shiftr la PTXSHIFT) 0x3FF.
Definition PPN (la : Z) : Z := Z.shiftr la PTXSHIFT.
Definition PGOFF (la : Z) : Z := Z.land la 0xFFF.
Definition PGADDR (d t o : Z) : Z :=
  u32 (Z.lor (Z.lor (Z.shiftl d PDXSHIFT) (Z.shiftl t PTXSHIFT)) o).
Definition PTE_ADDR (pte : Z) : Z := Z.ldiff pte 0xFFF.
Definition PDE_ADDR (pde : Z) : Z := PTE_ADDR pde.

Definition ROUNDDOWN (a n : Z) : Z := let a := u32 a in a - a mod n.
Definition ROUNDUP (a n : Z) : Z := ROUNDDOWN (u32 (a + n - 1)) n.

Lemma PDX_div la : PDX la = la / 2 ^ 22 mod 1024.
Proof.
  unfold PDX, PDXSHIFT. rewrite Z.shiftr_div_pow2 by lia. change 0x3FF with (Z.ones 10).
  by rewrite Z.land_ones by lia.
Qed.

Lemma PTX_div la : PTX la = la / 4096 mod 1024.
Proof.
  unfold PTX, PTXSHIFT. rewrite Z.shiftr_div_pow2 by lia. change 0x3FF with (Z.ones 10).
  by rewrite Z.land_ones by lia.
Qed.

Lemma PPN_div la : PPN la = la / 4096.
Proof. unfold PPN, PTXSHIFT. by rewrite Z.shiftr_div_pow2 by lia. Qed.

Lemma PGOFF_mod la : PGOFF la = la mod 4096.
Proof. unfold PGOFF. change 0xFFF with (Z.ones 12). by rewrite Z.land_ones by lia. Qed.

Lemma PTE_ADDR_div pte : PTE_ADDR pte = pte / 4096 * 4096.
Proof.
  unfold PTE_ADDR. change 0xFFF with (Z.ones 12). rewrite Z.ldiff_ones_r by lia.
  rewrite Z.shiftr_div_pow2, Z.shiftl_mul_pow2 by lia. done.
Qed.

(** Fields of a word that do not overlap add up. *)
Lemma lor_low k a b : 0 ≤ k → 0 ≤ b < 2 ^ k → Z.lor (a * 2 ^ k) b = a * 2 ^ k + b.
Proof.
  intros Hk Hb. rewrite <-Z.shiftl_mul_pow2 by done.
  assert (Z.land (Z.shiftl a k) b = 0) as H0.
  { apply Z.bits_inj'. intros i Hi. rewrite Z.land_spec, Z.bits_0.
    destruct (Z.lt_ge_cases i k); [by rewrite Z.shiftl_spec_low|].
    rewrite <-(Z.mod_small b (2 ^ k)) by done. rewrite (Z.mod_pow2_bits_high b) by lia. apply andb_false_r. }
  rewrite <-(Z.lxor_lor _ _ H0). symmetry. by apply Z.add_nocarry_lxor.
Qed.

Lemma lor_bound k a b : 0 ≤ k → 0 ≤ a < 2 ^ k → 0 ≤ b < 2 ^ k → 0 ≤ Z.lor a b < 2 ^ k.
Proof.
  intros Hk Ha Hb. assert (Z.lor a b = Z.lor a b mod 2 ^ k) as ->.
  - rewrite <-!Z.land_ones, Z.land_lor_distr_l, !Z.land_ones by done. by rewrite !Z.mod_small.
  - apply Z.mod_pos_bound. lia.
Qed.

Lemma lor_fff v : 0 ≤ v → Z.lor v 0xFFF = v / 4096 * 4096 + 4095.
Proof.
  intros Hv. change 4096 with (2 ^ 12).
  pose proof (Z.div_mod v (2 ^ 12) ltac:(lia)). pose proof (Z.mod_pos_bound v (2 ^ 12) ltac:(lia)).
  assert (v = Z.lor (v / 2 ^ 12 * 2 ^ 12) (v mod 2 ^ 12)) as E by (rewrite lor_low by lia; lia).
  rewrite E at 1. rewrite <-Z.lor_assoc.
  assert (Z.lor (v mod 2 ^ 12) 0xFFF = 0xFFF) as ->; [|by rewrite lor_low by lia].
  apply Z.bits_inj'. intros i Hi. rewrite Z.lor_spec. change 0xFFF with (Z.ones 12).
  destruct (Z.lt_ge_cases i 12).
  - rewrite Z.ones_spec_low by lia. by rewrite orb_true_r.
  - rewrite Z.ones_spec_high by lia. rewrite Z.mod_pow2_bits_high by lia. done.
Qed.

Lemma PGADDR_sum d t o :
  0 ≤ d < 1024 → 0 ≤ t < 1024 → 0 ≤ o < 4096 → PGADDR d t o = d * 2 ^ 22 + t * 2 ^ 12 + o.
Proof.
  intros Hd Ht Ho. unfold PGADDR, PDXSHIFT, PTXSHIFT. rewrite !Z.shiftl_mul_pow2 by lia.
  rewrite (lor_low 22 d (t * 2 ^ 12)) by lia.
  replace (d * 2 ^ 22 + t * 2 ^ 12) with ((d * 2 ^ 10 + t) * 2 ^ 12) by lia.
  rewrite lor_low by lia. apply u32_small. lia.
Qed.

Lemma PPN_split la : 0 ≤ la → PPN la = la / 2 ^ 22 * 1024 + PTX la.
Proof.
  intros H. rewrite PPN_div, PTX_div.
  replace (la / 2 ^ 22) with (la / 4096 / 1024) by (rewrite Z.div_div by lia; done).
  pose proof (Z.div_mod (la / 4096) 1024 ltac:(lia)). lia.
Qed.

Lemma PDX_small la : 0 ≤ la < 2 ^ 32 → PDX la = la / 2 ^ 22.
Proof.
  intros H. rewrite PDX_div. apply Z.mod_small. split; [apply Z.div_pos; lia|].
  apply Z.div_lt_upper_bound; lia.
Qed.

Lemma PDX_range la : 0 ≤ PDX la < 1024.
Proof. rewrite PDX_div. apply Z.mod_pos_bound. lia. Qed.

Lemma PTX_range la : 0 ≤ PTX la < 1024.
Proof. rewrite PTX_div. apply Z.mod_pos_bound. lia. Qed.

(** Two addresses are in the same page exactly when their indices agree. *)
Lemma PPN_indices la la' :
  0 ≤ la < 2 ^ 32 → 0 ≤ la' < 2 ^ 32 → PPN la = PPN la' ↔ PDX la = PDX la' ∧ PTX la = PTX la'.
Proof.
  intros H H'. rewrite !PPN_split, <-!PDX_small by lia.
  pose proof (PTX_range la). pose proof (PTX_range la'). lia.
Qed.

Lemma ROUNDUP_spec a n :
  0 < n → 0 ≤ a → a + n - 1 < 2 ^ 32 →
  a ≤ ROUNDUP a n < a + n ∧ ROUNDUP a n mod n = 0.
Proof.
  intros Hn Ha Hb. unfold ROUNDUP, ROUNDDOWN. rewrite !u32_small by (rewrite ?u32_small; lia).
  pose proof (Z.div_mod (a + n - 1) n ltac:(lia)) as Hd. pose proof (Z.mod_pos_bound (a + n - 1) n Hn).
  split; [lia|]. replace (a + n - 1 - (a + n - 1) mod n) with ((a + n - 1) / n * n) by lia.
  apply Z.mod_mul. lia.
Qed.

Lemma ROUNDDOWN_spec a n :
  0 < n → 0 ≤ a < 2 ^ 32 → a - n < ROUNDDOWN a n ≤ a ∧ ROUNDDOWN a n mod n = 0.
Proof.
  intros Hn Ha. unfold ROUNDDOWN. rewrite u32_small by done. pose proof (Z.div_mod a n ltac:(lia)). pose proof (Z.mod_pos_bound a n Hn).
  split; [lia|]. replace (a - a mod n) with (a / n * n) by lia. apply Z.mod_mul. lia.
Qed.

(** ** Descriptors *)

(** A field of [w] bits. *)
Definition bits (w v : Z) : Z := v mod 2 ^ w.

Record segdesc := Segdesc {
  sd_lim_15_0 : Z; sd_base_15_0 : Z; sd_base_23_16 : Z; sd_type : Z; sd_s : Z; sd_dpl : Z;
  sd_p : Z; sd_lim_19_16 : Z; sd_avl : Z; sd_rsv1 : Z; sd_db : Z; sd_g : Z; sd_base_31_24 : Z
}.

(** An initializer stores every value into its bit field. *)
Definition mk_segdesc (l b m t s dpl p lh avl rsv db g bh : Z) : segdesc :=
  Segdesc (bits 16 l) (bits 16 b) (bits 8 m) (bits 4 t) (bits 1 s) (bits 2 dpl) (bits 1 p)
    (bits 4 lh) (bits 1 avl) (bits 1 rsv) (bits 1 db) (bits 1 g) (bits 8 bh).

Definition SEG_NULL : segdesc := mk_segdesc 0 0 0 0 0 0 0 0 0 0 0 0 0.

Definition SEG (type base lim dpl : Z) : segdesc :=
  mk_segdesc (Z.land (Z.shiftr lim 12) 0xffff) (Z.land base 0xffff) (Z.land (Z.shiftr base 16) 0xff)
    type 1 dpl 1 (Z.shiftr lim 28) 0 0 1 1 (Z.shiftr base 24).

Definition SEGTSS (type base lim dpl : Z) : segdesc :=
  mk_segdesc (Z.land lim 0xffff) (Z.land base 0xffff) (Z.land (Z.shiftr base 16) 0xff)
    type 0 dpl 1 (Z.shiftr lim 16) 0 0 1 0 (Z.shiftr base 24).

Record gatedesc := Gatedesc {
  gd_off_15_0 : Z; gd_ss : Z; gd_args : Z; gd_rsv1 : Z; gd_type : Z; gd_s : Z; gd_dpl : Z;
  gd_p : Z; gd_off_31_16 : Z
}.

Definition STS_CG32 : Z := 0xC.
Definition STS_IG32 : Z := 0xE.
Definition STS_TG32 : Z := 0xF.
Definition STS_T32A : Z := 0x9.
Definition STA_X : Z := 0x8.
Definition STA_W : Z := 0x2.
Definition STA_R : Z := 0x2.

Definition SETGATE (istrap : bool) (sel off dpl : Z) : gatedesc :=
  Gatedesc (bits 16 (Z.land off 0xffff)) (bits 16 sel) 0 0 (if istrap then STS_TG32 else STS_IG32) 0
    (bits 2 dpl) 1 (bits 16 (Z.shiftr off 16)).

Definition SETCALLGATE (ss off dpl : Z) : gatedesc :=
  Gatedesc (bits 16 (Z.land off 0xffff)) (bits 16 ss) 0 0 STS_CG32 0 (bits 2 dpl) 1
    (bits 16 (Z.shiftr off 16)).

(** *** How the processor reads a descriptor *)

Definition seg_base (sd : segdesc) : Z :=
  sd_base_15_0 sd + sd_base_23_16 sd * 2 ^ 16 + sd_base_31_24 sd * 2 ^ 24.

(** The last offset of the segment. *)
Definition seg_limit (sd : segdesc) : Z :=
  let l := sd_lim_15_0 sd + sd_lim_19_16 sd * 2 ^ 16 in
  if sd_g sd =? 1 then l * 4096 + 4095 else l.

Definition gate_offset (gd : gatedesc) : Z := gd_off_15_0 gd + gd_off_31_16 gd * 2 ^ 16.

Lemma bits_mod w k v : 0 ≤ w ≤ k → bits w (v mod 2 ^ k) = bits w v.
Proof.
  intros H. unfold bits. replace (2 ^ k) with (2 ^ w * 2 ^ (k - w)) by (rewrite <-Z.pow_add_r by lia; f_equal; lia).
  by rewrite <-Znumtheory.Zmod_div_mod; [|apply Z.pow_pos_nonneg; lia|apply Z.mul_pos_pos; apply Z.pow_pos_nonneg; lia|eexists; apply Z.mul_comm].
Qed.

Lemma land_ffff v : Z.land v 0xffff = v mod 2 ^ 16.
Proof. change 0xffff with (Z.ones 16). by rewrite Z.land_ones by lia. Qed.

Lemma land_ff v : Z.land v 0xff = v mod 2 ^ 8.
Proof. change 0xff with (Z.ones 8). by rewrite Z.land_ones by lia. Qed.

Lemma base_fields base :
  0 ≤ base < 2 ^ 32 →
  bits 16 (Z.land base 0xffff) + bits 8 (Z.land (Z.shiftr base 16) 0xff) * 2 ^ 16 +
    bits 8 (Z.shiftr base 24) * 2 ^ 24 = base.
Proof.
  intros H. rewrite land_ffff, land_ff, !bits_mod by lia. unfold bits.
  rewrite !Z.shiftr_div_pow2 by lia.
  pose proof (Z.div_mod base (2 ^ 16) ltac:(lia)). pose proof (Z.div_mod (base / 2 ^ 16) (2 ^ 8) ltac:(lia)).
  rewrite Z.div_div in * by lia. change (2 ^ 16 * 2 ^ 8) with (2 ^ 24) in *.
  rewrite (Z.mod_small (base / 2 ^ 24)); [lia|]. split; [apply Z.div_pos; lia|apply Z.div_lt_upper_bound; lia].
Qed.

Lemma offset_fields off :
  0 ≤ off < 2 ^ 32 → bits 16 (Z.land off 0xffff) + bits 16 (Z.shiftr off 16) * 2 ^ 16 = off.
Proof.
  intros H. rewrite land_ffff, bits_mod by lia. unfold bits. rewrite Z.shiftr_div_pow2 by lia.
  pose proof (Z.div_mod off (2 ^ 16) ltac:(lia)).
  rewrite (Z.mod_small (off / 2 ^ 16)); [lia|]. split; [apply Z.div_pos; lia|apply Z.div_lt_upper_bound; lia].
Qed.

(** A segment descriptor made by [SEG] has the base it was given and,
    with its 4 KB granularity, the limit rounded up to the end of its page; one
    made by [SEGTSS] has base and limit exactly; the offset of a gate survives
    [SETGATE] and [SETCALLGATE]. *)
Theorem descriptor_roundtrip type base lim dpl istrap sel :
  0 ≤ base < 2 ^ 32 → 0 ≤ lim < 2 ^ 32 →
  seg_base (SEG type base lim dpl) = base ∧
  seg_limit (SEG type base lim dpl) = Z.lor lim 0xFFF ∧
  (lim < 2 ^ 20 → seg_base (SEGTSS type base lim dpl) = base ∧ seg_limit (SEGTSS type base lim dpl) = lim) ∧
  gate_offset (SETGATE istrap sel base dpl) = base ∧ gate_offset (SETCALLGATE sel base dpl) = base.
Proof.
  intros Hb Hl. unfold seg_base, seg_limit, SEG, SEGTSS, mk_segdesc, gate_offset, SETGATE, SETCALLGATE.
  cbn [sd_base_15_0 sd_base_23_16 sd_base_31_24 sd_lim_15_0 sd_lim_19_16 sd_g gd_off_15_0 gd_off_31_16].
  rewrite base_fields, offset_fields by done. change (bits 1 1 =? 1) with true. change (bits 1 0 =? 1) with false.
  cbn match. split; [done|]. split; [|split; [|done]].
  - rewrite land_ffff, bits_mod by lia. unfold bits. rewrite !Z.shiftr_div_pow2 by lia.
    pose proof (Z.div_mod (lim / 2 ^ 12) (2 ^ 16) ltac:(lia)). rewrite Z.div_div in * by lia.
    change (2 ^ 12 * 2 ^ 16) with (2 ^ 28) in *.
    rewrite (Z.mod_small (lim / 2 ^ 28));
      [|split; [apply Z.div_pos; lia|apply Z.div_lt_upper_bound; lia]].
    rewrite lor_fff by lia. change (2 ^ 12) with 4096 in *. lia.
  - intros Hl20. split; [done|]. rewrite land_ffff, bits_mod by lia. unfold bits. rewrite Z.shiftr_div_pow2 by lia.
    pose proof (Z.div_mod lim (2 ^ 16) ltac:(lia)).
    rewrite (Z.mod_small (lim / 2 ^ 16)); [lia|]. split; [apply Z.div_pos; lia|apply Z.div_lt_upper_bound; lia].
Qed.

Lemma descriptor_roundtrip_witness :
  seg_base (SEG 10 0 0xFFFFFFFF 3) = 0 ∧ seg_limit (SEG 10 0 0xFFFFFFFF 3) = Z.lor 0xFFFFFFFF 0xFFF ∧
  (0xFFFFFFFF < 2 ^ 20 → seg_base (SEGTSS 10 0 0xFFFFFFFF 3) = 0 ∧ seg_limit (SEGTSS 10 0 0xFFFFFFFF 3) = 0xFFFFFFFF) ∧
  gate_offset (SETGATE true 8 0 3) = 0 ∧ gate_offset (SETCALLGATE 8 0 3) = 0.
Proof. apply (descriptor_roundtrip 10 0 0xFFFFFFFF 3 true 8); lia. Defined.

(** An address is its directory index, table index and offset: [PGADDR]
    composes it from them, and the macros take a composed address apart. *)
Lemma PGADDR_roundtrip la d t o :
  0 ≤ la < 2 ^ 32 → 0 ≤ d < 1024 → 0 ≤ t < 1024 → 0 ≤ o < 4096 →
  PGADDR (PDX la) (PTX la) (PGOFF la) = la ∧
  PDX (PGADDR d t o) = d ∧ PTX (PGADDR d t o) = t ∧ PGOFF (PGADDR d t o) = o ∧
  PPN (PGADDR d t o) = d * 1024 + t.
Proof.
  intros Hla Hd Ht Ho.
  assert (PDX la * 2 ^ 22 + PTX la * 2 ^ 12 + PGOFF la = la) as E.
  { rewrite PGOFF_mod, PDX_small by done. pose proof (PPN_split la ltac:(lia)) as Hs. rewrite PPN_div in Hs.
    pose proof (Z.div_mod la 4096 ltac:(lia)). lia. }
  assert (0 ≤ PGOFF la < 4096) as Hoff by (rewrite PGOFF_mod; apply Z.mod_pos_bound; lia).
  split; [rewrite PGADDR_sum by (apply PDX_range || apply PTX_range || done); exact E|].
  rewrite PGADDR_sum by done. rewrite PDX_div, PTX_div, PGOFF_mod, PPN_div.
  assert ((d * 2 ^ 22 + t * 2 ^ 12 + o) / 4096 = d * 1024 + t) as E2.
  { symmetry. apply (Z.div_unique_pos _ _ _ o); lia. }
  assert ((d * 2 ^ 22 + t * 2 ^ 12 + o) / 2 ^ 22 = d) as E3.
  { symmetry. apply (Z.div_unique_pos _ _ _ (t * 2 ^ 12 + o)); lia. }
  rewrite E2, E3. split; [apply Z.mod_small; lia|]. split; [|split; [|done]].
  - symmetry. apply (Z.mod_unique_pos _ _ d); lia.
  - symmetry. apply (Z.mod_unique_pos _ _ (d * 1024 + t)); lia.
Qed.

Lemma PGADDR_roundtrip_witness :
  PGADDR (PDX 0xFAC01234) (PTX 0xFAC01234) (PGOFF 0xFAC01234) = 0xFAC01234 ∧
  PDX (PGADDR 3 5 7) = 3 ∧ PTX (PGADDR 3 5 7) = 5 ∧ PGOFF (PGADDR 3 5 7) = 7 ∧ PPN (PGADDR 3 5 7) = 3 * 1024 + 5.
Proof. apply (PGADDR_roundtrip 0xFAC01234 3 5 7); lia. Defined.
