(* ===== verification/PageTable.v ===== *)
(** * kern/mm/pmm.c: page tables

    Models the paging part of src/Labweek11/lab2/kern/mm/pmm.c with the
    conversions of pmm.h and the interrupt flag of sync.h, against the
    interface of PmmManager.v.

    The state holds the 32-bit words of the mapped kernel memory by their
    kernel virtual address (a page table is only accessed by words; [memset] of
    a page clears its 1024 words), the page allocator, the page directory
    register, the TLB (the entries it may have cached) and the interrupt flag.
    Addresses are 32-bit words, page [p] is [pages[p]].

    The theorems: [page_insert] and [page_remove], for an address below KERNBASE,
    change the mapping of the one page they are called for; the reference count
    of every page the kernel got is the number of such addresses mapped to it, so
    a page mapped there is never free; the TLB never holds an entry the page table
    does not have; [boot_map_segment] maps the range linearly; the state is never
    left half changed by a failure.  A table of the kernel may lie in the image of
    the kernel (entry.S), and the entry of VPT is left out of all statements but
    those of PmmPaging.v: behind it the tables themselves appear, so that a new
    table changes what is mapped there. *)

From stdpp Require Import base gmap list numbers.
From S2P Require Import Prelude Mmu PmmManager.

Record vm (M : Type) := Vm {
  words : gmap Z Z;
  phys : M;
  npage : Z;
  cr3 : Z;
  tlb : gmap Z Z;
  iflag : bool
}.
Arguments Vm {M} words phys npage cr3 tlb iflag.
Arguments words {M} v.
Arguments phys {M} v.
Arguments npage {M} v.
Arguments cr3 {M} v.
Arguments tlb {M} v.
Arguments iflag {M} v.

Definition E_NO_MEM : Z := 4.

Section pmm.
Context {M : Type} `{PmmManager M}.

Definition set_words (s : vm M) (w : gmap Z Z) : vm M :=
  Vm w (phys s) (npage s) (cr3 s) (tlb s) (iflag s).
Definition set_phys (s : vm M) (m : M) : vm M :=
  Vm (words s) m (npage s) (cr3 s) (tlb s) (iflag s).
Definition set_tlb (s : vm M) (t : gmap Z Z) : vm M :=
  Vm (words s) (phys s) (npage s) (cr3 s) t (iflag s).
Definition set_iflag (s : vm M) (b : bool) : vm M :=
  Vm (words s) (phys s) (npage s) (cr3 s) (tlb s) b.

(** ** Memory *)

Definition ldw (s : vm M) (a : Z) : outcome Z := of_option (words s !! a).
Definition stw (s : vm M) (a v : Z) : outcome (vm M) :=
  match words s !! a with
  | Some _ => Ok (set_words s (<[a := u32 v]> (words s)))
  | None => Err Undef
  end.

(** [memset(kva, 0, PGSIZE)] *)
Definition memset_page (s : vm M) (kva : Z) : outcome (vm M) :=
  for_range 0 1024 (λ i s, stw s (kva + 4 * i) 0) s.

(** ** sync.h and intr.c *)

Definition intr_enable (s : vm M) : vm M := set_iflag s true.
Definition intr_disable (s : vm M) : vm M := set_iflag s false.
Definition __intr_save (s : vm M) : bool * vm M :=
  if iflag s then (true, intr_disable s) else (false, s).
Definition __intr_restore (flag : bool) (s : vm M) : vm M := if flag then intr_enable s else s.

(** ** pmm.h *)

Definition present (pte : Z) : bool := negb (Z.land pte PTE_P =? 0).

Definition PADDR (kva : Z) : outcome Z := if kva <? KERNBASE then Err Panic else Ok (kva - KERNBASE).
Definition KADDR (s : vm M) (pa : Z) : outcome Z :=
  if npage s <=? PPN pa then Err Panic else Ok (u32 (pa + KERNBASE)).
Definition page2ppn (p : Z) : Z := p.
Definition page2pa (p : Z) : Z := u32 (Z.shiftl (page2ppn p) PGSHIFT).
Definition pa2page (s : vm M) (pa : Z) : outcome Z :=
  if npage s <=? PPN pa then Err Panic else Ok (PPN pa).
Definition page2kva (s : vm M) (p : Z) : outcome Z := KADDR s (page2pa p).
Definition kva2page (s : vm M) (kva : Z) : outcome Z := pa ← PADDR kva; pa2page s pa.
Definition pte2page (s : vm M) (pte : Z) : outcome Z :=
  if negb (present pte) then Err Panic else pa2page s (PTE_ADDR pte).
Definition pde2page (s : vm M) (pde : Z) : outcome Z := pa2page s (PDE_ADDR pde).

Definition page_ref (s : vm M) (p : Z) : outcome Z := mgr_ref (phys s) p.
Definition set_page_ref (s : vm M) (p val : Z) : outcome (vm M) :=
  m ← mgr_set_ref (phys s) p val; Ok (set_phys s m).
Definition page_ref_inc (s : vm M) (p : Z) : outcome (Z * vm M) :=
  r ← page_ref s p; r ← cint (r + 1); s ← set_page_ref s p r; Ok (r, s).
Definition page_ref_dec (s : vm M) (p : Z) : outcome (Z * vm M) :=
  r ← page_ref s p; r ← cint (r - 1); s ← set_page_ref s p r; Ok (r, s).

(** ** The wrappers of the manager *)

Definition alloc_pages (s : vm M) (n : Z) : outcome (option Z * vm M) :=
  let '(flag, s) := __intr_save s in
  r ← mgr_alloc_pages (phys s) n;
  Ok (r.1, __intr_restore flag (set_phys s r.2)).

Definition free_pages (s : vm M) (base n : Z) : outcome (vm M) :=
  let '(flag, s) := __intr_save s in
  m ← mgr_free_pages (phys s) base n;
  Ok (__intr_restore flag (set_phys s m)).

Definition nr_free_pages (s : vm M) : Z * vm M :=
  let '(flag, s) := __intr_save s in
  (mgr_nr_free_pages (phys s), __intr_restore flag s).

Definition alloc_page (s : vm M) := alloc_pages s 1.
Definition free_page (s : vm M) (p : Z) := free_pages s p 1.

Definition boot_alloc_page (s : vm M) : outcome (Z * vm M) :=
  r ← alloc_page s;
  match r with
  | (None, _) => Err Panic
  | (Some p, s) => kva ← page2kva s p; Ok (kva, s)
  end.

(** ** Page tables *)

Definition tlb_invalidate (s : vm M) (pgdir la : Z) : outcome (vm M) :=
  pa ← PADDR pgdir;
  Ok (if cr3 s =? pa then set_tlb s (delete (PPN la) (tlb s)) else s).

(** The new page table of [get_pte]: [None] when there is no memory. *)
Definition new_table (s : vm M) (pdep : Z) : outcome (bool * vm M) :=
  r ← alloc_page s;
  match r with
  | (None, s) => Ok (false, s)
  | (Some page, s) =>
      s ← set_page_ref s page 1;
      let pa := page2pa page in
      kva ← KADDR s pa;
      s ← memset_page s kva;
      s ← stw s pdep (Z.lor (Z.lor (Z.lor pa PTE_U) PTE_W) PTE_P);
      Ok (true, s)
  end.

(** The address of the entry, [None] for NULL. *)
Definition get_pte (s : vm M) (pgdir la : Z) (create : bool) : outcome (option Z * vm M) :=
  let pdep := pgdir + 4 * PDX la in
  pde ← ldw s pdep;
  r ← (if negb (present pde) then
         if negb create then Ok (false, s) else new_table s pdep
       else Ok (true, s));
  let '(found, s) := r in
  if (found : bool) then
    pde ← ldw s pdep;
    kva ← KADDR s (PDE_ADDR pde);
    Ok (Some (kva + 4 * PTX la), s)
  else Ok (None, s).

(** The page and what is stored through [ptep_store]. *)
Definition get_page (s : vm M) (pgdir la : Z) : outcome (option Z * option Z * vm M) :=
  r ← get_pte s pgdir la false;
  let '(ptep, s) := r in
  match ptep with
  | None => Ok (None, ptep, s)
  | Some a =>
      pte ← ldw s a;
      if present pte then p ← pte2page s pte; Ok (Some p, ptep, s) else Ok (None, ptep, s)
  end.

Definition page_remove_pte (s : vm M) (pgdir la ptep : Z) : outcome (vm M) :=
  pte ← ldw s ptep;
  if present pte then
    page ← pte2page s pte;
    r ← page_ref_dec s page;
    s ← (if r.1 =? 0 then free_page r.2 page else Ok r.2);
    s ← stw s ptep 0;
    tlb_invalidate s pgdir la
  else Ok s.

Definition page_remove (s : vm M) (pgdir la : Z) : outcome (vm M) :=
  r ← get_pte s pgdir la false;
  match r with
  | (None, s) => Ok s
  | (Some ptep, s) => page_remove_pte s pgdir la ptep
  end.

Definition page_insert (s : vm M) (pgdir page la perm : Z) : outcome (Z * vm M) :=
  r ← get_pte s pgdir la true;
  match r with
  | (None, s) => Ok (- E_NO_MEM, s)
  | (Some ptep, s) =>
      r ← page_ref_inc s page;
      let s := r.2 in
      pte ← ldw s ptep;
      s ← (if present pte then
             p ← pte2page s pte;
             if p =? page then r ← page_ref_dec s page; Ok r.2
             else page_remove_pte s pgdir la ptep
           else Ok s);
      s ← stw s ptep (Z.lor (Z.lor (page2pa page) PTE_P) perm);
      s ← tlb_invalidate s pgdir la;
      Ok (0, s)
  end.

(** The loop of [boot_map_segment], [n] pages from [la] and [pa] on. *)
Fixpoint map_pages (n : nat) (s : vm M) (pgdir la pa perm : Z) : outcome (vm M) :=
  match n with
  | O => Ok s
  | S n =>
      r ← get_pte s pgdir la true;
      match r with
      | (None, _) => Err Panic
      | (Some ptep, s) =>
          s ← stw s ptep (Z.lor (Z.lor pa PTE_P) perm);
          map_pages n s pgdir (u32 (la + PGSIZE)) (u32 (pa + PGSIZE)) perm
      end
  end.

Definition boot_map_segment (s : vm M) (pgdir la size pa perm : Z) : outcome (vm M) :=
  assert_ (PGOFF la =? PGOFF pa);;
  let n := ROUNDUP (u32 (size + PGOFF la)) PGSIZE / PGSIZE in
  map_pages (Z.to_nat n) s pgdir (ROUNDDOWN la PGSIZE) (ROUNDDOWN pa PGSIZE) perm.
End pmm.

(** ** What the processor translates *)

(** The page table entry of [la] in the directory at [pgdir], when both levels
    are present. *)
Definition walk (w : gmap Z Z) (pgdir la : Z) : option Z :=
  pde ← w !! (pgdir + 4 * PDX la);
  if present pde then
    pte ← w !! (KERNBASE + PDE_ADDR pde + 4 * PTX la);
    if present pte then Some pte else None
  else None.

(** ** Structure of the tables *)

(** The address of word [i] of page [p]. *)
Definition waddr (p i : Z) : Z := KERNBASE + p * 4096 + 4 * i.

(** The page of the table of directory entry [d]. *)
Definition pde_page (w : gmap Z Z) (pgdir d : Z) : option Z :=
  pde ← w !! (pgdir + 4 * d); if present pde then Some (PPN pde) else None.

(** The entry of VPT maps the directory itself; all others map page tables. *)
Definition dir (d : Z) : Prop := 0 ≤ d < 1024 ∧ d ≠ PDX VPT.

Definition is_table (w : gmap Z Z) (pgdir p : Z) : Prop :=
  ∃ d, dir d ∧ pde_page w pgdir d = Some p.

Lemma dir_PDX la : PDX la ≠ PDX VPT → dir (PDX la).
Proof. split; [apply PDX_range|done]. Qed.

Lemma below_VPT la : 0 ≤ la < VPT → PDX la ≠ PDX VPT.
Proof.
  unfold VPT. intros Hla. rewrite (PDX_small la) by lia. change (PDX 0xFAC00000) with 1003.
  pose proof (Z.div_lt_upper_bound la (2 ^ 22) 1003 ltac:(lia) ltac:(lia)). lia.
Qed.

Lemma user_dir la : 0 ≤ la < KERNBASE → dir (PDX la).
Proof. intros Hla. apply dir_PDX, below_VPT. unfold KERNBASE, VPT in *. lia. Qed.

Lemma user_regular la : 0 ≤ la < KERNBASE → PDX la ≠ PDX VPT.
Proof. intros Hla. by apply user_dir. Qed.

(** The addresses below and behind the entry of VPT. *)
Definition regular (la : Z) : Prop := 0 ≤ la < 2 ^ 32 ∧ PDX la ≠ PDX VPT.

Lemma user_32 la : 0 ≤ la < KERNBASE → 0 ≤ la < 2 ^ 32.
Proof. unfold KERNBASE. lia. Qed.

Lemma user_reg la : 0 ≤ la < KERNBASE → regular la.
Proof. split; [by apply user_32|by apply user_regular]. Qed.

Record pt_struct (w : gmap Z Z) (np : Z) (own : list Z) (pgdir : Z) : Prop := {
  ps_np : 0 ≤ np ≤ KMEMSIZE / PGSIZE;
  ps_own : ∀ p, p ∈ own → 0 ≤ p < np;
  ps_pgdir : ∃ pd, pgdir = waddr pd 0 ∧ 0 ≤ pd < np ∧ pd ∉ own;
  ps_words : ∀ p i, 0 ≤ p < np → 0 ≤ i < 1024 → ∃ v, w !! waddr p i = Some v ∧ 0 ≤ v < 2 ^ 32;
  ps_pde : ∀ d t, dir d → pde_page w pgdir d = Some t → t ∈ own;
  ps_inj : ∀ d d' t, dir d → dir d' →
    pde_page w pgdir d = Some t → pde_page w pgdir d' = Some t → d = d'
}.

Lemma waddr_inj p i p' i' :
  0 ≤ i < 1024 → 0 ≤ i' < 1024 → waddr p i = waddr p' i' → p = p' ∧ i = i'.
Proof. unfold waddr. intros. lia. Qed.

Lemma waddr_pgdir pd d : waddr pd 0 + 4 * d = waddr pd d.
Proof. unfold waddr. lia. Qed.

Lemma np_bound w np own pgdir p : pt_struct w np own pgdir → 0 ≤ p < np → 0 ≤ p < 0x38000.
Proof. intros Hs Hp. pose proof (ps_np _ _ _ _ Hs) as Hn. change (KMEMSIZE / PGSIZE) with 0x38000 in Hn. lia. Qed.

(** [walk] by pages. *)
Lemma walk_pages w pgdir la :
  walk w pgdir la =
    t ← pde_page w pgdir (PDX la);
    pte ← w !! waddr t (PTX la); if present pte then Some pte else None.
Proof.
  unfold walk, pde_page. destruct (w !! (pgdir + 4 * PDX la)) as [pde|]; cbn; [|done].
  destruct (present pde); cbn; [|done]. unfold waddr, PDE_ADDR. by rewrite PTE_ADDR_div, PPN_div.
Qed.

Lemma walk_indices w pgdir la la' :
  PDX la = PDX la' → PTX la = PTX la' → walk w pgdir la = walk w pgdir la'.
Proof. intros E1 E2. by rewrite !walk_pages, E1, E2. Qed.

Lemma walk_table w pgdir la pte : walk w pgdir la = Some pte →
  present pte = true ∧ ∃ t, pde_page w pgdir (PDX la) = Some t ∧ w !! waddr t (PTX la) = Some pte.
Proof.
  rewrite walk_pages. destruct (pde_page w pgdir (PDX la)) as [t|]; cbn; [|done].
  destruct (w !! waddr t (PTX la)) as [x|] eqn:Ex; cbn; [|done]. destruct (present x) eqn:E; [|done].
  intros [= <-]. split; [done|]. by exists t.
Qed.

(** ** Bits of an entry *)

Lemma present_mod pte : present pte = bool_decide (pte mod 2 = 1).
Proof.
  unfold present, PTE_P. change 1 with (Z.ones 1) at 1. rewrite Z.land_ones by lia. change (2 ^ 1) with 2.
  pose proof (Z.mod_pos_bound pte 2 ltac:(lia)). case_bool_decide; destruct (Z.eqb_spec (pte mod 2) 0); cbn; lia.
Qed.

Lemma entry_bits p perm :
  0 ≤ p < 2 ^ 20 → 0 ≤ perm < 4096 →
  let e := Z.lor (Z.lor (p * 4096) PTE_P) perm in
  0 ≤ e < 2 ^ 32 ∧ present e = true ∧ PPN e = p ∧ e mod 4096 = Z.lor PTE_P perm.
Proof.
  intros Hp Hperm e.
  assert (0 ≤ Z.lor PTE_P perm < 4096) as Hlow.
  { apply (lor_bound 12); done || (unfold PTE_P; lia). }
  assert (e = p * 4096 + Z.lor PTE_P perm) as E.
  { unfold e. rewrite <-Z.lor_assoc. change 4096 with (2 ^ 12). by rewrite lor_low by (change (2 ^ 12) with 4096; lia). }
  rewrite E. split; [lia|]. split; [|split].
  - rewrite present_mod, bool_decide_eq_true_2; [done|].
    replace (p * 4096 + Z.lor PTE_P perm) with (Z.lor PTE_P perm + (p * 2048) * 2) by lia.
    rewrite Z.mod_add by lia. pose proof (present_mod (Z.lor PTE_P perm)) as Hp1.
    assert (present (Z.lor PTE_P perm) = true) as Hp2.
    { unfold present. rewrite Z.land_lor_distr_l. change (Z.land PTE_P PTE_P) with 1.
      destruct (Z.eqb_spec (Z.lor 1 (Z.land perm PTE_P)) 0) as [E0|]; [|done].
      apply Z.lor_eq_0_iff in E0. lia. }
    rewrite Hp2 in Hp1. symmetry in Hp1. by apply bool_decide_eq_true in Hp1.
  - rewrite PPN_div. symmetry. apply (Z.div_unique_pos _ _ _ (Z.lor PTE_P perm)); lia.
  - symmetry. apply (Z.mod_unique_pos _ _ p); lia.
Qed.

Lemma pde_bits p :
  0 ≤ p < 2 ^ 20 →
  let e := Z.lor (Z.lor (Z.lor (p * 4096) PTE_U) PTE_W) PTE_P in
  0 ≤ e < 2 ^ 32 ∧ present e = true ∧ PPN e = p.
Proof.
  intros Hp e. assert (e = Z.lor (Z.lor (p * 4096) PTE_P) 6) as ->.
  { unfold e. rewrite <-!Z.lor_assoc. done. }
  destruct (entry_bits p 6 Hp ltac:(lia)) as (? & ? & ? & _). done.
Qed.

Lemma page2pa_eq p : 0 ≤ p < 2 ^ 20 → page2pa p = p * 4096.
Proof. intros Hp. unfold page2pa, page2ppn, PGSHIFT. rewrite Z.shiftl_mul_pow2 by lia. apply u32_small. lia. Qed.

(** ** Writing to the tables *)

Lemma pt_struct_own w np own own' pgdir :
  pt_struct w np own pgdir → (∀ p, p ∈ own' → p ∈ own) →
  (∀ d t, dir d → pde_page w pgdir d = Some t → t ∈ own') → pt_struct w np own' pgdir.
Proof.
  intros [H1 H2 (pd & E & Hpd & Hni) H4 H5 H6] Hsub Ht. split; try done; [auto|].
  exists pd. split; [done|]. split; [done|]. auto.
Qed.

#[global] Instance pt_struct_perm w np : Proper ((≡ₚ) ==> (=) ==> iff) (pt_struct w np).
Proof.
  assert (∀ own own' pgdir, own ≡ₚ own' → pt_struct w np own pgdir → pt_struct w np own' pgdir) as Himp.
  { intros own own' pgdir E Hs. apply (pt_struct_own _ _ own); [done|by intros p; rewrite E|].
    intros d t Hd Ht. rewrite <-E. by eapply ps_pde. }
  intros own own' E pgdir _ <-. split; by apply Himp.
Qed.

(** Writing word [k] of an owned page. *)
Lemma write_pde_page w np own pgdir p k v d :
  pt_struct w np own pgdir → p ∈ own → 0 ≤ k < 1024 → 0 ≤ d < 1024 →
  pde_page (<[waddr p k := v]> w) pgdir d = pde_page w pgdir d.
Proof.
  intros Hs Hp Hk Hd. destruct (ps_pgdir _ _ _ _ Hs) as (pd & -> & _ & Hni). unfold pde_page.
  rewrite waddr_pgdir, lookup_insert_ne; [done|]. intros E. apply waddr_inj in E as [-> _]; done.
Qed.

Lemma write_struct w np own pgdir p k v :
  pt_struct w np own pgdir → p ∈ own → 0 ≤ k < 1024 → 0 ≤ v < 2 ^ 32 →
  pt_struct (<[waddr p k := v]> w) np own pgdir.
Proof.
  intros Hs Hp Hk Hv. pose proof Hs as [H1 H2 H3 H4 H5 H6]. split; try done.
  - intros q i Hq Hi. destruct (decide (waddr p k = waddr q i)) as [->|Hne].
    + exists v. by rewrite lookup_insert_eq.
    + rewrite lookup_insert_ne by done. by apply H4.
  - intros d t Hd. rewrite (write_pde_page w np own) by (done || apply Hd). by apply H5.
  - intros d d' t Hd Hd'. rewrite !(write_pde_page w np own) by (done || apply Hd || apply Hd'). by apply H6.
Qed.

Lemma write_walk w np own pgdir d t k v la :
  pt_struct w np own pgdir → dir d → pde_page w pgdir d = Some t → 0 ≤ k < 1024 → PDX la ≠ PDX VPT →
  walk (<[waddr t k := v]> w) pgdir la =
    if decide (PDX la = d ∧ PTX la = k) then (if present v then Some v else None) else walk w pgdir la.
Proof.
  intros Hs Hd Ht Hk Hla. rewrite !walk_pages.
  rewrite (write_pde_page w np own) by (done || apply PDX_range || exact (ps_pde _ _ _ _ Hs d t Hd Ht)).
  case_decide as Hc.
  - destruct Hc as [-> ->]. rewrite Ht. cbn. by rewrite lookup_insert_eq.
  - destruct (pde_page w pgdir (PDX la)) as [t'|] eqn:Et; cbn; [|done].
    rewrite lookup_insert_ne; [done|]. intros [-> ->]%waddr_inj; [|done|apply PTX_range].
    apply Hc. split; [|done]. eapply (ps_inj _ _ _ _ Hs); [by apply dir_PDX|done|done|done].
Qed.

(** Clearing a page. *)
Definition cleared (w w' : gmap Z Z) (p : Z) (n : Z) : Prop :=
  (∀ i, 0 ≤ i < n → w' !! waddr p i = Some 0) ∧
  (∀ a, (∀ i, 0 ≤ i < n → a ≠ waddr p i) → w' !! a = w !! a).

(** The entry of the directory for the table in page [t]. *)
Definition pde_word (t : Z) : Z := Z.lor (Z.lor (Z.lor (t * 4096) PTE_U) PTE_W) PTE_P.

(** The directory has the table [t] at entry [d], or is the same. *)
Definition dir_upd (w w' : gmap Z Z) (pgdir d t : Z) : Prop :=
  ∀ d', 0 ≤ d' < 1024 → w' !! (pgdir + 4 * d') = if decide (d' = d) then Some (pde_word t) else w !! (pgdir + 4 * d').
Definition same_dir (w w' : gmap Z Z) (pgdir : Z) : Prop :=
  ∀ d, 0 ≤ d < 1024 → w' !! (pgdir + 4 * d) = w !! (pgdir + 4 * d).

Lemma same_dir_pde w w' pgdir d : same_dir w w' pgdir → 0 ≤ d < 1024 → pde_page w' pgdir d = pde_page w pgdir d.
Proof. intros E Hd. unfold pde_page. by rewrite E. Qed.

Lemma same_dir_trans w1 w2 w3 pgdir : same_dir w1 w2 pgdir → same_dir w2 w3 pgdir → same_dir w1 w3 pgdir.
Proof. intros H1 H2 d Hd. by rewrite H2, H1. Qed.

Lemma write_dir w np own pgdir p k v :
  pt_struct w np own pgdir → p ∈ own → 0 ≤ k < 1024 → same_dir w (<[waddr p k := v]> w) pgdir.
Proof.
  intros Hs Hp Hk d Hd. destruct (ps_pgdir _ _ _ _ Hs) as (pd & -> & _ & Hni).
  rewrite waddr_pgdir, lookup_insert_ne; [done|]. intros E. apply waddr_inj in E as [-> _]; done.
Qed.

(** A fresh page becomes the table of directory entry [d]. *)
Lemma new_table_struct w w1 np own pgdir d t :
  pt_struct w np own pgdir → t ∉ own → 0 ≤ t < np → pgdir ≠ waddr t 0 →
  dir d → pde_page w pgdir d = None → cleared w w1 t 1024 →
  let e := pde_word t in
  let w2 := <[pgdir + 4 * d := e]> w1 in
  pt_struct w2 np (t :: own) pgdir ∧ dir_upd w w2 pgdir d t ∧
  (∀ d', 0 ≤ d' < 1024 → pde_page w2 pgdir d' = if decide (d' = d) then Some t else pde_page w pgdir d') ∧
  (∀ la, PDX la ≠ PDX VPT → walk w2 pgdir la = walk w pgdir la) ∧
  (∀ p i, 0 ≤ i < 1024 → p ≠ t → pgdir ≠ waddr p 0 → w2 !! waddr p i = w !! waddr p i).
Proof.
  intros Hs Ht Htn Hpg Hd Hnone [Hc1 Hc2] e w2. pose proof Hd as [Hdr _].
  assert (0 ≤ t < 2 ^ 20) as Htb by (pose proof (np_bound _ _ _ _ _ Hs Htn); lia).
  destruct (pde_bits t Htb) as (Hev & Hep & Hppn). fold (pde_word t) in Hev, Hep, Hppn. fold e in Hev, Hep, Hppn.
  assert (e = pde_word t) as He by done. clearbody e.
  pose proof Hs as [H1 H2 (pd & Epd & Hpd & Hni) H4 H5 H6]. subst pgdir.
  assert (pd ≠ t) as Hpt by (intros ->; done).
  assert (∀ p i, 0 ≤ i < 1024 → p ≠ t → p ≠ pd → w2 !! waddr p i = w !! waddr p i) as Hother.
  { intros p i Hi Hpt' Hpd'. unfold w2. rewrite waddr_pgdir, lookup_insert_ne by (intros [-> _]%waddr_inj; done).
    apply Hc2. intros j Hj [-> _]%waddr_inj; done. }
  assert (∀ i, 0 ≤ i < 1024 → w2 !! waddr t i = Some 0) as Hzero.
  { intros i Hi. unfold w2. rewrite waddr_pgdir, lookup_insert_ne by (intros [E _]%waddr_inj; done). by apply Hc1. }
  assert (∀ d', 0 ≤ d' < 1024 → w2 !! waddr pd d' = if decide (d' = d) then Some e else w !! waddr pd d') as Hdir.
  { intros d' Hd'. unfold w2. rewrite waddr_pgdir. case_decide as E; [subst; by rewrite lookup_insert_eq|].
    rewrite lookup_insert_ne by (intros [_ ?]%waddr_inj; done). apply Hc2. intros j Hj [? _]%waddr_inj; done. }
  assert (∀ d', 0 ≤ d' < 1024 → pde_page w2 (waddr pd 0) d' = if decide (d' = d) then Some t else pde_page w (waddr pd 0) d') as Hpde.
  { intros d' Hd'. unfold pde_page. rewrite waddr_pgdir, Hdir by done. case_decide; cbn; [by rewrite Hep, Hppn|done]. }
  split; [|split; [|split; [done|split]]].
  2:{ intros d' Hd'. rewrite <-He, waddr_pgdir. by apply Hdir. }
  - split; try done.
    + intros p [->|Hp]%elem_of_cons; [done|auto].
    + exists pd. split; [done|]. split; [done|]. intros [E|E]%elem_of_cons; done.
    + intros p i Hp Hi. destruct (decide (p = t)) as [->|]; [exists 0; split; [auto|lia]|].
      destruct (decide (p = pd)) as [->|]; [|rewrite Hother by done; auto].
      rewrite Hdir by done. case_decide; [by exists e|auto].
    + intros d' t' Hd'. rewrite Hpde by apply Hd'. case_decide; [intros [= <-]; by left|]. intros E. right. exact (H5 _ _ Hd' E).
    + intros d1 d2 t' Hd1 Hd2. rewrite !Hpde by (apply Hd1 || apply Hd2). repeat case_decide; subst; try done.
      * intros [= <-] E. destruct Ht. exact (H5 _ _ Hd2 E).
      * intros E [= <-]. destruct Ht. exact (H5 _ _ Hd1 E).
      * intros E1 E2. exact (H6 _ _ _ Hd1 Hd2 E1 E2).
  - intros la Hreg%dir_PDX. rewrite !walk_pages, Hpde by apply PDX_range. case_decide as E.
    + rewrite E, Hnone. cbn. rewrite Hzero by apply PTX_range. done.
    + destruct (pde_page w (waddr pd 0) (PDX la)) as [t'|] eqn:Et; cbn; [|done].
      rewrite Hother; [done|apply PTX_range| |]; intros ->.
      * destruct Ht. exact (H5 _ _ Hreg Et).
      * destruct Hni. exact (H5 _ _ Hreg Et).
  - intros p i Hi Hp Hpg'. apply Hother; [done|done|]. by intros ->.
Qed.

(** ** How many addresses map a page *)

(** The page mapped at page number [v]. *)
Definition maps (w : gmap Z Z) (pgdir v : Z) : option Z := PPN <$> walk w pgdir (v * 4096).

(** The page numbers of the user; sealed, so that no conversion enumerates them. *)
Definition vpns_seal : seal (seqZ 0 0xC0000).
Proof. by eexists. Qed.
Definition vpns : list Z := unseal vpns_seal.

Lemma vpns_eq : vpns = seqZ 0 0xC0000.
Proof. apply (seal_eq vpns_seal). Qed.

Lemma elem_vpns v : v ∈ vpns ↔ 0 ≤ v < 0xC0000.
Proof. rewrite vpns_eq, elem_of_seqZ. lia. Qed.

Lemma NoDup_vpns : NoDup vpns.
Proof. rewrite vpns_eq. apply NoDup_seqZ. Qed.

Lemma zlen_vpns : zlen vpns = 0xC0000.
Proof. unfold zlen. rewrite vpns_eq, length_seqZ. lia. Qed.

(** 1 where a choice is [p]. *)
Definition is_page (p : Z) (o : option Z) : Z := if decide (o = Some p) then 1 else 0.

Definition count (w : gmap Z Z) (pgdir p : Z) : Z := sumZ ((λ v, is_page p (maps w pgdir v)) <$> vpns).
#[global] Arguments count : simpl never.

Lemma is_page_range p o : 0 ≤ is_page p o ≤ 1.
Proof. unfold is_page. case_decide; lia. Qed.

Lemma is_page_eq p : is_page p (Some p) = 1.
Proof. unfold is_page. by rewrite decide_True. Qed.

Lemma is_page_ne p q : q ≠ p → is_page q (Some p) = 0.
Proof. intros Hne. unfold is_page. rewrite decide_False; [done|]. intros [= E]. by apply Hne. Qed.

Lemma is_page_None p : is_page p None = 0.
Proof. done. Qed.

Lemma sum_bounds {A} (f : A → Z) (l : list A) : (∀ x, 0 ≤ f x ≤ 1) → 0 ≤ sumZ (f <$> l) ≤ zlen l.
Proof.
  intros Hf. induction l as [|x l IH]; [done|]. rewrite fmap_cons, sumZ_cons.
  specialize (Hf x). unfold zlen in *. cbn [length]. lia.
Qed.

Lemma count_range w pgdir p : 0 ≤ count w pgdir p ≤ 0xC0000.
Proof.
  unfold count. rewrite <-zlen_vpns.
  apply sum_bounds. intros v. apply is_page_range.
Qed.

Lemma sum_update {A} (f g : A → Z) (l : list A) a :
  NoDup l → a ∈ l → (∀ x, x ≠ a → f x = g x) → sumZ (g <$> l) = sumZ (f <$> l) - f a + g a.
Proof.
  intros Hnd Hin Hfg. induction Hnd as [|x l Hx Hnd IH]; [by apply elem_of_nil in Hin|].
  rewrite !fmap_cons, !sumZ_cons. apply elem_of_cons in Hin as [<-|Hin].
  - assert (g <$> l = f <$> l) as ->; [|lia].
    apply list_fmap_ext. intros i y Hy. symmetry. apply Hfg. intros ->. apply Hx. by eapply list_elem_of_lookup_2.
  - rewrite (Hfg x) by (by intros ->). specialize (IH Hin). lia.
Qed.

Lemma count_ext w w' pgdir p :
  (∀ la, 0 ≤ la < KERNBASE → walk w' pgdir la = walk w pgdir la) → count w' pgdir p = count w pgdir p.
Proof.
  intros E. unfold count. apply (f_equal sumZ). apply list_fmap_ext. intros i v Hv%list_elem_of_lookup_2%elem_vpns.
  unfold maps. rewrite E; [done|unfold KERNBASE; lia].
Qed.

Lemma vpn_indices v : 0 ≤ v < 2 ^ 20 → PPN (v * 4096) = v.
Proof. intros. by rewrite PPN_div, Z.div_mul by lia. Qed.

Lemma walk_vpn w pgdir la : 0 ≤ la < 2 ^ 32 → walk w pgdir (PPN la * 4096) = walk w pgdir la.
Proof.
  intros Hla. assert (0 ≤ PPN la < 2 ^ 20) as Hv.
  { rewrite PPN_div. split; [apply Z.div_pos; lia|apply Z.div_lt_upper_bound; lia]. }
  assert (PPN (PPN la * 4096) = PPN la) as E by (by apply vpn_indices).
  apply PPN_indices in E as [E1 E2]; [by apply walk_indices|lia|done].
Qed.

Lemma user_vpn la : 0 ≤ la < KERNBASE → 0 ≤ PPN la < 0xC0000.
Proof.
  unfold KERNBASE. intros Hla. rewrite PPN_div. split; [apply Z.div_pos; lia|apply Z.div_lt_upper_bound; lia].
Qed.

(** Changing what is mapped at one page number. *)
Lemma count_update w w' pgdir la p :
  0 ≤ la < KERNBASE →
  (∀ la', 0 ≤ la' < KERNBASE → PPN la' ≠ PPN la → walk w' pgdir la' = walk w pgdir la') →
  count w' pgdir p =
    count w pgdir p - is_page p (PPN <$> walk w pgdir la) + is_page p (PPN <$> walk w' pgdir la).
Proof.
  intros Hla Hne. unfold count. pose proof (user_vpn la Hla) as Hv. pose proof (user_32 la Hla) as Hla32.
  set (f := λ v, is_page p (if decide (v ∈ vpns) then maps w pgdir v else None)).
  set (g := λ v, is_page p (if decide (v ∈ vpns) then maps w' pgdir v else None)).
  assert (∀ u, (λ v, is_page p (maps u pgdir v)) <$> vpns =
    (λ v, is_page p (if decide (v ∈ vpns) then maps u pgdir v else None)) <$> vpns) as Efg.
  { intros u. apply list_fmap_ext. intros i v Hv'. rewrite decide_True; [done|]. by eapply list_elem_of_lookup_2. }
  rewrite !Efg. fold f g. assert (PPN la ∈ vpns) as Hin by (by apply elem_vpns).
  rewrite (sum_update f g vpns (PPN la)); [|apply NoDup_vpns|done|].
  - unfold f, g. rewrite !decide_True by done. unfold maps. by rewrite !walk_vpn by done.
  - intros v Hvne. unfold f, g. case_decide as Hd; [|done]. apply elem_vpns in Hd.
    unfold maps. rewrite Hne; [done|unfold KERNBASE; lia|]. rewrite vpn_indices by lia. done.
Qed.

Lemma count_zero w pgdir p :
  (∀ la pte, 0 ≤ la < KERNBASE → walk w pgdir la = Some pte → PPN pte ≠ p) → count w pgdir p = 0.
Proof.
  intros Hno. unfold count. assert (((λ v, is_page p (maps w pgdir v)) <$> vpns) = (λ _, 0) <$> vpns) as ->.
  { apply list_fmap_ext. intros i v Hv. apply list_elem_of_lookup_2, elem_vpns in Hv.
    unfold is_page, maps. rewrite decide_False; [done|]. intros E. apply fmap_Some in E as (pte & Hw & ->).
    by apply (Hno (v * 4096) pte); [unfold KERNBASE; lia| |]. }
  generalize vpns as l. induction l as [|x l IH]; [done|]. by rewrite fmap_cons, sumZ_cons.
Qed.

Lemma count_pos w pgdir la pte :
  0 ≤ la < KERNBASE → walk w pgdir la = Some pte → 1 ≤ count w pgdir (PPN pte).
Proof.
  intros Hla Hw. pose proof (user_vpn la Hla) as Hv. pose proof (user_32 la Hla) as Hla32.
  unfold count. rewrite (sum_update (λ v, if decide (v = PPN la) then 0 else is_page (PPN pte) (maps w pgdir v))
    (λ v, is_page (PPN pte) (maps w pgdir v)) vpns (PPN la)).
  - rewrite decide_True by done. unfold maps at 2. rewrite walk_vpn, Hw by done. cbn.
    unfold is_page at 2. rewrite decide_True by done.
    pose proof (sum_bounds (λ v, if decide (v = PPN la) then 0 else is_page (PPN pte) (maps w pgdir v)) vpns) as Hs.
    assert (∀ x, 0 ≤ (if decide (x = PPN la) then 0 else is_page (PPN pte) (maps w pgdir x)) ≤ 1) as Hb.
    { intros x. case_decide; [lia|apply is_page_range]. }
    specialize (Hs Hb). lia.
  - apply NoDup_vpns.
  - by apply elem_vpns.
  - intros x Hx. by rewrite decide_False.
Qed.

(** ** The operations *)

Section spec.
Context {M : Type} `{PmmManagerLaws M}.
Implicit Types s : vm M.

(** The number of free pages, and what it makes with the pages the kernel has. *)
Definition free (s : vm M) : Z := mgr_nr_free_pages (phys s).
Definition balance (s : vm M) (own : list Z) : Z := free s + zlen own.

(** The pages the allocator never had, other than the directory: the image of
    the kernel, with the tables entry.S links into it. *)
Definition kpages (s : vm M) (pgdir : Z) : list Z :=
  filter (λ p, mgr_reserved (phys s) p = true ∧ waddr p 0 ≠ pgdir) (seqZ 0 (npage s)).

Lemma kpages_ext s s' pgdir :
  npage s' = npage s → (∀ q, mgr_reserved (phys s') q = mgr_reserved (phys s) q) → kpages s' pgdir = kpages s pgdir.
Proof. intros En Er. unfold kpages. rewrite En. apply list_filter_iff. intros q. by rewrite Er. Qed.

Lemma not_kpage s pgdir p : mgr_reserved (phys s) p = false → p ∉ kpages s pgdir.
Proof. unfold kpages. rewrite list_elem_of_filter. intros E [[? _] _]. congruence. Qed.

(** Only memory, allocator and TLB may differ, and no page becomes reserved. *)
Record frame (s s' : vm M) : Prop := {
  fr_npage : npage s' = npage s;
  fr_cr3 : cr3 s' = cr3 s;
  fr_iflag : iflag s' = iflag s;
  fr_res : ∀ q, mgr_reserved (phys s') q = mgr_reserved (phys s) q
}.

Lemma frame_trans s1 s2 s3 : frame s1 s2 → frame s2 s3 → frame s1 s3.
Proof. intros [? ? ? E1] [? ? ? E2]. split; try congruence. Qed.

Lemma frame_refl s : frame s s.
Proof. done. Qed.
Hint Resolve frame_refl : core.

Lemma frame_kpages s s' pgdir : frame s s' → kpages s' pgdir = kpages s pgdir.
Proof. intros [? _ _ ?]. by apply kpages_ext. Qed.

(** The directory is a reserved page, and the kernel got the pages [own] from
    the manager. *)
Record pt_base (s : vm M) (own : list Z) (pgdir : Z) : Prop := {
  pb_struct : pt_struct (words s) (npage s) (kpages s pgdir ++ own) pgdir;
  pb_mgr : mgr_inv (phys s) own;
  pb_np : mgr_npage (phys s) = npage s;
  pb_pgdir : mgr_reserved (phys s) (PPN (pgdir - KERNBASE)) = true
}.

Lemma alloc_pages_eq s n :
  alloc_pages s n = r ← mgr_alloc_pages (phys s) n; Ok (r.1, set_phys s r.2).
Proof. unfold alloc_pages, __intr_save. destruct s as [w m np c t i]. by destruct i. Qed.

Lemma free_pages_eq s b n :
  free_pages s b n = m ← mgr_free_pages (phys s) b n; Ok (set_phys s m).
Proof. unfold free_pages, __intr_save. destruct s as [w m np c t i]. by destruct i. Qed.

Lemma ldw_Ok s a v : words s !! a = Some v → ldw s a = Ok v.
Proof. intros E. unfold ldw. by rewrite E. Qed.

Lemma stw_Ok s a v x : words s !! a = Some x → stw s a v = Ok (set_words s (<[a := u32 v]> (words s))).
Proof. intros E. unfold stw. by rewrite E. Qed.

Lemma KADDR_page s p own pgdir :
  pt_struct (words s) (npage s) own pgdir → 0 ≤ p < npage s → KADDR s (p * 4096) = Ok (waddr p 0).
Proof.
  intros Hs Hp. pose proof (np_bound _ _ _ _ _ Hs Hp). unfold KADDR. rewrite PPN_div, Z.div_mul by lia.
  rewrite (proj2 (Z.leb_gt _ _)) by lia. rewrite u32_small by (unfold KERNBASE; lia). f_equal. unfold waddr. lia.
Qed.

Lemma memset_page_spec s p :
  (∀ i, 0 ≤ i < 1024 → is_Some (words s !! waddr p i)) →
  ∃ w', memset_page s (waddr p 0) = Ok (set_words s w') ∧ cleared (words s) w' p 1024.
Proof.
  intros Hw. unfold memset_page.
  destruct (for_range_spec (λ i s', ∃ w', s' = set_words s w' ∧ cleared (words s) w' p i)
    (λ i s, stw s (waddr p 0 + 4 * i) 0) 0 1024 s) as (s' & R & w' & -> & Hc); [lia| | |by exists w'].
  - exists (words s). split; [by destruct s|]. split; [intros i Hi; lia|done].
  - intros i s' Hi (w' & -> & Hc1 & Hc2). rewrite waddr_pgdir.
    destruct (Hw i ltac:(lia)) as [x Hx].
    rewrite (stw_Ok _ _ _ x) by (cbn; rewrite Hc2; [done|intros j Hj [_ ?]%waddr_inj; lia]).
    eexists. split; [done|]. exists (<[waddr p i := 0]> w'). split; [done|]. split.
    + intros j Hj. destruct (decide (j = i)) as [->|Hne]; [by rewrite lookup_insert_eq|].
      rewrite lookup_insert_ne by (intros [_ ?]%waddr_inj; lia). apply Hc1. lia.
    + intros a Ha. rewrite lookup_insert_ne; [apply Hc2; intros j Hj; apply Ha; lia|].
      intros <-. apply (Ha i); [lia|done].
Qed.

Lemma own_pgdir s own pgdir p : pt_base s own pgdir → mgr_reserved (phys s) p = false → pgdir ≠ waddr p 0.
Proof.
  intros Hb Hr ->. pose proof (pb_pgdir _ _ _ Hb) as E. unfold waddr in E.
  replace (KERNBASE + p * 4096 + 4 * 0 - KERNBASE) with (p * 4096) in E by lia.
  rewrite PPN_div, Z.div_mul in E by lia. congruence.
Qed.

(** A reference count written on an owned page. *)
Lemma set_ref_base s own pgdir p v :
  pt_base s own pgdir → p ∈ own →
  ∃ s', set_page_ref s p v = Ok s' ∧ pt_base s' own pgdir ∧ frame s s' ∧ words s' = words s ∧ tlb s' = tlb s ∧
    ∀ q, page_ref s' q = if decide (q = p) then Ok v else page_ref s q.
Proof.
  intros [Hs Hm Hn Hp] Hown. destruct (mgr_set_ref_law (phys s) own p v Hm Hown) as (m' & R & Href & Hnp & Hm').
  exists (set_phys s m'). unfold set_page_ref. rewrite R. split; [done|].
  split; [|split; [split; try done; intros q; apply Href|split; [done|split; [done|]]]].
  - split; cbn; try done; [|by rewrite Hnp|by rewrite (proj2 (Href _))].
    rewrite (kpages_ext s); [done|done|]. intros q. apply Href.
  - intros q. apply Href.
Qed.

(** A single page is only refused when there is none. *)
Lemma alloc_none s own m :
  mgr_inv (phys s) own → mgr_alloc_pages (phys s) 1 = Ok (None, m) → free s = 0.
Proof.
  intros Hm R. pose proof (mgr_nr_nonneg _ _ Hm). unfold free.
  destruct (decide (0 < mgr_nr_free_pages (phys s))) as [Hpos|]; [|lia].
  destruct (mgr_alloc_one _ _ Hm Hpos) as (p & m' & R'). congruence.
Qed.

Lemma alloc_some s own p m :
  mgr_inv (phys s) own → mgr_alloc_pages (phys s) 1 = Ok (Some p, m) → mgr_inv m (p :: own) → 0 < free s.
Proof.
  intros Hm R Hm'. pose proof (mgr_alloc_nr (phys s) own 1 p m Hm ltac:(lia) R). pose proof (mgr_nr_nonneg _ _ Hm').
  unfold free. lia.
Qed.

Lemma new_table_spec s own pgdir d :
  pt_base s own pgdir → dir d → pde_page (words s) pgdir d = None →
  new_table s (pgdir + 4 * d) = Ok (false, s) ∧ free s = 0 ∨
  ∃ t s', new_table s (pgdir + 4 * d) = Ok (true, s') ∧ frame s s' ∧ tlb s' = tlb s ∧
    pt_base s' (t :: own) pgdir ∧ t ∉ own ∧ mgr_reserved (phys s) t = false ∧
    balance s' (t :: own) = balance s own ∧ dir_upd (words s) (words s') pgdir d t ∧
    (∀ q, page_ref s' q = if decide (q = t) then Ok 1 else page_ref s q) ∧
    (∀ d', 0 ≤ d' < 1024 → pde_page (words s') pgdir d' = if decide (d' = d) then Some t else pde_page (words s) pgdir d') ∧
    (∀ la, PDX la ≠ PDX VPT → walk (words s') pgdir la = walk (words s) pgdir la) ∧
    (∀ p i, 0 ≤ i < 1024 → p ≠ t → pgdir ≠ waddr p 0 → words s' !! waddr p i = words s !! waddr p i).
Proof.
  intros Hb Hd Hnone. pose proof Hb as [Hs Hm Hn Hp]. pose proof Hd as [Hdr _]. unfold new_table, alloc_page. rewrite alloc_pages_eq.
  destruct (mgr_alloc_law (phys s) own 1 Hm ltac:(lia)) as (r & m1 & R & Hrefs & Hnp & Hm1).
  rewrite R. cbn [mbind outcome_bind fst snd]. destruct r as [t|]; cbn [fst snd].
  2:{ left. subst m1. split; [by destruct s|]. by eapply alloc_none. }
  pose proof (mgr_alloc_nr (phys s) own 1 t m1 Hm ltac:(lia) R) as Hnr1.
  right. change (seqZ t 1) with [t] in Hm1. cbn [app] in Hm1.
  destruct (mgr_inv_own _ _ Hm1) as [Hnd Hown]. destruct (Hown t ltac:(by left)) as [Htn Htr].
  apply NoDup_cons in Hnd as [Hni Hnd].
  rewrite (proj2 (Hrefs t)) in Htr. rewrite Hnp, Hn in Htn.
  pose proof (own_pgdir s own pgdir t Hb Htr) as Hpg. set (K := kpages s pgdir) in *.
  assert (t ∉ K ++ own) as Hni2 by (rewrite not_elem_of_app; split; [by apply not_kpage|done]).
  destruct (mgr_set_ref_law m1 (t :: own) t 1 Hm1 ltac:(by left)) as (m2 & R2 & Hrefs2 & Hnp2 & Hm2).
  unfold set_page_ref at 1. cbn [phys set_phys]. rewrite R2. cbn [mbind outcome_bind].
  assert (0 ≤ t < 2 ^ 20) as Htb by (pose proof (np_bound _ _ _ _ _ Hs Htn); lia).
  rewrite page2pa_eq by done. set (s2 := set_phys (set_phys s m1) m2).
  rewrite (KADDR_page s2 t (K ++ own) pgdir) by done. cbn [mbind outcome_bind].
  destruct (memset_page_spec s2 t) as (w1 & R3 & Hc).
  { intros i Hi. destruct (ps_words _ _ _ _ Hs t i Htn Hi) as (v & E & _). by exists v. }
  rewrite R3. cbn [mbind outcome_bind].
  destruct (new_table_struct (words s) w1 (npage s) (K ++ own) pgdir d t Hs Hni2 Htn Hpg Hd Hnone Hc) as (Hs' & Hdir & Hpde & Hwalk & Hframe).
  fold (pde_word t). set (e := pde_word t) in *.
  destruct (ps_pgdir _ _ _ _ Hs) as (pd & Epd & Hpdn & _).
  destruct (ps_words _ _ _ _ Hs pd d Hpdn Hdr) as (x & Ex & _).
  rewrite (stw_Ok _ _ _ x).
  2:{ cbn. rewrite Epd, waddr_pgdir. destruct Hc as [_ Hc2]. rewrite Hc2; [done|].
      intros j Hj [E _]%waddr_inj; [|done|done]. apply Hpg. by rewrite <-E. }
  cbn [mbind outcome_bind]. rewrite (u32_small e) by apply (pde_bits t Htb).
  assert (∀ q, mgr_reserved m2 q = mgr_reserved (phys s) q) as Hres
    by (intros q; by rewrite (proj2 (Hrefs2 q)), (proj2 (Hrefs q))).
  assert (mgr_nr_free_pages m2 + zlen (t :: own) = balance s own) as Hbal.
  { unfold balance, free. rewrite (mgr_set_ref_nr _ _ _ _ R2), zlen_cons. lia. }
  eexists t, _. split; [done|]. cbn. split; [by split|]. split; [done|]. split; [|split; [done|split; [done|split; [exact Hbal|split; [exact Hdir|split; [|split; [done|split; done]]]]]]].
  - split; cbn; [|done|congruence|].
    + rewrite (kpages_ext s) by done. fold K. by rewrite <-Permutation_middle.
    + by rewrite Hres.
  - intros q. unfold page_ref. cbn. rewrite (proj1 (Hrefs2 q)). case_decide; [done|]. apply Hrefs.
Qed.

Lemma get_pte_found s own pgdir la t :
  pt_base s own pgdir → PDX la ≠ PDX VPT → pde_page (words s) pgdir (PDX la) = Some t →
  (pde ← ldw s (pgdir + 4 * PDX la); kva ← KADDR s (PDE_ADDR pde); Ok (Some (kva + 4 * PTX la), s))
  = Ok (Some (waddr t (PTX la)), s).
Proof.
  intros Hb Hreg%dir_PDX Ht. pose proof Hb as [Hs _ _ _]. pose proof Ht as Hpde. unfold pde_page in Hpde.
  destruct (words s !! (pgdir + 4 * PDX la)) as [pde|] eqn:E; [|done]. cbn in Hpde.
  destruct (present pde) eqn:Ep; [|done]. injection Hpde as Hpde.
  rewrite (ldw_Ok _ _ pde) by done. cbn [mbind outcome_bind]. unfold PDE_ADDR.
  rewrite PTE_ADDR_div, <-PPN_div, Hpde.
  assert (0 ≤ t < npage s) by (apply (ps_own _ _ _ _ Hs), (ps_pde _ _ _ _ Hs _ _ Hreg Ht)).
  rewrite (KADDR_page s t (kpages s pgdir ++ own) pgdir) by done. cbn [mbind outcome_bind]. by rewrite waddr_pgdir.
Qed.

(** [get_pte]: the entry of [la], with a new table when there is none. *)
Lemma get_pte_spec s own pgdir la create :
  pt_base s own pgdir → PDX la ≠ PDX VPT →
  ∃ r s', get_pte s pgdir la create = Ok (r, s') ∧
    match r with
    | None => s' = s ∧ pde_page (words s) pgdir (PDX la) = None ∧ (create = true → free s = 0)
    | Some a => ∃ own' t, frame s s' ∧ tlb s' = tlb s ∧ pt_base s' own' pgdir ∧ balance s' own' = balance s own ∧
        pde_page (words s') pgdir (PDX la) = Some t ∧ a = waddr t (PTX la) ∧
        (∀ la', PDX la' ≠ PDX VPT → walk (words s') pgdir la' = walk (words s) pgdir la') ∧
        (own' = own ∧ s' = s ∨
         create = true ∧ own' = t :: own ∧ t ∉ own ∧ pde_page (words s) pgdir (PDX la) = None ∧
         mgr_reserved (phys s) t = false ∧ dir_upd (words s) (words s') pgdir (PDX la) t ∧
         (∀ q, page_ref s' q = if decide (q = t) then Ok 1 else page_ref s q) ∧
         (∀ d, 0 ≤ d < 1024 → pde_page (words s') pgdir d =
            if decide (d = PDX la) then Some t else pde_page (words s) pgdir d))
    end.
Proof.
  intros Hb Hreg. pose proof Hb as [Hs _ _ _]. unfold get_pte.
  destruct (ps_pgdir _ _ _ _ Hs) as (pd & Epd & Hpdn & _).
  destruct (ps_words _ _ _ _ Hs pd (PDX la) Hpdn (PDX_range la)) as (pde & E & _).
  rewrite <-waddr_pgdir, <-Epd in E. rewrite (ldw_Ok _ _ pde) by done. cbn [mbind outcome_bind].
  destruct (present pde) eqn:Ep; cbn [negb mbind outcome_bind].
  - assert (pde_page (words s) pgdir (PDX la) = Some (PPN pde)) as Ht by (unfold pde_page; rewrite E; cbn; by rewrite Ep).
    pose proof (get_pte_found s own pgdir la _ Hb Hreg Ht) as Hf.
    eexists _, s. split; [exact Hf|]. cbn. exists own, (PPN pde). split_and!; try done. by left.
  - assert (pde_page (words s) pgdir (PDX la) = None) as Hnone by (unfold pde_page; rewrite E; cbn; by rewrite Ep).
    destruct create; cbn [negb]; [|by exists None, s].
    destruct (new_table_spec s own pgdir (PDX la) Hb (dir_PDX la Hreg) Hnone) as [[-> Hz]|(t & s' & -> & Hfr & Htlb & Hb' & Hni & Hres & Hbal & Hdir & Href & Hpde & Hwalk & _)].
    + by exists None, s.
    + cbn [mbind outcome_bind]. assert (pde_page (words s') pgdir (PDX la) = Some t) as Ht
        by (rewrite Hpde by apply PDX_range; by rewrite decide_True).
      pose proof (get_pte_found s' (t :: own) pgdir la t Hb' Hreg Ht) as Hf.
      eexists _, s'. split; [exact Hf|]. cbn. exists (t :: own), t. split_and!; try done. by right.
Qed.

(** ** The invariant of page_insert and page_remove

    Every page mapped at a user address is a page the kernel got and no page
    table; a page table that the kernel got has the reference count 1, every
    other page outside the image the number of user addresses that are mapped
    to it, plus [ex] of it inside an operation; the TLB caches entries of the
    current directory only as they are in memory (the addresses from VPT on,
    under which the tables themselves appear, apart). *)
Record pt_inv (s : vm M) (own : list Z) (pgdir : Z) (ex : Z → Z) : Prop := {
  pi_base : pt_base s own pgdir;
  pi_leaf : ∀ la pte, 0 ≤ la < KERNBASE → walk (words s) pgdir la = Some pte →
    PPN pte ∈ own ∧ ¬ is_table (words s) pgdir (PPN pte);
  pi_tref : ∀ p, p ∈ own → is_table (words s) pgdir p → page_ref s p = Ok 1;
  pi_ref : ∀ p, 0 ≤ p < npage s → mgr_reserved (phys s) p = false → ¬ is_table (words s) pgdir p →
    page_ref s p = Ok (count (words s) pgdir p + ex p);
  pi_tlb : cr3 s = pgdir - KERNBASE → ∀ v pte, PDX (v * 4096) ≠ PDX VPT → tlb s !! v = Some pte →
    0 ≤ v < 2 ^ 20 ∧ walk (words s) pgdir (v * 4096) = Some pte
}.

(** The table [t] of directory entry [d] was there, or is a new page. *)
Definition table_added (s s' : vm M) (own own' : list Z) (pgdir d t : Z) : Prop :=
  pde_page (words s') pgdir d = Some t ∧
  match pde_page (words s) pgdir d with
  | Some _ => own' = own ∧ same_dir (words s) (words s') pgdir
  | None => own' = t :: own ∧ dir_upd (words s) (words s') pgdir d t
  end.

Lemma inv_get_pte s own pgdir ex la create :
  pt_inv s own pgdir ex → PDX la ≠ PDX VPT →
  ∃ r s', get_pte s pgdir la create = Ok (r, s') ∧
    match r with
    | None => s' = s ∧ pde_page (words s) pgdir (PDX la) = None ∧ (create = true → free s = 0)
    | Some a => ∃ own' t, frame s s' ∧ pt_inv s' own' pgdir ex ∧ balance s' own' = balance s own ∧
        table_added s s' own own' pgdir (PDX la) t ∧
        pde_page (words s') pgdir (PDX la) = Some t ∧ a = waddr t (PTX la) ∧
        (∀ la', PDX la' ≠ PDX VPT → walk (words s') pgdir la' = walk (words s) pgdir la') ∧
        (create = false → s' = s ∧ own' = own) ∧
        (∀ p, p ∈ own → p ∈ own' ∧ (¬ is_table (words s) pgdir p → ¬ is_table (words s') pgdir p))
    end.
Proof.
  intros [Hb Hleaf Htref Href Htlb] Hreg.
  destruct (get_pte_spec s own pgdir la create Hb Hreg) as (r & s' & R & Hr). exists r, s'. split; [done|].
  destruct r as [a|]; [|done].
  destruct Hr as (own' & t & Hfr & Htl & Hb' & Hbal & Ht & Ha & Hwalk & [[-> ->]|(-> & -> & Hni & Hnone & Hres & Hdir & Hrefs & Hpde)]).
  - exists own, t. split; [done|]. split; [done|]. split; [done|]. split; [|by split_and!].
    split; [done|]. by rewrite Ht.
  - assert (∀ p, is_table (words s') pgdir p ↔ p = t ∨ is_table (words s) pgdir p) as Htab.
    { intros p. split.
      - intros (d & Hd & Hp). rewrite Hpde in Hp by apply Hd. case_decide; [left; by simplify_eq|right; by exists d].
      - intros [->|(d & Hd & Hp)]; [exists (PDX la); split; [by apply dir_PDX|done]|].
        exists d. split; [done|]. rewrite Hpde by apply Hd. case_decide as E; [|done]. subst d. by rewrite Hnone in Hp. }
    exists (t :: own), t. split_and!; try done.
    + split; [done| | | |].
      * intros la' pte Hla'. rewrite Hwalk by (by apply user_regular). intros Hw. destruct (Hleaf la' pte Hla' Hw) as [Hown Hnt].
        split; [by right|]. rewrite Htab. intros [E|?]; [by rewrite E in Hown|done].
      * intros p. rewrite Htab, Hrefs. intros [->|Hown]%elem_of_cons Hp; [by rewrite decide_True|].
        rewrite decide_False by (by intros ->). apply Htref; [done|]. destruct Hp as [->|]; done.
      * rewrite (fr_npage _ _ Hfr). intros p Hp. rewrite (fr_res _ _ Hfr), Htab, Hrefs. intros Hpr Hnt.
        rewrite decide_False by tauto. rewrite (count_ext (words s)); [apply Href; tauto|].
        intros la' Hla'. by apply Hwalk, user_regular.
      * rewrite (fr_cr3 _ _ Hfr), Htl. intros E v pte Hv0 Hv.
        destruct (Htlb E v pte Hv0 Hv) as [? Hw]. split; [done|]. by rewrite Hwalk.
    + split; [done|]. by rewrite Hnone.
    + intros p Hp. split; [by right|]. rewrite Htab. intros Hnt [->|?]; done.
Qed.

Lemma inv_ext s own pgdir ex ex' : pt_inv s own pgdir ex → (∀ p, ex p = ex' p) → pt_inv s own pgdir ex'.
Proof. intros [Hb Hl Ht Hr Htl] E. split; try done. intros p. rewrite <-E. by apply Hr. Qed.

(** The pages the kernel got are no reserved ones. *)
Lemma base_own s own pgdir p : pt_base s own pgdir → p ∈ own → 0 ≤ p < npage s ∧ mgr_reserved (phys s) p = false.
Proof. intros [_ Hm <- _]. by apply mgr_inv_own. Qed.

(** A reference count is written. *)
Lemma inv_set_ref s own pgdir ex p v :
  pt_inv s own pgdir ex → p ∈ own → ¬ is_table (words s) pgdir p →
  ∃ m, mgr_set_ref (phys s) p v = Ok m ∧ frame s (set_phys s m) ∧ free (set_phys s m) = free s ∧
    pt_inv (set_phys s m) own pgdir (λ q, if decide (q = p) then v - count (words s) pgdir p else ex q).
Proof.
  intros [Hb Hleaf Htref Href Htlb] Hp Hnt.
  destruct (set_ref_base s own pgdir p v Hb Hp) as (s' & R & Hb' & Hfr & _ & _ & Hrefs).
  unfold set_page_ref in R. apply bind_Ok in R as (m & Hm & [= <-]). exists m. split; [done|]. split; [done|].
  split; [exact (mgr_set_ref_nr _ _ _ _ Hm)|]. split; try done.
  - intros q Ho Hq. rewrite Hrefs, decide_False; [by apply Htref|]. by intros ->.
  - intros q Hq. rewrite (fr_res _ _ Hfr). intros Hq' Hnq. rewrite Hrefs. cbn.
    case_decide; [subst; f_equal; lia|]. by apply Href.
Qed.

(** A page that nothing refers to is given back. *)
Lemma inv_free s own pgdir ex p :
  pt_inv s own pgdir ex → p ∈ own → ¬ is_table (words s) pgdir p → count (words s) pgdir p = 0 → ex p = 0 →
  ∃ m own', mgr_free_pages (phys s) p 1 = Ok m ∧ frame s (set_phys s m) ∧ own ≡ₚ p :: own' ∧
    balance (set_phys s m) own' = balance s own ∧ pt_inv (set_phys s m) own' pgdir ex.
Proof.
  intros [Hb Hleaf Htref Href Htlb] Hp Hnt Hc Hex. pose proof Hb as [Hs Hm Hn Hpd].
  destruct (elem_of_Permutation own p) as [Hperm _]. destruct (Hperm Hp) as [own' Hown].
  pose proof (mgr_inv_perm _ _ _ Hm Hown) as Hm1.
  destruct (mgr_free_law (phys s) p 1 own' Hm1 ltac:(lia)) as (m & R & Hrefs & Hnp & Hm').
  destruct (mgr_inv_own _ _ Hm1) as [[Hni _]%NoDup_cons _].
  assert (∀ q, q ∈ own → q ≠ p → q ∈ own') as Hsub by (intros q; rewrite Hown; set_solver).
  assert (frame s (set_phys s m)) as Hfr by (split; try done; intros q; apply Hrefs).
  exists m, own'. split; [done|]. split; [done|]. split; [done|].
  split; [unfold balance, free; cbn; rewrite (mgr_free_nr _ p 1 own' m Hm1 ltac:(lia) R), Hown, zlen_cons; lia|]. split.
  - split; cbn; [|done|congruence|by rewrite (proj2 (Hrefs _))]. rewrite (frame_kpages s) by done.
    eapply pt_struct_own; [done|intros q; rewrite Hown; set_solver|].
    intros d t Hd Ht. pose proof (ps_pde _ _ _ _ Hs d t Hd Ht) as [?|Ho]%elem_of_app; [set_solver|].
    apply elem_of_app. right. apply Hsub; [done|]. intros ->. apply Hnt. by exists d.
  - intros la pte Hla Hw. destruct (Hleaf la pte Hla Hw) as [Ho Ht]. split; [|done]. apply Hsub; [done|].
    intros E. change (walk (words s) pgdir la = Some pte) in Hw. pose proof (count_pos _ _ _ _ Hla Hw). subst p. lia.
  - intros q Ho Hq. unfold page_ref. cbn. rewrite (proj1 (Hrefs q)).
    rewrite decide_False; [apply Htref; [rewrite Hown; by right|done]|].
    intros E. assert (q = p) as -> by lia. done.
  - intros q Hq. rewrite (fr_res _ _ Hfr). intros Hqr Hqt. unfold page_ref. cbn. rewrite (proj1 (Hrefs q)). case_decide as E.
    + assert (q = p) as -> by lia. f_equal. lia.
    + by apply Href.
  - done.
Qed.

(** What [tlb_invalidate] leaves. *)
Definition invalidated (s : vm M) (pgdir la : Z) : gmap Z Z :=
  if cr3 s =? pgdir - KERNBASE then delete (PPN la) (tlb s) else tlb s.

Lemma tlb_invalidate_eq s own pgdir la :
  pt_struct (words s) (npage s) own pgdir → tlb_invalidate s pgdir la = Ok (set_tlb s (invalidated s pgdir la)).
Proof.
  intros Hs. destruct (ps_pgdir _ _ _ _ Hs) as (pd & -> & Hpd & _). unfold tlb_invalidate, PADDR, invalidated.
  rewrite (proj2 (Z.ltb_ge _ _)) by (unfold waddr; lia). cbn [mbind outcome_bind].
  destruct (cr3 s =? waddr pd 0 - KERNBASE); [done|by destruct s].
Qed.

(** The entry of [la] is replaced and its TLB entry dropped. *)
Lemma inv_replace s own pgdir ex la t v :
  pt_inv s own pgdir ex → 0 ≤ la < KERNBASE → pde_page (words s) pgdir (PDX la) = Some t → 0 ≤ v < 2 ^ 32 →
  (present v = true → PPN v ∈ own ∧ ¬ is_table (words s) pgdir (PPN v)) →
  let new := if present v then Some v else None in
  let s' := set_tlb (set_words s (<[waddr t (PTX la) := v]> (words s))) (invalidated s pgdir la) in
  pt_inv s' own pgdir (λ p, ex p + is_page p (PPN <$> walk (words s) pgdir la) - is_page p (PPN <$> new)) ∧
  frame s s' ∧
  (∀ la', regular la' →
     walk (words s') pgdir la' = if decide (PPN la' = PPN la) then new else walk (words s) pgdir la') ∧
  (∀ p, is_table (words s') pgdir p ↔ is_table (words s) pgdir p).
Proof.
  intros [Hb Hleaf Htref Href Htlb] Hla Ht Hv Hnew new s'. pose proof Hb as [Hs Hm Hn Hpd].
  pose proof (user_dir la Hla) as Hdir. pose proof (ps_pde _ _ _ _ Hs _ _ Hdir Ht) as Htown.
  assert (∀ la', regular la' →
    walk (words s') pgdir la' = if decide (PPN la' = PPN la) then new else walk (words s) pgdir la') as Hwalk.
  { intros la' [Hla' Hreg]. cbn. rewrite (write_walk _ _ _ _ _ _ _ _ _ Hs Hdir Ht (PTX_range la)) by done.
    pose proof (PPN_indices la' la Hla' (user_32 la Hla)) as Hi. case_decide as Hc1; case_decide as Hc2; try done; tauto. }
  assert (∀ p, is_table (words s') pgdir p ↔ is_table (words s) pgdir p) as Htab.
  { intros p. unfold is_table. cbn. split; intros (d & Hd & Hp); exists d; (split; [done|]).
    - by rewrite (write_pde_page _ _ _ _ _ _ _ _ Hs Htown (PTX_range la) (proj1 Hd)) in Hp.
    - by rewrite (write_pde_page _ _ _ _ _ _ _ _ Hs Htown (PTX_range la) (proj1 Hd)). }
  split; [|split; [done|done]]. split.
  - split; cbn; try done. apply write_struct; try done. apply PTX_range.
  - intros la' pte Hla'. rewrite Hwalk, Htab by by apply user_reg. case_decide; [|by apply Hleaf].
    unfold new. destruct (present v); [|done]. intros [= <-]. by apply Hnew.
  - intros p. rewrite Htab. apply Htref.
  - intros p Hp Hpr. rewrite Htab. intros Hnt. change (page_ref s' p) with (page_ref s p). rewrite (Href p Hp Hpr Hnt).
    rewrite (count_update (words s) (words s') pgdir la p Hla).
    + rewrite Hwalk, decide_True by (done || by apply user_reg). f_equal. lia.
    + intros la' Hla' Hne. by rewrite Hwalk, decide_False by (done || by apply user_reg).
  - cbn. intros E v' pte Hv0. unfold invalidated. rewrite E, Z.eqb_refl.
    rewrite lookup_delete_Some. intros [Hne Hv']. destruct (Htlb E v' pte Hv0 Hv') as [Hr Hw]. split; [done|].
    change (<[waddr t (PTX la):=v]> (words s)) with (words s'). rewrite Hwalk by (split; [lia|done]).
    rewrite vpn_indices by lia. by rewrite decide_False.
Qed.

Lemma is_table_ext w w' pgdir p :
  (∀ d, 0 ≤ d < 1024 → pde_page w' pgdir d = pde_page w pgdir d) → is_table w' pgdir p ↔ is_table w pgdir p.
Proof. intros E. split; intros (d & Hd & Hp); exists d; (split; [done|]); by rewrite ?E in * by apply Hd. Qed.

Lemma entry_word s own pgdir la t :
  pt_struct (words s) (npage s) own pgdir → PDX la ≠ PDX VPT → pde_page (words s) pgdir (PDX la) = Some t →
  ∃ v, words s !! waddr t (PTX la) = Some v ∧ walk (words s) pgdir la = if present v then Some v else None.
Proof.
  intros Hs Hreg%dir_PDX Ht. pose proof (ps_pde _ _ _ _ Hs _ _ Hreg Ht) as Ho.
  destruct (ps_words _ _ _ _ Hs t (PTX la) (ps_own _ _ _ _ Hs t Ho) (PTX_range la)) as (v & E & _).
  exists v. split; [done|]. by rewrite walk_pages, Ht; cbn; rewrite E.
Qed.

Lemma pa2page_eq s own pgdir pte :
  pt_struct (words s) (npage s) own pgdir → PPN pte ∈ own → present pte = true → pte2page s pte = Ok (PPN pte).
Proof.
  intros Hs Ho Hp. unfold pte2page, pa2page. rewrite Hp. cbn [negb].
  pose proof (ps_own _ _ _ _ Hs _ Ho). rewrite (PPN_div (PTE_ADDR pte)), PTE_ADDR_div, Z.div_mul, <-PPN_div by lia.
  by rewrite (proj2 (Z.leb_gt _ _)) by lia.
Qed.

(** Taking one reference away. *)
Lemma page_ref_dec_eq s own pgdir ex p m :
  pt_inv s own pgdir ex → p ∈ own → ¬ is_table (words s) pgdir p → 0 ≤ ex p ≤ 10 →
  mgr_set_ref (phys s) p (count (words s) pgdir p + ex p - 1) = Ok m →
  page_ref_dec s p = Ok (count (words s) pgdir p + ex p - 1, set_phys s m).
Proof.
  intros Hi Hp Hnt Hex R. destruct (base_own _ _ _ _ (pi_base _ _ _ _ Hi) Hp) as [Hpn Hpr].
  unfold page_ref_dec. rewrite (pi_ref _ _ _ _ Hi p Hpn Hpr Hnt). cbn [mbind outcome_bind].
  pose proof (count_range (words s) pgdir p). rewrite cint_Ok by (unfold int_min, int_max; lia).
  cbn [mbind outcome_bind]. unfold set_page_ref. by rewrite R.
Qed.

(** [page_remove_pte]: the address is unmapped, the page loses a reference and
    is given back when that was the last one. *)
Lemma page_remove_pte_spec s own pgdir ex la t :
  pt_inv s own pgdir ex → (∀ p, 0 ≤ ex p ≤ 10) → 0 ≤ la < KERNBASE → pde_page (words s) pgdir (PDX la) = Some t →
  ∃ s' own', page_remove_pte s pgdir la (waddr t (PTX la)) = Ok s' ∧ frame s s' ∧ pt_inv s' own' pgdir ex ∧
    (∀ la', regular la' →
       walk (words s') pgdir la' = if decide (PPN la' = PPN la) then None else walk (words s) pgdir la') ∧
    same_dir (words s) (words s') pgdir ∧
    balance s' own' = balance s own ∧
    match walk (words s) pgdir la with
    | None => s' = s ∧ own' = own
    | Some pte =>
        own ≡ₚ (if decide (count (words s) pgdir (PPN pte) + ex (PPN pte) = 1) then PPN pte :: own' else own')
    end.
Proof.
  intros Hi Hex Hla Ht. pose proof Hi as [[Hs _ _ _] Hleaf _ Href _].
  pose proof (user_regular la Hla) as Hreg. set (K := kpages s pgdir ++ own) in *.
  destruct (entry_word s K pgdir la t Hs Hreg Ht) as (pte & Ew & Hw). rewrite Hw.
  unfold page_remove_pte. rewrite (ldw_Ok _ _ pte) by done. cbn [mbind outcome_bind].
  destruct (present pte) eqn:Ep.
  2:{ exists s, own. split; [done|]. split; [done|]. split; [done|]. split; [|done].
      intros la' [Hla' _]. case_decide as E; [|done]. apply PPN_indices in E as [E1 E2]; [|done|by apply user_32].
      by rewrite (walk_indices _ _ la' la), Hw. }
  set (p := PPN pte) in *.
  destruct (Hleaf la pte Hla Hw) as [Ho Hnt]. fold p in Ho, Hnt.
  rewrite (pa2page_eq s K pgdir pte) by (done || apply elem_of_app; by right). cbn [mbind outcome_bind]. fold p.
  destruct (inv_replace s own pgdir ex la t 0 Hi Hla Ht ltac:(lia) ltac:(done)) as (Hi1 & Hfr1 & Hwalk & Htab).
  change (if present 0 then Some 0 else None) with (@None Z) in Hi1, Hwalk.
  set (s1 := set_tlb (set_words s (<[waddr t (PTX la):=0]> (words s))) (invalidated s pgdir la)) in *.
  assert (count (words s1) pgdir p = count (words s) pgdir p - 1) as Hc.
  { rewrite (count_update (words s) (words s1) pgdir la p Hla).
    - rewrite Hw, Hwalk, decide_True by (done || by apply user_reg). cbn [fmap option_fmap option_map]. fold p.
      rewrite is_page_None, is_page_eq. lia.
    - intros la' Hla' Hne. by rewrite Hwalk, decide_False by (done || by apply user_reg). }
  set (v := count (words s) pgdir p + ex p - 1).
  assert (¬ is_table (words s1) pgdir p) as Hnt1 by (by rewrite Htab).
  destruct (inv_set_ref s1 own pgdir _ p v Hi1 Ho Hnt1) as (m & R & Hfr2 & Hn2 & Hi2).
  change (phys s1) with (phys s) in R.
  apply (inv_ext _ _ _ _ ex) in Hi2.
  2:{ intros q. case_decide as E; [subst q; unfold v; lia|]. rewrite Hw. cbn [fmap option_fmap option_map].
      rewrite is_page_None, is_page_ne by done. lia. }
  rewrite (page_ref_dec_eq s own pgdir ex p m Hi Ho Hnt (Hex p) R). cbn [mbind outcome_bind fst snd]. fold v.
  pose proof (count_range (words s1) pgdir p) as Hcr. pose proof (Hex p) as Hexp.
  assert (same_dir (words s) (words s1) pgdir) as Hpde.
  { apply (write_dir _ _ _ _ _ _ _ Hs); [|apply PTX_range]. exact (ps_pde _ _ _ _ Hs _ _ (dir_PDX la Hreg) Ht). }
  destruct (Z.eqb_spec v 0) as [Hv|Hv].
  - destruct (inv_free _ _ _ _ p Hi2 Ho) as (m' & own' & R' & Hfr3 & Hperm & Hbal & Hi3);
      [exact Hnt1|change (count (words s1) pgdir p = 0); unfold v in Hv; lia|unfold v in Hv; lia|].
    unfold free_page. rewrite free_pages_eq. change (phys (set_phys s m)) with m. change (phys (set_phys s1 m)) with m in R'.
    rewrite R'. cbn [mbind outcome_bind]. rewrite (stw_Ok _ _ _ pte) by done. cbn [mbind outcome_bind].
    rewrite (tlb_invalidate_eq _ (kpages (set_phys (set_phys s1 m) m') pgdir ++ own') pgdir la)
      by exact (pb_struct _ _ _ (pi_base _ _ _ _ Hi3)).
    eexists _, own'. split; [done|]. split;
      [split; try done; intros q; exact (eq_trans (fr_res _ _ Hfr3 q) (fr_res _ _ Hfr2 q))|]. split; [exact Hi3|]. split; [exact Hwalk|].
    split; [exact Hpde|]. split.
    + unfold balance in *. change (free (set_phys (set_phys s1 m) m') + zlen own' = free s + zlen own).
      rewrite Hbal, Hn2. done.
    + rewrite decide_True by (unfold v in Hv; lia). exact Hperm.
  - cbn [mbind outcome_bind]. rewrite (stw_Ok _ _ _ pte) by done. cbn [mbind outcome_bind].
    rewrite (tlb_invalidate_eq _ (kpages (set_phys s1 m) pgdir ++ own) pgdir la)
      by exact (pb_struct _ _ _ (pi_base _ _ _ _ Hi2)).
    eexists _, own. split; [done|]. split; [split; try done; exact (fr_res _ _ Hfr2)|]. split; [exact Hi2|]. split; [exact Hwalk|].
    split; [exact Hpde|]. split; [|by rewrite decide_False by (unfold v in Hv; lia)].
    unfold balance. change (free (set_phys s1 m) + zlen own = free s + zlen own). by rewrite Hn2.
Qed.

Definition no_extra : Z → Z := λ _, 0.

(** [page_remove]. *)
Lemma page_remove_spec s own pgdir la :
  pt_inv s own pgdir no_extra → 0 ≤ la < KERNBASE →
  ∃ s' own', page_remove s pgdir la = Ok s' ∧ frame s s' ∧ pt_inv s' own' pgdir no_extra ∧
    (∀ la', regular la' →
       walk (words s') pgdir la' = if decide (PPN la' = PPN la) then None else walk (words s) pgdir la') ∧
    same_dir (words s) (words s') pgdir ∧
    balance s' own' = balance s own ∧
    match walk (words s) pgdir la with
    | None => s' = s ∧ own' = own
    | Some pte =>
        own ≡ₚ (if decide (count (words s) pgdir (PPN pte) = 1) then PPN pte :: own' else own')
    end.
Proof.
  intros Hi Hla. unfold page_remove.
  destruct (inv_get_pte s own pgdir no_extra la false Hi (user_regular la Hla)) as (r & s1 & -> & Hr). cbn [mbind outcome_bind].
  destruct r as [a|].
  - destruct Hr as (own1 & t & _ & _ & _ & _ & Ht & -> & _ & Hsame & _). destruct (Hsame eq_refl) as [-> ->].
    destruct (page_remove_pte_spec s own pgdir no_extra la t Hi ltac:(intros; unfold no_extra; lia) Hla Ht)
      as (s' & own' & R & Hfr & Hi' & Hwalk & Hpde & Hbal & Hown).
    exists s', own'. split; [done|]. split; [done|]. split; [done|]. split; [done|]. split; [done|]. split; [done|].
    destruct (walk (words s) pgdir la) as [pte|]; [|done]. unfold no_extra in Hown. by rewrite Z.add_0_r in Hown.
  - destruct Hr as (-> & Hnone & _). exists s, own. split; [done|]. split; [done|]. split; [done|].
    assert (walk (words s) pgdir la = None) as Hw by (by rewrite walk_pages, Hnone). split; [|by rewrite Hw].
    intros la' [Hla' _]. case_decide as E; [|done]. apply PPN_indices in E as [E1 E2]; [|done|by apply user_32].
    by rewrite (walk_indices _ _ la' la).
Qed.

(** One more reference. *)
Lemma page_ref_inc_spec s own pgdir p :
  pt_inv s own pgdir no_extra → p ∈ own → ¬ is_table (words s) pgdir p →
  ∃ s', page_ref_inc s p = Ok (count (words s) pgdir p + 1, s') ∧ frame s s' ∧ free s' = free s ∧
    words s' = words s ∧ tlb s' = tlb s ∧
    pt_inv s' own pgdir (λ q, is_page q (Some p)).
Proof.
  intros Hi Hp Hnt. pose proof Hi as [[Hs _ _ _] _ _ Href _].
  destruct (inv_set_ref s own pgdir no_extra p (count (words s) pgdir p + 1) Hi Hp Hnt) as (m & R & Hfr & Hn & Hi').
  unfold page_ref_inc. rewrite Href by (done || by eapply base_own; [apply Hi|]). cbn [mbind outcome_bind].
  pose proof (count_range (words s) pgdir p). unfold no_extra. rewrite Z.add_0_r.
  rewrite cint_Ok by (unfold int_min, int_max; lia). cbn [mbind outcome_bind]. unfold set_page_ref. rewrite R.
  exists (set_phys s m). split; [done|]. split; [done|]. split; [done|]. split; [done|]. split; [done|].
  apply (inv_ext _ _ _ _ _ Hi'). intros q. case_decide as E.
  - subst q. rewrite is_page_eq. lia.
  - by rewrite is_page_ne.
Qed.

(** The end of [page_insert]: the entry is written. *)
Lemma write_entry_spec s own pgdir page la t perm :
  pt_inv s own pgdir (λ q, is_page q (Some page) - is_page q (PPN <$> walk (words s) pgdir la)) →
  0 ≤ la < KERNBASE → pde_page (words s) pgdir (PDX la) = Some t → page ∈ own →
  ¬ is_table (words s) pgdir page → 0 ≤ perm < 4096 →
  let pte := Z.lor (Z.lor (page2pa page) PTE_P) perm in
  ∃ s', (s ← stw s (waddr t (PTX la)) pte; s ← tlb_invalidate s pgdir la; Ok (0, s)) = Ok (0, s') ∧
    frame s s' ∧ free s' = free s ∧ pt_inv s' own pgdir no_extra ∧
    same_dir (words s) (words s') pgdir ∧
    (∀ la', regular la' →
       walk (words s') pgdir la' = if decide (PPN la' = PPN la) then Some pte else walk (words s) pgdir la') ∧
    PPN pte = page.
Proof.
  intros Hi Hla Ht Hp Hnt Hperm pte. pose proof Hi as [[Hs _ _ _] _ _ _ _]. pose proof (user_regular la Hla) as Hreg.
  destruct (base_own _ _ _ _ (pi_base _ _ _ _ Hi) Hp) as [Hpn _].
  assert (0 ≤ page < 2 ^ 20) as Hpb by (pose proof (np_bound _ _ _ _ _ Hs Hpn); lia).
  destruct (entry_bits page perm Hpb Hperm) as (Hv & Hpres & Hppn & _). rewrite <-page2pa_eq in Hv, Hpres, Hppn by done.
  fold pte in Hv, Hpres, Hppn. clearbody pte.
  destruct (entry_word s _ pgdir la t Hs Hreg Ht) as (old & Ew & _).
  rewrite (stw_Ok _ _ _ old) by done. cbn [mbind outcome_bind]. rewrite u32_small by done.
  destruct (inv_replace s own pgdir _ la t pte Hi Hla Ht Hv ltac:(rewrite Hppn; done)) as (Hi1 & Hfr & Hwalk & _).
  rewrite Hpres in Hi1, Hwalk.
  pose proof (write_struct _ _ _ _ t (PTX la) pte Hs (ps_pde _ _ _ _ Hs _ _ (dir_PDX la Hreg) Ht) (PTX_range la) Hv) as Hs1.
  rewrite (tlb_invalidate_eq (set_words s (<[waddr t (PTX la):=pte]> (words s))) _ pgdir la Hs1). cbn [mbind outcome_bind].
  eexists. split; [done|]. split; [done|]. split; [done|]. split; [|split; [|split; [exact Hwalk|done]]].
  2:{ apply (write_dir _ _ _ _ _ _ _ Hs); [|apply PTX_range].
      exact (ps_pde _ _ _ _ Hs _ _ (dir_PDX la Hreg) Ht). }
  apply (inv_ext _ _ _ _ _ Hi1). intros q. cbn [fmap option_fmap option_map]. rewrite Hppn. unfold no_extra. lia.
Qed.

(** [page_insert]. *)
Lemma page_insert_spec s own pgdir page la perm :
  pt_inv s own pgdir no_extra → page ∈ own → ¬ is_table (words s) pgdir page →
  0 ≤ la < KERNBASE → 0 ≤ perm < 4096 →
  page_insert s pgdir page la perm = Ok (- E_NO_MEM, s) ∧ pde_page (words s) pgdir (PDX la) = None ∧ free s = 0 ∨
  ∃ s' own1 own' t, page_insert s pgdir page la perm = Ok (0, s') ∧ frame s s' ∧ pt_inv s' own' pgdir no_extra ∧
    page ∈ own' ∧ balance s' own' = balance s own ∧ table_added s s' own own1 pgdir (PDX la) t ∧
    match walk (words s) pgdir la with
    | None => own1 ≡ₚ own'
    | Some pte =>
        own1 ≡ₚ (if decide (PPN pte ≠ page ∧ count (words s) pgdir (PPN pte) = 1) then PPN pte :: own' else own')
    end ∧
    ∀ la', regular la' → walk (words s') pgdir la' =
      if decide (PPN la' = PPN la) then Some (Z.lor (Z.lor (page2pa page) PTE_P) perm) else walk (words s) pgdir la'.
Proof.
  intros Hi Hp Hnt Hla Hperm. unfold page_insert. pose proof (user_regular la Hla) as Hreg.
  destruct (inv_get_pte s own pgdir no_extra la true Hi Hreg) as (r & s1 & -> & Hr). cbn [mbind outcome_bind].
  destruct r as [a|]; [|left; by destruct Hr as (-> & Hnone & Hz); auto]. right.
  destruct Hr as (own1 & t & Hfr1 & Hi1 & Hbal1 & Hadd & Ht & -> & Hwalk1 & _ & Hsub). destruct (Hsub page Hp) as [Hp1 Hnt1].
  specialize (Hnt1 Hnt). clear Hi Hp Hnt Hsub.
  destruct (page_ref_inc_spec s1 own1 pgdir page Hi1 Hp1 Hnt1) as (s2 & -> & Hfr2 & Hn2 & Hw2 & Ht2 & Hi2).
  cbn [mbind outcome_bind snd]. pose proof Hi2 as [[Hs2 _ _ _] Hleaf2 _ _ _].
  rewrite <-Hw2 in Ht, Hnt1.
  destruct (entry_word s2 _ pgdir la t Hs2 Hreg Ht) as (pte & Ew & Hw). rewrite (ldw_Ok _ _ pte) by done.
  cbn [mbind outcome_bind].
  assert (∃ s3 own3, (if present pte then
             p ← pte2page s2 pte;
             if p =? page then r ← page_ref_dec s2 page; Ok r.2
             else page_remove_pte s2 pgdir la (waddr t (PTX la))
           else Ok s2) = Ok s3 ∧ frame s2 s3 ∧ page ∈ own3 ∧ balance s3 own3 = balance s2 own1 ∧
    match walk (words s2) pgdir la with
    | None => own1 ≡ₚ own3
    | Some pte =>
        own1 ≡ₚ (if decide (PPN pte ≠ page ∧ count (words s2) pgdir (PPN pte) = 1) then PPN pte :: own3 else own3)
    end ∧
    pt_inv s3 own3 pgdir (λ q, is_page q (Some page) - is_page q (PPN <$> walk (words s3) pgdir la)) ∧
    same_dir (words s2) (words s3) pgdir ∧
    (∀ la', regular la' → PPN la' ≠ PPN la → walk (words s3) pgdir la' = walk (words s2) pgdir la')) as Hmid.
  { destruct (present pte) eqn:Ep.
    2:{ exists s2, own1. split; [done|]. split; [done|]. split; [done|]. split; [done|]. split; [by rewrite Hw|].
        split; [|done]. apply (inv_ext _ _ _ _ _ Hi2). intros q. rewrite Hw. cbn. rewrite is_page_None. lia. }
    destruct (Hleaf2 la pte Hla Hw) as [Hpo Hpnt].
    rewrite (pa2page_eq s2 (kpages s2 pgdir ++ own1) pgdir pte) by (done || apply elem_of_app; by right). cbn [mbind outcome_bind].
    destruct (Z.eqb_spec (PPN pte) page) as [E|E].
    - destruct (inv_set_ref s2 own1 pgdir _ page (count (words s2) pgdir page + 1 - 1) Hi2 Hp1 Hnt1) as (m & R & Hfr3 & Hn3 & Hi3).
      pose proof (is_page_range page (Some page)).
      rewrite (page_ref_dec_eq s2 own1 pgdir _ page m Hi2 Hp1 Hnt1) by (cbn beta; rewrite ?is_page_eq; done || lia).
      cbn [mbind outcome_bind snd]. exists (set_phys s2 m), own1. split; [done|]. split; [done|]. split; [done|].
      split; [unfold balance; by rewrite Hn3|]. split; [rewrite Hw, decide_False by tauto; done|]. split; [|done]. apply (inv_ext _ _ _ _ _ Hi3). intros q. change (words (set_phys s2 m)) with (words s2).
      rewrite Hw. cbn [fmap option_fmap option_map]. rewrite E. case_decide as E2; [lia|]. rewrite !is_page_ne by done. done.
    - destruct (page_remove_pte_spec s2 own1 pgdir _ la t Hi2 ltac:(intros q; pose proof (is_page_range q (Some page)); lia) Hla Ht)
        as (s3 & own3 & R & Hfr3 & Hi3 & Hwalk3 & Hpde3 & Hbal3 & Hown3).
      rewrite Hw in Hown3. cbn beta in Hown3. rewrite (is_page_ne page (PPN pte)), Z.add_0_r in Hown3 by done.
      exists s3, own3. split; [done|]. split; [done|]. split; [|split; [done|split; [|split; [|split; [done|]]]]].
      + rewrite Hown3 in Hp1. case_decide; [|done].
        apply elem_of_cons in Hp1 as [->|?]; done.
      + rewrite Hw, Hown3. repeat case_decide; tauto || done.
      + apply (inv_ext _ _ _ _ _ Hi3). intros q. rewrite Hwalk3, decide_True by (done || by apply user_reg). cbn. rewrite is_page_None. lia.
      + intros la' Hla' Hne. by rewrite Hwalk3, decide_False. }
  destruct Hmid as (s3 & own3 & -> & Hfr3 & Hp3 & Hbal3 & Hown3 & Hi3 & Hpde3 & Hwalk3). cbn [mbind outcome_bind].
  assert (¬ is_table (words s3) pgdir page) as Hnt3
    by (rewrite (is_table_ext (words s2)); [done|intros d Hd; by apply same_dir_pde]).
  destruct (write_entry_spec s3 own3 pgdir page la t perm Hi3 Hla) as (s4 & -> & Hfr4 & Hn4 & Hi4 & Hpde4 & Hwalk4 & _);
    [by rewrite (same_dir_pde _ _ _ _ Hpde3) by apply PDX_range|done|done|done|].
  exists s4, own1, own3, t. split; [done|]. split; [|split; [done|split; [done|split; [|split; [|split]]]]].
  - apply (frame_trans _ s1); [done|]. apply (frame_trans _ s2); [done|]. by apply (frame_trans _ s3).
  - unfold balance in *. rewrite Hn4, Hbal3, Hn2. exact Hbal1.
  - assert (same_dir (words s1) (words s4) pgdir) as Hsame by (rewrite <-Hw2; by eapply same_dir_trans).
    destruct Hadd as [Ht1 Hadd]. split; [by rewrite (same_dir_pde _ _ _ _ Hsame) by apply PDX_range|].
    destruct (pde_page (words s) pgdir (PDX la)); destruct Hadd as [-> Hd1]; (split; [done|]).
    + by eapply same_dir_trans.
    + intros d Hd. rewrite Hsame by done. by apply Hd1.
  - rewrite Hw2, (Hwalk1 la Hreg) in Hown3. destruct (walk (words s) pgdir la) as [old|]; [|done].
    rewrite (count_ext (words s)) in Hown3; [done|]. intros la' Hla'. by apply Hwalk1, user_regular.
  - intros la' Hla'. rewrite Hwalk4 by done. case_decide as E; [done|]. by rewrite Hwalk3, Hw2, Hwalk1 by (done || apply Hla').
Qed.

Lemma get_page_spec s own pgdir la :
  pt_inv s own pgdir no_extra → 0 ≤ la < KERNBASE →
  ∃ ptep, get_page s pgdir la = Ok (PPN <$> walk (words s) pgdir la, ptep, s).
Proof.
  intros Hi Hla. unfold get_page. pose proof Hi as [[Hs _ _ _] Hleaf _ _ _]. pose proof (user_regular la Hla) as Hreg.
  destruct (inv_get_pte s own pgdir no_extra la false Hi Hreg) as (r & s1 & -> & Hr). cbn [mbind outcome_bind].
  destruct r as [a|].
  - destruct Hr as (own1 & t & _ & _ & _ & _ & Ht & -> & _ & Hsame & _). destruct (Hsame eq_refl) as [-> ->].
    destruct (entry_word s _ pgdir la t Hs Hreg Ht) as (pte & Ew & Hw). rewrite (ldw_Ok _ _ pte) by done.
    cbn [mbind outcome_bind]. rewrite Hw. destruct (present pte) eqn:Ep; [|by eexists].
    rewrite (pa2page_eq s _ pgdir pte Hs) by (done || (apply elem_of_app; right; by apply (Hleaf la))). by eexists.
  - destruct Hr as (-> & Hnone & _). rewrite walk_pages, Hnone. by eexists.
Qed.

Lemma alloc_page_spec s own pgdir :
  pt_inv s own pgdir no_extra →
  alloc_page s = Ok (None, s) ∧ free s = 0 ∨
  ∃ p s', alloc_page s = Ok (Some p, s') ∧ frame s s' ∧ free s' = free s - 1 ∧ p ∉ own ∧
    words s' = words s ∧ tlb s' = tlb s ∧
    pt_inv s' (p :: own) pgdir no_extra ∧ ¬ is_table (words s') pgdir p ∧ count (words s') pgdir p = 0.
Proof.
  intros Hi. pose proof Hi as [[Hs Hm Hn Hpd] Hleaf Htref Href Htlb]. unfold alloc_page. rewrite alloc_pages_eq.
  destruct (mgr_alloc_law (phys s) own 1 Hm ltac:(lia)) as (r & m & R & Hrefs & Hnp & Hm'). rewrite R. cbn [mbind outcome_bind fst snd].
  destruct r as [p|]; [|left; subst m; split; [by destruct s|by eapply alloc_none]]. right. change (seqZ p 1) with [p] in Hm'. cbn [app] in Hm'.
  destruct (mgr_inv_own _ _ Hm') as [[Hni _]%NoDup_cons Hown]. destruct (Hown p ltac:(by left)) as [Hpn Hpr].
  rewrite (proj2 (Hrefs p)) in Hpr. rewrite Hnp, Hn in Hpn.
  assert (p ∉ kpages s pgdir ++ own) as Hni2 by (rewrite not_elem_of_app; split; [by apply not_kpage|done]).
  assert (¬ is_table (words s) pgdir p) as Hnt by (intros (d & Hd & Ht); by eapply Hni2, (ps_pde _ _ _ _ Hs d)).
  assert (frame s (set_phys s m)) as Hfr by (split; try done; intros q; apply Hrefs).
  exists p, (set_phys s m). split; [done|]. split; [done|].
  split; [exact (mgr_alloc_nr (phys s) own 1 p m Hm ltac:(lia) R)|]. split; [done|]. split; [done|]. split; [done|].
  split; [|split; [done|]].
  - split.
    + split; cbn; [|done|congruence|by rewrite (proj2 (Hrefs _))]. rewrite (frame_kpages s) by done.
      rewrite <-Permutation_middle.
      pose proof Hs as [H1 H2 (pd & Epd & Hpdn & Hpdni) H4 H5 H6]. split; try done.
      * intros q [->|Hq]%elem_of_cons; [done|auto].
      * exists pd. split; [done|]. split; [done|]. intros [->|?]%elem_of_cons; [|done].
        pose proof (own_pgdir s own pgdir p ltac:(done) Hpr). done.
      * intros d t Hd Ht. right. exact (H5 d t Hd Ht).
    + intros la pte Hla Hw. destruct (Hleaf la pte Hla Hw). split; [by right|done].
    + intros q [->|Hq]%elem_of_cons Hqt; [done|]. unfold page_ref. cbn. rewrite (proj1 (Hrefs q)). by apply Htref.
    + intros q Hq. rewrite (fr_res _ _ Hfr). intros Hqr Hqt. unfold page_ref. cbn. rewrite (proj1 (Hrefs q)). by apply Href.
    + done.
  - apply count_zero. intros la pte Hla Hw E. destruct (Hleaf la pte Hla Hw) as [Ho _]. by rewrite E in Ho.
Qed.

Lemma free_page_spec s own pgdir p :
  pt_inv s own pgdir no_extra → p ∈ own → ¬ is_table (words s) pgdir p → count (words s) pgdir p = 0 →
  ∃ s' own', free_page s p = Ok s' ∧ frame s s' ∧ balance s' own' = balance s own ∧ own ≡ₚ p :: own' ∧
    words s' = words s ∧ pt_inv s' own' pgdir no_extra.
Proof.
  intros Hi Hp Hnt Hc. destruct (inv_free s own pgdir no_extra p Hi Hp Hnt Hc eq_refl) as (m & own' & R & Hfr & Hperm & Hbal & Hi').
  unfold free_page. rewrite free_pages_eq, R. by exists (set_phys s m), own'.
Qed.

(** ** What the kernel does with a directory

    At the addresses below KERNBASE a page is allocated and mapped (and given
    back when there is no memory for the page table), a page that is mapped
    somewhere is mapped at a second address, an address is unmapped; and the
    processor caches the entry of any address that is mapped. *)
Definition map_new (s : vm M) (pgdir la perm : Z) : outcome (vm M) :=
  r ← alloc_page s;
  match r with
  | (None, s) => Ok s
  | (Some p, s) =>
      r ← page_insert s pgdir p la perm;
      if r.1 =? 0 then Ok r.2 else free_page r.2 p
  end.

Definition map_again (s : vm M) (pgdir la la' perm : Z) : outcome (vm M) :=
  r ← get_page s pgdir la;
  match r with
  | (Some p, _, s) => r ← page_insert s pgdir p la' perm; Ok r.2
  | (None, _, s) => Ok s
  end.

Inductive pt_step (pgdir : Z) : vm M → vm M → Prop :=
| step_new s la perm s' :
    0 ≤ la < KERNBASE → 0 ≤ perm < 4096 → map_new s pgdir la perm = Ok s' → pt_step pgdir s s'
| step_again s la la' perm s' :
    0 ≤ la < KERNBASE → 0 ≤ la' < KERNBASE → 0 ≤ perm < 4096 →
    map_again s pgdir la la' perm = Ok s' → pt_step pgdir s s'
| step_remove s la s' : 0 ≤ la < KERNBASE → page_remove s pgdir la = Ok s' → pt_step pgdir s s'
| step_tlb s la pte :
    0 ≤ la < 2 ^ 32 → cr3 s = pgdir - KERNBASE → walk (words s) pgdir la = Some pte →
    pt_step pgdir s (set_tlb s (<[PPN la := pte]> (tlb s))).

Definition pt_safe (pgdir : Z) (s : vm M) : Prop := ∃ own, pt_inv s own pgdir no_extra.

Lemma map_new_spec s pgdir la perm :
  pt_safe pgdir s → 0 ≤ la < KERNBASE → 0 ≤ perm < 4096 →
  ∃ s', map_new s pgdir la perm = Ok s' ∧ frame s s' ∧ pt_safe pgdir s'.
Proof.
  intros [own Hi] Hla Hperm. unfold map_new.
  destruct (alloc_page_spec s own pgdir Hi) as [[-> _]|(p & s1 & -> & Hfr1 & _ & _ & _ & _ & Hi1 & Hnt & Hc)];
    cbn [mbind outcome_bind]; [exists s; split; [done|]; split; [done|by exists own]|].
  destruct (page_insert_spec s1 (p :: own) pgdir p la perm Hi1 ltac:(by left) Hnt Hla Hperm)
    as [[-> _]|(s2 & _ & own2 & _ & -> & Hfr2 & Hi2 & _)]; cbn [mbind outcome_bind fst snd].
  - change (- E_NO_MEM =? 0) with false.
    destruct (free_page_spec s1 (p :: own) pgdir p Hi1 ltac:(by left) Hnt Hc) as (s2 & own2 & -> & Hfr2 & _ & _ & _ & Hi2).
    exists s2. split; [done|]. split; [|by exists own2]. by apply (frame_trans _ s1).
  - exists s2. split; [done|]. split; [|by exists own2]. by apply (frame_trans _ s1).
Qed.

Lemma map_again_spec s pgdir la la' perm :
  pt_safe pgdir s → 0 ≤ la < KERNBASE → 0 ≤ la' < KERNBASE → 0 ≤ perm < 4096 →
  ∃ s', map_again s pgdir la la' perm = Ok s' ∧ frame s s' ∧ pt_safe pgdir s'.
Proof.
  intros [own Hi] Hla Hla' Hperm. unfold map_again.
  destruct (get_page_spec s own pgdir la Hi Hla) as (ptep & ->). cbn [mbind outcome_bind].
  destruct (walk (words s) pgdir la) as [pte|] eqn:Hw; cbn [fmap option_fmap option_map];
    [|exists s; split; [done|]; split; [done|by exists own]].
  destruct (pi_leaf _ _ _ _ Hi la pte Hla Hw) as [Ho Hnt].
  destruct (page_insert_spec s own pgdir _ la' perm Hi Ho Hnt Hla' Hperm)
    as [[-> _]|(s2 & _ & own2 & _ & -> & Hfr2 & Hi2 & _)]; cbn [mbind outcome_bind fst snd].
  - exists s. split; [done|]. split; [done|by exists own].
  - exists s2. split; [done|]. split; [done|by exists own2].
Qed.

Lemma pt_step_safe pgdir s s' : pt_safe pgdir s → pt_step pgdir s s' → pt_safe pgdir s'.
Proof.
  intros Hs Hst. destruct Hst as [s la perm s' Hla Hp R|s la la' perm s' Hla Hla' Hp R|s la s' Hla R|s la pte Hla Hcr Hw].
  - destruct (map_new_spec s pgdir la perm Hs Hla Hp) as (s2 & R2 & _ & H2). congruence.
  - destruct (map_again_spec s pgdir la la' perm Hs Hla Hla' Hp) as (s2 & R2 & _ & H2). congruence.
  - destruct Hs as [own Hi]. destruct (page_remove_spec s own pgdir la Hi Hla) as (s2 & own2 & R2 & _ & H2 & _).
    exists own2. congruence.
  - destruct Hs as [own [Hb Hleaf Htref Href Htlb]]. exists own. split; try done.
    + destruct Hb. by split.
    + cbn. intros _ v pte' Hv0. rewrite lookup_insert_Some. intros [[<- <-]|[_ Hv]]; [|by apply Htlb].
      split; [|by rewrite walk_vpn]. rewrite PPN_div. split; [apply Z.div_pos; lia|apply Z.div_lt_upper_bound; lia].
Qed.

(** ** The linear map of the kernel *)

(** The entry [map_pages] writes for the page of [la']. *)
Definition linear_entry (la pa perm la' : Z) : Z :=
  Z.lor (Z.lor (pa + (PPN la' - PPN la) * 4096) PTE_P) perm.

Lemma set_entry_base s own pgdir la t v :
  pt_base s own pgdir → PDX la ≠ PDX VPT → pde_page (words s) pgdir (PDX la) = Some t → 0 ≤ v < 2 ^ 32 →
  ∃ s', stw s (waddr t (PTX la)) v = Ok s' ∧ frame s s' ∧ pt_base s' own pgdir ∧
    ∀ la', PDX la' ≠ PDX VPT → walk (words s') pgdir la' =
      if decide (PDX la' = PDX la ∧ PTX la' = PTX la) then (if present v then Some v else None)
      else walk (words s) pgdir la'.
Proof.
  intros [Hs Hm Hn Hp] Hreg Ht Hv. destruct (entry_word s _ pgdir la t Hs Hreg Ht) as (x & Ex & _).
  rewrite (stw_Ok _ _ _ x) by done. rewrite u32_small by done. eexists. split; [done|]. split; [done|]. split.
  - split; cbn; try done. apply write_struct; try done; [|apply PTX_range].
    exact (ps_pde _ _ _ _ Hs _ _ (dir_PDX la Hreg) Ht).
  - intros la' Hreg'. cbn. exact (write_walk _ _ _ _ _ _ _ _ _ Hs (dir_PDX la Hreg) Ht (PTX_range la) Hreg').
Qed.

Lemma map_pages_spec perm pgdir n : ∀ s own la pa,
  pt_base s own pgdir → 0 ≤ perm < 4096 → 0 ≤ la → la mod 4096 = 0 → la + Z.of_nat n * 4096 ≤ VPT →
  0 ≤ pa → pa mod 4096 = 0 → pa + Z.of_nat n * 4096 ≤ 2 ^ 32 →
  map_pages n s pgdir la pa perm = Err Panic ∨
  ∃ s' own', map_pages n s pgdir la pa perm = Ok s' ∧ frame s s' ∧ pt_base s' own' pgdir ∧
    ∀ la', regular la' → walk (words s') pgdir la' =
      if decide (PPN la ≤ PPN la' < PPN la + Z.of_nat n) then Some (linear_entry la pa perm la')
      else walk (words s) pgdir la'.
Proof.
  induction n as [|n IH]; intros s own la pa Hb Hperm Hla Hla4 Hlan Hpa Hpa4 Hpan.
  { right. exists s, own. split; [done|]. split; [done|]. split; [done|]. intros la' _. by rewrite decide_False by lia. }
  assert (Hla32 : 0 ≤ la < 2 ^ 32) by (unfold VPT in Hlan; lia).
  pose proof (below_VPT la ltac:(lia)) as Hreg.
  cbn [map_pages]. destruct (get_pte_spec s own pgdir la true Hb Hreg) as (r & s1 & -> & Hr). cbn [mbind outcome_bind].
  destruct r as [a|]; [|by left].
  destruct Hr as (own1 & t & Hfr1 & _ & Hb1 & _ & Ht & -> & Hwalk1 & _).
  assert (pa = pa / 4096 * 4096) as Epa by (pose proof (Z.div_mod pa 4096 ltac:(lia)); lia).
  assert (0 ≤ pa / 4096 < 2 ^ 20) as Hpab.
  { split; [apply Z.div_pos; lia|apply Z.div_lt_upper_bound; lia]. }
  destruct (entry_bits (pa / 4096) perm Hpab Hperm) as (Hv & Hpres & _ & _). rewrite <-Epa in Hv, Hpres.
  destruct (set_entry_base s1 own1 pgdir la t _ Hb1 Hreg Ht Hv) as (s2 & -> & Hfr2 & Hb2 & Hwalk2).
  cbn [mbind outcome_bind]. rewrite Hpres in Hwalk2.
  assert (PPN (la + 4096) = PPN la + 1) as Eppn.
  { rewrite !PPN_div. replace (la + 4096) with (la + 1 * 4096) by lia. by rewrite Z.div_add by lia. }
  assert (∀ la', regular la' → walk (words s2) pgdir la' =
    if decide (PPN la' = PPN la) then Some (linear_entry la pa perm la') else walk (words s) pgdir la') as Hw2.
  { intros la' [Hla' Hreg']. rewrite Hwalk2 by done. pose proof (PPN_indices la' la Hla' Hla32).
    case_decide as E1; case_decide as E2; try tauto; [|by apply Hwalk1].
    unfold linear_entry. rewrite E2. do 3 f_equal. lia. }
  destruct n as [|n].
  { right. exists s2, own1. split; [done|]. split; [by apply (frame_trans _ s1)|]. split; [done|].
    intros la' Hla'. rewrite Hw2 by done. case_decide as E1; case_decide as E2; try done; lia. }
  rewrite !u32_small by (unfold PGSIZE, VPT in *; lia). unfold PGSIZE.
  destruct (IH s2 own1 (la + 4096) (pa + 4096) Hb2 Hperm) as [->|(s3 & own3 & -> & Hfr3 & Hb3 & Hw3)];
    [lia|rewrite <-Z.add_mod_idemp_r by lia; change (4096 mod 4096) with 0; rewrite Z.add_0_r; done|lia|lia
    |rewrite <-Z.add_mod_idemp_r by lia; change (4096 mod 4096) with 0; rewrite Z.add_0_r; done|lia|by left|].
  right. exists s3, own3. split; [done|]. split; [apply (frame_trans _ s1); [done|by apply (frame_trans _ s2)]|]. split; [done|].
  intros la' Hla'. rewrite Hw3, Hw2, Eppn by done.
  repeat case_decide; try lia; try done.
  unfold linear_entry. rewrite Eppn. do 3 f_equal. lia.
Qed.

Lemma boot_map_segment_spec s own pgdir la size pa perm :
  pt_base s own pgdir → 0 ≤ perm < 4096 → 0 < size → 0 ≤ la → 0 ≤ pa → la mod 4096 = pa mod 4096 →
  la + size + 4095 < VPT → pa + size + 4095 < 2 ^ 32 →
  boot_map_segment s pgdir la size pa perm = Err Panic ∨
  ∃ s' own', boot_map_segment s pgdir la size pa perm = Ok s' ∧ frame s s' ∧ pt_base s' own' pgdir ∧
    ∀ la', regular la' → walk (words s') pgdir la' =
      if decide (PPN la ≤ PPN la' ≤ PPN (la + size - 1))
      then Some (Z.lor (Z.lor ((PPN la' - PPN la + PPN pa) * 4096) PTE_P) perm)
      else walk (words s) pgdir la'.
Proof.
  intros Hb Hperm Hsz Hla Hpa Hoff Hlan Hpan. unfold boot_map_segment.
  rewrite !PGOFF_mod, Hoff. rewrite Z.eqb_refl. cbn [assert_ mbind outcome_bind].
  pose proof (Z.mod_pos_bound pa 4096 ltac:(lia)) as Hm.
  pose proof (Z.div_mod la 4096 ltac:(lia)) as Dla. pose proof (Z.div_mod pa 4096 ltac:(lia)) as Dpa.
  rewrite (u32_small (size + pa mod 4096)) by lia.
  destruct (ROUNDUP_spec (size + pa mod 4096) PGSIZE ltac:(done)) as [Hr Hr0]; [lia|unfold PGSIZE; lia|].
  unfold PGSIZE in *. set (R := ROUNDUP (size + pa mod 4096) 4096) in *.
  assert (R = R / 4096 * 4096) as ER by (pose proof (Z.div_mod R 4096 ltac:(lia)); lia).
  set (n := R / 4096) in *.
  assert (∀ x, 0 ≤ x < 2 ^ 32 → ROUNDDOWN x 4096 = x / 4096 * 4096) as Erd.
  { intros x Hx. unfold ROUNDDOWN. rewrite u32_small by done. pose proof (Z.div_mod x 4096 ltac:(lia)). lia. }
  rewrite !Erd by (unfold VPT in *; lia).
  assert ((la + size - 1) / 4096 = la / 4096 + n - 1) as Eend.
  { symmetry. apply (Z.div_unique_pos _ _ _ (la + size - 1 - 4096 * (la / 4096 + n - 1))); lia. }
  destruct (map_pages_spec perm pgdir (Z.to_nat n) s own (la / 4096 * 4096) (pa / 4096 * 4096) Hb Hperm)
    as [->|(s' & own' & -> & Hfr & Hb' & Hw)]; [..|by left|]; try (rewrite ?Z.mod_mul by lia; lia).
  right. exists s', own'. split; [done|]. split; [done|]. split; [done|]. intros la' Hla'. rewrite Hw by done.
  unfold linear_entry. rewrite !PPN_div, Z.div_mul, Eend by lia.
  case_decide as E1; case_decide as E2; try done; try lia. do 3 f_equal. lia.
Qed.
End spec.
