(* ===== verification/DefaultCheck.v ===== *)
(** * default_pmm.c: the self-test of the first-fit allocator

    [basic_check] and [default_check] of
    src/Labweek11/lab2/kern/mm/default_pmm.c, and their call from pmm.c.
    [alloc_pages], [free_pages] and [nr_free_pages] reach the allocator through
    [pmm_manager]; the interrupt flag that their wrappers in pmm.c save and
    restore is not in this state, and the line printed at the end is left out.
    While the test runs, it saves [free_list] and [nr_free], starts from an
    empty list and puts both back: the free blocks are hidden, which
    [pmm_rep_with] describes.

    [chk] is the invariant of the test.  It keeps the set of the pages that are
    held, free or hidden, the reference counts and the links of the hidden
    blocks. *)

From stdpp Require Import base list numbers sets.
From S2P Require Import Prelude ListH DefaultPmm PmmManager DefaultPmmManager Mmu PageTable.

(** ** The code *)

Definition set_free_list (st : pmm) (l : list_entry entry) : pmm := PmmOf (pages st) l (nr_free st).

(** [assert((p = alloc_pages(n)) != NULL)] *)
Definition alloc_some (st : pmm) (n : Z) : outcome (Z * pmm) :=
  r ← mgr_alloc_pages st n;
  match r with (Some p, st) => Ok (p, st) | (None, _) => Err Panic end.

(** [assert(alloc_pages(n) == NULL)] *)
Definition alloc_none (st : pmm) (n : Z) : outcome pmm :=
  r ← mgr_alloc_pages st n;
  match r with (Some _, _) => Err Panic | (None, st) => Ok st end.

(** [assert((p = alloc_pages(n)) == q)] *)
Definition alloc_is (st : pmm) (n q : Z) : outcome pmm :=
  r ← alloc_some st n; assert_ (r.1 =? q);; Ok r.2.

Definition free_one (st : pmm) (p : Z) : outcome pmm := mgr_free_pages st p 1.

(** The assertions on a page that has just been allocated. *)
Definition assert_fresh (st : pmm) (p : Z) : outcome unit :=
  pg ← page st p;
  assert_ (ref pg =? 0);;
  assert_ (page2pa p <? u32 (mgr_npage st * PGSIZE)).

(** [list_init(&free_list); assert(list_empty(&free_list));] *)
Definition empty_list (st : pmm) : outcome pmm :=
  st ← list_init st EHead;
  e ← list_empty st EHead;
  assert_ e;;
  Ok st.

(** The part of [basic_check] on three pages, the rest of the memory being
    hidden. *)
Definition check_three (st : pmm) (p0 p1 p2 : Z) : outcome (Z * Z * Z * pmm) :=
  st ← alloc_none st 1;
  st ← free_one st p0;
  st ← free_one st p1;
  st ← free_one st p2;
  assert_ (nr_free st =? 3);;
  '(p0, st) ← alloc_some st 1;
  '(p1, st) ← alloc_some st 1;
  '(p2, st) ← alloc_some st 1;
  st ← alloc_none st 1;
  st ← free_one st p0;
  e ← list_empty st EHead;
  assert_ (negb e);;
  st ← alloc_is st 1 p0;
  st ← alloc_none st 1;
  assert_ (nr_free st =? 0);;
  Ok (p0, p1, p2, st).

Definition basic_check (st : pmm) : outcome pmm :=
  '(p0, st) ← alloc_some st 1;
  '(p1, st) ← alloc_some st 1;
  '(p2, st) ← alloc_some st 1;
  assert_ (negb (p0 =? p1) && negb (p0 =? p2) && negb (p1 =? p2));;
  assert_fresh st p0;; assert_fresh st p1;; assert_fresh st p2;;
  let free_list_store := free_list st in
  st ← empty_list st;
  let nr_free_store := nr_free st in
  let st := set_nr_free st 0 in
  '(p0, p1, p2, st) ← check_three st p0 p1 p2;
  let st := set_free_list st free_list_store in
  let st := set_nr_free st nr_free_store in
  st ← free_one st p0;
  st ← free_one st p1;
  free_one st p2.

(** The two walks over the list, with [count] and [total]. *)
Definition count_step (st : pmm) (s : entry * Z * Z) : outcome ((entry * Z * Z) + (Z * Z)) :=
  let '(le, count, total) := s in
  le ← list_next st le;
  if decide (le = EHead) then Ok (inr (count, total))
  else
    p ← le2page le;
    pg ← page st p;
    assert_ (PageProperty pg);;
    count ← cint (count + 1);
    Ok (inl (le, count, s32 (total + property pg))).

Definition uncount_step (st : pmm) (s : entry * Z * Z) : outcome ((entry * Z * Z) + (Z * Z)) :=
  let '(le, count, total) := s in
  le ← list_next st le;
  if decide (le = EHead) then Ok (inr (count, total))
  else
    p ← le2page le;
    pg ← page st p;
    count ← cint (count - 1);
    Ok (inl (le, count, s32 (total - property pg))).

(** [assert(PageProperty(p) && p->property == n)] *)
Definition assert_block (st : pmm) (p n : Z) : outcome unit :=
  pg ← page st p; assert_ (PageProperty pg && (property pg =? n)).

(** The part of [default_check] on the five pages from [p0], the rest of the
    memory being hidden. *)
Definition check_five (st : pmm) (p0 : Z) : outcome (Z * pmm) :=
  st ← mgr_free_pages st (p0 + 2) 3;
  st ← alloc_none st 4;
  assert_block st (p0 + 2) 3;;
  '(p1, st) ← alloc_some st 3;
  st ← alloc_none st 1;
  assert_ (p0 + 2 =? p1);;
  let p2 := p0 + 1 in
  st ← free_one st p0;
  st ← mgr_free_pages st p1 3;
  assert_block st p0 1;;
  assert_block st p1 3;;
  st ← alloc_is st 1 (p2 - 1);
  st ← free_one st (p2 - 1);
  st ← alloc_is st 2 (p2 + 1);
  st ← mgr_free_pages st (p2 + 1) 2;
  st ← free_one st p2;
  '(p0, st) ← alloc_some st 5;
  st ← alloc_none st 1;
  assert_ (nr_free st =? 0);;
  Ok (p0, st).

Definition default_check (st : pmm) : outcome pmm :=
  '(count, total) ← loop (walk_fuel st) (count_step st) (EHead, 0, 0);
  assert_ (u32 total =? mgr_nr_free_pages st);;
  st ← basic_check st;
  '(p0, st) ← alloc_some st 5;
  pg ← page st p0;
  assert_ (negb (PageProperty pg));;
  let free_list_store := free_list st in
  st ← empty_list st;
  st ← alloc_none st 1;
  let nr_free_store := nr_free st in
  let st := set_nr_free st 0 in
  '(p0, st) ← check_five st p0;
  let st := set_nr_free st nr_free_store in
  let st := set_free_list st free_list_store in
  st ← mgr_free_pages st p0 5;
  '(count, total) ← loop (walk_fuel st) (uncount_step st) (EHead, count, total);
  assert_ (count =? 0);;
  assert_ (total =? 0);;
  Ok st.

(** [check_alloc_page] of pmm.c, which then prints that it succeeded. *)
Definition check_alloc_page (s : vm pmm) : outcome (vm pmm) :=
  m ← default_check (phys s); Ok (set_phys s m).

#[global] Arguments basic_check : simpl never.
#[global] Arguments check_three : simpl never.
#[global] Arguments check_five : simpl never.
#[global] Arguments empty_list : simpl never.
#[global] Arguments free_one : simpl never.
#[global] Arguments alloc_some : simpl never.
#[global] Arguments alloc_none : simpl never.
#[global] Arguments alloc_is : simpl never.
#[global] Arguments assert_block : simpl never.
#[local] Arguments mgr_free_pages : simpl never.

(** ** The blocks are determined by the free pages *)

Lemma coalesced_covers bs (b c : block) i :
  coalesced bs → NoDup (pages_of bs) → b ∈ bs → (∀ j, c.1 ≤ j < c.1 + c.2 → j ∈ pages_of bs) →
  b.1 ≤ i < b.1 + b.2 → c.1 ≤ i < c.1 + c.2 → b.1 ≤ c.1 ∧ c.1 + c.2 ≤ b.1 + b.2.
Proof.
  intros Hc Hnd Hb Hj Hib Hic. pose proof Hb as (l1 & l2 & E)%list_elem_of_split.
  assert (∀ d j, d ∈ bs → d ≠ b → d.1 ≤ j < d.1 + d.2 → ¬ b.1 ≤ j < b.1 + b.2) as Hdis.
  { intros d j Hd Hne Hjd Hjb. subst bs. rewrite <-Permutation_middle in Hnd.
    eapply (block_in_rest_disjoint b d (l1 ++ l2) j); [done|set_solver|done|done]. }
  split; apply Z.nlt_ge; intros Hlt.
  - assert (c.1 ≤ b.1 - 1 < c.1 + c.2) as HJ by lia.
    destruct (proj1 (elem_of_pages_of (b.1 - 1) bs) (Hj _ HJ)) as (d & Hd & Hdj).
    assert (d ≠ b) as Hne by (intros ->; lia). apply (Hc d b Hd Hb).
    apply Z.le_antisymm; [|lia]. apply Z.nlt_ge. intros ?. apply (Hdis d b.1 Hd Hne); lia.
  - assert (c.1 ≤ b.1 + b.2 < c.1 + c.2) as HJ by lia.
    destruct (proj1 (elem_of_pages_of (b.1 + b.2) bs) (Hj _ HJ)) as (d & Hd & Hdj).
    assert (d ≠ b) as Hne by (intros ->; lia). apply (Hc b d Hb Hd).
    apply Z.le_antisymm; [|lia]. apply Z.nlt_ge. intros ?. apply (Hdis d (b.1 + b.2 - 1) Hd Hne); lia.
Qed.

Lemma coalesced_unique_elem bs bs' b :
  coalesced bs → coalesced bs' → NoDup (pages_of bs) → Forall (λ b, 0 < b.2) bs →
  pages_of bs ≡ₚ pages_of bs' → b ∈ bs → b ∈ bs'.
Proof.
  intros Hc Hc' Hnd Hpos Hp Hb. rewrite Forall_forall in Hpos. pose proof (Hpos b Hb).
  assert (∀ l (d : block) j, d ∈ l → d.1 ≤ j < d.1 + d.2 → j ∈ pages_of l) as Hin.
  { intros l d j Hd Hj. apply elem_of_pages_of. by exists d. }
  assert (b.1 ∈ pages_of bs') as (c & Hcin & Hcb)%elem_of_pages_of
    by (rewrite <-Hp; eapply Hin; [exact Hb|lia]).
  destruct (coalesced_covers bs b c b.1) as [H1 H2]; [done|done|done| |lia|done|].
  { intros j Hj. rewrite Hp. by eapply Hin. }
  destruct (coalesced_covers bs' c b b.1) as [H3 H4]; [done|by rewrite <-Hp|done| |done|lia|].
  { intros j Hj. rewrite <-Hp. by eapply Hin. }
  replace b with c; [done|]. destruct b, c; simpl in *. f_equal; lia.
Qed.

(** Two coalesced lists of blocks with the same pages have the same blocks. *)
Lemma coalesced_unique bs bs' :
  coalesced bs → coalesced bs' → NoDup (pages_of bs) →
  Forall (λ b, 0 < b.2) bs → Forall (λ b, 0 < b.2) bs' →
  pages_of bs ≡ₚ pages_of bs' → bs ≡ₚ bs'.
Proof.
  intros Hc Hc' Hnd Hpos Hpos' Hp. rewrite Forall_forall in *.
  apply NoDup_Permutation.
  - apply (NoDup_fmap_1 fst), heads_NoDup; [done|]. exact Hpos.
  - apply (NoDup_fmap_1 fst), heads_NoDup; [by rewrite <-Hp|]. exact Hpos'.
  - intros b. split; apply coalesced_unique_elem; try done; try (by apply Forall_forall); by rewrite <-Hp.
Qed.

(** ** The invariant of the test *)

Lemma aget_ext {A} (l k : list A) : (∀ i, aget l i = aget k i) → l = k.
Proof.
  intros H. apply list_eq. intros i. apply option_eq. intros x.
  pose proof (H (Z.of_nat i)) as Hi.
  assert (∀ m : list A, aget m (Z.of_nat i) = Ok x ↔ m !! i = Some x) as E.
  { intros m. rewrite aget_Ok, Nat2Z.id. split; [by intros []|]. intros ?. split; [lia|done]. }
  by rewrite <-!E, Hi.
Qed.

Section chk.
Context (U : list Z) (K : list (Z * bool)).
Context (U_nodup : NoDup U) (U_ref : ∀ i, i ∈ U → aget K i = Ok (0, false)).

(** The pages [U] are the ones held by the test ([own]), the free ones and the
    hidden ones; [K] are the reference counts and reserved bits, all zero on
    [U]; the hidden blocks are linked as in [s0]. *)
Record chk (s0 st : pmm) (bs hid : list block) (own : list Z) : Prop := {
  chk_rep : pmm_rep_with st bs hid;
  chk_coal : coalesced bs;
  chk_all : own ++ pages_of (bs ++ hid) ≡ₚ U;
  chk_kept : kept (data st) = K;
  chk_links : links_kept s0 st hid
}.

Lemma chk_perm s0 st bs hid own own' : own ≡ₚ own' → chk s0 st bs hid own → chk s0 st bs hid own'.
Proof. intros Hp [H1 H2 H3 H4 H5]. split; try done. by rewrite <-Hp. Qed.

Lemma chk_pos s0 st bs hid own : chk s0 st bs hid own → Forall (λ b, 0 < b.2) bs.
Proof. intros [(_ & Hok & _) _ _ _ _]. by apply blocks_ok_pos, Forall_app in Hok as [? _]. Qed.

Lemma chk_nodup s0 st bs hid own : chk s0 st bs hid own → NoDup (pages_of bs).
Proof.
  intros [_ _ Hp _ _]. rewrite <-Hp, pages_of_app in U_nodup.
  by apply NoDup_app in U_nodup as (_ & _ & (? & _)%NoDup_app).
Qed.

Lemma chk_nr s0 st bs hid own : chk s0 st bs hid own → nr_free st = zlen (pages_of bs).
Proof. intros [(_ & _ & ?) _ _ _ _]. done. Qed.

(** A page that is held: it is not reserved, it is not free, and it has no
    reference. *)
Lemma chk_held s0 st bs hid own i :
  chk s0 st bs hid own → i ∈ own →
  allocated st (bs ++ hid) i ∧ ∃ pg, page st i = Ok pg ∧ ref pg = 0 ∧ PageProperty pg = false.
Proof.
  intros [(_ & Hok & _) _ Hp Hk _] Hi.
  assert (i ∉ pages_of (bs ++ hid)) as Hni.
  { rewrite <-Hp in U_nodup. apply NoDup_app in U_nodup as (_ & Hd & _). by apply Hd. }
  assert (aget (kept (data st)) i = Ok (0, false)) as Hr.
  { rewrite Hk. apply U_ref. rewrite <-Hp. set_solver. }
  unfold kept in Hr. rewrite aget_fmap in Hr. apply fmap_Ok in Hr as ([[r f] s] & Hd & [= <- Hf]). symmetry in Hf.
  pose proof Hd as (pg & Hpg & [= E1 -> ->])%page_data_Ok. split.
  - apply allocated_data. split; [|done]. by eexists.
  - exists pg. split; [done|]. split; [by symmetry|]. by eapply allocated_not_head.
Qed.

Lemma chk_alloc s0 st bs hid own n :
  chk s0 st bs hid own → 0 < n →
  match alloc_blocks n bs with
  | None => mgr_alloc_pages st n = Ok (None, st)
  | Some (b, bs') => ∃ st', mgr_alloc_pages st n = Ok (Some b, st') ∧ chk s0 st' bs' hid (seqZ b n ++ own)
  end.
Proof.
  intros Hc Hn. pose proof Hc as [Hrep Hco Hp Hk Hl]. pose proof (alloc_pages_with st bs hid n Hrep Hn) as H.
  destruct (alloc_blocks n bs) as [[b bs']|] eqn:Ha; [|exact H]. destruct H as (st' & R & Hrep' & _ & Hk' & Hl').
  exists st'. split; [exact R|]. split; [done| | |congruence|by eapply links_kept_trans].
  - eapply alloc_blocks_coalesced; [done|exact Hn|by eapply chk_pos|by eapply chk_nodup|done].
  - rewrite <-Hp, !pages_of_app, (alloc_blocks_pages _ _ _ _ Ha) by lia.
    rewrite <-!(assoc_L (++)). apply Permutation_app_swap_app.
Qed.

Lemma chk_free s0 st bs hid own b n :
  chk s0 st bs hid (seqZ b n ++ own) → 0 < n →
  ∃ st', mgr_free_pages st b n = Ok st' ∧ chk s0 st' (free_blocks b n bs) hid own.
Proof.
  intros Hc Hn. pose proof Hc as [Hrep Hco Hp Hk Hl]. pose proof (chk_pos _ _ _ _ _ Hc) as Hpos.
  assert (∀ i, b ≤ i < b + n → allocated st (bs ++ hid) i ∧ aget K i = Ok (0, false)) as Ha.
  { intros i Hi%elem_of_seqZ. split; [eapply chk_held; [exact Hc|set_solver]|]. apply U_ref. rewrite <-Hp. set_solver. }
  destruct (free_pages_with st bs hid b n Hrep Hn) as (st' & R & Hrep' & Hk' & Hl'); [apply Ha|].
  exists st'. split; [exact R|]. split; [done|by apply free_blocks_coalesced| | |by eapply links_kept_trans].
  - rewrite <-Hp, !pages_of_app, free_blocks_pages; [|lia|eapply Forall_impl; [exact Hpos|cbn; lia]].
    rewrite <-!(assoc_L (++)). apply Permutation_app_swap_app.
  - apply aget_ext. intros i. rewrite Hk', Hk. case_decide as Hi; [|done]. symmetry. by apply Ha.
Qed.

(** *** One page at a time *)

Lemma chk_nr_alloc s0 st st' bs bs' hid own own' n b :
  chk s0 st bs hid own → chk s0 st' bs' hid own' → 0 < n → alloc_blocks n bs = Some (b, bs') →
  nr_free st' = nr_free st - n.
Proof.
  intros Hc Hc' Hn Ha. rewrite (chk_nr _ _ _ _ _ Hc), (chk_nr _ _ _ _ _ Hc'), (alloc_blocks_pages _ _ _ _ Ha) by lia.
  rewrite zlen_app, zlen_seqZ; lia.
Qed.

Lemma chk_alloc_one s0 st bs hid own :
  chk s0 st bs hid own → 0 < nr_free st →
  ∃ p st' bs', alloc_some st 1 = Ok (p, st') ∧ chk s0 st' bs' hid (p :: own) ∧ nr_free st' = nr_free st - 1.
Proof.
  intros Hc Hn. pose proof (chk_alloc _ _ _ _ _ 1 Hc ltac:(lia)) as H.
  destruct (alloc_blocks 1 bs) as [[b bs']|] eqn:Ha.
  - destruct H as (st' & R & Hc'). exists b, st', bs'. unfold alloc_some. rewrite R.
    split; [done|]. split; [exact Hc'|]. by eapply chk_nr_alloc.
  - exfalso. unfold alloc_blocks in Ha. destruct (first_fit 1 bs) as [[c rest]|] eqn:Ff; [done|].
    apply first_fit_None in Ff. rewrite (chk_nr _ _ _ _ _ Hc) in Hn. destruct bs as [|b bs]; [done|].
    apply Forall_cons in Ff as [Hb _]. pose proof (chk_pos _ _ _ _ _ Hc) as [Hp _]%Forall_cons. lia.
Qed.

Lemma alloc_too_many st n : nr_free st < n → 0 < n → mgr_alloc_pages st n = Ok (None, st).
Proof.
  intros Hn H0. cbn. unfold default_alloc_pages. rewrite assert_true by lia. cbn.
  by rewrite (proj2 (Z.ltb_lt _ _) Hn).
Qed.

Lemma alloc_none_Ok st n : nr_free st < n → 0 < n → alloc_none st n = Ok st.
Proof. intros Hn H0. unfold alloc_none. by rewrite alloc_too_many. Qed.

Lemma chk_free_one s0 st bs hid own p :
  chk s0 st bs hid (p :: own) →
  ∃ st' , free_one st p = Ok st' ∧ chk s0 st' (free_blocks p 1 bs) hid own ∧ nr_free st' = nr_free st + 1.
Proof.
  intros Hc. destruct (chk_free s0 st bs hid own p 1 Hc ltac:(lia)) as (st' & R & Hc').
  exists st'. split; [exact R|]. split; [exact Hc'|].
  rewrite (chk_nr _ _ _ _ _ Hc), (chk_nr _ _ _ _ _ Hc'), free_blocks_pages, zlen_app, zlen_seqZ; [lia..|].
  eapply Forall_impl; [by eapply chk_pos|cbn; lia].
Qed.

Lemma chk_own_nodup s0 st bs hid own : chk s0 st bs hid own → NoDup own.
Proof. intros [_ _ Hp _ _]. rewrite <-Hp in U_nodup. by apply NoDup_app in U_nodup as (? & _). Qed.

(** *** Hiding the free blocks, and putting them back *)

Lemma empty_list_alloc st n : dll st EHead [] → 0 < n → mgr_alloc_pages st n = Ok (None, st).
Proof.
  intros Hd Hn. cbn. unfold default_alloc_pages. rewrite assert_true by lia. cbn.
  destruct (nr_free st <? n); [done|]. unfold walk_fuel. rewrite loop_unfold. unfold find_step at 2.
  by rewrite (dll_next_head _ _ _ Hd).
Qed.

Lemma chk_hide s0 st bs own :
  chk s0 st bs [] own →
  ∃ st1, empty_list st = Ok st1 ∧ nr_free st1 = nr_free st ∧ alloc_none st1 1 = Ok st1 ∧
    chk st (set_nr_free st1 0) [] bs own.
Proof.
  intros [Hrep Hco Hp Hk Hl]. destruct (list_init_spec st EHead) as (st1 & R & Hd & W); [by eexists|].
  destruct (link_writes_data _ _ W) as [Hda Hnr]. exists st1. unfold empty_list. rewrite R. cbn.
  rewrite (list_empty_spec _ _ _ Hd). split; [done|]. split; [done|]. split.
  { unfold alloc_none. by rewrite empty_list_alloc. }
  rewrite app_nil_r in Hp. destruct Hrep as (_ & Hok & _). rewrite app_nil_r in Hok.
  split; [split; [|split]| |done| |].
  - eapply dll_ext; [|exact Hd]. by intros [|].
  - change (data (set_nr_free st1 0)) with (data st1). by rewrite Hda.
  - done.
  - intros b b' Hb. by apply not_elem_of_nil in Hb.
  - change (data (set_nr_free st1 0)) with (data st1). by rewrite Hda.
  - intros b Hb. by rewrite <-(list_init_frame _ _ _ (EPage b.1) R).
Qed.

Lemma chk_unhide s0 s1 st st1 bs own own1 :
  chk s0 st bs [] own → chk st st1 [] bs own1 →
  chk s1 (set_nr_free (set_free_list st1 (free_list st)) (nr_free st)) bs [] own1.
Proof.
  intros [(Hd & _ & Hnr) Hco _ _ _] [(_ & Hok1 & _) _ Hp1 Hk1 Hl1].
  split; [split; [|split]|done| | |].
  - eapply dll_local; [|exact Hd]. intros e [->|(b & -> & Hb)%list_elem_of_fmap]%elem_of_cons; [done|].
    exact (Hl1 b Hb).
  - rewrite app_nil_r. exact Hok1.
  - done.
  - by rewrite app_nil_r.
  - exact Hk1.
  - intros b Hb. by apply not_elem_of_nil in Hb.
Qed.

(** *** [basic_check] *)

Lemma chk_empty s0 st bs hid own : chk s0 st bs hid own → nr_free st = 0 → bs = [].
Proof.
  intros Hc Hn. rewrite (chk_nr _ _ _ _ _ Hc) in Hn. destruct bs as [|b bs]; [done|].
  pose proof (chk_pos _ _ _ _ _ Hc) as [Hb _]%Forall_cons. rewrite pages_of_cons, zlen_app, zlen_seqZ in Hn by lia.
  pose proof (zlen_nonneg (pages_of bs)). lia.
Qed.

Lemma chk_list_empty s0 st bs hid own : chk s0 st bs hid own → list_empty st EHead = Ok (bool_decide (entries bs = [])).
Proof. intros [(Hd & _) _ _ _ _]. by apply list_empty_spec. Qed.

(** Allocating exactly the block that the abstract allocator chooses. *)
Lemma chk_alloc_some s0 st bs hid own n b bs' :
  chk s0 st bs hid own → 0 < n → alloc_blocks n bs = Some (b, bs') →
  ∃ st', alloc_some st n = Ok (b, st') ∧ alloc_is st n b = Ok st' ∧ chk s0 st' bs' hid (seqZ b n ++ own) ∧
    nr_free st' = nr_free st - n.
Proof.
  intros Hc Hn Ha. pose proof (chk_alloc _ _ _ _ _ n Hc Hn) as H. rewrite Ha in H. destruct H as (st' & R & Hc').
  assert (alloc_some st n = Ok (b, st')) as R' by (unfold alloc_some; by rewrite R).
  exists st'. split; [exact R'|]. split; [|split; [exact Hc'|by eapply chk_nr_alloc]].
  unfold alloc_is. rewrite R'. cbn. by rewrite Z.eqb_refl.
Qed.

(** One page is released into the empty list and allocated again. *)
Lemma chk_again s0 st hid own p :
  chk s0 st [] hid (p :: own) →
  ∃ st1 st2, free_one st p = Ok st1 ∧ list_empty st1 EHead = Ok false ∧ alloc_is st1 1 p = Ok st2 ∧
    chk s0 st2 [] hid (p :: own) ∧ nr_free st2 = nr_free st.
Proof.
  intros Hc. destruct (chk_free_one _ _ _ _ _ _ Hc) as (st1 & R1 & C1 & N1). change (free_blocks p 1 []) with [(p, 1)] in C1.
  destruct (chk_alloc_some _ _ _ _ _ 1 p [] C1) as (st2 & _ & R2 & C2 & N2); [lia|done|].
  exists st1, st2. split; [done|]. split; [exact (chk_list_empty _ _ _ _ _ C1)|]. split; [done|]. split; [exact C2|lia].
Qed.

Lemma check_three_spec s0 st hid p0 p1 p2 :
  chk s0 st [] hid [p0; p1; p2] →
  ∃ q0 q1 q2 st', check_three st p0 p1 p2 = Ok (q0, q1, q2, st') ∧ chk s0 st' [] hid [q0; q1; q2].
Proof.
  intros C0. pose proof (chk_nr _ _ _ _ _ C0) as N0. change (zlen (pages_of [])) with 0 in N0.
  destruct (chk_free_one _ _ _ _ _ _ C0) as (st1 & R1 & C1 & N1).
  destruct (chk_free_one _ _ _ _ _ _ C1) as (st2 & R2 & C2 & N2).
  destruct (chk_free_one _ _ _ _ _ _ C2) as (st3 & R3 & C3 & N3).
  destruct (chk_alloc_one _ _ _ _ _ C3) as (q0 & st4 & b4 & R4 & C4 & N4); [lia|].
  destruct (chk_alloc_one _ _ _ _ _ C4) as (q1 & st5 & b5 & R5 & C5 & N5); [lia|].
  destruct (chk_alloc_one _ _ _ _ _ C5) as (q2 & st6 & b6 & R6 & C6 & N6); [lia|].
  assert (b6 = []) as -> by (eapply chk_empty; [exact C6|lia]).
  assert ([q2; q1; q0] ≡ₚ [q0; q1; q2]) as Hp by (symmetry; apply (Permutation_rev [q0; q1; q2])).
  pose proof (chk_perm _ _ _ _ _ _ Hp C6) as C7.
  destruct (chk_again _ _ _ _ _ C7) as (st7 & st8 & R7 & E7 & R8 & C8 & N8).
  exists q0, q1, q2, st8. split; [|exact C8]. unfold check_three.
  rewrite alloc_none_Ok by lia. cbn. rewrite R1. cbn. rewrite R2. cbn. rewrite R3. cbn.
  rewrite assert_true by lia. cbn. rewrite R4. cbn. rewrite R5. cbn. rewrite R6. cbn.
  rewrite alloc_none_Ok by lia. cbn. rewrite R7. cbn. rewrite E7. cbn. rewrite R8. cbn.
  rewrite alloc_none_Ok by lia. cbn. by rewrite assert_true by lia.
Qed.

Lemma assert_fresh_Ok s0 st bs hid own p :
  chk s0 st bs hid own → zlen K < 2 ^ 20 → p ∈ own → assert_fresh st p = Ok tt.
Proof.
  intros Hc HK Hp. destruct (chk_held _ _ _ _ _ _ Hc Hp) as [_ (pg & Hpg & Hr & _)].
  unfold assert_fresh. rewrite Hpg. cbn. rewrite Hr. cbn.
  assert (mgr_npage st = zlen K) as Hn.
  { cbn. rewrite npage_kept. by rewrite (chk_kept _ _ _ _ _ Hc). }
  cbn in Hn. pose proof (aget_range _ _ _ Hpg) as Hrg. rewrite page2pa_eq by lia. unfold PGSIZE.
  rewrite u32_small by lia. apply assert_true. lia.
Qed.

Lemma basic_check_spec s0 st bs :
  chk s0 st bs [] [] → zlen K < 2 ^ 20 → 3 ≤ nr_free st →
  ∃ st' bs', basic_check st = Ok st' ∧ chk s0 st' bs' [] [].
Proof.
  intros C0 HK Hn.
  destruct (chk_alloc_one _ _ _ _ _ C0) as (p0 & st1 & b1 & R1 & C1 & N1); [lia|].
  destruct (chk_alloc_one _ _ _ _ _ C1) as (p1 & st2 & b2 & R2 & C2 & N2); [lia|].
  destruct (chk_alloc_one _ _ _ _ _ C2) as (p2 & st3 & b3 & R3 & C3 & N3); [lia|].
  pose proof (chk_own_nodup _ _ _ _ _ C3) as Hnd. rewrite !NoDup_cons in Hnd.
  pose proof (λ p, assert_fresh_Ok _ _ _ _ _ p C3 HK) as Hf.
  destruct (chk_hide _ _ _ _ C3) as (st4 & R4 & N4 & _ & C4).
  assert ([p2; p1; p0] ≡ₚ [p0; p1; p2]) as Hp by (symmetry; apply (Permutation_rev [p0; p1; p2])).
  destruct (check_three_spec _ _ _ _ _ _ (chk_perm _ _ _ _ _ _ Hp C4)) as (q0 & q1 & q2 & st5 & R5 & C5).
  pose proof (chk_unhide _ s0 _ _ _ _ _ C3 C5) as C6. rewrite <-N4 in C6.
  destruct (chk_free_one _ _ _ _ _ _ C6) as (st7 & R7 & C7 & _).
  destruct (chk_free_one _ _ _ _ _ _ C7) as (st8 & R8 & C8 & _).
  destruct (chk_free_one _ _ _ _ _ _ C8) as (st9 & R9 & C9 & _).
  exists st9. eexists. split; [|exact C9]. unfold basic_check.
  rewrite R1. cbn. rewrite R2. cbn. rewrite R3. cbn.
  rewrite assert_true by (rewrite !andb_true_iff, !negb_true_iff, !Z.eqb_neq; set_solver). cbn.
  rewrite !Hf by set_solver. cbn. rewrite R4. cbn. rewrite R5. cbn. rewrite R7. cbn. by rewrite R8.
Qed.

(** *** The five pages of [default_check] *)

Lemma chk_free_some s0 st bs hid own own' b n bs' :
  chk s0 st bs hid own → own ≡ₚ seqZ b n ++ own' → 0 < n → free_blocks b n bs = bs' →
  ∃ st', mgr_free_pages st b n = Ok st' ∧ chk s0 st' bs' hid own' ∧ nr_free st' = nr_free st + n.
Proof.
  intros Hc Hp Hn <-. pose proof (chk_perm _ _ _ _ _ _ Hp Hc) as Hc1.
  destruct (chk_free s0 st bs hid own' b n Hc1 Hn) as (st' & R & Hc'). exists st'.
  split; [exact R|]. split; [exact Hc'|].
  rewrite (chk_nr _ _ _ _ _ Hc), (chk_nr _ _ _ _ _ Hc'), free_blocks_pages, zlen_app, zlen_seqZ; [lia..|].
  eapply Forall_impl; [by eapply chk_pos|cbn; lia].
Qed.

Lemma chk_block s0 st bs hid own b n :
  chk s0 st bs hid own → (b, n) ∈ bs → assert_block st b n = Ok tt.
Proof.
  intros [(_ & Hok & _) _ _ _ _] Hb.
  destruct (blocks_ok_head_lookup _ _ (b, n) Hok) as (r & f & Hd & _ & _ & Hf & _); [set_solver|].
  cbn in Hd. apply page_data_Ok in Hd as (pg & Hpg & [= -> -> ->]). unfold assert_block. rewrite Hpg. cbn.
  unfold PageProperty. rewrite Hf. cbn. by rewrite Z.eqb_refl.
Qed.

(** Computation of [alloc_blocks] and [free_blocks] on blocks at a symbolic
    page. *)
Ltac blocks := unfold free_blocks, alloc_blocks; cbn;
  repeat (match goal with
    | |- context [?a =? ?b] => destruct (Z.eqb_spec a b)
    | |- context [?a <=? ?b] => destruct (Z.leb_spec a b)
    | |- context [?a <? ?b] => destruct (Z.ltb_spec a b)
    end; try lia; cbn);
  repeat match goal with
    | |- Some _ = _ => f_equal | |- (_, _) = _ => f_equal | |- _ :: _ = _ => f_equal
    end; (reflexivity || lia).

Lemma check_five_blocks P :
  free_blocks P 1 [(P + 2, 3)] = [(P, 1); (P + 2, 3)] ∧
  free_blocks (P + 2) 3 [(P, 1)] = [(P, 1); (P + 2, 3)] ∧
  alloc_blocks 2 [(P, 1); (P + 2, 3)] = Some (P + 2, [(P + 4, 1); (P, 1)]) ∧
  free_blocks (P + 2) 2 [(P + 4, 1); (P, 1)] = [(P, 1); (P + 2, 3)] ∧
  free_blocks (P + 1) 1 [(P, 1); (P + 2, 3)] = [(P, 5)].
Proof. split_and!; blocks. Qed.

Lemma five_pages P :
  seqZ P 5 ≡ₚ seqZ (P + 2) 3 ++ seqZ P 2 ∧
  seqZ (P + 2) 3 ++ seqZ P 2 ≡ₚ seqZ P 1 ++ seqZ (P + 2) 3 ++ seqZ (P + 1) 1.
Proof.
  rewrite (seqZ_split P 2 5), (seqZ_split P 1 2) by lia. split; [apply (comm (++))|].
  rewrite Permutation_app_swap_app. done.
Qed.


Lemma check_five_spec s0 st hid P :
  chk s0 st [] hid (seqZ P 5) →
  ∃ st', check_five st P = Ok (P, st') ∧ chk s0 st' [] hid (seqZ P 5).
Proof.
  intros C0. pose proof (chk_nr _ _ _ _ _ C0) as N0. change (zlen (pages_of [])) with 0 in N0.
  destruct (five_pages P) as [P1 P2]. destruct (check_five_blocks P) as (B1 & B2 & B3 & B4 & B5).
  destruct (chk_free_some _ _ _ _ _ _ (P + 2) 3 [(P + 2, 3)] C0 P1) as (st1 & R1 & C1 & N1); [lia|done|].
  destruct (chk_alloc_some _ _ _ _ _ 3 (P + 2) [] C1) as (st2 & R2 & _ & C2 & N2); [lia|done|].
  destruct (chk_free_some _ _ _ _ _ _ P 1 [(P, 1)] C2 P2) as (st3 & R3 & C3 & N3); [lia|done|].
  destruct (chk_free_some _ _ _ _ _ _ (P + 2) 3 _ C3 (Permutation_refl _) ltac:(lia) B2) as (st4 & R4 & C4 & N4).
  destruct (chk_alloc_some _ _ _ _ _ 1 P [(P + 2, 3)] C4) as (st5 & _ & R5 & C5 & N5); [lia|done|].
  destruct (chk_free_some _ _ _ _ _ _ P 1 _ C5 (Permutation_refl _) ltac:(lia) B1) as (st6 & R6 & C6 & N6).
  destruct (chk_alloc_some _ _ _ _ _ 2 _ _ C6 ltac:(lia) B3) as (st7 & _ & R7 & C7 & N7).
  destruct (chk_free_some _ _ _ _ _ _ (P + 2) 2 _ C7 (Permutation_refl _) ltac:(lia) B4) as (st8 & R8 & C8 & N8).
  destruct (chk_free_some _ _ _ _ _ [] (P + 1) 1 _ C8 (Permutation_refl _) ltac:(lia) B5) as (st9 & R9 & C9 & N9).
  destruct (chk_alloc_some _ _ _ _ _ 5 P [] C9) as (st10 & R10 & _ & C10 & N10); [lia|done|].
  exists st10. split; [|by rewrite app_nil_r in C10]. unfold check_five, free_one.
  replace (P + 1 - 1) with P by lia. replace (P + 1 + 1) with (P + 2) by lia.
  rewrite R1. cbn. rewrite alloc_none_Ok by lia. cbn. rewrite (chk_block _ _ _ _ _ _ _ C1) by set_solver. cbn.
  rewrite R2. cbn. rewrite alloc_none_Ok by lia. cbn. rewrite assert_true by lia. cbn.
  rewrite R3. cbn. rewrite R4. cbn.
  rewrite !(chk_block _ _ _ _ _ _ _ C4) by set_solver. cbn. rewrite R5. cbn. rewrite R6. cbn. rewrite R7. cbn.
  rewrite R8. cbn. rewrite R9. cbn. rewrite R10. cbn. rewrite alloc_none_Ok by lia. cbn.
  by rewrite assert_true by lia.
Qed.

(** *** [basic_check] with fewer than three pages, and the two walks *)

Lemma alloc_some_fails st n : nr_free st < n → 0 < n → alloc_some st n = Err Panic.
Proof. intros Hn H0. unfold alloc_some. by rewrite alloc_too_many. Qed.

Lemma basic_check_few s0 st bs : chk s0 st bs [] [] → nr_free st < 3 → basic_check st = Err Panic.
Proof.
  intros C0 Hn. unfold basic_check. destruct (Z.lt_ge_cases (nr_free st) 1); [by rewrite alloc_some_fails|].
  destruct (chk_alloc_one _ _ _ _ _ C0) as (p0 & st1 & b1 & R1 & C1 & N1); [lia|]. rewrite R1. cbn.
  destruct (Z.lt_ge_cases (nr_free st1) 1); [by rewrite alloc_some_fails|].
  destruct (chk_alloc_one _ _ _ _ _ C1) as (p1 & st2 & b2 & R2 & C2 & N2); [lia|]. rewrite R2. cbn.
  by rewrite alloc_some_fails by lia.
Qed.

Lemma chk_unique s0 s1 st st1 bs bs1 own :
  chk s0 st bs [] own → chk s1 st1 bs1 [] own → bs1 ≡ₚ bs.
Proof.
  intros C0 C1. apply coalesced_unique.
  - exact (chk_coal _ _ _ _ _ C1).
  - exact (chk_coal _ _ _ _ _ C0).
  - by eapply chk_nodup.
  - by eapply chk_pos.
  - by eapply chk_pos.
  - pose proof (chk_all _ _ _ _ _ C0) as P0. pose proof (chk_all _ _ _ _ _ C1) as P1.
    rewrite <-P0, !app_nil_r in P1. by apply Permutation_app_inv_l in P1.
Qed.

End chk.

Section walks.
Context (st : pmm).

Lemma walk_step pre b post :
  dll st EHead (entries (pre ++ b :: post)) → blocks_ok (data st) (pre ++ b :: post) →
  list_next st (default EHead (last (entries pre))) = Ok (EPage b.1) ∧
  ∃ pg, page st b.1 = Ok pg ∧ property pg = b.2 ∧ PageProperty pg = true.
Proof.
  intros Hd Hok. split.
  - rewrite entries_app in Hd. by rewrite (dll_next_cut _ _ _ _ Hd).
  - destruct (blocks_ok_head_lookup _ _ b Hok) as (r & f & Hb & _ & _ & Hf & _); [set_solver|].
    apply page_data_Ok in Hb as (pg & Hpg & [= -> -> ->]). by exists pg.
Qed.

Lemma walk_end pre : dll st EHead (entries (pre ++ [])) →
  list_next st (default EHead (last (entries pre))) = Ok EHead.
Proof. intros Hd. rewrite entries_app in Hd. by rewrite (dll_next_cut _ _ _ _ Hd). Qed.

Lemma count_loop pre post fuel c t :
  dll st EHead (entries (pre ++ post)) → blocks_ok (data st) (pre ++ post) → (length post < fuel)%nat →
  0 ≤ c → c + zlen post < 2 ^ 31 → 0 ≤ t → t + zlen (pages_of post) < 2 ^ 31 →
  loop fuel (count_step st) (default EHead (last (entries pre)), c, t) =
    Ok (c + zlen post, t + zlen (pages_of post)).
Proof.
  revert pre fuel c t. induction post as [|b post IH]; intros pre fuel c t Hd Hok Hf Hc Hc' Ht Ht';
    (destruct fuel as [|fuel]; [cbn in Hf; lia|]); rewrite loop_unfold; unfold count_step at 2.
  - rewrite walk_end by done. cbn. unfold zlen. cbn. by rewrite !Z.add_0_r.
  - destruct (walk_step _ _ _ Hd Hok) as (-> & pg & Hp & Hs & Hb). cbn. rewrite Hp. cbn. rewrite Hb, Hs. cbn.
    pose proof (blocks_ok_bounds _ _ b Hok ltac:(set_solver)) as (Hpos & _).
    rewrite cons_middle, (assoc_L (++)) in Hd, Hok. rewrite pages_of_cons, zlen_app, zlen_seqZ in * by lia.
    rewrite zlen_cons in *. pose proof (zlen_nonneg post). pose proof (zlen_nonneg (pages_of post)).
    rewrite cint_Ok by (unfold int_min, int_max; lia). cbn. rewrite s32_small by (unfold int_min, int_max; lia).
    rewrite decide_False by done. cbn -[pages_of].
    specialize (IH (pre ++ [b]) fuel (c + 1) (t + b.2) Hd Hok). rewrite last_entries_snoc in IH. cbn in IH.
    rewrite IH by (cbn in Hf; lia). f_equal. unfold zlen, pages_of. f_equal; lia.
Qed.

Lemma uncount_loop pre post fuel c t :
  dll st EHead (entries (pre ++ post)) → blocks_ok (data st) (pre ++ post) → (length post < fuel)%nat →
  c < 2 ^ 31 → zlen post ≤ c → t < 2 ^ 31 → zlen (pages_of post) ≤ t →
  loop fuel (uncount_step st) (default EHead (last (entries pre)), c, t) =
    Ok (c - zlen post, t - zlen (pages_of post)).
Proof.
  revert pre fuel c t. induction post as [|b post IH]; intros pre fuel c t Hd Hok Hf Hc Hc' Ht Ht';
    (destruct fuel as [|fuel]; [cbn in Hf; lia|]); rewrite loop_unfold; unfold uncount_step at 2.
  - rewrite walk_end by done. cbn. unfold zlen. cbn. by rewrite !Z.sub_0_r.
  - destruct (walk_step _ _ _ Hd Hok) as (-> & pg & Hp & Hs & Hb). cbn. rewrite Hp. cbn. rewrite Hs. cbn.
    pose proof (blocks_ok_bounds _ _ b Hok ltac:(set_solver)) as (Hpos & _).
    rewrite cons_middle, (assoc_L (++)) in Hd, Hok. rewrite pages_of_cons, zlen_app, zlen_seqZ in * by lia.
    rewrite zlen_cons in *. pose proof (zlen_nonneg post). pose proof (zlen_nonneg (pages_of post)).
    rewrite cint_Ok by (unfold int_min, int_max; lia). cbn. rewrite s32_small by (unfold int_min, int_max; lia).
    rewrite decide_False by done. cbn -[pages_of].
    specialize (IH (pre ++ [b]) fuel (c - 1) (t - b.2) Hd Hok). rewrite last_entries_snoc in IH. cbn in IH.
    rewrite IH by (cbn in Hf; lia). f_equal. unfold zlen, pages_of. f_equal; lia.
Qed.

End walks.

(** ** The self-test *)

Lemma chk_start st bs :
  pmm_rep st bs → coalesced bs → unreferenced st bs →
  NoDup (pages_of bs) ∧ (∀ i, i ∈ pages_of bs → aget (kept (data st)) i = Ok (0, false)) ∧
  chk (pages_of bs) (kept (data st)) st st bs [] [].
Proof.
  intros Hrep Hc Hu. split; [exact (bok_nodup _ _ (proj1 (proj2 Hrep)))|]. split; [exact Hu|].
  split; [by apply pmm_rep_with_nil|done|by rewrite app_nil_r|done|done].
Qed.

Lemma walk_fuel_blocks st bs : blocks_ok (data st) bs → zlen (pages st) < 2 ^ 20 →
  (length bs < walk_fuel st)%nat ∧ zlen bs < 2 ^ 20 ∧ zlen (pages_of bs) < 2 ^ 20.
Proof.
  intros Hok Hn. split; [by apply walk_fuel_enough|].
  pose proof (blocks_ok_length _ _ Hok) as H1. pose proof (blocks_ok_npages _ _ Hok) as H2.
  unfold data in *. rewrite length_fmap in H1. rewrite zlen_fmap in H2. unfold zlen in *. lia.
Qed.

(** The first walk: every block is marked and the sizes add up to [nr_free]. *)
Lemma default_check_counts st bs :
  pmm_rep st bs → zlen (pages st) < 2 ^ 20 →
  loop (walk_fuel st) (count_step st) (EHead, 0, 0) = Ok (zlen bs, nr_free st) ∧ u32 (nr_free st) = nr_free st.
Proof.
  intros (Hd & Hok & Hnr) Hn. destruct (walk_fuel_blocks _ _ Hok Hn) as (Hf & Hb & Hp).
  pose proof (zlen_nonneg bs). pose proof (zlen_nonneg (pages_of bs)). split; [|apply u32_small; lia].
  rewrite Hnr. apply (count_loop st [] bs (walk_fuel st) 0 0); [done|done|exact Hf|lia..].
Qed.

Lemma default_check_uncounts st bs bs0 :
  pmm_rep st bs → zlen (pages st) < 2 ^ 20 → bs ≡ₚ bs0 →
  loop (walk_fuel st) (uncount_step st) (EHead, zlen bs0, zlen (pages_of bs0)) = Ok (0, 0).
Proof.
  intros (Hd & Hok & Hnr) Hn Hp. destruct (walk_fuel_blocks _ _ Hok Hn) as (Hf & Hb & Hg).
  pose proof (uncount_loop st [] bs (walk_fuel st) (zlen bs) (zlen (pages_of bs)) Hd Hok Hf) as H.
  rewrite !Z.sub_diag in H. rewrite <-Hp. replace (zlen bs0) with (zlen bs); [apply H; lia|].
  unfold zlen. by rewrite Hp.
Qed.

Lemma chk_npage U K s0 st bs hid own : chk U K s0 st bs hid own → zlen (pages st) = zlen K.
Proof. intros [_ _ _ Hk _]. by rewrite npage_kept, Hk. Qed.

Lemma no_large_block n bs : Forall (λ b, b.2 < n) bs → alloc_blocks n bs = None.
Proof. intros H. unfold alloc_blocks. by rewrite (proj2 (first_fit_None n bs) H). Qed.

(** [default_check] after [basic_check], when a block of five pages is left. *)
Lemma default_check_rest U K s0 st bs c :
  NoDup U → (∀ i, i ∈ U → aget K i = Ok (0, false)) → zlen K < 2 ^ 20 →
  chk U K s0 st bs [] [] → alloc_blocks 5 bs = Some c →
  ∃ p0 st1 st2 st3 st4 st5, alloc_some st 5 = Ok (p0, st1) ∧
    (∃ pg, page st1 p0 = Ok pg ∧ PageProperty pg = false) ∧
    empty_list st1 = Ok st2 ∧ alloc_none st2 1 = Ok st2 ∧ nr_free st2 = nr_free st1 ∧
    check_five (set_nr_free st2 0) p0 = Ok (p0, st3) ∧
    set_free_list (set_nr_free st3 (nr_free st2)) (free_list st1) = st4 ∧
    mgr_free_pages st4 p0 5 = Ok st5 ∧ ∃ bs', chk U K s0 st5 bs' [] [].
Proof.
  intros Hnd Href HK C0 Ha. destruct c as [p0 b1].
  destruct (chk_alloc_some U K Hnd _ _ _ _ _ 5 p0 b1 C0) as (st1 & R1 & _ & C1 & N1); [lia|done|].
  assert (p0 ∈ seqZ p0 5 ++ []) as Hin by (rewrite app_nil_r; apply elem_of_seqZ; lia).
  destruct (chk_held U K Hnd Href _ _ _ _ _ _ C1 Hin) as (_ & pg & Hpg & _ & Hf).
  destruct (chk_hide U K _ _ _ _ C1) as (st2 & R2 & N2 & A2 & C2). rewrite app_nil_r in C2.
  destruct (check_five_spec U K Hnd Href _ _ _ _ C2) as (st3 & R3 & C3).
  rewrite <-(app_nil_r (seqZ p0 5)) in C3.
  pose proof (chk_unhide U K _ s0 _ _ _ _ _ C1 C3) as C4.
  destruct (chk_free U K Hnd Href _ _ _ _ _ _ _ C4) as (st5 & R5 & C5); [lia|].
  exists p0, st1, st2, st3. eexists. exists st5. rewrite N2. split_and!; try done; [by exists pg|].
  by eexists.
Qed.

Lemma default_check_spec st bs :
  pmm_rep st bs → coalesced bs → unreferenced st bs → zlen (pages st) < 2 ^ 20 →
  if existsb (λ b, 5 <=? b.2) bs
  then ∃ st' bs', default_check st = Ok st' ∧ pmm_rep st' bs' ∧ bs' ≡ₚ bs ∧
    nr_free st' = nr_free st ∧ kept (data st') = kept (data st)
  else default_check st = Err Panic.
Proof.
  intros Hrep Hc Hu Hnp. destruct (default_check_counts st bs Hrep Hnp) as [L1 E1].
  destruct (chk_start _ _ Hrep Hc Hu) as (Hnd & Href & C0).
  set (U := pages_of bs) in *. set (K := kept (data st)) in *.
  assert (zlen K < 2 ^ 20) as HK by (unfold K; by rewrite <-npage_kept).
  unfold default_check. rewrite L1. cbn. unfold default_nr_free_pages. rewrite E1, Z.eqb_refl. cbn.
  destruct (Z.lt_ge_cases (nr_free st) 3) as [Hlt|Hge].
  { rewrite (basic_check_few U K Hnd _ _ _ C0 Hlt). destruct (existsb _ bs) eqn:E; [exfalso|done].
    apply existsb_exists in E as (b & Hb%list_elem_of_In & H5%Z.leb_le).
    pose proof (pages_of_size b bs Hb (chk_pos U K _ _ _ _ _ C0)). rewrite (chk_nr U K _ _ _ _ _ C0) in Hlt. lia. }
  destruct (basic_check_spec U K Hnd Href _ _ _ C0 HK Hge) as (st1 & b1 & R1 & C1). rewrite R1. cbn.
  pose proof (chk_unique U K Hnd _ _ _ _ _ _ _ C0 C1) as Hp1.
  destruct (existsb _ bs) eqn:E.
  - apply existsb_exists in E as (b & Hb%list_elem_of_In & H5%Z.leb_le).
    destruct (alloc_blocks 5 b1) as [c|] eqn:Ha.
    2:{ exfalso. unfold alloc_blocks in Ha. destruct (first_fit 5 b1) as [[? ?]|] eqn:Ff; [done|].
      apply first_fit_None in Ff. rewrite Forall_forall in Ff. rewrite <-Hp1 in Hb. specialize (Ff b Hb). lia. }
    destruct (default_check_rest U K _ _ _ _ Hnd Href HK C1 Ha)
      as (p0 & s1 & s2 & s3 & s4 & s5 & A1 & (pg & Hpg & Hpp) & A2 & A3 & N2 & A4 & A5 & A6 & b5 & C5).
    pose proof (chk_unique U K Hnd _ _ _ _ _ _ _ C0 C5) as Hp5.
    pose proof (chk_rep _ _ _ _ _ _ _ C5) as Hrep5%pmm_rep_with_nil.
    exists s5, b5. rewrite A1. cbn. rewrite Hpg. cbn. rewrite Hpp. cbn. rewrite A2. cbn. rewrite A3. cbn. rewrite A4. cbn.
    rewrite A5, A6. cbn. rewrite (chk_nr U K _ _ _ _ _ C0), (default_check_uncounts s5 b5 bs Hrep5); [|by rewrite (chk_npage _ _ _ _ _ _ _ C5)|done].
    split_and!; [done|done|done| |exact (chk_kept _ _ _ _ _ _ _ C5)].
    rewrite (chk_nr U K _ _ _ _ _ C5). by rewrite Hp5.
  - assert (alloc_blocks 5 b1 = None) as Ha.
    { apply no_large_block, Forall_forall. intros b Hb. apply Z.nle_gt. intros H5. rewrite Hp1 in Hb.
      apply not_true_iff_false in E. apply E, existsb_exists. exists b. split; [by apply list_elem_of_In|by apply Z.leb_le]. }
    pose proof (chk_alloc U K Hnd _ _ _ _ _ 5 C1 ltac:(lia)) as A. rewrite Ha in A.
    unfold alloc_some. by rewrite A.
Qed.


(** The allocator passes its own self-test, and the test leaves no trace:
    from every state that represents coalesced blocks of unreferenced pages,
    [default_check] succeeds exactly when a block of five pages is free, and
    then the free blocks (up to their order in the list), the counter and all
    reference counts and reserved bits are what they were - although the test
    empties the list twice while the rest of the memory stays linked behind it.
    Without such a block an assertion of the test fails. *)
Theorem default_check_restores st bs :
  pmm_rep st bs → coalesced bs → unreferenced st bs → zlen (pages st) < 2 ^ 20 →
  if existsb (λ b, 5 <=? b.2) bs
  then ∃ st' bs', default_check st = Ok st' ∧ pmm_rep st' bs' ∧ bs' ≡ₚ bs ∧
    nr_free st' = nr_free st ∧ kept (data st') = kept (data st)
  else default_check st = Err Panic.
Proof. apply default_check_spec. Qed.

(** ** Concrete memories *)

Definition two_regions (n : nat) (b k c m : Z) : outcome pmm :=
  st ← default_init (reserved_pages n);
  st ← default_init_memmap st b k;
  default_init_memmap st c m.

(** Ten pages, of which two and five are free. *)
Definition demo10 : pmm := match two_regions 10 1 2 4 5 with Ok st => st | Err _ => reserved_pages 10 end.

Lemma demo10_rep : pmm_rep demo10 [(1, 2); (4, 5)].
Proof.
  destruct (default_init_spec (reserved_pages 10)) as (st1 & R1 & H1 & _); [by vm_compute| |].
  { intros i pg Hp. apply negb_true_iff. revert i pg Hp. by apply (page_dec _ (λ _ pg, negb (PageProperty pg))). }
  vm_compute in R1. injection R1 as <-.
  destruct (default_init_memmap_spec _ _ 1 2 H1) as (st2 & R2 & H2 & _); [done|by apply page_range_dec|].
  vm_compute in R2. injection R2 as <-.
  destruct (default_init_memmap_spec _ _ 4 5 H2) as (st3 & R3 & H3 & _); [done|by apply page_range_dec|].
  vm_compute in R3. injection R3 as <-. exact H3.
Qed.

Lemma default_check_restores_witness :
  ∃ st' bs', default_check demo10 = Ok st' ∧ pmm_rep st' bs' ∧ bs' ≡ₚ [(1, 2); (4, 5)] ∧ nr_free st' = 7.
Proof.
  pose proof (default_check_restores demo10 [(1, 2); (4, 5)]) as H.
  destruct H as (st' & bs' & R & Hrep & Hp & Hn & _).
  - exact demo10_rep.
  - intros b b'. rewrite !elem_of_cons, !elem_of_nil. intros [->|[->|[]]] [->|[->|[]]]; done.
  - unfold unreferenced. apply Forall_forall. vm_compute. repeat constructor.
  - by vm_compute.
  - exists st', bs'. split; [exact R|]. split; [exact Hrep|]. split; [exact Hp|]. rewrite Hn. by vm_compute.
Defined.

(** [default_init_memmap] does not merge: two regions that meet stay two blocks,
    until [default_free_pages] joins them.  The test then counts one block less
    than before and fails, although all pages are there. *)
Lemma adjacent_regions_fail :
  ∃ st, two_regions 10 1 2 3 6 = Ok st ∧ default_check st = Err Panic ∧
    two_regions 10 1 2 4 5 = Ok demo10 ∧ is_ok (default_check demo10).
Proof. eexists. split; [by vm_compute|]. split; [by vm_compute|]. split; [by vm_compute|]. eexists. by vm_compute. Qed.
