(* ===== verification/PageTableProps.v ===== *)
(** * What page_insert, page_remove and boot_map_segment guarantee

    The theorems on PageTable.v, for every manager with the laws of
    PmmManager.v, and concrete machines with the first-fit allocator. *)

From stdpp Require Import base gmap list numbers relations.
From S2P Require Import Prelude ListH DefaultPmm PmmManager DefaultPmmManager Mmu PageTable.

(** [C15] In every state the kernel can reach by mapping new pages, mapping
    pages again and unmapping pages at user addresses and by translating
    addresses, every further call returns without a panic or an undefined
    access, a page mapped for the user was allocated and is not free, its
    reference count is the number of user addresses mapped to it, and the TLB of
    the current directory holds only entries that are in the page table. *)
Theorem pt_steps_safe {M} `{PmmManagerLaws M} pgdir (s0 s : vm M) :
  pt_safe pgdir s0 → rtc (pt_step pgdir) s0 s →
  ∃ own, mgr_inv (phys s) own ∧
    (∀ la pte, 0 ≤ la < KERNBASE → walk (words s) pgdir la = Some pte →
       PPN pte ∈ own ∧ page_ref s (PPN pte) = Ok (count (words s) pgdir (PPN pte)) ∧
       1 ≤ count (words s) pgdir (PPN pte)) ∧
    (cr3 s = pgdir - KERNBASE → ∀ v pte, PDX (v * 4096) ≠ PDX VPT →
       tlb s !! v = Some pte → walk (words s) pgdir (v * 4096) = Some pte) ∧
    (∀ la la' perm, 0 ≤ la < KERNBASE → 0 ≤ la' < KERNBASE → 0 ≤ perm < 4096 →
       is_ok (map_new s pgdir la perm) ∧ is_ok (map_again s pgdir la la' perm) ∧ is_ok (page_remove s pgdir la)).
Proof.
  intros Hs0 Hst. assert (pt_safe pgdir s) as Hs.
  { revert Hs0. induction Hst as [s|s1 s2 s3 Hs12 _ IH]; [done|]. intros Hs. by apply IH, (pt_step_safe pgdir s1). }
  pose proof Hs as [own Hi]. pose proof Hi as [Hb Hleaf _ Href Htlb]. exists own.
  split; [apply Hb|]. split; [|split].
  - intros la pte Hla Hw. destruct (Hleaf la pte Hla Hw) as [Ho Hnt]. split; [done|].
    destruct (base_own _ _ _ _ Hb Ho). rewrite Href by done. unfold no_extra. rewrite Z.add_0_r.
    split; [done|by eapply count_pos].
  - intros E v pte Hv0 Hv. by apply Htlb.
  - intros la la' perm Hla Hla' Hperm.
    destruct (map_new_spec s pgdir la perm Hs Hla Hperm) as (? & -> & _).
    destruct (map_again_spec s pgdir la la' perm Hs Hla Hla' Hperm) as (? & -> & _).
    destruct (page_remove_spec s own pgdir la Hi Hla) as (? & ? & -> & _).
    split; [apply is_ok_Ok|]. split; apply is_ok_Ok.
Qed.

(** [C16] [page_insert] maps the page of [la] to [page] with the given
    permissions and no other address; a page that was mapped there before loses
    that reference (and is given back with the last one); without memory for a
    page table it returns -E_NO_MEM and changes nothing.  (The comment above the
    function says that it always returns 0.) *)
Theorem page_insert_maps {M} `{PmmManagerLaws M} (s : vm M) own pgdir page la perm :
  pt_inv s own pgdir no_extra → page ∈ own → ¬ is_table (words s) pgdir page →
  0 ≤ la < KERNBASE → 0 ≤ perm < 4096 →
  page_insert s pgdir page la perm = Ok (- E_NO_MEM, s) ∧ walk (words s) pgdir la = None ∨
  ∃ s' own' pte, page_insert s pgdir page la perm = Ok (0, s') ∧ pt_inv s' own' pgdir no_extra ∧
    present pte = true ∧ PPN pte = page ∧ pte mod 4096 = Z.lor PTE_P perm ∧ iflag s' = iflag s ∧
    ∀ la', regular la' →
      walk (words s') pgdir la' = if decide (PPN la' = PPN la) then Some pte else walk (words s) pgdir la'.
Proof.
  intros Hi Hp Hnt Hla Hperm.
  destruct (page_insert_spec s own pgdir page la perm Hi Hp Hnt Hla Hperm) as [(R & Hnone & _)|(s' & _ & own' & _ & R & Hfr & Hi' & _ & _ & _ & _ & Hw)];
    [left; by rewrite walk_pages, Hnone|right].
  destruct (base_own _ _ _ _ (pi_base _ _ _ _ Hi) Hp) as [Hpn _].
  assert (0 ≤ page < 2 ^ 20) as Hpb by (pose proof (np_bound _ _ _ _ _ (pb_struct _ _ _ (pi_base _ _ _ _ Hi)) Hpn); lia).
  destruct (entry_bits page perm Hpb Hperm) as (_ & Hpres & Hppn & Hmod).
  rewrite <-page2pa_eq in Hpres, Hppn, Hmod by done. eexists s', own', _. split_and!; done || apply Hfr.
Qed.

(** [page_remove] unmaps the page of [la] and no other address, takes one
    reference from the page that was mapped there, and gives the page back to
    the allocator exactly when that was the last reference. *)
Theorem page_remove_unmaps {M} `{PmmManagerLaws M} (s : vm M) own pgdir la :
  pt_inv s own pgdir no_extra → 0 ≤ la < KERNBASE →
  ∃ s' own', page_remove s pgdir la = Ok s' ∧ pt_inv s' own' pgdir no_extra ∧ iflag s' = iflag s ∧
    (∀ la', regular la' →
       walk (words s') pgdir la' = if decide (PPN la' = PPN la) then None else walk (words s) pgdir la') ∧
    (walk (words s) pgdir la = None → s' = s) ∧
    (∀ pte, walk (words s) pgdir la = Some pte →
       count (words s') pgdir (PPN pte) = count (words s) pgdir (PPN pte) - 1 ∧
       own ≡ₚ (if decide (count (words s) pgdir (PPN pte) = 1) then PPN pte :: own' else own')).
Proof.
  intros Hi Hla. destruct (page_remove_spec s own pgdir la Hi Hla) as (s' & own' & R & Hfr & Hi' & Hw & _ & _ & Hown).
  exists s', own'. split_and!; try done; [apply Hfr|by intros E; rewrite E in Hown; destruct Hown|].
  intros pte E. rewrite E in Hown. split; [|done]. rewrite (count_update (words s) (words s') pgdir la _ Hla).
  - rewrite E, Hw, decide_True by (done || by apply user_reg). cbn [fmap option_fmap option_map].
    rewrite is_page_eq, is_page_None. lia.
  - intros la' Hla' Hne. by rewrite Hw, decide_False by (done || by apply user_reg).
Qed.

(** [boot_map_segment] maps exactly the pages that the range [la, la+size)
    touches, linearly to the physical pages from [pa] on, and leaves all other
    addresses alone; when the pages for the page tables run out it panics. *)
Theorem boot_map_segment_maps {M} `{PmmManagerLaws M} (s : vm M) own pgdir la size pa perm :
  pt_base s own pgdir → 0 ≤ perm < 4096 → 0 < size → 0 ≤ la → 0 ≤ pa → la mod 4096 = pa mod 4096 →
  la + size + 4095 < VPT → pa + size + 4095 < 2 ^ 32 →
  boot_map_segment s pgdir la size pa perm = Err Panic ∨
  ∃ s' own', boot_map_segment s pgdir la size pa perm = Ok s' ∧ pt_base s' own' pgdir ∧
    ∀ la', regular la' → walk (words s') pgdir la' =
      if decide (PPN la ≤ PPN la' ≤ PPN (la + size - 1))
      then Some (Z.lor (Z.lor ((PPN la' - PPN la + PPN pa) * 4096) PTE_P) perm)
      else walk (words s) pgdir la'.
Proof.
  intros Hb Hperm Hsz Hla Hpa Hoff Hlan Hpan.
  destruct (boot_map_segment_spec s own pgdir la size pa perm) as [?|(s' & own' & R & _ & Hb' & Hw)]; try done;
    [by left|right; by exists s', own'].
Qed.

(** ** A concrete machine

    Eight pages of physical memory; page 0 holds the directory as the kernel has
    it when [pmm_init] sets up the paging: the table in page 3 maps the physical
    memory at KERNBASE, and at VPT the directory maps itself.  Pages 4 to 6 have
    been allocated. *)

Definition page_addrs (np : Z) : list Z := p ← seqZ 0 np; waddr p <$> seqZ 0 1024.

Definition zero_words (np : Z) : gmap Z Z := list_to_map ((λ a, (a, 0)) <$> page_addrs np).

Lemma zero_words_val np a v : zero_words np !! a = Some v → v = 0.
Proof. intros Hv%elem_of_list_to_map_2. by apply list_elem_of_fmap in Hv as (? & [= _ ->] & _). Qed.

Lemma zero_words_lookup np p i : 0 ≤ p < np → 0 ≤ i < 1024 → zero_words np !! waddr p i = Some 0.
Proof.
  intros Hp Hi. destruct (zero_words np !! waddr p i) as [v|] eqn:E; [f_equal; by eapply zero_words_val|].
  exfalso. apply not_elem_of_list_to_map_2 in E. apply E. rewrite <-list_fmap_compose. apply list_elem_of_fmap.
  exists (waddr p i). split; [done|]. apply list_elem_of_bind. exists p. split; [|apply elem_of_seqZ; lia].
  apply list_elem_of_fmap. exists i. split; [done|apply elem_of_seqZ; lia].
Qed.

#[global] Opaque page_addrs zero_words.

(** The table maps [n] pages of memory; at VPT there is nothing yet. *)
Definition table_words (n : Z) (w : gmap Z Z) : gmap Z Z :=
  foldr (λ i w, <[waddr 3 i := i * 4096 + 3]> w) w (seqZ 0 n).
Definition boot_words (n : Z) : gmap Z Z := <[waddr 0 768 := 3 * 4096 + 7]> (table_words n (zero_words n)).
Definition kernel_words : gmap Z Z := <[waddr 0 1003 := 0 * 4096 + 3]> (boot_words 8).

Definition vm_w : vm pmm := Vm kernel_words demo_held 8 0 ∅ true.

(** Every word of the memory is mapped. *)
Definition words_ok (w : gmap Z Z) (np : Z) : Prop :=
  ∀ p i, 0 ≤ p < np → 0 ≤ i < 1024 → ∃ v, w !! waddr p i = Some v ∧ 0 ≤ v < 2 ^ 32.

Lemma words_ok_insert w np a v : words_ok w np → 0 ≤ v < 2 ^ 32 → words_ok (<[a := v]> w) np.
Proof.
  intros Hw Hv p i Hp Hi. destruct (decide (a = waddr p i)) as [->|Hne]; [exists v; by rewrite lookup_insert_eq|].
  rewrite lookup_insert_ne by done. by apply Hw.
Qed.

Lemma boot_words_ok n : 0 ≤ n ≤ 1024 → words_ok (boot_words n) n.
Proof.
  intros Hn. apply words_ok_insert; [|lia]. unfold table_words. assert (Forall (λ i, 0 ≤ i < 1024) (seqZ 0 n)) as HF
    by (apply Forall_forall; intros i Hi%elem_of_seqZ; lia). revert HF. generalize (seqZ 0 n) as l.
  induction l as [|i l IH]; cbn; [|intros [Hi Hl]%Forall_cons; apply words_ok_insert; [by apply IH|lia]].
  intros _ p i Hp Hi. exists 0. by rewrite zero_words_lookup.
Qed.

Lemma table_words_lookup n k p i : 0 ≤ n ≤ 1024 → 0 ≤ p < k → 0 ≤ i < 1024 →
  table_words n (zero_words k) !! waddr p i = Some (if decide (p = 3 ∧ i < n) then i * 4096 + 3 else 0).
Proof.
  intros Hn Hp Hi. unfold table_words.
  assert (∀ l, foldr (λ i w, <[waddr 3 i := i * 4096 + 3]> w) (zero_words k) l !! waddr p i =
    Some (if decide (p = 3 ∧ i ∈ l) then i * 4096 + 3 else 0) ∨ ¬ Forall (λ j, 0 ≤ j < 1024) l) as Hl.
  { induction l as [|j l IH]; cbn [foldr].
    - left. rewrite zero_words_lookup by done. rewrite decide_False; [done|]. intros [_ E]. by apply elem_of_nil in E.
    - destruct IH as [IH|IH]; [|right; by intros [_ ?]%Forall_cons].
      destruct (decide (0 ≤ j < 1024)) as [Hj|]; [left|right; by intros [? _]%Forall_cons].
      destruct (decide (p = 3 ∧ i = j)) as [[-> ->]|Hne].
      + rewrite lookup_insert_eq, decide_True; [done|]. split; [done|by left].
      + rewrite lookup_insert_ne, IH by (intros [E1 E2]%waddr_inj; [apply Hne; by rewrite E1, E2|done|done]). f_equal.
        case_decide as E1; case_decide as E2; try done; exfalso; destruct E1 as [-> E1] || destruct E2 as [-> E2];
          [apply E2; split; [done|by right]|]. apply elem_of_cons in E2 as [->|E2]; tauto. }
  destruct (Hl (seqZ 0 n)) as [->|[]]; [|apply Forall_forall; intros j Hj%elem_of_seqZ; lia].
  assert (i ∈ seqZ 0 n ↔ i < n) as Hiff by (rewrite elem_of_seqZ; lia).
  f_equal. apply decide_ext. by rewrite Hiff.
Qed.

Lemma boot_words_dir n d : 0 < n ≤ 1024 → 0 ≤ d < 1024 →
  boot_words n !! waddr 0 d = Some (if decide (d = 768) then 3 * 4096 + 7 else 0).
Proof.
  intros Hn Hd. unfold boot_words. case_decide as E; [subst; by rewrite lookup_insert_eq|].
  rewrite lookup_insert_ne by (intros [_ ?]%waddr_inj; lia). rewrite table_words_lookup by lia.
  by rewrite decide_False by lia.
Qed.

Lemma boot_words_table n i : 3 < n ≤ 1024 → 0 ≤ i < 1024 →
  boot_words n !! waddr 3 i = Some (if decide (i < n) then i * 4096 + 3 else 0).
Proof.
  intros Hn Hi. unfold boot_words. rewrite lookup_insert_ne by (intros [? _]%waddr_inj; done || lia).
  rewrite table_words_lookup by lia. f_equal. apply decide_ext. tauto.
Qed.

#[global] Opaque table_words boot_words.

Lemma vm_w_pde d : 0 ≤ d < 1024 →
  pde_page (words vm_w) (waddr 0 0) d = if decide (d = 1003) then Some 0 else if decide (d = 768) then Some 3 else None.
Proof.
  intros Hd. unfold pde_page. rewrite waddr_pgdir. cbn [words vm_w]. unfold kernel_words.
  case_decide as E1; [subst; by rewrite lookup_insert_eq|].
  rewrite lookup_insert_ne by (intros [_ ?]%waddr_inj; lia). rewrite boot_words_dir by lia. by case_decide.
Qed.

Lemma vm_w_table d t : dir d → pde_page (words vm_w) (waddr 0 0) d = Some t → d = 768 ∧ t = 3.
Proof.
  intros [Hd Hv]. change (PDX VPT) with 1003 in Hv. rewrite vm_w_pde by done. rewrite decide_False by done.
  by case_decide as E; [intros [= <-]|].
Qed.

Lemma vm_w_walk la : 0 ≤ la < KERNBASE → walk (words vm_w) (waddr 0 0) la = None.
Proof.
  intros Hla. rewrite walk_pages, vm_w_pde by apply PDX_range.
  assert (PDX la < 768) as Hd.
  { rewrite PDX_small by (by apply user_32). apply Z.div_lt_upper_bound; unfold KERNBASE in Hla; lia. }
  by rewrite !decide_False by lia.
Qed.

Lemma vm_w_mgr : mgr_inv demo_held [4; 5; 6].
Proof.
  change (pmm_inv demo_held (seqZ 4 3 ++ [])).
  apply (pmm_inv_alloc demo [] 3 (Some 4)); [|done|by vm_compute].
  exists demo_blocks. split; [exact demo_rep|]. split; [|split; [constructor|]].
  - intros b b' Hb Hb'. repeat (apply elem_of_cons in Hb as [->|Hb]; [|]); try (by apply elem_of_nil in Hb);
      repeat (apply elem_of_cons in Hb' as [->|Hb']; [done|]); by apply elem_of_nil in Hb'.
  - intros i Hi. by apply elem_of_nil in Hi.
Qed.

Lemma demo_held_refs p : 0 ≤ p < 8 → mgr_ref demo_held p = Ok 0.
Proof.
  intros Hp. assert (p ∈ seqZ 0 8) as Hin by (apply elem_of_seqZ; lia). clear Hp. revert p Hin.
  apply Forall_forall. vm_compute. by repeat constructor.
Qed.

Lemma vm_w_own p : p ∈ [4; 5; 6] → 4 ≤ p < 7.
Proof. intros Hp. repeat (apply elem_of_cons in Hp as [->|Hp]; [lia|]). by apply elem_of_nil in Hp. Qed.

Lemma vm_w_kpages : kpages vm_w (waddr 0 0) = [3].
Proof. by vm_compute. Qed.

Lemma vm_w_base : pt_base vm_w [4; 5; 6] (waddr 0 0).
Proof.
  split; [rewrite vm_w_kpages|exact vm_w_mgr|reflexivity|by vm_compute].
  cbn [npage vm_w app]. split.
  - by vm_compute.
  - intros p [->|Hp%vm_w_own]%elem_of_cons; lia.
  - exists 0. split; [done|]. split; [lia|]. intros [?|Hp%vm_w_own]%elem_of_cons; lia.
  - apply words_ok_insert; [by apply boot_words_ok|lia].
  - intros d t Hd [_ ->]%vm_w_table; [by left|done].
  - intros d d' t Hd Hd' [-> _]%vm_w_table [-> _]%vm_w_table; done.
Qed.

Lemma vm_w_is_table p : is_table (words vm_w) (waddr 0 0) p → p = 3.
Proof. intros (d & Hd & Hp). by eapply vm_w_table. Qed.

Lemma vm_w_no_table p : p ∈ [4; 5; 6] → ¬ is_table (words vm_w) (waddr 0 0) p.
Proof. intros Hp%vm_w_own ->%vm_w_is_table. lia. Qed.

Lemma vm_w_inv : pt_inv vm_w [4; 5; 6] (waddr 0 0) no_extra.
Proof.
  split; [exact vm_w_base| | | |].
  - intros la pte Hla. by rewrite vm_w_walk.
  - intros p Hp Ht. by destruct (vm_w_no_table p Hp).
  - intros p Hp _ _. rewrite count_zero by (intros la pte Hla; by rewrite vm_w_walk).
    unfold no_extra. exact (demo_held_refs p Hp).
  - intros _ v pte _ Hv. exfalso. cbn [tlb vm_w] in Hv. rewrite lookup_empty in Hv. discriminate Hv.
Qed.

Lemma page_insert_maps_witness :
  page_insert vm_w (waddr 0 0) 4 0x1000 PTE_W = Ok (- E_NO_MEM, vm_w) ∧ walk (words vm_w) (waddr 0 0) 0x1000 = None ∨
  ∃ s' own' pte, page_insert vm_w (waddr 0 0) 4 0x1000 PTE_W = Ok (0, s') ∧ pt_inv s' own' (waddr 0 0) no_extra ∧
    present pte = true ∧ PPN pte = 4 ∧ pte mod 4096 = Z.lor PTE_P PTE_W ∧ iflag s' = true ∧
    ∀ la', regular la' →
      walk (words s') (waddr 0 0) la' =
        if decide (PPN la' = PPN 0x1000) then Some pte else walk (words vm_w) (waddr 0 0) la'.
Proof.
  apply (page_insert_maps vm_w [4; 5; 6] (waddr 0 0) 4 0x1000 PTE_W vm_w_inv).
  - by left.
  - apply vm_w_no_table. by left.
  - unfold KERNBASE. lia.
  - unfold PTE_W. lia.
Defined.

(** The machine after page 4 has been mapped at 0x1000 and 0x5000. *)
Definition vm_run : outcome (vm pmm) :=
  r ← page_insert vm_w (waddr 0 0) 4 0x1000 PTE_W;
  r ← page_insert r.2 (waddr 0 0) 4 0x5000 PTE_U; Ok r.2.

Lemma pt_steps_safe_witness :
  ∃ own, mgr_inv (phys vm_w) own ∧
    (∀ la pte, 0 ≤ la < KERNBASE → walk (words vm_w) (waddr 0 0) la = Some pte →
       PPN pte ∈ own ∧ page_ref vm_w (PPN pte) = Ok (count (words vm_w) (waddr 0 0) (PPN pte)) ∧
       1 ≤ count (words vm_w) (waddr 0 0) (PPN pte)) ∧
    (cr3 vm_w = waddr 0 0 - KERNBASE → ∀ v pte, PDX (v * 4096) ≠ PDX VPT → tlb vm_w !! v = Some pte →
       walk (words vm_w) (waddr 0 0) (v * 4096) = Some pte) ∧
    (∀ la la' perm, 0 ≤ la < KERNBASE → 0 ≤ la' < KERNBASE → 0 ≤ perm < 4096 →
       is_ok (map_new vm_w (waddr 0 0) la perm) ∧ is_ok (map_again vm_w (waddr 0 0) la la' perm) ∧
       is_ok (page_remove vm_w (waddr 0 0) la)).
Proof.
  apply (pt_steps_safe (waddr 0 0) vm_w vm_w); [exists [4; 5; 6]; exact vm_w_inv|apply rtc_refl].
Defined.

Lemma page_remove_unmaps_witness :
  ∃ (s' : vm pmm) (own' : list Z), page_remove vm_w (waddr 0 0) 0x1000 = Ok s' ∧ pt_inv s' own' (waddr 0 0) no_extra ∧ iflag s' = iflag vm_w ∧
    (∀ la', regular la' → walk (words s') (waddr 0 0) la' =
       if decide (PPN la' = PPN 0x1000) then None else walk (words vm_w) (waddr 0 0) la') ∧
    (walk (words vm_w) (waddr 0 0) 0x1000 = None → s' = vm_w) ∧
    (∀ pte, walk (words vm_w) (waddr 0 0) 0x1000 = Some pte →
       count (words s') (waddr 0 0) (PPN pte) = count (words vm_w) (waddr 0 0) (PPN pte) - 1 ∧
       [4; 5; 6] ≡ₚ (if decide (count (words vm_w) (waddr 0 0) (PPN pte) = 1) then PPN pte :: own' else own')).
Proof. refine (page_remove_unmaps vm_w [4; 5; 6] (waddr 0 0) 0x1000 vm_w_inv _). by split. Defined.

Lemma boot_map_segment_maps_witness :
  boot_map_segment vm_w (waddr 0 0) KERNBASE 0x8000 0 PTE_W = Err Panic ∨
  ∃ s' own', boot_map_segment vm_w (waddr 0 0) KERNBASE 0x8000 0 PTE_W = Ok s' ∧ pt_base s' own' (waddr 0 0) ∧
    ∀ la', regular la' → walk (words s') (waddr 0 0) la' =
      if decide (PPN KERNBASE ≤ PPN la' ≤ PPN (KERNBASE + 0x8000 - 1))
      then Some (Z.lor (Z.lor ((PPN la' - PPN KERNBASE + PPN 0) * 4096) PTE_P) PTE_W)
      else walk (words vm_w) (waddr 0 0) la'.
Proof.
  apply (boot_map_segment_maps vm_w [4; 5; 6] (waddr 0 0) KERNBASE 0x8000 0 PTE_W vm_w_base); unfold KERNBASE, VPT, PTE_W; lia || done.
Defined.

(** The run does return, and the two addresses share page 4. *)
Lemma vm_run_shares :
  match vm_run with
  | Ok s => page_ref s 4 = Ok 2 ∧ PPN <$> walk (words s) (waddr 0 0) 0x1000 = Some 4 ∧
      PPN <$> walk (words s) (waddr 0 0) 0x5000 = Some 4
  | Err _ => False
  end.
Proof. vm_compute. done. Qed.

Lemma vm_boot_maps :
  match boot_map_segment vm_w (waddr 0 0) KERNBASE 0x8000 0 PTE_W with
  | Ok s => PPN <$> walk (words s) (waddr 0 0) (KERNBASE + 0x7123) = Some 7
  | Err _ => False
  end.
Proof. vm_compute. done. Qed.
