(* ===== verification/PmmInit.v ===== *)
(** * pmm.c: physical memory, segments and the listing of page tables

    Models the start of src/Labweek11/lab2/kern/mm/pmm.c that PageTable.v does
    not: [page_init], which finds the usable memory in the e820 map of the BIOS
    and hands it to the page allocator, [gdt_init], and [print_pgdir]. *)

From stdpp Require Import base list numbers.
From S2P Require Import Prelude Mmu PmmManager PageTable.

(** ** The memory map *)

Definition E820MAX : Z := 20.
Definition E820_ARM : Z := 1.

(** An entry of [struct e820map]; [addr] and [size] are 64-bit words. *)
Record e820 := E820 { e_addr : Z; e_size : Z; e_type : Z }.

Definition e_end (e : e820) : Z := u64 (e_addr e + e_size e).

(** [sizeof(struct Page)]: [ref], [flags], [property] and two pointers. *)
Definition SIZEOF_PAGE : Z := 20.

(** One iteration of the first loop of [page_init], on [maxpa]. *)
Definition find_max (maxpa : Z) (e : e820) : Z :=
  if e_type e =? E820_ARM then
    if (maxpa <? e_end e) && (e_addr e <? KMEMSIZE) then e_end e else maxpa
  else maxpa.

(** What the first loop prints about an entry. *)
Definition show_entry (e : e820) : Z * Z * Z * Z := (e_size e, e_addr e, u64 (e_end e - 1), e_type e).

Section page_init.
Context {M : Type} `{PmmManager M}.

Definition set_npage (n : Z) (s : vm M) : vm M := Vm (words s) (phys s) n (cr3 s) (tlb s) (iflag s).

Definition init_pmm_manager (s : vm M) : outcome (vm M) := m ← mgr_init (phys s); Ok (set_phys s m).

Definition init_memmap (s : vm M) (base n : Z) : outcome (vm M) :=
  m ← mgr_init_memmap (phys s) base n; Ok (set_phys s m).

(** One iteration of the last loop. *)
Definition free_region (freemem : Z) (e : e820) (s : vm M) : outcome (vm M) :=
  if e_type e =? E820_ARM then
    let begin := if e_addr e <? freemem then freemem else e_addr e in
    let end_ := if KMEMSIZE <? e_end e then KMEMSIZE else e_end e in
    if begin <? end_ then
      let begin := ROUNDUP begin PGSIZE in
      let end_ := ROUNDDOWN end_ PGSIZE in
      if begin <? end_ then
        p ← pa2page s begin; init_memmap s p ((end_ - begin) / PGSIZE)
      else Ok s
    else Ok s
  else Ok s.

(** [kend] is the address of the symbol [end]; [pages_at m n] is the allocator
    when [pages] is the array of [n] descriptors in the memory behind it. *)
Definition page_init (kend : Z) (pages_at : M → Z → outcome M) (map : list e820) (s : vm M) :
    outcome (list (Z * Z * Z * Z) * vm M) :=
  let maxpa := foldl find_max 0 map in
  let maxpa := if KMEMSIZE <? maxpa then KMEMSIZE else maxpa in
  let s := set_npage (maxpa / PGSIZE) s in
  let pages := ROUNDUP kend PGSIZE in
  m ← pages_at (phys s) (npage s);
  m ← for_range 0 (npage s) (λ i m, mgr_set_reserved m i) m;
  freemem ← PADDR (u32 (pages + SIZEOF_PAGE * npage s));
  s ← mfold (free_region freemem) map (set_phys s m);
  Ok (show_entry <$> map, s).
End page_init.

(** ** Segments *)

Definition SEG_KTEXT : Z := 1.
Definition SEG_KDATA : Z := 2.
Definition SEG_UTEXT : Z := 3.
Definition SEG_UDATA : Z := 4.
Definition SEG_TSS : Z := 5.
Definition GD_KTEXT : Z := Z.shiftl SEG_KTEXT 3.
Definition GD_KDATA : Z := Z.shiftl SEG_KDATA 3.
Definition GD_UDATA : Z := Z.shiftl SEG_UDATA 3.
Definition GD_TSS : Z := Z.shiftl SEG_TSS 3.
Definition DPL_KERNEL : Z := 0.
Definition DPL_USER : Z := 3.
Definition KERNEL_CS : Z := Z.lor GD_KTEXT DPL_KERNEL.
Definition KERNEL_DS : Z := Z.lor GD_KDATA DPL_KERNEL.
Definition USER_DS : Z := Z.lor GD_UDATA DPL_USER.

Definition gdt : list segdesc :=
  [SEG_NULL; SEG (Z.lor STA_X STA_R) 0 0xFFFFFFFF DPL_KERNEL; SEG STA_W 0 0xFFFFFFFF DPL_KERNEL;
   SEG (Z.lor STA_X STA_R) 0 0xFFFFFFFF DPL_USER; SEG STA_W 0 0xFFFFFFFF DPL_USER; SEG_NULL].

(** The table, the two fields of the task state that are set, and the segment
    registers of the processor. *)
Record segments := Segments {
  table : list segdesc;
  ts_esp0 : Z;
  ts_ss0 : Z;
  gdtr : Z * Z;
  seg_gs : Z; seg_fs : Z; seg_es : Z; seg_ds : Z; seg_ss : Z; seg_cs : Z;
  seg_tr : Z
}.

Definition load_esp0 (esp0 : Z) (g : segments) : segments :=
  Segments (table g) esp0 (ts_ss0 g) (gdtr g) (seg_gs g) (seg_fs g) (seg_es g) (seg_ds g) (seg_ss g) (seg_cs g) (seg_tr g).

Definition lgdt (pd : Z * Z) (g : segments) : segments :=
  Segments (table g) (ts_esp0 g) (ts_ss0 g) pd USER_DS USER_DS KERNEL_DS KERNEL_DS KERNEL_DS KERNEL_CS (seg_tr g).

Definition ltr (sel : Z) (g : segments) : segments :=
  Segments (table g) (ts_esp0 g) (ts_ss0 g) (gdtr g) (seg_gs g) (seg_fs g) (seg_es g) (seg_ds g) (seg_ss g) (seg_cs g) sel.

(** [sizeof(ts)] *)
Definition SIZEOF_TS : Z := 104.

(** [ts] and [gdt] are the addresses of the two variables. *)
Definition gdt_init (bootstacktop ts gdt_addr : Z) (g : segments) : segments :=
  let g := load_esp0 bootstacktop g in
  let tab := <[Z.to_nat SEG_TSS := SEGTSS STS_T32A ts SIZEOF_TS DPL_KERNEL]> (table g) in
  let g := Segments tab (ts_esp0 g) KERNEL_DS (gdtr g) (seg_gs g) (seg_fs g) (seg_es g) (seg_ds g) (seg_ss g) (seg_cs g) (seg_tr g) in
  ltr GD_TSS (lgdt (8 * zlen tab - 1, gdt_addr) g).

(** ** Listing the page tables *)

Definition perm2str (perm : Z) : list Z :=
  [if Z.land perm PTE_U =? 0 then 45 else 117; 114; if Z.land perm PTE_W =? 0 then 45 else 119].

(** The entries are read through [table]; a read can fault. *)
Definition get_pgtable_items (table : Z → outcome Z) (right start : Z) : outcome (option (Z * Z * Z)) :=
  if right <=? start then Ok None
  else
    let fuel := S (Z.to_nat (right - start)) in
    start ← loop fuel
      (λ i, if right <=? i then Ok (inr i)
            else x ← table i; if present x then Ok (inr i) else Ok (inl (i + 1))) start;
    if start <? right then
      x ← table start;
      let perm := Z.land x PTE_USER in
      stop ← loop fuel
        (λ i, if right <=? i then Ok (inr i)
              else x ← table i; if Z.land x PTE_USER =? perm then Ok (inl (i + 1)) else Ok (inr i)) (start + 1);
      Ok (Some (start, stop, perm))
    else Ok None.

(** The loop [while ((perm = get_pgtable_items(...)) != 0)], with its output. *)
Definition list_items {A} (table : Z → outcome Z) (right : Z) (show : Z * Z * Z → outcome (list A)) (start : Z) :
    outcome (list A) :=
  loop (S (S (Z.to_nat (right - start))))
    (λ '(r, out),
       it ← get_pgtable_items table right r;
       match it with
       | None => Ok (inr out)
       | Some (l, r, perm) =>
           if perm =? 0 then Ok (inr out) else o ← show (l, r, perm); Ok (inl (r, out ++ o))
       end) (start, []).

(** A line of the listing: a range of directory or table entries. *)
Inductive line :=
| PDE_line (lo hi perm : Z)
| PTE_line (lo hi perm : Z).

(** [vpd] and [vpt] are the directory and the tables as the processor maps them
    at VPT. *)
Definition print_pgdir (vpd vpt : Z → outcome Z) : outcome (list line) :=
  list_items vpd NPDEENTRY
    (λ it,
       let '(l, r, perm) := it in
       ptes ← list_items vpt (r * NPTEENTRY) (λ it, let '(l, r, perm) := it in Ok [PTE_line l r perm]) (l * NPTEENTRY);
       Ok (PDE_line l r perm :: ptes)) 0.
