(* ===== verification/PmmInitProps.v ===== *)
(** * What page_init and print_pgdir do

    Properties of PmmInit.v: [page_init] hands exactly the usable pages of the
    memory map to the first-fit allocator, and [print_pgdir] lists the maximal
    runs of entries with the same permissions. *)

From stdpp Require Import base list numbers.
From S2P Require Import Prelude ListH DefaultPmm PmmManager DefaultPmmManager Mmu PageTable PmmInit.

(** ** The usable pages of a memory map *)

Definition e820_ok (e : e820) : Prop := 0 ≤ e_addr e ∧ 0 ≤ e_size e ∧ e_addr e + e_size e < 2 ^ 64.

(** Page [i] lies in the memory of [e], above the descriptors and below the
    limit of the kernel. *)
Definition usable_in (freemem : Z) (e : e820) (i : Z) : Prop :=
  e_type e = E820_ARM ∧ freemem ≤ 4096 * i ∧ e_addr e ≤ 4096 * i ∧ 4096 * (i + 1) ≤ e_addr e + e_size e ∧
  4096 * (i + 1) ≤ KMEMSIZE.

(** No address is in two entries of usable memory. *)
Definition disjoint_entries (e e' : e820) : Prop :=
  e_type e = E820_ARM → e_type e' = E820_ARM →
  e_addr e + e_size e ≤ e_addr e' ∨ e_addr e' + e_size e' ≤ e_addr e.

(** The block that [free_region] makes of an entry. *)
Definition region (freemem : Z) (e : e820) : option block :=
  let lo := Z.max freemem (e_addr e) in
  let hi := Z.min KMEMSIZE (e_end e) in
  let b := (lo + 4095) / 4096 in
  let n := hi / 4096 - b in
  if (e_type e =? E820_ARM) && (0 <? n) then Some (b, n) else None.

Lemma e_end_eq e : e820_ok e → e_end e = e_addr e + e_size e.
Proof. intros (? & ? & ?). unfold e_end, u64. rewrite Z.mod_small; lia. Qed.

Lemma div_bounds x : 4096 * (x / 4096) ≤ x < 4096 * (x / 4096) + 4096.
Proof. pose proof (Z.div_mod x 4096). pose proof (Z.mod_pos_bound x 4096). lia. Qed.

Lemma region_usable freemem e b n i :
  e820_ok e → region freemem e = Some (b, n) → 0 < n ∧ (b ≤ i < b + n ↔ usable_in freemem e i).
Proof.
  intros He. unfold region, usable_in. rewrite (e_end_eq e He).
  set (lo := Z.max _ _). set (hi := Z.min _ _). destruct (_ && _) eqn:E; [|done].
  apply andb_true_iff in E as [Ht%Z.eqb_eq Hn%Z.ltb_lt]. intros [= <- <-]. split; [done|].
  pose proof (div_bounds (lo + 4095)). pose proof (div_bounds hi). lia.
Qed.

Lemma region_none freemem e i : e820_ok e → region freemem e = None → ¬ usable_in freemem e i.
Proof.
  intros He. unfold region, usable_in. rewrite (e_end_eq e He).
  set (lo := Z.max _ _). set (hi := Z.min _ _). destruct (_ && _) eqn:E; [done|]. intros _ (Ht & H).
  rewrite Ht, Z.eqb_refl in E. apply Z.ltb_ge in E.
  pose proof (div_bounds (lo + 4095)). pose proof (div_bounds hi). lia.
Qed.

Lemma find_max_mono map : ∀ m, m ≤ foldl find_max m map.
Proof.
  induction map as [|e map IH]; intros m; simpl; [done|]. etrans; [|apply IH].
  unfold find_max. repeat case_match; try done. apply andb_true_iff in H0 as [?%Z.ltb_lt _]. lia.
Qed.

Lemma find_max_bound map e : ∀ m,
  e ∈ map → e_type e = E820_ARM → e_addr e < KMEMSIZE → e_end e ≤ foldl find_max m map.
Proof.
  induction map as [|e' map IH]; intros m; [by intros ?%elem_of_nil|]. intros [->|He]%elem_of_cons Ht Ha; [|by apply IH].
  simpl. etrans; [|apply find_max_mono]. unfold find_max. rewrite Ht. cbn [Z.eqb E820_ARM Pos.eqb].
  rewrite (proj2 (Z.ltb_lt (e_addr e') _)) by done. rewrite andb_true_r. destruct (Z.ltb_spec m (e_end e')); lia.
Qed.

(** The pages of physical memory that [page_init] finds. *)
Definition memory_pages (map : list e820) : Z := Z.min KMEMSIZE (foldl find_max 0 map) / 4096.

Lemma region_in_memory freemem map e b n :
  0 ≤ freemem → e ∈ map → e820_ok e → region freemem e = Some (b, n) → 0 ≤ b ∧ 0 < n ∧ b + n ≤ memory_pages map.
Proof.
  intros Hf He Hok Hr. destruct (region_usable freemem e b n b Hok Hr) as [Hn Hb].
  destruct (proj1 Hb ltac:(lia)) as (Ht & H1 & H2 & H3 & H4). split; [lia|]. split; [done|].
  destruct (region_usable freemem e b n (b + n - 1) Hok Hr) as [_ Hl].
  destruct (proj1 Hl ltac:(lia)) as (_ & _ & _ & H5 & H6).
  pose proof (find_max_bound map e 0 He Ht ltac:(lia)) as Hm. rewrite (e_end_eq e Hok) in Hm.
  unfold memory_pages. apply Z.div_le_lower_bound; lia.
Qed.

(** [free_region] in terms of [region]. *)
Lemma free_region_eq freemem e (s : vm pmm) :
  0 ≤ freemem → e820_ok e →
  (∀ b n, region freemem e = Some (b, n) → 0 ≤ b ∧ b < npage s) →
  free_region freemem e s =
    match region freemem e with
    | Some (b, n) => m ← default_init_memmap (phys s) b n; Ok (set_phys s m)
    | None => Ok s
    end.
Proof.
  intros Hf He Hin. pose proof (e_end_eq e He) as Hend. destruct He as (Ha & Hs & _).
  unfold free_region, region in *. rewrite Hend in *.
  replace (if e_addr e <? freemem then freemem else e_addr e) with (Z.max freemem (e_addr e))
    by (destruct (Z.ltb_spec (e_addr e) freemem); lia).
  replace (if KMEMSIZE <? e_addr e + e_size e then KMEMSIZE else e_addr e + e_size e)
    with (Z.min KMEMSIZE (e_addr e + e_size e)) by (destruct (Z.ltb_spec KMEMSIZE (e_addr e + e_size e)); lia).
  set (lo := Z.max _ _) in *. set (hi := Z.min _ _) in *.
  destruct (e_type e =? E820_ARM); [|done]. cbn [andb] in *.
  assert (0 ≤ lo) as Hlo by lia. assert (hi ≤ KMEMSIZE) as Hhi by lia. unfold KMEMSIZE in Hhi.
  pose proof (div_bounds (lo + 4095)) as D1. pose proof (div_bounds hi) as D2.
  destruct (Z.ltb_spec lo hi) as [Hlt|Hge].
  2: { rewrite (proj2 (Z.ltb_ge _ _)); [done|]. lia. }
  destruct (ROUNDUP_spec lo PGSIZE) as [HB HB0]; [unfold PGSIZE; lia..|].
  destruct (ROUNDDOWN_spec hi PGSIZE) as [HE HE0]; [unfold PGSIZE; lia|lia|].
  unfold PGSIZE in *. apply Z.mod_divide in HB0 as [qb HB0]; [|lia]. apply Z.mod_divide in HE0 as [qe HE0]; [|lia].
  assert (qb = (lo + 4095) / 4096) as -> by lia. assert (qe = hi / 4096) as -> by lia. rewrite HB0, HE0 in *.
  set (b := (lo + 4095) / 4096) in *. set (e1 := hi / 4096) in *.
  destruct (Z.ltb_spec (b * 4096) (e1 * 4096)) as [Hbe|Hbe].
  2: { rewrite (proj2 (Z.ltb_ge _ _)); [done|]. lia. }
  rewrite (proj2 (Z.ltb_lt 0 (e1 - b))) in * by lia. destruct (Hin b (e1 - b) eq_refl) as [_ Hbn].
  unfold pa2page. rewrite PPN_div, Z.div_mul by lia. rewrite (proj2 (Z.leb_gt _ _)) by done. cbn [mbind outcome_bind].
  unfold init_memmap. cbn [mgr_init_memmap default_pmm_manager].
  replace ((e1 * 4096 - b * 4096) / 4096) with (e1 - b); [done|].
  apply (Z.div_unique_pos _ _ _ 0); lia.
Qed.

(** ** The loops of page_init *)

(** The memory behind [end] holds the descriptors [raw]. *)
Definition descriptors (raw : list Page) (st : pmm) (n : Z) : outcome pmm :=
  if n <=? zlen raw then Ok (PmmOf (take (Z.to_nat n) raw) (free_list st) (nr_free st)) else Err Undef.

Definition all_reserved (st : pmm) (bs : list block) : Prop :=
  ∀ i, 0 ≤ i < zlen (pages st) → i ∉ pages_of bs → ∃ pg, page st i = Ok pg ∧ PageReserved pg = true.

Lemma reserve_loop st n :
  0 ≤ n → zlen (pages st) = n →
  ∃ st', for_range 0 n (λ i m, mgr_set_reserved m i) st = Ok st' ∧ nr_free st' = nr_free st ∧
    (∀ e : entry, get_link st' e = get_link st e) ∧
    range_data (data st) (data st') 0 n (λ _ d, (d.1.1, set_bit PG_reserved d.1.2, d.2)).
Proof.
  intros Hn Hlen. apply page_loop_spec; [done|]. intros p s Hp Hd.
  destruct (aget_in_range (pages st) p) as (pg & Hpg & _); [lia|].
  assert (aget (data st) p = Ok (page_data pg)) as Hdp by (apply page_data_Ok; by exists pg).
  rewrite Hdp in Hd. unfold page_data in Hd. cbn [mgr_set_reserved default_pmm_manager]. unfold SetPageReserved.
  pose proof Hd as (pg' & Hpg' & E)%page_data_Ok. injection E as E1 E2 E3. rewrite Hpg'. cbn [mbind outcome_bind].
  destruct (set_flags_data s p (set_bit PG_reserved (flags pg')) _ _ _ Hd) as (s' & Hs' & Hw).
  exists s', (ref pg, flags pg, property pg). split; [done|]. split; [done|]. cbn [fst snd]. by rewrite E2.
Qed.

Lemma descriptors_rep raw st n st' :
  pmm_rep st [] → 0 ≤ n < 2 ^ 32 → (∀ i pg, aget raw i = Ok pg → PageProperty pg = false) →
  descriptors raw st n = Ok st' → pmm_rep st' [] ∧ zlen (pages st') = n.
Proof.
  intros (Hd & Hok & Hnr) Hn Hraw. unfold descriptors. destruct (Z.leb_spec n (zlen raw)) as [Hle|]; [|done]. intros [= <-].
  assert (zlen (take (Z.to_nat n) raw) = n) as Hlen by (unfold zlen in *; rewrite length_take; lia).
  split; [|done]. split; [|split; [|done]].
  - destruct Hd as [Hnd HF]. split; [done|]. eapply edges_frame; [|exact HF].
    intros a b Hab. cbn in Hab. apply list_elem_of_singleton in Hab as [= -> ->]. done.
  - unfold data. cbn [pages]. split.
    + rewrite zlen_fmap, Hlen. lia.
    + constructor.
    + intros i Hi. by apply elem_of_nil in Hi.
    + intros b Hb. by apply elem_of_nil in Hb.
    + intros i d. rewrite aget_fmap. intros (pg & Hpg & ->)%fmap_Ok. cbn. split; [|intros Hi; by apply elem_of_nil in Hi].
      intros Ht. rewrite aget_Ok in Hpg. destruct Hpg as [H0 Hl]. rewrite lookup_take_Some in Hl. destruct Hl as [Hl _].
      specialize (Hraw i pg). rewrite aget_Ok in Hraw. unfold PageProperty in Hraw. rewrite Hraw in Ht; done.
Qed.

Lemma reserved_rep st st' n :
  pmm_rep st [] → zlen (pages st) = n → nr_free st' = nr_free st → (∀ e : entry, get_link st' e = get_link st e) →
  range_data (data st) (data st') 0 n (λ _ d, (d.1.1, set_bit PG_reserved d.1.2, d.2)) →
  pmm_rep st' [] ∧ zlen (pages st') = n ∧ all_reserved st' [].
Proof.
  intros (Hd & Hok & Hnr) Hlen Hn Hl [Hz Hdata].
  assert (zlen (pages st') = n) as Hlen' by (unfold data in Hz; rewrite !zlen_fmap in Hz; congruence).
  assert (∀ i d, aget (data st') i = Ok d → ∃ d0, aget (data st) i = Ok d0 ∧ d = (d0.1.1, set_bit PG_reserved d0.1.2, d0.2)) as Hback.
  { intros i d Hi. pose proof (aget_range _ _ _ Hi) as Hr. rewrite Hz in Hr. unfold data in Hr. rewrite zlen_fmap in Hr.
    rewrite Hdata, decide_True in Hi by lia. apply fmap_Ok in Hi as (d0 & Hd0 & ->). by exists d0. }
  split; [|split; [done|]].
  - split; [by eapply dll_ext|]. split; [|by rewrite Hn]. destruct Hok as [H1 H2 H3 H4 H5]. split; try done.
    + by rewrite Hz.
    + intros i Hi. by apply elem_of_nil in Hi.
    + intros b Hb. by apply elem_of_nil in Hb.
    + intros i d (d0 & Hd0 & ->)%Hback. cbn [fst snd]. rewrite testbit_set by done. by apply H5.
  - intros i Hi _. destruct (aget_in_range (pages st') i Hi) as (pg & Hpg & _). exists pg. split; [done|].
    assert (aget (data st') i = Ok (page_data pg)) as (d0 & _ & E)%Hback by (apply page_data_Ok; by exists pg).
    unfold page_data in E. injection E as _ E _. unfold PageReserved. rewrite E. by rewrite testbit_set.
Qed.

(** The regions of [l] join the free blocks [bs]. *)
Lemma regions_loop freemem l : ∀ bs (s : vm pmm),
  0 ≤ freemem → Forall e820_ok l → ForallOrdPairs disjoint_entries l →
  (∀ e i, e ∈ l → usable_in freemem e i → i ∉ pages_of bs) →
  (∀ e b n, e ∈ l → region freemem e = Some (b, n) → 0 ≤ b ∧ 0 < n ∧ b + n ≤ npage s) →
  pmm_rep (phys s) bs → zlen (pages (phys s)) = npage s → all_reserved (phys s) bs →
  ∃ s', mfold (free_region freemem) l s = Ok s' ∧ npage s' = npage s ∧
    pmm_rep (phys s') (bs ++ omap (region freemem) l) ∧ all_reserved (phys s') (bs ++ omap (region freemem) l) ∧
    zlen (pages (phys s')) = npage s'.
Proof.
  induction l as [|e l IH]; intros bs s Hf Hok Hdis Hnew Hin Hrep Hlen Hres.
  { exists s. by rewrite app_nil_r. }
  apply Forall_cons in Hok as [He Hok]. inversion Hdis as [|? ? Hd1 Hd2]; subst. cbn [mfold].
  rewrite free_region_eq; [|done|done|intros b n Hr; destruct (Hin e b n) as (? & ? & ?); [by left|done|lia]].
  cbn [omap list_omap]. destruct (region freemem e) as [[b n]|] eqn:Hr.
  2: { cbn [mbind outcome_bind]. apply IH; try done; intros e' x; [intros He'; apply Hnew; by right|]. intros y He'. apply Hin. by right. }
  destruct (Hin e b n ltac:(by left) Hr) as (Hb & Hn & Hbn).
  assert (∀ i, b ≤ i < b + n → i ∉ pages_of bs) as Hfresh.
  { intros i Hi. apply (Hnew e); [by left|]. by apply (region_usable freemem e b n i He Hr). }
  destruct (default_init_memmap_spec (phys s) bs b n Hrep Hn) as (m & -> & Hrep' & [Hz Hdata]).
  { intros i Hi. apply Hres; [lia|by apply Hfresh]. }
  cbn [mbind outcome_bind].
  destruct (IH (bs ++ [(b, n)]) (set_phys s m)) as (s' & Hs' & Hnp & Hrep2 & Hres2 & Hlen2); try done.
  - intros e' i He' Hu. unfold pages_of. rewrite bind_app, not_elem_of_app. split; [by apply (Hnew e'); [right|]|].
    cbn. rewrite app_nil_r, elem_of_seqZ. intros Hi. apply (region_usable freemem e b n i He Hr) in Hi.
    rewrite Forall_forall in Hd1. destruct Hi as (Ht & _ & ? & ? & _), Hu as (Ht' & _ & ? & ? & _).
    destruct (Hd1 e' He' Ht Ht'); lia.
  - intros e' b' n' He'. apply Hin. by right.
  - cbn [phys npage set_phys]. unfold data in Hz. rewrite !zlen_fmap in Hz. congruence.
  - cbn [phys set_phys]. intros i Hi Hni. unfold pages_of in Hni. rewrite bind_app, not_elem_of_app in Hni. destruct Hni as [Hni Hni2].
    cbn in Hni2. rewrite app_nil_r, elem_of_seqZ in Hni2. unfold data in Hz. rewrite !zlen_fmap in Hz.
    destruct (Hres i) as (pg & Hpg & Hr'); [by rewrite <-Hz|done|].
    assert (aget (data m) i = Ok (page_data pg)) as (pg' & Hpg' & E)%page_data_Ok.
    { rewrite Hdata, decide_False by done. apply page_data_Ok. by exists pg. }
    exists pg'. split; [done|]. unfold page_data in E. injection E as _ E _. unfold PageReserved in *. by rewrite <-E.
  - exists s'. rewrite <-(assoc_L (++)) in Hrep2, Hres2. done.
Qed.

Lemma regions_pages freemem l i :
  Forall e820_ok l → i ∈ pages_of (omap (region freemem) l) ↔ ∃ e, e ∈ l ∧ usable_in freemem e i.
Proof.
  rewrite Forall_forall. intros Hok. rewrite elem_of_pages_of. setoid_rewrite list_elem_of_omap. split.
  - intros ([b n] & (e & He & Hr) & Hi). exists e. split; [done|]. by apply (region_usable freemem e b n i (Hok e He) Hr).
  - intros (e & He & Hu). destruct (region freemem e) as [[b n]|] eqn:Hr.
    + exists (b, n). split; [by exists e|]. by apply (region_usable freemem e b n i (Hok e He) Hr).
    + by apply (region_none freemem e i (Hok e He) Hr) in Hu.
Qed.

(** [C23] [page_init] finds the memory.  The hypotheses: no two entries of usable
    memory of the BIOS map overlap, no entry ends beyond 2^64, the kernel ends
    above KERNBASE, the descriptors of all pages fit behind it below 2^32 and do
    not carry PG_property, and the allocator has just been initialised.  Then it
    ends without a panic; the allocator holds exactly the pages that lie in
    usable memory above the descriptors and below KMEMSIZE, all other pages up
    to [npage] are reserved, and [nr_free] is the number of free pages.  (When
    two usable entries overlap, the pages of both are freed twice and
    [init_memmap] panics: [overlapping_entries_panic].) *)
Theorem page_init_frees_usable kend raw map (s : vm pmm) :
  pmm_rep (phys s) [] → Forall e820_ok map → ForallOrdPairs disjoint_entries map →
  KERNBASE ≤ kend → ROUNDUP kend PGSIZE + SIZEOF_PAGE * memory_pages map < 2 ^ 32 → kend + PGSIZE < 2 ^ 32 →
  memory_pages map ≤ zlen raw → (∀ i pg, aget raw i = Ok pg → PageProperty pg = false) →
  let freemem := ROUNDUP kend PGSIZE + SIZEOF_PAGE * memory_pages map - KERNBASE in
  ∃ s' bs, page_init kend (descriptors raw) map s = Ok (show_entry <$> map, s') ∧
    npage s' = memory_pages map ∧ pmm_rep (phys s') bs ∧ nr_free (phys s') = zlen (pages_of bs) ∧
    ∀ i, 0 ≤ i < npage s' →
      (i ∈ pages_of bs ↔ ∃ e, e ∈ map ∧ usable_in freemem e i) ∧
      (i ∉ pages_of bs → ∃ pg, page (phys s') i = Ok pg ∧ PageReserved pg = true).
Proof.
  intros Hrep Hok Hdis Hk Hfit Hk2 Hraw Hprop freemem. pose proof (find_max_mono map 0) as Hmax.
  assert (0 ≤ memory_pages map < 2 ^ 32) as Hnp.
  { unfold memory_pages, KMEMSIZE. pose proof (div_bounds (Z.min 0x38000000 (foldl find_max 0 map))). lia. }
  unfold page_init. replace (if KMEMSIZE <? foldl find_max 0 map then KMEMSIZE else foldl find_max 0 map)
    with (Z.min KMEMSIZE (foldl find_max 0 map)) by (destruct (Z.ltb_spec KMEMSIZE (foldl find_max 0 map)); lia).
  change (Z.min KMEMSIZE (foldl find_max 0 map) / PGSIZE) with (memory_pages map). cbn [npage set_npage phys].
  assert (∃ st1, descriptors raw (phys s) (memory_pages map) = Ok st1) as [st1 Hst1].
  { unfold descriptors. rewrite (proj2 (Z.leb_le _ _)) by done. eauto. }
  destruct (descriptors_rep _ _ _ _ Hrep Hnp Hprop Hst1) as [Hrep1 Hlen1]. rewrite Hst1. cbn [mbind outcome_bind].
  destruct (reserve_loop st1 (memory_pages map)) as (st2 & -> & Hn2 & Hl2 & Hd2); [lia|done|]. cbn [mbind outcome_bind].
  destruct (reserved_rep st1 st2 _ Hrep1 Hlen1 Hn2 Hl2 Hd2) as (Hrep2 & Hlen2 & Hres2).
  destruct (ROUNDUP_spec kend PGSIZE) as [Hpg _]; [unfold PGSIZE; lia|unfold KERNBASE in Hk; lia|lia|].
  rewrite u32_small by (unfold KERNBASE, SIZEOF_PAGE in *; lia).
  unfold PADDR. rewrite (proj2 (Z.ltb_ge _ _)) by (unfold SIZEOF_PAGE in *; lia). cbn [mbind outcome_bind]. fold freemem.
  assert (0 ≤ freemem) as Hf by (unfold freemem, SIZEOF_PAGE in *; lia).
  destruct (regions_loop freemem map [] (set_phys (set_npage (memory_pages map) s) st2)) as (s' & -> & Hnp' & Hrep' & Hres' & Hlen');
    try done.
  - intros e i _ _ Hi. by apply elem_of_nil in Hi.
  - intros e b n He Hr. rewrite Forall_forall in Hok. by apply (region_in_memory freemem map e); [..|apply Hok|].
  - cbn [mbind outcome_bind]. exists s', (omap (region freemem) map). split; [done|]. split; [done|].
    split; [done|]. split; [apply Hrep'|]. intros i Hi. split; [by apply regions_pages|].
    intros Hni. apply Hres'; [by rewrite Hlen'|done].
Qed.

(** ** Listing the page tables *)

(** The maximal runs of present entries with the same permissions among the
    [n] entries from [i] on. *)
Fixpoint runs (f : Z → Z) (i : Z) (n : nat) : list (Z * Z * Z) :=
  match n with
  | O => []
  | S n' =>
      let rest := runs f (i + 1) n' in
      let perm := Z.land (f i) PTE_USER in
      if present (f i) then
        match rest with
        | (l, r, p) :: rest' => if (l =? i + 1) && (p =? perm) then (i, r, perm) :: rest' else (i, i + 1, perm) :: rest
        | [] => [(i, i + 1, perm)]
        end
      else rest
  end.

Definition runs_to (f : Z → Z) (lo hi : Z) : list (Z * Z * Z) := runs f lo (Z.to_nat (hi - lo)).

Lemma runs_to_nil f lo hi : hi ≤ lo → runs_to f lo hi = [].
Proof. intros H. unfold runs_to. by replace (Z.to_nat (hi - lo)) with O by lia. Qed.

Lemma runs_to_step f lo hi : lo < hi →
  runs_to f lo hi =
    let rest := runs_to f (lo + 1) hi in
    let perm := Z.land (f lo) PTE_USER in
    if present (f lo) then
      match rest with
      | (l, r, p) :: rest' => if (l =? lo + 1) && (p =? perm) then (lo, r, perm) :: rest' else (lo, lo + 1, perm) :: rest
      | [] => [(lo, lo + 1, perm)]
      end
    else rest.
Proof. intros H. unfold runs_to. by replace (Z.to_nat (hi - lo)) with (S (Z.to_nat (hi - (lo + 1)))) by lia. Qed.

(** A run lies in the range, and its entries are present and have its
    permissions. *)
Lemma runs_sound f lo hi l r p :
  (l, r, p) ∈ runs_to f lo hi →
  lo ≤ l < r ∧ r ≤ hi ∧ ∀ i, l ≤ i < r → present (f i) = true ∧ Z.land (f i) PTE_USER = p.
Proof.
  remember (Z.to_nat (hi - lo)) as n eqn:Hn. revert lo l r p Hn. induction n as [|n IH]; intros lo l r p Hn.
  { rewrite runs_to_nil by lia. by intros ?%elem_of_nil. }
  assert (∀ l r p, (l, r, p) ∈ runs_to f (lo + 1) hi → lo + 1 ≤ l < r ∧ r ≤ hi ∧
    ∀ i, l ≤ i < r → present (f i) = true ∧ Z.land (f i) PTE_USER = p) as IH' by (intros; apply IH; [lia|done]).
  rewrite runs_to_step by lia. cbn zeta. destruct (present (f lo)) eqn:Hp.
  2: { intros (? & ? & ?)%IH'. split_and!; try lia. done. }
  assert (∀ i, lo ≤ i < lo + 1 → present (f i) = true ∧ Z.land (f i) PTE_USER = Z.land (f lo) PTE_USER) as Hone.
  { intros i Hi. by replace i with lo by lia. }
  destruct (runs_to f (lo + 1) hi) as [|[[l' r'] p'] rest].
  { intros [= -> -> ->]%list_elem_of_singleton. split_and!; try lia. done. }
  destruct (_ && _) eqn:E; intros [[= -> -> ->]|H]%elem_of_cons; try (split_and!; try lia; done).
  - apply andb_true_iff in E as [->%Z.eqb_eq ->%Z.eqb_eq].
    destruct (IH' (lo + 1) r' (Z.land (f lo) PTE_USER)) as (? & ? & Hr); [by left|]. split_and!; try lia.
    intros i Hi. destruct (decide (i = lo)) as [->|]; [done|]. apply Hr. lia.
  - destruct (IH' l r p) as (? & ? & ?); [by right|]. split_and!; try lia. done.
  - destruct (IH' l r p) as (? & ? & ?); [done|]. split_and!; try lia. done.
Qed.

(** Every present entry is in a run. *)
Lemma runs_complete f lo hi i :
  lo ≤ i < hi → present (f i) = true → ∃ l r, (l, r, Z.land (f i) PTE_USER) ∈ runs_to f lo hi ∧ l ≤ i < r.
Proof.
  remember (Z.to_nat (hi - lo)) as n eqn:Hn. revert lo Hn. induction n as [|n IH]; intros lo Hn Hi Hp; [lia|].
  rewrite runs_to_step by lia. cbn zeta. destruct (decide (i = lo)) as [->|Hne].
  - rewrite Hp. destruct (runs_to f (lo + 1) hi) as [|[[l' r'] p'] rest] eqn:Hrest; [exists lo, (lo + 1); split; [by left|lia]|].
    destruct (_ && _) eqn:E; [|exists lo, (lo + 1); split; [by left|lia]].
    apply andb_true_iff in E as [->%Z.eqb_eq ->%Z.eqb_eq]. exists lo, r'. split; [by left|].
    destruct (runs_sound f (lo + 1) hi (lo + 1) r' (Z.land (f lo) PTE_USER)); [rewrite Hrest; by left|lia].
  - destruct (IH (lo + 1)) as (l & r & Hlr & Hi'); [lia..|done|]. destruct (present (f lo)); [|by exists l, r].
    destruct (runs_to f (lo + 1) hi) as [|[[l' r'] p'] rest] eqn:Hrest; [by apply elem_of_nil in Hlr|].
    destruct (_ && _) eqn:E; [|exists l, r; split; [by right|done]].
    apply andb_true_iff in E as [->%Z.eqb_eq ->%Z.eqb_eq].
    apply elem_of_cons in Hlr as [[= -> -> Hpm]|Hlr]; [|exists l, r; split; [by right|done]].
    exists lo, r'. split; [rewrite Hpm; by left|lia].
Qed.

Lemma runs_skip f lo l hi :
  lo ≤ l ≤ hi → (∀ i, lo ≤ i < l → present (f i) = false) → runs_to f lo hi = runs_to f l hi.
Proof.
  intros Hl. remember (Z.to_nat (l - lo)) as n eqn:Hn. revert lo Hl Hn. induction n as [|n IH]; intros lo Hl Hn Hp.
  { by replace l with lo by lia. }
  rewrite runs_to_step by lia. rewrite Hp by lia. cbn zeta. apply IH; [lia..|]. intros i Hi. apply Hp. lia.
Qed.

Lemma runs_run f l r hi p :
  l < r ≤ hi → (∀ i, l ≤ i < r → present (f i) = true ∧ Z.land (f i) PTE_USER = p) →
  (r < hi → Z.land (f r) PTE_USER ≠ p) → runs_to f l hi = (l, r, p) :: runs_to f r hi.
Proof.
  intros Hl. remember (Z.to_nat (r - l)) as n eqn:Hn. revert l Hl Hn. induction n as [|n IH]; intros l Hl Hn Hin Hend; [lia|].
  rewrite runs_to_step by lia. destruct (Hin l ltac:(lia)) as [-> ->]. cbn zeta.
  destruct (decide (l + 1 = r)) as [Hr|Hr].
  - rewrite Hr. destruct (runs_to f r hi) as [|[[l' r'] p'] rest] eqn:Hrest; [done|].
    destruct (runs_sound f r hi l' r' p') as (? & ? & Hs); [rewrite Hrest; by left|].
    destruct (_ && _) eqn:E; [|done]. apply andb_true_iff in E as [->%Z.eqb_eq ->%Z.eqb_eq].
    destruct (Hs r ltac:(lia)) as [_ Hpr]. destruct Hend; [lia|done].
  - rewrite (IH (l + 1)) by (try lia; intros; try apply Hin; try apply Hend; lia). by rewrite !Z.eqb_refl.
Qed.

(** A loop that advances while [c] holds stops at the first entry where it does
    not, or at [right]. *)
Lemma scan_loop_spec (body : Z → outcome (Z + Z)) (c : Z → bool) right start fuel :
  start ≤ right → (∀ i, right ≤ i → body i = Ok (inr i)) →
  (∀ i, start ≤ i < right → body i = Ok (if c i then inl (i + 1) else inr i)) →
  (Z.to_nat (right - start) < fuel)%nat →
  ∃ j, loop fuel body start = Ok j ∧ start ≤ j ≤ right ∧ (∀ i, start ≤ i < j → c i = true) ∧ (j < right → c j = false).
Proof.
  intros Hle Hend Hbody Hfuel.
  destruct (loop_spec (λ i, start ≤ i ≤ right ∧ ∀ k, start ≤ k < i → c k = true)
    (λ j, start ≤ j ≤ right ∧ (∀ i, start ≤ i < j → c i = true) ∧ (j < right → c j = false))
    (λ i, Z.to_nat (right - i)) body) with (fuel := fuel) (s := start) as (j & Hj & ?);
    [|split; [lia|intros k Hk; lia]|done|by exists j].
  intros i [Hi Hin]. destruct (Z.lt_ge_cases i right) as [Hlt|Hge].
  - rewrite Hbody by lia. destruct (c i) eqn:Hc; eexists; (split; [done|]); [|done].
    split; [|lia]. split; [lia|]. intros k Hk. destruct (decide (k = i)) as [->|]; [done|apply Hin; lia].
  - rewrite Hend by lia. eexists; split; [done|]. split_and!; try lia; try done.
Qed.

(** [get_pgtable_items] answers the first run. *)
Lemma get_pgtable_items_run table f right start :
  0 ≤ start → (∀ i, start ≤ i < right → table i = Ok (f i)) →
  ∃ o, get_pgtable_items table right start = Ok o ∧
    match o with
    | None => runs_to f start right = []
    | Some (l, r, p) => runs_to f start right = (l, r, p) :: runs_to f r right ∧ start ≤ l < r ∧ r ≤ right ∧ p ≠ 0
    end.
Proof.
  intros H0 Ht. unfold get_pgtable_items. destruct (Z.leb_spec right start) as [Hle|Hlt].
  { exists None. split; [done|by apply runs_to_nil]. }
  edestruct (scan_loop_spec (λ i, if right <=? i then Ok (inr i)
      else x ← table i; if present x then Ok (inr i) else Ok (inl (i + 1))) (λ i, negb (present (f i))) right start)
    as (l & -> & Hl & Hskip & Hstop); [lia|..|lia|].
  { intros i Hi. by rewrite (proj2 (Z.leb_le _ _)). }
  { intros i Hi. rewrite (proj2 (Z.leb_gt _ _)), Ht by lia. cbn. by destruct (present (f i)). }
  cbn [mbind outcome_bind]. rewrite (runs_skip f start l right); [|lia|intros i Hi; by apply negb_true_iff, Hskip].
  destruct (Z.ltb_spec l right) as [Hlr|Hlr]; [|exists None; split; [done|apply runs_to_nil; lia]].
  rewrite Ht by lia. cbn [mbind outcome_bind]. set (p := Z.land (f l) PTE_USER).
  specialize (Hstop Hlr). apply negb_false_iff in Hstop.
  edestruct (scan_loop_spec (λ i, if right <=? i then Ok (inr i)
      else x ← table i; if Z.land x PTE_USER =? p then Ok (inl (i + 1)) else Ok (inr i)) (λ i, Z.land (f i) PTE_USER =? p) right (l + 1))
    as (r & -> & Hr & Hsame & Hend); [lia|..|lia|].
  { intros i Hi. by rewrite (proj2 (Z.leb_le _ _)). }
  { intros i Hi. rewrite (proj2 (Z.leb_gt _ _)), Ht by lia. cbn. by destruct (_ =? p). }
  cbn [mbind outcome_bind]. exists (Some (l, r, p)). split; [done|].
  assert (∀ x, Z.land x PTE_USER = p → present x = true) as Hpp.
  { intros x Hx. rewrite <-Hstop. unfold present, PTE_P. f_equal. f_equal.
    replace (Z.land x 1) with (Z.land (Z.land x PTE_USER) 1) by (rewrite <-Z.land_assoc; done).
    rewrite Hx. unfold p. rewrite <-Z.land_assoc. done. }
  split_and!; try lia.
  - apply runs_run; [lia|..].
    + intros i Hi. assert (Z.land (f i) PTE_USER = p) as Hi'.
      { destruct (decide (i = l)) as [->|]; [done|]. apply Z.eqb_eq, Hsame. lia. }
      split; [by apply Hpp|done].
    + intros Hlt'. by apply Z.eqb_neq, Hend.
  - intros Hz. specialize (Hpp 0). rewrite Hz in Hpp. by specialize (Hpp eq_refl).
Qed.

(** [list_items] shows every run, in order. *)
Lemma list_items_runs {A} table f right (show : Z * Z * Z → outcome (list A)) (sh : Z * Z * Z → list A) start :
  0 ≤ start → (∀ i, start ≤ i < right → table i = Ok (f i)) →
  (∀ it, it ∈ runs_to f start right → show it = Ok (sh it)) →
  list_items table right show start = Ok (runs_to f start right ≫= sh).
Proof.
  intros H0 Ht Hsh. unfold list_items. set (body := λ '(r, out), _).
  destruct (loop_spec (λ '(r, out), start ≤ r ∧ (∀ it, it ∈ runs_to f r right → it ∈ runs_to f start right) ∧
      runs_to f start right ≫= sh = out ++ (runs_to f r right ≫= sh))
    (λ out, out = runs_to f start right ≫= sh) (λ '(r, _), Z.to_nat (right - r)) body)
    with (fuel := S (S (Z.to_nat (right - start)))) (s := (start, @nil A)) as (out & -> & ->); [|done|lia|done].
  intros [r out] (Hr & Hsub & Heq). unfold body.
  destruct (get_pgtable_items_run table f right r) as (o & -> & Ho); [lia|intros; apply Ht; lia|]. cbn [mbind outcome_bind].
  destruct o as [[[l r'] p]|].
  - destruct Ho as (Ho & ? & ? & Hp). rewrite (proj2 (Z.eqb_neq _ _)) by done. rewrite Hsh; [|apply Hsub; rewrite Ho; by left].
    cbn [mbind outcome_bind]. eexists; split; [done|]. split; [|lia]. split_and!; [lia|..].
    + intros it Hit. apply Hsub. rewrite Ho. by right.
    + rewrite Heq, Ho, bind_cons. by rewrite (assoc_L (++)).
  - eexists; split; [done|]. rewrite Heq, Ho. cbn. by rewrite app_nil_r.
Qed.

Lemma bind_singletons {A B} (g : A → B) (l : list A) : (l ≫= λ x, [g x]) = g <$> l.
Proof. induction l as [|x l IH]; [done|]. rewrite bind_cons, IH. done. Qed.

(** What [print_pgdir] prints of the directory [pd] and the tables [pt]. *)
Definition listing (pd pt : Z → Z) : list line :=
  runs_to pd 0 NPDEENTRY ≫= λ it,
    let '(l, r, p) := it in
    PDE_line l r p :: ((λ it, let '(l, r, p) := it in PTE_line l r p) <$> runs_to pt (l * NPTEENTRY) (r * NPTEENTRY)).

Lemma elem_of_listing pd pt l r p :
  PTE_line l r p ∈ listing pd pt ↔
    ∃ l0 r0 p0, (l0, r0, p0) ∈ runs_to pd 0 NPDEENTRY ∧ (l, r, p) ∈ runs_to pt (l0 * NPTEENTRY) (r0 * NPTEENTRY).
Proof.
  unfold listing. rewrite list_elem_of_bind. split.
  - intros ([[l0 r0] p0] & H & Hin). exists l0, r0, p0. split; [done|]. apply elem_of_cons in H as [|H]; [done|].
    apply list_elem_of_fmap in H as ([[l1 r1] p1] & [= -> -> ->] & H). done.
  - intros (l0 & r0 & p0 & Hin & H). exists (l0, r0, p0). split; [|done]. right.
    apply list_elem_of_fmap. by exists (l, r, p).
Qed.

(** [print_pgdir] lists the address space: whatever the directory and the
    tables hold, it reads only the tables of present directory entries, ends,
    and prints the maximal runs of present entries with the same permissions;
    every page is in a line of the tables exactly when it is mapped, and that
    line shows the permissions of its entry. *)
Theorem print_pgdir_lists vpd vpt pd pt :
  (∀ i, 0 ≤ i < NPDEENTRY → vpd i = Ok (pd i)) →
  (∀ i, 0 ≤ i < NPDEENTRY * NPTEENTRY → present (pd (i / NPTEENTRY)) = true → vpt i = Ok (pt i)) →
  print_pgdir vpd vpt = Ok (listing pd pt) ∧
  ∀ i p, 0 ≤ i < NPDEENTRY * NPTEENTRY →
    (∃ l r, PTE_line l r p ∈ listing pd pt ∧ l ≤ i < r) ↔
    present (pd (i / NPTEENTRY)) = true ∧ present (pt i) = true ∧ p = Z.land (pt i) PTE_USER.
Proof.
  intros Hd Ht. assert (∀ i, 0 ≤ i → 0 ≤ i / NPTEENTRY ∧ NPTEENTRY * (i / NPTEENTRY) ≤ i < NPTEENTRY * (i / NPTEENTRY) + NPTEENTRY) as Hdiv.
  { intros i Hi. unfold NPTEENTRY. pose proof (Z.div_mod i 1024). pose proof (Z.mod_pos_bound i 1024).
    split; [apply Z.div_pos; lia|lia]. }
  split.
  - unfold print_pgdir. apply (list_items_runs _ pd); [done|done|]. intros [[l r] p] Hin.
    destruct (runs_sound _ _ _ _ _ _ Hin) as (Hl & Hr & Hpres).
    rewrite (list_items_runs vpt pt _ _ (λ it, [let '(l, r, p) := it in PTE_line l r p])); [..|by intros [[??]?]].
    + by rewrite bind_singletons.
    + unfold NPTEENTRY. lia.
    + intros i Hi. destruct (Hdiv i) as [? ?]; [unfold NPTEENTRY in *; lia|].
      apply Ht; [unfold NPDEENTRY, NPTEENTRY in *; lia|]. apply Hpres. unfold NPTEENTRY in *. lia.
  - intros i p Hi. destruct (Hdiv i) as [? ?]; [lia|]. setoid_rewrite elem_of_listing. split.
    + intros (l & r & (l0 & r0 & p0 & Hin0 & Hin) & Hlr). apply runs_sound in Hin0 as (? & ? & Hs0), Hin as (? & ? & Hs1).
      destruct (Hs1 i Hlr) as [Hp1 Hp2]. split_and!; [|done|done]. apply Hs0. unfold NPTEENTRY in *. lia.
    + intros (Hp0 & Hp1 & ->). destruct (runs_complete pd 0 NPDEENTRY (i / NPTEENTRY)) as (l0 & r0 & Hin0 & Hi0); [|done|].
      { unfold NPDEENTRY, NPTEENTRY in *. lia. }
      destruct (runs_complete pt (l0 * NPTEENTRY) (r0 * NPTEENTRY) i) as (l & r & Hin & Hlr); [unfold NPTEENTRY in *; lia|done|].
      exists l, r. split; [|done]. by exists l0, r0, (Z.land (pd (i / NPTEENTRY)) PTE_USER).
Qed.

(** A directory with one table, which maps two pages for the kernel and one for
    the user. *)
Definition ex_pd (i : Z) : Z := if i =? 768 then 0x5007 else 0.
Definition ex_pt (i : Z) : Z :=
  if (i =? 786432) || (i =? 786433) then 0x8003 else if i =? 786434 then 0xa007 else 0.

Lemma print_pgdir_lists_witness :
  print_pgdir (λ i, Ok (ex_pd i)) (λ i, if i / 1024 =? 768 then Ok (ex_pt i) else Err Undef) =
    Ok [PDE_line 768 769 7; PTE_line 786432 786434 3; PTE_line 786434 786435 7].
Proof.
  destruct (print_pgdir_lists (λ i, Ok (ex_pd i)) (λ i, if i / 1024 =? 768 then Ok (ex_pt i) else Err Undef) ex_pd ex_pt)
    as [Hp _].
  - done.
  - intros i Hi. unfold ex_pd, NPTEENTRY in *. destruct (i / 1024 =? 768); [done|]. intros [=].
  - rewrite Hp. by vm_compute.
Defined.

(** A machine with a usable region below the kernel, one behind it and one of
    the BIOS between them. *)
Definition ex_map : list e820 :=
  [E820 0 0x9fc00 1; E820 0x9fc00 0x400 2; E820 0x100000 0x10000 1; E820 0xfffc0000 0x40000 2].
Definition ex_start : vm pmm := Vm ∅ (PmmOf [] (LinkOf EHead EHead) 0) 0 0 ∅ false.
Definition ex_descriptors : list Page := replicate 272 (PageOf 0 0 0 (LinkOf EHead EHead)).

(** The second entry lies in the first one. *)
Lemma overlapping_entries_panic :
  page_init 0xc0100800 (descriptors ex_descriptors) [E820 0x100000 0x10000 1; E820 0x100000 0x8000 1] ex_start = Err Panic.
Proof. by vm_compute. Qed.

Lemma page_init_frees_usable_witness :
  ∃ s' bs, page_init 0xc0100800 (descriptors ex_descriptors) ex_map ex_start = Ok (show_entry <$> ex_map, s') ∧
    npage s' = 272 ∧ pmm_rep (phys s') bs ∧ 0x10f ∈ pages_of bs.
Proof.
  destruct (page_init_frees_usable 0xc0100800 ex_descriptors ex_map ex_start) as (s' & bs & H1 & H2 & H3 & _ & H4).
  - destruct (default_init_spec (PmmOf [] (LinkOf EHead EHead) 0)) as (st & Hst & Hrep & _); [done| |].
    { intros i pg Hp. unfold page in Hp. cbn in Hp. apply aget_range in Hp. unfold zlen in Hp. cbn in Hp. lia. }
    vm_compute in Hst. injection Hst as <-. exact Hrep.
  - repeat constructor; done.
  - repeat constructor; unfold disjoint_entries, E820_ARM; cbn; lia.
  - done.
  - done.
  - done.
  - by vm_compute.
  - intros i pg [_ Hi]%aget_Ok. apply lookup_replicate in Hi as [-> _]. done.
  - exists s', bs. split; [exact H1|]. split; [exact H2|]. split; [exact H3|].
    destruct (H4 0x10f) as [Hi _]; [rewrite H2; vm_compute; split; done|]. apply (proj2 Hi).
    exists (E820 0x100000 0x10000 1). split; [by do 2 apply list_elem_of_further; apply list_elem_of_here|].
    vm_compute. split_and!; done.
Defined.
