(* ===== verification/PmmPaging.v ===== *)
(** * kern/mm/pmm.c: the self-test of the page tables and the paging of pmm_init

    [check_pgdir] of src/Labweek11/lab2/kern/mm/pmm.c, and the lines of
    [pmm_init] that run it, let the directory map itself at VPT and map the
    physical memory at KERNBASE, for every manager with the laws of
    PmmManager.v.  [alloc_page] may answer NULL, which [check_pgdir] does not
    test: [insert_page] is [page_insert] for an argument that may be NULL, where
    the update of [page->ref] is a write behind address 0. *)

From stdpp Require Import base gmap list numbers.
From S2P Require Import Prelude Mmu PmmManager PageTable.

Section check.
Context {M : Type} `{PmmManager M}.

Definition insert_page (s : vm M) (pgdir : Z) (page : option Z) (la perm : Z) : outcome (Z * vm M) :=
  match page with
  | Some p => page_insert s pgdir p la perm
  | None =>
      r ← get_pte s pgdir la true;
      match r with
      | (None, s) => Ok (- E_NO_MEM, s)
      | (Some _, _) => Err Undef
      end
  end.

(** [assert((ptep = get_pte(boot_pgdir, la, 0)) != NULL)] *)
Definition the_pte (s : vm M) (pgdir la : Z) : outcome (Z * vm M) :=
  r ← get_pte s pgdir la false;
  match r with
  | (Some ptep, s) => Ok (ptep, s)
  | (None, _) => Err Panic
  end.

Definition flag_set (v flag : Z) : bool := negb (Z.land v flag =? 0).

(** [assert(page_ref(p) == n)] *)
Definition assert_ref (s : vm M) (p : option Z) (n : Z) : outcome unit :=
  p ← of_option p; r ← page_ref s p; assert_ (r =? n).

(** The first page is inserted at address 0. *)
Definition check_first (s : vm M) (pgdir : Z) : outcome (option Z * vm M) :=
  r ← alloc_page s;
  let '(p1, s) := r in
  r ← insert_page s pgdir p1 0x0 0;
  let '(e, s) := r in
  assert_ (e =? 0);;
  r ← the_pte s pgdir 0x0;
  let '(ptep, s) := r in
  pte ← ldw s ptep;
  p ← pte2page s pte;
  assert_ (bool_decide (Some p = p1));;
  assert_ref s p1 1;;
  pde ← ldw s (pgdir + 4 * 0);
  kva ← KADDR s (PDE_ADDR pde);
  let ptep := kva + 4 * 1 in
  r ← get_pte s pgdir PGSIZE false;
  let '(q, s) := r in
  assert_ (bool_decide (q = Some ptep));;
  Ok (p1, s).

(** The second page is inserted at the next address, for the user. *)
Definition check_second (s : vm M) (pgdir : Z) : outcome (option Z * vm M) :=
  r ← alloc_page s;
  let '(p2, s) := r in
  r ← insert_page s pgdir p2 PGSIZE (Z.lor PTE_U PTE_W);
  let '(e, s) := r in
  assert_ (e =? 0);;
  r ← the_pte s pgdir PGSIZE;
  let '(ptep, s) := r in
  pte ← ldw s ptep;
  assert_ (flag_set pte PTE_U);;
  assert_ (flag_set pte PTE_W);;
  pde ← ldw s (pgdir + 4 * 0);
  assert_ (flag_set pde PTE_U);;
  assert_ref s p2 1;;
  Ok (p2, s).

(** The first page replaces the second. *)
Definition check_replace (s : vm M) (pgdir : Z) (p1 p2 : option Z) : outcome (vm M) :=
  r ← insert_page s pgdir p1 PGSIZE 0;
  let '(e, s) := r in
  assert_ (e =? 0);;
  assert_ref s p1 2;;
  assert_ref s p2 0;;
  r ← the_pte s pgdir PGSIZE;
  let '(ptep, s) := r in
  pte ← ldw s ptep;
  p ← pte2page s pte;
  assert_ (bool_decide (Some p = p1));;
  assert_ (Z.land pte PTE_U =? 0);;
  Ok s.

(** Both addresses are unmapped, and the page table is given back. *)
Definition check_remove (s : vm M) (pgdir : Z) (p1 p2 : option Z) : outcome (vm M) :=
  s ← page_remove s pgdir 0x0;
  assert_ref s p1 1;;
  assert_ref s p2 0;;
  s ← page_remove s pgdir PGSIZE;
  assert_ref s p1 0;;
  assert_ref s p2 0;;
  pde ← ldw s (pgdir + 4 * 0);
  t ← pde2page s pde;
  r ← page_ref s t;
  assert_ (r =? 1);;
  s ← free_page s t;
  stw s (pgdir + 4 * 0) 0.

Definition check_pgdir (s : vm M) (boot_pgdir : Z) : outcome (vm M) :=
  assert_ (npage s <=? KMEMSIZE / PGSIZE);;
  assert_ (negb (boot_pgdir =? 0) && (PGOFF boot_pgdir =? 0));;
  r ← get_page s boot_pgdir 0x0;
  let '(page, _, s) := r in
  assert_ (bool_decide (page = None));;
  r ← check_first s boot_pgdir;
  let '(p1, s) := r in
  r ← check_second s boot_pgdir;
  let '(p2, s) := r in
  s ← check_replace s boot_pgdir p1 p2;
  check_remove s boot_pgdir p1 p2.

(** The part of [pmm_init] that sets up the paging. *)
Definition pmm_init_paging (s : vm M) (boot_pgdir : Z) : outcome (vm M) :=
  s ← check_pgdir s boot_pgdir;
  pa ← PADDR boot_pgdir;
  s ← stw s (boot_pgdir + 4 * PDX VPT) (Z.lor (Z.lor pa PTE_P) PTE_W);
  boot_map_segment s boot_pgdir KERNBASE KMEMSIZE 0 PTE_W.
End check.

(** ** What the self-test does to the two addresses *)

Lemma PPN_two v : 0 ≤ v < 2 → PPN (v * 4096) = v ∧ PDX (v * 4096) = 0 ∧ PTX (v * 4096) = v ∧ 0 ≤ v * 4096 < KERNBASE.
Proof. intros Hv. assert (v = 0 ∨ v = 1) as [-> | ->] by lia; split_and!; done. Qed.

Lemma PDX_low la : 0 ≤ la < 2 ^ 32 → PPN la < 2 → PDX la = 0.
Proof.
  intros Hla. rewrite PPN_div, PDX_small by done. intros Hp. apply Z.div_small.
  pose proof (Z.div_mod la 4096 ltac:(lia)). pose proof (Z.mod_pos_bound la 4096 ltac:(lia)). lia.
Qed.

Lemma land_low v f : 0 ≤ f < 4096 → Z.land v f = Z.land (v mod 4096) f.
Proof.
  intros Hf. change 4096 with (2 ^ 12). rewrite <-Z.land_ones, <-Z.land_assoc by lia. f_equal.
  rewrite Z.land_comm, Z.land_ones, Z.mod_small by lia. done.
Qed.

Section spec.
Context {M : Type} `{PmmManagerLaws M}.
Context (s0 : vm M) (own0 : list Z) (pgdir : Z).
Hypothesis Hinv0 : pt_inv s0 own0 pgdir no_extra.
Hypothesis Hnone0 : pde_page (words s0) pgdir 0 = None.
Implicit Types s : vm M.

(** Page number [v] below 2 is mapped by the entry [e v] of the table [t], and
    nothing else has changed. *)
Record cstate (t : Z) (s : vm M) (own : list Z) (e : Z → option Z) : Prop := {
  cs_inv : pt_inv s own pgdir no_extra;
  cs_frame : frame s0 s;
  cs_bal : balance s own = balance s0 own0;
  cs_dir : dir_upd (words s0) (words s) pgdir 0 t;
  cs_pde : pde_page (words s) pgdir 0 = Some t;
  cs_walk : ∀ la, regular la →
    walk (words s) pgdir la = if decide (PPN la < 2) then e (PPN la) else walk (words s0) pgdir la;
  cs_count : ∀ p, count (words s) pgdir p =
    count (words s0) pgdir p + is_page p (PPN <$> e 0) + is_page p (PPN <$> e 1)
}.

Lemma walk0_low la : regular la → PPN la < 2 → walk (words s0) pgdir la = None.
Proof. intros [Hla _] Hp. by rewrite walk_pages, (PDX_low la Hla Hp), Hnone0. Qed.

Lemma cs_walk_at t s own e v : cstate t s own e → 0 ≤ v < 2 → walk (words s) pgdir (v * 4096) = e v.
Proof.
  intros Hc Hv. destruct (PPN_two v Hv) as (E & _ & _ & Hu). rewrite (cs_walk _ _ _ _ Hc) by (by apply user_reg).
  by rewrite E, decide_True by lia.
Qed.

(** Changing one of the two entries. *)
Definition upd (e : Z → option Z) (v : Z) (x : option Z) : Z → option Z := λ v', if decide (v' = v) then x else e v'.

Lemma upd_walk t s own e s' v x :
  cstate t s own e → 0 ≤ v < 2 →
  (∀ la, regular la → walk (words s') pgdir la = if decide (PPN la = PPN (v * 4096)) then x else walk (words s) pgdir la) →
  (∀ la, regular la →
    walk (words s') pgdir la = if decide (PPN la < 2) then upd e v x (PPN la) else walk (words s0) pgdir la) ∧
  (∀ p, count (words s') pgdir p =
    count (words s0) pgdir p + is_page p (PPN <$> upd e v x 0) + is_page p (PPN <$> upd e v x 1)).
Proof.
  intros Hc Hv Hw. destruct (PPN_two v Hv) as (E & _ & _ & Hu). rewrite E in Hw. split.
  - intros la Hla. rewrite Hw, (cs_walk _ _ _ _ Hc) by done. unfold upd. repeat case_decide; try done. lia.
  - intros p. rewrite (count_update (words s) (words s') pgdir (v * 4096) p Hu).
    + rewrite (cs_walk_at _ _ _ _ _ Hc Hv), Hw, E, decide_True by (done || by apply user_reg).
      rewrite (cs_count _ _ _ _ Hc). unfold upd.
      assert (v = 0 ∨ v = 1) as [-> | ->] by lia; repeat case_decide; try done; lia.
    + intros la Hla Hne. rewrite E in Hne. by rewrite Hw, decide_False by (done || by apply user_reg).
Qed.

(** The reference count of a page that is no table. *)
Lemma cs_ref t s own e p :
  cstate t s own e → 0 ≤ p < npage s0 → mgr_reserved (phys s0) p = false → ¬ is_table (words s) pgdir p →
  page_ref s p = Ok (count (words s0) pgdir p + is_page p (PPN <$> e 0) + is_page p (PPN <$> e 1)).
Proof.
  intros Hc Hp Hr Ht. rewrite (pi_ref _ _ _ _ (cs_inv _ _ _ _ Hc)); [|by rewrite (fr_npage _ _ (cs_frame _ _ _ _ Hc))
    |by rewrite (fr_res _ _ (cs_frame _ _ _ _ Hc))|done].
  rewrite (cs_count _ _ _ _ Hc). unfold no_extra. by rewrite Z.add_0_r.
Qed.

Lemma cs_table t s own e p :
  cstate t s own e → 0 ≤ t < 2 ^ 20 → is_table (words s) pgdir p ↔ p = t ∨ is_table (words s0) pgdir p.
Proof.
  intros Hc Ht. pose proof (cs_dir _ _ _ _ Hc) as Hd. pose proof (cs_pde _ _ _ _ Hc) as Hp0. split.
  - intros (d & Hdir & Hp). destruct (decide (d = 0)) as [->|Hne]; [left; congruence|right].
    exists d. split; [done|]. unfold pde_page in *. rewrite Hd, decide_False in Hp by (apply Hdir || done). done.
  - intros [->|(d & Hdir & Hp)]; [exists 0; split; [by split|done]|]. exists d. split; [done|].
    destruct (decide (d = 0)) as [->|Hne]; [by rewrite Hnone0 in Hp|].
    unfold pde_page in *. rewrite Hd, decide_False by (apply Hdir || done). done.
Qed.

Lemma cs_t t s own e : cstate t s own e → 0 ≤ t < npage s0 ∧ 0 ≤ t < 2 ^ 20.
Proof.
  intros Hc. pose proof (pb_struct _ _ _ (pi_base _ _ _ _ (cs_inv _ _ _ _ Hc))) as Hs.
  assert (0 ≤ t < npage s) as Ht by (eapply ps_own; [done|]; eapply (ps_pde _ _ _ _ Hs 0); [by split|apply Hc]).
  pose proof (np_bound _ _ _ _ _ Hs Ht). rewrite <-(fr_npage _ _ (cs_frame _ _ _ _ Hc)). lia.
Qed.

(** A page the kernel did not have, for data. *)
Record fresh (t p : Z) : Prop := {
  fr_range : 0 ≤ p < npage s0;
  fr_unres : mgr_reserved (phys s0) p = false;
  fr_notab : ¬ is_table (words s0) pgdir p;
  fr_t : p ≠ t;
  fr_count : count (words s0) pgdir p = 0
}.

Lemma fresh_ref t s own e p : cstate t s own e → fresh t p →
  ¬ is_table (words s) pgdir p ∧ page_ref s p = Ok (is_page p (PPN <$> e 0) + is_page p (PPN <$> e 1)) ∧
  count (words s) pgdir p = is_page p (PPN <$> e 0) + is_page p (PPN <$> e 1).
Proof.
  intros Hc [Hr Hu Ht Hne Hz]. destruct (cs_t _ _ _ _ Hc) as [_ Htb].
  assert (¬ is_table (words s) pgdir p) as Hnt by (rewrite (cs_table _ _ _ _ _ Hc Htb); tauto).
  split; [done|]. rewrite (cs_ref _ _ _ _ _ Hc Hr Hu Hnt), (cs_count _ _ _ _ Hc), Hz. done.
Qed.

Lemma cs_alloc t s own e : cstate t s own e →
  alloc_page s = Ok (None, s) ∧ free s = 0 ∨
  ∃ p s', alloc_page s = Ok (Some p, s') ∧ cstate t s' (p :: own) e ∧ fresh t p ∧ p ∉ own ∧ free s' = free s - 1.
Proof.
  intros Hc. destruct (cs_t _ _ _ _ Hc) as [_ Htb].
  destruct (alloc_page_spec s own pgdir (cs_inv _ _ _ _ Hc)) as [?|(p & s' & R & Hfr & Hn & Hni & Hw & _ & Hi & Hnt & Hz)];
    [by left|right]. exists p, s'. split; [done|]. split; [|split; [|done]].
  - pose proof Hc as [_ Hfr0 Hbal Hdir Hpde Hwalk Hcount].
    split; rewrite ?Hw; try done; [by eapply frame_trans|].
    unfold balance in *. rewrite zlen_cons, Hn. lia.
  - rewrite Hw in Hnt, Hz. rewrite (cs_table _ _ _ _ _ Hc Htb) in Hnt.
    destruct (base_own _ _ _ _ (pi_base _ _ _ _ Hi) (list_elem_of_here p own)) as [Hp Hr].
    rewrite (fr_res _ _ Hfr), (fr_res _ _ (cs_frame _ _ _ _ Hc)) in Hr.
    rewrite (fr_npage _ _ Hfr), (fr_npage _ _ (cs_frame _ _ _ _ Hc)) in Hp.
    split; try done; [tauto|tauto|]. rewrite (cs_count _ _ _ _ Hc) in Hz.
    pose proof (count_range (words s0) pgdir p). pose proof (is_page_range p (PPN <$> e 0)).
    pose proof (is_page_range p (PPN <$> e 1)). lia.
Qed.

(** A page the kernel did not have is not mapped. *)
Lemma alloc_page_count t s own e p : cstate t s own e → fresh t p → p ∉ own →
  is_page p (PPN <$> e 0) = 0 ∧ is_page p (PPN <$> e 1) = 0.
Proof.
  intros Hc Hp Hni. destruct (fresh_ref _ _ _ _ _ Hc Hp) as (_ & _ & Hcnt).
  assert (count (words s) pgdir p = 0) as Hz.
  { apply count_zero. intros la pte Hla Hw E. destruct (pi_leaf _ _ _ _ (cs_inv _ _ _ _ Hc) la pte Hla Hw) as [Ho _].
    by rewrite E in Ho. }
  pose proof (is_page_range p (PPN <$> e 0)). pose proof (is_page_range p (PPN <$> e 1)). lia.
Qed.

Lemma dir_same t s s' : dir_upd (words s0) (words s) pgdir 0 t → same_dir (words s) (words s') pgdir →
  dir_upd (words s0) (words s') pgdir 0 t.
Proof. intros H1 H2 d Hd. rewrite H2 by done. by apply H1. Qed.

Lemma cs_insert t s own e page v perm :
  cstate t s own e → page ∈ own → ¬ is_table (words s) pgdir page → 0 ≤ v < 2 → 0 ≤ perm < 4096 →
  ∃ s' own', page_insert s pgdir page (v * 4096) perm = Ok (0, s') ∧
    cstate t s' own' (upd e v (Some (Z.lor (Z.lor (page2pa page) PTE_P) perm))) ∧ page ∈ own' ∧
    match e v with
    | None => own ≡ₚ own'
    | Some old => own ≡ₚ (if decide (PPN old ≠ page ∧ count (words s) pgdir (PPN old) = 1) then PPN old :: own' else own')
    end.
Proof.
  intros Hc Hp Hnt Hv Hperm. destruct (PPN_two v Hv) as (_ & E & _ & Hu). pose proof Hc as [Hi Hfr Hbal Hdir Hpde _ _].
  destruct (page_insert_spec s own pgdir page (v * 4096) perm Hi Hp Hnt Hu Hperm)
    as [(_ & Hn & _)|(s' & own1 & own' & t' & R & Hfr' & Hi' & Hp' & Hbal' & (Ht' & Hadd) & Hown & Hw)];
    [by rewrite E, Hpde in Hn|]. rewrite E, Hpde in Hadd. rewrite E in Ht'. destruct Hadd as [-> Hsame].
  rewrite (cs_walk_at _ _ _ _ _ Hc Hv) in Hown. exists s', own'. split; [done|]. split; [|done].
  destruct (upd_walk t s own e s' v _ Hc Hv Hw) as [Hw' Hc'].
  split; try done; [by eapply frame_trans|congruence|by eapply dir_same|by rewrite (same_dir_pde _ _ _ _ Hsame)].
Qed.

Lemma cs_remove t s own e v pte :
  cstate t s own e → 0 ≤ v < 2 → e v = Some pte →
  ∃ s' own', page_remove s pgdir (v * 4096) = Ok s' ∧ cstate t s' own' (upd e v None) ∧
    own ≡ₚ (if decide (count (words s) pgdir (PPN pte) = 1) then PPN pte :: own' else own').
Proof.
  intros Hc Hv He. destruct (PPN_two v Hv) as (_ & _ & _ & Hu). pose proof Hc as [Hi Hfr Hbal Hdir Hpde _ _].
  destruct (page_remove_spec s own pgdir (v * 4096) Hi Hu) as (s' & own' & R & Hfr' & Hi' & Hw & Hsame & Hbal' & Hown).
  rewrite (cs_walk_at _ _ _ _ _ Hc Hv), He in Hown. exists s', own'. split; [done|]. split; [|done].
  destruct (upd_walk t s own e s' v _ Hc Hv Hw) as [Hw' Hc'].
  split; try done; [by eapply frame_trans|congruence|by eapply dir_same|by rewrite (same_dir_pde _ _ _ _ Hsame)].
Qed.

Lemma cs_get_pte t s own e v :
  cstate t s own e → 0 ≤ v < 2 → get_pte s pgdir (v * 4096) false = Ok (Some (waddr t v), s).
Proof.
  intros Hc Hv. destruct (PPN_two v Hv) as (_ & Ed & Et & Hu). pose proof Hc as [Hi _ _ _ Hpde _ _].
  destruct (inv_get_pte s own pgdir no_extra (v * 4096) false Hi (user_regular _ Hu)) as (r & s1 & R & Hr).
  destruct r as [a|]; [|destruct Hr as (_ & Hn & _); by rewrite Ed, Hpde in Hn].
  destruct Hr as (own1 & t' & _ & _ & _ & _ & Ht' & -> & _ & Hsame & _). destruct (Hsame eq_refl) as [-> _].
  rewrite Ed, Hpde in Ht'. injection Ht' as <-. by rewrite R, Et.
Qed.

Lemma cs_pte t s own e v pte :
  cstate t s own e → 0 ≤ v < 2 → e v = Some pte →
  the_pte s pgdir (v * 4096) = Ok (waddr t v, s) ∧ ldw s (waddr t v) = Ok pte ∧ pte2page s pte = Ok (PPN pte).
Proof.
  intros Hc Hv He. destruct (PPN_two v Hv) as (_ & Ed & Et & Hu). pose proof Hc as [Hi _ _ _ Hpde _ _].
  pose proof (pb_struct _ _ _ (pi_base _ _ _ _ Hi)) as Hs. pose proof (user_regular _ Hu) as Hreg.
  unfold the_pte. rewrite (cs_get_pte t s own e) by done. cbn [mbind outcome_bind].
  split; [done|]. destruct (entry_word s _ pgdir (v * 4096) t Hs Hreg) as (x & Ex & Hw); [by rewrite Ed|].
  rewrite (cs_walk_at _ _ _ _ _ Hc Hv), He in Hw. rewrite Et in Ex.
  destruct (present x) eqn:Ep; [|done]. injection Hw as ->. split; [by apply ldw_Ok|].
  apply (pa2page_eq s _ pgdir x Hs); [|done]. apply elem_of_app. right.
  apply (pi_leaf _ _ _ _ Hi (v * 4096)); [done|]. by rewrite (cs_walk_at _ _ _ _ _ Hc Hv).
Qed.

Definition none : Z → option Z := λ _, None.

(** The first page: the page table is new. *)
Lemma cs_first perm :
  0 ≤ perm < 4096 →
  alloc_page s0 = Ok (None, s0) ∧ free s0 = 0 ∨
  ∃ p s1, alloc_page s0 = Ok (Some p, s1) ∧ free s1 = free s0 - 1 ∧
    (page_insert s1 pgdir p 0 perm = Ok (- E_NO_MEM, s1) ∧ free s1 = 0 ∨
     ∃ t s' own', page_insert s1 pgdir p 0 perm = Ok (0, s') ∧
       cstate t s' own' (upd none 0 (Some (Z.lor (Z.lor (page2pa p) PTE_P) perm))) ∧
       own' ≡ₚ t :: p :: own0 ∧ fresh t p).
Proof.
  intros Hperm.
  destruct (alloc_page_spec s0 own0 pgdir Hinv0) as [?|(p & s1 & R & Hfr & Hn & Hni & Hw & _ & Hi & Hnt & Hz)];
    [by left|right]. exists p, s1. split; [done|]. split; [done|].
  assert (Hu : 0 ≤ 0 < KERNBASE) by done.
  destruct (page_insert_spec s1 (p :: own0) pgdir p 0 perm Hi (list_elem_of_here _ _) Hnt Hu Hperm)
    as [(R2 & _ & ?)|(s' & own1 & own' & t & R2 & Hfr' & Hi' & _ & Hbal & (Ht & Hadd) & Hown & Hwalk)]; [by left|right].
  change (PDX 0) with 0 in *. rewrite Hw in *. rewrite Hnone0 in Hadd. destruct Hadd as [-> Hdir].
  assert (walk (words s0) pgdir 0 = None) as Hw0 by (by apply walk0_low; [apply user_reg|]).
  rewrite Hw0 in Hown. exists t, s', own'. split; [done|]. split; [|split; [done|]].
  - split; try done; [by eapply frame_trans| | |].
    + rewrite Hbal. unfold balance. rewrite zlen_cons, Hn. lia.
    + intros la Hla. rewrite Hwalk by done. change (PPN 0) with 0. unfold upd, none.
      repeat case_decide; try done; [lia|]. by apply walk0_low.
    + intros q. rewrite (count_update (words s0) (words s') pgdir 0 q Hu).
      * rewrite Hw0, Hwalk, decide_True by (done || by apply user_reg). unfold upd, none.
        rewrite (decide_True (P := 0 = 0)), (decide_False (P := 1 = 0)) by done.
        cbn [fmap option_fmap option_map]. rewrite !is_page_None. lia.
      * intros la Hla Hne. by rewrite Hwalk, decide_False by (done || by apply user_reg).
  - destruct (base_own _ _ _ _ (pi_base _ _ _ _ Hi) (list_elem_of_here p own0)) as [Hp Hr].
    rewrite (fr_npage _ _ Hfr) in Hp. rewrite (fr_res _ _ Hfr) in Hr. split; try done.
    intros ->. destruct (mgr_inv_own _ _ (pb_mgr _ _ _ (pi_base _ _ _ _ Hi'))) as [Hnd _].
    rewrite <-Hown in Hnd. apply NoDup_cons in Hnd as [Hnd _]. apply Hnd. by left.
Qed.

(** The entry of the directory is cleared again. *)
Definition cleared_dir (s : vm M) : gmap Z Z := <[pgdir + 4 * 0 := 0]> (words s).

Lemma cleared_pde t s own e d :
  cstate t s own e → 0 ≤ d < 1024 → pde_page (cleared_dir s) pgdir d = pde_page (words s0) pgdir d.
Proof.
  intros Hc Hd. unfold cleared_dir. destruct (decide (d = 0)) as [->|Hne].
  - rewrite Hnone0. unfold pde_page. by rewrite lookup_insert_eq.
  - unfold pde_page. rewrite lookup_insert_ne by lia. by rewrite (cs_dir _ _ _ _ Hc), decide_False.
Qed.

Lemma cleared_other t s own e : cstate t s own e →
  ∀ d, 0 < d < 1024 → cleared_dir s !! (pgdir + 4 * d) = words s0 !! (pgdir + 4 * d).
Proof.
  intros Hc d Hd. unfold cleared_dir. rewrite lookup_insert_ne by lia.
  rewrite (cs_dir _ _ _ _ Hc) by lia. by rewrite decide_False by lia.
Qed.

Lemma cleared_walk t s own e la :
  cstate t s own e → regular la → walk (cleared_dir s) pgdir la = walk (words s0) pgdir la.
Proof.
  intros Hc Hla. pose proof (pb_struct _ _ _ (pi_base _ _ _ _ Hinv0)) as Hs. pose proof Hla as [Hla32 Hreg].
  destruct (ps_pgdir _ _ _ _ Hs) as (pd & Epd & _ & Hni).
  destruct (decide (PDX la = 0)) as [E|Hne].
  { by rewrite !walk_pages, (cleared_pde _ _ _ _ _ Hc), E, Hnone0 by apply PDX_range. }
  transitivity (walk (words s) pgdir la).
  - rewrite !walk_pages, (cleared_pde _ _ _ _ _ Hc) by apply PDX_range.
    assert (pde_page (words s) pgdir (PDX la) = pde_page (words s0) pgdir (PDX la)) as ->.
    { unfold pde_page. by rewrite (cs_dir _ _ _ _ Hc), decide_False by (done || apply PDX_range). }
    destruct (pde_page (words s0) pgdir (PDX la)) as [q|] eqn:Eq; cbn; [|done].
    unfold cleared_dir. rewrite Epd, waddr_pgdir, lookup_insert_ne; [done|].
    intros [-> _]%waddr_inj; [|done|apply PTX_range]. apply Hni. by apply (ps_pde _ _ _ _ Hs _ _ (dir_PDX _ Hreg)).
  - rewrite (cs_walk _ _ _ _ Hc) by done. rewrite decide_False; [done|].
    intros Hp. by destruct Hne; apply PDX_low.
Qed.

(** The state after the table has been given back: the tables are as before. *)
Record restored (s : vm M) : Prop := {
  rs_inv : pt_inv s own0 pgdir no_extra;
  rs_frame : frame s0 s;
  rs_free : free s = free s0;
  rs_zero : words s !! (pgdir + 4 * 0) = Some 0;
  rs_dir : ∀ d, 0 < d < 1024 → words s !! (pgdir + 4 * d) = words s0 !! (pgdir + 4 * d);
  rs_pde : ∀ d, 0 ≤ d < 1024 → pde_page (words s) pgdir d = pde_page (words s0) pgdir d;
  rs_walk : ∀ la, regular la → walk (words s) pgdir la = walk (words s0) pgdir la
}.

Lemma cs_owned_word t s own e :
  cstate t s own e → ldw s (pgdir + 4 * 0) = Ok (pde_word t) ∧ KADDR s (PDE_ADDR (pde_word t)) = Ok (waddr t 0).
Proof.
  intros Hc. destruct (cs_t _ _ _ _ Hc) as [Htn Htb]. pose proof Hc as [Hi Hfr _ Hdir _ _ _]. split.
  - apply ldw_Ok. rewrite Hdir by done. by rewrite decide_True.
  - destruct (pde_bits t Htb) as (_ & _ & E). fold (pde_word t) in E.
    unfold PDE_ADDR. rewrite PTE_ADDR_div, <-PPN_div, E.
    apply (KADDR_page s t (kpages s pgdir ++ own) pgdir); [apply Hi|]. by rewrite (fr_npage _ _ Hfr).
Qed.

Lemma cs_owned t s own l e :
  cstate t s own e → own ≡ₚ t :: l →
  t ∉ l ∧ page_ref s t = Ok 1 ∧ pde2page s (pde_word t) = Ok t.
Proof.
  intros Hc Hown. destruct (cs_t _ _ _ _ Hc) as [Htn Htb]. pose proof Hc as [Hi Hfr _ Hdir Hpde _ _].
  destruct (mgr_inv_own _ _ (pb_mgr _ _ _ (pi_base _ _ _ _ Hi))) as [Hnd _].
  rewrite Hown in Hnd. apply NoDup_cons in Hnd as [Hni _].
  split; [done|]. split; [apply (pi_tref _ _ _ _ Hi); [rewrite Hown; by left|exists 0; by split]|].
  unfold pde2page, pa2page. destruct (pde_bits t Htb) as (_ & _ & E). fold (pde_word t) in E.
  unfold PDE_ADDR. rewrite (PPN_div (PTE_ADDR _)), PTE_ADDR_div, Z.div_mul, <-PPN_div, E by lia.
  rewrite (fr_npage _ _ Hfr). by rewrite (proj2 (Z.leb_gt _ _)) by lia.
Qed.

Lemma not_gone (gone : list Z) (e : Z → option Z) v p :
  (∀ q, PPN <$> e v = Some q → q ∈ gone) → p ∉ gone → is_page p (PPN <$> e v) = 0.
Proof.
  intros Hg Hp. destruct (PPN <$> e v) as [q|]; [|done]. apply is_page_ne. intros ->. by apply Hp, Hg.
Qed.

Lemma restored_base t s own e m tl :
  cstate t s own e → (∀ q, mgr_reserved m q = mgr_reserved (phys s) q) →
  mgr_npage m = mgr_npage (phys s) → mgr_inv m own0 →
  pt_base (set_tlb (set_words (set_phys s m) (cleared_dir s)) tl) own0 pgdir.
Proof.
  intros Hc Hm Hmn Hmi. pose proof Hc as [Hi Hfr _ _ _ _ _]. pose proof (cleared_pde t s own e) as Hpde.
  set (s' := set_tlb (set_words (set_phys s m) (cleared_dir s)) tl).
  assert (frame s0 s') as Hfr' by (split; try apply Hfr; intros q; cbn; rewrite Hm; apply Hfr).
  pose proof (pi_base _ _ _ _ Hinv0) as [Hs0 _ Hn0 Hpg0]. pose proof (pi_base _ _ _ _ Hi) as [Hs _ Hn _].
  split; [|done|cbn; by rewrite Hmn, Hn|rewrite (fr_res _ _ Hfr'); exact Hpg0].
  rewrite (frame_kpages s0) by done. change (words s') with (cleared_dir s). rewrite (fr_npage _ _ Hfr').
  pose proof Hs0 as [H1 H2 H3 _ H5 H6]. split; try done.
  - intros p i Hp Hi'. rewrite <-(fr_npage _ _ Hfr) in Hp. destruct (ps_words _ _ _ _ Hs p i Hp Hi') as (v & Ev & Hv).
    unfold cleared_dir. destruct (decide (pgdir + 4 * 0 = waddr p i)) as [->|Hne];
      [exists 0; by rewrite lookup_insert_eq|exists v; by rewrite lookup_insert_ne].
  - intros d q Hd. rewrite (Hpde d) by (done || apply Hd). by apply H5.
  - intros d d' q Hd Hd'. rewrite (Hpde d), (Hpde d') by (done || apply Hd || apply Hd'). by apply H6.
Qed.

(** The pages [gone] have been given back, the page table among them, and the
    TLB holds no entry for the two addresses any more. *)
Lemma restored_inv t s own gone e m tl :
  cstate t s own e → own ≡ₚ gone ++ own0 → t ∈ gone →
  (∀ v q, (v = 0 ∨ v = 1) → PPN <$> e v = Some q → q ∈ gone) →
  (∀ q, mgr_ref m q = (if decide (q ∈ gone) then Ok 0 else mgr_ref (phys s) q) ∧
    mgr_reserved m q = mgr_reserved (phys s) q) →
  mgr_npage m = mgr_npage (phys s) → mgr_inv m own0 → mgr_nr_free_pages m = free s + zlen gone →
  (∀ v pte, tl !! v = Some pte → tlb s !! v = Some pte ∧ (0 ≤ v < 2 → e v = None)) →
  restored (set_tlb (set_words (set_phys s m) (cleared_dir s)) tl).
Proof.
  intros Hc Hown Htg Heg Hm Hmn Hmi Hnr Htl. pose proof Hc as [Hi Hfr Hbal _ _ _ Hcount].
  destruct (cs_t _ _ _ _ Hc) as [_ Htb].
  assert (∀ q, q ∈ gone → q ∉ own0) as Hni.
  { destruct (mgr_inv_own _ _ (pb_mgr _ _ _ (pi_base _ _ _ _ Hi))) as [Hnd _].
    rewrite Hown in Hnd. apply NoDup_app in Hnd as (_ & Hd & _). exact Hd. }
  pose proof (cleared_pde t s own e) as Hpde. pose proof (cleared_walk t s own e) as Hwalk.
  set (s' := set_tlb (set_words (set_phys s m) (cleared_dir s)) tl).
  assert (frame s0 s') as Hfr' by (split; try apply Hfr; intros q; cbn; rewrite (proj2 (Hm q)); apply Hfr).
  assert (∀ p, is_table (words s') pgdir p ↔ is_table (words s0) pgdir p) as Htab.
  { intros p. apply is_table_ext. intros d Hd. by eapply Hpde. }
  split; [|done|cbn; unfold balance in Hbal; rewrite Hown, zlen_app in Hbal; unfold free in *; cbn; lia
    |apply lookup_insert_eq|by apply (cleared_other t s own e)|intros d Hd; by eapply Hpde|intros la Hla; by eapply Hwalk].
  split.
  - apply (restored_base t s own e m tl); [done|intros q; apply Hm|done|done].
  - intros la pte Hla. rewrite Htab. change (words s') with (cleared_dir s). rewrite Hwalk by (done || by apply user_reg).
    by apply (pi_leaf _ _ _ _ Hinv0).
  - intros p Hp. rewrite Htab. intros Ht. unfold page_ref. cbn. rewrite (proj1 (Hm p)), decide_False.
    2:{ intros E. by apply (Hni p). }
    apply (pi_tref _ _ _ _ Hi); [rewrite Hown; apply elem_of_app; by right|]. apply (cs_table _ _ _ _ _ Hc Htb). by right.
  - intros p Hp. rewrite (fr_res _ _ Hfr'), Htab. intros Hr Ht.
    assert (count (words s') pgdir p = count (words s0) pgdir p) as ->.
    { apply count_ext. intros la Hla. by eapply Hwalk, user_reg. }
    unfold page_ref. cbn. rewrite (proj1 (Hm p)). unfold no_extra. case_decide as E.
    + rewrite count_zero; [done|]. intros la pte Hla Hw Eq.
      destruct (pi_leaf _ _ _ _ Hinv0 la pte Hla Hw) as [Ho _]. apply (Hni p E). by rewrite <-Eq.
    + rewrite (fr_npage _ _ Hfr') in Hp. etransitivity; [apply (cs_ref _ _ _ _ _ Hc Hp Hr)|].
      * rewrite (cs_table _ _ _ _ _ Hc Htb). by intros [->|?].
      * rewrite (not_gone gone e 0 p (λ q, Heg 0 q (or_introl eq_refl)) E).
        rewrite (not_gone gone e 1 p (λ q, Heg 1 q (or_intror eq_refl)) E). f_equal. lia.
  - cbn. intros Ec v pte Hv Hl. destruct (Htl v pte Hl) as [Hl' Hev].
    destruct (pi_tlb _ _ _ _ Hi Ec v pte Hv Hl') as [Hvr Hw]. split; [done|].
    assert (regular (v * 4096)) as Hreg by (split; [lia|done]).
    rewrite (Hwalk (v * 4096)) by done. rewrite (cs_walk _ _ _ _ Hc) in Hw by done.
    case_decide as Hp; [|done]. exfalso. rewrite vpn_indices in * by done. rewrite Hev in Hw by lia. done.
Qed.

Lemma cs_free t s own e :
  cstate t s own e → e 0 = None → e 1 = None → own ≡ₚ t :: own0 →
  ∃ s1 s2, free_page s t = Ok s1 ∧ stw s1 (pgdir + 4 * 0) 0 = Ok s2 ∧ restored s2.
Proof.
  intros Hc He0 He1 Hown. pose proof Hc as [Hi _ _ Hdir _ _ _].
  pose proof (mgr_inv_perm _ _ _ (pb_mgr _ _ _ (pi_base _ _ _ _ Hi)) Hown) as Hm.
  destruct (mgr_free_law (phys s) t 1 own0 Hm ltac:(lia)) as (m & R & Href & Hnp & Hm').
  unfold free_page. rewrite free_pages_eq, R. cbn [mbind outcome_bind].
  eexists _, _. split; [done|]. split.
  - rewrite (stw_Ok _ _ _ (pde_word t)); [done|]. cbn. rewrite Hdir by done. by rewrite decide_True.
  - change (u32 0) with 0. apply (restored_inv t s own [t] e m (tlb s)); try done.
    + by left.
    + intros v q [-> | ->]; rewrite ?He0, ?He1; done.
    + intros q. destruct (Href q) as [-> Hr]. split; [|done]. apply decide_ext.
      rewrite list_elem_of_singleton. lia.
    + exact (mgr_free_nr (phys s) t 1 own0 m Hm ltac:(lia) R).
    + intros v pte Hv. split; [done|]. intros Hr. assert (v = 0 ∨ v = 1) as [-> | ->] by lia; done.
Qed.

(** ** The parts of check_pgdir *)

(** The entry [page_insert] writes. *)
Definition entry (p perm : Z) : Z := Z.lor (Z.lor (page2pa p) PTE_P) perm.

Lemma entry_spec t p perm : fresh t p → 0 ≤ perm < 4096 → PPN (entry p perm) = p ∧ entry p perm mod 4096 = Z.lor PTE_P perm.
Proof.
  intros Hp Hperm. pose proof (np_bound _ _ _ _ _ (pb_struct _ _ _ (pi_base _ _ _ _ Hinv0)) (fr_range _ _ Hp)).
  unfold entry. rewrite page2pa_eq by lia. by destruct (entry_bits p perm ltac:(lia) Hperm) as (_ & _ & ? & ?).
Qed.

Lemma is_entry t p q perm :
  fresh t q → 0 ≤ perm < 4096 → is_page p (PPN <$> Some (entry q perm)) = if decide (p = q) then 1 else 0.
Proof.
  intros Hq Hperm. cbn [fmap option_fmap option_map]. rewrite (proj1 (entry_spec t q perm Hq Hperm)).
  case_decide as E; [subst; by rewrite is_page_eq|by apply is_page_ne].
Qed.

Lemma assert_ref_Ok s p n : page_ref s p = Ok n → assert_ref s (Some p) n = Ok ().
Proof. intros E. unfold assert_ref. cbn. rewrite E. cbn. by rewrite Z.eqb_refl. Qed.

(** With a NULL page. *)
Lemma insert_null_none s own la perm :
  pt_inv s own pgdir no_extra → PDX la ≠ PDX VPT → pde_page (words s) pgdir (PDX la) = None → free s = 0 →
  insert_page s pgdir None la perm = Ok (- E_NO_MEM, s).
Proof.
  intros Hi Hreg Hn Hf. unfold insert_page.
  destruct (inv_get_pte s own pgdir no_extra la true Hi Hreg) as (r & s' & -> & Hr). cbn [mbind outcome_bind].
  destruct r as [a|]; [exfalso|by destruct Hr as [-> _]].
  destruct Hr as (own' & t & _ & Hi' & Hbal & (_ & Hadd) & _). rewrite Hn in Hadd. destruct Hadd as [-> _].
  pose proof (mgr_nr_nonneg _ _ (pb_mgr _ _ _ (pi_base _ _ _ _ Hi'))).
  unfold balance, free in *. rewrite zlen_cons in Hbal. lia.
Qed.

Lemma insert_null_some t s own e v perm :
  cstate t s own e → 0 ≤ v < 2 → insert_page s pgdir None (v * 4096) perm = Err Undef.
Proof.
  intros Hc Hv. destruct (PPN_two v Hv) as (_ & E & _ & Hu). pose proof Hc as [Hi _ _ _ Hpde _ _]. unfold insert_page.
  destruct (inv_get_pte s own pgdir no_extra (v * 4096) true Hi (user_regular _ Hu)) as (r & s' & -> & Hr).
  cbn [mbind outcome_bind]. destruct r as [a|]; [done|]. destruct Hr as (_ & Hn & _). by rewrite E, Hpde in Hn.
Qed.

Lemma check_first_spec :
  (free s0 < 2 → check_first s0 pgdir = Err Panic) ∧
  (2 ≤ free s0 → ∃ p t s own, check_first s0 pgdir = Ok (Some p, s) ∧
     cstate t s own (upd none 0 (Some (entry p 0))) ∧ own ≡ₚ t :: p :: own0 ∧ fresh t p).
Proof.
  unfold check_first. destruct (cs_first 0 ltac:(lia)) as [[-> Hf]|(p & s1 & -> & Hf1 & Hins)]; cbn [mbind outcome_bind].
  { split; [intros _|lia]. by rewrite (insert_null_none s0 own0). }
  unfold insert_page. destruct Hins as [[-> Hf2]|(t & s & own & -> & Hc & Hown & Hp)]; cbn [mbind outcome_bind].
  { split; [done|lia]. }
  assert (free s0 = free s + 2) as Hfree.
  { pose proof (cs_bal _ _ _ _ Hc) as Hb. unfold balance in Hb. rewrite Hown, !zlen_cons in Hb. lia. }
  assert (0 ≤ free s) by exact (mgr_nr_nonneg _ _ (pb_mgr _ _ _ (pi_base _ _ _ _ (cs_inv _ _ _ _ Hc)))).
  split; [lia|]. intros _. exists p, t, s, own. fold (entry p 0) in Hc.
  assert (upd none 0 (Some (entry p 0)) 0 = Some (entry p 0)) as He by done.
  destruct (cs_pte t s own _ 0 _ Hc ltac:(lia) He) as (R1 & R2 & R3). destruct (entry_spec t p 0 Hp ltac:(lia)) as [Eppn _].
  change (0 * 4096) with 0 in R1. cbn [Z.eqb assert_ mbind outcome_bind]. rewrite R1. cbn [mbind outcome_bind].
  rewrite R2. cbn [mbind outcome_bind]. rewrite R3, Eppn. cbn [mbind outcome_bind]. rewrite bool_decide_true by done.
  cbn [assert_ mbind outcome_bind].
  destruct (fresh_ref _ _ _ _ _ Hc Hp) as (_ & Href & _).
  rewrite He, (is_entry t) in Href by (done || lia). rewrite decide_True in Href by done.
  rewrite (assert_ref_Ok s p 1) by exact Href. cbn [mbind outcome_bind].
  destruct (cs_owned_word t s own _ Hc) as (-> & Hkaddr). cbn [mbind outcome_bind]. rewrite Hkaddr. cbn [mbind outcome_bind].
  rewrite waddr_pgdir. change PGSIZE with (1 * 4096). rewrite (cs_get_pte t s own _ 1 Hc) by lia. cbn [mbind outcome_bind].
  by rewrite bool_decide_true by done.
Qed.

Lemma cs_free_nonneg t s own e : cstate t s own e → 0 ≤ free s.
Proof. intros Hc. exact (mgr_nr_nonneg _ _ (pb_mgr _ _ _ (pi_base _ _ _ _ (cs_inv _ _ _ _ Hc)))). Qed.

Lemma entry_flag t p perm f :
  fresh t p → 0 ≤ perm < 4096 → 0 ≤ f < 4096 → Z.land (entry p perm) f = Z.land (Z.lor PTE_P perm) f.
Proof. intros Hp Hperm Hf. by rewrite land_low, (proj2 (entry_spec t p perm Hp Hperm)) by done. Qed.

Lemma entry_6 t p : fresh t p → flag_set (entry p 6) PTE_U = true ∧ flag_set (entry p 6) PTE_W = true.
Proof. intros Hp. unfold flag_set. by rewrite !(entry_flag t) by (done || unfold PTE_U, PTE_W; lia). Qed.

Lemma pde_word_user t : 0 ≤ t → flag_set (pde_word t) PTE_U = true.
Proof.
  intros Ht. unfold flag_set, PTE_U. rewrite land_low by lia. unfold pde_word, PTE_P, PTE_U, PTE_W.
  rewrite <-!Z.lor_assoc. change (Z.lor 4 (Z.lor 2 1)) with 7. change 4096 with (2 ^ 12).
  rewrite lor_low by lia. rewrite Z.add_comm, Z.mod_add by lia. done.
Qed.

Lemma check_second_spec t s own e :
  cstate t s own e → e 1 = None →
  (free s = 0 → check_second s pgdir = Err Undef) ∧
  (0 < free s → ∃ p s' own', check_second s pgdir = Ok (Some p, s') ∧
     cstate t s' own' (upd e 1 (Some (entry p 6))) ∧ own' ≡ₚ p :: own ∧ fresh t p ∧ p ∉ own).
Proof.
  intros Hc He. unfold check_second. change (Z.lor PTE_U PTE_W) with 6.
  destruct (cs_alloc t s own e Hc) as [[-> Hf]|(p & s1 & -> & Hc1 & Hp & Hni & Hf)]; cbn [mbind outcome_bind].
  { split; [intros _|lia]. change PGSIZE with (1 * 4096). by rewrite (insert_null_some t s own e) by (done || lia). }
  pose proof (cs_free_nonneg _ _ _ _ Hc1). split; [lia|]. intros _. change PGSIZE with (1 * 4096).
  destruct (fresh_ref _ _ _ _ _ Hc1 Hp) as (Hnt & _).
  destruct (cs_insert t s1 (p :: own) e p 1 6 Hc1 (list_elem_of_here _ _) Hnt ltac:(lia) ltac:(lia))
    as (s' & own' & R & Hc' & _ & Hown). fold (entry p 6) in Hc'. rewrite He in Hown.
  exists p, s', own'. cbn [insert_page]. rewrite R. cbn [Z.eqb assert_ mbind outcome_bind].
  assert (upd e 1 (Some (entry p 6)) 1 = Some (entry p 6)) as He1 by done.
  destruct (cs_pte t s' own' _ 1 _ Hc' ltac:(lia) He1) as (R1 & R2 & _). rewrite R1. cbn [mbind outcome_bind].
  rewrite R2. cbn [mbind outcome_bind]. destruct (entry_6 t p Hp) as [-> ->].
  cbn [assert_ mbind outcome_bind]. destruct (cs_owned_word t s' own' _ Hc') as (-> & _). cbn [mbind outcome_bind].
  rewrite pde_word_user by apply (cs_t _ _ _ _ Hc'). cbn [assert_ mbind outcome_bind].
  destruct (fresh_ref _ _ _ _ _ Hc' Hp) as (_ & Href & Hcnt). rewrite He1, (is_entry t), decide_True in Href by (done || lia).
  assert (is_page p (PPN <$> upd e 1 (Some (entry p 6)) 0) = 0) as Hz.
  { exact (proj1 (alloc_page_count t s own e p Hc Hp Hni)). }
  rewrite Hz in Href. rewrite (assert_ref_Ok s' p 1) by exact Href. done.
Qed.

(** The reference count of a page by the two entries. *)
Lemma cs_assert_ref t s own e p n :
  cstate t s own e → fresh t p → is_page p (PPN <$> e 0) + is_page p (PPN <$> e 1) = n →
  assert_ref s (Some p) n = Ok ().
Proof. intros Hc Hp <-. apply assert_ref_Ok. by eapply fresh_ref. Qed.

Lemma check_replace_spec t s own own1 e p1 p2 :
  cstate t s own e → e 0 = Some (entry p1 0) → e 1 = Some (entry p2 6) →
  fresh t p1 → fresh t p2 → p1 ≠ p2 → p1 ∈ own → own ≡ₚ p2 :: own1 →
  ∃ s' own', check_replace s pgdir (Some p1) (Some p2) = Ok s' ∧
    cstate t s' own' (upd e 1 (Some (entry p1 0))) ∧ own' ≡ₚ own1.
Proof.
  intros Hc He0 He1 Hp1 Hp2 Hne Hin Hown. unfold check_replace. cbn [insert_page]. change PGSIZE with (1 * 4096).
  destruct (fresh_ref _ _ _ _ _ Hc Hp1) as (Hnt & _).
  destruct (cs_insert t s own e p1 1 0 Hc Hin Hnt ltac:(lia) ltac:(lia)) as (s' & own' & -> & Hc' & _ & Hown').
  fold (entry p1 0) in Hc'. rewrite He1, (proj1 (entry_spec t p2 6 Hp2 ltac:(lia))) in Hown'.
  destruct (fresh_ref _ _ _ _ _ Hc Hp2) as (_ & _ & Hcnt).
  rewrite He0, He1, (is_entry t p2 p1), (is_entry t p2 p2), decide_False, decide_True in Hcnt by (done || lia || congruence).
  rewrite decide_True, Hown in Hown' by (split; [congruence|exact Hcnt]). apply Permutation_cons_inv in Hown'.
  exists s', own'. split; [|done]. cbn [Z.eqb assert_ mbind outcome_bind].
  assert (upd e 1 (Some (entry p1 0)) 0 = Some (entry p1 0)) as He0' by exact He0.
  assert (upd e 1 (Some (entry p1 0)) 1 = Some (entry p1 0)) as He1' by done.
  rewrite (cs_assert_ref t s' own' _ p1 2 Hc' Hp1), (cs_assert_ref t s' own' _ p2 0 Hc' Hp2)
    by (rewrite He0', He1', !(is_entry t) by (done || lia); by case_decide).
  cbn [mbind outcome_bind]. destruct (cs_pte t s' own' _ 1 _ Hc' ltac:(lia) He1') as (R1 & R2 & R3).
  rewrite R1. cbn [mbind outcome_bind]. rewrite R2. cbn [mbind outcome_bind]. rewrite R3. cbn [mbind outcome_bind].
  rewrite (proj1 (entry_spec t p1 0 Hp1 ltac:(lia))), bool_decide_true by done. cbn [assert_ mbind outcome_bind].
  by rewrite (entry_flag t) by (done || unfold PTE_U; lia).
Qed.

Lemma check_remove_spec t s own e p1 p2 :
  cstate t s own e → e 0 = Some (entry p1 0) → e 1 = Some (entry p1 0) →
  fresh t p1 → fresh t p2 → p1 ≠ p2 → own ≡ₚ t :: p1 :: own0 →
  ∃ s', check_remove s pgdir (Some p1) (Some p2) = Ok s' ∧ restored s'.
Proof.
  intros Hc He0 He1 Hp1 Hp2 Hne Hown. unfold check_remove. change PGSIZE with (1 * 4096).
  pose proof (proj1 (entry_spec t p1 0 Hp1 ltac:(lia))) as Eppn.
  assert (Hne' : p2 ≠ p1) by congruence.
  destruct (cs_remove t s own e 0 _ Hc ltac:(lia) He0) as (s1 & own1 & R1 & Hc1 & Hown1).
  rewrite Eppn, decide_False in Hown1.
  2:{ destruct (fresh_ref _ _ _ _ _ Hc Hp1) as (_ & _ & ->). rewrite He0, He1, !(is_entry t), decide_True by (done || lia). lia. }
  change (0 * 4096) with 0 in R1. rewrite R1. cbn [mbind outcome_bind].
  assert (upd e 0 None 1 = Some (entry p1 0)) as He1' by exact He1.
  assert (upd e 0 None 0 = None) as He0' by done.
  rewrite (cs_assert_ref t s1 own1 _ p1 1 Hc1 Hp1), (cs_assert_ref t s1 own1 _ p2 0 Hc1 Hp2)
    by (rewrite He0', He1', (is_entry t) by (done || lia); cbn; rewrite is_page_None; by case_decide).
  cbn [mbind outcome_bind].
  destruct (cs_remove t s1 own1 _ 1 _ Hc1 ltac:(lia) He1') as (s2 & own2 & R2 & Hc2 & Hown2).
  rewrite Eppn, decide_True in Hown2.
  2:{ destruct (fresh_ref _ _ _ _ _ Hc1 Hp1) as (_ & _ & ->). rewrite He0', He1', (is_entry t), decide_True by (done || lia). done. }
  rewrite R2. cbn [mbind outcome_bind].
  rewrite (cs_assert_ref t s2 own2 _ p1 0 Hc2 Hp1), (cs_assert_ref t s2 own2 _ p2 0 Hc2 Hp2) by done.
  assert (own2 ≡ₚ t :: own0) as Hown'.
  { apply (Permutation_cons_inv (a := p1)). rewrite <-Hown2, <-Hown1, Hown. apply Permutation_swap. }
  destruct (cs_owned t s2 own2 _ _ Hc2 Hown') as (_ & Href & Hpage).
  destruct (cs_owned_word t s2 own2 _ Hc2) as (Hword & _).
  cbn [mbind outcome_bind]. rewrite Hword. cbn [mbind outcome_bind]. rewrite Hpage. cbn [mbind outcome_bind]. rewrite Href.
  cbn [Z.eqb Pos.eqb assert_ mbind outcome_bind].
  destruct (cs_free t s2 own2 _ Hc2 eq_refl eq_refl Hown') as (s3 & s4 & -> & R4 & Hr). exists s4.
  cbn [mbind outcome_bind]. by rewrite R4.
Qed.

(** [check_pgdir]: with three free pages it succeeds and leaves everything as it
    was. *)
Lemma check_pgdir_spec :
  (free s0 < 2 → check_pgdir s0 pgdir = Err Panic) ∧
  (free s0 = 2 → check_pgdir s0 pgdir = Err Undef) ∧
  (3 ≤ free s0 → ∃ s, check_pgdir s0 pgdir = Ok s ∧ restored s).
Proof.
  pose proof (pb_struct _ _ _ (pi_base _ _ _ _ Hinv0)) as Hs. unfold check_pgdir.
  rewrite (proj2 (Z.leb_le _ _)) by apply (ps_np _ _ _ _ Hs). cbn [assert_ mbind outcome_bind].
  destruct (ps_pgdir _ _ _ _ Hs) as (pd & Epd & Hpd & _).
  assert (negb (pgdir =? 0) && (PGOFF pgdir =? 0) = true) as ->.
  { rewrite PGOFF_mod, Epd. unfold waddr, KERNBASE. apply andb_true_iff. split.
    - apply negb_true_iff, Z.eqb_neq. lia.
    - apply Z.eqb_eq. replace (0xC0000000 + pd * 4096 + 4 * 0) with ((0xC0000 + pd) * 4096) by lia. by apply Z.mod_mul. }
  cbn [assert_ mbind outcome_bind]. assert (Hu : 0 ≤ 0 < KERNBASE) by done.
  destruct (get_page_spec s0 own0 pgdir 0 Hinv0 Hu) as (ptep & ->). cbn [mbind outcome_bind].
  rewrite walk0_low by (done || by apply user_reg). rewrite bool_decide_true by done. cbn [assert_ mbind outcome_bind].
  destruct check_first_spec as [H1 H2]. split; [intros Hf; by rewrite H1|].
  destruct (decide (2 ≤ free s0)) as [Hf|]; [|split; intros; lia].
  destruct (H2 Hf) as (p1 & t & s & own & -> & Hc & Hown & Hp1). cbn [mbind outcome_bind].
  assert (free s = free s0 - 2) as Hfree.
  { pose proof (cs_bal _ _ _ _ Hc) as Hb. unfold balance in Hb. rewrite Hown, !zlen_cons in Hb. lia. }
  destruct (check_second_spec t s own _ Hc eq_refl) as [H3 H4]. split; [intros; by rewrite H3 by lia|]. intros Hf3.
  destruct H4 as (p2 & s2 & own2 & -> & Hc2 & Hown2 & Hp2 & Hni); [lia|]. cbn [mbind outcome_bind].
  assert (p1 ∈ own) as Hin1 by (rewrite Hown; set_solver).
  assert (p1 ≠ p2) as Hne by (by intros ->).
  destruct (check_replace_spec t s2 own2 own _ p1 p2 Hc2 eq_refl eq_refl Hp1 Hp2 Hne) as (s3 & own3 & -> & Hc3 & Hown3);
    [rewrite Hown2; by right|done|]. cbn [mbind outcome_bind].
  apply (check_remove_spec t s3 own3 _ p1 p2 Hc3); try done. by rewrite Hown3.
Qed.
End spec.

(** ** The kernel part of the directory *)

Lemma PDX_range_le la la' : 0 ≤ la ≤ la' → la' < 2 ^ 32 → PDX la ≤ PDX la'.
Proof. intros H1 H2. rewrite !PDX_small by lia. apply Z.div_le_mono; lia. Qed.

Lemma PDX_user la la' : 0 ≤ la < KERNBASE → KERNBASE ≤ la' < 2 ^ 32 → PDX la ≠ PDX la'.
Proof.
  unfold KERNBASE. intros H1 H2. rewrite !PDX_small by lia.
  pose proof (Z.div_lt_upper_bound la (2 ^ 22) 768 ltac:(lia) ltac:(lia)).
  pose proof (Z.div_le_lower_bound la' (2 ^ 22) 768 ltac:(lia) ltac:(lia)). lia.
Qed.

Lemma PDX_next la : 0 ≤ la → la mod 4096 = 0 → la + 4096 < 2 ^ 32 → PDX (la + 4096) = PDX la ∨ PDX (la + 4096) = PDX la + 1.
Proof.
  intros H0 Hm H1. rewrite !PDX_small by lia. pose proof (Z.div_mod la (2 ^ 22) ltac:(lia)) as E.
  pose proof (Z.mod_pos_bound la (2 ^ 22) ltac:(lia)) as Hr.
  destruct (decide (la mod 2 ^ 22 + 4096 < 2 ^ 22)).
  - left. symmetry. apply (Z.div_unique_pos _ _ _ (la mod 2 ^ 22 + 4096)); lia.
  - right. symmetry. apply (Z.div_unique_pos _ _ _ (la mod 2 ^ 22 + 4096 - 2 ^ 22)); lia.
Qed.

Section paging.
Context {M : Type} `{PmmManagerLaws M}.
Implicit Types s : vm M.

(** A state that only differs in words that no walk below VPT reads. *)
Lemma inv_words s own pgdir w :
  pt_inv s own pgdir no_extra →
  (∀ p i, 0 ≤ p < npage s → 0 ≤ i < 1024 → ∃ v, w !! waddr p i = Some v ∧ 0 ≤ v < 2 ^ 32) →
  (∀ d, dir d → pde_page w pgdir d = pde_page (words s) pgdir d) →
  (∀ la, 0 ≤ la < KERNBASE → walk w pgdir la = walk (words s) pgdir la) →
  (∀ v pte, PDX (v * 4096) ≠ PDX VPT → tlb s !! v = Some pte →
     walk (words s) pgdir (v * 4096) = Some pte → walk w pgdir (v * 4096) = Some pte) →
  pt_inv (set_words s w) own pgdir no_extra.
Proof.
  intros [[Hs Hm Hn Hp] Hleaf Htref Href Htlb] Hw Hpde Hwalk Ht.
  assert (∀ p, is_table w pgdir p ↔ is_table (words s) pgdir p) as Htab.
  { intros p. split; intros (d & Hd & E); exists d; (split; [done|]); by rewrite ?Hpde in * by done. }
  split.
  - split; try done. cbn. destruct Hs as [H1 H2 H3 _ H5 H6]. split; try done.
    + intros d t Hd. rewrite Hpde by done. by apply H5.
    + intros d d' t Hd Hd'. rewrite !Hpde by done. by apply H6.
  - intros la pte Hla. cbn. rewrite Hwalk by done. rewrite Htab. by apply Hleaf.
  - intros p Ho. cbn. rewrite Htab. by apply Htref.
  - intros p Hpn Hpr. cbn. rewrite Htab. intros Hnt. rewrite (count_ext (words s)) by done. by apply Href.
  - cbn. intros E v pte Hv Hl. destruct (Htlb E v pte Hv Hl). split; [done|]. by apply Ht.
Qed.

Lemma words_insert_ok s own pgdir a v :
  pt_struct (words s) (npage s) own pgdir → 0 ≤ v < 2 ^ 32 →
  ∀ p i, 0 ≤ p < npage s → 0 ≤ i < 1024 → ∃ x, <[a := v]> (words s) !! waddr p i = Some x ∧ 0 ≤ x < 2 ^ 32.
Proof.
  intros Hs Hv p i Hp Hi. destruct (decide (a = waddr p i)) as [->|Hne]; [exists v; by rewrite lookup_insert_eq|].
  rewrite lookup_insert_ne by done. by apply (ps_words _ _ _ _ Hs).
Qed.

(** The directory is entered into itself. *)
Lemma set_VPT s own pgdir v :
  pt_inv s own pgdir no_extra → 0 ≤ v < 2 ^ 32 →
  let w := <[pgdir + 4 * PDX VPT := v]> (words s) in
  stw s (pgdir + 4 * PDX VPT) v = Ok (set_words s w) ∧ pt_inv (set_words s w) own pgdir no_extra ∧
  (∀ la, PDX la ≠ PDX VPT → walk w pgdir la = walk (words s) pgdir la) ∧
  (∀ d, dir d → pde_page w pgdir d = pde_page (words s) pgdir d).
Proof.
  intros Hi Hv w. pose proof (pb_struct _ _ _ (pi_base _ _ _ _ Hi)) as Hs.
  destruct (ps_pgdir _ _ _ _ Hs) as (pd & Epd & Hpd & Hni).
  assert (∀ d, dir d → pde_page w pgdir d = pde_page (words s) pgdir d) as Hpde.
  { intros d [_ Hd]. unfold pde_page, w. by rewrite lookup_insert_ne by lia. }
  assert (∀ la, PDX la ≠ PDX VPT → walk w pgdir la = walk (words s) pgdir la) as Hwalk.
  { intros la Hreg%dir_PDX. rewrite !walk_pages, Hpde by done.
    destruct (pde_page (words s) pgdir (PDX la)) as [q|] eqn:Eq; cbn; [|done].
    unfold w. rewrite Epd, waddr_pgdir, lookup_insert_ne; [done|].
    intros [-> _]%waddr_inj; [|done|apply PTX_range]. apply Hni. by apply (ps_pde _ _ _ _ Hs _ _ Hreg). }
  split; [|split; [|done]].
  - destruct (ps_words _ _ _ _ Hs pd (PDX VPT) Hpd (PDX_range VPT)) as (x & Ex & _).
    rewrite (stw_Ok _ _ _ x); [by rewrite u32_small|]. by rewrite Epd, waddr_pgdir.
  - apply inv_words; try done; [by eapply words_insert_ok|intros la Hla; by apply Hwalk, user_regular|].
    intros u pte Hu _. by rewrite Hwalk.
Qed.

(** An entry of the kernel part is written. *)
Lemma set_kernel_entry s own pgdir la t v :
  pt_inv s own pgdir no_extra → KERNBASE ≤ la < VPT → pde_page (words s) pgdir (PDX la) = Some t →
  0 ≤ v < 2 ^ 32 → present v = true → (walk (words s) pgdir la = None ∨ walk (words s) pgdir la = Some v) →
  ∃ s', stw s (waddr t (PTX la)) v = Ok s' ∧ frame s s' ∧ free s' = free s ∧ pt_inv s' own pgdir no_extra ∧
    same_dir (words s) (words s') pgdir ∧
    ∀ la', PDX la' ≠ PDX VPT → walk (words s') pgdir la' =
      if decide (PDX la' = PDX la ∧ PTX la' = PTX la) then Some v else walk (words s) pgdir la'.
Proof.
  intros Hi Hla Ht Hv Hpv Hold. pose proof (pb_struct _ _ _ (pi_base _ _ _ _ Hi)) as Hs.
  assert (PDX la ≠ PDX VPT) as Hreg by (apply below_VPT; unfold KERNBASE in Hla; lia).
  pose proof (ps_pde _ _ _ _ Hs _ _ (dir_PDX la Hreg) Ht) as Ho.
  destruct (entry_word s _ pgdir la t Hs Hreg Ht) as (x & Ex & _).
  rewrite (stw_Ok _ _ _ x), u32_small by done. eexists. split; [done|]. split; [done|]. split; [done|].
  assert (same_dir (words s) (<[waddr t (PTX la) := v]> (words s)) pgdir) as Hsame
    by (apply (write_dir _ _ _ _ _ _ _ Hs); [done|apply PTX_range]).
  assert (∀ la', PDX la' ≠ PDX VPT → walk (<[waddr t (PTX la) := v]> (words s)) pgdir la' =
      if decide (PDX la' = PDX la ∧ PTX la' = PTX la) then Some v else walk (words s) pgdir la') as Hwalk.
  { intros la' Hreg'. rewrite (write_walk _ _ _ _ _ _ _ _ _ Hs (dir_PDX la Hreg) Ht (PTX_range la) Hreg'). by rewrite Hpv. }
  split; [|done]. apply inv_words; [done|by eapply words_insert_ok| | |].
  - intros d Hd. apply same_dir_pde; [done|apply Hd].
  - intros la' Hla'. rewrite Hwalk, decide_False by (done || by apply user_regular || (intros [E _]; revert E;
      apply PDX_user; [done|unfold KERNBASE, VPT in *; lia])). done.
  - intros u pte Hu _ Hw. rewrite Hwalk by done. case_decide as E; [|done]. destruct E as [E1 E2].
    rewrite (walk_indices _ _ _ la E1 E2) in Hw. destruct Hold; congruence.
Qed.

(** The page tables that [map_pages] may have to allocate up to address [last]. *)
Definition need s (pgdir la last : Z) : Z :=
  (if decide (pde_page (words s) pgdir (PDX la) = None) then 1 else 0) + (PDX last - PDX la).

Lemma linear_next la pa perm la' : linear_entry (la + 4096) (pa + 4096) perm la' = linear_entry la pa perm la'.
Proof.
  unfold linear_entry. do 2 f_equal. rewrite !PPN_div. replace (la + 4096) with (la + 1 * 4096) by lia.
  rewrite Z.div_add by lia. lia.
Qed.

Lemma mod_next a : a mod 4096 = 0 → (a + 4096) mod 4096 = 0.
Proof. intros E. by rewrite <-Z.add_mod_idemp_r, Z.mod_same, Z.add_0_r by lia. Qed.

(** One page of the loop. *)
Lemma map_page_inv s own pgdir la pa perm last more :
  pt_inv s own pgdir no_extra → 0 ≤ perm < 4096 → KERNBASE ≤ la → la ≤ last < VPT →
  0 ≤ pa < 2 ^ 32 → pa mod 4096 = 0 → need s pgdir la last + more ≤ free s → 0 ≤ more →
  (walk (words s) pgdir la = None ∨ walk (words s) pgdir la = Some (linear_entry la pa perm la)) →
  ∃ a s1 s' own', get_pte s pgdir la true = Ok (Some a, s1) ∧
    stw s1 a (Z.lor (Z.lor pa PTE_P) perm) = Ok s' ∧ pt_inv s' own' pgdir no_extra ∧ frame s s' ∧
    PDX last - PDX la + more ≤ free s' ∧ is_Some (pde_page (words s') pgdir (PDX la)) ∧
    (∀ d, 0 ≤ d < 1024 → d ≠ PDX la → words s' !! (pgdir + 4 * d) = words s !! (pgdir + 4 * d)) ∧
    ∀ la', 0 ≤ la' < VPT → PPN la' ≠ PPN la → walk (words s') pgdir la' = walk (words s) pgdir la'.
Proof.
  intros Hi Hperm Hk Hlast Hpa Hpa4 Hneed Hmore Hold.
  assert (Hla32 : 0 ≤ la < 2 ^ 32) by (unfold KERNBASE, VPT in *; lia).
  assert (PDX la ≠ PDX VPT) as Hreg by (apply below_VPT; unfold KERNBASE in Hk; lia).
  pose proof (PDX_range_le la last ltac:(lia) ltac:(unfold VPT in *; lia)) as Hmono.
  destruct (inv_get_pte s own pgdir no_extra la true Hi Hreg) as (r & s1 & R & Hr). rewrite R.
  unfold need in Hneed. destruct r as [a|].
  2:{ destruct Hr as (_ & Hn & Hf). rewrite decide_True in Hneed by done. specialize (Hf eq_refl). lia. }
  destruct Hr as (own1 & t & Hfr & Hi1 & Hbal & (Ht1 & Hadd) & _ & -> & Hwalk1 & _).
  assert (PDX last - PDX la + more ≤ free s1) as Hfree.
  { unfold balance in Hbal. destruct (pde_page (words s) pgdir (PDX la)) as [q|].
    - destruct Hadd as [-> _]. rewrite decide_False in Hneed by done. lia.
    - destruct Hadd as [-> _]. rewrite decide_True in Hneed by done. rewrite zlen_cons in Hbal. lia. }
  assert (linear_entry la pa perm la = Z.lor (Z.lor pa PTE_P) perm) as El
    by (unfold linear_entry; by rewrite Z.sub_diag, Z.mul_0_l, Z.add_0_r).
  assert (pa = pa / 4096 * 4096) as Epa by (pose proof (Z.div_mod pa 4096 ltac:(lia)); lia).
  assert (0 ≤ pa / 4096 < 2 ^ 20) as Hpab by (split; [apply Z.div_pos; lia|apply Z.div_lt_upper_bound; lia]).
  destruct (entry_bits (pa / 4096) perm Hpab Hperm) as (Hv & Hpres & _ & _). rewrite <-Epa, <-El in Hv, Hpres.
  destruct (set_kernel_entry s1 own1 pgdir la t _ Hi1 ltac:(lia) Ht1 Hv Hpres) as (s' & R' & Hfr' & Hn' & Hi' & Hsame & Hw');
    [by rewrite Hwalk1|].
  exists (waddr t (PTX la)), s1, s', own1. split; [done|]. rewrite <-El. split; [done|]. split; [done|].
  split; [by eapply frame_trans|]. split; [by rewrite Hn'|].
  split; [rewrite (same_dir_pde _ _ _ _ Hsame) by apply PDX_range; by exists t|].
  split.
  { intros d Hd Hne. rewrite Hsame by done. destruct (pde_page (words s) pgdir (PDX la)) as [q|]; destruct Hadd as [_ Hdir].
    - by apply Hdir.
    - rewrite Hdir by done. by rewrite decide_False. }
  intros la' Hla' Hne. pose proof (below_VPT la' Hla') as Hreg'. rewrite Hw', decide_False, Hwalk1; try done.
  intros E. apply Hne. apply PPN_indices; [unfold VPT in *; lia|done|done].
Qed.

Lemma map_pages_inv perm pgdir more n : ∀ s own la pa,
  pt_inv s own pgdir no_extra → 0 ≤ perm < 4096 → KERNBASE ≤ la → la mod 4096 = 0 → la + Z.of_nat n * 4096 ≤ VPT →
  0 ≤ pa → pa mod 4096 = 0 → pa + Z.of_nat n * 4096 ≤ 2 ^ 32 →
  (∀ la', la ≤ la' < la + Z.of_nat n * 4096 →
     walk (words s) pgdir la' = None ∨ walk (words s) pgdir la' = Some (linear_entry la pa perm la')) →
  0 ≤ more ≤ free s → (n = O ∨ need s pgdir la (la + Z.of_nat n * 4096 - 1) + more ≤ free s) →
  ∃ s' own', map_pages n s pgdir la pa perm = Ok s' ∧ pt_inv s' own' pgdir no_extra ∧ frame s s' ∧ more ≤ free s' ∧
    ∀ d, d = 0 ∨ d = PDX VPT → words s' !! (pgdir + 4 * d) = words s !! (pgdir + 4 * d).
Proof.
  induction n as [|n IH]; intros s own la pa Hi Hperm Hk Hla4 Hlan Hpa Hpa4 Hpan Hold Hmore Hneed;
    [exists s, own; by destruct Hmore|].
  destruct Hneed as [?|Hneed]; [done|]. set (last := la + Z.of_nat (S n) * 4096 - 1) in *.
  destruct (map_page_inv s own pgdir la pa perm last more) as (a & s1 & s2 & own2 & R1 & R2 & Hi2 & Hfr & Hf2 & [t Ht] & Hv2 & Hw2);
    try done; [lia|lia|lia|apply Hold; lia|].
  assert (∀ d, d = 0 ∨ d = PDX VPT → words s2 !! (pgdir + 4 * d) = words s !! (pgdir + 4 * d)) as Hd2.
  { intros d Hd. apply Hv2; [destruct Hd as [-> | ->]; [lia|apply PDX_range]|]. destruct Hd as [-> | ->].
    - change 0 with (PDX 0). apply PDX_user; unfold KERNBASE, VPT in *; lia.
    - apply not_eq_sym, below_VPT. unfold KERNBASE in Hk. lia. }
  pose proof (PDX_range_le la last ltac:(unfold KERNBASE in Hk; lia) ltac:(unfold VPT in *; lia)) as Hmono.
  cbn [map_pages]. rewrite R1. cbn [mbind outcome_bind]. rewrite R2. cbn [mbind outcome_bind].
  destruct n as [|n]; [exists s2, own2; split_and!; try done; lia|].
  rewrite !u32_small by (unfold PGSIZE, VPT, KERNBASE in *; lia). unfold PGSIZE.
  destruct (IH s2 own2 (la + 4096) (pa + 4096)) as (s3 & own3 & R3 & Hi3 & Hfr3 & Hm3 & Hv3);
    try done; try lia; try (by apply mod_next);
    [| |exists s3, own3; split_and!; try done; [by eapply frame_trans|intros d Hd; rewrite Hv3 by done; by apply Hd2]].
  - intros la' Hla'. rewrite linear_next, Hw2; [apply Hold; lia|unfold KERNBASE in Hk; lia|].
    rewrite !PPN_div. intros E. pose proof (Z.div_mod la 4096 ltac:(lia)). pose proof (Z.div_mod la' 4096 ltac:(lia)).
    pose proof (Z.mod_pos_bound la' 4096 ltac:(lia)). lia.
  - right. replace (la + 4096 + Z.of_nat (S n) * 4096 - 1) with last by lia. unfold need.
    destruct (PDX_next la) as [E|E]; [unfold KERNBASE in Hk; lia|done|unfold VPT in *; lia|..]; rewrite E.
    + rewrite decide_False by (by rewrite Ht). lia.
    + case_decide; lia.
Qed.

(** [boot_map_segment] for the physical memory. *)
Lemma boot_map_kernel s own pgdir more :
  pt_inv s own pgdir no_extra → 0 ≤ more → 224 + more ≤ free s →
  (∀ la, KERNBASE ≤ la < KERNTOP →
     walk (words s) pgdir la = None ∨ walk (words s) pgdir la = Some (linear_entry KERNBASE 0 PTE_W la)) →
  ∃ s' own', boot_map_segment s pgdir KERNBASE KMEMSIZE 0 PTE_W = Ok s' ∧ pt_inv s' own' pgdir no_extra ∧ frame s s' ∧
    more ≤ free s' ∧ (∀ d, d = 0 ∨ d = PDX VPT → words s' !! (pgdir + 4 * d) = words s !! (pgdir + 4 * d)) ∧
    ∀ la, regular la → walk (words s') pgdir la =
      if decide (KERNBASE ≤ la < KERNTOP) then Some (linear_entry KERNBASE 0 PTE_W la) else walk (words s) pgdir la.
Proof.
  intros Hi Hmore Hf Hold.
  assert (∃ n, Z.to_nat 0x38000 = n ∧ Z.of_nat n = 0x38000) as (n & En & Ez)
    by (exists (Z.to_nat 0x38000); split; [reflexivity|apply Z2Nat.id; lia]).
  assert (boot_map_segment s pgdir KERNBASE KMEMSIZE 0 PTE_W = map_pages n s pgdir KERNBASE 0 PTE_W) as E.
  { unfold boot_map_segment. change (PGOFF KERNBASE =? PGOFF 0) with true. cbn [assert_ mbind outcome_bind].
    change (ROUNDUP (u32 (KMEMSIZE + PGOFF KERNBASE)) PGSIZE / PGSIZE) with 0x38000. rewrite En.
    change (ROUNDDOWN KERNBASE PGSIZE) with KERNBASE. change (ROUNDDOWN 0 PGSIZE) with 0. reflexivity. }
  rewrite E. clear En E.
  destruct (map_pages_inv PTE_W pgdir more n s own KERNBASE 0) as (s' & own' & R & Hi' & Hfr & Hm' & Hv);
    try (rewrite Ez); try done; [lia| |].
  { right. unfold need. change (PDX (KERNBASE + 0x38000 * 4096 - 1) - PDX KERNBASE) with 223. case_decide; lia. }
  exists s', own'. split; [done|]. split; [done|]. split; [done|]. split; [done|]. split; [done|]. intros la Hla.
  destruct (map_pages_spec PTE_W pgdir n s own KERNBASE 0 (pi_base _ _ _ _ Hi)) as [R2|(s2 & own2 & R2 & _ & _ & Hw)];
    try (rewrite Ez); try done; [congruence|].
  rewrite R in R2. injection R2 as <-. rewrite Hw, Ez by done.
  rewrite !PPN_div. change (KERNBASE / 4096) with 0xC0000. unfold KERNTOP, KERNBASE, KMEMSIZE.
  pose proof (Z.div_mod la 4096 ltac:(lia)). pose proof (Z.mod_pos_bound la 4096 ltac:(lia)).
  case_decide as E1; case_decide as E2; try done; exfalso; lia.
Qed.

Lemma VPT_indices la : 0 ≤ la < 2 ^ 32 → PDX (VPT + 4 * PPN la) = PDX VPT ∧ PTX (VPT + 4 * PPN la) = PDX la.
Proof.
  intros Hla. rewrite PPN_div, (PDX_small la) by done. pose proof (Z.div_pos la 4096 ltac:(lia) ltac:(lia)).
  pose proof (Z.div_lt_upper_bound la 4096 (2 ^ 20) ltac:(lia) ltac:(lia)). unfold VPT. split.
  - rewrite !PDX_small by lia. change (0xFAC00000 / 2 ^ 22) with 1003. symmetry.
    apply (Z.div_unique_pos _ _ _ (4 * (la / 4096))); lia.
  - rewrite PTX_div. replace (0xFAC00000 + 4 * (la / 4096)) with (4 * (la / 4096) + 0xFAC00 * 4096) by lia.
    rewrite Z.div_add by lia. change 4096 with (4 * 1024) at 2. rewrite Z.div_mul_cancel_l by lia.
    rewrite Z.div_div by lia. change (4096 * 1024) with (2 ^ 22).
    change 0xFAC00 with (1003 * 1024). rewrite Z.mod_add by lia. apply Z.mod_small.
    split; [apply Z.div_pos; lia|apply Z.div_lt_upper_bound; lia].
Qed.

(** Behind VPT the directory is its own page table. *)
Lemma VPT_walk s own pgdir la pd :
  pt_inv s own pgdir no_extra → pgdir = waddr pd 0 → 0 ≤ pd < 2 ^ 20 →
  words s !! (pgdir + 4 * PDX VPT) = Some (Z.lor (Z.lor (pd * 4096) PTE_P) PTE_W) → 0 ≤ la < 2 ^ 32 →
  walk (words s) pgdir (VPT + 4 * PPN la) =
    pde ← words s !! (pgdir + 4 * PDX la); if present pde then Some pde else None.
Proof.
  intros Hi Epd Hpd Hv Hla. destruct (VPT_indices la Hla) as [E1 E2]. rewrite walk_pages, E1, E2.
  destruct (entry_bits pd PTE_W Hpd ltac:(done)) as (_ & Hp & Hn & _).
  unfold pde_page. rewrite Hv. cbn [mbind option_bind]. rewrite Hp, Hn. cbn [mbind option_bind]. by rewrite Epd, waddr_pgdir.
Qed.

Lemma kernel_regular la : KERNBASE ≤ la < KERNTOP → regular la.
Proof.
  unfold KERNTOP, KERNBASE, KMEMSIZE. intros Hla. split; [lia|]. apply below_VPT. unfold VPT. lia.
Qed.

(** The paging part of [pmm_init]. *)
Lemma pmm_init_paging_spec s own pgdir more :
  pt_inv s own pgdir no_extra → pde_page (words s) pgdir 0 = None → 0 ≤ more → 224 + more ≤ free s →
  (∀ la, KERNBASE ≤ la < KERNTOP →
     walk (words s) pgdir la = None ∨ walk (words s) pgdir la = Some (linear_entry KERNBASE 0 PTE_W la)) →
  ∃ s' own' pd, pmm_init_paging s pgdir = Ok s' ∧ pt_inv s' own' pgdir no_extra ∧ frame s s' ∧ more ≤ free s' ∧
    pgdir = waddr pd 0 ∧ 0 ≤ pd < 0x38000 ∧ words s' !! (pgdir + 4 * 0) = Some 0 ∧
    words s' !! (pgdir + 4 * PDX VPT) = Some (Z.lor (Z.lor (pd * 4096) PTE_P) PTE_W) ∧
    ∀ la, regular la → walk (words s') pgdir la =
      if decide (KERNBASE ≤ la < KERNTOP) then Some (linear_entry KERNBASE 0 PTE_W la) else walk (words s) pgdir la.
Proof.
  intros Hi Hn Hmore Hf Hold. unfold pmm_init_paging.
  destruct (check_pgdir_spec s own pgdir Hi Hn) as (_ & _ & H3).
  destruct H3 as (s1 & -> & [Hi1 Hfr1 Hf1 Hz1 _ _ Hw1]); [lia|]. cbn [mbind outcome_bind].
  pose proof (pb_struct _ _ _ (pi_base _ _ _ _ Hi1)) as Hs1.
  destruct (ps_pgdir _ _ _ _ Hs1) as (pd & Epd & Hpd & _). pose proof (np_bound _ _ _ _ _ Hs1 Hpd) as Hpdb.
  assert (PADDR pgdir = Ok (pd * 4096)) as ->.
  { unfold PADDR. rewrite Epd. rewrite (proj2 (Z.ltb_ge _ _)) by (unfold waddr; lia). f_equal. unfold waddr. lia. }
  cbn [mbind outcome_bind]. destruct (entry_bits pd PTE_W ltac:(lia) ltac:(done)) as (Hv & _).
  set (v := Z.lor (Z.lor (pd * 4096) PTE_P) PTE_W) in *.
  destruct (set_VPT s1 own pgdir v Hi1 Hv) as (-> & Hi2 & Hw2 & _). cbn [mbind outcome_bind].
  destruct (boot_map_kernel _ own pgdir more Hi2 Hmore) as (s' & own' & R & Hi' & Hfr & Hm' & Hd' & Hw').
  - by rewrite <-Hf1 in Hf.
  - intros la Hla. pose proof (kernel_regular la Hla) as Hreg. cbn. rewrite Hw2, Hw1 by apply Hreg || done. by apply Hold.
  - exists s', own', pd. split; [exact R|]. split; [done|].
    split; [apply (frame_trans _ s1); [done|]; by eapply frame_trans; [|exact Hfr]|].
    split; [done|]. split; [done|]. split; [done|]. split; [|split].
    + rewrite Hd' by (by left). cbn. rewrite lookup_insert_ne; [done|]. intros E. assert (PDX VPT = 0) as E0 by lia.
      by vm_compute in E0.
    + rewrite Hd' by (by right). cbn. by rewrite lookup_insert_eq.
    + intros la Hla. rewrite Hw' by done. case_decide; [done|]. cbn. by rewrite Hw2, Hw1 by (done || apply Hla).
Qed.
End paging.
