(* ===== verification/PmmBoot.v ===== *)
(** * kern/mm/pmm.c: the self-test of the kernel's directory

    [check_boot_pgdir] of src/Labweek11/lab2/kern/mm/pmm.c, which [pmm_init]
    calls when the physical memory is mapped.  It writes and reads a string
    through two virtual addresses, so that the bytes are accessed as the
    processor does it: the entry is taken from the TLB or, when it has none, from
    the page tables, and is then in the TLB.  [vstrcpy], [vstrcmp] and [vstrlen]
    are the functions of libs/string.c and libs/x86.h on such addresses. *)

From stdpp Require Import base gmap list numbers.
From S2P Require Import Prelude Mmu PmmManager PageTable PmmPaging.

Section boot.
Context {M : Type} `{PmmManager M}.
Implicit Types s : vm M.

(** ** Bytes at virtual addresses *)

Definition translate s (la : Z) : option Z :=
  match tlb s !! PPN la with
  | Some pte => Some pte
  | None => walk (words s) (cr3 s + KERNBASE) la
  end.

(** The entry the processor uses, which it keeps; none is a page fault. *)
Definition touch s (la : Z) : outcome (Z * vm M) :=
  pte ← of_option (translate s la);
  Ok (pte, set_tlb s (<[PPN la := pte]> (tlb s))).

(** Byte [k] of a word. *)
Definition byte_of (w k : Z) : Z := w / 2 ^ (8 * k) mod 256.
Definition with_byte (w k b : Z) : Z := w + (b - byte_of w k) * 2 ^ (8 * k).

(** The physical memory is at KERNBASE. *)
Definition word_at (pte la : Z) : Z := KERNBASE + PTE_ADDR pte + (PGOFF la - PGOFF la mod 4).

Definition ldb s (la : Z) : outcome (Z * vm M) :=
  r ← touch s la;
  let '(pte, s) := r in
  w ← ldw s (word_at pte la);
  Ok (byte_of w (PGOFF la mod 4), s).

(** The kernel runs with CR0_WP: a page without PTE_W faults. *)
Definition stb s (la b : Z) : outcome (vm M) :=
  r ← touch s la;
  let '(pte, s) := r in
  if Z.land pte PTE_W =? 0 then Err Undef
  else w ← ldw s (word_at pte la); stw s (word_at pte la) (with_byte w (PGOFF la mod 4) b).

(** A byte at the kernel address of a physical page. *)
Definition stkb s (kva b : Z) : outcome (vm M) :=
  w ← ldw s (kva - kva mod 4); stw s (kva - kva mod 4) (with_byte w (kva mod 4) b).

(** ** string.c and x86.h on virtual addresses *)

(** [strcpy] of the string with the characters [str]. *)
Fixpoint vstrcpy s (dst : Z) (str : list Z) : outcome (vm M) :=
  match str with
  | [] => stb s dst 0
  | c :: str => s ← stb s dst c; vstrcpy s (dst + 1) str
  end.

Fixpoint vstrcmp (fuel : nat) s (a b : Z) : outcome (Z * vm M) :=
  match fuel with
  | O => Err NoFuel
  | S fuel =>
      r ← ldb s a;
      let '(c1, s) := r in
      r ← ldb s b;
      let '(c2, s) := r in
      if negb (c1 =? c2) then Ok (if c1 <? c2 then - 1 else 1, s)
      else if c1 =? 0 then Ok (0, s) else vstrcmp fuel s (a + 1) (b + 1)
  end.

Fixpoint vstrlen (fuel : nat) s (a cnt : Z) : outcome (Z * vm M) :=
  match fuel with
  | O => Err NoFuel
  | S fuel =>
      r ← ldb s a;
      let '(c, s) := r in
      if c =? 0 then Ok (cnt, s) else vstrlen fuel s (a + 1) (u32 (cnt + 1))
  end.

(** ** check_boot_pgdir *)

(** The body of the loop for [i]. *)
Definition check_frame (pgdir i : Z) s : outcome (vm M) :=
  kva ← KADDR s i;
  r ← the_pte s pgdir kva;
  let '(ptep, s) := r in
  pte ← ldw s ptep;
  assert_ (PTE_ADDR pte =? i);;
  Ok s.

(** [for (i = 0; i < npage; i += PGSIZE)] *)
Definition check_frames s (pgdir : Z) : outcome (vm M) :=
  for_range 0 ((npage s + PGSIZE - 1) / PGSIZE) (λ k s, check_frame pgdir (k * PGSIZE) s) s.

(** The page at two addresses. *)
Definition check_shared s (pgdir : Z) : outcome (option Z * vm M) :=
  r ← alloc_page s;
  let '(p, s) := r in
  r ← insert_page s pgdir p 0x100 PTE_W;
  let '(e, s) := r in
  assert_ (e =? 0);;
  assert_ref s p 1;;
  r ← insert_page s pgdir p (0x100 + PGSIZE) PTE_W;
  let '(e, s) := r in
  assert_ (e =? 0);;
  assert_ref s p 2;;
  Ok (p, s).

(** The text of the test. *)
Definition hello : list Z :=
  [117; 99; 111; 114; 101; 58; 32; 72; 101; 108; 108; 111; 32; 119; 111; 114; 108; 100; 33; 33].

Definition check_bytes s (p : option Z) : outcome (vm M) :=
  s ← vstrcpy s 0x100 hello;
  r ← vstrcmp 21 s 0x100 (0x100 + PGSIZE);
  let '(c, s) := r in
  assert_ (c =? 0);;
  p ← of_option p;
  kva ← page2kva s p;
  s ← stkb s (kva + 0x100) 0;
  r ← vstrlen 21 s 0x100 0;
  let '(n, s) := r in
  assert_ (n =? 0);;
  Ok s.

Definition check_boot_pgdir s (boot_pgdir : Z) : outcome (vm M) :=
  s ← check_frames s boot_pgdir;
  pde ← ldw s (boot_pgdir + 4 * PDX VPT);
  pa ← PADDR boot_pgdir;
  assert_ (PDE_ADDR pde =? pa);;
  pde ← ldw s (boot_pgdir + 4 * 0);
  assert_ (pde =? 0);;
  r ← check_shared s boot_pgdir;
  let '(p, s) := r in
  s ← check_bytes s p;
  p ← of_option p;
  s ← free_page s p;
  pde ← ldw s (boot_pgdir + 4 * 0);
  t ← pde2page s pde;
  s ← free_page s t;
  stw s (boot_pgdir + 4 * 0) 0.

(** [pmm_init] from [check_pgdir] on, as far as it concerns the page tables. *)
Definition pmm_init_tables s (boot_pgdir : Z) : outcome (vm M) :=
  s ← pmm_init_paging s boot_pgdir;
  check_boot_pgdir s boot_pgdir.
End boot.

(** ** Bytes of a word *)

Lemma byte_of_range w k : 0 ≤ byte_of w k < 256.
Proof. apply Z.mod_pos_bound. lia. Qed.

Lemma with_byte_spec w k b : 0 ≤ w < 2 ^ 32 → 0 ≤ k < 4 → 0 ≤ b < 256 →
  0 ≤ with_byte w k b < 2 ^ 32 ∧
  ∀ j, 0 ≤ j < 4 → byte_of (with_byte w k b) j = if decide (j = k) then b else byte_of w j.
Proof.
  intros Hw Hk Hb. assert (k = 0 ∨ k = 1 ∨ k = 2 ∨ k = 3) as Hks by lia.
  unfold with_byte, byte_of. split.
  - destruct Hks as [-> |[-> |[-> | ->]]]; cbn [Z.mul Pos.mul]; Z.div_mod_to_equations; lia.
  - intros j Hj. assert (j = 0 ∨ j = 1 ∨ j = 2 ∨ j = 3) as Hjs by lia.
    destruct Hks as [-> |[-> |[-> | ->]]]; destruct Hjs as [-> |[-> |[-> | ->]]];
      (case_decide; [|]); try lia; cbn; Z.div_mod_to_equations; lia.
Qed.

(** ** The page behind the two addresses *)

Section spec.
Context {M : Type} `{PmmManagerLaws M}.
Context (s0 : vm M) (own0 : list Z) (pgdir : Z).
Hypothesis Hinv0 : pt_inv s0 own0 pgdir no_extra.
Hypothesis Hnone0 : pde_page (words s0) pgdir 0 = None.
Hypothesis Hcr3 : cr3 s0 = pgdir - KERNBASE.
Implicit Types s : vm M.

Context (t p : Z) (own : list Z) (e : Z → option Z).
Hypothesis Hp : fresh s0 pgdir t p.
Hypothesis Hown : p ∈ own.
Hypothesis He0 : e 0 = Some (entry p PTE_W).
Hypothesis He1 : e 1 = Some (entry p PTE_W).

Notation cs := (cstate s0 own0 pgdir t).

Lemma p_range : 0 ≤ p < npage s0 ∧ 0 ≤ p < 2 ^ 20.
Proof.
  destruct Hp as [Hr _ _ _ _]. pose proof (np_bound _ _ _ _ _ (pb_struct _ _ _ (pi_base _ _ _ _ Hinv0)) Hr). lia.
Qed.

Lemma entry_pa : PTE_ADDR (entry p PTE_W) = p * 4096 ∧ Z.land (entry p PTE_W) PTE_W =? 0 = false.
Proof.
  destruct (entry_spec s0 own0 pgdir Hinv0 t p PTE_W Hp ltac:(done)) as [E _]. split.
  - by rewrite PTE_ADDR_div, <-PPN_div, E.
  - rewrite land_low by done. by rewrite (proj2 (entry_spec s0 own0 pgdir Hinv0 t p PTE_W Hp ltac:(done))).
Qed.

(** Byte [off] of the page. *)
Definition pbyte s (off : Z) : option Z := (λ w, byte_of w (off mod 4)) <$> words s !! waddr p (off / 4).

(** An access by one of the two addresses finds the page. *)
Lemma touch_spec s la :
  cs s own e → 0 ≤ la < 0x2000 →
  ∃ s', touch s la = Ok (entry p PTE_W, s') ∧ cs s' own e ∧ words s' = words s ∧ phys s' = phys s ∧
    tlb s' = <[PPN la := entry p PTE_W]> (tlb s).
Proof.
  intros Hc Hla. assert (0 ≤ PPN la < 2) as Hv.
  { rewrite PPN_div. split; [apply Z.div_pos; lia|apply Z.div_lt_upper_bound; lia]. }
  assert (regular la) as Hreg by (apply user_reg; unfold KERNBASE; lia).
  assert (e (PPN la) = Some (entry p PTE_W)) as He by (assert (PPN la = 0 ∨ PPN la = 1) as [-> | ->] by lia; done).
  assert (cr3 s = pgdir - KERNBASE) as Ecr by (by rewrite (fr_cr3 _ _ (cs_frame _ _ _ _ _ _ _ Hc))).
  destruct (PPN_two (PPN la) Hv) as (Evpn & _ & _ & Hu).
  assert (translate s la = Some (entry p PTE_W)) as Et.
  { unfold translate. destruct (tlb s !! PPN la) as [pte|] eqn:El.
    - destruct (pi_tlb _ _ _ _ (cs_inv _ _ _ _ _ _ _ Hc) Ecr _ _ (user_regular _ Hu) El) as [_ Hw].
      rewrite (cs_walk_at s0 own0 pgdir t s own e _ Hc Hv), He in Hw. congruence.
    - rewrite Ecr. replace (pgdir - KERNBASE + KERNBASE) with pgdir by lia.
      rewrite (cs_walk _ _ _ _ _ _ _ Hc) by done. by rewrite decide_True by lia. }
  unfold touch. rewrite Et. eexists. split; [reflexivity|]. split; [|done].
  pose proof Hc as [[Hb Hl Htr Hr Htlb] Hfr Hbal Hdir Hpde Hwalk Hcnt].
  split; try done; [|by destruct Hfr]. split; try done; [by destruct Hb|].
  intros Ec v pte Hv0. cbn. rewrite lookup_insert_Some. intros [[<- <-]|[_ Hl']]; [|by apply Htlb].
  split; [lia|]. by rewrite (cs_walk_at s0 own0 pgdir t s own e _ Hc Hv).
Qed.

(** A word of the page is written. *)
Lemma data_spec s k v :
  cs s own e → 0 ≤ k < 1024 → 0 ≤ v < 2 ^ 32 → cs (set_words s (<[waddr p k := v]> (words s))) own e.
Proof.
  intros Hc Hk Hv. pose proof Hc as [Hi Hfr Hbal Hdir Hpde Hwalk Hcnt].
  pose proof (pb_struct _ _ _ (pi_base _ _ _ _ Hi)) as Hs.
  destruct (fresh_ref s0 own0 pgdir Hnone0 t s own e p Hc Hp) as (Hnt & _).
  assert (same_dir (words s) (<[waddr p k := v]> (words s)) pgdir) as Hsame
    by (apply (write_dir _ _ _ _ _ _ _ Hs); [apply elem_of_app; by right|done]).
  assert (∀ la, PDX la ≠ PDX VPT → walk (<[waddr p k := v]> (words s)) pgdir la = walk (words s) pgdir la) as Hw.
  { intros la Hreg%dir_PDX. rewrite !walk_pages, (same_dir_pde _ _ _ _ Hsame) by apply PDX_range.
    destruct (pde_page (words s) pgdir (PDX la)) as [q|] eqn:Eq; cbn; [|done].
    rewrite lookup_insert_ne; [done|]. intros [-> _]%waddr_inj; [|done|apply PTX_range]. apply Hnt. by exists (PDX la). }
  split; try done.
  - apply inv_words; [done|by eapply words_insert_ok| | |].
    + intros d Hd. apply same_dir_pde; [done|apply Hd].
    + intros la Hla. by apply Hw, user_regular.
    + intros u pte Hu _. by rewrite Hw.
  - by destruct Hfr.
  - intros d Hd. cbn. rewrite Hsame by done. by apply Hdir.
  - by rewrite (same_dir_pde _ _ _ _ Hsame).
  - intros la Hla. cbn. rewrite Hw by apply Hla. by apply Hwalk.
  - intros q. cbn. rewrite (count_ext (words s)); [apply Hcnt|]. intros la Hla. by apply Hw, user_regular.
Qed.

Lemma page_word s off : cs s own e → 0 ≤ off < 4096 → ∃ w, words s !! waddr p (off / 4) = Some w ∧ 0 ≤ w < 2 ^ 32.
Proof.
  intros Hc Ho. destruct p_range as [Hr _]. rewrite <-(fr_npage _ _ (cs_frame _ _ _ _ _ _ _ Hc)) in Hr.
  apply (ps_words _ _ _ _ (pb_struct _ _ _ (pi_base _ _ _ _ (cs_inv _ _ _ _ _ _ _ Hc)))); [done|].
  split; [apply Z.div_pos; lia|apply Z.div_lt_upper_bound; lia].
Qed.

Lemma poke_spec s off b :
  cs s own e → 0 ≤ off < 4096 → 0 ≤ b < 256 →
  ∃ w s', words s !! waddr p (off / 4) = Some w ∧ stw s (waddr p (off / 4)) (with_byte w (off mod 4) b) = Ok s' ∧
    cs s' own e ∧ tlb s' = tlb s ∧ phys s' = phys s ∧
    ∀ o, 0 ≤ o < 4096 → pbyte s' o = if decide (o = off) then Some b else pbyte s o.
Proof.
  intros Hc Ho Hb. destruct (page_word s off Hc Ho) as (w & Ew & Hw).
  destruct (with_byte_spec w (off mod 4) b Hw (Z.mod_pos_bound _ 4 ltac:(lia)) Hb) as [Hr Hbytes].
  assert (0 ≤ off / 4 < 1024) as Hk by (split; [apply Z.div_pos; lia|apply Z.div_lt_upper_bound; lia]).
  exists w. eexists. split; [done|]. split; [by rewrite (stw_Ok _ _ _ w), u32_small|].
  split; [by apply data_spec|]. split; [done|]. split; [done|]. intros o Ho'. unfold pbyte. cbn [words set_words].
  assert (0 ≤ o / 4 < 1024) as Hk' by (split; [apply Z.div_pos; lia|apply Z.div_lt_upper_bound; lia]).
  pose proof (Z.div_mod o 4 ltac:(lia)). pose proof (Z.div_mod off 4 ltac:(lia)).
  destruct (decide (o / 4 = off / 4)) as [E|Hne].
  - rewrite E, lookup_insert_eq, Ew. cbn [fmap option_fmap option_map].
    rewrite (Hbytes (o mod 4) (Z.mod_pos_bound _ 4 ltac:(lia))).
    case_decide as E1; case_decide as E2; try done; exfalso; [apply E2|apply E1]; congruence || lia.
  - rewrite lookup_insert_ne by (intros [_ ?]%waddr_inj; congruence). rewrite decide_False by congruence. done.
Qed.

Lemma word_at_page la : 0 ≤ la → word_at (entry p PTE_W) la = waddr p (PGOFF la / 4).
Proof.
  intros Hla. unfold word_at. rewrite (proj1 entry_pa). unfold waddr.
  pose proof (Z.div_mod (PGOFF la) 4 ltac:(lia)). lia.
Qed.

Lemma PGOFF_range la : 0 ≤ PGOFF la < 4096.
Proof. rewrite PGOFF_mod. apply Z.mod_pos_bound. lia. Qed.

(** What an access leaves alone. *)
Definition same_page s s' : Prop := (∀ o, pbyte s' o = pbyte s o) ∧ phys s' = phys s.

Lemma ldb_spec s la b :
  cs s own e → 0 ≤ la < 0x2000 → pbyte s (PGOFF la) = Some b →
  ∃ s', ldb s la = Ok (b, s') ∧ cs s' own e ∧ same_page s s' ∧ tlb s' !! PPN la = Some (entry p PTE_W).
Proof.
  intros Hc Hla Hb. destruct (touch_spec s la Hc Hla) as (s' & R & Hc' & Hw & Hph & Htl).
  exists s'. unfold ldb. rewrite R. cbn [mbind outcome_bind]. rewrite word_at_page by lia.
  unfold pbyte in Hb. apply fmap_Some in Hb as (w & Ew & ->). rewrite <-Hw in Ew.
  rewrite (ldw_Ok _ _ _ Ew). split; [done|]. split; [done|].
  split; [split; [intros o; unfold pbyte; by rewrite Hw|done]|]. by rewrite Htl, lookup_insert_eq.
Qed.

Lemma stb_spec s la b :
  cs s own e → 0 ≤ la < 0x2000 → 0 ≤ b < 256 →
  ∃ s', stb s la b = Ok s' ∧ cs s' own e ∧ phys s' = phys s ∧
    ∀ o, 0 ≤ o < 4096 → pbyte s' o = if decide (o = PGOFF la) then Some b else pbyte s o.
Proof.
  intros Hc Hla Hb. destruct (touch_spec s la Hc Hla) as (s1 & R & Hc1 & Hw & Hph & _).
  destruct (poke_spec s1 (PGOFF la) b Hc1 (PGOFF_range la) Hb) as (w & s' & Ew & R' & Hc' & _ & Hph' & Hby).
  exists s'. unfold stb. rewrite R. cbn [mbind outcome_bind]. rewrite (proj2 entry_pa), word_at_page by lia.
  rewrite (ldw_Ok _ _ _ Ew). cbn [mbind outcome_bind]. rewrite R'. split; [done|]. split; [done|]. split; [congruence|].
  intros o Ho. rewrite Hby by done. unfold pbyte. by rewrite Hw.
Qed.

Lemma PGOFF_two a : 0 ≤ a < 4096 → PGOFF a = a ∧ PGOFF (a + 4096) = a.
Proof.
  intros Ha. rewrite !PGOFF_mod. split; [by apply Z.mod_small|].
  rewrite <-Z.add_mod_idemp_r, Z.mod_same, Z.add_0_r by lia. by apply Z.mod_small.
Qed.

(** The string [str] with its end is at offset [a] of the page. *)
Definition holds s (a : Z) (str : list Z) : Prop :=
  ∀ i c, (str ++ [0]) !! i = Some c → pbyte s (a + Z.of_nat i) = Some c.

Lemma vstrcpy_spec str : ∀ s a,
  cs s own e → 0 ≤ a → a + zlen str < 4096 → Forall (λ c, 0 ≤ c < 256) str →
  ∃ s', vstrcpy s a str = Ok s' ∧ cs s' own e ∧ phys s' = phys s ∧ holds s' a str ∧
    ∀ o, 0 ≤ o < a → pbyte s' o = pbyte s o.
Proof.
  induction str as [|c str IH]; intros s a Hc Ha Hlen Hb; cbn [vstrcpy].
  - change (zlen []) with 0 in Hlen. destruct (stb_spec s a 0 Hc ltac:(lia) ltac:(lia)) as (s' & -> & Hc' & Hph & Hby).
    rewrite (proj1 (PGOFF_two a ltac:(lia))) in Hby.
    exists s'. split; [done|]. split; [done|]. split; [done|]. split.
    + intros i x Hi. assert (i = O ∧ x = 0) as [-> ->] by (destruct i; [by injection Hi as <-|done]).
      rewrite Z.add_0_r, Hby by lia. by rewrite decide_True.
    + intros o Ho. rewrite Hby by lia. by rewrite decide_False by lia.
  - rewrite zlen_cons in Hlen. apply Forall_cons in Hb as [Hc0 Hb]. pose proof (zlen_nonneg str).
    destruct (stb_spec s a c Hc ltac:(lia) Hc0) as (s1 & -> & Hc1 & Hph1 & Hby1). cbn [mbind outcome_bind].
    rewrite (proj1 (PGOFF_two a ltac:(lia))) in Hby1.
    destruct (IH s1 (a + 1) Hc1 ltac:(lia) ltac:(lia) Hb) as (s' & -> & Hc' & Hph & Hh & Hlow).
    exists s'. split; [done|]. split; [done|]. split; [congruence|]. split.
    + intros [|i] x Hi.
      * injection Hi as <-. rewrite Z.add_0_r, Hlow, Hby1 by lia. by rewrite decide_True.
      * replace (a + Z.of_nat (S i)) with (a + 1 + Z.of_nat i) by lia. by apply Hh.
    + intros o Ho. rewrite Hlow, Hby1 by lia. by rewrite decide_False by lia.
Qed.

Lemma vstrcmp_spec str : ∀ fuel s a,
  cs s own e → 0 ≤ a → a + zlen str < 4096 → Forall (λ c, c ≠ 0) str → (length str < fuel)%nat → holds s a str →
  ∃ s', vstrcmp fuel s a (a + 4096) = Ok (0, s') ∧ cs s' own e ∧ same_page s s'.
Proof.
  induction str as [|c str IH]; intros fuel s a Hc Ha Hlen Hnz Hf Hh; (destruct fuel as [|fuel]; [cbn in Hf; lia|]);
    cbn [vstrcmp].
  - change (zlen []) with 0 in Hlen. destruct (PGOFF_two a ltac:(lia)) as [E1 E2].
    assert (pbyte s a = Some 0) as Hz by (rewrite <-(Z.add_0_r a); by apply (Hh O)).
    destruct (ldb_spec s a 0 Hc ltac:(lia)) as (s1 & -> & Hc1 & [Hs1 Hph1] & _); [by rewrite E1|]. cbn [mbind outcome_bind].
    destruct (ldb_spec s1 (a + 4096) 0 Hc1 ltac:(lia)) as (s2 & -> & Hc2 & [Hs2 Hph2] & _); [by rewrite E2, Hs1|].
    exists s2. split; [done|]. split; [done|]. split; [intros o; by rewrite Hs2|congruence].
  - rewrite zlen_cons in Hlen. pose proof (zlen_nonneg str). apply Forall_cons in Hnz as [Hc0 Hnz].
    destruct (PGOFF_two a ltac:(lia)) as [E1 E2].
    assert (pbyte s a = Some c) as Hz by (rewrite <-(Z.add_0_r a); by apply (Hh O)).
    destruct (ldb_spec s a c Hc ltac:(lia)) as (s1 & -> & Hc1 & [Hs1 Hph1] & _); [by rewrite E1|]. cbn [mbind outcome_bind].
    destruct (ldb_spec s1 (a + 4096) c Hc1 ltac:(lia)) as (s2 & -> & Hc2 & [Hs2 Hph2] & _); [by rewrite E2, Hs1|].
    cbn [mbind outcome_bind]. rewrite Z.eqb_refl. cbn [negb]. rewrite (proj2 (Z.eqb_neq _ _) Hc0).
    destruct (IH fuel s2 (a + 1) Hc2 ltac:(lia) ltac:(lia) Hnz) as (s3 & R & Hc3 & [Hs3 Hph3]); [cbn in Hf; lia| |].
    + intros i x Hi. rewrite Hs2, Hs1. replace (a + 1 + Z.of_nat i) with (a + Z.of_nat (S i)) by lia. by apply Hh.
    + replace (a + 4096 + 1) with (a + 1 + 4096) by lia. exists s3. split; [done|]. split; [done|].
      split; [intros o; by rewrite Hs3, Hs2|congruence].
Qed.

Lemma hello_bytes : Forall (λ c, 0 ≤ c < 256) hello ∧ Forall (λ c, c ≠ 0) hello.
Proof. split; repeat constructor; lia. Qed.

(** The string is written by one address and read by the other; cut off through
    the kernel address, it is empty. *)
Lemma check_bytes_spec s :
  cs s own e → ∃ s', check_bytes s (Some p) = Ok s' ∧ cs s' own e ∧ phys s' = phys s ∧
    tlb s' !! 0 = Some (entry p PTE_W).
Proof.
  intros Hc. destruct hello_bytes as [Hb Hnz]. unfold check_bytes.
  destruct (vstrcpy_spec hello s 0x100 Hc ltac:(lia) ltac:(done) Hb) as (s1 & -> & Hc1 & Hph1 & Hh & _).
  cbn [mbind outcome_bind]. change (0x100 + PGSIZE) with (0x100 + 4096).
  destruct (vstrcmp_spec hello 21 s1 0x100 Hc1 ltac:(lia) ltac:(done) Hnz ltac:(cbn; lia) Hh) as (s2 & -> & Hc2 & [_ Hph2]).
  cbn [mbind outcome_bind of_option]. rewrite Z.eqb_refl. cbn [assert_ mbind outcome_bind].
  destruct p_range as [Hr Hr20]. rewrite <-(fr_npage _ _ (cs_frame _ _ _ _ _ _ _ Hc2)) in Hr.
  assert (page2kva s2 p = Ok (waddr p 0)) as ->.
  { unfold page2kva. rewrite page2pa_eq by done.
    by apply (KADDR_page s2 p _ pgdir (pb_struct _ _ _ (pi_base _ _ _ _ (cs_inv _ _ _ _ _ _ _ Hc2)))). }
  cbn [mbind outcome_bind].
  destruct (poke_spec s2 0x100 0 Hc2 ltac:(lia) ltac:(lia)) as (w & s3 & Ew & R3 & Hc3 & _ & Hph3 & Hby).
  change (0x100 / 4) with 64 in *. change (0x100 mod 4) with 0 in *.
  assert ((waddr p 0 + 0x100) mod 4 = 0) as Em.
  { unfold waddr, KERNBASE. replace (0xC0000000 + p * 4096 + 4 * 0 + 0x100) with ((0x30000000 + p * 1024 + 64) * 4) by lia.
    apply Z.mod_mul. lia. }
  assert (stkb s2 (waddr p 0 + 0x100) 0 = Ok s3) as ->.
  { unfold stkb. rewrite Em, Z.sub_0_r. replace (waddr p 0 + 0x100) with (waddr p 64) by (unfold waddr; lia).
    rewrite (ldw_Ok _ _ _ Ew). cbn [mbind outcome_bind]. exact R3. }
  cbn [mbind outcome_bind vstrlen].
  destruct (ldb_spec s3 0x100 0 Hc3 ltac:(lia)) as (s4 & -> & Hc4 & [_ Hph4] & Htl).
  { rewrite (proj1 (PGOFF_two 0x100 ltac:(lia))), Hby by lia. by rewrite decide_True. }
  cbn [mbind outcome_bind]. rewrite Z.eqb_refl. cbn [mbind outcome_bind]. rewrite Z.eqb_refl. cbn [assert_ mbind outcome_bind].
  exists s4. split; [done|]. split; [done|]. split; [congruence|exact Htl].
Qed.
End spec.

(** ** The loop over the frames *)

Section frames.
Context {M : Type} `{PmmManagerLaws M}.
Implicit Types s : vm M.

Lemma check_frame_spec s own pgdir k :
  pt_inv s own pgdir no_extra → 0 ≤ k → k * 4096 < npage s →
  walk (words s) pgdir (KERNBASE + k * 4096) = Some (linear_entry KERNBASE 0 PTE_W (KERNBASE + k * 4096)) →
  check_frame pgdir (k * PGSIZE) s = Ok s.
Proof.
  intros Hi Hk Hn Hw. pose proof (pb_struct _ _ _ (pi_base _ _ _ _ Hi)) as Hs.
  pose proof (ps_np _ _ _ _ Hs) as Hnp. change (KMEMSIZE / PGSIZE) with 0x38000 in Hnp.
  unfold check_frame, PGSIZE. set (la := KERNBASE + k * 4096) in *.
  assert (KADDR s (k * 4096) = Ok la) as ->.
  { unfold KADDR. rewrite PPN_div, Z.div_mul by lia. rewrite (proj2 (Z.leb_gt _ _)) by lia.
    rewrite u32_small by (unfold KERNBASE; lia). f_equal. unfold la. lia. }
  cbn [mbind outcome_bind].
  assert (PDX la ≠ PDX VPT) as Hreg by (apply below_VPT; unfold la, KERNBASE, VPT; lia).
  unfold the_pte. destruct (inv_get_pte s own pgdir no_extra la false Hi Hreg) as (r & s1 & -> & Hr). cbn [mbind outcome_bind].
  destruct r as [a|]; [|destruct Hr as (_ & Hnone & _); by rewrite walk_pages, Hnone in Hw].
  destruct Hr as (own1 & t & _ & _ & _ & _ & Ht & -> & _ & Hsame & _). destruct (Hsame eq_refl) as [-> _].
  cbn [mbind outcome_bind]. destruct (entry_word s _ pgdir la t Hs Hreg Ht) as (x & Ex & Hx).
  rewrite Hw in Hx. destruct (present x); [|done]. injection Hx as <-. rewrite (ldw_Ok _ _ _ Ex). cbn [mbind outcome_bind].
  destruct (entry_bits k PTE_W ltac:(lia) ltac:(done)) as (_ & _ & Ep & _).
  assert (linear_entry KERNBASE 0 PTE_W la = Z.lor (Z.lor (k * 4096) PTE_P) PTE_W) as ->.
  { unfold linear_entry. do 2 f_equal. rewrite !PPN_div. unfold la. rewrite Z.div_add by lia.
    change (KERNBASE / 4096) with 0xC0000. lia. }
  rewrite PTE_ADDR_div, <-PPN_div, Ep, Z.eqb_refl. done.
Qed.

Lemma check_frames_spec s own pgdir :
  pt_inv s own pgdir no_extra →
  (∀ k, 0 ≤ k → k * 4096 < npage s →
     walk (words s) pgdir (KERNBASE + k * 4096) = Some (linear_entry KERNBASE 0 PTE_W (KERNBASE + k * 4096))) →
  check_frames s pgdir = Ok s.
Proof.
  intros Hi Hl. unfold check_frames. pose proof (ps_np _ _ _ _ (pb_struct _ _ _ (pi_base _ _ _ _ Hi))) as Hnp.
  unfold PGSIZE at 1 2.
  destruct (for_range_spec (λ _ s', s' = s) (λ k s, check_frame pgdir (k * PGSIZE) s) 0 ((npage s + 4096 - 1) / 4096) s)
    as (s' & -> & ->); [apply Z.div_pos; lia|done| |done].
  intros k s' Hk ->. exists s. split; [|done]. assert (k * 4096 < npage s) as Hkn.
  { destruct Hk as [_ Hk]. pose proof (Z.mul_div_le (npage s + 4096 - 1) 4096 ltac:(lia)). lia. }
  apply (check_frame_spec s own); [done|lia|done|]. apply Hl; [lia|done].
Qed.

Lemma page_insert_ext s pgdir p la la' perm :
  PDX la = PDX la' → PTX la = PTX la' → PPN la = PPN la' → page_insert s pgdir p la perm = page_insert s pgdir p la' perm.
Proof. intros E1 E2 E3. unfold page_insert, page_remove_pte, get_pte, tlb_invalidate. by rewrite E1, E2, E3. Qed.
End frames.

(** ** The whole test *)

Section main.
Context {M : Type} `{PmmManagerLaws M}.
Context (s0 : vm M) (own0 : list Z) (pgdir : Z).
Hypothesis Hinv0 : pt_inv s0 own0 pgdir no_extra.
Hypothesis Hnone0 : pde_page (words s0) pgdir 0 = None.
Implicit Types s : vm M.

(** The page is at both addresses. *)
Definition both (p : Z) : Z → option Z := upd (upd none 0 (Some (entry p PTE_W))) 1 (Some (entry p PTE_W)).

Lemma check_shared_spec :
  2 ≤ free s0 → ∃ t p s own, check_shared s0 pgdir = Ok (Some p, s) ∧ cstate s0 own0 pgdir t s own (both p) ∧
    own ≡ₚ p :: t :: own0 ∧ fresh s0 pgdir t p.
Proof.
  intros Hf. unfold check_shared.
  destruct (cs_first s0 own0 pgdir Hinv0 Hnone0 PTE_W ltac:(done)) as [[_ Hz]|(p & s1 & -> & Hf1 & Hins)]; [lia|].
  cbn [mbind outcome_bind insert_page]. rewrite (page_insert_ext s1 pgdir p 0x100 0) by done.
  destruct Hins as [[_ Hz]|(t & s & own & -> & Hc & Hown & Hp)]; [lia|]. fold (entry p PTE_W) in Hc.
  cbn [mbind outcome_bind]. rewrite Z.eqb_refl. cbn [assert_ mbind outcome_bind].
  set (e := upd none 0 (Some (entry p PTE_W))) in *.
  assert (e 0 = Some (entry p PTE_W)) as He0 by done. assert (e 1 = None) as He1 by done.
  rewrite (cs_assert_ref s0 own0 pgdir Hnone0 t s own e p 1 Hc Hp).
  2:{ rewrite He0, He1, (is_entry s0 own0 pgdir Hinv0 t) by done. by rewrite decide_True. }
  cbn [mbind outcome_bind]. rewrite (page_insert_ext s pgdir p (0x100 + PGSIZE) (1 * 4096)) by done.
  destruct (fresh_ref s0 own0 pgdir Hnone0 t s own e p Hc Hp) as (Hnt & _).
  destruct (cs_insert s0 own0 pgdir t s own e p 1 PTE_W Hc) as (s' & own' & -> & Hc' & _ & Hown');
    [rewrite Hown; by right; left|done|lia|done|]. fold (entry p PTE_W) in Hc'. rewrite He1 in Hown'.
  cbn [mbind outcome_bind]. rewrite Z.eqb_refl. cbn [assert_ mbind outcome_bind]. fold (both p) in Hc'.
  rewrite (cs_assert_ref s0 own0 pgdir Hnone0 t s' own' (both p) p 2 Hc' Hp).
  2:{ change (both p 0) with (Some (entry p PTE_W)). change (both p 1) with (Some (entry p PTE_W)).
      rewrite (is_entry s0 own0 pgdir Hinv0 t) by done. by rewrite decide_True. }
  exists t, p, s', own'. split; [done|]. split; [done|]. split; [|done]. rewrite <-Hown', Hown. apply Permutation_swap.
Qed.

(** The two pages are given back. *)
Lemma free_both t p s own :
  cstate s0 own0 pgdir t s own (both p) → own ≡ₚ p :: t :: own0 → fresh s0 pgdir t p →
  ∃ s', (s ← free_page s p;
         pde ← ldw s (pgdir + 4 * 0); t ← pde2page s pde; s ← free_page s t; stw s (pgdir + 4 * 0) 0) = Ok s' ∧
    tlb s' = tlb s ∧ restored s0 own0 pgdir (set_tlb s' (delete 0 (delete 1 (tlb s)))).
Proof.
  intros Hc Hown Hp. pose proof Hc as [Hi _ _ Hdir _ _ _].
  pose proof (mgr_inv_perm _ _ _ (pb_mgr _ _ _ (pi_base _ _ _ _ Hi)) Hown) as Hm.
  destruct (mgr_free_law (phys s) p 1 (t :: own0) Hm ltac:(lia)) as (m1 & R1 & Href1 & Hnp1 & Hm1).
  destruct (mgr_free_law m1 t 1 own0 Hm1 ltac:(lia)) as (m2 & R2 & Href2 & Hnp2 & Hm2).
  pose proof (mgr_free_nr (phys s) p 1 (t :: own0) m1 Hm ltac:(lia) R1) as Hn1.
  pose proof (mgr_free_nr m1 t 1 own0 m2 Hm1 ltac:(lia) R2) as Hn2.
  assert (own ≡ₚ t :: p :: own0) as Hown2 by (rewrite Hown; apply Permutation_swap).
  destruct (cs_owned s0 own0 pgdir t s own _ _ Hc Hown2) as (_ & _ & Hpage).
  destruct (cs_owned_word s0 own0 pgdir t s own _ Hc) as (Hword & _).
  unfold free_page. rewrite free_pages_eq, R1. cbn [mbind outcome_bind].
  change (ldw (set_phys s m1) (pgdir + 4 * 0)) with (ldw s (pgdir + 4 * 0)). rewrite Hword. cbn [mbind outcome_bind].
  change (pde2page (set_phys s m1) (pde_word t)) with (pde2page s (pde_word t)). rewrite Hpage. cbn [mbind outcome_bind].
  rewrite free_pages_eq. cbn [phys set_phys]. rewrite R2. cbn [mbind outcome_bind].
  rewrite (stw_Ok _ _ _ (pde_word t)) by (cbn; rewrite Hdir by done; by rewrite decide_True).
  eexists. split; [reflexivity|]. split; [done|]. change (u32 0) with 0.
  apply (restored_inv s0 own0 pgdir Hinv0 Hnone0 t s own [p; t] (both p) m2 (delete 0 (delete 1 (tlb s)))); try done.
  - by right; left.
  - intros v q Hv. assert (both p v = Some (entry p PTE_W)) as -> by (by destruct Hv as [-> | ->]).
    cbn [fmap option_fmap option_map]. intros [= <-].
    rewrite (proj1 (entry_spec s0 own0 pgdir Hinv0 t p PTE_W Hp ltac:(done))). by left.
  - intros q. destruct (Href1 q) as [E1 ?]. destruct (Href2 q) as [E2 ?]. split; [|congruence]. rewrite E2, E1.
    rewrite (decide_ext (q ∈ [p; t]) (q = p ∨ q = t)) by (rewrite elem_of_cons, list_elem_of_singleton; tauto).
    repeat case_decide; try done; lia.
  - congruence.
  - rewrite Hn2, Hn1. unfold free. change (zlen [p; t]) with 2. lia.
  - intros v pte. rewrite !lookup_delete_Some. intros (H0' & H1' & Hl). split; [done|]. lia.
Qed.

(** [check_boot_pgdir] passes, and leaves an entry of the freed page in the TLB. *)
Lemma check_boot_spec pd :
  cr3 s0 = pgdir - KERNBASE → pgdir = waddr pd 0 → 0 ≤ pd < 0x38000 → words s0 !! (pgdir + 4 * 0) = Some 0 →
  words s0 !! (pgdir + 4 * PDX VPT) = Some (Z.lor (Z.lor (pd * 4096) PTE_P) PTE_W) →
  (∀ k, 0 ≤ k → k * 4096 < npage s0 →
     walk (words s0) pgdir (KERNBASE + k * 4096) = Some (linear_entry KERNBASE 0 PTE_W (KERNBASE + k * 4096))) →
  2 ≤ free s0 →
  ∃ s' p, check_boot_pgdir s0 pgdir = Ok s' ∧ restored s0 own0 pgdir (set_tlb s' (delete 0 (delete 1 (tlb s')))) ∧
    tlb s' !! 0 = Some (entry p PTE_W) ∧ PPN (entry p PTE_W) = p ∧ p ∉ own0.
Proof.
  intros Hcr Epd Hpd Hz Hvpt Hl Hf. unfold check_boot_pgdir.
  rewrite (check_frames_spec s0 own0 pgdir Hinv0 Hl). cbn [mbind outcome_bind].
  rewrite (ldw_Ok _ _ _ Hvpt). cbn [mbind outcome_bind].
  assert (PADDR pgdir = Ok (pd * 4096)) as ->.
  { unfold PADDR. rewrite Epd. rewrite (proj2 (Z.ltb_ge _ _)) by (unfold waddr; lia). f_equal. unfold waddr. lia. }
  cbn [mbind outcome_bind]. destruct (entry_bits pd PTE_W ltac:(lia) ltac:(done)) as (_ & _ & Epn & _).
  unfold PDE_ADDR. rewrite PTE_ADDR_div, <-PPN_div, Epn, Z.eqb_refl. cbn [assert_ mbind outcome_bind].
  rewrite (ldw_Ok _ _ _ Hz). cbn [mbind outcome_bind]. rewrite Z.eqb_refl. cbn [assert_ mbind outcome_bind].
  destruct (check_shared_spec Hf) as (t & p & s1 & own & -> & Hc & Hown & Hp). cbn [mbind outcome_bind of_option].
  assert (p ∈ own) as Hin by (rewrite Hown; by left).
  destruct (check_bytes_spec s0 own0 pgdir Hinv0 Hnone0 Hcr t p own (both p) Hp Hin eq_refl eq_refl s1 Hc)
    as (s2 & -> & Hc2 & _ & Htl). cbn [mbind outcome_bind of_option].
  destruct (free_both t p s2 own Hc2 Hown Hp) as (s' & R & Etl & Hr). exists s', p.
  split; [exact R|]. rewrite Etl. split; [done|]. split; [done|].
  split; [by apply (entry_spec s0 own0 pgdir Hinv0 t p PTE_W Hp)|].
  destruct (mgr_inv_own _ _ (pb_mgr _ _ _ (pi_base _ _ _ _ (cs_inv _ _ _ _ _ _ _ Hc2)))) as [Hnd _].
  rewrite Hown in Hnd. apply NoDup_cons in Hnd as [Hni _]. intros Hin'. apply Hni. by right.
Qed.
End main.
