(* ===== verification/PmmPagingProps.v ===== *)
(** * What the self-test and the paging of pmm_init guarantee

    The theorems on PmmPaging.v and PmmBoot.v, for every manager with the laws of
    PmmManager.v, and a machine with 256 pages and the first-fit allocator. *)

From stdpp Require Import base gmap list numbers.
From S2P Require Import Prelude ListH DefaultPmm PmmManager DefaultPmmManager Mmu PageTable PageTableProps PmmPaging PmmBoot.

(** [C39] [check_pgdir] on a directory without a table for the first 4 MB passes
    all its assertions exactly when three pages are free, and then gives back
    every page it took, with the directory, the mapping of every address and the
    invariant of the page tables as before; with fewer than two free pages an
    assertion panics, and with two it writes through the NULL that [alloc_page]
    answers. *)
Theorem check_pgdir_restores {M} `{PmmManagerLaws M} (s : vm M) own pgdir :
  pt_inv s own pgdir no_extra → pde_page (words s) pgdir 0 = None →
  (free s < 2 → check_pgdir s pgdir = Err Panic) ∧
  (free s = 2 → check_pgdir s pgdir = Err Undef) ∧
  (3 ≤ free s → ∃ s', check_pgdir s pgdir = Ok s' ∧ pt_inv s' own pgdir no_extra ∧ free s' = free s ∧
     (∀ d, 0 ≤ d < 1024 → pde_page (words s') pgdir d = pde_page (words s) pgdir d) ∧
     (∀ la, regular la → walk (words s') pgdir la = walk (words s) pgdir la)).
Proof.
  intros Hi Hn. destruct (check_pgdir_spec s own pgdir Hi Hn) as (H1 & H2 & H3).
  split; [done|]. split; [done|]. intros Hf. destruct (H3 Hf) as (s' & R & [Hi' _ Hf' _ _ Hp Hw]). by exists s'.
Qed.

(** [C40] With 226 free pages [pmm_init] sets up the page tables and passes both
    self-tests, when the kernel addresses were unmapped or mapped linearly: every
    address from KERNBASE to KERNTOP is then mapped linearly, no user address is
    mapped that was not before, and the word that appears at VPT for an address
    is the directory entry of its page table.  The invariant of the page tables
    holds but for the TLB: it still translates address 0x100 to a page that has
    been given back, because [check_boot_pgdir] clears the directory entry
    without a flush. *)
Theorem pmm_init_maps_kernel {M} `{PmmManagerLaws M} (s : vm M) own pgdir :
  pt_inv s own pgdir no_extra → pde_page (words s) pgdir 0 = None → cr3 s = pgdir - KERNBASE → 226 ≤ free s →
  (∀ la, KERNBASE ≤ la < KERNTOP →
     walk (words s) pgdir la = None ∨ walk (words s) pgdir la = Some (linear_entry KERNBASE 0 PTE_W la)) →
  ∃ s' own', pmm_init_tables s pgdir = Ok s' ∧
    (∀ la, KERNBASE ≤ la < KERNTOP → walk (words s') pgdir la = Some (linear_entry KERNBASE 0 PTE_W la)) ∧
    (∀ la, 0 ≤ la < KERNBASE → walk (words s') pgdir la = walk (words s) pgdir la) ∧
    (∀ la, 0 ≤ la < 2 ^ 32 → walk (words s') pgdir (VPT + 4 * PPN la) =
       pde ← words s' !! (pgdir + 4 * PDX la); if present pde then Some pde else None) ∧
    pt_inv (set_tlb s' (delete 0 (delete 1 (tlb s')))) own' pgdir no_extra ∧
    ∃ pte, tlb s' !! PPN 0x100 = Some pte ∧ PPN pte ∉ own' ∧ walk (words s') pgdir 0x100 = None.
Proof.
  intros Hi Hn Hcr Hf Hold.
  destruct (pmm_init_paging_spec s own pgdir 2 Hi Hn ltac:(lia) ltac:(lia) Hold)
    as (s1 & own1 & pd & R1 & Hi1 & Hfr1 & Hf1 & Epd & Hpd & Hz & Hvpt & Hw1).
  assert (pde_page (words s1) pgdir 0 = None) as Hn1 by (unfold pde_page; by rewrite Hz).
  destruct (check_boot_spec s1 own1 pgdir Hi1 Hn1 pd) as (s' & p & R & [Hi' _ _ _ Hd' _ Hw'] & Htl & Ep & Hni);
    [by rewrite (fr_cr3 _ _ Hfr1)|done|done|done|done| |done|].
  { intros k Hk Hkn. pose proof (ps_np _ _ _ _ (pb_struct _ _ _ (pi_base _ _ _ _ Hi1))) as Hnp.
    change (KMEMSIZE / PGSIZE) with 0x38000 in Hnp.
    assert (KERNBASE ≤ KERNBASE + k * 4096 < KERNTOP) as Hr by (unfold KERNTOP, KERNBASE, KMEMSIZE; lia).
    by rewrite Hw1, decide_True by (done || by apply kernel_regular). }
  cbn [words set_tlb] in Hd', Hw'.
  assert (∀ la, regular la → walk (words s') pgdir la =
    if decide (KERNBASE ≤ la < KERNTOP) then Some (linear_entry KERNBASE 0 PTE_W la) else walk (words s) pgdir la) as Hw
    by (intros la Hla; by rewrite Hw', Hw1).
  exists s', own1. split; [unfold pmm_init_tables; rewrite R1; exact R|]. split; [|split; [|split; [|split; [done|]]]].
  - intros la Hla. by rewrite Hw, decide_True by (done || by apply kernel_regular).
  - intros la Hla. by rewrite Hw, decide_False by (lia || by apply user_reg).
  - intros la Hla. apply (VPT_walk (set_tlb s' (delete 0 (delete 1 (tlb s')))) own1 pgdir la pd Hi' Epd ltac:(lia)); [|done].
    change (words s' !! (pgdir + 4 * PDX VPT) = Some (Z.lor (Z.lor (pd * 4096) PTE_P) PTE_W)). by rewrite Hd'.
  - exists (entry p PTE_W). split; [exact Htl|]. rewrite Ep. split; [done|].
    assert (Hu : 0 ≤ 0x100 < KERNBASE) by done. rewrite Hw' by (by apply user_reg). rewrite walk_pages. change (PDX 0x100) with 0. by rewrite Hn1.
Qed.

(** ** A machine as entry.S leaves it

    256 pages; page 0 holds the directory, page 3 the table for KERNBASE, and
    the allocator has the pages from 4 on. *)

Definition big_run : outcome pmm := st ← default_init (reserved_pages 256); default_init_memmap st 4 252.

Definition big : pmm := match big_run with Ok st => st | Err _ => reserved_pages 256 end.

Definition vm_big : vm pmm := Vm (boot_words 256) big 256 0 ∅ true.

Lemma big_rep : pmm_rep big [(4, 252)].
Proof.
  destruct (default_init_spec (reserved_pages 256)) as (st1 & R1 & H1 & _); [by vm_compute| |].
  { intros i pg Hp. apply negb_true_iff. revert i pg Hp.
    by apply (page_dec _ (λ _ pg, negb (PageProperty pg))). }
  assert (default_init (reserved_pages 256) = Ok (reserved_pages 256)) as E by (by vm_compute).
  rewrite E in R1. injection R1 as <-.
  destruct (default_init_memmap_spec _ _ 4 252 H1) as (st2 & R2 & H2 & _); [done|by apply page_range_dec|].
  assert (big = st2) as ->; [|exact H2]. unfold big, big_run.
  rewrite E. cbn [mbind outcome_bind]. by rewrite R2.
Qed.

Lemma big_inv : mgr_inv big [].
Proof.
  exists [(4, 252)]. split; [exact big_rep|]. split; [|split; [constructor|]].
  - intros b b' ->%list_elem_of_singleton ->%list_elem_of_singleton. done.
  - intros i Hi. by apply elem_of_nil in Hi.
Qed.

(** Facts of the words are stated of [boot_words] alone, which is opaque. *)
Lemma big_pde d : 0 ≤ d < 1024 → pde_page (boot_words 256) (waddr 0 0) d = if decide (d = 768) then Some 3 else None.
Proof. intros Hd. unfold pde_page. rewrite waddr_pgdir. rewrite boot_words_dir by lia. by case_decide. Qed.

Lemma vm_big_table d t : dir d → pde_page (boot_words 256) (waddr 0 0) d = Some t → d = 768 ∧ t = 3.
Proof. intros [Hd _]. rewrite big_pde by done. by case_decide as E; [intros [= <-]|]. Qed.

Lemma vm_big_walk la : 0 ≤ la < KERNBASE → walk (boot_words 256) (waddr 0 0) la = None.
Proof.
  intros Hla. rewrite walk_pages, big_pde by apply PDX_range.
  rewrite decide_False; [done|]. rewrite PDX_small by (by apply user_32).
  pose proof (Z.div_lt_upper_bound la (2 ^ 22) 768 ltac:(lia)). unfold KERNBASE in Hla. lia.
Qed.

Lemma big_data : forallb (λ p, bool_decide (mgr_ref big p = Ok 0) &&
  Bool.eqb (mgr_reserved big p) (p <? 4)) (seqZ 0 256) = true.
Proof. by vm_compute. Qed.

Lemma big_page p : 0 ≤ p < 256 → mgr_ref big p = Ok 0 ∧ mgr_reserved big p = (p <? 4).
Proof.
  intros Hp. pose proof big_data as Hb. rewrite forallb_forall in Hb. specialize (Hb p).
  rewrite andb_true_iff, bool_decide_eq_true, Bool.eqb_true_iff in Hb. apply Hb, list_elem_of_In, elem_of_seqZ. lia.
Qed.

Lemma big_size : mgr_npage big = 256 ∧ mgr_nr_free_pages big = 252.
Proof. by vm_compute. Qed.

#[global] Opaque big.

Lemma vm_big_kpages p : p ∈ kpages vm_big (waddr 0 0) → 0 < p < 256.
Proof.
  unfold kpages. rewrite list_elem_of_filter, elem_of_seqZ. cbn [npage vm_big].
  intros [[_ Hne] Hp]. destruct (decide (p = 0)) as [->|]; [done|lia].
Qed.

Lemma vm_big_kpage3 : 3 ∈ kpages vm_big (waddr 0 0).
Proof.
  unfold kpages. rewrite list_elem_of_filter, elem_of_seqZ. cbn [npage phys vm_big]. split; [|lia].
  split; [by rewrite (proj2 (big_page 3 ltac:(lia)))|done].
Qed.

Lemma vm_big_struct : pt_struct (boot_words 256) 256 (kpages vm_big (waddr 0 0) ++ []) (waddr 0 0).
Proof.
  rewrite app_nil_r. split.
  - by vm_compute.
  - intros p Hp%vm_big_kpages. lia.
  - exists 0. split; [done|]. split; [lia|]. intros Hp%vm_big_kpages. lia.
  - apply boot_words_ok. lia.
  - intros d t Hd [_ ->]%vm_big_table; [|done]. exact vm_big_kpage3.
  - intros d d' t Hd Hd' [-> _]%vm_big_table [-> _]%vm_big_table; done.
Qed.

Lemma vm_big_base : pt_base vm_big [] (waddr 0 0).
Proof.
  split; cbn [words phys npage vm_big].
  - exact vm_big_struct.
  - exact big_inv.
  - exact (proj1 big_size).
  - replace (PPN (waddr 0 0 - KERNBASE)) with 0 by done. by rewrite (proj2 (big_page 0 ltac:(lia))).
Qed.

Lemma vm_big_inv : pt_inv vm_big [] (waddr 0 0) no_extra.
Proof.
  split; [exact vm_big_base| | | |].
  - intros la pte Hla. by rewrite vm_big_walk.
  - intros p Hp. by apply elem_of_nil in Hp.
  - intros p Hp _ _. rewrite count_zero by (intros la pte Hla; by rewrite vm_big_walk).
    unfold no_extra, page_ref. cbn [phys vm_big]. exact (proj1 (big_page p Hp)).
  - intros _ v pte _ Hv. exfalso. cbn [tlb vm_big] in Hv. rewrite lookup_empty in Hv. discriminate Hv.
Qed.

Lemma linear_entry_3 la i : PPN la = 0xC0000 + i → 0 ≤ i < 2 ^ 20 →
  linear_entry KERNBASE 0 PTE_W la = i * 4096 + 3 ∧ present (i * 4096 + 3) = true.
Proof.
  intros Ep Hi. assert (linear_entry KERNBASE 0 PTE_W la = i * 4096 + 3) as El.
  { unfold linear_entry. rewrite Ep. replace (PPN KERNBASE) with 0xC0000 by done.
    replace (0 + (0xC0000 + i - 0xC0000) * 4096) with (i * 2 ^ 12) by lia.
    rewrite <-Z.lor_assoc. apply (lor_low 12 i (Z.lor PTE_P PTE_W)); done. }
  split; [done|]. rewrite present_mod. replace (i * 4096 + 3) with (1 + (i * 2048 + 1) * 2) by lia.
  by rewrite Z.mod_add by lia.
Qed.

Lemma PPN_kernel la : KERNBASE ≤ la < KERNTOP → PDX la = 768 → PPN la = 0xC0000 + PTX la.
Proof.
  unfold KERNTOP, KERNBASE, KMEMSIZE. intros Hla E. rewrite PPN_split by lia. rewrite PDX_small in E by lia. lia.
Qed.

Lemma walk_via w pgdir la t pte :
  pde_page w pgdir (PDX la) = Some t → w !! waddr t (PTX la) = Some pte →
  walk w pgdir la = if present pte then Some pte else None.
Proof. intros E1 E2. by rewrite walk_pages, E1; cbn; rewrite E2. Qed.

Lemma big_linear la : KERNBASE ≤ la < KERNTOP →
  walk (boot_words 256) (waddr 0 0) la = None ∨
  walk (boot_words 256) (waddr 0 0) la = Some (linear_entry KERNBASE 0 PTE_W la).
Proof.
  intros Hla. pose proof (PTX_range la) as Hx. pose proof (big_pde (PDX la) (PDX_range la)) as Hp.
  destruct (decide (PDX la = 768)) as [E|]; [|left; rewrite walk_pages, Hp; reflexivity].
  rewrite (walk_via _ _ _ _ _ Hp (boot_words_table 256 (PTX la) ltac:(lia) Hx)). clear Hp.
  destruct (decide (PTX la < 256)) as [Hlt|]; [right|by left].
  by destruct (linear_entry_3 la (PTX la) (PPN_kernel la Hla E) ltac:(lia)) as [-> ->].
Qed.

Lemma check_pgdir_restores_witness :
  (free vm_w < 2 → check_pgdir vm_w (waddr 0 0) = Err Panic) ∧
  (free vm_w = 2 → check_pgdir vm_w (waddr 0 0) = Err Undef) ∧
  (3 ≤ free vm_w → ∃ s', check_pgdir vm_w (waddr 0 0) = Ok s' ∧ pt_inv s' [4; 5; 6] (waddr 0 0) no_extra ∧
     free s' = free vm_w ∧
     (∀ d, 0 ≤ d < 1024 → pde_page (words s') (waddr 0 0) d = pde_page (words vm_w) (waddr 0 0) d) ∧
     (∀ la, regular la → walk (words s') (waddr 0 0) la = walk (words vm_w) (waddr 0 0) la)).
Proof. apply (check_pgdir_restores vm_w [4; 5; 6] (waddr 0 0) vm_w_inv). by rewrite vm_w_pde by lia. Defined.

(** That machine has three free pages. *)
Lemma vm_w_free : free vm_w = 3.
Proof. by vm_compute. Qed.

Lemma pmm_init_maps_kernel_witness :
  ∃ s' own', pmm_init_tables vm_big (waddr 0 0) = Ok s' ∧
    (∀ la, KERNBASE ≤ la < KERNTOP → walk (words s') (waddr 0 0) la = Some (linear_entry KERNBASE 0 PTE_W la)) ∧
    (∀ la, 0 ≤ la < KERNBASE → walk (words s') (waddr 0 0) la = walk (words vm_big) (waddr 0 0) la) ∧
    (∀ la, 0 ≤ la < 2 ^ 32 → walk (words s') (waddr 0 0) (VPT + 4 * PPN la) =
       pde ← words s' !! (waddr 0 0 + 4 * PDX la); if present pde then Some pde else None) ∧
    pt_inv (set_tlb s' (delete 0 (delete 1 (tlb s')))) own' (waddr 0 0) no_extra ∧
    ∃ pte, tlb s' !! PPN 0x100 = Some pte ∧ PPN pte ∉ own' ∧ walk (words s') (waddr 0 0) 0x100 = None.
Proof.
  apply (pmm_init_maps_kernel vm_big [] (waddr 0 0) vm_big_inv).
  - by rewrite big_pde by lia.
  - reflexivity.
  - unfold free. cbn [phys vm_big]. rewrite (proj2 big_size). lia.
  - exact big_linear.
Defined.
