(* ===== verification/MinHeap.v ===== *)
(** * SLList_MinHeap.c: a static linked list that is also a minimum heap

    Models src/Labweek7/SLList_MinHeap.c.  The students are the nodes of one
    array; the first [size] of them are a binary heap ordered by id, and the
    same nodes are linked by indices into a list, the last inserted first.  The
    free indices are on a stack.  Every node is read and written as the code
    does it; an index outside the array or a name that does not fit is
    undefined.  A [Student *] argument is passed by value: the callers pass
    variables of their own, never nodes of the heap. *)

From stdpp Require Import base list numbers strings.
From S2P Require Import Prelude.

Definition MAXSIZE : Z := 1024.

(** [char name[20]] *)
Definition NAMESIZE : Z := 20.

Record Student := mk_Student {
  flag : Z;
  sid : Z;
  name : string;
  preNode : Z;
  nextNode : Z
}.

Record Stack := mk_Stack { index : list Z; top : Z }.

Record StaticLinkList := mk_StaticLinkList {
  nodes : list Student;
  headIndex : Z;
  lsize : Z;
  unusedIndexs : Stack
}.

(** ** Assignments to a field *)

Definition set_flag (f : Z) (s : Student) : Student := mk_Student f (sid s) (name s) (preNode s) (nextNode s).
Definition set_id (i : Z) (s : Student) : Student := mk_Student (flag s) i (name s) (preNode s) (nextNode s).
Definition set_name (n : string) (s : Student) : Student := mk_Student (flag s) (sid s) n (preNode s) (nextNode s).
Definition set_pre (p : Z) (s : Student) : Student := mk_Student (flag s) (sid s) (name s) p (nextNode s).
Definition set_next (n : Z) (s : Student) : Student := mk_Student (flag s) (sid s) (name s) (preNode s) n.

Definition set_nodes (a : list Student) (h : StaticLinkList) : StaticLinkList :=
  mk_StaticLinkList a (headIndex h) (lsize h) (unusedIndexs h).
Definition set_head (i : Z) (h : StaticLinkList) : StaticLinkList :=
  mk_StaticLinkList (nodes h) i (lsize h) (unusedIndexs h).
Definition set_size (n : Z) (h : StaticLinkList) : StaticLinkList :=
  mk_StaticLinkList (nodes h) (headIndex h) n (unusedIndexs h).
Definition set_stack (s : Stack) (h : StaticLinkList) : StaticLinkList :=
  mk_StaticLinkList (nodes h) (headIndex h) (lsize h) s.

(** [heap->list[i]], and an assignment to it or to one of its fields. *)
Definition node (h : StaticLinkList) (i : Z) : outcome Student := (nodes h).[i].

Definition set_node (h : StaticLinkList) (i : Z) (s : Student) : outcome StaticLinkList :=
  a ← aset (nodes h) i s; Ok (set_nodes a h).

Definition upd_node (h : StaticLinkList) (i : Z) (f : Student → Student) : outcome StaticLinkList :=
  s ← node h i; set_node h i (f s).

(** [strcpy] into a [name] field *)
Definition copy_name (n : string) : outcome string :=
  if Z.of_nat (String.length n) <? NAMESIZE then Ok n else Err Undef.

(** ** The stack of unused indices *)

Definition initiateStack (stk : Stack) : outcome Stack :=
  idx ← for_range 0 MAXSIZE (λ i a, aset a i (MAXSIZE - i - 1)) (index stk);
  Ok (mk_Stack idx (MAXSIZE - 1)).

Definition pushStack (stk : Stack) (unusedIndex : Z) : outcome Stack :=
  idx ← aset (index stk) (top stk + 1) unusedIndex;
  Ok (mk_Stack idx (top stk + 1)).

Definition popStack (stk : Stack) : Stack :=
  if top stk =? -1 then stk else mk_Stack (index stk) (top stk - 1).

Definition topStack (stk : Stack) : outcome Z :=
  if top stk =? -1 then Ok (-1) else (index stk).[top stk].

Definition printStack (stk : Stack) : outcome (list tok) :=
  if top stk =? -1 then Ok [TStr "Stack is empty\n"]
  else
    t ← (index stk).[top stk];
    out ← for_range 0 (top stk + 1) (λ i out, x ← (index stk).[i]; Ok (out ++ [TInt x; TStr " "])) [];
    Ok ([TStr "Stack: top = "; TInt t; TStr "\nUnused units in the stack: "] ++ out ++ [TStr "\n\n"]).

(** ** The static list *)

Definition printStudent (s : Student) : list tok :=
  [TStr "Id: "; TInt (sid s); TStr " Name: "; TStr (name s); TStr " Pre: "; TInt (preNode s);
   TStr " Next: "; TInt (nextNode s); TStr "\n"].

Definition initialStaticLinkList (h : StaticLinkList) : outcome StaticLinkList :=
  stk ← initiateStack (unusedIndexs h);
  Ok (mk_StaticLinkList (nodes h) (-1) 0 stk).

Definition insertListAtHead (h : StaticLinkList) (stu : Student) : outcome StaticLinkList :=
  index ← topStack (unusedIndexs h);
  let h := set_stack (popStack (unusedIndexs h)) h in
  h ← set_node h index (set_next (headIndex h) (set_pre (-1) (set_flag 1 stu)));
  h ← (if negb (headIndex h =? -1) then upd_node h (headIndex h) (set_pre index) else Ok h);
  Ok (set_size (lsize h + 1) (set_head index h)).

(** One iteration of the loop over the list. *)
Definition print_step (h : StaticLinkList) (st : Z * Z * list tok) : outcome (Z * Z * list tok + list tok) :=
  let '(pre, next, out) := st in
  s ← node h pre;
  let out := out ++ printStudent s in
  let pre := next in
  if pre =? -1 then Ok (inr out)
  else s ← node h next; Ok (inl (pre, nextNode s, out)).

(** The loop has one iteration per node of the list. *)
Definition printStaticLinkList (h : StaticLinkList) : outcome (list tok) :=
  if headIndex h =? -1 then
    Ok [TStr "In the static linklist(from head to tail): \n"; TStr "It is empty\n"]
  else
    s ← node h (headIndex h);
    out ← loop (S (length (nodes h))) (print_step h)
      (headIndex h, nextNode s, []);
    Ok (TStr "In the static linklist(from head to tail): \n" :: out).

(** ** The heap *)

Definition set_if (b : bool) (i : Z) (f : Student → Student) (h : StaticLinkList) : outcome StaticLinkList :=
  if b then upd_node h i f else Ok h.

Definition head_if (i : Z) (h : StaticLinkList) : outcome StaticLinkList :=
  s ← node h i; Ok (if preNode s =? -1 then set_head i h else h).

Definition swapHeapNode (h : StaticLinkList) (parent child : Z) : outcome StaticLinkList :=
  p ← node h parent;
  c ← node h child;
  let '(parentPre, parentNext) := (preNode p, nextNode p) in
  let '(childPre, childNext) := (preNode c, nextNode c) in
  h ← set_node h parent c;
  h ← set_node h child p;
  h ← set_if (negb (parentPre =? -1) && negb (parentPre =? child)) parentPre (set_next child) h;
  h ← set_if (negb (parentNext =? -1) && negb (parentNext =? child)) parentNext (set_pre child) h;
  h ← set_if (negb (childPre =? -1) && negb (childPre =? parent)) childPre (set_next parent) h;
  h ← set_if (negb (childNext =? -1) && negb (childNext =? parent)) childNext (set_pre parent) h;
  h ← set_if (parentPre =? child) parent (set_next child) h;
  h ← set_if (parentPre =? child) child (set_pre parent) h;
  h ← set_if (parentNext =? child) parent (set_pre child) h;
  h ← set_if (parentNext =? child) child (set_next parent) h;
  h ← head_if parent h;
  head_if child h.

(** The loop of [initialHeap] for one node: [temp] is its content. *)
Definition sift_step (n : Z) (temp : Student) (st : StaticLinkList * Z * Z) :
    outcome (StaticLinkList * Z * Z + StaticLinkList) :=
  let '(h, parent, child) := st in
  if child <? n then
    s ← node h child;
    child ← (if child + 1 <? n then
               r ← node h (child + 1); Ok (if sid s >? sid r then child + 1 else child)
             else Ok child);
    s ← node h child;
    if sid temp >? sid s then
      h ← swapHeapNode h parent child;
      Ok (inl (h, child, Z.shiftl child 1 + 1))
    else Ok (inr h)
  else Ok (inr h).

Definition sift (n i : Z) (h : StaticLinkList) : outcome StaticLinkList :=
  temp ← node h i;
  loop (S (Z.to_nat n)) (sift_step n temp) (h, i, Z.shiftl i 1 + 1).

Definition initialHeap (h : StaticLinkList) : outcome StaticLinkList :=
  let n := lsize h in
  for_range 0 (Z.quot n 2) (λ k h, sift n (Z.quot n 2 - 1 - k) h) h.

(** The loop of [pushHeap] that lets the new node rise. *)
Definition rise_step (id : Z) (st : StaticLinkList * Z * Z) :
    outcome (StaticLinkList * Z * Z + StaticLinkList * Z) :=
  let '(h, child, parent) := st in
  s ← node h parent;
  if (id <? sid s) && (0 <? child) then
    h ← swapHeapNode h parent child;
    Ok (inl (h, parent, Z.quot (parent - 1) 2))
  else Ok (inr (h, child)).

Definition pushHeapByIdAndName (h : StaticLinkList) (id : Z) (nm : string) : outcome StaticLinkList :=
  child ← topStack (unusedIndexs h);
  let h := set_stack (popStack (unusedIndexs h)) h in
  h ← upd_node h child (set_id id);
  n ← copy_name nm;
  h ← upd_node h child (set_name n);
  h ← (if negb (headIndex h =? -1) then upd_node h (headIndex h) (set_pre child) else Ok h);
  h ← upd_node h child (set_flag 1);
  h ← upd_node h child (set_pre (-1));
  h ← upd_node h child (set_next (headIndex h));
  let h := set_size (lsize h + 1) h in
  r ← loop (S (Z.to_nat (lsize h))) (rise_step id) (h, child, Z.quot (child - 1) 2);
  Ok (set_head r.2 r.1).

(** The same code with the fields of [*stu]. *)
Definition pushHeap (h : StaticLinkList) (stu : Student) : outcome StaticLinkList :=
  pushHeapByIdAndName h (sid stu) (name stu).

Definition pop_step (temp : Student) (st : StaticLinkList * Z) :
    outcome (StaticLinkList * Z + StaticLinkList) :=
  let '(h, high) := st in
  if high * 2 + 1 <? lsize h then
    let low := high * 2 + 1 in
    low ← (if negb (low =? lsize h - 1) then
             s ← node h low; r ← node h (low + 1);
             Ok (if sid s >? sid r then low + 1 else low)
           else Ok low);
    s ← node h low;
    if sid s <? sid temp then
      h ← swapHeapNode h high low; Ok (inl (h, low))
    else Ok (inr h)
  else Ok (inr h).

(** Takes the node at [lsize h] out of the list. *)
Definition unlink_last (h : StaticLinkList) : outcome StaticLinkList :=
  s ← node h (lsize h);
  let '(pre, next) := (preNode s, nextNode s) in
  h ← set_if (negb (pre =? -1)) pre (set_next next) h;
  h ← set_if (negb (next =? -1)) next (set_pre pre) h;
  Ok (if pre =? -1 then set_head next h else h).

Definition popHeap (h : StaticLinkList) : outcome StaticLinkList :=
  if lsize h =? 0 then Ok h
  else
    let h := set_size (lsize h - 1) h in
    temp ← node h (lsize h);
    stk ← pushStack (unusedIndexs h) (lsize h);
    let h := set_stack stk h in
    h ← upd_node h (headIndex h) (set_flag 0);
    if lsize h =? 0 then Ok (set_head (-1) h)
    else
      h ← swapHeapNode h 0 (lsize h);
      h ← loop (S (Z.to_nat (lsize h))) (pop_step temp) (h, 0);
      unlink_last h.

Definition topHeap (h : StaticLinkList) : outcome Student := node h 0.

Definition isEmptyHeap (h : StaticLinkList) : bool := lsize h =? 0.

(** The recursion shared by the three searches; the index grows with every
    call, so [size] bounds its depth. *)
Fixpoint find_from (fuel : nat) (p : Student → bool) (h : StaticLinkList) (curIndex : Z) : outcome Z :=
  match fuel with
  | O => Err NoFuel
  | S fuel =>
      if lsize h <=? curIndex then Ok (-1)
      else
        s ← node h curIndex;
        if p s then Ok curIndex
        else
          leftIndex ← (if curIndex * 2 + 1 <? lsize h then find_from fuel p h (curIndex * 2 + 1) else Ok (-1));
          if negb (leftIndex =? -1) then Ok leftIndex
          else
            rightIndex ← (if curIndex * 2 + 2 <? lsize h then find_from fuel p h (curIndex * 2 + 2) else Ok (-1));
            if negb (rightIndex =? -1) then Ok rightIndex else Ok (-1)
  end.

Definition find (p : Student → bool) (h : StaticLinkList) (curIndex : Z) : outcome Z :=
  find_from (S (Z.to_nat (lsize h - curIndex))) p h curIndex.

(** [strcmp(a, b) == 0] is the equality of the strings. *)
Definition findHeap (h : StaticLinkList) (stu : Student) (curIndex : Z) : outcome Z :=
  find (λ s, (sid s =? sid stu) && String.eqb (name s) (name stu)) h curIndex.
Definition findHeapById (h : StaticLinkList) (id curIndex : Z) : outcome Z :=
  find (λ s, sid s =? id) h curIndex.
Definition findHeapByName (h : StaticLinkList) (nm : string) (curIndex : Z) : outcome Z :=
  find (λ s, String.eqb (name s) nm) h curIndex.

Definition not_found : list tok := [TStr "can't find the target student!\n"].

(** The new state and what is printed. *)
Definition modifyId (h : StaticLinkList) (stu : Student) (id : Z) : outcome (StaticLinkList * list tok) :=
  index ← findHeap h stu 0;
  if index =? -1 then Ok (h, not_found)
  else h ← upd_node h index (set_id id); h ← initialHeap h; Ok (h, []).

Definition modifyName (h : StaticLinkList) (stu : Student) (nm : string) : outcome (StaticLinkList * list tok) :=
  index ← findHeap h stu 0;
  if index =? -1 then Ok (h, not_found)
  else n ← copy_name nm; h ← upd_node h index (set_name n); Ok (h, []).

Definition modifyIdAndName (h : StaticLinkList) (stu : Student) (id : Z) (nm : string) :
    outcome (StaticLinkList * list tok) :=
  index ← findHeap h stu 0;
  if index =? -1 then Ok (h, not_found)
  else
    h ← upd_node h index (set_id id); n ← copy_name nm; h ← upd_node h index (set_name n);
    h ← initialHeap h; Ok (h, []).

Definition modifyIdByIndex (h : StaticLinkList) (index id : Z) : outcome (StaticLinkList * list tok) :=
  if lsize h <=? index then Ok (h, not_found)
  else h ← upd_node h index (set_id id); h ← initialHeap h; Ok (h, []).

Definition modifyNameByIndex (h : StaticLinkList) (index : Z) (nm : string) :
    outcome (StaticLinkList * list tok) :=
  if lsize h <=? index then Ok (h, not_found)
  else n ← copy_name nm; h ← upd_node h index (set_name n); Ok (h, []).

Definition modifyIdAndNameByIndex (h : StaticLinkList) (index id : Z) (nm : string) :
    outcome (StaticLinkList * list tok) :=
  if lsize h <=? index then Ok (h, not_found)
  else
    h ← upd_node h index (set_id id); n ← copy_name nm; h ← upd_node h index (set_name n);
    h ← initialHeap h; Ok (h, []).

Definition printHeap (h : StaticLinkList) : outcome (list tok) :=
  if lsize h =? 0 then Ok [TStr "In the MinHeap:\n"; TStr "It is empty\n"]
  else
    out ← for_range 0 (lsize h)
      (λ i out, s ← node h i; Ok (out ++ [TStr "Index "; TInt i; TStr ": "] ++ printStudent s)) [];
    Ok (TStr "In the MinHeap:\n" :: out).

Definition printHeapAndLists (h : StaticLinkList) : outcome (list tok) :=
  a ← printHeap h; b ← printStaticLinkList h;
  Ok ([TStr "----------------------Shared Struct----------------\n"] ++ a ++ [TStr "\n"] ++ b ++
      [TStr "---------------------------------------------------\n\n"]).

(** ** main *)

Definition rule : tok := TStr "---------------------------------------------------\n".

(** One section of the output: the title, the operation, the heap and the list. *)
Definition main_section (title : string) (r : StaticLinkList * list tok) : outcome (StaticLinkList * list tok) :=
  a ← printHeap r.1; b ← printStaticLinkList r.1;
  Ok (r.1, [rule; TStr title] ++ r.2 ++ a ++ [TStr "\n"] ++ b ++ [rule; TStr "\n"]).

(** The state before [main] is indeterminate; the result is what it prints. *)
Definition main (lists : StaticLinkList) : outcome (list tok) :=
  h ← initialStaticLinkList lists;
  let stu1 := mk_Student 0 30 "name1" 0 0 in
  let stu2 := mk_Student 0 20 "name2" 0 0 in
  let stu3 := mk_Student 0 40 "name3" 0 0 in
  let stu4 := mk_Student 0 50 "name4" 0 0 in
  let stu5 := mk_Student 0 10 "name5" 0 0 in
  let stu6 := mk_Student 0 5 "name6" 0 0 in
  let stu7 := mk_Student 0 25 "name7" 0 0 in
  h ← insertListAtHead h stu1;
  h ← insertListAtHead h stu2;
  h ← insertListAtHead h stu3;
  h ← insertListAtHead h stu4;
  h ← insertListAtHead h stu5;
  s0 ← main_section "Before initiation:\n" (h, []);
  h ← initialHeap h;
  s1 ← main_section "Turn the list into a heap after initiation:\n\n" (h, []);
  h ← pushHeap h stu6;
  s2 ← main_section "Push stu6 into the heap(id: 5, name: name6)\n\n" (h, []);
  h ← pushHeap h stu7;
  s3 ← main_section "Push stu7 into the heap(id: 25, name: name7)\n\n" (h, []);
  h ← popHeap h;
  s4 ← main_section "Pop heap the first time\n\n" (h, []);
  h ← popHeap h;
  s5 ← main_section "Pop heap the second time\n\n" (h, []);
  r ← modifyId h stu4 5;
  s6 ← main_section "Change stu4's id to 5\n\n" r;
  r ← modifyIdByIndex s6.1 0 90;
  s7 ← main_section "Change the first student's id in the heap to 90\n\n" r;
  index ← findHeap s7.1 stu3 0;
  Ok (s0.2 ++ s1.2 ++ s2.2 ++ s3.2 ++ s4.2 ++ s5.2 ++ s6.2 ++ s7.2 ++
      [rule; TStr "Find the stu3's index\n\n"; TStr "The stu3 is in the index "; TInt index; TStr "\n"; rule; TStr "\n"]).
