(* ===== verification/MinHeapList.v ===== *)
(** * The links of the static list

    [linked a o]: the nodes of the array [a] at the indices [o] are linked in
    that order.  The main lemma is [swap_spec]: [swapHeapNode] exchanges two
    nodes and renames the links, so the order of the contents in the list does
    not change. *)

From stdpp Require Import base list numbers strings.
From S2P Require Import Prelude MinHeap.

(** ** Indices before and after a position *)

Definition before (o : list Z) (k : nat) : Z := match k with O => -1 | S k => default (-1) (o !! k) end.
Definition after (o : list Z) (k : nat) : Z := default (-1) (o !! S k).

Record linked (a : list Student) (o : list Z) : Prop := {
  lk_nodup : NoDup o;
  lk_pos i : i ∈ o → 0 ≤ i;
  lk_node k i : o !! k = Some i →
    ∃ s, a.[i] = Ok s ∧ preNode s = before o k ∧ nextNode s = after o k
}.

(** Id and name of the node at an index. *)
Definition content (a : list Student) (i : Z) : Z * string :=
  match a.[i] with Ok s => (sid s, name s) | Err _ => (0, EmptyString) end.

Definition contents (a : list Student) (o : list Z) : list (Z * string) := content a <$> o.

Lemma linked_node a o i : linked a o → i ∈ o → ∃ s, a.[i] = Ok s.
Proof.
  intros H [k Hk]%list_elem_of_lookup. destruct (lk_node _ _ H k i Hk) as (s & Hs & _). by exists s.
Qed.

Lemma linked_range a o i : linked a o → i ∈ o → 0 ≤ i < zlen a.
Proof. intros H Hi. destruct (linked_node a o i H Hi) as [s Hs]. by apply aget_range in Hs. Qed.

Lemma default_lookup (o : list Z) k j :
  (∀ i, i ∈ o → 0 ≤ i) → 0 ≤ j → default (-1) (o !! k) = j ↔ o !! k = Some j.
Proof.
  intros Hpos Hj. split; [|by intros ->]. destruct (o !! k) as [x|] eqn:E; cbn; [by intros ->|lia].
Qed.

(** The links of neighbours point at each other. *)
Lemma linked_sym a o i j s t :
  linked a o → i ∈ o → j ∈ o → a.[i] = Ok s → a.[j] = Ok t → nextNode s = j ↔ preNode t = i.
Proof.
  intros H Hi Hj Hs Ht. pose proof (lk_pos _ _ H i Hi) as Hi0. pose proof (lk_pos _ _ H j Hj) as Hj0.
  pose proof (lk_nodup _ _ H) as Hnd.
  apply list_elem_of_lookup in Hi as [k Hk]. apply list_elem_of_lookup in Hj as [m Hm].
  destruct (lk_node _ _ H k i Hk) as (s' & Hs' & _ & Hn). destruct (lk_node _ _ H m j Hm) as (t' & Ht' & Hp & _).
  assert (s' = s) as -> by congruence. assert (t' = t) as -> by congruence. rewrite Hn, Hp.
  unfold after. rewrite (default_lookup o (S k) j (lk_pos _ _ H) Hj0). destruct m as [|m]; cbn [before].
  - split; [|lia]. intros E. pose proof (NoDup_lookup _ _ _ _ Hnd E Hm). lia.
  - rewrite (default_lookup o m i (lk_pos _ _ H) Hi0). split; intros E.
    + by pose proof (NoDup_lookup _ _ _ _ Hnd E Hm) as [= ->].
    + by pose proof (NoDup_lookup _ _ _ _ Hnd E Hk) as ->.
Qed.

(** A link is -1 or the index of a node of the list. *)
Lemma linked_pre a o i s : linked a o → i ∈ o → a.[i] = Ok s → preNode s = -1 ∨ preNode s ∈ o.
Proof.
  intros H [k Hk]%list_elem_of_lookup Hs. destruct (lk_node _ _ H k i Hk) as (s' & Hs' & Hp & _).
  assert (s' = s) as -> by congruence. rewrite Hp. destruct k as [|k]; [by left|]. cbn [before].
  destruct (o !! k) eqn:E; [right; by eapply list_elem_of_lookup_2|by left].
Qed.

Lemma linked_next a o i s : linked a o → i ∈ o → a.[i] = Ok s → nextNode s = -1 ∨ nextNode s ∈ o.
Proof.
  intros H [k Hk]%list_elem_of_lookup Hs. destruct (lk_node _ _ H k i Hk) as (s' & Hs' & _ & Hn).
  assert (s' = s) as -> by congruence. rewrite Hn. unfold after.
  destruct (o !! S k) eqn:E; [right; by eapply list_elem_of_lookup_2|by left].
Qed.

Lemma linked_self a o i s :
  linked a o → i ∈ o → a.[i] = Ok s → preNode s ≠ i ∧ nextNode s ≠ i.
Proof.
  intros H Hi Hs. pose proof (lk_pos _ _ H i Hi). pose proof (lk_nodup _ _ H) as Hnd.
  apply list_elem_of_lookup in Hi as [k Hk].
  destruct (lk_node _ _ H k i Hk) as (s' & Hs' & Hp & Hn). assert (s' = s) as -> by congruence.
  rewrite Hp, Hn. unfold after. rewrite (default_lookup o (S k) i (lk_pos _ _ H)) by done. split.
  - destruct k as [|k]; [cbn; lia|]. cbn [before]. rewrite (default_lookup o k i (lk_pos _ _ H)) by done.
    intros E. pose proof (NoDup_lookup _ _ _ _ Hnd E Hk). lia.
  - intros E. pose proof (NoDup_lookup _ _ _ _ Hnd E Hk). lia.
Qed.

(** The head of the list is the node without a predecessor. *)
Lemma linked_head a o i s :
  linked a o → i ∈ o → a.[i] = Ok s → preNode s = -1 ↔ head o = Some i.
Proof.
  intros H Hi Hs. pose proof (lk_nodup _ _ H) as Hnd. pose proof (lk_pos _ _ H) as Hpos.
  apply list_elem_of_lookup in Hi as [k Hk].
  destruct (lk_node _ _ H k i Hk) as (s' & Hs' & Hp & _). assert (s' = s) as -> by congruence. rewrite Hp.
  rewrite head_lookup. destruct k as [|k]; [done|]. cbn [before]. split.
  - destruct (o !! k) as [x|] eqn:E; cbn.
    + intros ->. specialize (Hpos (-1) ltac:(by eapply list_elem_of_lookup_2)). lia.
    + apply lookup_ge_None in E. apply lookup_lt_Some in Hk. lia.
  - intros E. pose proof (NoDup_lookup _ _ _ _ Hnd E Hk). lia.
Qed.

(** ** Updates of the array seen through lookups *)

Lemma upd_node_aget h i f s :
  node h i = Ok s → ∃ h', upd_node h i f = Ok h' ∧ h' = set_nodes (nodes h') h ∧ zlen (nodes h') = zlen (nodes h) ∧
    ∀ j, (nodes h').[j] = if decide (j = i) then Ok (f s) else (nodes h).[j].
Proof.
  intros Hs. pose proof (aget_range _ _ _ Hs) as Hr. unfold upd_node, set_node. rewrite Hs. cbn [mbind outcome_bind].
  rewrite aset_Ok by done. cbn [mbind outcome_bind]. eexists. split; [done|]. split; [done|]. cbn [nodes set_nodes].
  rewrite zlen_insert. split; [done|]. intros j. by rewrite aget_insert.
Qed.

Lemma set_node_aget h i x :
  0 ≤ i < zlen (nodes h) → ∃ h', set_node h i x = Ok h' ∧ h' = set_nodes (nodes h') h ∧ zlen (nodes h') = zlen (nodes h) ∧
    ∀ j, (nodes h').[j] = if decide (j = i) then Ok x else (nodes h).[j].
Proof.
  intros Hr. unfold set_node. rewrite aset_Ok by done. cbn [mbind outcome_bind]. eexists. split; [done|]. split; [done|].
  cbn [nodes set_nodes]. rewrite zlen_insert. split; [done|]. intros j. by rewrite aget_insert.
Qed.

(** A conditional assignment. *)
Lemma set_if_aget h b i f :
  (b = true → 0 ≤ i < zlen (nodes h)) →
  ∃ h', set_if b i f h = Ok h' ∧ h' = set_nodes (nodes h') h ∧ zlen (nodes h') = zlen (nodes h) ∧
    ∀ j, (nodes h').[j] = if decide (b = true ∧ j = i) then f <$> (nodes h).[j] else (nodes h).[j].
Proof.
  intros Hb. unfold set_if. destruct b.
  - destruct (aget_in_range (nodes h) i (Hb eq_refl)) as (s & Hs & _).
    destruct (upd_node_aget h i f s Hs) as (h' & E & Hh & Hl & Hj). exists h'. split_and!; [done..|].
    intros j. rewrite Hj. destruct (decide (j = i)) as [->|]; [|by rewrite decide_False by naive_solver].
    rewrite decide_True by done. by rewrite Hs.
  - exists h. split_and!; [done|by destruct h|done|]. intros j. by rewrite decide_False by naive_solver.
Qed.

(** ** swapHeapNode *)

(** The exchange of two indices; -1 is not an index. *)
Definition tr (p c i : Z) : Z := if decide (i = p) then c else if decide (i = c) then p else i.

Definition relabel (p c : Z) (s : Student) : Student :=
  mk_Student (flag s) (sid s) (name s) (tr p c (preNode s)) (tr p c (nextNode s)).

Lemma tr_invol p c i : tr p c (tr p c i) = i.
Proof. unfold tr. repeat case_decide; congruence. Qed.

#[global] Instance tr_inj p c : Inj (=) (=) (tr p c).
Proof. intros i j H. rewrite <-(tr_invol p c i), H. apply tr_invol. Qed.

Lemma tr_l p c : tr p c p = c.
Proof. unfold tr. by rewrite decide_True. Qed.
Lemma tr_r p c : tr p c c = p.
Proof. unfold tr. repeat case_decide; congruence. Qed.
Lemma tr_ne p c i : i ≠ p → i ≠ c → tr p c i = i.
Proof. intros ??. unfold tr. by rewrite !decide_False. Qed.

Definition tr_node (p c : Z) (o : list Z) : list Z := tr p c <$> o.

Lemma elem_tr p c o i : p ∈ o → c ∈ o → i ∈ tr_node p c o ↔ i ∈ o.
Proof.
  intros Hp Hc. unfold tr_node. rewrite list_elem_of_fmap. split.
  - intros (j & -> & Hj). unfold tr. by repeat case_decide.
  - intros Hi. exists (tr p c i). split; [by rewrite tr_invol|]. unfold tr. by repeat case_decide.
Qed.

(** Decides the guards of [swapHeapNode] from what is known of the links. *)
Ltac guards :=
  repeat match goal with
    | |- context [decide ?P] =>
        first [ rewrite (decide_True (P := P)) by
                  (rewrite ?andb_true_iff, ?negb_true_iff, ?Z.eqb_eq, ?Z.eqb_neq; split_and?; lia)
              | rewrite (decide_False (P := P)) by
                  (rewrite ?andb_true_iff, ?negb_true_iff, ?Z.eqb_eq, ?Z.eqb_neq; lia) ]
    end.

Lemma student_eq (s t : Student) :
  flag s = flag t → sid s = sid t → name s = name t → preNode s = preNode t → nextNode s = nextNode t → s = t.
Proof. destruct s, t; cbn; congruence. Qed.

Section swap.
Context (h : StaticLinkList) (o : list Z) (p c : Z).
Context (Hl : linked (nodes h) o) (Hp : p ∈ o) (Hc : c ∈ o) (Hpc : p ≠ c).

(** The assignments of [swapHeapNode] without the last two, to [headIndex]. *)
Lemma swap_nodes :
  ∃ h', (∀ f, swapHeapNode h p c = f → (h ← head_if p h'; head_if c h) = f) ∧
    h' = set_nodes (nodes h') h ∧ zlen (nodes h') = zlen (nodes h) ∧
    (∀ i, i ∉ o → (nodes h').[i] = (nodes h).[i]) ∧
    (∀ i s, i ∈ o → (nodes h).[i] = Ok s → (nodes h').[tr p c i] = Ok (relabel p c s)).
Proof.
  destruct (linked_node _ _ p Hl Hp) as [sp Hsp]. destruct (linked_node _ _ c Hl Hc) as [sc Hsc].
  pose proof (linked_range _ _ p Hl Hp) as Hpr. pose proof (linked_range _ _ c Hl Hc) as Hcr.
  destruct (linked_self _ _ p sp Hl Hp Hsp) as [Hpp Hpn]. destruct (linked_self _ _ c sc Hl Hc Hsc) as [Hcp Hcn].
  pose proof (linked_sym _ _ p c sp sc Hl Hp Hc Hsp Hsc) as Spc.
  pose proof (linked_sym _ _ c p sc sp Hl Hc Hp Hsc Hsp) as Scp.
  pose proof (linked_pre _ _ p sp Hl Hp Hsp) as Ep. pose proof (linked_next _ _ p sp Hl Hp Hsp) as En.
  pose proof (linked_pre _ _ c sc Hl Hc Hsc) as Fp. pose proof (linked_next _ _ c sc Hl Hc Hsc) as Fn.
  assert (∀ s x, preNode s = -1 ∨ preNode s ∈ o → negb (preNode s =? -1) && negb (preNode s =? x) = true →
    0 ≤ preNode s < zlen (nodes h)) as Rp.
  { intros s x [E|E] Hb; [rewrite E in Hb; done|]. by apply (linked_range _ o). }
  assert (∀ s x, nextNode s = -1 ∨ nextNode s ∈ o → negb (nextNode s =? -1) && negb (nextNode s =? x) = true →
    0 ≤ nextNode s < zlen (nodes h)) as Rn.
  { intros s x [E|E] Hb; [rewrite E in Hb; done|]. by apply (linked_range _ o). }
  destruct (set_node_aget h p sc Hpr) as (h1 & R1 & Hh1 & L1 & J1).
  destruct (set_node_aget h1 c sp ltac:(lia)) as (h2 & R2 & Hh2 & L2 & J2).
  destruct (set_if_aget h2 (negb (preNode sp =? -1) && negb (preNode sp =? c)) (preNode sp) (set_next c)) as (h3 & R3 & Hh3 & L3 & J3).
  { rewrite L2, L1. by apply Rp. }
  destruct (set_if_aget h3 (negb (nextNode sp =? -1) && negb (nextNode sp =? c)) (nextNode sp) (set_pre c)) as (h4 & R4 & Hh4 & L4 & J4).
  { rewrite L3, L2, L1. by apply Rn. }
  destruct (set_if_aget h4 (negb (preNode sc =? -1) && negb (preNode sc =? p)) (preNode sc) (set_next p)) as (h5 & R5 & Hh5 & L5 & J5).
  { rewrite L4, L3, L2, L1. by apply Rp. }
  destruct (set_if_aget h5 (negb (nextNode sc =? -1) && negb (nextNode sc =? p)) (nextNode sc) (set_pre p)) as (h6 & R6 & Hh6 & L6 & J6).
  { rewrite L5, L4, L3, L2, L1. by apply Rn. }
  destruct (set_if_aget h6 (preNode sp =? c) p (set_next c)) as (h7 & R7 & Hh7 & L7 & J7); [intros _; lia|].
  destruct (set_if_aget h7 (preNode sp =? c) c (set_pre p)) as (h8 & R8 & Hh8 & L8 & J8); [intros _; lia|].
  destruct (set_if_aget h8 (nextNode sp =? c) p (set_pre c)) as (h9 & R9 & Hh9 & L9 & J9); [intros _; lia|].
  destruct (set_if_aget h9 (nextNode sp =? c) c (set_next p)) as (h10 & R10 & Hh10 & L10 & J10); [intros _; lia|].
  exists h10. split.
  { intros f <-. unfold swapHeapNode. unfold node at 1 2. rewrite Hsp, Hsc. cbn [mbind outcome_bind].
    rewrite R1. cbn [mbind outcome_bind]. rewrite R2. cbn [mbind outcome_bind]. rewrite R3. cbn [mbind outcome_bind].
    rewrite R4. cbn [mbind outcome_bind]. rewrite R5. cbn [mbind outcome_bind]. rewrite R6. cbn [mbind outcome_bind].
    rewrite R7. cbn [mbind outcome_bind]. rewrite R8. cbn [mbind outcome_bind]. rewrite R9. cbn [mbind outcome_bind].
    by rewrite R10. }
  split; [rewrite Hh10, Hh9, Hh8, Hh7, Hh6, Hh5, Hh4, Hh3, Hh2, Hh1; done|]. split; [lia|].
  split.
  - intros i Hi. rewrite J10, J9, J8, J7, J6, J5, J4, J3, J2, J1.
    clear - Hi Hp Hc Ep En Fp Fn. 
    assert (i ≠ p) by (by intros ->). assert (i ≠ c) by (by intros ->).
    assert (∀ s, preNode s = -1 ∨ preNode s ∈ o → preNode s = -1 ∨ i ≠ preNode s) as Np.
    { intros s [?|E]; [by left|right]. by intros ->. }
    assert (∀ s, nextNode s = -1 ∨ nextNode s ∈ o → nextNode s = -1 ∨ i ≠ nextNode s) as Nn.
    { intros s [?|E]; [by left|right]. by intros ->. }
    pose proof (Np sp Ep). pose proof (Nn sp En). pose proof (Np sc Fp). pose proof (Nn sc Fn).
    clear Np Nn Ep En Fp Fn Hi Hp Hc.
    guards. done.
  - intros i s Hi Hs. destruct (decide (i = p)) as [->|Hip]; [|destruct (decide (i = c)) as [->|Hic]].
    + rewrite tr_l. assert (s = sp) as -> by congruence.
      rewrite J10, J9, J8, J7, J6, J5, J4, J3, J2, J1.
      clear - Hpc Hpp Hpn Hcp Hcn Spc Scp.
      destruct (decide (preNode sp = c)) as [e|e], (decide (nextNode sp = c)) as [e'|e'];
        [pose proof (proj2 Scp e); pose proof (proj1 Spc e') | pose proof (proj2 Scp e); assert (preNode sc ≠ p) by tauto
        |assert (nextNode sc ≠ p) by tauto; pose proof (proj1 Spc e') | assert (nextNode sc ≠ p) by tauto; assert (preNode sc ≠ p) by tauto];
        clear Spc Scp; guards; cbn; f_equal; apply student_eq; cbn; unfold tr; guards; done.
    + rewrite tr_r. assert (s = sc) as -> by congruence.
      rewrite J10, J9, J8, J7, J6, J5, J4, J3, J2, J1.
      clear - Hpc Hpp Hpn Hcp Hcn Spc Scp.
      destruct (decide (preNode sp = c)) as [e|e], (decide (nextNode sp = c)) as [e'|e'];
        [pose proof (proj2 Scp e); pose proof (proj1 Spc e') | pose proof (proj2 Scp e); assert (preNode sc ≠ p) by tauto
        |assert (nextNode sc ≠ p) by tauto; pose proof (proj1 Spc e') | assert (nextNode sc ≠ p) by tauto; assert (preNode sc ≠ p) by tauto];
        clear Spc Scp; guards; cbn; f_equal; apply student_eq; cbn; unfold tr; guards; done.
    + rewrite tr_ne by done.
      pose proof (linked_sym _ _ i p s sp Hl Hi Hp Hs Hsp) as S1. pose proof (linked_sym _ _ p i sp s Hl Hp Hi Hsp Hs) as S2.
      pose proof (linked_sym _ _ i c s sc Hl Hi Hc Hs Hsc) as S3. pose proof (linked_sym _ _ c i sc s Hl Hc Hi Hsc Hs) as S4.
      pose proof (lk_pos _ _ Hl i Hi) as Hi0.
      rewrite J10, J9, J8, J7, J6, J5, J4, J3, J2, J1, Hs. clear - Hpc Hip Hic S1 S2 S3 S4 Hi0.
      assert (∀ v u, u ≠ i → (negb (v =? -1) && negb (v =? u) = true ∧ i = v) ↔ v = i) as Hg.
      { intros v u Hu. clear - Hu Hi0. rewrite andb_true_iff, !negb_true_iff, !Z.eqb_neq. lia. }
      assert (∀ P (x y : outcome Student) `{Decision P}, ¬ P → (if decide P then x else y) = y) as Hno
        by (intros; by rewrite decide_False).
      rewrite !(Hno (_ ∧ i = p)), !(Hno (_ ∧ i = c)), !(Hno (i = p)), !(Hno (i = c)) by tauto. clear Hno.
      rewrite (decide_ext _ _ _ _ (Hg (preNode sp) c (not_eq_sym Hic))), (decide_ext _ _ _ _ (Hg (nextNode sp) c (not_eq_sym Hic))),
        (decide_ext _ _ _ _ (Hg (preNode sc) p (not_eq_sym Hip))), (decide_ext _ _ _ _ (Hg (nextNode sc) p (not_eq_sym Hip))).
      rewrite <-(decide_ext _ _ _ _ S1), (decide_ext _ _ _ _ S2), <-(decide_ext _ _ _ _ S3), (decide_ext _ _ _ _ S4).
      clear - Hpc. unfold relabel, tr. destruct s; cbn. repeat case_decide; cbn; (congruence || reflexivity).
Qed.

(** [swapHeapNode] on a list of nodes: contents are exchanged, links renamed. *)
Lemma swap_spec :
  ∃ h', swapHeapNode h p c = Ok h' ∧ lsize h' = lsize h ∧ unusedIndexs h' = unusedIndexs h ∧
    zlen (nodes h') = zlen (nodes h) ∧
    (∀ i, i ∉ o → (nodes h').[i] = (nodes h).[i]) ∧
    (∀ i s, i ∈ o → (nodes h).[i] = Ok s → (nodes h').[tr p c i] = Ok (relabel p c s)) ∧
    headIndex h' = if decide (head o = Some p) then c else if decide (head o = Some c) then p else headIndex h.
Proof.
  destruct swap_nodes as (h' & R & Hh & Hz & Ho & Hi).
  destruct (linked_node _ _ p Hl Hp) as [sp Hsp]. destruct (linked_node _ _ c Hl Hc) as [sc Hsc].
  pose proof (Hi p sp Hp Hsp) as Gc. rewrite tr_l in Gc. pose proof (Hi c sc Hc Hsc) as Gp. rewrite tr_r in Gp.
  pose proof (linked_pre _ _ p sp Hl Hp Hsp) as Ep. pose proof (linked_pre _ _ c sc Hl Hc Hsc) as Fp.
  assert (∀ s, preNode s = -1 ∨ preNode s ∈ o → preNode (relabel p c s) = -1 ↔ preNode s = -1) as Htr.
  { intros s Hs. cbn. pose proof (lk_pos _ _ Hl p Hp). pose proof (lk_pos _ _ Hl c Hc). unfold tr. repeat case_decide; lia. }
  assert (∀ g i x s, headIndex g = x → (nodes g).[i] = Ok s →
    head_if i g = Ok (set_head (if decide (preNode s = -1) then i else x) g)) as Hhead.
  { intros g i x s <- Hs. unfold head_if, node. rewrite Hs. cbn [mbind outcome_bind].
    destruct (Z.eqb_spec (preNode s) (-1)); case_decide; try done. by destruct g. }
  assert (headIndex h' = headIndex h) as Hhd by (rewrite Hh; done).
  eexists. rewrite <-(R _ eq_refl). rewrite (Hhead h' p _ _ Hhd Gp). cbn [mbind outcome_bind].
  rewrite (Hhead (set_head _ h') c _ _ eq_refl Gc). split; [done|]. cbn [lsize unusedIndexs nodes headIndex set_head].
  split; [by rewrite Hh|]. split; [by rewrite Hh|]. do 3 (split; [done|]).
  pose proof (linked_head _ _ p sp Hl Hp Hsp) as Kp. pose proof (linked_head _ _ c sc Hl Hc Hsc) as Kc.
  pose proof (Htr sp Ep) as Tp. pose proof (Htr sc Fp) as Tc.
  destruct (decide (head o = Some p)) as [Eh|Eh].
  - rewrite decide_True by tauto. done.
  - rewrite decide_False by tauto. destruct (decide (head o = Some c)).
    + by rewrite decide_True by tauto.
    + by rewrite decide_False by tauto.
Qed.
End swap.
