(* ===== verification/MinHeapProps.v ===== *)
(** * What the operations of the minimum heap guarantee

    [heap_rep h l]: the heap [h] holds the students [l] (id and name), the last
    inserted first, in its list, and its array is ordered by id.  The theorems
    state every operation as an operation on [l]. *)

From stdpp Require Import base list numbers strings.
From S2P Require Import Prelude MinHeap MinHeapList.

(** ** Lists of nodes *)

Definition hd_index (o : list Z) : Z := default (-1) (head o).

(** The nodes of [h] at [o] are linked and are those with an index below [n]. *)
Record shape (h : StaticLinkList) (o : list Z) (n : Z) : Prop := {
  sh_linked : linked (nodes h) o;
  sh_perm : o ≡ₚ seqZ 0 n
}.

(** [h'] is [h] with nodes exchanged: same contents in the same order. *)
Record moved (h : StaticLinkList) (o : list Z) (h' : StaticLinkList) (o' : list Z) : Prop := {
  mv_contents : contents (nodes h') o' = contents (nodes h) o;
  mv_head : headIndex h = hd_index o → headIndex h' = hd_index o';
  mv_size : lsize h' = lsize h;
  mv_stack : unusedIndexs h' = unusedIndexs h;
  mv_len : zlen (nodes h') = zlen (nodes h)
}.

Lemma moved_refl h o : moved h o h o.
Proof. done. Qed.

Lemma moved_trans h1 o1 h2 o2 h3 o3 : moved h1 o1 h2 o2 → moved h2 o2 h3 o3 → moved h1 o1 h3 o3.
Proof. intros [] []. split; [congruence|auto|congruence..]. Qed.

(** The id of the node at an index. *)
Definition key (h : StaticLinkList) (i : Z) : Z := (content (nodes h) i).1.

Lemma shape_elem h o n i : shape h o n → i ∈ o ↔ 0 ≤ i < n.
Proof. intros [_ Hp]. rewrite Hp, elem_of_seqZ. lia. Qed.

Lemma shape_node h o n i : shape h o n → 0 ≤ i < n → ∃ s, node h i = Ok s ∧ key h i = sid s.
Proof.
  intros H Hi. destruct (linked_node _ _ i (sh_linked _ _ _ H)) as [s Hs]; [by apply (shape_elem h o n)|].
  exists s. split; [done|]. unfold key, content. by rewrite Hs.
Qed.

Lemma tr_linked a a' o p c :
  p ∈ o → c ∈ o → linked a o →
  (∀ i s, i ∈ o → a.[i] = Ok s → a'.[tr p c i] = Ok (relabel p c s)) → linked a' (tr_node p c o).
Proof.
  intros Hp Hc H Hi. pose proof (lk_pos _ _ H p Hp). pose proof (lk_pos _ _ H c Hc).
  assert (tr p c (-1) = -1) as Hneg by (apply tr_ne; lia).
  assert (∀ k, default (-1) (tr_node p c o !! k) = tr p c (default (-1) (o !! k))) as Hd.
  { intros k. unfold tr_node. rewrite list_lookup_fmap. by destruct (o !! k). }
  split.
  - apply NoDup_fmap; [apply _|]. by apply H.
  - intros i. rewrite elem_tr by done. by apply H.
  - intros k i Hk. unfold tr_node in Hk. rewrite list_lookup_fmap in Hk.
    destruct (o !! k) as [j|] eqn:E; [|done]. injection Hk as <-.
    destruct (lk_node _ _ H k j E) as (s & Hs & Hp' & Hn'). exists (relabel p c s).
    split; [by apply Hi; [eapply list_elem_of_lookup_2|]|]. cbn. rewrite Hp', Hn'. split.
    + destruct k as [|k]; [done|]. cbn [before]. by rewrite Hd.
    + unfold after. by rewrite Hd.
Qed.

(** The exchange of two nodes of a list, for the algorithms. *)
Lemma swap_shape h o n p c :
  shape h o n → 0 ≤ p < n → 0 ≤ c < n → p ≠ c →
  ∃ h', swapHeapNode h p c = Ok h' ∧ shape h' (tr_node p c o) n ∧ moved h o h' (tr_node p c o) ∧
    ∀ i, 0 ≤ i < n → content (nodes h') i = content (nodes h) (tr p c i).
Proof.
  intros H Hp%(shape_elem h o n) Hc%(shape_elem h o n) Hpc; [|done..].
  pose proof (sh_linked _ _ _ H) as Hl.
  destruct (swap_spec h o p c Hl Hp Hc Hpc) as (h' & R & Hs & Hst & Hz & _ & Hi & Hhd).
  assert (∀ i, i ∈ o → content (nodes h') (tr p c i) = content (nodes h) i) as Hcont.
  { intros i Hio. destruct (linked_node _ _ i Hl Hio) as [s E]. unfold content. by rewrite (Hi i s Hio E), E. }
  exists h'. split_and!; [done| | |].
  - split; [by eapply tr_linked; [..|exact Hi]|]. apply NoDup_Permutation.
    + apply (lk_nodup (nodes h')). by eapply tr_linked; [..|exact Hi].
    + apply NoDup_seqZ.
    + intros i. rewrite elem_tr by done. by rewrite (sh_perm _ _ _ H).
  - split; try done.
    + unfold contents, tr_node. rewrite <-list_fmap_compose. apply list_fmap_ext. intros k i Hk.
      apply Hcont. by eapply list_elem_of_lookup_2.
    + intros Hd. rewrite Hhd. unfold hd_index, tr_node in *. destruct o as [|x o]; [by apply elem_of_nil in Hp|].
      cbn in *. unfold tr. repeat case_decide; congruence.
  - intros i Hin%(shape_elem h o n); [|done]. rewrite <-(tr_invol p c i) at 1.
    rewrite Hcont; [done|]. unfold tr. by repeat case_decide.
Qed.

(** ** Heap order *)

Definition par (i : Z) : Z := (i - 1) / 2.

(** Every node whose parent is at [lo] or behind has a parent that is not
    greater. *)
Definition ordered (K : Z → Z) (lo n : Z) : Prop :=
  ∀ i, 0 < i < n → lo ≤ par i → K (par i) ≤ K i.

(** The order may only fail between [p] and its children. *)
Definition sinking (K : Z → Z) (lo n p : Z) : Prop :=
  (∀ i, 0 < i < n → lo ≤ par i → par i ≠ p → K (par i) ≤ K i) ∧
  (0 < p → lo ≤ par p → ∀ i, 0 < i < n → par i = p → K (par p) ≤ K i).

(** The order may only fail between [c] and its parent. *)
Definition rising (K : Z → Z) (n c : Z) : Prop :=
  (∀ i, 0 < i < n → i ≠ c → K (par i) ≤ K i) ∧
  (0 < c → ∀ i, 0 < i < n → par i = c → K (par c) ≤ K i).

Lemma par_children i p : par i = p ↔ i = 2 * p + 1 ∨ i = 2 * p + 2.
Proof. unfold par. pose proof (Z.div_mod (i - 1) 2 ltac:(lia)). pose proof (Z.mod_pos_bound (i - 1) 2 ltac:(lia)). lia. Qed.

Lemma par_bound i : 0 < i → 0 ≤ par i < i.
Proof. unfold par. pose proof (Z.div_mod (i - 1) 2 ltac:(lia)). pose proof (Z.mod_pos_bound (i - 1) 2 ltac:(lia)). lia. Qed.

Lemma sinking_start K n p : 0 ≤ p → ordered K (p + 1) n → sinking K p n p.
Proof.
  intros Hp H. split.
  - intros i Hi Hlo Hne. apply H; [done|lia].
  - intros H0 Hlo. pose proof (par_bound p H0). lia.
Qed.

Lemma sinking_done K lo n p :
  sinking K lo n p → (∀ i, 0 < i < n → par i = p → K p ≤ K i) → ordered K lo n.
Proof.
  intros [H1 _] Hp i Hi Hlo. destruct (decide (par i = p)) as [E|E]; [rewrite E; by apply Hp|by apply H1].
Qed.

Lemma sinking_step K K' lo n p c :
  0 ≤ p → lo ≤ p → sinking K lo n p → par c = p → 0 < c < n → K c < K p →
  (∀ i, 0 < i < n → par i = p → K c ≤ K i) →
  (∀ i, 0 ≤ i < n → K' i = K (tr p c i)) → sinking K' lo n c.
Proof.
  intros Hp Hlo [H1 H2] Hc Hcn Hlt Hmin HK. pose proof (par_bound c ltac:(lia)) as Hpc. rewrite Hc in Hpc.
  split.
  - intros i Hi Hl Hne. pose proof (par_bound i ltac:(lia)) as Hpi. rewrite !HK by lia.
    destruct (decide (par i = p)) as [E|E].
    + rewrite E, tr_l. destruct (decide (i = c)) as [->|]; [rewrite tr_r; lia|].
      rewrite tr_ne by lia. by apply Hmin.
    + rewrite (tr_ne p c (par i)) by done. destruct (decide (i = p)) as [->|].
      * rewrite tr_l. apply H2; [lia|done..].
      * rewrite tr_ne by (try done; intros ->; by rewrite Hc in E). by apply H1.
  - intros _ _ i Hi Hpi. rewrite Hc, !HK by lia. rewrite tr_l.
    assert (i ≠ c) by (intros ->; lia). rewrite tr_ne by (try done; intros ->; pose proof (par_bound p); lia).
    rewrite <-Hpi. apply H1; [done|lia|lia].
Qed.

Lemma rising_done K n c : rising K n c → (0 < c → K (par c) ≤ K c) → ordered K 0 n.
Proof.
  intros [H1 _] Hc i Hi _. destruct (decide (i = c)) as [->|E]; [apply Hc; lia|by apply H1].
Qed.

Lemma rising_step K K' n c :
  rising K n c → 0 < c < n → K c < K (par c) → (∀ i, 0 ≤ i < n → K' i = K (tr (par c) c i)) →
  rising K' n (par c).
Proof.
  intros [H1 H2] Hc Hlt HK. pose proof (par_bound c ltac:(lia)) as Hpc. split.
  - intros i Hi Hne. pose proof (par_bound i ltac:(lia)) as Hpi. rewrite !HK by lia.
    destruct (decide (par i = par c)) as [E|E].
    + rewrite E, tr_l. destruct (decide (i = c)) as [->|]; [rewrite tr_r; lia|]. rewrite tr_ne by done.
      specialize (H1 i Hi ltac:(done)). rewrite E in H1. lia.
    + assert (i ≠ c) by congruence. rewrite (tr_ne _ _ i) by done. destruct (decide (par i = c)) as [Ec|Ec].
      * rewrite Ec, tr_r. apply H2; [lia|done..].
      * rewrite tr_ne by done. by apply H1.
  - intros Hpp i Hi Hpi. pose proof (par_bound (par c) Hpp) as Hppp. rewrite !HK by lia.
    rewrite (tr_ne _ _ (par (par c))) by lia.
    assert (K (par (par c)) ≤ K (par c)) as Hg by (apply H1; lia).
    destruct (decide (i = c)) as [->|].
    + by rewrite tr_r.
    + rewrite tr_ne by (try done; intros ->; lia). pose proof (H1 i Hi ltac:(done)) as Hq. rewrite Hpi in Hq. lia.
Qed.

(** ** The loops *)

(** The smaller child, as [sift_step] and [pop_step] choose it. *)
Definition min_child (h : StaticLinkList) (n p c : Z) : Prop :=
  par c = p ∧ 0 < c < n ∧ ∀ i, 0 < i < n → par i = p → key h c ≤ key h i.

Lemma min_child_left h n p :
  0 ≤ p → 2 * p + 1 < n → (2 * p + 2 < n → key h (2 * p + 1) ≤ key h (2 * p + 2)) → min_child h n p (2 * p + 1).
Proof.
  intros Hp Hn H. split; [apply par_children; by left|]. split; [lia|].
  intros i Hi [->| ->]%par_children; [lia|apply H; lia].
Qed.

Lemma min_child_right h n p :
  0 ≤ p → 2 * p + 2 < n → key h (2 * p + 2) ≤ key h (2 * p + 1) → min_child h n p (2 * p + 2).
Proof.
  intros Hp Hn H. split; [apply par_children; by right|]. split; [lia|].
  intros i Hi [->| ->]%par_children; lia.
Qed.

(** What both loops that let a node sink do with the smaller child [c]. *)
Lemma sink_swap h o m lo n p c :
  shape h o m → n ≤ m → 0 ≤ lo ≤ p → sinking (key h) lo n p → min_child h n p c → key h c < key h p →
  ∃ h' o', swapHeapNode h p c = Ok h' ∧ shape h' o' m ∧ moved h o h' o' ∧
    sinking (key h') lo n c ∧ key h' c = key h p ∧ p < c < n ∧
    ∀ i, n ≤ i < m → content (nodes h') i = content (nodes h) i.
Proof.
  intros H Hnm Hlo Hs (Hc & Hcn & Hmin) Hlt. pose proof (par_bound c ltac:(lia)) as Hb.
  destruct (swap_shape h o m p c H) as (h' & R & H' & Hmv & HC); [lia..|].
  assert (∀ i, 0 ≤ i < m → key h' i = key h (tr p c i)) as HK by (intros; unfold key; by rewrite HC).
  exists h', (tr_node p c o). split_and!; try done; try lia.
  - apply (sinking_step (key h) (key h') lo n p c); try done; try lia. intros i Hi. apply HK. lia.
  - rewrite HK by lia. by rewrite tr_r.
  - intros i Hi. rewrite HC by lia. by rewrite tr_ne by lia.
Qed.

Lemma sift_spec h o m n i :
  shape h o m → n ≤ m → 0 ≤ i < n → ordered (key h) (i + 1) n →
  ∃ h' o', sift n i h = Ok h' ∧ shape h' o' m ∧ moved h o h' o' ∧ ordered (key h') i n.
Proof.
  intros H Hnm Hi Ho. destruct (shape_node h o m i H ltac:(lia)) as (temp & Ht & Hk). unfold sift. rewrite Ht.
  cbn [mbind outcome_bind].
  destruct (loop_spec
    (λ '(h1, p, child), ∃ o1, shape h1 o1 m ∧ moved h o h1 o1 ∧ i ≤ p < n ∧ child = 2 * p + 1 ∧
       key h1 p = sid temp ∧ sinking (key h1) i n p)
    (λ h', ∃ o', shape h' o' m ∧ moved h o h' o' ∧ ordered (key h') i n)
    (λ '(_, p, _), Z.to_nat (n - p)) (sift_step n temp)) with (fuel := S (Z.to_nat n)) (s := (h, i, Z.shiftl i 1 + 1))
    as (h' & R & o' & ? & ? & ?); [| |lia|by eauto 6].
  - intros [[h1 p] child] (o1 & H1 & Hmv & Hp & -> & Hkp & Hs). unfold sift_step.
    destruct (Z.ltb_spec (2 * p + 1) n) as [Hlt|Hge].
    2: { exists (inr h1). split; [done|]. exists o1. split_and!; [done..|]. apply (sinking_done _ _ _ p Hs).
         intros j Hj [->| ->]%par_children; lia. }
    destruct (shape_node h1 o1 m (2 * p + 1) H1 ltac:(lia)) as (s & E & Es). rewrite E. cbn [mbind outcome_bind].
    assert (∃ c sc, min_child h1 n p c ∧ node h1 c = Ok sc ∧ key h1 c = sid sc ∧
      (if 2 * p + 1 + 1 <? n then r ← node h1 (2 * p + 1 + 1); Ok (if sid s >? sid r then 2 * p + 1 + 1 else 2 * p + 1)
       else Ok (2 * p + 1)) = Ok c) as (c & sc & Hc & Ec & Esc & ->).
    { replace (2 * p + 1 + 1) with (2 * p + 2) by lia. destruct (Z.ltb_spec (2 * p + 2) n) as [Hlt2|Hge2].
      - destruct (shape_node h1 o1 m (2 * p + 2) H1 ltac:(lia)) as (r & E2 & Er). rewrite E2. cbn [mbind outcome_bind].
        destruct (Z.gtb_spec (sid s) (sid r)).
        + exists (2 * p + 2), r. split_and!; try done. apply min_child_right; lia.
        + exists (2 * p + 1), s. split_and!; try done. apply min_child_left; lia.
      - exists (2 * p + 1), s. split_and!; try done. apply min_child_left; lia. }
    cbn [mbind outcome_bind]. rewrite Ec. cbn [mbind outcome_bind]. destruct (Z.gtb_spec (sid temp) (sid sc)) as [Hgt|Hle].
    + destruct (sink_swap h1 o1 m i n p c) as (h2 & o2 & R & H2 & Hmv2 & Hs2 & Hk2 & Hc2 & _); try done; try lia.
      rewrite R. cbn [mbind outcome_bind]. eexists (inl _). split; [done|]. split; [|lia].
      exists o2. split_and!; [done|by eapply moved_trans|lia|lia| |congruence|done]. rewrite Z.shiftl_mul_pow2 by lia. lia.
    + exists (inr h1). split; [done|]. exists o1. split_and!; [done..|]. apply (sinking_done _ _ _ p Hs).
      intros j Hj Hpj. destruct Hc as (_ & _ & Hmin). specialize (Hmin j Hj Hpj). lia.
  - exists o. split_and!; [done|done|lia|lia| |done|by apply sinking_start; [lia|]].
    rewrite Z.shiftl_mul_pow2 by lia. lia.
Qed.

Lemma initialHeap_shape h o n :
  shape h o n → lsize h = n → 0 ≤ n →
  ∃ h' o', initialHeap h = Ok h' ∧ shape h' o' n ∧ moved h o h' o' ∧ ordered (key h') 0 n.
Proof.
  intros H <- Hn. unfold initialHeap. set (n := lsize h) in *.
  assert (0 ≤ Z.quot n 2 ∧ n ≤ 2 * Z.quot n 2 + 1 ∧ 2 * Z.quot n 2 ≤ n) as Hq.
  { rewrite Z.quot_div_nonneg by lia. pose proof (Z.div_mod n 2 ltac:(lia)). pose proof (Z.mod_pos_bound n 2 ltac:(lia)). lia. }
  destruct (for_range_spec
    (λ k h1, ∃ o1, shape h1 o1 n ∧ moved h o h1 o1 ∧ ordered (key h1) (Z.quot n 2 - k) n)
    (λ k h1, sift n (Z.quot n 2 - 1 - k) h1) 0 (Z.quot n 2) h) as (h' & R & o' & H' & Hmv & Ho); [lia| | |].
  - exists o. split_and!; try done. intros i Hi. rewrite Z.sub_0_r. intros Hp.
    assert (par i = par i) as E by done. apply par_children in E. lia.
  - intros k h1 Hk (o1 & H1 & Hmv & Ho).
    destruct (sift_spec h1 o1 n n (Z.quot n 2 - 1 - k)) as (h2 & o2 & R & H2 & Hmv2 & Ho2); [done|lia|lia| |].
    + by replace (Z.quot n 2 - 1 - k + 1) with (Z.quot n 2 - k) by lia.
    + exists h2. split; [done|]. exists o2. split_and!; [done|by eapply moved_trans|].
      by replace (Z.quot n 2 - (k + 1)) with (Z.quot n 2 - 1 - k) by lia.
  - exists h', o'. rewrite Z.sub_diag in Ho. done.
Qed.

(** ** Insertion *)

Lemma linked_cons a a' o i s :
  linked a o → i ∉ o → 0 ≤ i → a'.[i] = Ok s → preNode s = -1 → nextNode s = hd_index o →
  (∀ j t, j ∈ o → a.[j] = Ok t → a'.[j] = Ok (if decide (head o = Some j) then set_pre i t else t)) →
  linked a' (i :: o) ∧ contents a' (i :: o) = (sid s, name s) :: contents a o.
Proof.
  intros H Hi Hi0 Hs Hp Hn Ho. split.
  - split.
    + constructor; [done|apply H].
    + intros j [->|Hj]%elem_of_cons; [done|by apply H].
    + intros [|k] j Hk; [injection Hk as <-; exists s|cbn in Hk].
      * split_and!; [done..|]. rewrite Hn. unfold after, hd_index. by destruct o.
      * destruct (lk_node _ _ H k j Hk) as (t & Ht & Hpt & Hnt).
        eexists. split; [by apply Ho; [eapply list_elem_of_lookup_2|]|].
        assert (head o = Some j ↔ k = O) as Hh.
        { rewrite head_lookup. split; [|by intros ->]. intros E. exact (NoDup_lookup _ _ _ _ (lk_nodup _ _ H) Hk E). }
        unfold after in *. case_decide as Hd; cbn [preNode nextNode set_pre].
        -- by rewrite (proj1 Hh Hd) in *.
        -- split; [|done]. rewrite Hpt. destruct k as [|k]; [by destruct Hd; apply Hh|done].
  - unfold contents. cbn. f_equal; [unfold content; by rewrite Hs|]. apply list_fmap_ext. intros k j Hk.
    apply list_elem_of_lookup_2 in Hk. destruct (linked_node _ _ j H Hk) as [t Ht]. unfold content.
    rewrite (Ho j t Hk Ht), Ht. by case_decide.
Qed.

Definition stack_ok (stk : Stack) (n : Z) : Prop :=
  zlen (index stk) = MAXSIZE ∧ top stk = MAXSIZE - 1 - n ∧
  ∀ i, 0 ≤ i ≤ top stk → (index stk).[i] = Ok (MAXSIZE - 1 - i).

(** The list of [h] holds the students [l]. *)
Record heap_list (h : StaticLinkList) (l : list (Z * string)) (o : list Z) : Prop := {
  hl_shape : shape h o (lsize h);
  hl_head : headIndex h = hd_index o;
  hl_contents : contents (nodes h) o = l;
  hl_len : zlen (nodes h) = MAXSIZE;
  hl_size : 0 ≤ lsize h ≤ MAXSIZE;
  hl_stack : stack_ok (unusedIndexs h) (lsize h)
}.

Definition list_rep (h : StaticLinkList) (l : list (Z * string)) : Prop := ∃ o, heap_list h l o.

Definition heap_rep (h : StaticLinkList) (l : list (Z * string)) : Prop :=
  list_rep h l ∧ ordered (key h) 0 (lsize h).

Lemma heap_list_length h l o : heap_list h l o → zlen l = lsize h.
Proof.
  intros [[_ Hp] _ <- _ Hs _]. unfold contents. rewrite zlen_fmap, Hp. unfold zlen. rewrite length_seqZ. lia.
Qed.

(** The free index is the first one behind the nodes. *)
Lemma topStack_free stk n :
  stack_ok stk n → 0 ≤ n < MAXSIZE → topStack stk = Ok n ∧ stack_ok (popStack stk) (n + 1).
Proof.
  intros (Hl & Ht & Hi) Hn. unfold topStack, popStack. destruct (Z.eqb_spec (top stk) (-1)); [lia|]. split.
  - rewrite Hi by lia. f_equal. lia.
  - split; [done|]. cbn. split; [lia|]. intros i Hir. apply Hi. lia.
Qed.

Lemma topStack_empty stk : stack_ok stk MAXSIZE → topStack stk = Ok (-1) ∧ popStack stk = stk.
Proof. intros (Hl & Ht & Hi). unfold topStack, popStack. by replace (top stk) with (-1) by lia. Qed.

Lemma pushStack_free stk n :
  stack_ok stk (n + 1) → 0 ≤ n < MAXSIZE → ∃ stk', pushStack stk n = Ok stk' ∧ stack_ok stk' n.
Proof.
  intros (Hl & Ht & Hi) Hn. unfold pushStack. rewrite aset_Ok by lia. eexists. split; [done|].
  split; [cbn; by rewrite zlen_insert|]. split; [cbn; lia|]. cbn. intros i Hir. rewrite aget_insert by lia.
  case_decide; [f_equal; lia|]. apply Hi. lia.
Qed.

(** The assignment to the old head of the list. *)
Lemma set_head_pre h o i :
  headIndex h = hd_index o → (∀ x, x ∈ o → 0 ≤ x ∧ ∃ s, node h x = Ok s) →
  ∃ h', (if negb (headIndex h =? -1) then upd_node h (headIndex h) (set_pre i) else Ok h) = Ok h' ∧
    h' = set_nodes (nodes h') h ∧ zlen (nodes h') = zlen (nodes h) ∧
    ∀ j, (nodes h').[j] = if decide (head o = Some j) then set_pre i <$> (nodes h).[j] else (nodes h).[j].
Proof.
  intros E H. unfold hd_index in E. destruct o as [|x o]; cbn in E; rewrite E.
  - exists h. by destruct h.
  - destruct (H x ltac:(by left)) as (H0 & s & Hs). destruct (Z.eqb_spec x (-1)); [lia|].
    destruct (upd_node_aget h x (set_pre i) s Hs) as (h' & R & Hh & Hz & Hj). exists h'. split_and!; [done..|].
    intros j. rewrite Hj. cbn. destruct (decide (j = x)) as [->|]; [rewrite decide_True by done; unfold node in Hs; by rewrite Hs|].
    rewrite decide_False by congruence. done.
Qed.

(** A new node at the head of the list. *)
Lemma heap_list_cons h l o h' s :
  heap_list h l o → lsize h < MAXSIZE → let i := lsize h in
  zlen (nodes h') = MAXSIZE → (nodes h').[i] = Ok s → preNode s = -1 → nextNode s = hd_index o →
  (∀ j t, j ∈ o → (nodes h).[j] = Ok t →
     (nodes h').[j] = Ok (if decide (head o = Some j) then set_pre i t else t)) →
  shape h' (i :: o) (i + 1) ∧ contents (nodes h') (i :: o) = (sid s, name s) :: l ∧
  (∀ j, 0 ≤ j < i → key h' j = key h j) ∧ key h' i = sid s.
Proof.
  intros [Hsh Hhd Hc Hlen Hsz _] Hlt i Hz Hs Hp Hn Ho.
  assert (i ∉ o) as Hio by (rewrite (shape_elem h o (lsize h)) by done; lia).
  destruct (linked_cons (nodes h) (nodes h') o i s) as [Hl' Hc']; try done; [apply Hsh|lia|].
  split_and!.
  - split; [done|]. rewrite seqZ_app by lia. rewrite (sh_perm _ _ _ Hsh), Permutation_app_comm. cbn. by rewrite Z.add_0_l.
  - by rewrite Hc', Hc.
  - intros j Hj. destruct (shape_node h o _ j Hsh Hj) as (t & Ht & ->). unfold key, content.
    rewrite (Ho j t) by (done || by apply (shape_elem h o (lsize h))). by case_decide.
  - unfold key, content. by rewrite Hs.
Qed.

(** The assignments of [pushHeapByIdAndName] before its loop. *)
Lemma push_prefix h l o id nm :
  heap_list h l o → lsize h < MAXSIZE → copy_name nm = Ok nm → let n := lsize h in
  ∃ h1, pushHeapByIdAndName h id nm =
      (r ← loop (S (Z.to_nat (lsize h1))) (rise_step id) (h1, n, Z.quot (n - 1) 2); Ok (set_head r.2 r.1)) ∧
    shape h1 (n :: o) (n + 1) ∧ contents (nodes h1) (n :: o) = (id, nm) :: l ∧
    (∀ j, 0 ≤ j < n → key h1 j = key h j) ∧ key h1 n = id ∧
    lsize h1 = n + 1 ∧ zlen (nodes h1) = MAXSIZE ∧ stack_ok (unusedIndexs h1) (n + 1).
Proof.
  intros Hh Hlt Hnm n. pose proof Hh as [Hsh Hhd Hc Hlen Hsz Hst].
  destruct (topStack_free _ _ Hst ltac:(lia)) as [Htop Hpop]. fold n in Htop.
  destruct (aget_in_range (nodes h) n ltac:(lia)) as (s0 & Hs0 & _).
  set (h0 := set_stack (popStack (unusedIndexs h)) h).
  destruct (upd_node_aget h0 n (set_id id) s0 Hs0) as (h1 & R1 & E1 & Z1 & J1).
  assert (node h1 n = Ok (set_id id s0)) as S1 by (unfold node; rewrite J1, decide_True; done).
  destruct (upd_node_aget h1 n (set_name nm) _ S1) as (h2 & R2 & E2 & Z2 & J2).
  assert (headIndex h2 = hd_index o) as H2 by (rewrite E2, E1; done).
  assert (∀ j, j ∈ o → j ≠ n) as Hne by (intros j Hj%(shape_elem h o n); [lia|done]).
  assert (∀ j, j ∈ o → (nodes h2).[j] = (nodes h).[j]) as G2.
  { intros j Hj. by rewrite J2, J1, !decide_False by (by apply Hne). }
  destruct (set_head_pre h2 o n H2) as (h3 & R3 & E3 & Z3 & J3).
  { intros x Hx. split; [by eapply lk_pos; [apply Hsh|]|]. unfold node. rewrite G2 by done.
    by eapply linked_node; [apply Hsh|]. }
  assert (node h3 n = Ok (set_name nm (set_id id s0))) as S3.
  { unfold node. rewrite J3, decide_False, J2, decide_True; [done..|]. intros Hx. destruct o; [done|].
    injection Hx as ->. by apply (Hne n ltac:(by left)). }
  destruct (upd_node_aget h3 n (set_flag 1) _ S3) as (h4 & R4 & E4 & Z4 & J4).
  assert (node h4 n = Ok (set_flag 1 (set_name nm (set_id id s0)))) as S4 by (unfold node; rewrite J4, decide_True; done).
  destruct (upd_node_aget h4 n (set_pre (-1)) _ S4) as (h5 & R5 & E5 & Z5 & J5).
  assert (node h5 n = Ok (set_pre (-1) (set_flag 1 (set_name nm (set_id id s0))))) as S5 by (unfold node; rewrite J5, decide_True; done).
  assert (headIndex h5 = hd_index o) as H5 by (rewrite E5, E4, E3; done).
  destruct (upd_node_aget h5 n (set_next (headIndex h5)) _ S5) as (h6 & R6 & E6 & Z6 & J6).
  exists (set_size (lsize h6 + 1) h6). split.
  { unfold pushHeapByIdAndName. rewrite Htop. cbn [mbind outcome_bind]. fold h0. rewrite R1. cbn [mbind outcome_bind].
    rewrite Hnm. cbn [mbind outcome_bind]. rewrite R2. cbn [mbind outcome_bind]. rewrite R3. cbn [mbind outcome_bind].
    rewrite R4. cbn [mbind outcome_bind]. rewrite R5. cbn [mbind outcome_bind]. by rewrite R6. }
  assert (lsize h6 = n) as L6 by (rewrite E6, E5, E4, E3, E2, E1; done).
  assert (zlen (nodes h6) = MAXSIZE) as Z by (rewrite Z6, Z5, Z4, Z3, Z2, Z1; done).
  destruct (heap_list_cons h l o (set_size (lsize h6 + 1) h6) (set_next (headIndex h5) (set_pre (-1) (set_flag 1 (set_name nm (set_id id s0))))))
    as (? & ? & ? & ?); try done.
  - cbn [nodes set_size]. by rewrite J6, decide_True.
  - intros j t Hj Ht. cbn [nodes set_size]. rewrite J6, J5, J4, !decide_False by (by apply Hne).
    rewrite J3, G2, Ht by done. by case_decide.
  - split_and!; try done; cbn [lsize set_size unusedIndexs]; [by rewrite L6|].
    rewrite E6, E5, E4, E3, E2, E1. done.
Qed.

Lemma rise_spec h o n id :
  shape h o (n + 1) → 0 ≤ n → hd_index o = n → key h n = id → ordered (key h) 0 n →
  ∃ h' c o', loop (S (Z.to_nat (n + 1))) (rise_step id) (h, n, Z.quot (n - 1) 2) = Ok (h', c) ∧
    shape h' o' (n + 1) ∧ moved h o h' o' ∧ hd_index o' = c ∧ ordered (key h') 0 (n + 1).
Proof.
  intros H Hn Hhd Hk Ho. destruct (loop_spec
    (λ '(g, c, q), ∃ o1, shape g o1 (n + 1) ∧ moved h o g o1 ∧ hd_index o1 = c ∧ 0 ≤ c ≤ n ∧
       q = Z.quot (c - 1) 2 ∧ key g c = id ∧ rising (key g) (n + 1) c)
    (λ '(g, c), ∃ o1, shape g o1 (n + 1) ∧ moved h o g o1 ∧ hd_index o1 = c ∧ ordered (key g) 0 (n + 1))
    (λ '(_, c, _), Z.to_nat c) (rise_step id)) with (fuel := S (Z.to_nat (n + 1))) (s := (h, n, Z.quot (n - 1) 2))
    as ([h' c] & R & o' & ? & ? & ? & ?); [| |lia|by eauto 8].
  - intros [[g c] q] (o1 & H1 & Hmv & Hhd1 & Hc & -> & Hkc & Hr). unfold rise_step.
    assert (0 < c → Z.quot (c - 1) 2 = par c) as Hq by (intros; unfold par; by rewrite Z.quot_div_nonneg by lia).
    assert (0 ≤ Z.quot (c - 1) 2 ≤ n) as Hqr.
    { destruct (decide (0 < c)); [rewrite Hq by done; pose proof (par_bound c); lia|]. by replace c with 0 by lia. }
    destruct (shape_node g o1 (n + 1) (Z.quot (c - 1) 2) H1 ltac:(lia)) as (s & Hs & Hks). rewrite Hs.
    cbn [mbind outcome_bind]. destruct (Z.ltb_spec id (sid s)) as [Hlt|Hge], (Z.ltb_spec 0 c) as [Hc0|Hc0]; cbn [andb].
    2-4: exists (inr (g, c)); (split; [done|]); exists o1; (split_and!; [done..|]); apply (rising_done _ _ c Hr);
      intros Hc1; rewrite <-Hq by done; lia.
    rewrite Hq in * by done. pose proof (par_bound c ltac:(lia)).
    destruct (swap_shape g o1 (n + 1) (par c) c H1) as (g2 & R & H2 & Hmv2 & HC); [lia..|].
    assert (∀ i, 0 ≤ i < n + 1 → key g2 i = key g (tr (par c) c i)) as HK by (intros; unfold key; by rewrite HC).
    rewrite R. cbn [mbind outcome_bind]. eexists (inl _). split; [done|]. split; [|lia].
    eexists. split_and!; [done|by eapply moved_trans| |lia|lia|done| |].
    + unfold hd_index, tr_node in *. destruct o1 as [|x o1]; cbn in *; [lia|]. subst x. apply tr_r.
    + rewrite HK by lia. by rewrite tr_l.
    + apply (rising_step (key g)); [done|lia|lia|done].
  - exists o. split_and!; try done; try lia. split.
    + intros i Hi Hne. apply Ho; [lia|]. pose proof (par_bound i ltac:(lia)). lia.
    + intros _ i Hi Hpi. pose proof (par_bound i ltac:(lia)). lia.
Qed.

Lemma push_rep h l id nm :
  heap_rep h l → lsize h < MAXSIZE → copy_name nm = Ok nm →
  ∃ h', pushHeapByIdAndName h id nm = Ok h' ∧ heap_rep h' ((id, nm) :: l).
Proof.
  intros [[o Hh] Ho] Hlt Hnm. pose proof (hl_size _ _ _ Hh) as Hsz.
  destruct (push_prefix h l o id nm Hh Hlt Hnm) as (h1 & -> & H1 & Hc1 & Hk & Hkn & L1 & Z1 & S1). rewrite L1.
  destruct (rise_spec h1 (lsize h :: o) (lsize h) id) as (h2 & c & o2 & -> & H2 & Hmv & Hhd & Ho2); try done; try lia.
  { intros i Hi Hp. pose proof (par_bound i ltac:(lia)). rewrite !Hk by lia. by apply Ho. }
  cbn [mbind outcome_bind fst snd]. eexists. split; [done|]. destruct Hmv as [Mc _ Ms Mst Mz]. split.
  - exists o2. split; cbn; rewrite ?Ms, ?Mst, ?Mz, ?L1; try done; [by destruct H2| |lia].
    by rewrite Mc, Hc1.
  - cbn. rewrite Ms, L1. done.
Qed.

Lemma insertListAtHead_rep h l stu :
  list_rep h l → lsize h < MAXSIZE →
  ∃ h', insertListAtHead h stu = Ok h' ∧ list_rep h' ((sid stu, name stu) :: l).
Proof.
  intros [o Hh] Hlt. pose proof Hh as [Hsh Hhd Hc Hlen Hsz Hst].
  destruct (topStack_free _ _ Hst ltac:(lia)) as [Htop Hpop]. set (n := lsize h) in *.
  unfold insertListAtHead. rewrite Htop. cbn [mbind outcome_bind]. set (h0 := set_stack (popStack (unusedIndexs h)) h).
  set (s := set_next (headIndex h0) (set_pre (-1) (set_flag 1 stu))).
  destruct (set_node_aget h0 n s ltac:(cbn; lia)) as (h1 & -> & E1 & Z1 & J1). cbn [mbind outcome_bind].
  assert (∀ j, j ∈ o → j ≠ n) as Hne by (intros j Hj%(shape_elem h o n); [lia|done]).
  destruct (set_head_pre h1 o n) as (h2 & -> & E2 & Z2 & J2); [by rewrite E1| |].
  { intros x Hx. split; [by eapply lk_pos; [apply Hsh|]|]. unfold node. rewrite J1, decide_False by (by apply Hne).
    by eapply linked_node; [apply Hsh|]. }
  assert (head o ≠ Some n) as Hhn.
  { intros Hx. destruct o; [done|]. injection Hx as ->. by apply (Hne n ltac:(by left)). }
  assert (lsize h2 = n) as L2 by (rewrite E2, E1; done).
  cbn [mbind outcome_bind]. eexists. split; [done|]. exists (n :: o).
  destruct (heap_list_cons h l o (set_size (lsize h2 + 1) (set_head n h2)) s) as (H3 & C3 & _); try done.
  - cbn. by rewrite Z2, Z1.
  - cbn. by rewrite J2, decide_False, J1, decide_True.
  - intros j t Hj Ht. cbn. rewrite J2, J1, (decide_False (P := j = n)) by (by apply Hne). unfold h0; cbn [nodes set_stack]; rewrite Ht. by case_decide.
  - split; cbn; rewrite ?L2; try done; [by rewrite L2 in H3|by rewrite Z2, Z1|lia|]. rewrite E2, E1. done.
Qed.

(** ** Removal of the smallest *)

Lemma ordered_min K n i : ordered K 0 n → 0 ≤ i < n → K 0 ≤ K i.
Proof.
  intros Ho [Hi Hn]. revert i Hi Hn. apply (Zlt_0_ind (λ i, i < n → K 0 ≤ K i)). intros j IH Hj Hn.
  destruct (decide (j = 0)) as [->|]; [done|]. pose proof (par_bound j ltac:(lia)).
  specialize (IH (par j) ltac:(lia) ltac:(lia)). specialize (Ho j ltac:(lia) ltac:(lia)). lia.
Qed.

Lemma linked_ext a a' o :
  linked a o → (∀ i s, i ∈ o → a.[i] = Ok s → ∃ s', a'.[i] = Ok s' ∧ preNode s' = preNode s ∧ nextNode s' = nextNode s) →
  linked a' o.
Proof.
  intros H He. split; [apply H|apply H|]. intros k i Hk. destruct (lk_node _ _ H k i Hk) as (s & Hs & Hp & Hn).
  destruct (He i s) as (s' & ? & ? & ?); [by eapply list_elem_of_lookup_2|done|]. exists s'. split_and!; congruence.
Qed.

Lemma before_app o1 o2 o2' k : (k ≤ length o1)%nat → before (o1 ++ o2) k = before (o1 ++ o2') k.
Proof. intros H. destruct k as [|k]; [done|]. cbn. by rewrite !lookup_app_l by lia. Qed.

Lemma after_app o1 o2 o2' k : (S k < length o1)%nat → after (o1 ++ o2) k = after (o1 ++ o2') k.
Proof. intros H. unfold after. by rewrite !lookup_app_l by lia. Qed.

Lemma lookup_behind {A} (o1 o2 : list A) i k :
  (length o1 ≤ k)%nat → (o1 ++ i :: o2) !! S k = (o1 ++ o2) !! k.
Proof.
  intros H. rewrite !lookup_app_r by lia. by replace (S k - length o1)%nat with (S (k - length o1)) by lia.
Qed.

(** A node taken out of the list. *)
Lemma linked_remove a a' o1 o2 i s :
  linked a (o1 ++ i :: o2) → a.[i] = Ok s →
  (∀ j t, j ∈ o1 ++ o2 → a.[j] = Ok t → ∃ t', a'.[j] = Ok t' ∧
     preNode t' = (if decide (nextNode s = j) then preNode s else preNode t) ∧
     nextNode t' = (if decide (preNode s = j) then nextNode s else nextNode t)) →
  linked a' (o1 ++ o2).
Proof.
  intros H Hs Ha. pose proof (lk_nodup _ _ H) as Hnd. pose proof (lk_pos _ _ H) as Hpos.
  assert (o1 ++ i :: o2 ≡ₚ i :: o1 ++ o2) as Hperm by (by rewrite Permutation_middle).
  assert (NoDup (i :: o1 ++ o2)) as [Hii Hnd']%NoDup_cons by (by rewrite <-Hperm).
  assert (∀ j, j ∈ o1 ++ o2 → j ∈ o1 ++ i :: o2) as Hin by (intros j Hj; rewrite Hperm; by right).
  assert ((o1 ++ i :: o2) !! length o1 = Some i) as Hi by (by apply list_lookup_middle).
  destruct (lk_node _ _ H _ i Hi) as (s' & Hs' & Hp & Hn). assert (s' = s) as -> by congruence. clear Hs'.
  assert (nextNode s = default (-1) ((o1 ++ o2) !! length o1)) as Hn' by (rewrite Hn; unfold after; by rewrite lookup_behind).
  split; [done|auto|]. intros k j Hk. pose proof (list_elem_of_lookup_2 _ _ _ Hk) as Hj.
  pose proof (Hpos j (Hin j Hj)) as Hj0.
  assert (nextNode s = j ↔ k = length o1) as Enext.
  { rewrite Hn', (default_lookup (o1 ++ o2) (length o1) j) by auto. split; [|by intros <-].
    intros E. by rewrite (NoDup_lookup _ _ _ _ Hnd' E Hk). }
  assert (preNode s = j ↔ S k = length o1) as Epre.
  { rewrite Hp, (before_app o1 (i :: o2) o2) by lia. destruct (length o1) as [|m] eqn:El; cbn [before]; [lia|].
    rewrite (default_lookup (o1 ++ o2) m j) by auto. split.
    - intros E. by rewrite (NoDup_lookup _ _ _ _ Hnd' E Hk).
    - by intros [= <-]. }
  assert (∃ t, a.[j] = Ok t ∧
    preNode t = (if decide (k = length o1) then i else before (o1 ++ o2) k) ∧
    nextNode t = (if decide (S k = length o1) then i else after (o1 ++ o2) k)) as (t & Ht & Tp & Tn).
  { destruct (decide (k < length o1)%nat) as [Hlt|Hge].
    - assert ((o1 ++ i :: o2) !! k = Some j) as Hk' by (rewrite lookup_app_l in Hk |- * by done; done).
      destruct (lk_node _ _ H k j Hk') as (t & Ht & Tp & Tn). exists t. split; [done|].
      rewrite decide_False by lia. split; [by rewrite Tp, (before_app o1 _ o2) by lia|].
      rewrite Tn. case_decide as Hd; [unfold after; by rewrite Hd, Hi|]. by rewrite (after_app o1 _ o2) by lia.
    - assert ((o1 ++ i :: o2) !! S k = Some j) as Hk' by (rewrite lookup_behind by lia; done).
      destruct (lk_node _ _ H (S k) j Hk') as (t & Ht & Tp & Tn). exists t. split; [done|].
      rewrite (decide_False (P := S k = length o1)) by lia. split.
      + rewrite Tp. cbn [before]. case_decide as Hd; [by rewrite Hd, Hi|].
        destruct k as [|k]; [lia|]. by rewrite lookup_behind by lia.
      + rewrite Tn. unfold after. by rewrite lookup_behind by lia. }
  destruct (Ha j t Hj Ht) as (t' & Ht' & Ep & En). exists t'. split; [done|]. rewrite Ep, En.
  rewrite (decide_ext _ _ _ _ Enext), (decide_ext _ _ _ _ Epre), Tp, Tn, Hp, Hn'. split.
  - destruct (decide (k = length o1)) as [->|]; [by apply before_app|done].
  - destruct (decide (S k = length o1)) as [Hd|]; [unfold after; by rewrite Hd|done].
Qed.

Lemma pop_loop h o n temp :
  shape h o (n + 1) → lsize h = n → 0 < n → sinking (key h) 0 n 0 → key h 0 = sid temp →
  ∃ h' o', loop (S (Z.to_nat n)) (pop_step temp) (h, 0) = Ok h' ∧ shape h' o' (n + 1) ∧ moved h o h' o' ∧
    ordered (key h') 0 n ∧ content (nodes h') n = content (nodes h) n.
Proof.
  intros H Hsz Hn Hs Hk. destruct (loop_spec
    (λ '(g, p), ∃ o1, shape g o1 (n + 1) ∧ moved h o g o1 ∧ 0 ≤ p < n ∧ key g p = sid temp ∧
       sinking (key g) 0 n p ∧ content (nodes g) n = content (nodes h) n)
    (λ h', ∃ o', shape h' o' (n + 1) ∧ moved h o h' o' ∧ ordered (key h') 0 n ∧
       content (nodes h') n = content (nodes h) n)
    (λ '(_, p), Z.to_nat (n - p)) (pop_step temp)) with (fuel := S (Z.to_nat n)) (s := (h, 0))
    as (h' & R & o' & ? & ? & ? & ?); [| |lia|by eauto 8].
  - intros [g p] (o1 & H1 & Hmv & Hp & Hkp & Hsk & Hcn). unfold pop_step.
    assert (lsize g = n) as Hg by (rewrite (mv_size _ _ _ _ Hmv); done). rewrite Hg, Z.mul_comm.
    destruct (Z.ltb_spec (2 * p + 1) n) as [Hlt|Hge].
    2: { exists (inr g). split; [done|]. exists o1. split_and!; [done..| |done]. apply (sinking_done _ _ _ p Hsk).
         intros j Hj [->| ->]%par_children; lia. }
    destruct (shape_node g o1 (n + 1) (2 * p + 1) H1 ltac:(lia)) as (s & E & Es).
    assert (∃ c sc, min_child g n p c ∧ node g c = Ok sc ∧ key g c = sid sc ∧
      (if negb (2 * p + 1 =? n - 1) then s ← node g (2 * p + 1); r ← node g (2 * p + 1 + 1);
         Ok (if sid s >? sid r then 2 * p + 1 + 1 else 2 * p + 1)
       else Ok (2 * p + 1)) = Ok c) as (c & sc & Hc & Ec & Esc & ->).
    { replace (2 * p + 1 + 1) with (2 * p + 2) by lia. rewrite E. cbn [mbind outcome_bind].
      destruct (Z.eqb_spec (2 * p + 1) (n - 1)) as [He|He]; cbn [negb].
      - exists (2 * p + 1), s. split_and!; try done. apply min_child_left; lia.
      - destruct (shape_node g o1 (n + 1) (2 * p + 2) H1 ltac:(lia)) as (r & E2 & Er). rewrite E2. cbn [mbind outcome_bind].
        destruct (Z.gtb_spec (sid s) (sid r)).
        + exists (2 * p + 2), r. split_and!; try done. apply min_child_right; lia.
        + exists (2 * p + 1), s. split_and!; try done. apply min_child_left; lia. }
    cbn [mbind outcome_bind]. rewrite Ec. cbn [mbind outcome_bind]. destruct (Z.ltb_spec (sid sc) (sid temp)) as [Hgt|Hle].
    + destruct (sink_swap g o1 (n + 1) 0 n p c) as (h2 & o2 & R & H2 & Hmv2 & Hs2 & Hk2 & Hc2 & HC2); try done; try lia.
      rewrite R. cbn [mbind outcome_bind]. eexists (inl _). split; [done|]. split; [|lia].
      exists o2. split_and!; [done|by eapply moved_trans|lia|lia|congruence|done|]. rewrite HC2 by lia. done.
    + exists (inr g). split; [done|]. exists o1. split_and!; [done..| |done]. apply (sinking_done _ _ _ p Hsk).
      intros j Hj Hpj. destruct Hc as (_ & _ & Hmin). specialize (Hmin j Hj Hpj). lia.
  - exists o. split_and!; (done || lia).
Qed.

Lemma unlink_spec h o n :
  shape h o (n + 1) → lsize h = n → 0 ≤ n → headIndex h = hd_index o →
  ∃ h' o1 o2, o = o1 ++ n :: o2 ∧ unlink_last h = Ok h' ∧ shape h' (o1 ++ o2) n ∧
    headIndex h' = hd_index (o1 ++ o2) ∧ (∀ i, 0 ≤ i < n → content (nodes h') i = content (nodes h) i) ∧
    lsize h' = n ∧ unusedIndexs h' = unusedIndexs h ∧ zlen (nodes h') = zlen (nodes h).
Proof.
  intros H Hsz Hn Hhd. pose proof (sh_linked _ _ _ H) as Hl.
  assert (n ∈ o) as Hno by (apply (shape_elem h o (n + 1)); [done|lia]).
  destruct (linked_node _ _ n Hl Hno) as [s Hs].
  pose proof (linked_pre _ _ n s Hl Hno Hs) as Hp. pose proof (linked_next _ _ n s Hl Hno Hs) as Hx.
  destruct (linked_self _ _ n s Hl Hno Hs) as [Hpn Hxn].
  destruct (linked_head _ _ n s Hl Hno Hs) as [Hh1 Hh2].
  apply list_elem_of_split in Hno as (o1 & o2 & ->).
  assert (∀ i, i ∈ o1 ++ o2 ↔ 0 ≤ i < n) as Hin.
  { intros i. pose proof (shape_elem h _ (n + 1) i H) as Hi. pose proof (lk_nodup _ _ Hl) as Hnd.
    rewrite <-Permutation_middle in Hi, Hnd. apply NoDup_cons in Hnd as [Hnn _]. rewrite elem_of_cons in Hi.
    split.
    - intros Hi1. assert (i ≠ n) by (by intros ->). assert (0 ≤ i < n + 1) by tauto. lia.
    - intros Hi1. destruct (proj2 Hi ltac:(lia)); [lia|done]. }
  assert (o1 ++ o2 ≡ₚ seqZ 0 n) as Hperm.
  { apply NoDup_Permutation.
    - pose proof (lk_nodup _ _ Hl) as Hnd. rewrite <-Permutation_middle in Hnd. by apply NoDup_cons in Hnd as [_ ?].
    - apply NoDup_seqZ.
    - intros i. rewrite Hin, elem_of_seqZ. lia. }
  assert (∀ x, x = -1 ∨ x ∈ o1 ++ n :: o2 → negb (x =? -1) = true → 0 ≤ x < zlen (nodes h)) as Hr.
  { intros x [->|E] Hb; [done|]. by apply (linked_range _ (o1 ++ n :: o2)). }
  destruct (set_if_aget h (negb (preNode s =? -1)) (preNode s) (set_next (nextNode s))) as (h1 & R1 & E1 & Z1 & J1); [by apply Hr|].
  destruct (set_if_aget h1 (negb (nextNode s =? -1)) (nextNode s) (set_pre (preNode s))) as (h2 & R2 & E2 & Z2 & J2);
    [rewrite Z1; by apply Hr|].
  set (h3 := if preNode s =? -1 then set_head (nextNode s) h2 else h2).
  assert (nodes h3 = nodes h2) as N3 by (unfold h3; by destruct (_ =? _)).
  assert (∀ j t, j ∈ o1 ++ o2 → (nodes h).[j] = Ok t → (nodes h3).[j] =
    Ok (mk_Student (flag t) (sid t) (name t) (if decide (nextNode s = j) then preNode s else preNode t)
          (if decide (preNode s = j) then nextNode s else nextNode t))) as J.
  { intros j t Hj Ht. apply Hin in Hj as Hj0. rewrite N3, J2, J1, Ht.
    assert (∀ x, (negb (x =? -1) = true ∧ j = x) ↔ x = j) as Hg by (intros x; rewrite negb_true_iff, Z.eqb_neq; lia).
    rewrite (decide_ext _ _ _ _ (Hg (nextNode s))), (decide_ext _ _ _ _ (Hg (preNode s))).
    destruct (decide (nextNode s = j)), (decide (preNode s = j)); by destruct t. }
  exists h3, o1, o2. split; [done|]. split.
  { unfold unlink_last. rewrite Hsz. unfold node. rewrite Hs. cbn [mbind outcome_bind]. rewrite R1. cbn [mbind outcome_bind].
    rewrite R2. done. }
  split; [split; [|done]|].
  { eapply (linked_remove (nodes h)); [done|exact Hs|]. intros j t Hj Ht. by eexists; split; [by apply J|]. }
  split_and!.
  - unfold h3. destruct (Z.eqb_spec (preNode s) (-1)) as [Ep|Ep].
    + cbn [headIndex set_head]. destruct o1 as [|x o1].
      * destruct (lk_node _ _ Hl O n eq_refl) as (s' & Hs' & _ & Hnx). assert (s' = s) as -> by congruence.
        rewrite Hnx. unfold after, hd_index. by destruct o2.
      * injection (Hh1 Ep) as ->. pose proof (proj1 (Hin n) ltac:(by left)). lia.
    + rewrite E2, E1. cbn [headIndex set_nodes]. rewrite Hhd. destruct o1; [|done].
      exfalso. apply Ep, Hh2. done.
  - intros i Hi. destruct (shape_node h _ (n + 1) i H ltac:(lia)) as (t & Ht & _). unfold content.
    rewrite (J i t) by (done || by apply Hin). unfold node in Ht. by rewrite Ht.
  - unfold h3. destruct (_ =? _); cbn; by rewrite E2, E1.
  - unfold h3. destruct (_ =? _); cbn; by rewrite E2, E1.
  - by rewrite N3, Z2.
Qed.

(** The fields other than the links may change. *)
Lemma upd_node_shape h o n i f s :
  shape h o n → node h i = Ok s → preNode (f s) = preNode s → nextNode (f s) = nextNode s →
  ∃ h', upd_node h i f = Ok h' ∧ h' = set_nodes (nodes h') h ∧ shape h' o n ∧ zlen (nodes h') = zlen (nodes h) ∧
    ∀ j, content (nodes h') j = if decide (j = i) then (sid (f s), name (f s)) else content (nodes h) j.
Proof.
  intros H Hs Hp Hn. destruct (upd_node_aget h i f s Hs) as (h' & R & E & Z & J). exists h'. split_and!; try done.
  - split; [|apply H]. apply (linked_ext (nodes h)); [apply H|]. intros j t Hj Ht. rewrite J.
    case_decide as Hd; [|by eauto]. subst j. exists (f s). unfold node in Hs. split; [done|]. assert (t = s) as -> by congruence. done.
  - intros j. unfold content. rewrite J. by case_decide.
Qed.

Lemma heap_root_min h l o :
  heap_list h l o → ordered (key h) 0 (lsize h) → Forall (λ x, key h 0 ≤ x.1) l.
Proof.
  intros Hh Ho. rewrite <-(hl_contents _ _ _ Hh). apply Forall_fmap, Forall_forall. intros i Hi. cbn.
  apply (ordered_min (key h) (lsize h) i Ho). by apply (shape_elem h o _ i (hl_shape _ _ _ Hh)).
Qed.

Lemma pop_rep h l :
  heap_rep h l → l ≠ [] →
  ∃ s l1 l2 h', topHeap h = Ok s ∧ l = l1 ++ (sid s, name s) :: l2 ∧ Forall (λ x, sid s ≤ x.1) l ∧
    popHeap h = Ok h' ∧ heap_rep h' (l1 ++ l2).
Proof.
  intros [[o Hh] Ho] Hne. pose proof (heap_list_length _ _ _ Hh) as Hlen. pose proof (heap_root_min h l o Hh Ho) as Hmin.
  pose proof Hh as [Hsh Hhd Hc Hz Hsz Hst].
  assert (∃ n, lsize h = n + 1 ∧ 0 ≤ n) as (n & Hn & Hn0).
  { exists (lsize h - 1). destruct l; [done|]. unfold zlen in Hlen. cbn in Hlen. lia. }
  rewrite Hn in *. destruct (shape_node h o _ 0 Hsh ltac:(lia)) as (s & Hs & Hks). rewrite Hks in Hmin.
  destruct (shape_node h o _ n Hsh ltac:(lia)) as (temp & Ht & Hkt).
  destruct (pushStack_free _ n Hst ltac:(lia)) as (stk & Hpush & Hstk).
  set (h1 := set_stack stk (set_size n h)).
  assert (shape h1 o (n + 1)) as Hsh1 by (by destruct Hsh).
  assert (headIndex h ∈ o) as Hho.
  { rewrite Hhd. unfold hd_index. pose proof (sh_perm _ _ _ Hsh) as Hp. destruct o; [|by left].
    apply Permutation_nil_l in Hp. by rewrite seqZ_cons in Hp by lia. }
  destruct (linked_node _ _ _ (sh_linked _ _ _ Hsh) Hho) as [sh Hsh'].
  destruct (upd_node_shape h1 o (n + 1) (headIndex h) (set_flag 0) sh) as (h2 & R2 & E2 & H2 & Z2 & C2); try done.
  assert (∀ j, content (nodes h2) j = content (nodes h) j) as C2'.
  { intros j. rewrite C2. case_decide as Hd; [|done]. subst j. unfold content. by rewrite Hsh'. }
  assert (lsize h2 = n ∧ unusedIndexs h2 = stk ∧ headIndex h2 = hd_index o) as (L2 & S2 & D2) by (rewrite E2; done).
  exists s. assert (popHeap h = (h ← upd_node h1 (headIndex h) (set_flag 0);
      if n =? 0 then Ok (set_head (-1) h)
      else h ← swapHeapNode h 0 n; h ← loop (S (Z.to_nat (lsize h))) (pop_step temp) (h, 0); unlink_last h)) as ->.
  { unfold popHeap. rewrite Hn. destruct (Z.eqb_spec (n + 1) 0); [lia|]. cbn [lsize set_size].
    replace (n + 1 - 1) with n by lia. rewrite (Ht : node (set_size n h) n = Ok temp). cbn [mbind outcome_bind unusedIndexs set_size].
    rewrite Hpush. cbn [mbind outcome_bind]. fold h1. change (headIndex h1) with (headIndex h). rewrite R2.
    cbn [mbind outcome_bind]. rewrite L2. done. }
  rewrite R2. cbn [mbind outcome_bind]. destruct (Z.eqb_spec n 0) as [->|Hn1].
  - exists [], [], (set_head (-1) h2). cbn [app]. pose proof (sh_perm _ _ _ Hsh) as Hp.
    change (seqZ 0 (0 + 1)) with [0] in Hp. apply Permutation_singleton_r in Hp. subst o. cbn in Hc. split; [done|]. split.
    { rewrite <-Hc. unfold content. unfold node in Hs. by rewrite Hs. }
    split_and!; try done. split.
    + exists []. split; cbn; rewrite ?L2, ?S2; try done; [|by rewrite Z2].
      split; [|done]. split; [by constructor|by intros i Hi%elem_of_nil|done].
    + cbn. rewrite L2. intros i Hi. lia.
  - destruct (swap_shape h2 o (n + 1) 0 n H2) as (h3 & -> & H3 & M3 & C3); [lia..|]. cbn [mbind outcome_bind].
    assert (lsize h3 = n) as L3 by (by rewrite (mv_size _ _ _ _ M3)). rewrite L3.
    assert (∀ i, 0 ≤ i < n + 1 → key h3 i = key h (tr 0 n i)) as K3 by (intros i Hi; unfold key; by rewrite C3, C2').
    destruct (pop_loop h3 (tr_node 0 n o) n temp) as (h4 & o4 & -> & H4 & M4 & Ho4 & C4); [done|done|lia| | |].
    { split; [|lia]. intros i Hi _ Hp. pose proof (par_bound i ltac:(lia)). rewrite !K3 by lia.
      rewrite !tr_ne by lia. apply Ho; lia. }
    { rewrite K3 by lia. by rewrite tr_l. }
    cbn [mbind outcome_bind]. pose proof (moved_trans _ _ _ _ _ _ M3 M4) as [Mc Mh Ms Mst Mz].
    destruct (unlink_spec h4 o4 n H4) as (h5 & o1 & o2 & -> & R5 & H5 & D5 & C5 & L5 & S5 & Z5); [congruence|lia|by apply Mh|].
    assert (content (nodes h4) n = (sid s, name s)) as Cn.
    { rewrite C4, C3, tr_r, C2' by lia. unfold content. unfold node in Hs. by rewrite Hs. }
    assert (l = contents (nodes h4) (o1 ++ n :: o2)) as Hl.
    { rewrite Mc, <-Hc. apply list_fmap_ext. intros. by rewrite C2'. }
    exists (content (nodes h4) <$> o1), (content (nodes h4) <$> o2), h5. split; [done|]. split.
    { rewrite Hl. unfold contents. rewrite fmap_app. cbn. by rewrite Cn. }
    split_and!; try done. split.
    + exists (o1 ++ o2). split; rewrite ?L5, ?S5, ?Z5, ?Mst, ?Mz, ?Z2; try done; [|lia|by rewrite S2].
      unfold contents. rewrite <-fmap_app. apply list_fmap_ext. intros k i Hi. apply C5.
      apply (shape_elem h5 _ n i H5). by eapply list_elem_of_lookup_2.
    + rewrite L5. intros i Hi Hp. pose proof (par_bound i ltac:(lia)). unfold key. rewrite !C5 by lia. by apply Ho4.
Qed.

(** ** Start, and building the heap *)

Lemma initialStaticLinkList_rep h :
  zlen (nodes h) = MAXSIZE → zlen (index (unusedIndexs h)) = MAXSIZE →
  ∃ h', initialStaticLinkList h = Ok h' ∧ heap_rep h' [].
Proof.
  intros Hz Hi. unfold initialStaticLinkList, initiateStack.
  destruct (for_range_spec
    (λ k a, zlen a = MAXSIZE ∧ ∀ i, 0 ≤ i < k → a.[i] = Ok (MAXSIZE - i - 1))
    (λ i a, aset a i (MAXSIZE - i - 1)) 0 MAXSIZE (index (unusedIndexs h))) as (a & -> & Ha & Hai); [done|split; [done|lia]| |].
  - intros k a Hk [Ha Hai]. rewrite aset_Ok by lia. eexists. split; [done|]. rewrite zlen_insert. split; [done|].
    intros i Hik. rewrite aget_insert by lia. case_decide; [by subst|]. apply Hai. lia.
  - cbn [mbind outcome_bind]. eexists. split; [done|]. split; [|intros i Hir; cbn in Hir; lia].
    exists []. split; try done.
    + split; [|done]. split; [constructor|by intros i Hin%elem_of_nil|done].
    + split; [done|]. split; [done|]. intros i Hir. rewrite Hai by (cbn in Hir; lia). f_equal. lia.
Qed.

Lemma initialHeap_rep h l : list_rep h l → ∃ h', initialHeap h = Ok h' ∧ heap_rep h' l.
Proof.
  intros [o Hh]. pose proof Hh as [Hsh Hhd Hc Hz Hsz Hst].
  destruct (initialHeap_shape h o (lsize h) Hsh) as (h' & o' & R & H' & [Mc Mh Ms Mst Mz] & Ho); [done|lia|].
  exists h'. split; [done|]. split; [|by rewrite Ms]. exists o'. split; rewrite ?Ms, ?Mst, ?Mz, ?Mc; auto.
Qed.

(** ** Searching *)

(** [i] is in the subtree of [c]. *)
Inductive below (c : Z) : Z → Prop :=
| below_here : below c c
| below_left i : below c i → below c (i * 2 + 1)
| below_right i : below c i → below c (i * 2 + 2).

Lemma below_inv c i : 0 ≤ c → below c i → c ≤ i ∧ (i = c ∨ below (c * 2 + 1) i ∨ below (c * 2 + 2) i).
Proof.
  intros Hc. induction 1 as [|i Hi [IH [->|[?|?]]]|i Hi [IH [->|[?|?]]]]; (split; [lia|]); eauto using below.
Qed.

Lemma below_root i : 0 ≤ i → below 0 i.
Proof.
  revert i. apply (Zlt_0_ind (below 0)). intros i IH Hi. destruct (decide (i = 0)) as [->|]; [constructor|].
  pose proof (par_bound i ltac:(lia)). pose proof (proj1 (par_children i (par i)) eq_refl) as [->| ->].
  - rewrite Z.mul_comm. constructor. apply IH. lia.
  - rewrite Z.mul_comm. constructor. apply IH. lia.
Qed.

Definition found (p : Student → bool) (h : StaticLinkList) (c r : Z) : Prop :=
  (r = -1 ∧ ∀ i s, below c i → 0 ≤ i < lsize h → node h i = Ok s → p s = false) ∨
  (0 ≤ r < lsize h ∧ ∃ s, node h r = Ok s ∧ p s = true).

Lemma find_from_found p h fuel c :
  (∀ i, 0 ≤ i < lsize h → ∃ s, node h i = Ok s) → 0 ≤ c → (Z.to_nat (lsize h - c) < fuel)%nat →
  ∃ r, find_from fuel p h c = Ok r ∧ found p h c r.
Proof.
  intros Hn. revert c. induction fuel as [|fuel IH]; intros c Hc Hf; [lia|]. cbn [find_from].
  destruct (Z.leb_spec (lsize h) c) as [Hge|Hlt].
  { exists (-1). split; [done|]. left. split; [done|]. intros i s Hb Hi. apply below_inv in Hb; lia. }
  destruct (Hn c ltac:(lia)) as [s Hs]. rewrite Hs. cbn [mbind outcome_bind].
  destruct (p s) eqn:Hp; [exists c; split; [done|]; right; split; [lia|by eauto]|].
  assert (∀ c', c < c' → ∃ r, (if c' <? lsize h then find_from fuel p h c' else Ok (-1)) = Ok r ∧ found p h c' r) as Hsub.
  { intros c' Hc'. destruct (Z.ltb_spec c' (lsize h)); [apply IH; lia|]. exists (-1). split; [done|].
    left. split; [done|]. intros i t Hb Hi. apply below_inv in Hb; lia. }
  destruct (Hsub (c * 2 + 1)) as (r1 & -> & F1); [lia|]. cbn [mbind outcome_bind].
  destruct F1 as [[-> F1]|F1].
  2: { exists r1. destruct (Z.eqb_spec r1 (-1)); [lia|]. split; [done|]. by right. }
  cbn [Z.eqb negb]. destruct (Hsub (c * 2 + 2)) as (r2 & -> & F2); [lia|]. cbn [mbind outcome_bind].
  destruct F2 as [[-> F2]|F2].
  2: { exists r2. destruct (Z.eqb_spec r2 (-1)); [lia|]. split; [done|]. by right. }
  exists (-1). split; [done|]. left. split; [done|]. intros i t Hb Hi Ht.
  apply below_inv in Hb as [_ [->|[Hb|Hb]]]; [congruence|by eapply F1|by eapply F2|done].
Qed.

(** The position in the list of the node at an index. *)
Lemma heap_list_lookup h l o i s :
  heap_list h l o → 0 ≤ i < lsize h → node h i = Ok s → ∃ k, o !! k = Some i ∧ l !! k = Some (sid s, name s).
Proof.
  intros Hh Hi Hs. apply (shape_elem h o _ i (hl_shape _ _ _ Hh)) in Hi as [k Hk]%list_elem_of_lookup.
  exists k. split; [done|]. rewrite <-(hl_contents _ _ _ Hh). unfold contents. rewrite list_lookup_fmap, Hk. cbn.
  unfold content, node in *. by rewrite Hs.
Qed.

(** Every search answers -1 exactly when no student satisfies the predicate. *)
Lemma find_found (P : Z * string → bool) h l :
  list_rep h l → let p := λ s, P (sid s, name s) in
  ∃ r, find p h 0 = Ok r ∧
    ((r = -1 ∧ Forall (λ x, P x = false) l) ∨
     ∃ o k s, heap_list h l o ∧ 0 ≤ r < lsize h ∧ node h r = Ok s ∧ o !! k = Some r ∧ l !! k = Some (sid s, name s) ∧
       P (sid s, name s) = true).
Proof.
  intros [o Hh] p. pose proof (hl_shape _ _ _ Hh) as Hsh. unfold find. rewrite Z.sub_0_r.
  assert (∀ i, 0 ≤ i < lsize h → ∃ s, node h i = Ok s) as Hn.
  { intros i Hi. destruct (shape_node h o _ i Hsh Hi) as (s & Hs & _). by exists s. }
  destruct (find_from_found p h (S (Z.to_nat (lsize h))) 0 Hn) as (r & -> & [[-> F]|[Hr (s & Hs & Hp)]]); [lia|lia| |];
    eexists; (split; [done|]).
  - left. split; [done|]. rewrite <-(hl_contents _ _ _ Hh). apply Forall_fmap, Forall_forall. intros i Hi. cbn.
    apply (shape_elem h o _ i Hsh) in Hi. destruct (Hn i Hi) as [s Hs]. unfold content.
    unfold node in *. rewrite Hs. by apply (F i s (below_root i ltac:(lia))).
  - right. destruct (heap_list_lookup h l o r s Hh Hr Hs) as (k & Hk & Hl). exists o, k, s. done.
Qed.

(** ** Changing a student *)

Lemma upd_rep h l o k i f s :
  heap_list h l o → o !! k = Some i → node h i = Ok s → preNode (f s) = preNode s → nextNode (f s) = nextNode s →
  ∃ h', upd_node h i f = Ok h' ∧ heap_list h' (<[k := (sid (f s), name (f s))]> l) o ∧ node h' i = Ok (f s) ∧
    lsize h' = lsize h ∧ (sid (f s) = sid s → ∀ j, key h' j = key h j).
Proof.
  intros [Hsh Hhd Hc Hz Hsz Hst] Hk Hs Hp Hn. destruct (upd_node_shape h o _ i f s Hsh Hs Hp Hn) as (h' & R & E & H' & Z & C).
  destruct (upd_node_aget h i f s Hs) as (h'' & R' & _ & _ & J). assert (h'' = h') as -> by congruence.
  exists h'. split; [done|]. split; [|split; [|split]].
  - assert (lsize h' = lsize h ∧ unusedIndexs h' = unusedIndexs h ∧ headIndex h' = headIndex h) as (L & S & D) by (rewrite E; done).
    split; rewrite ?L, ?S, ?D; try done; [|congruence]. unfold contents. apply list_eq. intros m.
    rewrite list_lookup_fmap. destruct (decide (m = k)) as [->|Hne].
    + rewrite Hk. cbn. rewrite C, decide_True by done. symmetry. apply list_lookup_insert_eq.
      rewrite <-Hc. unfold contents. rewrite length_fmap. by eapply lookup_lt_Some.
    + rewrite list_lookup_insert_ne by done. rewrite <-Hc. unfold contents. rewrite list_lookup_fmap.
      destruct (o !! m) as [j|] eqn:Ej; [|done]. cbn. rewrite C, decide_False; [done|]. intros ->.
      apply Hne. by eapply NoDup_lookup; [apply Hsh|..].
  - unfold node. by rewrite J, decide_True.
  - rewrite E. done.
  - intros Hid j. unfold key. rewrite C. case_decide as Hd; [|done]. subst j. cbn. rewrite Hid. unfold content.
    unfold node in Hs. by rewrite Hs.
Qed.
