(* ===== verification/MinHeapSpec.v ===== *)
(** * SLList_MinHeap.c as a list from which the smallest student is taken

    The specification is a list of (id, name), the last inserted first: [Push]
    adds at the front, [Pop] takes out one with the smallest id and keeps the
    order of the others, the modifications replace a student in place.  Every
    run of the program is a run of the specification. *)

From stdpp Require Import base list numbers strings sorting.
From S2P Require Import Prelude MinHeap MinHeapList MinHeapProps.

Inductive op :=
| Push (id : Z) (nm : string)
| Pop
| ModId (stu : Student) (id : Z)
| ModName (stu : Student) (nm : string)
| ModBoth (stu : Student) (id : Z) (nm : string).

Definition exec (h : StaticLinkList) (o : op) : outcome (StaticLinkList * list tok) :=
  match o with
  | Push id nm => h ← pushHeapByIdAndName h id nm; Ok (h, [])
  | Pop => h ← popHeap h; Ok (h, [])
  | ModId stu id => modifyId h stu id
  | ModName stu nm => modifyName h stu nm
  | ModBoth stu id nm => modifyIdAndName h stu id nm
  end.

Definition run_step (o : op) (s : StaticLinkList * list tok) : outcome (StaticLinkList * list tok) :=
  r ← exec s.1 o; Ok (r.1, s.2 ++ r.2).

Definition run (h : StaticLinkList) (ops : list op) : outcome (StaticLinkList * list tok) :=
  mfold run_step ops (h, []).

Notation student := (Z * string)%type.

Definition ident (s : Student) : student := (sid s, name s).

(** The change of a found student. *)
Definition change (o : op) (x : student) : option (Student * student) :=
  match o with
  | ModId stu id => Some (stu, (id, x.2))
  | ModName stu nm => Some (stu, (x.1, nm))
  | ModBoth stu id nm => Some (stu, (id, nm))
  | _ => None
  end.

Inductive spec_step : list student → op → list student → list tok → Prop :=
| spec_push l id nm : spec_step l (Push id nm) ((id, nm) :: l) []
| spec_pop_nil : spec_step [] Pop [] []
| spec_pop l1 x l2 : Forall (λ y, x.1 ≤ y.1) (l1 ++ x :: l2) → spec_step (l1 ++ x :: l2) Pop (l1 ++ l2) []
| spec_absent l o stu y : change o (ident stu) = Some (stu, y) → ident stu ∉ l → spec_step l o l not_found
| spec_change l o stu k y :
    change o (ident stu) = Some (stu, y) → l !! k = Some (ident stu) → spec_step l o (<[k := y]> l) [].

Inductive spec_run : list student → list op → list student → list tok → Prop :=
| spec_nil l : spec_run l [] l []
| spec_cons l o l1 out1 ops l2 out2 :
    spec_step l o l1 out1 → spec_run l1 ops l2 out2 → spec_run l (o :: ops) l2 (out1 ++ out2).

Definition name_fits (o : op) : Prop :=
  match o with
  | Push _ nm | ModName _ nm | ModBoth _ _ nm => Z.of_nat (String.length nm) < NAMESIZE
  | _ => True
  end.

(** How many students there are after an operation, and whether none of a run
    inserts into a full heap of [n] students. *)
Definition size_after (o : op) (n : Z) : Z :=
  match o with Push _ _ => n + 1 | Pop => Z.max 0 (n - 1) | _ => n end.

Fixpoint room (n : Z) (ops : list op) : bool :=
  match ops with
  | [] => true
  | o :: ops => match o with Push _ _ => n <? MAXSIZE | _ => true end && room (size_after o n) ops
  end.

Lemma spec_step_size l o l' out : spec_step l o l' out → zlen l' = size_after o (zlen l).
Proof.
  destruct 1 as [| |l1 x l2 _|l o stu y Ho _|l o stu k y Ho _]; cbn [size_after].
  - apply zlen_cons.
  - done.
  - rewrite !zlen_app, zlen_cons. pose proof (zlen_nonneg l1). pose proof (zlen_nonneg l2). lia.
  - by destruct o.
  - rewrite zlen_insert. by destruct o.
Qed.

Lemma copy_name_fits nm : Z.of_nat (String.length nm) < NAMESIZE → copy_name nm = Ok nm.
Proof. intros H. unfold copy_name. by destruct (Z.ltb_spec (Z.of_nat (String.length nm)) NAMESIZE); [|lia]. Qed.

Lemma heap_rep_length h l : heap_rep h l → zlen l = lsize h.
Proof. intros [[o Hh] _]. by eapply heap_list_length. Qed.

(** [findHeap] with the student that is to be changed. *)
Lemma findHeap_ident h l stu :
  list_rep h l → ∃ r, findHeap h stu 0 = Ok r ∧
    ((r = -1 ∧ ident stu ∉ l) ∨
     ∃ o k s, heap_list h l o ∧ 0 ≤ r < lsize h ∧ node h r = Ok s ∧ o !! k = Some r ∧ l !! k = Some (ident s) ∧
       ident s = ident stu).
Proof.
  intros Hl. destruct (find_found (λ x, (x.1 =? sid stu) && String.eqb x.2 (name stu)) h l Hl) as (r & R & [[-> F]|F]);
    (exists r || exists (-1)); (split; [exact R|]).
  - left. split; [done|]. intros Hin. rewrite Forall_forall in F. specialize (F _ Hin). cbn in F.
    by rewrite Z.eqb_refl, String.eqb_refl in F.
  - right. destruct F as (o & k & s & ? & ? & ? & ? & ? & Hp). exists o, k, s. do 5 (split; [done|]).
    apply andb_true_iff in Hp as [Hi%Z.eqb_eq Hn%String.eqb_eq]. cbn in Hi, Hn. unfold ident. by rewrite Hi, Hn.
Qed.

(** The three modifications of a found student: an update that keeps the links,
    then [initialHeap] when the id may have changed. *)
Lemma change_rep h l o k i s f :
  heap_rep h l → heap_list h l o → node h i = Ok s → o !! k = Some i → preNode (f s) = preNode s → nextNode (f s) = nextNode s →
  (∃ h1 h2, upd_node h i f = Ok h1 ∧ initialHeap h1 = Ok h2 ∧ heap_rep h2 (<[k := ident (f s)]> l)) ∧
  (sid (f s) = sid s → ∃ h1, upd_node h i f = Ok h1 ∧ heap_rep h1 (<[k := ident (f s)]> l)).
Proof.
  intros [_ Ho] Hh Hs Hk Hp Hn. destruct (upd_rep h l o k i f s Hh Hk Hs Hp Hn) as (h1 & R & Hh1 & Hs1 & L & K). split.
  - destruct (initialHeap_rep h1 _ (ex_intro _ o Hh1)) as (h2 & R2 & H2). by exists h1, h2.
  - intros Hid. exists h1. split; [done|]. split; [by exists o|]. rewrite L. intros j Hj Hp'. rewrite !K by done. by apply Ho.
Qed.

Lemma upd_node_comp h i f g s :
  node h i = Ok s → (h ← upd_node h i f; upd_node h i g) = upd_node h i (λ s, g (f s)).
Proof.
  intros Hs. pose proof (aget_range _ _ _ Hs) as Hr. unfold upd_node, set_node. rewrite Hs. cbn [mbind outcome_bind].
  rewrite !aset_Ok by done. cbn [mbind outcome_bind nodes set_nodes]. unfold node. cbn [nodes set_nodes].
  rewrite aget_insert_eq by done. cbn [mbind outcome_bind]. rewrite aset_Ok by (by rewrite zlen_insert).
  cbn [mbind outcome_bind]. by rewrite list_insert_insert_eq.
Qed.

Lemma exec_change h l o stu y :
  heap_rep h l → name_fits o → change o (ident stu) = Some (stu, y) →
  ∃ h' out l', exec h o = Ok (h', out) ∧ spec_step l o l' out ∧ heap_rep h' l'.
Proof.
  intros H Hfit Hch. destruct (findHeap_ident h l stu (proj1 H)) as (r & R & [[-> Hn]|F]).
  { exists h, not_found, l. split; [|split; [by eapply spec_absent|done]].
    destruct o; try done; cbn in Hch; injection Hch as -> _; cbn [exec]; unfold modifyId, modifyName, modifyIdAndName; by rewrite R. }
  destruct F as (o1 & k & s & Hh & Hr & Hs & Hk & Hl & Hid). rewrite Hid in Hl.
  assert ((r =? -1) = false) as Hne by (apply Z.eqb_neq; lia).
  assert (∀ f, preNode (f s) = preNode s → nextNode (f s) = nextNode s → ident (f s) = y →
    (∃ h1 h2, upd_node h r f = Ok h1 ∧ initialHeap h1 = Ok h2 ∧ heap_rep h2 (<[k := y]> l)) ∧
    (sid (f s) = sid s → ∃ h1, upd_node h r f = Ok h1 ∧ heap_rep h1 (<[k := y]> l))) as Hc.
  { intros f Hp Hx Hy. rewrite <-Hy. exact (change_rep h l o1 k r s f H Hh Hs Hk Hp Hx). }
  assert (∀ h', exec h o = Ok (h', []) → heap_rep h' (<[k:=y]> l) →
    ∃ h' out l', exec h o = Ok (h', out) ∧ spec_step l o l' out ∧ heap_rep h' l') as Hdone.
  { intros h' E Hh'. exists h', [], (<[k:=y]> l). split; [done|]. split; [by eapply spec_change|done]. }
  unfold ident in Hid. destruct o as [| |stu' id|stu' nm|stu' id nm]; try done; cbn in Hch; injection Hch as -> <-; cbn [exec name_fits] in *.
  - destruct (Hc (set_id id)) as [(h1 & h2 & R1 & R2 & H2) _]; [done|done|unfold ident; cbn; congruence|].
    apply (Hdone h2); [|done]. unfold modifyId. rewrite R. cbn [mbind outcome_bind]. rewrite Hne, R1. cbn [mbind outcome_bind].
    by rewrite R2.
  - destruct (Hc (set_name nm)) as [_ Hc']; [done|done|unfold ident; cbn; congruence|].
    destruct Hc' as (h1 & R1 & H1); [done|]. apply (Hdone h1); [|done]. unfold modifyName. rewrite R. cbn [mbind outcome_bind].
    rewrite Hne, copy_name_fits by done. cbn [mbind outcome_bind]. by rewrite R1.
  - destruct (Hc (λ s, set_name nm (set_id id s))) as [(h1 & h2 & R1 & R2 & H2) _]; [done|done|done|].
    apply (Hdone h2); [|done]. unfold modifyIdAndName. rewrite R. cbn [mbind outcome_bind]. rewrite Hne, copy_name_fits by done.
    cbn [mbind outcome_bind]. rewrite <-(upd_node_comp _ _ _ _ s) in R1 by done. rewrite <-bind_assoc, R1. cbn [mbind outcome_bind].
    by rewrite R2.
Qed.

Lemma exec_step h l o :
  heap_rep h l → name_fits o → (lsize h < MAXSIZE ∨ ∀ id nm, o ≠ Push id nm) →
  ∃ h' out l', exec h o = Ok (h', out) ∧ spec_step l o l' out ∧ heap_rep h' l' ∧ lsize h' = size_after o (lsize h).
Proof.
  intros H Hfit Hfull. cut (∃ h' out l', exec h o = Ok (h', out) ∧ spec_step l o l' out ∧ heap_rep h' l').
  { intros (h' & out & l' & R & Hs & H'). exists h', out, l'. split_and!; try done.
    rewrite <-(heap_rep_length h l H), <-(heap_rep_length h' l' H'). by eapply spec_step_size. }
  destruct o as [id nm| |stu id|stu nm|stu id nm]; [..|by eapply exec_change|by eapply exec_change|by eapply exec_change].
  - destruct (push_rep h l id nm H) as (h' & R & H'); [by destruct Hfull as [|Hf]; [|by destruct (Hf id nm)]|by apply copy_name_fits|].
    exists h', [], ((id, nm) :: l). cbn [exec]. rewrite R. split_and!; [done|constructor|done].
  - destruct l as [|x l].
    + exists h, [], []. cbn [exec]. unfold popHeap. rewrite <-(heap_rep_length h [] H). split_and!; [done|constructor|done].
    + destruct (pop_rep h (x :: l) H) as (s & l1 & l2 & h' & _ & E & Hmin & R & H'); [done|].
      exists h', [], (l1 ++ l2). cbn [exec]. rewrite R. split_and!; [done| |done]. rewrite E in *.
      by apply (spec_pop l1 (sid s, name s) l2).
Qed.

Lemma run_step_eq o h out : run_step o (h, out) = r ← exec h o; Ok (r.1, out ++ r.2).
Proof. done. Qed.

Lemma run_prefix ops h pre out :
  mfold run_step ops (h, pre ++ out) = q ← mfold run_step ops (h, out); Ok (q.1, pre ++ q.2).
Proof.
  revert h out. induction ops as [|o ops IH]; intros h out; [done|]. cbn [mfold].
  rewrite !run_step_eq. destruct (exec h o) as [[h1 out1]|]; [|done]. cbn [mbind outcome_bind fst snd].
  by rewrite <-(assoc_L (++)), IH.
Qed.

Lemma run_cons h o ops :
  run h (o :: ops) = r ← exec h o; q ← run r.1 ops; Ok (q.1, r.2 ++ q.2).
Proof.
  unfold run. cbn [mfold]. rewrite run_step_eq. cbn [app]. destruct (exec h o) as [[h1 out]|]; [|done].
  cbn [mbind outcome_bind fst snd]. rewrite <-(app_nil_r out) at 1. apply run_prefix.
Qed.

(** ** Indices that are not indices *)

Lemma upd_node_negative h i f : i < 0 → upd_node h i f = Err Undef.
Proof. intros Hi. unfold upd_node, node, aget. by rewrite decide_False by lia. Qed.

Lemma set_node_negative h i s : i < 0 → set_node h i s = Err Undef.
Proof. intros Hi. unfold set_node, aset. by rewrite decide_False by lia. Qed.

(** When the heap is full, [topStack] answers -1. *)
Lemma full_undefined h l id nm : heap_rep h l → lsize h = MAXSIZE →
  pushHeapByIdAndName h id nm = Err Undef ∧ insertListAtHead h (mk_Student 0 id nm 0 0) = Err Undef.
Proof.
  intros [[o [Hsh Hhd Hc Hz Hsz Hst]] _] Hfull. rewrite Hfull in Hst. destruct (topStack_empty _ Hst) as [Ht _].
  unfold pushHeapByIdAndName, insertListAtHead. rewrite Ht. cbn [mbind outcome_bind].
  by rewrite upd_node_negative, set_node_negative.
Qed.

Lemma heap_size h l : heap_rep h l → lsize h ≤ MAXSIZE.
Proof. intros [[o [Hsh Hhd Hc Hz Hsz Hst]] _]. lia. Qed.

Lemma run_refines h l ops :
  heap_rep h l → Forall name_fits ops →
  if room (lsize h) ops
  then ∃ h' out l', run h ops = Ok (h', out) ∧ spec_run l ops l' out ∧ heap_rep h' l'
  else run h ops = Err Undef.
Proof.
  revert h l. induction ops as [|o ops IH]; intros h l H Hfit; [exists h, [], l; by split_and!; [|constructor|]|].
  apply Forall_cons in Hfit as [Ho Hops]. cbn [room].
  assert (Hcase : (lsize h < MAXSIZE ∨ ∀ id nm, o ≠ Push id nm) ∨ lsize h = MAXSIZE ∧ ∃ id nm, o = Push id nm).
  { pose proof (heap_size h l H). destruct o; [|left; right; done..].
    destruct (decide (lsize h = MAXSIZE)); [right; eauto|left; left; lia]. }
  destruct Hcase as [Hr|(Hfull & id & nm & ->)].
  - assert (match o with Push _ _ => lsize h <? MAXSIZE | _ => true end = true) as ->.
    { destruct o as [id nm| | | |]; try done. destruct Hr as [Hr|Hr]; [by apply Z.ltb_lt|by destruct (Hr id nm)]. }
    cbn [andb]. destruct (exec_step h l o H Ho Hr) as (h1 & out1 & l1 & R1 & S1 & H1 & <-).
    specialize (IH h1 l1 H1 Hops). rewrite run_cons, R1. cbn [mbind outcome_bind fst snd].
    destruct (room (lsize h1) ops); [|by rewrite IH]. destruct IH as (h2 & out2 & l2 & R2 & S2 & H2).
    exists h2, (out1 ++ out2), l2. rewrite R2. split_and!; [done|by econstructor|done].
  - rewrite Hfull, Z.ltb_irrefl. cbn [andb]. rewrite run_cons. cbn [exec].
    by rewrite (proj1 (full_undefined h l id nm H Hfull)).
Qed.

(** ** Sorting with the heap *)

(** Takes out the students until the heap is empty. *)
Fixpoint drain (n : nat) (h : StaticLinkList) : outcome (list student) :=
  match n with
  | O => Ok []
  | S n =>
      if isEmptyHeap h then Ok []
      else s ← topHeap h; h ← popHeap h; r ← drain n h; Ok (ident s :: r)
  end.

Lemma drain_sorts n h l :
  heap_rep h l → (length l ≤ n)%nat →
  ∃ r, drain n h = Ok r ∧ r ≡ₚ l ∧ StronglySorted (λ x y : student, x.1 ≤ y.1) r.
Proof.
  revert h l. induction n as [|n IH]; intros h l H Hn.
  { exists []. destruct l; [|cbn in Hn; lia]. split_and!; [done|done|constructor]. }
  cbn [drain]. unfold isEmptyHeap. rewrite <-(heap_rep_length h l H). destruct l as [|x l].
  { exists []. split_and!; [done|done|constructor]. }
  assert ((zlen (x :: l) =? 0) = false) as -> by (apply Z.eqb_neq; unfold zlen; cbn [length]; lia).
  destruct (pop_rep h (x :: l) H) as (s & l1 & l2 & h' & Ht & E & Hmin & R & H'); [done|].
  rewrite Ht, R. cbn [mbind outcome_bind]. rewrite E in *. rewrite length_app in Hn. cbn [length] in Hn.
  destruct (IH h' (l1 ++ l2) H') as (r & -> & Hp & Hs); [rewrite length_app; lia|]. cbn [mbind outcome_bind].
  exists (ident s :: r). split; [done|]. split; [rewrite Hp; apply Permutation_middle|]. constructor; [done|].
  rewrite Hp. rewrite <-Permutation_middle in Hmin. by apply Forall_cons in Hmin as [_ ?].
Qed.

(** ** Printing the list *)

Definition node_line (a : list Student) (i : Z) : list tok :=
  match a.[i] with Ok s => printStudent s | Err _ => [] end.

Lemma print_step_eq h i nx out s :
  node h i = Ok s → print_step h (i, nx, out) =
    if nx =? -1 then Ok (inr (out ++ printStudent s))
    else t ← node h nx; Ok (inl (nx, nextNode t, out ++ printStudent s)).
Proof. intros Hs. unfold print_step. by rewrite Hs. Qed.

Lemma print_loop h o fuel k i out :
  linked (nodes h) o → o !! k = Some i → (length o - k < fuel)%nat →
  loop fuel (print_step h) (i, after o k, out) = Ok (out ++ (drop k o ≫= node_line (nodes h))).
Proof.
  intros Hl. revert k i out. induction fuel as [|fuel IH]; intros k i out Hk Hf; [lia|].
  pose proof (lookup_lt_Some _ _ _ Hk) as Hlt. destruct (lk_node _ _ Hl k i Hk) as (s & Hs & _ & Hn).
  rewrite loop_unfold, (print_step_eq h i _ out s Hs).
  rewrite (drop_S o i k Hk). cbn [mbind list_bind]. assert (node_line (nodes h) i = printStudent s) as -> by (unfold node_line; by rewrite Hs).
  rewrite (assoc_L (++)). destruct (o !! S k) as [j|] eqn:E.
  - assert (after o k = j) as Ha by (unfold after; by rewrite E). rewrite !Ha.
    pose proof (lk_pos _ _ Hl j ltac:(by eapply list_elem_of_lookup_2)). destruct (Z.eqb_spec j (-1)); [lia|].
    destruct (lk_node _ _ Hl (S k) j E) as (t & Ht & _ & Hnt). rewrite (Ht : node h j = Ok t). cbn [mbind outcome_bind].
    rewrite Hnt. apply IH; [done|lia].
  - assert (after o k = -1) as -> by (unfold after; by rewrite E). cbn. apply lookup_ge_None in E.
    rewrite drop_ge by lia. by rewrite app_nil_r.
Qed.

Lemma print_list h l :
  list_rep h l → ∃ ss, ident <$> ss = l ∧ printStaticLinkList h =
    Ok (TStr "In the static linklist(from head to tail): \n" ::
        if decide (l = []) then [TStr "It is empty\n"] else ss ≫= printStudent).
Proof.
  intros [o Hh]. pose proof Hh as [Hsh Hhd Hc Hz Hsz _]. pose proof (sh_linked _ _ _ Hsh) as Hl.
  assert (∃ ss, ident <$> ss = contents (nodes h) o ∧ (o ≫= node_line (nodes h)) = ss ≫= printStudent) as (ss & Hss & Hlines).
  { assert (∀ i, i ∈ o → ∃ s, (nodes h).[i] = Ok s) as Hn by (intros i; by apply linked_node).
    clear -Hn. induction o as [|i o IH]; [by exists []|]. destruct (Hn i ltac:(by left)) as [s Hs].
    destruct IH as (ss & E1 & E2); [intros j Hj; apply Hn; by right|]. exists (s :: ss). unfold contents in *. cbn [fmap list_fmap].
    rewrite E1. split; [f_equal; unfold content; by rewrite Hs|]. cbn [mbind list_bind]. rewrite E2. unfold node_line. by rewrite Hs. }
  exists ss. split; [congruence|]. unfold printStaticLinkList. destruct o as [|i o].
  - unfold hd_index in Hhd. cbn in Hhd, Hc. rewrite Hhd. cbn. by rewrite decide_True by done.
  - unfold hd_index in Hhd. cbn [head default id] in Hhd. rewrite Hhd.
    pose proof (lk_pos _ _ Hl i ltac:(by left)). destruct (Z.eqb_spec i (-1)); [lia|].
    rewrite decide_False by (intros E; subst l; cbn in E; done).
    destruct (lk_node _ _ Hl O i eq_refl) as (s & Hs & _ & Hn). rewrite (Hs : node h i = Ok s). cbn [mbind outcome_bind].
    rewrite Hn, (print_loop h (i :: o) _ O i []) by (try done; pose proof (heap_list_length _ _ _ Hh) as Hlen;
      rewrite <-Hc in Hlen; unfold contents in Hlen; rewrite zlen_fmap in Hlen; unfold zlen, MAXSIZE in *; lia).
    cbn [mbind outcome_bind app]. rewrite drop_0, Hlines. done.
Qed.

(** ** The theorems *)

(** [C17] A run of insertions, removals of the smallest and modifications, with
    names shorter than 20 characters, that never inserts into a heap of MAXSIZE
    students returns, prints what the specification prints and is a run of the
    specification: the heap is a list of students from which [popHeap] takes one
    with the smallest id without disturbing the order of the others.  A run that
    inserts into a full heap is undefined. *)
Theorem heap_runs_refine h l ops :
  heap_rep h l → Forall name_fits ops →
  if room (lsize h) ops
  then ∃ h' out l', run h ops = Ok (h', out) ∧ spec_run l ops l' out ∧ heap_rep h' l'
  else run h ops = Err Undef.
Proof. apply run_refines. Qed.

(** [C18] [initialHeap] orders any list of students without changing it, and
    taking the smallest until the heap is empty yields all of them sorted. *)
Theorem initialHeap_sorts h l :
  list_rep h l →
  ∃ h' r, initialHeap h = Ok h' ∧ heap_rep h' l ∧ drain (length l) h' = Ok r ∧ r ≡ₚ l ∧
    StronglySorted (λ x y : student, x.1 ≤ y.1) r.
Proof.
  intros H. destruct (initialHeap_rep h l H) as (h' & R & H'). destruct (drain_sorts (length l) h' l H') as (r & ? & ? & ?); [done|].
  by exists h', r.
Qed.

(** The printed list shows the students in the order of the list, the last
    inserted first, whatever the order of the heap array. *)
Lemma printStaticLinkList_prints h l :
  list_rep h l → ∃ ss, ident <$> ss = l ∧ printStaticLinkList h =
    Ok (TStr "In the static linklist(from head to tail): \n" ::
        if decide (l = []) then [TStr "It is empty\n"] else ss ≫= printStudent).
Proof. apply print_list. Qed.

(** The accesses the code does not guard: an insertion into a full heap
    uses the index -1, a name of 20 or more characters does not fit into the
    node, a negative index is not rejected by [modifyIdByIndex]. *)
Theorem heap_undefined h l id nm i :
  heap_rep h l →
  (zlen l = MAXSIZE → pushHeapByIdAndName h id nm = Err Undef ∧ insertListAtHead h (mk_Student 0 id nm 0 0) = Err Undef) ∧
  (NAMESIZE ≤ Z.of_nat (String.length nm) → pushHeapByIdAndName h id nm = Err Undef) ∧
  (i < 0 → modifyIdByIndex h i id = Err Undef ∧ modifyNameByIndex h i nm = Err Undef).
Proof.
  intros H. pose proof (heap_rep_length h l H) as Hlen. pose proof H as [[o [Hsh Hhd Hc Hz Hsz Hst]] _].
  split_and!.
  - intros Hfull. eapply full_undefined; [done|lia].
  - intros Hn. unfold pushHeapByIdAndName. destruct (decide (lsize h = MAXSIZE)) as [Hf|Hf].
    + rewrite Hf in Hst. destruct (topStack_empty _ Hst) as [-> _]. cbn [mbind outcome_bind]. by rewrite upd_node_negative.
    + destruct (topStack_free _ _ Hst ltac:(lia)) as [-> _]. cbn [mbind outcome_bind].
      destruct (aget_in_range (nodes h) (lsize h) ltac:(lia)) as (s & Hs & _).
      destruct (upd_node_aget (set_stack (popStack (unusedIndexs h)) h) (lsize h) (set_id id) s Hs) as (h1 & -> & _).
      cbn [mbind outcome_bind]. unfold copy_name. by rewrite (proj2 (Z.ltb_ge _ _) Hn).
  - intros Hi. unfold modifyIdByIndex, modifyNameByIndex. rewrite (proj2 (Z.leb_gt _ _)) by lia.
    rewrite !upd_node_negative by done. split; [done|]. unfold copy_name. destruct (_ <? _); [|done].
    cbn [mbind outcome_bind]. by rewrite upd_node_negative.
Qed.

(** ** Concrete heaps *)

Definition raw : StaticLinkList :=
  mk_StaticLinkList (replicate (Z.to_nat MAXSIZE) (mk_Student 0 0 "" 0 0)) 0 0
    (mk_Stack (replicate (Z.to_nat MAXSIZE) 0) 0).

Definition start : StaticLinkList := match initialStaticLinkList raw with Ok h => h | Err _ => raw end.

Lemma start_rep : heap_rep start [].
Proof.
  unfold start. destruct (initialStaticLinkList_rep raw) as (h' & -> & H); [..|done];
    cbn [nodes unusedIndexs index raw]; unfold zlen; by rewrite length_replicate.
Qed.

Definition three_ops : list op := [Push 30 "a"; Push 10 "b"; Push 20 "c"].

Definition three : StaticLinkList := match run start three_ops with Ok r => r.1 | Err _ => start end.

Definition three_students : list student := [(20, "c"); (10, "b"); (30, "a")].

Lemma three_rep : heap_rep three three_students.
Proof.
  unfold three. pose proof (run_refines start [] three_ops start_rep) as R.
  rewrite <-(heap_rep_length _ _ start_rep) in R. destruct R as (h' & out & l' & -> & Hs & H).
  - by repeat constructor.
  - assert (l' = three_students) as ->; [|done].
    repeat match goal with H : spec_run _ _ _ _ |- _ => inversion H; subst; clear H
      | H : spec_step _ (Push _ _) _ _ |- _ => inversion H; subst; clear H; [|done..] end. done.
Qed.

#[global] Opaque raw start three.

Lemma heap_runs_refine_witness :
  ∃ h' out l', run three [Pop; ModId (mk_Student 0 20 "c" 0 0) 40; Push 5 "d"; Pop] = Ok (h', out) ∧
    spec_run three_students [Pop; ModId (mk_Student 0 20 "c" 0 0) 40; Push 5 "d"; Pop] l' out ∧ heap_rep h' l'.
Proof.
  pose proof (heap_runs_refine three three_students
    [Pop; ModId (mk_Student 0 20 "c" 0 0) 40; Push 5 "d"; Pop] three_rep ltac:(by repeat constructor)) as R.
  rewrite <-(heap_rep_length _ _ three_rep) in R. exact R.
Defined.

Lemma initialHeap_sorts_witness :
  ∃ h' r, initialHeap three = Ok h' ∧ heap_rep h' three_students ∧ drain 3 h' = Ok r ∧ r ≡ₚ three_students ∧
    StronglySorted (λ x y : student, x.1 ≤ y.1) r.
Proof. apply (initialHeap_sorts three three_students (proj1 three_rep)). Defined.

Lemma printStaticLinkList_prints_witness :
  ∃ ss, ident <$> ss = three_students ∧ printStaticLinkList three =
    Ok (TStr "In the static linklist(from head to tail): \n" ::
        if decide (three_students = []) then [TStr "It is empty\n"] else ss ≫= printStudent).
Proof. apply (printStaticLinkList_prints three three_students (proj1 three_rep)). Defined.

Lemma heap_undefined_witness :
  modifyIdByIndex three (-1) 7 = Err Undef ∧
  pushHeapByIdAndName three 7 "a name that is far too long" = Err Undef.
Proof.
  destruct (heap_undefined three three_students 7 "a name that is far too long" (-1) three_rep) as (_ & H2 & H3).
  split; [apply H3; lia|apply H2; by vm_compute].
Defined.

(** The heap really is in use: the ids in array order and the sorted drain. *)
Lemma three_runs :
  (λ i, (λ s, sid s) <$> node three i) <$> [0; 1; 2] = [Ok 10; Ok 30; Ok 20] ∧
  drain 3 three = Ok [(10, "b"); (20, "c"); (30, "a")].
Proof. by vm_compute. Qed.

(** [popHeap] clears the [flag] of the head of the list, not of the student it
    removes: student "c" is still in the heap but marked as deleted. *)
Lemma popHeap_flags_head :
  match popHeap three with
  | Ok h => lsize h = 2 ∧ ((λ s, (ident s, flag s)) <$> node h 0) = Ok ((20, "c"), 0)
  | Err _ => False
  end.
Proof. by vm_compute. Qed.

(** The last line of [main]. *)
Lemma main_finds_stu3 :
  match main raw with Ok out => drop (length out - 5)%nat out = [TStr "The stu3 is in the index "; TInt 4; TStr "\n"; rule; TStr "\n"] | Err _ => False end.
Proof. by vm_compute. Qed.
