(* ===== verification/Console.v ===== *)
(** * console.c: serial port, printer, screen and keyboard

    Models src/Labweek11/lab2/kern/driver/console.c with picirq.c and the
    constants of kbdreg.h.  The hardware behind [inb] and [outb] is the type
    class [PortIO]: the code only calls it, so every theorem holds for every
    device, or for those with the laws it names.  The console state holds the
    static variables of both files and the interrupt flag of sync.h. *)

From stdpp Require Import base list numbers.
From S2P Require Import Prelude.

(** [inb] and [outb]: what a port answers, and the new state of the devices. *)
Class PortIO (D : Type) := {
  port_in : Z → D → Z * D;
  port_out : Z → Z → D → D
}.

Record console (D : Type) := Console {
  dev : D;
  irq_mask : Z;
  did_init : bool;
  crt_buf : list Z;
  crt_pos : Z;
  addr_6845 : Z;
  serial_exists : bool;
  cons_buf : list Z;
  rpos : Z;
  wpos : Z;
  shift : Z;
  intr_flag : bool
}.
Arguments Console {D}.
Arguments dev {D}.
Arguments irq_mask {D}.
Arguments did_init {D}.
Arguments crt_buf {D}.
Arguments crt_pos {D}.
Arguments addr_6845 {D}.
Arguments serial_exists {D}.
Arguments cons_buf {D}.
Arguments rpos {D}.
Arguments wpos {D}.
Arguments shift {D}.
Arguments intr_flag {D}.

(** ** Constants *)

Definition COM1 : Z := 0x3F8.
Definition COM_RX : Z := 0.
Definition COM_TX : Z := 0.
Definition COM_DLL : Z := 0.
Definition COM_DLM : Z := 1.
Definition COM_IER : Z := 1.
Definition COM_IER_RDI : Z := 1.
Definition COM_IIR : Z := 2.
Definition COM_FCR : Z := 2.
Definition COM_LCR : Z := 3.
Definition COM_LCR_DLAB : Z := 0x80.
Definition COM_LCR_WLEN8 : Z := 3.
Definition COM_MCR : Z := 4.
Definition COM_LSR : Z := 5.
Definition COM_LSR_DATA : Z := 1.
Definition COM_LSR_TXRDY : Z := 0x20.
Definition MONO_BASE : Z := 0x3B4.
Definition CGA_BASE : Z := 0x3D4.
Definition CRT_ROWS : Z := 25.
Definition CRT_COLS : Z := 80.
Definition CRT_SIZE : Z := CRT_ROWS * CRT_COLS.
Definition LPTPORT : Z := 0x378.
Definition CONSBUFSIZE : Z := 512.
Definition KBSTATP : Z := 0x64.
Definition KBS_DIB : Z := 1.
Definition KBDATAP : Z := 0x60.
Definition NO : Z := 0.
Definition SHIFT : Z := 1.
Definition CTL : Z := 2.
Definition ALT : Z := 4.
Definition CAPSLOCK : Z := 8.
Definition NUMLOCK : Z := 16.
Definition SCROLLLOCK : Z := 32.
Definition E0ESC : Z := 64.
Definition KEY_HOME : Z := 0xE0.
Definition KEY_END : Z := 0xE1.
Definition KEY_UP : Z := 0xE2.
Definition KEY_DN : Z := 0xE3.
Definition KEY_LF : Z := 0xE4.
Definition KEY_RT : Z := 0xE5.
Definition KEY_PGUP : Z := 0xE6.
Definition KEY_PGDN : Z := 0xE7.
Definition KEY_INS : Z := 0xE8.
Definition KEY_DEL : Z := 0xE9.
Definition IO_PIC1 : Z := 0x20.
Definition IO_PIC2 : Z := 0xA0.
Definition IRQ_SLAVE : Z := 2.
Definition IRQ_OFFSET : Z := 32.
Definition IRQ_KBD : Z := 1.
Definition IRQ_COM1 : Z := 4.

Definition u8 (z : Z) : Z := z mod 2 ^ 8.
Definition u16 (z : Z) : Z := z mod 2 ^ 16.

(** ** Keyboard tables

    A table of 256 bytes: the listed values, then the designated ones. *)

Definition table256 (l : list Z) (ds : list (Z * Z)) : list Z :=
  foldl (λ t d, <[Z.to_nat d.1 := d.2]> t) (l ++ replicate (256 - length l) 0) ds.

Definition shiftcode : list Z :=
  table256 [] [(0x1D, CTL); (0x2A, SHIFT); (0x36, SHIFT); (0x38, ALT); (0x9D, CTL); (0xB8, ALT)].

Definition togglecode : list Z := table256 [] [(0x3A, CAPSLOCK); (0x45, NUMLOCK); (0x46, SCROLLLOCK)].

(** The keys behind the escape code 0xE0 in [normalmap] and [shiftmap]. *)
Definition extended : list (Z * Z) :=
  [(0xC7, KEY_HOME); (0x9C, 10); (0xB5, 47); (0xC8, KEY_UP); (0xC9, KEY_PGUP); (0xCB, KEY_LF);
   (0xCD, KEY_RT); (0xCF, KEY_END); (0xD0, KEY_DN); (0xD1, KEY_PGDN); (0xD2, KEY_INS); (0xD3, KEY_DEL)].

Definition normalmap : list Z := table256
  [NO; 0x1B; 49; 50; 51; 52; 53; 54; 55; 56; 57; 48; 45; 61; 8; 9;
   113; 119; 101; 114; 116; 121; 117; 105; 111; 112; 91; 93; 10; NO; 97; 115;
   100; 102; 103; 104; 106; 107; 108; 59; 39; 96; NO; 92; 122; 120; 99; 118;
   98; 110; 109; 44; 46; 47; NO; 42; NO; 32; NO; NO; NO; NO; NO; NO;
   NO; NO; NO; NO; NO; NO; NO; 55; 56; 57; 45; 52; 53; 54; 43; 49;
   50; 51; 48; 46; NO; NO; NO; NO] extended.

Definition shiftmap : list Z := table256
  [NO; 27; 33; 64; 35; 36; 37; 94; 38; 42; 40; 41; 95; 43; 8; 9;
   81; 87; 69; 82; 84; 89; 85; 73; 79; 80; 123; 125; 10; NO; 65; 83;
   68; 70; 71; 72; 74; 75; 76; 58; 34; 126; NO; 124; 90; 88; 67; 86;
   66; 78; 77; 60; 62; 63; NO; 42; NO; 32; NO; NO; NO; NO; NO; NO;
   NO; NO; NO; NO; NO; NO; NO; 55; 56; 57; 45; 52; 53; 54; 43; 49;
   50; 51; 48; 46; NO; NO; NO; NO] extended.

(** [C(x)], stored in a byte *)
Definition C (x : Z) : Z := u8 (x - 64).

Definition ctlmap : list Z := table256
  [NO; NO; NO; NO; NO; NO; NO; NO; NO; NO; NO; NO; NO; NO; NO; NO;
   C 81; C 87; C 69; C 82; C 84; C 89; C 85; C 73; C 79; C 80; NO; NO; 13; NO; C 65; C 83;
   C 68; C 70; C 71; C 72; C 74; C 75; C 76; NO; NO; NO; NO; C 92; C 90; C 88; C 67; C 86;
   C 66; C 78; C 77; NO; NO; C 47; NO; NO]
  [(0x97, KEY_HOME); (0xB5, C 47); (0xC8, KEY_UP); (0xC9, KEY_PGUP); (0xCB, KEY_LF);
   (0xCD, KEY_RT); (0xCF, KEY_END); (0xD0, KEY_DN); (0xD1, KEY_PGDN); (0xD2, KEY_INS); (0xD3, KEY_DEL)].

Definition charcode : list (list Z) := [normalmap; shiftmap; ctlmap; ctlmap].

Section console.
Context {D : Type} `{PortIO D}.

Definition set_dev (d : D) (s : console D) : console D :=
  Console d (irq_mask s) (did_init s) (crt_buf s) (crt_pos s) (addr_6845 s) (serial_exists s) (cons_buf s) (rpos s)
    (wpos s) (shift s) (intr_flag s).
Definition set_pic (m : Z) (b : bool) (s : console D) : console D :=
  Console (dev s) m b (crt_buf s) (crt_pos s) (addr_6845 s) (serial_exists s) (cons_buf s) (rpos s) (wpos s) (shift s)
    (intr_flag s).
Definition set_crt (b : list Z) (p : Z) (s : console D) : console D :=
  Console (dev s) (irq_mask s) (did_init s) b p (addr_6845 s) (serial_exists s) (cons_buf s) (rpos s) (wpos s) (shift s)
    (intr_flag s).
Definition set_addr (a : Z) (s : console D) : console D :=
  Console (dev s) (irq_mask s) (did_init s) (crt_buf s) (crt_pos s) a (serial_exists s) (cons_buf s) (rpos s) (wpos s)
    (shift s) (intr_flag s).
Definition set_serial (b : bool) (s : console D) : console D :=
  Console (dev s) (irq_mask s) (did_init s) (crt_buf s) (crt_pos s) (addr_6845 s) b (cons_buf s) (rpos s) (wpos s)
    (shift s) (intr_flag s).
Definition set_cons (b : list Z) (r w : Z) (s : console D) : console D :=
  Console (dev s) (irq_mask s) (did_init s) (crt_buf s) (crt_pos s) (addr_6845 s) (serial_exists s) b r w (shift s)
    (intr_flag s).
Definition set_shift (h : Z) (s : console D) : console D :=
  Console (dev s) (irq_mask s) (did_init s) (crt_buf s) (crt_pos s) (addr_6845 s) (serial_exists s) (cons_buf s) (rpos s)
    (wpos s) h (intr_flag s).
Definition set_intr (b : bool) (s : console D) : console D :=
  Console (dev s) (irq_mask s) (did_init s) (crt_buf s) (crt_pos s) (addr_6845 s) (serial_exists s) (cons_buf s) (rpos s)
    (wpos s) (shift s) b.

(** ** Ports *)

Definition inb (port : Z) (s : console D) : Z * console D :=
  let '(v, d) := port_in (u16 port) (dev s) in (u8 v, set_dev d s).
Definition outb (port data : Z) (s : console D) : console D :=
  set_dev (port_out (u16 port) (u8 data) (dev s)) s.

Definition delay (s : console D) : console D :=
  (inb 0x84 (inb 0x84 (inb 0x84 (inb 0x84 s).2).2).2).2.

(** [for (i = 0; !(inb(port) & mask) && i < n; i ++) delay();] *)
Fixpoint wait_port (n : nat) (port mask : Z) (s : console D) : console D :=
  let '(v, s) := inb port s in
  if negb (Z.land v mask =? 0) then s
  else match n with O => s | S n => wait_port n port mask (delay s) end.

(** ** picirq.c *)

Definition pic_setmask (mask : Z) (s : console D) : console D :=
  let s := set_pic (u16 mask) (did_init s) s in
  if did_init s then outb (IO_PIC2 + 1) (Z.shiftr (u16 mask) 8) (outb (IO_PIC1 + 1) (u16 mask) s) else s.

Definition pic_enable (irq : Z) (s : console D) : console D :=
  pic_setmask (Z.ldiff (irq_mask s) (Z.shiftl 1 irq)) s.

Definition pic_init (s : console D) : console D :=
  let s := set_pic (irq_mask s) true s in
  let s := outb (IO_PIC1 + 1) 0xFF s in
  let s := outb (IO_PIC2 + 1) 0xFF s in
  let s := outb IO_PIC1 0x11 s in
  let s := outb (IO_PIC1 + 1) IRQ_OFFSET s in
  let s := outb (IO_PIC1 + 1) (Z.shiftl 1 IRQ_SLAVE) s in
  let s := outb (IO_PIC1 + 1) 0x3 s in
  let s := outb IO_PIC2 0x11 s in
  let s := outb (IO_PIC2 + 1) (IRQ_OFFSET + 8) s in
  let s := outb (IO_PIC2 + 1) IRQ_SLAVE s in
  let s := outb (IO_PIC2 + 1) 0x3 s in
  let s := outb IO_PIC1 0x68 s in
  let s := outb IO_PIC1 0x0a s in
  let s := outb IO_PIC2 0x68 s in
  let s := outb IO_PIC2 0x0a s in
  if negb (irq_mask s =? 0xFFFF) then pic_setmask (irq_mask s) s else s.

(** ** Initialisation of screen and serial port

    [vread w] is what the first cell of the colour adapter holds after [w] has
    been written to it; [screen] is the text memory of the adapter found. *)
Definition cga_init (vread : Z → Z) (screen : Z → list Z) (s : console D) : console D :=
  let base := if negb (vread 0xA55A =? 0xA55A) then MONO_BASE else CGA_BASE in
  let s := set_addr base s in
  let s := outb base 14 s in
  let '(hi, s) := inb (base + 1) s in
  let s := outb base 15 s in
  let '(lo, s) := inb (base + 1) s in
  set_crt (screen base) (u16 (Z.lor (Z.shiftl hi 8) lo)) s.

Definition serial_init (s : console D) : console D :=
  let s := outb (COM1 + COM_FCR) 0 s in
  let s := outb (COM1 + COM_LCR) COM_LCR_DLAB s in
  let s := outb (COM1 + COM_DLL) (Z.quot 115200 9600) s in
  let s := outb (COM1 + COM_DLM) 0 s in
  let s := outb (COM1 + COM_LCR) (Z.ldiff COM_LCR_WLEN8 COM_LCR_DLAB) s in
  let s := outb (COM1 + COM_MCR) 0 s in
  let s := outb (COM1 + COM_IER) COM_IER_RDI s in
  let '(v, s) := inb (COM1 + COM_LSR) s in
  let s := set_serial (negb (v =? 0xFF)) s in
  let '(_, s) := inb (COM1 + COM_IIR) s in
  let '(_, s) := inb (COM1 + COM_RX) s in
  if serial_exists s then pic_enable IRQ_COM1 s else s.

(** ** Output *)

Definition lpt_putc_sub (c : Z) (s : console D) : console D :=
  let s := wait_port 12800 (LPTPORT + 1) 0x80 s in
  let s := outb (LPTPORT + 0) c s in
  let s := outb (LPTPORT + 2) (Z.lor (Z.lor 0x08 0x04) 0x01) s in
  outb (LPTPORT + 2) 0x08 s.

Definition lpt_putc (c : Z) (s : console D) : console D :=
  if negb (c =? 8) then lpt_putc_sub c s
  else lpt_putc_sub 8 (lpt_putc_sub 32 (lpt_putc_sub 8 s)).

(** The [memmove] of the cells and the loop that clears the last row. *)
Definition scroll (buf : list Z) : outcome (list Z) :=
  let n := Z.to_nat (CRT_SIZE - CRT_COLS) in
  if zlen buf <? CRT_SIZE then Err Undef
  else
    let moved := take n (drop (Z.to_nat CRT_COLS) buf) ++ drop n buf in
    for_range (CRT_SIZE - CRT_COLS) CRT_SIZE (λ i b, aset b i (Z.lor 0x0700 32)) moved.

(** The character and its attribute; a cell is 16 bits. *)
Definition cga_write (c : Z) (s : console D) : outcome (console D) :=
  let b := Z.land c 0xff in
  if b =? 8 then
    if 0 <? crt_pos s then
      let p := crt_pos s - 1 in
      buf ← aset (crt_buf s) p (u16 (Z.lor (Z.ldiff c 0xff) 32)); Ok (set_crt buf p s)
    else Ok s
  else if (b =? 10) || (b =? 13) then
    let p := if b =? 10 then u16 (crt_pos s + CRT_COLS) else crt_pos s in
    Ok (set_crt (crt_buf s) (u16 (p - p mod CRT_COLS)) s)
  else
    buf ← aset (crt_buf s) (crt_pos s) (u16 c); Ok (set_crt buf (u16 (crt_pos s + 1)) s).

Definition cga_putc (c : Z) (s : console D) : outcome (console D) :=
  let c := if Z.ldiff c 0xFF =? 0 then Z.lor c 0x0700 else c in
  s ← cga_write c s;
  s ← (if CRT_SIZE <=? crt_pos s then
         buf ← scroll (crt_buf s); Ok (set_crt buf (u16 (crt_pos s - CRT_COLS)) s)
       else Ok s);
  let s := outb (addr_6845 s) 14 s in
  let s := outb (addr_6845 s + 1) (Z.shiftr (crt_pos s) 8) s in
  let s := outb (addr_6845 s) 15 s in
  Ok (outb (addr_6845 s + 1) (crt_pos s) s).

Definition serial_putc_sub (c : Z) (s : console D) : console D :=
  let s := wait_port 12800 (COM1 + COM_LSR) COM_LSR_TXRDY s in
  outb (COM1 + COM_TX) c s.

Definition serial_putc (c : Z) (s : console D) : console D :=
  if negb (c =? 8) then serial_putc_sub c s
  else serial_putc_sub 8 (serial_putc_sub 32 (serial_putc_sub 8 s)).

Definition intr_save (s : console D) : bool * console D :=
  if intr_flag s then (true, set_intr false s) else (false, s).
Definition intr_restore (f : bool) (s : console D) : console D := if f then set_intr true s else s.

Definition cons_putc (c : Z) (s : console D) : outcome (console D) :=
  let '(f, s) := intr_save s in
  let s := lpt_putc c s in
  s ← cga_putc c s;
  let s := serial_putc c s in
  Ok (intr_restore f s).

(** [cprintf] of a text without directives. *)
Definition cons_text (l : list Z) (s : console D) : outcome (console D) := mfold cons_putc l s.

(** ** Input *)

(** One character into the circular buffer. *)
Definition cons_put (c : Z) (s : console D) : outcome (console D) :=
  buf ← aset (cons_buf s) (wpos s) (u8 c);
  let w := u32 (wpos s + 1) in
  Ok (set_cons buf (rpos s) (if w =? CONSBUFSIZE then 0 else w) s).

(** The loop runs until [proc] has no data: at most [fuel - 1] times. *)
Definition cons_intr (fuel : nat) (proc : console D → outcome (Z * console D)) (s : console D) :
    outcome (console D) :=
  loop fuel
    (λ s, r ← proc s;
       let '(c, s) := r in
       if c =? -1 then Ok (inr s)
       else s ← (if negb (c =? 0) then cons_put c s else Ok s); Ok (inl s)) s.

Definition serial_proc_data (s : console D) : outcome (Z * console D) :=
  let '(v, s) := inb (COM1 + COM_LSR) s in
  if Z.land v COM_LSR_DATA =? 0 then Ok (-1, s)
  else
    let '(c, s) := inb (COM1 + COM_RX) s in
    Ok (if c =? 127 then 8 else c, s).

Definition serial_intr (fuel : nat) (s : console D) : outcome (console D) :=
  if serial_exists s then cons_intr fuel serial_proc_data s else Ok s.

(** [~shift & m == 0]: all bits of [m] are set. *)
Definition all_set (shift m : Z) : bool := Z.land shift m =? m.

(** "Rebooting!" and the line end *)
Definition rebooting : list Z := [82; 101; 98; 111; 111; 116; 105; 110; 103; 33; 10].

Definition swap_case (c : Z) : Z :=
  if (97 <=? c) && (c <=? 122) then c + (65 - 97)
  else if (65 <=? c) && (c <=? 90) then c + (97 - 65) else c.

(** A code that presses a key: [data] with bit 7 for an escaped one. *)
Definition kbd_press (data : Z) (s : console D) : outcome (Z * console D) :=
  sc ← shiftcode.[data]; tc ← togglecode.[data];
  let s := set_shift (Z.lxor (Z.lor (shift s) sc) tc) s in
  map ← charcode.[Z.land (shift s) (Z.lor CTL SHIFT)];
  c ← map.[data];
  let c := if Z.land (shift s) CAPSLOCK =? 0 then c else swap_case c in
  s ← (if all_set (shift s) (Z.lor CTL ALT) && (c =? KEY_DEL) then
         s ← cons_text rebooting s; Ok (outb 0x92 0x3 s)
       else Ok s);
  Ok (c, s).

Definition kbd_proc_data (s : console D) : outcome (Z * console D) :=
  let '(v, s) := inb KBSTATP s in
  if Z.land v KBS_DIB =? 0 then Ok (-1, s)
  else
    let '(data, s) := inb KBDATAP s in
    if data =? 0xE0 then Ok (0, set_shift (Z.lor (shift s) E0ESC) s)
    else if negb (Z.land data 0x80 =? 0) then
      let data := if negb (Z.land (shift s) E0ESC =? 0) then data else Z.land data 0x7F in
      sc ← shiftcode.[data];
      Ok (0, set_shift (Z.ldiff (shift s) (Z.lor sc E0ESC)) s)
    else if negb (Z.land (shift s) E0ESC =? 0) then
      kbd_press (Z.lor data 0x80) (set_shift (Z.ldiff (shift s) E0ESC) s)
    else kbd_press data s.

Definition kbd_intr (fuel : nat) (s : console D) : outcome (console D) := cons_intr fuel kbd_proc_data s.

Definition kbd_init (fuel : nat) (s : console D) : outcome (console D) :=
  s ← kbd_intr fuel s; Ok (pic_enable IRQ_KBD s).

(** "serial port does not exist!!" and the line end *)
Definition no_serial : list Z :=
  [115; 101; 114; 105; 97; 108; 32; 112; 111; 114; 116; 32; 100; 111; 101; 115; 32; 110; 111; 116; 32; 101; 120; 105;
   115; 116; 33; 33; 10].

Definition cons_init (fuel : nat) (vread : Z → Z) (screen : Z → list Z) (s : console D) : outcome (console D) :=
  let s := cga_init vread screen s in
  let s := serial_init s in
  s ← kbd_init fuel s;
  if negb (serial_exists s) then cons_text no_serial s else Ok s.

Definition cons_getc (fuel : nat) (s : console D) : outcome (Z * console D) :=
  let '(f, s) := intr_save s in
  s ← serial_intr fuel s;
  s ← kbd_intr fuel s;
  r ← (if negb (rpos s =? wpos s) then
         c ← (cons_buf s).[rpos s];
         let r := u32 (rpos s + 1) in
         Ok (c, set_cons (cons_buf s) (if r =? CONSBUFSIZE then 0 else r) (wpos s) s)
       else Ok (0, s));
  Ok (r.1, intr_restore f r.2).
End console.
