(* ===== verification/Stdio.v ===== *)
(** * stdio.c and readline.c: formatted output and line input on the console

    Models src/Labweek11/lab2/kern/libs/stdio.c and readline.c on top of
    console.c and printfmt.c.  [cprintf] runs the model of [vprintfmt] with
    [cputch] as its callback; the state of the callback is the console and the
    counter.  The static buffer of readline.c is an array of its own. *)

From stdpp Require Import base list numbers.
From S2P Require Import Prelude Mem CString Printfmt Console.

Definition BUFSIZE : Z := 1024.

Section stdio.
Context {D : Type} `{PortIO D} (lits : literals).

Definition cputch (c : Z) (s : mem * (console D * Z)) : outcome (mem * (console D * Z)) :=
  con ← cons_putc c s.2.1; n ← cint (s.2.2 + 1); Ok (s.1, (con, n)).

Definition vcprintf (fmt : Z) (ap : list Z) (s : mem * console D) : outcome (Z * (mem * console D)) :=
  r ← vprintfmt cputch lits fmt ap (s.1, (s.2, 0)); Ok (r.2.2, (r.1, r.2.1)).

Definition cprintf (fmt : Z) (args : list Z) (s : mem * console D) : outcome (Z * (mem * console D)) :=
  vcprintf fmt args s.

Definition cputchar (c : Z) (s : console D) : outcome (console D) := cons_putc c s.

Definition cputs (str : Z) (s : mem * console D) : outcome (Z * (mem * console D)) :=
  r ← loop (fuel_of s.1)
    (λ '(str, s), b ← ldb s.1 str;
       let c := schar b in
       if c =? 0 then Ok (inr s)
       else s ← cputch c s; Ok (inl (str + 1, s))) (str, (s.1, (s.2, 0)));
  r ← cputch 10 r;
  Ok (r.2.2, (r.1, r.2.1)).

(** [while ((c = cons_getc()) == 0)]: [spin] polls without a character; each
    poll takes at most [fuel] characters from a device. *)
Definition getchar (spin fuel : nat) (s : console D) : outcome (Z * console D) :=
  loop spin (λ s, r ← cons_getc fuel s; if r.1 =? 0 then Ok (inl r.2) else Ok (inr r)) s.

(** One iteration of [readline]: the index, the buffer and the console; the
    result is whether [buf] is returned (or NULL). *)
Definition readline_step (spin fuel : nat) (st : Z * list Z * console D) :
    outcome (Z * list Z * console D + bool * list Z * console D) :=
  let '(i, buf, s) := st in
  r ← getchar spin fuel s;
  let '(c, s) := r in
  if c <? 0 then Ok (inr (false, buf, s))
  else if (32 <=? c) && (i <? BUFSIZE - 1) then
    s ← cputchar c s; buf ← aset buf i (u8 c); Ok (inl (i + 1, buf, s))
  else if (c =? 8) && (0 <? i) then
    s ← cputchar c s; Ok (inl (i - 1, buf, s))
  else if (c =? 10) || (c =? 13) then
    s ← cputchar c s; buf ← aset buf i 0; Ok (inr (true, buf, s))
  else Ok (inl (i, buf, s)).

(** The prompt is printed with the format "%s" at address [pct_s]; [chars]
    bounds the characters read. *)
Definition readline (spin fuel chars : nat) (pct_s prompt : Z) (buf : list Z) (s : mem * console D) :
    outcome (bool * list Z * (mem * console D)) :=
  s ← (if negb (prompt =? NULL) then r ← cprintf pct_s [prompt] s; Ok r.2 else Ok s);
  r ← loop chars (readline_step spin fuel) (0, buf, s.2);
  Ok (r.1.1, r.1.2, (s.1, r.2)).
End stdio.
