(* ===== verification/ConsoleOut.v ===== *)
(** * The screen of console.c is a terminal of 25 lines

    Specification of the output half of Console.v.  The colour adapter's
    memory, a linear array of 2000 cells with a cursor position, represents a
    terminal: lines of 80 cells, a row and a column.  [cga_putc] implements the
    terminal, its scrolling included, and the other ports written on the way
    have no effect on it; [cons_putc] never fails. *)

From stdpp Require Import base list numbers.
From S2P Require Import Prelude Console.

(** ** The terminal *)

Record term := Term { rows : list (list Z); row : nat; col : nat }.

Definition blank : Z := 0x0720.
Definition height : nat := 25.
Definition width : nat := 80.

(** Behind the last line the terminal scrolls: the top line is lost. *)
Definition settle (t : term) : term :=
  if decide (row t < height)%nat then t
  else Term (tail (rows t) ++ [replicate width blank]) (pred (row t)) (col t).

Definition next_line (t : term) : term := settle (Term (rows t) (S (row t)) 0).

Definition write_cell (x : Z) (i j : nat) (t : term) : list (list Z) := alter (<[j := x]>) i (rows t).

(** A character without an attribute is white on black. *)
Definition coloured (c : Z) : Z := if bool_decide (0 ≤ c < 256) then 0x0700 + c else c.
Definition erased (c : Z) : Z := 256 * (coloured c / 256 mod 256) + 32.

Definition term_put (c : Z) (t : term) : term :=
  let b := c mod 256 in
  if decide (b = 8) then
    match row t, col t with
    | O, O => t
    | S i, O => Term (write_cell (erased c) i (width - 1) t) i (width - 1)
    | i, S j => Term (write_cell (erased c) i j t) i j
    end
  else if decide (b = 10) then next_line t
  else if decide (b = 13) then Term (rows t) (row t) 0
  else
    let t' := Term (write_cell (coloured c mod 2 ^ 16) (row t) (col t) t) (row t) (S (col t)) in
    if decide (col t' < width)%nat then t' else next_line t'.

Definition term_text (l : list Z) (t : term) : term := foldl (λ t c, term_put c t) t l.

(** Memory [b] and position [p] of a terminal whose row is below [h]. *)
Record drawn (h : nat) (b : list Z) (p : Z) (t : term) : Prop := {
  drawn_rows : length (rows t) = height;
  drawn_width : Forall (λ r, length r = width) (rows t);
  drawn_row : (row t < h)%nat;
  drawn_col : (col t < width)%nat;
  drawn_buf : b = mjoin (rows t);
  drawn_pos : p = Z.of_nat (width * row t + col t)
}.

(** What the console holds when its screen shows [t]. *)
Definition shows {D} (s : console D) (t : term) : Prop :=
  drawn height (crt_buf s) (crt_pos s) t ∧ (addr_6845 s = MONO_BASE ∨ addr_6845 s = CGA_BASE).

(** ** Arithmetic of cells *)

Lemma ldiff_byte c : Z.ldiff c 0xff = 256 * (c / 256).
Proof.
  change 0xff with (Z.ones 8). rewrite Z.ldiff_ones_r, Z.shiftl_mul_pow2, Z.shiftr_div_pow2 by lia. apply Z.mul_comm.
Qed.

Lemma land_byte c : Z.land c 0xff = c mod 256.
Proof. change 0xff with (Z.ones 8). by rewrite Z.land_ones. Qed.

Lemma small_byte c : Z.ldiff c 0xff = 0 ↔ 0 ≤ c < 256.
Proof. rewrite ldiff_byte. pose proof (Z.div_mod c 256). pose proof (Z.mod_pos_bound c 256). lia. Qed.

(** Bits above and below 8 do not meet. *)
Lemma lor_cell hi lo : 0 ≤ lo < 256 → Z.lor (256 * hi) lo = 256 * hi + lo.
Proof.
  intros Hlo. rewrite <-Z.lxor_lor, Z.add_nocarry_lxor; [done| |].
  all: apply Z.bits_inj'; intros k Hk; rewrite Z.land_spec, Z.bits_0;
    replace (256 * hi) with (hi * 2 ^ 8) by lia; destruct (decide (k < 8)) as [H8|H8];
    [by rewrite Z.mul_pow2_bits_low|
     rewrite <-(Z.mod_small lo (2 ^ 8)), Z.mod_pow2_bits_high by lia; apply andb_false_r].
Qed.

Lemma coloured_code c : (if Z.ldiff c 0xFF =? 0 then Z.lor c 0x0700 else c) = coloured c.
Proof.
  unfold coloured. destruct (Z.eqb_spec (Z.ldiff c 0xFF) 0) as [E|E]; rewrite small_byte in E.
  - rewrite bool_decide_eq_true_2, Z.lor_comm by done. by apply (lor_cell 7).
  - by rewrite bool_decide_eq_false_2.
Qed.

Lemma coloured_low c : coloured c mod 256 = c mod 256.
Proof.
  unfold coloured. case_bool_decide; [|done]. replace (0x700 + c) with (c + 7 * 256) by lia. by rewrite Z.mod_add.
Qed.

Lemma erased_code c : u16 (Z.lor (Z.ldiff (coloured c) 0xff) 32) = erased c.
Proof.
  rewrite ldiff_byte, lor_cell by lia. unfold u16, erased.
  set (k := coloured c / 256). rewrite (Z.div_mod k 256) at 1 by lia.
  pose proof (Z.mod_pos_bound k 256 ltac:(lia)).
  replace (256 * (256 * (k / 256) + k mod 256) + 32) with (256 * (k mod 256) + 32 + (k / 256) * 2 ^ 16) by lia.
  rewrite Z.mod_add by lia. apply Z.mod_small. lia.
Qed.

(** ** Lines in the linear memory *)

Section lines.
Context (w : nat).
Implicit Types (rs : list (list Z)).

Lemma length_lines rs : Forall (λ r, length r = w) rs → length (mjoin rs) = (w * length rs)%nat.
Proof. induction 1 as [|r rs Hr _ IH]; simpl; [lia|]. rewrite length_app. lia. Qed.

Lemma alter_lines rs i j x :
  Forall (λ r, length r = w) rs → (i < length rs)%nat → (j < w)%nat →
  mjoin (alter (<[j:=x]>) i rs) = <[(w * i + j)%nat := x]> (mjoin rs).
Proof.
  intros Hrs. revert i. induction Hrs as [|r rs Hr _ IH]; intros i Hi Hj; simpl in Hi; [lia|].
  destruct i as [|i]; simpl.
  - rewrite insert_app_l by lia. by rewrite Nat.mul_0_r.
  - change (list_alter (<[j:=x]>) i rs) with (alter (<[j:=x]>) i rs).
    rewrite IH by lia. rewrite insert_app_r_alt by lia. do 2 f_equal. lia.
Qed.

Lemma wf_alter rs i j x :
  Forall (λ r, length r = w) rs → Forall (λ r, length r = w) (alter (<[j:=x]>) i rs).
Proof.
  intros Hrs. apply Forall_alter; [done|]. intros r _ Hr. by rewrite length_insert.
Qed.
End lines.

(** The loop that stores the same value in the cells from [lo] to [hi]. *)
Lemma fill_range (l k : list Z) lo hi x :
  zlen l = lo → zlen k = hi - lo →
  for_range lo hi (λ i b, aset b i x) (l ++ k) = Ok (l ++ replicate (length k) x).
Proof.
  intros Hl Hk. subst lo.
  destruct (for_range_spec (λ i b, b = l ++ replicate (Z.to_nat (i - zlen l)) x ++ drop (Z.to_nat (i - zlen l)) k)
    (λ i b, aset b i x) (zlen l) hi (l ++ k)) as (b & Hb & Hfin).
  - unfold zlen in *. lia.
  - by rewrite Z.sub_diag.
  - intros i b Hi ->. set (n := Z.to_nat (i - zlen l)).
    destruct (drop n k) as [|y k'] eqn:Hd.
    { apply (f_equal length) in Hd. rewrite length_drop in Hd. simpl in Hd. unfold zlen in *. lia. }
    rewrite aset_Ok by (rewrite !zlen_app; unfold zlen in *; rewrite length_replicate; simpl; lia).
    eexists. split; [done|].
    replace (Z.to_nat i) with (length l + (n + 0))%nat by (unfold n, zlen in *; lia).
    rewrite insert_app_r. f_equal.
    rewrite <-(length_replicate n x) at 1. rewrite insert_app_r. simpl.
    replace (Z.to_nat (i + 1 - zlen l)) with (S n) by (unfold n; lia).
    rewrite replicate_S_end, <-(assoc_L (++)). simpl. do 2 f_equal.
    replace (S n) with (n + 1)%nat by lia. by rewrite <-drop_drop, Hd.
  - rewrite Hb, Hfin. do 3 f_equal.
    rewrite <-Hk. unfold zlen. rewrite Nat2Z.id, drop_all. by rewrite app_nil_r.
Qed.

Lemma scroll_lines r rs :
  length r = width → length rs = (height - 1)%nat → Forall (λ r, length r = width) rs →
  scroll (mjoin (r :: rs)) = Ok (mjoin (rs ++ [replicate width blank])).
Proof.
  intros Hr Hn Hrs. unfold scroll.
  assert (Hjoin : length (mjoin rs) = 1920%nat) by (rewrite (length_lines width), Hn by done; done).
  change (Z.to_nat (CRT_SIZE - CRT_COLS)) with 1920%nat. change (Z.to_nat CRT_COLS) with width.
  change CRT_SIZE with 2000. change (2000 - CRT_COLS) with 1920.
  assert (Hlen : length (mjoin (r :: rs)) = 2000%nat) by (simpl; rewrite length_app, Hr, Hjoin; done).
  destruct (Z.ltb_spec (zlen (mjoin (r :: rs))) 2000) as [Hlt|_]; [unfold zlen in Hlt; lia|].
  replace (drop width (mjoin (r :: rs))) with (mjoin rs) by (simpl; rewrite <-Hr; by rewrite drop_app_length).
  rewrite take_ge, join_app by lia.
  change (mjoin [replicate width blank]) with (replicate width blank ++ []). rewrite app_nil_r.
  rewrite fill_range; [|unfold zlen; lia|unfold zlen; rewrite length_drop, Hlen; done].
  by rewrite length_drop, Hlen.
Qed.

(** ** Drawing *)

Lemma drawn_set h b p t i j x :
  drawn h b p t → (i < height)%nat → (j < width)%nat →
  aset b (Z.of_nat (width * i + j)) x = Ok (mjoin (write_cell x i j t)).
Proof.
  intros [Hn Hw _ _ -> _] Hi Hj. rewrite aset_Ok.
  - rewrite Nat2Z.id. unfold write_cell. by rewrite (alter_lines width) by (rewrite ?Hn; done).
  - unfold zlen. rewrite (length_lines width), Hn by done. unfold height, width in *. lia.
Qed.

Lemma drawn_write h h' b p t i j x r c :
  drawn h' b p t → (r < h)%nat → (c < width)%nat →
  drawn h (mjoin (write_cell x i j t)) (Z.of_nat (width * r + c)) (Term (write_cell x i j t) r c).
Proof.
  intros [Hn Hw _ _ _ _] Hr Hc. split; simpl; try done.
  - unfold write_cell. by rewrite length_alter.
  - by apply wf_alter.
Qed.

Lemma drawn_move h h' b p t r c :
  drawn h b p t → (r < h')%nat → (c < width)%nat →
  drawn h' b (Z.of_nat (width * r + c)) (Term (rows t) r c).
Proof. by intros [Hn Hw _ _ Hb _] Hr Hc. Qed.

Lemma drawn_settle b p t :
  drawn (S height) b p t →
  (p < CRT_SIZE ∧ drawn height b p (settle t)) ∨
  (CRT_SIZE ≤ p ∧ ∃ b', scroll b = Ok b' ∧ drawn height b' (u16 (p - CRT_COLS)) (settle t)).
Proof.
  intros [Hn Hw Hr Hc -> ->]. unfold settle. destruct (decide (row t < height)%nat) as [H|H]; [left|right].
  - split; [|done]. unfold CRT_SIZE, CRT_ROWS, CRT_COLS, height, width in *. lia.
  - assert (row t = height) as E by lia. rewrite E. split; [unfold CRT_SIZE, CRT_ROWS, CRT_COLS, height, width; lia|].
    destruct (rows t) as [|r rs] eqn:Hrows; [done|]. apply Forall_cons in Hw as [Hr0 Hrs].
    eexists. split; [apply scroll_lines; [done|simpl in Hn; lia|done]|].
    split; cbn [rows row col tail]; try done.
    + rewrite length_app. cbn [length] in *. lia.
    + apply Forall_app. split; [done|]. by repeat constructor.
    + unfold height. lia.
    + unfold u16, CRT_COLS, height, width in *. rewrite Z.mod_small; lia.
Qed.

(** What [cga_write] draws, before the scrolling. *)
Definition put_loose (c : Z) (t : term) : term :=
  let b := c mod 256 in
  if decide (b = 8) then
    match row t, col t with
    | O, O => t
    | S i, O => Term (write_cell (erased c) i (width - 1) t) i (width - 1)
    | i, S j => Term (write_cell (erased c) i j t) i j
    end
  else if decide (b = 10) then Term (rows t) (S (row t)) 0
  else if decide (b = 13) then Term (rows t) (row t) 0
  else
    let ls := write_cell (coloured c mod 2 ^ 16) (row t) (col t) t in
    if decide (S (col t) < width)%nat then Term ls (row t) (S (col t)) else Term ls (S (row t)) 0.

Lemma settle_id t : (row t < height)%nat → settle t = t.
Proof. intros H. unfold settle. by rewrite decide_True. Qed.

Lemma put_loose_settle c t : (row t < height)%nat → settle (put_loose c t) = term_put c t.
Proof.
  intros H. unfold put_loose, term_put, next_line. cbn [row col rows].
  repeat case_decide; try done; try (by rewrite settle_id).
  destruct t as [ls [|i] [|j]]; cbn [row col rows] in *; rewrite settle_id; cbn [row]; try done; lia.
Qed.

Lemma set_crt_id {D} (s : console D) : set_crt (crt_buf s) (crt_pos s) s = s.
Proof. by destruct s. Qed.

Lemma drawn_home b p t : drawn height b p t → p = 0 ↔ row t = O ∧ col t = O.
Proof. intros [_ _ _ Hc _ ->]. unfold width in *. lia. Qed.

Lemma pos_wrap r c : (r < S height)%nat → (c < width)%nat → u16 (Z.of_nat (width * r + c)) = Z.of_nat (width * r + c).
Proof. intros Hr Hc. unfold u16, height, width in *. apply Z.mod_small. lia. Qed.

Lemma pos_col r c : (c < width)%nat → Z.of_nat (width * r + c) - Z.of_nat (width * r + c) mod CRT_COLS = Z.of_nat (width * r + 0).
Proof.
  intros Hc. unfold CRT_COLS, width in *.
  replace (Z.of_nat (80 * r + c)) with (Z.of_nat c + Z.of_nat r * 80) at 2 by lia.
  rewrite Z.mod_add, Z.mod_small by lia. lia.
Qed.

(** Back one cell, which is erased. *)
Lemma back_drawn b t x p i j :
  drawn height b p t → p = Z.of_nat (width * i + j) + 1 → (i < height)%nat → (j < width)%nat →
  aset b (p - 1) x = Ok (mjoin (write_cell x i j t)) ∧
  drawn (S height) (mjoin (write_cell x i j t)) (p - 1) (Term (write_cell x i j t) i j).
Proof.
  intros Hd -> Hi Hj. replace (Z.of_nat (width * i + j) + 1 - 1) with (Z.of_nat (width * i + j)) by lia.
  split; [by eapply drawn_set|]. eapply drawn_write; [done|lia|done].
Qed.

Lemma cga_write_drawn {D} (s : console D) c t :
  drawn height (crt_buf s) (crt_pos s) t →
  ∃ b p, cga_write (coloured c) s = Ok (set_crt b p s) ∧ drawn (S height) b p (put_loose c t).
Proof.
  intros Hd. pose proof (drawn_home _ _ _ Hd) as Hhome. pose proof Hd as [_ _ Hr Hc _ Hp].
  unfold cga_write, put_loose. rewrite land_byte, coloured_low, erased_code.
  destruct (decide (c mod 256 = 8)) as [->|H8]; [|destruct (decide (c mod 256 = 10)) as [->|H10]];
    [| |destruct (decide (c mod 256 = 13)) as [->|H13]].
  - change (8 =? 8) with true. cbv iota.
    destruct (row t) as [|i] eqn:Er, (col t) as [|j] eqn:Ec.
    { rewrite (proj2 (Z.ltb_ge _ _)) by lia. exists (crt_buf s), (crt_pos s).
      rewrite set_crt_id. split; [done|]. destruct Hd. split; try done. lia. }
    all: rewrite (proj2 (Z.ltb_lt _ _)) by (unfold width in *; lia).
    all: edestruct (back_drawn (crt_buf s) t (erased c)) as [Hset Hdr]; [exact Hd| | |
      |rewrite Hset; cbn [mbind outcome_bind]; eexists _, _; split; [done|exact Hdr]].
    all: unfold height, width in *; lia.
  - change (10 =? 8) with false. change ((10 =? 10) || (10 =? 13)) with true. change (10 =? 10) with true. cbv iota.
    eexists _, _. split; [done|]. rewrite Hp.
    replace (Z.of_nat (width * row t + col t) + CRT_COLS) with (Z.of_nat (width * S (row t) + col t))
      by (unfold CRT_COLS, width; lia).
    rewrite pos_wrap, pos_col, pos_wrap by (unfold width in *; lia). eapply drawn_move; [done|lia|unfold width; lia].
  - change (13 =? 8) with false. change ((13 =? 10) || (13 =? 13)) with true. change (13 =? 10) with false. cbv iota.
    eexists _, _. split; [done|]. rewrite Hp, pos_col, pos_wrap by (unfold width in *; lia).
    eapply drawn_move; [done|lia|unfold width; lia].
  - rewrite !(proj2 (Z.eqb_neq _ _)) by done. cbn [orb]. rewrite Hp.
    erewrite drawn_set by done. cbn [mbind outcome_bind]. eexists _, _. split; [done|].
    replace (Z.of_nat (width * row t + col t) + 1) with (Z.of_nat (width * row t + S (col t))) by lia.
    destruct (decide (S (col t) < width)%nat) as [Hlt|Hge].
    + rewrite pos_wrap by lia. eapply drawn_write; [done|lia|done].
    + replace (width * row t + S (col t))%nat with (width * S (row t) + 0)%nat by lia.
      rewrite pos_wrap by (unfold width; lia). eapply drawn_write; [done|lia|unfold width; lia].
Qed.

(** ** The devices

    What the output functions do with the devices, for any relation [Q] that
    the ports they use keep: [True] for an arbitrary device, or the equality
    of the input that waits at keyboard and serial port. *)

Definition poll_ports : list Z := [0x84; LPTPORT + 1; COM1 + COM_LSR].
Definition out_ports : list Z :=
  [LPTPORT; LPTPORT + 2; COM1 + COM_TX; MONO_BASE; MONO_BASE + 1; CGA_BASE; CGA_BASE + 1].

Ltac port := apply (bool_decide_unpack _); vm_compute; exact I.

Lemma port_wrap p : p ∈ poll_ports ++ out_ports → u16 p = p.
Proof.
  intros Hp. apply Z.mod_small.
  assert (Forall (λ p, 0 ≤ p < 2 ^ 16) (poll_ports ++ out_ports)) as H by (port).
  by eapply Forall_forall in H.
Qed.

Section output.
Context {D : Type} `{PortIO D}.

(** The cursor of the adapter at [base] is moved to [p]. *)
Definition cursor (base p : Z) (d : D) : D :=
  port_out (base + 1) (p mod 256) (port_out base 15 (port_out (base + 1) (p / 256) (port_out base 14 d))).

Context (Q : D → D → Prop) `{!PreOrder Q}.
Context (Qin : ∀ p d, p ∈ poll_ports → Q d (port_in p d).2).
Context (Qout : ∀ p v d, p ∈ out_ports → Q d (port_out p v d)).
Implicit Types (s : console D).

(** Only the devices change, and [Q] holds of the change. *)
Definition devs (s s' : console D) : Prop := ∃ d, s' = set_dev d s ∧ Q (dev s) d.

#[global] Instance devs_preorder : PreOrder devs.
Proof.
  split.
  - intros s. exists (dev s). split; [by destruct s|done].
  - intros s1 s2 s3 (d & -> & Hd) (d' & -> & Hd'). exists d'. split; [done|]. by etrans.
Qed.

Lemma inb_devs p s : p ∈ poll_ports → devs s (inb p s).2.
Proof.
  intros Hp. unfold inb. rewrite port_wrap by (apply elem_of_app; by left).
  pose proof (Qin p (dev s) Hp) as HQ. destruct (port_in p (dev s)) as [v d]. by exists d.
Qed.

Lemma outb_devs p v s : p ∈ out_ports → devs s (outb p v s).
Proof.
  intros Hp. unfold outb. rewrite port_wrap by (apply elem_of_app; by right).
  eexists. split; [done|by apply Qout].
Qed.

Lemma delay_devs s : devs s (delay s).
Proof. unfold delay. do 4 (etrans; [|apply inb_devs; port]). done. Qed.

Lemma wait_port_devs n p m s : p ∈ poll_ports → devs s (wait_port n p m s).
Proof.
  intros Hp. revert s. induction n as [|n IH]; intros s; simpl;
    pose proof (inb_devs p s Hp) as Hi; destruct (inb p s) as [v s1]; destruct (negb _); try done.
  etrans; [exact Hi|]. etrans; [apply delay_devs|apply IH].
Qed.

Lemma lpt_putc_sub_devs c s : devs s (lpt_putc_sub c s).
Proof.
  unfold lpt_putc_sub. do 3 (etrans; [|apply outb_devs; port]). apply wait_port_devs. port.
Qed.

Lemma serial_putc_sub_devs c s : devs s (serial_putc_sub c s).
Proof.
  unfold serial_putc_sub. etrans; [|apply outb_devs; port]. apply wait_port_devs. port.
Qed.

Lemma lpt_putc_devs c s : devs s (lpt_putc c s).
Proof. unfold lpt_putc. destruct (negb _); [|do 2 (etrans; [|apply lpt_putc_sub_devs])]; apply lpt_putc_sub_devs. Qed.

Lemma serial_putc_devs c s : devs s (serial_putc c s).
Proof.
  unfold serial_putc. destruct (negb _); [|do 2 (etrans; [|apply serial_putc_sub_devs])]; apply serial_putc_sub_devs.
Qed.

(** Putting the other fields back together. *)
Lemma devs_crt s s' b p : devs s s' → set_crt b p s' = set_dev (dev s') (set_crt b p s).
Proof. by intros (d & -> & _). Qed.

Lemma scroll_step b p t s :
  drawn (S height) b p t →
  ∃ b' p', (if CRT_SIZE <=? crt_pos (set_crt b p s) then
              buf ← scroll (crt_buf (set_crt b p s)); Ok (set_crt buf (u16 (crt_pos (set_crt b p s) - CRT_COLS)) (set_crt b p s))
            else Ok (set_crt b p s)) = Ok (set_crt b' p' s) ∧ drawn height b' p' (settle t).
Proof.
  intros Hd. cbn [set_crt crt_pos crt_buf].
  destruct (drawn_settle b p t Hd) as [[Hlt Hs]|(Hge & b' & Hb & Hs)].
  - rewrite (proj2 (Z.leb_gt _ _)) by done. by exists b, p.
  - rewrite (proj2 (Z.leb_le _ _)), Hb by done. cbn [mbind outcome_bind]. by eexists _, _.
Qed.

Lemma cga_putc_drawn c s t :
  shows s t →
  ∃ b p, cga_putc c s = Ok (set_dev (cursor (addr_6845 s) p (dev s)) (set_crt b p s)) ∧
    drawn height b p (term_put c t).
Proof.
  intros [Hd Haddr]. unfold cga_putc. rewrite coloured_code.
  destruct (cga_write_drawn s c t Hd) as (b1 & p1 & -> & Hd1). cbn [mbind outcome_bind].
  destruct (scroll_step b1 p1 _ s Hd1) as (b & p & -> & Hd2). cbn [mbind outcome_bind].
  rewrite put_loose_settle in Hd2 by apply Hd. exists b, p. split; [|done]. f_equal.
  assert (0 ≤ p < 2000) as Hp.
  { destruct Hd2 as [_ _ Hr Hc _ ->]. unfold height, width in *. lia. }
  unfold outb, cursor. cbn [addr_6845 set_dev set_crt crt_pos dev].
  replace (u8 (Z.shiftr p 8)) with (p / 256).
  2: { rewrite Z.shiftr_div_pow2 by lia. unfold u8. rewrite Z.mod_small; [done|].
       pose proof (Z.div_mod p 256). pose proof (Z.mod_pos_bound p 256). change (2 ^ 8) with 256. lia. }
  by destruct Haddr as [-> | ->].
Qed.

Lemma cursor_Q s p : addr_6845 s = MONO_BASE ∨ addr_6845 s = CGA_BASE → Q (dev s) (cursor (addr_6845 s) p (dev s)).
Proof.
  intros Ha. unfold cursor. do 3 (etrans; [|apply Qout; destruct Ha as [-> | ->]; port]).
  apply Qout. destruct Ha as [-> | ->]; port.
Qed.

Lemma cons_putc_spec c s t :
  shows s t →
  ∃ d b p, cons_putc c s = Ok (set_dev d (set_crt b p s)) ∧ Q (dev s) d ∧
    shows (set_dev d (set_crt b p s)) (term_put c t).
Proof.
  intros [Hd Ha]. unfold cons_putc. destruct (intr_save s) as [f s0] eqn:Hf.
  assert (s0 = set_intr false s ∧ intr_restore f (set_intr false s) = s) as [-> Hrest].
  { unfold intr_save in Hf. destruct (intr_flag s) eqn:E; injection Hf as <- <-; destruct s; simpl in *; by subst. }
  destruct (lpt_putc_devs c (set_intr false s)) as (d1 & -> & Hd1).
  destruct (cga_putc_drawn c (set_dev d1 (set_intr false s)) t) as (b & p & -> & Hdr); [done|].
  cbn [mbind outcome_bind].
  match goal with |- context [serial_putc c ?s1] => destruct (serial_putc_devs c s1) as (d2 & -> & Hd2) end.
  exists d2, b, p. repeat split; try apply Hdr; try done.
  - f_equal. transitivity (set_dev d2 (set_crt b p (intr_restore f (set_intr false s)))).
    + by destruct f.
    + by rewrite Hrest.
  - simpl in *. etrans; [exact Hd1|]. etrans; [|exact Hd2].
    by apply (cursor_Q (set_dev d1 s) p).
Qed.

Lemma cons_text_spec l s t :
  shows s t →
  ∃ d b p, cons_text l s = Ok (set_dev d (set_crt b p s)) ∧ Q (dev s) d ∧
    shows (set_dev d (set_crt b p s)) (term_text l t).
Proof.
  unfold cons_text. revert s t. induction l as [|c l IH]; intros s t Hs; simpl.
  { exists (dev s), (crt_buf s), (crt_pos s). by destruct s. }
  destruct (cons_putc_spec c s t Hs) as (d & b & p & -> & HQ & Hs1). simpl.
  destruct (IH _ _ Hs1) as (d' & b' & p' & -> & HQ' & Hs'). exists d', b', p'.
  split; [done|]. split; [by etrans|done].
Qed.
End output.

(** Every memory of the adapter shows a terminal. *)
Lemma drawn_exists b p : zlen b = CRT_SIZE → 0 ≤ p < CRT_SIZE → ∃ t, drawn height b p t.
Proof.
  intros Hb Hp. assert (length b = 2000%nat) as Hn by (unfold zlen, CRT_SIZE, CRT_ROWS, CRT_COLS in Hb; lia).
  exists (Term (reshape (replicate height width) b) (Z.to_nat (p / 80)) (Z.to_nat (p mod 80))).
  pose proof (Z.div_mod p 80). pose proof (Z.mod_pos_bound p 80).
  unfold CRT_SIZE, CRT_ROWS, CRT_COLS in Hp.
  split; cbn [rows row col].
  - by rewrite length_reshape.
  - apply Forall_lookup_2. intros i l. rewrite sublist_lookup_reshape by (rewrite ?Hn; unfold width; done || lia).
    apply sublist_lookup_length.
  - unfold height. lia.
  - unfold width. lia.
  - symmetry. apply join_reshape. by rewrite Hn.
  - unfold width. lia.
Qed.

(** A console whose adapter has been found and whose cursor is on the screen. *)
Definition screen_ok {D} (s : console D) : Prop :=
  zlen (crt_buf s) = CRT_SIZE ∧ 0 ≤ crt_pos s < CRT_SIZE ∧ (addr_6845 s = MONO_BASE ∨ addr_6845 s = CGA_BASE).

Lemma screen_shows {D} (s : console D) : screen_ok s → ∃ t, shows s t.
Proof. intros (Hb & Hp & Ha). destruct (drawn_exists _ _ Hb Hp) as [t Ht]. by exists t. Qed.

Lemma shows_screen {D} (s : console D) t : shows s t → screen_ok s.
Proof.
  intros [[Hn Hw Hr Hc Hb Hp] Ha]. split; [|split; [|done]].
  - unfold zlen. rewrite Hb, (length_lines width), Hn by done. done.
  - rewrite Hp. unfold CRT_SIZE, CRT_ROWS, CRT_COLS, height, width in *. lia.
Qed.

(** The screen is a terminal of 25 lines of 80 cells.  On every device,
    printing any characters on a console whose cursor is on the screen
    returns, accesses no cell outside the screen, draws what the terminal
    draws (line ends, back spaces and scrolling included), and changes only
    the devices and the screen. *)
Theorem console_terminal {D} `{PortIO D} (s : console D) :
  screen_ok s →
  ∃ t, shows s t ∧ ∀ l, ∃ d b p,
    cons_text l s = Ok (set_dev d (set_crt b p s)) ∧
    shows (set_dev d (set_crt b p s)) (term_text l t).
Proof.
  intros Hs. destruct (screen_shows s Hs) as [t Ht]. exists t. split; [done|]. intros l.
  assert (PreOrder (λ _ _ : D, True)) as HP by (by split).
  destruct (cons_text_spec (λ _ _, True)) with (l := l) (s := s) (t := t) as (d & b & p & -> & _ & Hshows); try done.
  by exists d, b, p.
Qed.

(** A machine whose ports are always ready; the cursor is on the last cell. *)
#[local] Instance ready_io : PortIO unit := {| port_in _ d := (0xFF, d); port_out _ _ d := d |}.

Definition last_cell : console unit :=
  Console () 0xFFFF true (replicate 2000 blank) 1999 CGA_BASE true (replicate 512 0) 0 0 0 true.

(** "H" is drawn in the last cell, and the terminal scrolls. *)
Lemma console_terminal_witness :
  screen_ok last_cell ∧
  ∃ d b p t, cons_text [72] last_cell = Ok (set_dev d (set_crt b p last_cell)) ∧ p = 1920 ∧
    b !! 1919%nat = Some 0x0748 ∧ shows (set_dev d (set_crt b p last_cell)) t.
Proof.
  assert (screen_ok last_cell) as Hok by (split; [reflexivity|split; [cbn; unfold CRT_SIZE, CRT_ROWS, CRT_COLS; lia|by right]]).
  split; [exact Hok|]. destruct (console_terminal last_cell Hok) as (t & Ht & Htext).
  destruct (Htext [72]) as (d & b & p & Heq & Hs). exists d, b, p, (term_text [72] t). split; [exact Heq|].
  assert (match cons_text [72] last_cell with Ok s => bool_decide (crt_pos s = 1920 ∧ crt_buf s !! 1919%nat = Some 0x0748) | _ => false end = true) as Hc
    by (vm_compute; reflexivity).
  rewrite Heq in Hc. apply bool_decide_eq_true in Hc as [Hp Hb]. cbn [crt_pos crt_buf set_dev set_crt] in Hp, Hb.
  split; [exact Hp|]. split; [exact Hb|exact Hs].
Defined.
