(* ===== verification/ConsoleIn.v ===== *)
(** * The input buffer and the keyboard of console.c

    Specification of the input half of Console.v.  The circular buffer
    represents a queue of at most 511 characters, of which [cons_put] appends
    and [cons_getc] takes; the scan codes of the keyboard are decoded by a
    state machine over the modifier keys.  The devices are described by the
    laws of [InputLaws]: bytes wait at the keyboard and at the serial port,
    the status ports tell whether there are any and the data ports read them. *)

From stdpp Require Import base list numbers.
From S2P Require Import Prelude Console ConsoleOut.

(** ** The circular buffer as a queue *)

Definition count (r w : Z) : nat := Z.to_nat ((w - r) mod CONSBUFSIZE).
Definition slot (b : list Z) (i : Z) : Z := default 0 (b !! Z.to_nat (i mod CONSBUFSIZE)).
Definition queue (b : list Z) (r w : Z) : list Z := (λ i : nat, slot b (r + Z.of_nat i)) <$> seq 0 (count r w).

Definition index (i : Z) : Z := if u32 (i + 1) =? CONSBUFSIZE then 0 else u32 (i + 1).

Record ring_wf (b : list Z) (r w : Z) : Prop := {
  ring_len : zlen b = CONSBUFSIZE;
  ring_r : 0 ≤ r < CONSBUFSIZE;
  ring_w : 0 ≤ w < CONSBUFSIZE
}.

Definition ring_ok {D} (s : console D) : Prop := ring_wf (cons_buf s) (rpos s) (wpos s).
Definition pending {D} (s : console D) : list Z := queue (cons_buf s) (rpos s) (wpos s).

Lemma index_mod i : 0 ≤ i < CONSBUFSIZE → index i = (i + 1) mod CONSBUFSIZE ∧ 0 ≤ index i < CONSBUFSIZE.
Proof.
  unfold index, CONSBUFSIZE. intros Hi. rewrite u32_small by lia.
  destruct (Z.eqb_spec (i + 1) 512) as [E|E]; [by rewrite E|].
  rewrite Z.mod_small by lia. lia.
Qed.

Lemma queue_count_range r w : (count r w < 512)%nat.
Proof. unfold count, CONSBUFSIZE. pose proof (Z.mod_pos_bound (w - r) 512). lia. Qed.

Lemma length_queue b r w : length (queue b r w) = count r w.
Proof. unfold queue. by rewrite length_fmap, length_seq. Qed.

Lemma mod_add_count r w : 0 ≤ w < CONSBUFSIZE → (r + Z.of_nat (count r w)) mod CONSBUFSIZE = w.
Proof.
  unfold count, CONSBUFSIZE. intros Hw. rewrite Z2Nat.id by (apply Z.mod_pos_bound; lia).
  rewrite Z.add_mod_idemp_r by lia. replace (r + (w - r)) with w by lia. by apply Z.mod_small.
Qed.

Lemma mod_sub_neq r i n : (i < n)%nat → (n < 512)%nat → (r + Z.of_nat i) mod CONSBUFSIZE ≠ (r + Z.of_nat n) mod CONSBUFSIZE.
Proof.
  unfold CONSBUFSIZE. intros Hi Hn E.
  pose proof (Z.div_mod (r + Z.of_nat i) 512) as H1. pose proof (Z.div_mod (r + Z.of_nat n) 512) as H2. lia.
Qed.

(** The queue after a character has been stored at the write position. *)
Lemma count_put r w :
  0 ≤ r < CONSBUFSIZE → 0 ≤ w < CONSBUFSIZE →
  count r (index w) = if decide (count r w = 511%nat) then O else S (count r w).
Proof.
  intros Hr Hw. destruct (index_mod w Hw) as [-> _]. unfold count.
  replace (((w + 1) mod CONSBUFSIZE - r) mod CONSBUFSIZE) with (((w - r) mod CONSBUFSIZE + 1) mod CONSBUFSIZE).
  2: { unfold CONSBUFSIZE. rewrite Z.add_mod_idemp_l, Zminus_mod_idemp_l by lia. f_equal. lia. }
  unfold CONSBUFSIZE in *. pose proof (Z.mod_pos_bound (w - r) 512 ltac:(lia)) as Hb.
  set (n := (w - r) mod 512) in *. case_decide.
  - replace n with 511 by lia. done.
  - rewrite Z.mod_small by lia. lia.
Qed.

Lemma queue_put b r w c :
  ring_wf b r w →
  ring_wf (<[Z.to_nat w := c]> b) r (index w) ∧
  queue (<[Z.to_nat w := c]> b) r (index w) =
    if decide (length (queue b r w) = 511%nat) then [] else queue b r w ++ [c].
Proof.
  intros [Hb Hr Hw]. split.
  { split; [by rewrite zlen_insert|done|by apply index_mod]. }
  rewrite length_queue. unfold queue at 1. rewrite count_put by done. case_decide as Hn; [done|].
  rewrite seq_S, fmap_app. pose proof (queue_count_range r w). pose proof (mod_add_count r w Hw) as Hm. f_equal.
  - apply list_fmap_ext. intros i x Hx. apply lookup_seq in Hx as [-> Hi]. unfold slot.
    rewrite list_lookup_insert_ne; [done|]. intros E.
    pose proof (mod_sub_neq r i (count r w) Hi ltac:(lia)) as Hne. rewrite Hm in Hne.
    pose proof (Z.mod_pos_bound (r + Z.of_nat i) CONSBUFSIZE ltac:(done)). simpl in E. lia.
  - simpl. unfold slot. rewrite Hm, list_lookup_insert_eq; [done|]. unfold zlen in *. lia.
Qed.

(** Taking the first character. *)
Lemma queue_get b r w :
  ring_wf b r w →
  match queue b r w with
  | [] => r = w
  | c :: q => r ≠ w ∧ aget b r = Ok c ∧ ring_wf b (index r) w ∧ queue b (index r) w = q
  end.
Proof.
  intros [Hb Hr Hw]. unfold queue. destruct (count r w) as [|n] eqn:Hn.
  { simpl. pose proof (mod_add_count r w Hw) as Hm. rewrite Hn, Z.add_0_r, Z.mod_small in Hm by done. done. }
  destruct (index_mod r Hr) as [Hi Hir]. assert (count (index r) w = n) as Hc.
  { unfold count in *. rewrite Hi. unfold CONSBUFSIZE in *. rewrite Zminus_mod_idemp_r.
    pose proof (Z.div_mod (w - r) 512). pose proof (Z.mod_pos_bound (w - r) 512 ltac:(lia)).
    replace ((w - (r + 1)) mod 512) with ((w - r) mod 512 - 1); [clear - Hn; lia|].
    apply (Z.mod_unique _ _ ((w - r) / 512)); lia. }
  cbn [seq fmap list_fmap]. split_and!.
  - intros ->. unfold count in Hn. by rewrite Z.sub_diag in Hn.
  - destruct (aget_in_range b r) as (x & Hx & Hl); [by rewrite Hb|]. rewrite Hx. f_equal.
    unfold slot. rewrite Z.add_0_r, Z.mod_small by done. by rewrite Hl.
  - done.
  - rewrite Hc, <-fmap_S_seq, <-list_fmap_compose. apply list_fmap_ext. intros i x _. cbn [compose].
    unfold slot. rewrite Hi, Z.add_mod_idemp_l by done.
    by replace (r + 1 + Z.of_nat x) with (r + Z.of_nat (S x)) by lia.
Qed.

(** A full queue of 511 characters is lost with the next one. *)
Definition enqueue (q : list Z) (c : Z) : list Z := if decide (length q = 511%nat) then [] else q ++ [c].

Lemma enqueue_fits l q : (length q + length l ≤ 511)%nat → foldl enqueue q l = q ++ l.
Proof.
  revert q. induction l as [|c l IH]; intros q Hl; simpl in *; [by rewrite app_nil_r|].
  unfold enqueue at 2. rewrite decide_False by lia. rewrite IH by (rewrite length_app; simpl; lia).
  by rewrite <-(assoc_L (++)).
Qed.

(** ** The devices *)

(** Bytes wait at the keyboard and at the serial port; none arrives while the
    processor polls. *)
Class InputLaws (D : Type) `{PortIO D} := {
  kbd_queue : D → list Z;
  ser_queue : D → list Z;
  kbd_byte d : Forall (λ c, 0 ≤ c < 256) (kbd_queue d);
  ser_byte d : Forall (λ c, 0 ≤ c < 256) (ser_queue d);
  kbd_status d : Z.land (u8 (port_in KBSTATP d).1) KBS_DIB = 0 ↔ kbd_queue d = [];
  ser_status d : Z.land (u8 (port_in (COM1 + COM_LSR) d).1) COM_LSR_DATA = 0 ↔ ser_queue d = [];
  kbd_read d c q : kbd_queue d = c :: q →
    (port_in KBDATAP d).1 = c ∧ kbd_queue (port_in KBDATAP d).2 = q ∧ ser_queue (port_in KBDATAP d).2 = ser_queue d;
  ser_read d c q : ser_queue d = c :: q →
    (port_in (COM1 + COM_RX) d).1 = c ∧ ser_queue (port_in (COM1 + COM_RX) d).2 = q ∧
    kbd_queue (port_in (COM1 + COM_RX) d).2 = kbd_queue d;
  poll_keeps p d : p ∈ KBSTATP :: poll_ports →
    kbd_queue (port_in p d).2 = kbd_queue d ∧ ser_queue (port_in p d).2 = ser_queue d;
  out_keeps p v d : p ∈ out_ports →
    kbd_queue (port_out p v d) = kbd_queue d ∧ ser_queue (port_out p v d) = ser_queue d
}.

(** ** Draining a source of characters into the queue *)

(** What input leaves unchanged. *)
Definition fixed {D} (s : console D) :=
  (irq_mask s, did_init s, crt_buf s, crt_pos s, addr_6845 s, serial_exists s, intr_flag s).

Definition ring {D} (s : console D) := (cons_buf s, rpos s, wpos s).

Lemma cons_put_spec {D} c (s : console D) :
  ring_ok s → 0 ≤ c < 256 →
  ∃ s', cons_put c s = Ok s' ∧ ring_ok s' ∧ pending s' = enqueue (pending s) c ∧
    fixed s' = fixed s ∧ dev s' = dev s ∧ shift s' = shift s.
Proof.
  intros Hs Hc. pose proof Hs as [Hb Hr Hw]. unfold cons_put. rewrite aset_Ok by (by rewrite Hb).
  cbn [mbind outcome_bind]. eexists. split; [done|].
  destruct (queue_put _ _ _ (u8 c) Hs) as [Hwf Hq].
  split_and!; try done. unfold pending in *. cbn [set_cons cons_buf rpos wpos]. fold (index (wpos s)).
  rewrite Hq. unfold enqueue, u8. by rewrite Z.mod_small.
Qed.

Section drain.
Context {D : Type} (proc : console D → outcome (Z * console D)) (J : list Z → console D → Prop).
Context (Jdone : ∀ s, J [] s → ∃ s', proc s = Ok (-1, s') ∧ J [] s' ∧ fixed s' = fixed s ∧ ring s' = ring s).
Context (Jnext : ∀ c l s, J (c :: l) s →
  ∃ s', proc s = Ok (c, s') ∧ 0 ≤ c < 256 ∧ J l s' ∧ fixed s' = fixed s ∧ ring s' = ring s).
Context (Jput : ∀ l s s', J l s → dev s' = dev s → shift s' = shift s → J l s').

Lemma ring_eq (s s' : console D) : ring s' = ring s → ring_ok s' = ring_ok s ∧ pending s' = pending s.
Proof. unfold ring, ring_ok, pending. by intros [= -> -> ->]. Qed.

Lemma cons_intr_drains fuel l s :
  J l s → ring_ok s → (length l < fuel)%nat →
  ∃ s', cons_intr fuel proc s = Ok s' ∧ J [] s' ∧ ring_ok s' ∧ fixed s' = fixed s ∧
    pending s' = foldl enqueue (pending s) (filter (.≠ 0) l).
Proof.
  unfold cons_intr. revert fuel s. induction l as [|c l IH]; intros fuel s HJ Hr Hf;
    (destruct fuel as [|fuel]; [simpl in Hf; lia|]); rewrite loop_unfold.
  - destruct (Jdone s HJ) as (s' & -> & HJ' & Hfix & [Hok Hp]%ring_eq). simpl.
    exists s'. by rewrite Hok, Hp.
  - destruct (Jnext c l s HJ) as (s1 & -> & Hc & HJ1 & Hfix & [Hok Hp]%ring_eq). simpl.
    rewrite (proj2 (Z.eqb_neq c (-1))) by lia. rewrite filter_cons.
    destruct (decide (c ≠ 0)) as [Hc0|Hc0].
    + rewrite (proj2 (Z.eqb_neq c 0)) by done. cbn [negb].
      destruct (cons_put_spec c s1) as (s2 & -> & Hok2 & Hp2 & Hfix2 & Hd2 & Hs2); [by rewrite Hok|done|].
      simpl. destruct (IH fuel s2) as (s' & -> & HJ' & Hok' & Hfix' & Hp').
      * by eapply Jput.
      * done.
      * simpl in Hf. lia.
      * exists s'. rewrite Hp', Hp2, Hp. split_and!; try done. congruence.
    + apply dec_stable in Hc0 as ->. cbn [Z.eqb negb]. simpl.
      destruct (IH fuel s1) as (s' & -> & HJ' & Hok' & Hfix' & Hp'); [done|by rewrite Hok|simpl in Hf; lia|].
      exists s'. rewrite Hp', Hp. split_and!; try done. congruence.
Qed.
End drain.

(** ** Scan codes *)

Definition tab (l : list Z) (i : Z) : Z := default 0 (l !! Z.to_nat i).

Definition keymap (h : Z) : list Z := default [] (charcode !! Z.to_nat (Z.land h (Z.lor CTL SHIFT))).

(** A key is pressed: the new modifiers and its character; Ctrl-Alt-Del, which
    resets the machine, has no result. *)
Definition key_press (h data : Z) : option (Z * Z) :=
  let h := Z.lxor (Z.lor h (tab shiftcode data)) (tab togglecode data) in
  let c := tab (keymap h) data in
  let c := if Z.land h CAPSLOCK =? 0 then c else swap_case c in
  if all_set h (Z.lor CTL ALT) && (c =? KEY_DEL) then None else Some (h, c).

Definition key_release (h data : Z) : Z :=
  let data := if Z.land h E0ESC =? 0 then Z.land data 0x7F else data in
  Z.ldiff h (Z.lor (tab shiftcode data) E0ESC).

Definition key_step (h data : Z) : option (Z * Z) :=
  if data =? 0xE0 then Some (Z.lor h E0ESC, 0)
  else if 128 <=? data then Some (key_release h data, 0)
  else if Z.land h E0ESC =? 0 then key_press h data
  else key_press (Z.ldiff h E0ESC) (Z.lor data 0x80).

(** The results of the scan codes [l], and the modifiers after them. *)
Fixpoint key_run (h : Z) (l : list Z) : option (list Z * Z) :=
  match l with
  | [] => Some ([], h)
  | data :: l =>
      r ← key_step h data; rs ← key_run r.1 l; Some (r.2 :: rs.1, rs.2)
  end.

(** The characters they make. *)
Definition key_chars (h : Z) (l : list Z) : option (list Z * Z) :=
  r ← key_run h l; Some (filter (.≠ 0) r.1, r.2).

Definition bytes_table (l : list Z) : bool := bool_decide (length l = 256%nat ∧ Forall (λ c, 0 ≤ c < 256) l).

Lemma tables_ok : bytes_table shiftcode && bytes_table togglecode && forallb bytes_table charcode = true.
Proof. by vm_compute. Qed.

Lemma table_get l i : bytes_table l = true → 0 ≤ i < 256 → aget l i = Ok (tab l i) ∧ 0 ≤ tab l i < 256.
Proof.
  unfold bytes_table. intros [Hn Hl]%bool_decide_eq_true Hi.
  destruct (aget_in_range l i) as (x & Hx & Hlx); [unfold zlen; rewrite Hn; lia|].
  unfold tab. rewrite Hx, Hlx. split; [done|]. by eapply Forall_lookup_1 in Hl.
Qed.

Lemma keymap_get h : aget charcode (Z.land h (Z.lor CTL SHIFT)) = Ok (keymap h) ∧ bytes_table (keymap h) = true.
Proof.
  change (Z.lor CTL SHIFT) with (Z.ones 2). unfold keymap. change (Z.lor CTL SHIFT) with (Z.ones 2).
  rewrite Z.land_ones by lia. set (k := h mod 2 ^ 2).
  assert (0 ≤ k < 4) as Hk by (apply Z.mod_pos_bound; lia).
  destruct (aget_in_range charcode k) as (m & Hm & Hlm); [done|]. rewrite Hm, Hlm. split; [done|].
  pose proof tables_ok as Ht. rewrite !andb_true_iff, forallb_forall in Ht. destruct Ht as [_ Ht].
  apply Ht. apply list_elem_of_In. by eapply list_elem_of_lookup_2.
Qed.

Lemma swap_case_byte c : 0 ≤ c < 256 → 0 ≤ swap_case c < 256.
Proof.
  intros Hc. unfold swap_case.
  destruct ((97 <=? c) && (c <=? 122)) eqn:E1; [apply andb_true_iff in E1; lia|].
  destruct ((65 <=? c) && (c <=? 90)) eqn:E2; [apply andb_true_iff in E2; lia|done].
Qed.

Section keyboard.
Context {D : Type} `{InputLaws D}.
Implicit Types (s : console D) (d : D).

Lemma kbd_press_step s data h' c :
  0 ≤ data < 256 → key_press (shift s) data = Some (h', c) →
  kbd_press data s = Ok (c, set_shift h' s) ∧ 0 ≤ c < 256.
Proof.
  intros Hd. pose proof tables_ok as Ht. rewrite !andb_true_iff in Ht. destruct Ht as [[Hs Hg] _].
  unfold key_press, kbd_press. destruct (table_get _ data Hs Hd) as [-> _], (table_get _ data Hg Hd) as [-> _].
  cbn [mbind outcome_bind]. cbn [shift set_shift]. set (h := Z.lxor _ _).
  destruct (keymap_get h) as [Hget Hk]. rewrite Hget. cbn [mbind outcome_bind].
  destruct (table_get _ data Hk Hd) as [-> Hb]. cbn [mbind outcome_bind].
  set (c1 := if Z.land h CAPSLOCK =? 0 then _ else _).
  assert (0 ≤ c1 < 256) by (unfold c1; destruct (_ =? _); [done|by apply swap_case_byte]).
  destruct (all_set h (Z.lor CTL ALT) && (c1 =? KEY_DEL)); [done|]. intros [= <- <-]. done.
Qed.

Lemma byte_high data : 0 ≤ data < 256 → (Z.land data 0x80 =? 0) = negb (128 <=? data).
Proof.
  intros Hd. assert (forallb (λ n, let i := Z.of_nat n in eqb (Z.land i 0x80 =? 0) (negb (128 <=? i))) (seq 0 256) = true) as Hall
    by by vm_compute.
  rewrite forallb_forall in Hall. specialize (Hall (Z.to_nat data)).
  cbv zeta in Hall. rewrite Z2Nat.id in Hall by lia. apply eqb_prop, Hall, in_seq. lia.
Qed.

Lemma byte_range data : 0 ≤ data < 256 → 0 ≤ Z.land data 0x7F < 256 ∧ 0 ≤ Z.lor data 0x80 < 256.
Proof.
  intros Hd. assert (forallb (λ n, let i := Z.of_nat n in (0 <=? Z.land i 0x7F) && (Z.land i 0x7F <? 256) &&
    (0 <=? Z.lor i 0x80) && (Z.lor i 0x80 <? 256)) (seq 0 256) = true) as Hall by by vm_compute.
  rewrite forallb_forall in Hall. specialize (Hall (Z.to_nat data)).
  cbv zeta in Hall. rewrite Z2Nat.id in Hall by lia. rewrite !andb_true_iff, !Z.leb_le, !Z.ltb_lt in Hall.
  destruct Hall as [[[??]?]?]; [apply in_seq; lia|]. lia.
Qed.

Lemma kbd_queue_byte d c q : kbd_queue d = c :: q → 0 ≤ c < 256.
Proof. intros E. pose proof (kbd_byte d) as Hb. rewrite E in Hb. by apply Forall_cons in Hb as [??]. Qed.

Lemma ser_queue_byte d c q : ser_queue d = c :: q → 0 ≤ c < 256.
Proof. intros E. pose proof (ser_byte d) as Hb. rewrite E in Hb. by apply Forall_cons in Hb as [??]. Qed.

(** What remains to be read at the keyboard and what it will have made. *)
Definition kbd_will (h : Z) (sq l : list Z) (s : console D) : Prop :=
  key_run (shift s) (kbd_queue (dev s)) = Some (l, h) ∧ ser_queue (dev s) = sq.

Lemma kbd_done h sq s :
  kbd_will h sq [] s → ∃ s', kbd_proc_data s = Ok (-1, s') ∧ kbd_will h sq [] s' ∧ fixed s' = fixed s ∧ ring s' = ring s.
Proof.
  intros [Hk Hs]. assert (kbd_queue (dev s) = []) as Hq.
  { destruct (kbd_queue (dev s)) as [|c q]; [done|]. simpl in Hk.
    destruct (key_step _ _) as [[h1 c1]|]; simpl in Hk; [|done]. by destruct (key_run h1 q) as [[??]|]. }
  unfold kbd_proc_data, inb. change (u16 KBSTATP) with KBSTATP.
  destruct (poll_keeps KBSTATP (dev s)) as [Hkq Hsq]; [by left|]. pose proof (proj2 (kbd_status (dev s)) Hq) as Hst.
  destruct (port_in KBSTATP (dev s)) as [v d]. cbn [fst snd] in *. rewrite Hst. cbn [Z.eqb].
  eexists. split; [done|]. unfold kbd_will. cbn [shift dev set_dev]. by rewrite Hkq, Hsq.
Qed.

Lemma kbd_next h sq c l s :
  kbd_will h sq (c :: l) s →
  ∃ s', kbd_proc_data s = Ok (c, s') ∧ 0 ≤ c < 256 ∧ kbd_will h sq l s' ∧ fixed s' = fixed s ∧ ring s' = ring s.
Proof.
  intros [Hk Hs]. destruct (kbd_queue (dev s)) as [|data q] eqn:Hq; [done|]. simpl in Hk.
  destruct (key_step (shift s) data) as [[h1 c1]|] eqn:Hstep; simpl in Hk; [|done].
  destruct (key_run h1 q) as [[l1 h2]|] eqn:Hrun; simpl in Hk; [|done]. injection Hk as -> -> ->.
  unfold kbd_proc_data, inb. change (u16 KBSTATP) with KBSTATP. change (u16 KBDATAP) with KBDATAP.
  destruct (poll_keeps KBSTATP (dev s)) as [Hkq Hsq]; [by left|].
  assert (Z.land (u8 (port_in KBSTATP (dev s)).1) KBS_DIB ≠ 0) as Hst by (intros E%kbd_status; congruence).
  destruct (port_in KBSTATP (dev s)) as [v d]. cbn [fst snd] in *. rewrite (proj2 (Z.eqb_neq _ _) Hst).
  cbn [dev set_dev]. rewrite <-Hkq in Hq. pose proof (kbd_queue_byte _ _ _ Hq) as Hbyte.
  destruct (kbd_read _ _ _ Hq) as (Hv & Hq' & Hs'). destruct (port_in KBDATAP d) as [v' d']. cbn [fst snd] in *. subst v'.
  rewrite Hsq, Hs in Hs'.
  assert (u8 data = data) as -> by (apply Z.mod_small; lia).
  unfold key_step in Hstep. rewrite byte_high by done. cbn [shift set_dev]. destruct (data =? 0xE0).
  { injection Hstep as <- <-. eexists. split; [done|]. unfold kbd_will. cbn [shift dev set_dev set_shift]. by rewrite Hq', Hs'. }
  pose proof (byte_range data Hbyte) as [Hlow Hhigh].
  destruct (128 <=? data) eqn:H128; cbn [negb].
  { injection Hstep as <- <-. pose proof tables_ok as Ht. rewrite !andb_true_iff in Ht. destruct Ht as [[Ht _] _].
    destruct (table_get shiftcode (if negb (Z.land (shift s) E0ESC =? 0) then data else Z.land data 0x7F) Ht) as [-> _];
      [by destruct (negb _)|]. cbn [mbind outcome_bind].
    eexists. split; [done|]. split; [done|].
    split; [|done]. unfold kbd_will. cbn [shift dev set_dev set_shift]. rewrite Hq', Hs'. split; [|done].
    rewrite <-Hrun. f_equal. unfold key_release. by destruct (_ =? 0). }
  destruct (Z.land (shift s) E0ESC =? 0); cbn [negb].
  - destruct (kbd_press_step (set_dev d' (set_dev d s)) data h1 c) as [-> Hc]; [done|done|].
    eexists. split; [done|]. split; [done|]. split; [|done].
    unfold kbd_will. cbn [shift dev set_dev set_shift]. by rewrite Hq', Hs'.
  - edestruct (kbd_press_step (set_shift (Z.ldiff (shift s) E0ESC) (set_dev d' (set_dev d s))))
      as [-> Hc]; [exact Hhigh|exact Hstep|].
    eexists. split; [done|]. split; [done|]. split; [|done].
    unfold kbd_will. cbn [shift dev set_dev set_shift]. by rewrite Hq', Hs'.
Qed.

(** What remains to be read at the serial port. *)
Definition ser_char (c : Z) : Z := if c =? 127 then 8 else c.

Definition ser_will (h : Z) (kq l : list Z) (s : console D) : Prop :=
  ser_char <$> ser_queue (dev s) = l ∧ kbd_queue (dev s) = kq ∧ shift s = h.

Lemma ser_done h kq s :
  ser_will h kq [] s → ∃ s', serial_proc_data s = Ok (-1, s') ∧ ser_will h kq [] s' ∧ fixed s' = fixed s ∧ ring s' = ring s.
Proof.
  intros (Hq & Hk & Hh). apply fmap_nil_inv in Hq.
  unfold serial_proc_data, inb. change (u16 (COM1 + COM_LSR)) with (COM1 + COM_LSR).
  destruct (poll_keeps (COM1 + COM_LSR) (dev s)) as [Hkq Hsq]; [right; port|].
  pose proof (proj2 (ser_status (dev s)) Hq) as Hst.
  destruct (port_in (COM1 + COM_LSR) (dev s)) as [v d]. cbn [fst snd] in *. rewrite Hst. cbn [Z.eqb].
  eexists. split; [done|]. unfold ser_will. cbn [shift dev set_dev]. by rewrite Hkq, Hsq, Hq.
Qed.

Lemma ser_next h kq c l s :
  ser_will h kq (c :: l) s →
  ∃ s', serial_proc_data s = Ok (c, s') ∧ 0 ≤ c < 256 ∧ ser_will h kq l s' ∧ fixed s' = fixed s ∧ ring s' = ring s.
Proof.
  intros (Hq & Hk & Hh). destruct (ser_queue (dev s)) as [|data q] eqn:Hsq; [done|]. injection Hq as Hc Hl.
  unfold serial_proc_data, inb. change (u16 (COM1 + COM_LSR)) with (COM1 + COM_LSR).
  change (u16 (COM1 + COM_RX)) with (COM1 + COM_RX).
  destruct (poll_keeps (COM1 + COM_LSR) (dev s)) as [Hkq' Hsq']; [right; port|].
  assert (Z.land (u8 (port_in (COM1 + COM_LSR) (dev s)).1) COM_LSR_DATA ≠ 0) as Hst by (intros E%ser_status; congruence).
  destruct (port_in (COM1 + COM_LSR) (dev s)) as [v d]. cbn [fst snd] in *. rewrite (proj2 (Z.eqb_neq _ _) Hst).
  cbn [dev set_dev]. rewrite <-Hsq' in Hsq. pose proof (ser_queue_byte _ _ _ Hsq) as Hbyte.
  destruct (ser_read _ _ _ Hsq) as (Hv & Hq' & Hk'). destruct (port_in (COM1 + COM_RX) d) as [v' d']. cbn [fst snd] in *.
  subst v'. assert (u8 data = data) as -> by (apply Z.mod_small; lia).
  eexists. split; [by rewrite <-Hc|]. split; [rewrite <-Hc; unfold ser_char; by destruct (_ =? _)|].
  split; [|done]. unfold ser_will. cbn [shift dev set_dev].
  split_and!; [by rewrite Hq'|by rewrite Hk', Hkq'|done].
Qed.

(** ** cons_getc *)

(** The bytes that arrive from the serial port and from the keyboard. *)
Definition ser_input (s : console D) : list Z :=
  if serial_exists s then filter (.≠ 0) (ser_char <$> ser_queue (dev s)) else [].

Lemma set_intr_off s :
  ∃ f s1, intr_save s = (f, s1) ∧ dev s1 = dev s ∧ shift s1 = shift s ∧ ring s1 = ring s ∧ serial_exists s1 = serial_exists s ∧
    ∀ s2, fixed s2 = fixed s1 → fixed (intr_restore f s2) = fixed s ∧
      dev (intr_restore f s2) = dev s2 ∧ shift (intr_restore f s2) = shift s2 ∧ ring (intr_restore f s2) = ring s2.
Proof.
  unfold intr_save. destruct (intr_flag s) eqn:E; eexists _, _; (split; [done|]); split_and!; try done.
  intros s2 Hf. unfold intr_restore, fixed in *. cbn in *. split_and!; try done. congruence.
Qed.

Lemma serial_intr_spec fuel s :
  ring_ok s → (length (ser_queue (dev s)) < fuel)%nat →
  ∃ s', serial_intr fuel s = Ok s' ∧ ring_ok s' ∧ fixed s' = fixed s ∧ shift s' = shift s ∧
    kbd_queue (dev s') = kbd_queue (dev s) ∧
    ser_queue (dev s') = (if serial_exists s then [] else ser_queue (dev s)) ∧
    pending s' = foldl enqueue (pending s) (ser_input s).
Proof.
  intros Hok Hf. unfold serial_intr, ser_input. destruct (serial_exists s); [|by exists s].
  destruct (cons_intr_drains serial_proc_data (ser_will (shift s) (kbd_queue (dev s))) (ser_done _ _) (ser_next _ _))
    with (fuel := fuel) (l := ser_char <$> ser_queue (dev s)) (s := s) as (s' & -> & HJ & Hok' & Hfix & Hp); try done.
  - intros l s1 s2 HJ Hd Hh. unfold ser_will. by rewrite Hd, Hh.
  - by rewrite length_fmap.
  - destruct HJ as (Hq & Hk & Hh). apply fmap_nil_inv in Hq. by exists s'.
Qed.

Lemma kbd_intr_spec fuel s l h :
  ring_ok s → key_run (shift s) (kbd_queue (dev s)) = Some (l, h) → (length l < fuel)%nat →
  ∃ s', kbd_intr fuel s = Ok s' ∧ ring_ok s' ∧ fixed s' = fixed s ∧ shift s' = h ∧
    kbd_queue (dev s') = [] ∧ ser_queue (dev s') = ser_queue (dev s) ∧
    pending s' = foldl enqueue (pending s) (filter (.≠ 0) l).
Proof.
  intros Hok Hrun Hf. unfold kbd_intr.
  destruct (cons_intr_drains kbd_proc_data (kbd_will h (ser_queue (dev s))) (kbd_done _ _) (kbd_next _ _))
    with (fuel := fuel) (l := l) (s := s) as (s' & -> & HJ & Hok' & Hfix & Hp); try done.
  - intros l' s1 s2 HJ Hd Hh. unfold kbd_will. by rewrite Hd, Hh.
  - destruct HJ as (Hq & Hs). exists s'.
    destruct (kbd_queue (dev s')) as [|c q].
    + injection Hq as Hq. done.
    + simpl in Hq. destruct (key_step _ _) as [[h1 c1]|]; simpl in Hq; [|done]. by destruct (key_run h1 q) as [[??]|].
Qed.

(** Taking a character from the queue [q]; 0 when there is none. *)
Definition dequeue (q : list Z) : Z * list Z := match q with [] => (0, []) | c :: q => (c, q) end.

Lemma cons_getc_spec fuel s l h :
  ring_ok s → key_run (shift s) (kbd_queue (dev s)) = Some (l, h) →
  (length (ser_queue (dev s)) < fuel)%nat → (length l < fuel)%nat →
  ∃ s', cons_getc fuel s = Ok ((dequeue (foldl enqueue (pending s) (ser_input s ++ filter (.≠ 0) l))).1, s') ∧
    pending s' = (dequeue (foldl enqueue (pending s) (ser_input s ++ filter (.≠ 0) l))).2 ∧
    ring_ok s' ∧ fixed s' = fixed s ∧ shift s' = h ∧ kbd_queue (dev s') = [] ∧
    ser_queue (dev s') = (if serial_exists s then [] else ser_queue (dev s)).
Proof.
  intros Hok Hrun Hfs Hfk. unfold cons_getc.
  destruct (set_intr_off s) as (f & s1 & -> & Hd1 & Hh1 & [Hok1 Hp1]%ring_eq & Hse & Hback).
  assert (ser_input s1 = ser_input s) as Hsi by (unfold ser_input; by rewrite Hse, Hd1).
  destruct (serial_intr_spec fuel s1) as (s2 & -> & Hok2 & Hfix2 & Hh2 & Hk2 & Hs2 & Hp2); [by rewrite Hok1|by rewrite Hd1|].
  cbn [mbind outcome_bind].
  destruct (kbd_intr_spec fuel s2 l h) as (s3 & -> & Hok3 & Hfix3 & Hh3 & Hk3 & Hs3 & Hp3); [done| |done|].
  { by rewrite Hh2, Hk2, Hh1, Hd1. }
  cbn [mbind outcome_bind]. rewrite Hsi, Hp1 in Hp2. rewrite Hp2, <-foldl_app in Hp3. rewrite <-Hp3.
  rewrite Hs2, Hd1, Hse in Hs3. rewrite Hfix2 in Hfix3.
  pose proof (queue_get _ _ _ Hok3) as Hget. fold (pending s3) in Hget. destruct (pending s3) as [|c q] eqn:Hp.
  - rewrite Hget, Z.eqb_refl. cbn [negb mbind outcome_bind fst snd]. destruct (Hback s3 Hfix3) as (Hfix & Hd & Hh & Hr).
    apply ring_eq in Hr as [Hokr Hpr]. eexists. split; [done|].
    rewrite Hpr, Hokr, Hd, Hh. by split_and!.
  - destruct Hget as (Hne & Hc & Hwf & Hq). rewrite (proj2 (Z.eqb_neq _ _) Hne), Hc. cbn [negb mbind outcome_bind fst snd].
    set (s4 := set_cons _ _ _ s3). destruct (Hback s4) as (Hfix & Hd & Hh & Hr); [done|].
    apply ring_eq in Hr as [Hokr Hpr]. eexists. split; [done|]. rewrite Hpr, Hokr, Hd, Hh. by split_and!.
Qed.
End keyboard.

(** ** Properties *)

(** [C19] The input buffer is a queue.  Whatever waits at the serial port and at
    the keyboard, [cons_getc] ends, appends first the bytes of the serial port
    (if there is one) and then the decoded characters of the keyboard, both
    without the zero ones, to the queue, and takes its first character, or
    answers 0 when it is empty; a character for which there is no room in the
    511 places empties the queue.  Screen and interrupt flag are kept. *)
Theorem cons_getc_queue {D} `{InputLaws D} fuel (s : console D) l h :
  ring_ok s → key_run (shift s) (kbd_queue (dev s)) = Some (l, h) →
  (length (ser_queue (dev s)) < fuel)%nat → (length l < fuel)%nat →
  ∃ s', cons_getc fuel s = Ok ((dequeue (foldl enqueue (pending s) (ser_input s ++ filter (.≠ 0) l))).1, s') ∧
    pending s' = (dequeue (foldl enqueue (pending s) (ser_input s ++ filter (.≠ 0) l))).2 ∧
    ring_ok s' ∧ fixed s' = fixed s ∧ shift s' = h ∧ kbd_queue (dev s') = [] ∧
    ser_queue (dev s') = (if serial_exists s then [] else ser_queue (dev s)).
Proof. apply cons_getc_spec. Qed.

(** Home has no character while a control key is held: [ctlmap] lists it at
    0x97 and not at 0xC7; its neighbours are listed. *)
Lemma ctrl_home_lost :
  key_chars 0 [0xE0; 0x47] = Some ([KEY_HOME], 0) ∧ key_chars 0 [0x1D; 0xE0; 0x47] = Some ([], CTL) ∧
  key_chars 0 [0x1D; 0xE0; 0x4F] = Some ([KEY_END], CTL).
Proof. by vm_compute. Qed.

(** Both shift keys held and one released: the other one has no effect. *)
Lemma second_shift_lost : key_chars 0 [0x2A; 0x36; 0xB6; 0x1E] = Some ([97], 0).
Proof. by vm_compute. Qed.

(** ** A device

    The bytes that wait, and the writes to the ports; the printer and the serial
    port are ready. *)

Record devices := Devices { at_kbd : list Z; at_ser : list Z; written : list (Z * Z) }.

Definition data_ready (l : list Z) : Z := match l with [] => 0 | _ => 1 end.

#[global] Instance devices_io : PortIO devices := {|
  port_in p d :=
    if p =? KBSTATP then (data_ready (at_kbd d), d)
    else if p =? KBDATAP then (default 0 (head (at_kbd d)) mod 256, Devices (tail (at_kbd d)) (at_ser d) (written d))
    else if p =? COM1 + COM_LSR then (COM_LSR_TXRDY + data_ready (at_ser d), d)
    else if p =? COM1 + COM_RX then (default 0 (head (at_ser d)) mod 256, Devices (at_kbd d) (tail (at_ser d)) (written d))
    else (0xFF, d);
  port_out p v d := Devices (at_kbd d) (at_ser d) (written d ++ [(p, v)])
|}.

#[global] Program Instance devices_laws : InputLaws devices := {|
  kbd_queue d := (λ c, c mod 256) <$> at_kbd d;
  ser_queue d := (λ c, c mod 256) <$> at_ser d
|}.
Next Obligation. intros d. apply Forall_fmap, Forall_true. intros x. by apply Z.mod_pos_bound. Qed.
Next Obligation. intros d. apply Forall_fmap, Forall_true. intros x. by apply Z.mod_pos_bound. Qed.
Next Obligation. by intros [[|? ?] ? ?]. Qed.
Next Obligation. by intros [? [|? ?] ?]. Qed.
Next Obligation. intros [[|? ?] ? ?] c q; [done|]. by intros [= <- <-]. Qed.
Next Obligation. intros [? [|? ?] ?] c q; [done|]. by intros [= <- <-]. Qed.
Next Obligation. intros p d Hp. unfold poll_ports in Hp. rewrite !elem_of_cons in Hp. by destruct Hp as [->|[->|[->|[->|Hp%elem_of_nil]]]]. Qed.
Next Obligation. done. Qed.

Definition console_w (kq sq : list Z) : console devices :=
  Console (Devices kq sq []) 0xFFFF true (replicate 2000 blank) 1990 CGA_BASE true (replicate 512 0) 510 510 0 true.

Lemma console_w_ring kq sq : ring_ok (console_w kq sq) ∧ pending (console_w kq sq) = [].
Proof. split; [|done]. by split; cbn [console_w cons_buf rpos wpos]. Qed.

(** "Ab" typed on the keyboard, "x" and a delete byte at the serial port. *)
Lemma cons_getc_queue_witness :
  let s := console_w [0x2A; 0x1E; 0x9E; 0xAA; 0x30; 0xB0] [120; 127] in
  ∃ s', cons_getc 10 s = Ok (120, s') ∧ pending s' = [8; 65; 98] ∧ ring_ok s' ∧
    kbd_queue (dev s') = [] ∧ ser_queue (dev s') = [].
Proof.
  intros s. destruct (console_w_ring [0x2A; 0x1E; 0x9E; 0xAA; 0x30; 0xB0] [120; 127]) as [Hok Hp].
  destruct (cons_getc_queue 10 s [0; 65; 0; 0; 98; 0] 0) as (s' & Hg & Hp' & Hok' & _ & _ & Hk & Hs).
  - exact Hok.
  - vm_compute. reflexivity.
  - cbn. lia.
  - cbn. lia.
  - exists s'. split; [rewrite Hg; vm_compute; reflexivity|]. split; [rewrite Hp'; vm_compute; reflexivity|].
    split; [exact Hok'|]. split; [exact Hk|]. rewrite Hs. reflexivity.
Defined.
