(* ===== verification/ConsoleSpec.v ===== *)
(** * Formatted output and line input on the console

    Properties of console.c, stdio.c and readline.c together: [cprintf] draws
    the text of its format on the terminal, a text typed on the keyboard is
    decoded to itself, and [readline] edits and returns a line. *)

From stdpp Require Import base list numbers strings.
From Stdlib Require Import Ascii.
From S2P Require Import Prelude Mem CString Printfmt Console Stdio ConsoleOut ConsoleIn.

(** ** Output keeps the input *)

Section output.
Context {D : Type} `{InputLaws D}.
Implicit Types (s : console D).

(** The same input waits at the devices. *)
Definition same_input (d d' : D) : Prop := kbd_queue d' = kbd_queue d ∧ ser_queue d' = ser_queue d.

#[global] Instance same_input_preorder : PreOrder same_input.
Proof.
  split; [done|]. intros d1 d2 d3 [H1 H2] [H3 H4]. split; congruence.
Qed.

Lemma same_poll p d : p ∈ poll_ports → same_input d (port_in p d).2.
Proof. intros Hp. apply poll_keeps. by right. Qed.

Lemma same_out p v d : p ∈ out_ports → same_input d (port_out p v d).
Proof. apply out_keeps. Qed.

(** What output leaves unchanged. *)
Definition kept s s' : Prop :=
  ring s' = ring s ∧ shift s' = shift s ∧ serial_exists s' = serial_exists s ∧ same_input (dev s) (dev s').

#[global] Instance kept_preorder : PreOrder kept.
Proof.
  split; [done|]. intros s1 s2 s3 (? & ? & ? & ?) (? & ? & ? & ?). unfold kept. split_and!; try congruence. by etrans.
Qed.

Lemma cons_putc_kept c s t :
  shows s t → ∃ s', cons_putc c s = Ok s' ∧ kept s s' ∧ shows s' (term_put c t).
Proof.
  intros Ht. destruct (cons_putc_spec same_input same_poll same_out c s t Ht) as (d & b & p & -> & HQ & Hs).
  eexists. split; [done|]. by split.
Qed.

(** ** cprintf *)

(** The console and the counter after the characters [log]. *)
Definition printed (m : mem) s t (x : mem * (console D * Z)) (log : list Z) : Prop :=
  x.1 = m ∧ x.2.2 = zlen log ∧ kept s x.2.1 ∧ shows x.2.1 (term_text log t).

Lemma cputch_printed m s t c x log :
  printed m s t x log → zlen log < int_max → ∃ x', cputch c x = Ok x' ∧ printed m s t x' (log ++ [c]).
Proof.
  intros (Hm & Hn & Hk & Hs) Hlog. unfold cputch.
  destruct (cons_putc_kept c _ _ Hs) as (s' & -> & Hk' & Hs'). cbn [mbind outcome_bind].
  pose proof (zlen_nonneg log). rewrite Hn, cint_Ok by (unfold int_min, int_max in *; lia). cbn [mbind outcome_bind].
  eexists. split; [done|]. split_and!; cbn [fst snd]; [done| |by etrans|].
  - by rewrite zlen_app.
  - unfold term_text. by rewrite foldl_snoc.
Qed.

Lemma cprintf_printed lits m fmt ap s t l :
  text lits m fmt ap = Ok l → shows s t →
  ∃ s', cprintf lits fmt ap (m, s) = Ok (zlen l, (m, s')) ∧ kept s s' ∧ shows s' (term_text l t).
Proof.
  intros Htext Hs. unfold cprintf, vcprintf. cbn [fst snd].
  destruct (vprintfmt_text cputch lits m (printed m s t)) with (fmt := fmt) (ap := ap) (s := (m, (s, 0))) (l := l)
    as ([m' [s' n]] & -> & Hm & Hn & Hk & Hsh); try done.
  - by intros x log (-> & _).
  - intros c x log. apply cputch_printed.
  - cbn in *. subst. by exists s'.
Qed.

(** ** readline *)

(** Input [q] is available, in the queue and at the devices; modifiers [h]
    follow it. *)
Definition avail (fuel : nat) (q : list Z) (h : Z) s : Prop :=
  ring_ok s ∧ (length (ser_queue (dev s)) < fuel)%nat ∧
  ∃ l, key_run (shift s) (kbd_queue (dev s)) = Some (l, h) ∧ (length l < fuel)%nat ∧
    foldl enqueue (pending s) (ser_input s ++ filter (.≠ 0) l) = q.

Lemma avail_kept fuel q h s s' : avail fuel q h s → kept s s' → avail fuel q h s'.
Proof.
  intros (Hok & Hf & l & Hl & Hfl & Hq) ([Hok' Hp]%ring_eq & Hh & He & Hk & Hs). unfold avail, ser_input in *.
  rewrite Hok', Hs, Hp, He, Hh, Hk. split_and!; try done. by exists l.
Qed.

Lemma getchar_avail spin fuel c q h s :
  avail fuel (c :: q) h s → c ≠ 0 →
  ∃ s', getchar (S spin) fuel s = Ok (c, s') ∧ avail fuel q h s' ∧ fixed s' = fixed s.
Proof.
  intros (Hok & Hf & l & Hl & Hfl & Hq) Hc. unfold getchar. rewrite loop_unfold.
  destruct (cons_getc_spec fuel s l h Hok Hl Hf Hfl) as (s' & -> & Hp & Hok' & Hfix & Hh & Hk & Hs).
  rewrite Hq in *. cbn [mbind outcome_bind dequeue fst snd] in *. rewrite (proj2 (Z.eqb_neq _ _) Hc).
  eexists. split; [done|]. split; [|done]. split; [done|]. split.
  - rewrite Hs. destruct (serial_exists s); simpl; lia.
  - exists []. split; [by rewrite Hk, Hh|]. split; [simpl; lia|]. rewrite Hp. unfold ser_input.
    assert (serial_exists s' = serial_exists s) as -> by (unfold fixed in Hfix; congruence).
    rewrite Hs. by destruct (serial_exists s).
Qed.

Lemma fixed_shows s s' t : fixed s' = fixed s → shows s t → shows s' t.
Proof. unfold fixed, shows. intros [= _ _ -> -> -> _ _]. done. Qed.
End output.

(** The line after a character, and what is echoed: printable characters are
    appended while there is room, a back space deletes the last one. *)
Definition edit_step (l : list Z) (c : Z) : list Z * list Z :=
  if decide (32 ≤ c ∧ zlen l < BUFSIZE - 1) then (l ++ [c], [c])
  else if decide (c = 8 ∧ l ≠ []) then (removelast l, [c])
  else (l, []).

Fixpoint edit (l cs : list Z) : list Z * list Z :=
  match cs with
  | [] => (l, [])
  | c :: cs => let r := edit_step l c in let r' := edit r.1 cs in (r'.1, r.2 ++ r'.2)
  end.

Section readline.
Context {D : Type} `{InputLaws D}.
Implicit Types (s : console D).

Lemma cputchar_shown fuel q h c s t :
  avail fuel q h s → shows s t →
  ∃ s', cputchar c s = Ok s' ∧ avail fuel q h s' ∧ shows s' (term_put c t).
Proof.
  intros Ha Hs. destruct (cons_putc_kept c s t Hs) as (s' & Hput & Hk & Hs'). exists s'. split; [done|].
  split; [by eapply avail_kept|done].
Qed.

(** The buffer holds the line [l]. *)
Definition holds (buf l : list Z) : Prop := zlen buf = BUFSIZE ∧ zlen l < BUFSIZE ∧ take (length l) buf = l.

Lemma holds_snoc buf l c :
  holds buf l → 0 ≤ c < 256 → 
  aset buf (zlen l) (u8 c) = Ok (<[length l := c]> buf) ∧ zlen (<[length l := c]> buf) = BUFSIZE ∧
  take (length (l ++ [c])) (<[length l := c]> buf) = l ++ [c].
Proof.
  intros (Hb & Hl & Ht) Hc. unfold zlen in *. split_and!.
  - rewrite aset_Ok by (unfold zlen; lia). rewrite Nat2Z.id. unfold u8. by rewrite Z.mod_small.
  - by rewrite length_insert.
  - rewrite length_app. simpl. rewrite Nat.add_1_r.
    erewrite take_S_r by (apply list_lookup_insert_eq; lia). by rewrite take_insert_ge, Ht by lia.
Qed.

Lemma holds_pop buf l : holds buf l → holds buf (removelast l).
Proof.
  intros (Hb & Hl & Ht). split; [done|]. destruct l as [|x l _] using rev_ind; [done|].
  rewrite removelast_last. rewrite zlen_app in Hl. split; [change (zlen [x]) with 1 in Hl; lia|].
  apply (f_equal (take (length l))) in Ht. rewrite take_take, length_app in Ht. simpl in Ht.
  rewrite Nat.min_l, take_app_length in Ht by lia. done.
Qed.

Lemma readline_step_edit spin fuel h l c q buf s t :
  avail fuel (c :: q) h s → shows s t → holds buf l → 0 < c < 256 → c ≠ 10 → c ≠ 13 →
  ∃ buf' s', readline_step (S spin) fuel (zlen l, buf, s) = Ok (inl (zlen (edit_step l c).1, buf', s')) ∧
    avail fuel q h s' ∧ holds buf' (edit_step l c).1 ∧ shows s' (term_text (edit_step l c).2 t).
Proof.
  intros Ha Hs Hb Hc H10 H13. unfold readline_step.
  destruct (getchar_avail spin fuel c q h s Ha) as (s1 & -> & Ha1 & Hfix); [lia|]. cbn [mbind outcome_bind fst snd].
  apply (fixed_shows _ s1) in Hs; [|done].
  rewrite (proj2 (Z.ltb_ge c 0)) by lia. unfold edit_step.
  rewrite (proj2 (Z.eqb_neq c 10)), (proj2 (Z.eqb_neq c 13)) by done. cbn [orb].
  destruct (decide (32 ≤ c ∧ zlen l < BUFSIZE - 1)) as [[H32 Hroom]|Hno].
  - rewrite (proj2 (Z.leb_le 32 c)), (proj2 (Z.ltb_lt (zlen l) _)) by done. cbn [andb fst snd].
    destruct (cputchar_shown fuel q h c s1 t Ha1 Hs) as (s2 & -> & Ha2 & Hs2). cbn [mbind outcome_bind].
    destruct (holds_snoc buf l c Hb) as (-> & Hlen & Htake); [lia|]. cbn [mbind outcome_bind].
    eexists _, s2. rewrite zlen_app. change (zlen [c]) with 1. split; [done|]. split; [done|].
    split; [|done]. split; [done|]. split; [|done]. rewrite zlen_app. change (zlen [c]) with 1. lia.
  - replace ((32 <=? c) && (zlen l <? BUFSIZE - 1)) with false.
    2: { symmetry. apply andb_false_iff. rewrite Z.leb_gt, Z.ltb_ge. lia. }
    destruct (decide (c = 8 ∧ l ≠ [])) as [[-> Hl]|Hno8].
    + assert (0 < zlen l) as Hpos by (destruct l; [done|]; unfold zlen; simpl; lia).
      rewrite Z.eqb_refl, (proj2 (Z.ltb_lt 0 _)) by done. cbn [andb fst snd].
      destruct (cputchar_shown fuel q h 8 s1 t Ha1 Hs) as (s2 & -> & Ha2 & Hs2). cbn [mbind outcome_bind].
      exists buf, s2. split; [|split; [done|split; [by apply holds_pop|done]]].
      do 4 f_equal. destruct l as [|x l _] using rev_ind; [done|].
      rewrite removelast_last, zlen_app. change (zlen [x]) with 1. lia.
    + replace ((c =? 8) && (0 <? zlen l)) with false.
      2: { symmetry. apply andb_false_iff. rewrite Z.eqb_neq, Z.ltb_ge.
           destruct (decide (c = 8)) as [->|]; [right|by left].
           destruct l; [done|]. exfalso. by apply Hno8. }
      exists buf, s1. done.
Qed.

(** The whole line: the characters [cs], a line end [e] and what follows it. *)
Lemma readline_loop spin fuel h cs : ∀ chars l e q buf s t,
  avail fuel (cs ++ e :: q) h s → shows s t → holds buf l →
  Forall (λ c, 0 < c < 256 ∧ c ≠ 10 ∧ c ≠ 13) cs → e = 10 ∨ e = 13 → (length cs < chars)%nat →
  ∃ buf' s', loop chars (readline_step (S spin) fuel) (zlen l, buf, s) = Ok (true, buf', s') ∧
    avail fuel q h s' ∧ take (S (length (edit l cs).1)) buf' = (edit l cs).1 ++ [0] ∧
    shows s' (term_text ((edit l cs).2 ++ [e]) t).
Proof.
  induction cs as [|c cs IH]; intros chars l e q buf s t Ha Hs Hb Hcs He Hn;
    (destruct chars as [|chars]; [simpl in Hn; lia|]); rewrite loop_unfold.
  - unfold readline_step. cbn [app] in Ha.
    destruct (getchar_avail spin fuel e q h s Ha) as (s1 & -> & Ha1 & Hfix); [lia|]. cbn [mbind outcome_bind fst snd].
    apply (fixed_shows _ s1) in Hs; [|done].
    rewrite (proj2 (Z.ltb_ge e 0)), (proj2 (Z.leb_gt 32 e)), (proj2 (Z.eqb_neq e 8)) by lia. cbn [andb].
    replace ((e =? 10) || (e =? 13)) with true by (by destruct He as [-> | ->]).
    destruct (cputchar_shown fuel q h e s1 t Ha1 Hs) as (s2 & -> & Ha2 & Hs2). cbn [mbind outcome_bind].
    destruct (holds_snoc buf l 0 Hb) as (Hset & _ & Htake); [lia|]. change (u8 0) with 0 in Hset.
    rewrite Hset. cbn [mbind outcome_bind]. eexists _, s2. split; [done|]. cbn [edit fst snd].
    rewrite length_app, Nat.add_1_r in Htake. done.
  - apply Forall_cons in Hcs as [(Hc & H10 & H13) Hcs].
    destruct (readline_step_edit spin fuel h l c (cs ++ e :: q) buf s t) as (buf1 & s1 & -> & Ha1 & Hb1 & Hs1); try done.
    cbn [mbind outcome_bind].
    destruct (IH chars (edit_step l c).1 e q buf1 s1 _ Ha1 Hs1 Hb1 Hcs He) as (buf' & s' & -> & Ha' & Ht' & Hs'); [simpl in Hn; lia|].
    exists buf', s'. split; [done|]. split; [done|]. split; [done|]. cbn [edit snd]. cbv zeta.
    unfold term_text in *. rewrite <-(assoc_L (++)), foldl_app. done.
Qed.

(** "%s", where the prompt is printed. *)
Definition pct_s_text : list Z := [37; 115; 0].

Lemma text_string_id lits (m : mem) f p str :
  bytes_at m f pct_s_text → str_at m p str → p ≠ 0 → zlen str < 100000000 →
  text lits m f [p] = Ok (schar <$> str).
Proof.
  intros Hf Hp Hp0 Hl. set (d := Directive None false None None 0 Cs).
  assert (Hren : render [([], d)] [VStr p str] ++ [] = schar <$> str).
  { cbn [render]. rewrite !app_nil_r. cbn [app]. unfold render_directive, text_string.
    cbn [d d_conv d_alt]. change (pad_of d) with 32. change (width_of d) with (-1). change (prec_of d) with (-1).
    cbn [Z.eqb Pos.eqb]. unfold cut. cbn [Z.ltb Z.compare]. unfold shown_char. cbn [andb].
    pose proof (zlen_nonneg (schar <$> str)). by replace (Z.to_nat (-1 - zlen (schar <$> str))) with O by lia. }
  rewrite <-Hren. change [p] with (all_words [([], d)] [VStr p str] ++ []). apply vprintfmt_render.
  - done.
  - by constructor.
  - constructor; [|constructor]. cbn [fst snd]. split; [by constructor|]. split; [unfold directive_ok; cbn [d d_pad d_width d_prec d_long small]; auto with lia|].
    unfold value_ok. cbn [d d_conv]. by rewrite (proj2 (Z.eqb_neq p 0)).
  - rewrite Hren, zlen_fmap. unfold int_max. lia.
Qed.

Lemma readline_line lits spin fuel chars h cs e q pct prompt str (m : mem) buf s t :
  avail fuel (cs ++ e :: q) h s → shows s t → zlen buf = BUFSIZE →
  Forall (λ c, 0 < c < 256 ∧ c ≠ 10 ∧ c ≠ 13) cs → e = 10 ∨ e = 13 → (length cs < chars)%nat →
  (if prompt =? NULL then str = [] else bytes_at m pct pct_s_text ∧ str_at m prompt str ∧ zlen str < 100000000) →
  ∃ buf' s', readline lits (S spin) fuel chars pct prompt buf (m, s) = Ok (true, buf', (m, s')) ∧
    avail fuel q h s' ∧ take (S (length (edit [] cs).1)) buf' = (edit [] cs).1 ++ [0] ∧
    shows s' (term_text ((schar <$> str) ++ (edit [] cs).2 ++ [e]) t).
Proof.
  intros Ha Hs Hb Hcs He Hn Hprompt. unfold readline.
  assert (Hp : ∃ s1, (if negb (prompt =? NULL) then r ← cprintf lits pct [prompt] (m, s); Ok r.2 else Ok (m, s)) = Ok (m, s1) ∧
    avail fuel (cs ++ e :: q) h s1 ∧ shows s1 (term_text (schar <$> str) t)).
  { destruct (Z.eqb_spec prompt NULL) as [->|Hne]; cbn [negb].
    - subst str. by exists s.
    - destruct Hprompt as (Hf & Hstr & Hlen).
      destruct (cprintf_printed lits m pct [prompt] s t (schar <$> str)) as (s1 & -> & Hk & Hs1);
        [by apply text_string_id|done|]. exists s1. split; [done|]. split; [by eapply avail_kept|done]. }
  destruct Hp as (s1 & -> & Ha1 & Hs1). cbn [mbind outcome_bind fst snd].
  destruct (readline_loop spin fuel h cs chars [] e q buf s1 _ Ha1 Hs1) as (buf' & s' & Hl & Ha' & Ht & Hs'); try done.
  change (zlen []) with 0 in Hl. rewrite Hl. cbn [mbind outcome_bind fst snd].
  exists buf', s'. split; [done|]. split; [done|]. split; [done|]. unfold term_text in *. by rewrite foldl_app.
Qed.
End readline.

(** ** The keyboard layout

    The keys of an American keyboard: the scan code of the first key of a row,
    its characters, and those with a shift key. *)

Definition codes (s : string) : list Z := (λ c, Z.of_nat (nat_of_ascii c)) <$> String.list_ascii_of_string s.

Definition layout : list (Z * list Z * list Z) :=
  [(0x02, codes "1234567890-=", codes "!@#$%^&*()_+");
   (0x10, codes "qwertyuiop[]", codes "QWERTYUIOP{}");
   (0x1E, codes "asdfghjkl;'`", codes (String.append "ASDFGHJKL:" (String (ascii_of_nat 34) "~")));
   (0x2B, codes "\zxcvbnm,./", codes "|ZXCVBNM<>?");
   (0x39, codes " ", [])].

Definition keys_of_row (r : Z * list Z * list Z) : list (Z * list Z) :=
  let '(k, plain, shifted) := r in
  imap (λ i c, (c, [k + Z.of_nat i; k + Z.of_nat i + 0x80])) plain ++
  imap (λ i c, (c, [0x2A; k + Z.of_nat i; k + Z.of_nat i + 0x80; 0xAA])) shifted.

(** The scan codes of typing a character: press and release its key, with the
    left shift key held where it is needed; a line end is the return key. *)
Definition keys_of (c : Z) : list Z :=
  if c =? 10 then [0x1C; 0x9C]
  else match list_find (λ kc, kc.1 = c) (mjoin (keys_of_row <$> layout)) with
       | Some (_, kc) => kc.2
       | None => []
       end.

Definition typed (l : list Z) : list Z := mjoin (keys_of <$> l).
Definition typable (c : Z) : Prop := c = 10 ∨ 32 ≤ c < 127.

(** Neither shift, control, alt and caps lock nor an escape is in force. *)
Definition unmodified (h : Z) : Prop := h ∈ [0; NUMLOCK; SCROLLLOCK; Z.lor NUMLOCK SCROLLLOCK].

Lemma key_run_app h l k :
  key_run h (l ++ k) = r ← key_run h l; r' ← key_run r.2 k; Some (r.1 ++ r'.1, r'.2).
Proof.
  revert h. induction l as [|c l IH]; intros h; simpl.
  { by destruct (key_run h k) as [[??]|]. }
  destruct (key_step h c) as [[h1 c1]|]; simpl; [|done]. rewrite IH.
  destruct (key_run h1 l) as [[r1 h2]|]; simpl; [|done]. by destruct (key_run h2 k) as [[r2 h3]|].
Qed.

(** One character typed. *)
Definition types (h c : Z) : bool := bool_decide (key_chars h (keys_of c) = Some ([c], h)).

Lemma all_typed :
  forallb (λ h, forallb (types h) (10 :: seqZ 32 95)) [0; NUMLOCK; SCROLLLOCK; Z.lor NUMLOCK SCROLLLOCK] = true.
Proof. by vm_compute. Qed.

Lemma type_char h c : unmodified h → typable c → key_chars h (keys_of c) = Some ([c], h).
Proof.
  intros Hh Hc. pose proof all_typed as Hall. rewrite forallb_forall in Hall.
  specialize (Hall h (proj1 (list_elem_of_In _ _) Hh)). rewrite forallb_forall in Hall.
  apply (bool_decide_eq_true_1 _), Hall, list_elem_of_In. apply elem_of_cons.
  destruct Hc as [->|Hc]; [by left|right]. apply elem_of_seqZ. lia.
Qed.

Lemma type_chars h l : unmodified h → Forall typable l → key_chars h (typed l) = Some (l, h).
Proof.
  intros Hh. induction 1 as [|c l Hc Hl IH]; [done|].
  pose proof (type_char h c Hh Hc) as H1. unfold key_chars, typed in *. cbn [fmap list_fmap mjoin list_join].
  rewrite key_run_app. destruct (key_run h (keys_of c)) as [[r1 h1]|]; simpl in *; [|done].
  injection H1 as Hf ->. destruct (key_run h (mjoin (keys_of <$> l))) as [[r2 h2]|]; simpl in *; [|done].
  injection IH as Hf2 ->. by rewrite filter_app, Hf, Hf2.
Qed.

Lemma key_run_length h l r h' : key_run h l = Some (r, h') → length r = length l.
Proof.
  revert h r. induction l as [|c l IH]; intros h r; simpl; [by intros [= <- _]|].
  destruct (key_step h c) as [[h1 c1]|]; simpl; [|done].
  destruct (key_run h1 l) as [[r2 h2]|] eqn:E; simpl; [|done]. intros [= <- <-]. simpl. f_equal. by eapply IH.
Qed.

Lemma edit_printable l : ∀ l0, Forall (λ c, 32 ≤ c) l → zlen l0 + zlen l < BUFSIZE → edit l0 l = (l0 ++ l, l).
Proof.
  induction l as [|c l IH]; intros l0 Hl Hn; [by rewrite app_nil_r|].
  apply Forall_cons in Hl as [Hc Hl]. change (c :: l) with ([c] ++ l) in Hn. rewrite zlen_app in Hn.
  change (zlen [c]) with 1 in Hn. pose proof (zlen_nonneg l). cbn [edit]. unfold edit_step. rewrite decide_True by lia. cbn [fst snd].
  rewrite IH; [|done|rewrite zlen_app; change (zlen [c]) with 1; lia]. cbn [fst snd]. by rewrite <-(assoc_L (++)).
Qed.

(** ** Properties *)

(** [cprintf] on the console: when the format denotes the text [l]
    (Printfmt.v), the call draws exactly [l] on the terminal, answers the
    number of its characters, and takes no input. *)
Theorem cprintf_terminal {D} `{InputLaws D} lits (m : mem) fmt ap (s : console D) t l :
  text lits m fmt ap = Ok l → shows s t →
  ∃ s', cprintf lits fmt ap (m, s) = Ok (zlen l, (m, s')) ∧ kept s s' ∧ shows s' (term_text l t).
Proof. apply cprintf_printed. Qed.

(** [C20] Typing is decoded to what is typed: for every text of printable
    characters and line ends, the scan codes of a keyboard with the American
    layout decode to the text itself and leave the modifiers as they were. *)
Theorem typed_text_decodes h l :
  unmodified h → Forall typable l → key_chars h (typed l) = Some (l, h).
Proof. apply type_chars. Qed.

(** [readline] returns the edited line: when the available input is [cs],
    a line end and more, it prints the prompt, echoes, leaves the line that
    appending and deleting characters make in the buffer, terminated, shows
    both on the terminal, and leaves the input behind the line end for the
    next call. *)
Theorem readline_edits {D} `{InputLaws D} lits spin fuel chars h cs e q pct prompt str (m : mem) buf (s : console D) t :
  avail fuel (cs ++ e :: q) h s → shows s t → zlen buf = BUFSIZE →
  Forall (λ c, 0 < c < 256 ∧ c ≠ 10 ∧ c ≠ 13) cs → e = 10 ∨ e = 13 → (length cs < chars)%nat →
  (if prompt =? NULL then str = [] else bytes_at m pct pct_s_text ∧ str_at m prompt str ∧ zlen str < 100000000) →
  ∃ buf' s', readline lits (S spin) fuel chars pct prompt buf (m, s) = Ok (true, buf', (m, s')) ∧
    avail fuel q h s' ∧ take (S (length (edit [] cs).1)) buf' = (edit [] cs).1 ++ [0] ∧
    shows s' (term_text ((schar <$> str) ++ (edit [] cs).2 ++ [e]) t).
Proof. apply readline_line. Qed.

(** [C21] From the keyboard to the line: whatever printable line of up to 510
    characters has been typed, [readline] ends and its buffer holds that line;
    each poll needs no more iterations than there are scan codes. *)
Theorem readline_typed {D} `{InputLaws D} lits spin fuel chars (m : mem) buf (s : console D) t l :
  ring_ok s → pending s = [] → ser_queue (dev s) = [] → unmodified (shift s) →
  kbd_queue (dev s) = typed (l ++ [10]) → Forall (λ c, 32 ≤ c < 127) l → (length l ≤ 510)%nat →
  shows s t → zlen buf = BUFSIZE → (length (typed (l ++ [10%Z])) < fuel)%nat → (length l < chars)%nat →
  ∃ buf' s', readline lits (S spin) fuel chars NULL NULL buf (m, s) = Ok (true, buf', (m, s')) ∧
    take (S (length l)) buf' = l ++ [0] ∧ shows s' (term_text (l ++ [10]) t).
Proof.
  intros Hok Hp Hser Hh Hk Hl Hlen Hs Hb Hfuel Hchars.
  assert (Ht : key_chars (shift s) (typed (l ++ [10])) = Some (l ++ [10], shift s)).
  { apply type_chars; [done|]. apply Forall_app. split; [|by repeat constructor].
    eapply Forall_impl; [exact Hl|]. intros c Hc. by right. }
  unfold key_chars in Ht. destruct (key_run (shift s) (typed (l ++ [10]))) as [[r h]|] eqn:Hrun; [|done].
  simpl in Ht. injection Ht as Hr ->.
  assert (Ha : avail fuel (l ++ 10 :: []) (shift s) s).
  { split; [done|]. rewrite Hser, Hk. split; [simpl; lia|]. exists r. split; [done|].
    split; [by rewrite (key_run_length _ _ _ _ Hrun)|]. rewrite Hp, Hr. unfold ser_input. rewrite Hser.
    assert ((if serial_exists s then filter (.≠ 0) (ser_char <$> []) else []) = []) as -> by (by destruct (serial_exists s)).
    cbn [app]. rewrite enqueue_fits; [done|]. rewrite length_app. simpl. lia. }
  destruct (readline_line lits spin fuel chars (shift s) l 10 [] NULL NULL [] m buf s t)
    as (buf' & s' & Hrd & _ & Htake & Hs'); try done.
  - eapply Forall_impl; [exact Hl|]. intros c Hc. simpl in Hc. lia.
  - by left.
  - assert (edit [] l = (l, l)) as E.
    { rewrite edit_printable; [done| |unfold zlen, BUFSIZE; simpl; lia].
      eapply Forall_impl; [exact Hl|]. intros c Hc. simpl in Hc. lia. }
    rewrite E in Htake, Hs'. by exists buf', s'.
Qed.

(** ** Witnesses *)

Lemma blank_shows kq sq : shows (console_w kq sq) (Term (replicate height (replicate width blank)) 24 70).
Proof. split; [|by right]. split; try done; try (unfold height, width; cbn; lia). by repeat constructor. Qed.

Definition blank_term : term := Term (replicate height (replicate width blank)) 24 70.

(** "%5d|%s" of Printfmt.v with -3 and "hello" at the end of the last line. *)
Lemma cprintf_terminal_witness :
  ∃ s', cprintf lits_w 100 [u32 (-3); 200] (mem_text, console_w [] []) = Ok (12, (mem_text, s')) ∧
    shows s' (term_text [45; 32; 32; 32; 32; 51; 124; 104; 101; 108; 108; 111] blank_term).
Proof.
  assert (text lits_w mem_text 100 [u32 (-3); 200] = Ok [45; 32; 32; 32; 32; 51; 124; 104; 101; 108; 108; 111]) as Ht
    by (vm_compute; reflexivity).
  destruct (cprintf_terminal lits_w mem_text 100 [u32 (-3); 200] (console_w [] []) blank_term _ Ht (blank_shows [] []))
    as (s' & H1 & _ & H2).
  exists s'. split; [exact H1|exact H2].
Defined.

Lemma typed_text_decodes_witness :
  key_chars NUMLOCK [0x2A; 0x23; 0xA3; 0xAA; 0x17; 0x97; 0x1C; 0x9C] = Some ([72; 105; 10], NUMLOCK).
Proof.
  apply (typed_text_decodes NUMLOCK [72; 105; 10]).
  - right. left.
  - repeat constructor; unfold typable; lia.
Defined.

(** "ab", a back space and "c" have arrived from the keyboard. *)
Lemma readline_edits_witness :
  ∃ buf' s', readline lits_w 1 20 10 300 200 (replicate 1024 0)
      (put (put ∅ 300 pct_s_text) 200 [104; 105; 0],
       console_w [0x1E; 0x9E; 0x30; 0xB0; 0x0E; 0x8E; 0x2E; 0xAE; 0x1C; 0x9C] []) =
      Ok (true, buf', (put (put ∅ 300 pct_s_text) 200 [104; 105; 0], s')) ∧
    take 3 buf' = [97; 99; 0] ∧ shows s' (term_text [104; 105; 97; 98; 8; 99; 10] blank_term).
Proof.
  destruct (readline_edits lits_w 0 20 10 0 [97; 98; 8; 99] 10 [] 300 200 [104; 105]
    (put (put ∅ 300 pct_s_text) 200 [104; 105; 0]) (replicate 1024 0)
    (console_w [0x1E; 0x9E; 0x30; 0xB0; 0x0E; 0x8E; 0x2E; 0xAE; 0x1C; 0x9C] []) blank_term)
    as (buf' & s' & H1 & _ & H2 & H3).
  - split; [apply console_w_ring|]. split; [cbn; lia|]. exists [97; 0; 98; 0; 8; 0; 99; 0; 10; 0].
    split; [vm_compute; reflexivity|]. split; [cbn; lia|vm_compute; reflexivity].
  - apply blank_shows.
  - reflexivity.
  - repeat constructor; lia.
  - left. reflexivity.
  - cbn. lia.
  - cbn [Z.eqb NULL Pos.eqb]. split; [|split].
    + repeat (apply bytes_at_cons; split; [reflexivity|]). intros [|]; done.
    + split; [|repeat constructor; lia]. repeat (apply bytes_at_cons; split; [reflexivity|]). intros [|]; done.
    + reflexivity.
  - exists buf', s'. split; [exact H1|]. split; [exact H2|exact H3].
Defined.

Lemma readline_typed_witness :
  ∃ buf' s', readline lits_w 1 10 5 NULL NULL (replicate 1024 0)
      (∅, console_w (typed [72; 105; 10]) []) = Ok (true, buf', (∅, s')) ∧
    take 3 buf' = [72; 105; 0] ∧ shows s' (term_text [72; 105; 10] blank_term).
Proof.
  destruct (readline_typed lits_w 0 10 5 ∅ (replicate 1024 0) (console_w (typed [72; 105; 10]) []) blank_term [72; 105])
    as (buf' & s' & H1 & H2 & H3).
  - apply console_w_ring.
  - apply console_w_ring.
  - reflexivity.
  - left.
  - vm_compute. reflexivity.
  - repeat constructor; lia.
  - cbn. lia.
  - apply blank_shows.
  - reflexivity.
  - vm_compute. lia.
  - cbn. lia.
  - exists buf', s'. split; [exact H1|]. split; [exact H2|exact H3].
Defined.
