(* ===== verification/Scheduler.v ===== *)
(** * scheduler.c: the queue of tasks, the threads and their signals

    Models src/Labweek16/scheduler.c.  The queue is linked through nodes on the
    heap and changed by the functions of the code, pointer by pointer.  The
    threads are a state machine: where each one waits, and which signals are
    pending for it.  A signal is delivered some time after it was sent, in any
    order; a critical section of the mutex and a signal handler are one step.
    The times the program measures and prints are not modelled. *)

From stdpp Require Import base gmap list.
From S2P Require Import Prelude Heap.

Definition STATUS_RUNNING : Z := 1.
Definition STATUS_READY : Z := 2.
Definition STATUS_WAITING : Z := 3.

Definition POLICY_FCFS : Z := 1.
Definition POLICY_SJF_PEM : Z := 2.
Definition POLICY_SJF_NOT_PEM : Z := 3.
Definition POLICY_PRIORITY_PEM : Z := 4.
Definition POLICY_PRIORITY_NOT_PEM : Z := 5.

Record Tasknode := Node {
  arrival_time : Z;
  WCT : Z;
  priority : Z;
  schedule_status : Z;
  ptid : Z;
  wait_sem : Z;
  next : Z
}.

Definition set_next (p : Z) (x : Tasknode) : Tasknode :=
  Node (arrival_time x) (WCT x) (priority x) (schedule_status x) (ptid x) (wait_sem x) p.
Definition set_status (v : Z) (x : Tasknode) : Tasknode :=
  Node (arrival_time x) (WCT x) (priority x) v (ptid x) (wait_sem x) (next x).
Definition set_ptid (v : Z) (x : Tasknode) : Tasknode :=
  Node (arrival_time x) (WCT x) (priority x) (schedule_status x) v (wait_sem x) (next x).
Definition set_sem (v : Z) (x : Tasknode) : Tasknode :=
  Node (arrival_time x) (WCT x) (priority x) (schedule_status x) (ptid x) v (next x).

(** ** The queue: the nodes and [sched.head] *)

Definition squeue : Type := heap Tasknode * Z.

Definition fuel_of (h : heap Tasknode) : nat := S (size (cells h)).

(** What the memory of a new node held before; the fields that are not set here
    are set before they are read. *)
Definition garbage : Tasknode := Node 0 0 0 0 0 0 NULL.

(** The node is filled without a test of the result of [malloc], which finds
    memory if [mem]; the program exits when [sem_init] fails.  A node is not
    allocated with the address of another one. *)
Definition creat_thread_node (mem sem : bool) (arrival wct prio : Z) (h : heap Tasknode)
  : outcome (Z * heap Tasknode) :=
  let '(new_node, h) := try_malloc mem h garbage in
  h ← update h new_node (λ x, Node arrival wct prio (schedule_status x) (ptid x) (wait_sem x) NULL);
  if sem then h ← update h new_node (set_sem 0); Ok (new_node, h) else Err Panic.

Definition fcfs (new_node : Z) (q : squeue) : outcome squeue :=
  let '(h, head) := q in
  if head =? NULL then Ok (h, new_node)
  else
    cur ← loop (fuel_of h)
      (λ cur, x ← load h cur; if negb (next x =? NULL) then Ok (inl (next x)) else Ok (inr cur)) head;
    h ← update h cur (set_next new_node); Ok (h, head).

(** [while (cur_node != NULL && stay)]: the nodes before and at the place found. *)
Definition seek (h : heap Tasknode) (stay : Tasknode → bool) (pre cur : Z) : outcome (Z * Z) :=
  loop (fuel_of h)
    (λ '(pre, cur),
       if cur =? NULL then Ok (inr (pre, cur))
       else x ← load h cur; if stay x then Ok (inl (cur, next x)) else Ok (inr (pre, cur))) (pre, cur).

(** [pre_node->next = new_node; new_node->next = cur_node;] *)
Definition link_between (pre new_node cur : Z) (h : heap Tasknode) : outcome (heap Tasknode) :=
  h ← update h pre (set_next new_node); update h new_node (set_next cur).

Definition sjf_pem (new_node : Z) (q : squeue) : outcome squeue :=
  let '(h, head) := q in
  if head =? NULL then Ok (h, new_node)
  else
    new ← load h new_node; hd ← load h head;
    if WCT new <? WCT hd then h ← update h new_node (set_next head); Ok (h, new_node)
    else
      r ← seek h (λ cur, WCT cur <=? WCT new) NULL head;
      h ← link_between r.1 new_node r.2 h; Ok (h, head).

Definition sjf_not_pem (new_node : Z) (q : squeue) : outcome squeue :=
  let '(h, head) := q in
  if head =? NULL then Ok (h, new_node)
  else
    new ← load h new_node; hd ← load h head;
    r ← seek h (λ cur, WCT cur <=? WCT new) head (next hd);
    h ← link_between r.1 new_node r.2 h; Ok (h, head).

Definition priority_pem (new_node : Z) (q : squeue) : outcome squeue :=
  let '(h, head) := q in
  if head =? NULL then Ok (h, new_node)
  else
    new ← load h new_node; hd ← load h head;
    if priority hd <? priority new then h ← update h new_node (set_next head); Ok (h, new_node)
    else
      r ← seek h (λ cur, priority new <=? priority cur) NULL head;
      h ← link_between r.1 new_node r.2 h; Ok (h, head).

Definition priority_not_pem (new_node : Z) (q : squeue) : outcome squeue :=
  let '(h, head) := q in
  if head =? NULL then Ok (h, new_node)
  else
    new ← load h new_node; hd ← load h head;
    r ← seek h (λ cur, priority new <=? priority cur) head (next hd);
    h ← link_between r.1 new_node r.2 h; Ok (h, head).

(** The [switch] of [add_task]. *)
Definition enqueue (sched_policy node : Z) (q : squeue) : outcome squeue :=
  if sched_policy =? POLICY_FCFS then fcfs node q
  else if sched_policy =? POLICY_SJF_PEM then sjf_pem node q
  else if sched_policy =? POLICY_SJF_NOT_PEM then sjf_not_pem node q
  else if sched_policy =? POLICY_PRIORITY_PEM then priority_pem node q
  else if sched_policy =? POLICY_PRIORITY_NOT_PEM then priority_not_pem node q
  else Ok q.

(** ** Threads

    Where a thread of [task_runner] is: before [add_task], in [sem_wait], in
    [nanosleep], in the [sigsuspend] of the handler of SIGUSR1, or at its end. *)

Inductive place := Arriving | InSem | Executing | Suspended | Finished.

#[global] Instance place_eq_dec : EqDecision place.
Proof. solve_decision. Defined.

(** [task_node] is the argument of the thread; [usr1] and [cont] are its
    pending signals. *)
Record thread := Thread { pc : place; task_node : Z; usr1 : bool; cont : bool }.

Record world := World {
  nodes : heap Tasknode;
  sched_head : Z;
  schedule_policy : Z;
  finished_task : Z;
  threads : gmap Z thread;
  usr2 : bool   (** SIGUSR2 is pending for the thread of the scheduler *)
}.

Definition set_queue (q : squeue) (w : world) : world :=
  World q.1 q.2 (schedule_policy w) (finished_task w) (threads w) (usr2 w).
Definition set_threads (t : gmap Z thread) (w : world) : world :=
  World (nodes w) (sched_head w) (schedule_policy w) (finished_task w) t (usr2 w).
Definition set_usr2 (b : bool) (w : world) : world :=
  World (nodes w) (sched_head w) (schedule_policy w) (finished_task w) (threads w) b.
Definition count_finished (w : world) : world :=
  World (nodes w) (sched_head w) (schedule_policy w) (finished_task w + 1) (threads w) (usr2 w).

Definition set_usr1 (b : bool) (t : thread) : thread := Thread (pc t) (task_node t) b (cont t).
Definition set_cont (b : bool) (t : thread) : thread := Thread (pc t) (task_node t) (usr1 t) b.
Definition set_pc (p : place) (t : thread) : thread := Thread p (task_node t) (usr1 t) (cont t).

(** [pthread_kill]: the signal becomes pending; a thread that has ended takes
    no signal. *)
Definition pthread_kill (id : Z) (sig : thread → thread) (w : world) : world :=
  set_threads (alter (λ t, if decide (pc t = Finished) then t else sig t) id (threads w)) w.

Definition upd_node (p : Z) (f : Tasknode → Tasknode) (w : world) : outcome world :=
  h ← update (nodes w) p f; Ok (set_queue (h, sched_head w) w).

(** The initial state of [init_scheduler], with the policy that
    [cal_aver_wait_time] sets, and one thread of its creation loop, which exits
    the program when [pthread_create] fails. *)
Definition init_scheduler (policy : Z) : world := World (empty_heap Tasknode) NULL policy 0 ∅ false.

Definition create_task (mem sem starts : bool) (id arrival wct prio : Z) (w : world) : outcome world :=
  '(p, h) ← creat_thread_node mem sem arrival wct prio (nodes w);
  if starts then
    Ok (set_threads (<[id := Thread Arriving p false false]> (threads w)) (set_queue (h, sched_head w) w))
  else Err Panic.

Definition add_task (node sched_policy : Z) (w : world) : outcome world :=
  w ← (if negb (sched_head w =? NULL) then
         hd ← load (nodes w) (sched_head w);
         upd_node (sched_head w) (set_status STATUS_READY) (pthread_kill (ptid hd) (set_usr1 true) w)
       else Ok w);
  w ← upd_node node (set_status STATUS_WAITING) w;
  q ← enqueue sched_policy node (nodes w, sched_head w);
  Ok (set_usr2 true (set_queue q w)).

Definition delete_task (w : world) : outcome world :=
  let temp := sched_head w in
  x ← load (nodes w) temp;
  h ← free (nodes w) temp;
  let w := set_queue (h, next x) w in
  if negb (next x =? NULL) then
    hd ← load h (next x); Ok (pthread_kill (ptid hd) (set_cont true) w)
  else Ok w.

Definition sched_run_sighand (w : world) : outcome world :=
  hd ← load (nodes w) (sched_head w);
  if schedule_status hd =? STATUS_WAITING then
    upd_node (sched_head w) (λ x, set_sem (wait_sem x + 1) (set_status STATUS_RUNNING x)) w
  else if schedule_status hd =? STATUS_READY then
    w ← upd_node (sched_head w) (set_status STATUS_RUNNING) w;
    Ok (pthread_kill (ptid hd) (set_cont true) w)
  else Ok w.

(** ** Steps

    What can happen next.  [None]: not possible in this state. *)

Inductive action :=
| Arrive (id : Z)     (** [sleep] is over: the thread calls [add_task] *)
| Wake (id : Z)       (** [sem_wait] finds a positive semaphore *)
| Stop (id : Z)       (** SIGUSR1 is delivered: [thread_wait_sighand] suspends the thread *)
| Continue (id : Z)   (** SIGCONT is delivered: [sigsuspend] ends, [sem_wait] ends with EINTR *)
| Pick                (** SIGUSR2 is delivered: [sched_run_sighand] *)
| Finish (id : Z).    (** [nanosleep] is over: the thread calls [delete_task] *)

Definition goto (id : Z) (t : thread) (w : world) : world := set_threads (<[id := t]> (threads w)) w.

Definition fire (a : action) (w : world) : option (outcome world) :=
  match a with
  | Arrive id =>
      t ← threads w !! id;
      if decide (pc t = Arriving) then
        Some (w ← upd_node (task_node t) (set_ptid id) w;
              w ← add_task (task_node t) (schedule_policy w) w;
              Ok (set_threads (alter (set_pc InSem) id (threads w)) w))
      else None
  | Wake id =>
      t ← threads w !! id;
      if decide (pc t = InSem) then
        match load (nodes w) (task_node t) with
        | Ok x =>
            if 0 <? wait_sem x then
              Some (w ← upd_node (task_node t) (set_sem (wait_sem x - 1)) w; Ok (goto id (set_pc Executing t) w))
            else None
        | Err e => Some (Err e)
        end
      else None
  | Stop id =>
      t ← threads w !! id;
      if usr1 t then Some (Ok (goto id (set_usr1 false (set_pc Suspended t)) w)) else None
  | Continue id =>
      t ← threads w !! id;
      if cont t then Some (Ok (goto id (set_cont false (set_pc Executing t)) w)) else None
  | Pick => if usr2 w then Some (sched_run_sighand (set_usr2 false w)) else None
  | Finish id =>
      t ← threads w !! id;
      if decide (pc t = Executing) then
        Some (w ← delete_task w;
              Ok (count_finished (set_threads (alter (set_pc Finished) id (threads w)) w)))
      else None
  end.
