(* ===== verification/SchedulerQueue.v ===== *)
(** * The queue of scheduler.c keeps the order of its policy

    The five insertion functions of Scheduler.v end and implement insertion
    into a list: behind all tasks that go first, or behind the running one for
    the policies that are not preemptive. *)

From stdpp Require Import base gmap list sorting.
From S2P Require Import Prelude Heap Scheduler.

(** ** Linked segments *)

Implicit Types (c : gmap Z Tasknode) (l : list Z).

(** The nodes [l], linked from [p] and to [q]. *)
Fixpoint lseg c (p : Z) l (q : Z) : Prop :=
  match l with
  | [] => p = q
  | a :: l' => p = a ∧ a ≠ NULL ∧ ∃ x, c !! a = Some x ∧ lseg c (next x) l' q
  end.

(** What does not count for the order: the links. *)
Definition same_tasks c c' : Prop := set_next NULL <$> c' = set_next NULL <$> c.

#[global] Instance same_tasks_preorder : PreOrder same_tasks.
Proof. split; [done|]. intros c1 c2 c3 H1 H2. unfold same_tasks in *. congruence. Qed.

(** Only links of the nodes in [l] change. *)
Definition relinked l (h h' : heap Tasknode) : Prop :=
  same_tasks (cells h) (cells h') ∧ fresh_addr h' = fresh_addr h ∧ ∀ b, b ∉ l → cells h' !! b = cells h !! b.

Record queue_rep (h : heap Tasknode) (head : Z) l : Prop := {
  rep_seg : lseg (cells h) head l NULL;
  rep_nodup : NoDup l
}.

Lemma lseg_app c p l1 l2 q : lseg c p (l1 ++ l2) q ↔ lseg c p l1 (hd q l2) ∧ lseg c (hd q l2) l2 q.
Proof.
  revert p. induction l1 as [|a l1 IH]; intros p; simpl.
  - destruct l2 as [|b l2]; simpl; naive_solver.
  - setoid_rewrite IH. naive_solver.
Qed.

Lemma lseg_frame c f a p l q : a ∉ l → lseg c p l q → lseg (alter f a c) p l q.
Proof.
  revert p. induction l as [|b l IH]; intros p Ha; [done|].
  apply not_elem_of_cons in Ha as [Hab Ha]. intros (-> & Hb & x & Hx & Hs). split_and!; [done|done|].
  exists x. rewrite lookup_alter_ne by done. eauto.
Qed.

Lemma lseg_fields c f a p l q : (∀ x, next (f x) = next x) → lseg c p l q → lseg (alter f a c) p l q.
Proof.
  intros Hf. revert p. induction l as [|b l IH]; intros p; [done|].
  intros (-> & Hb & x & Hx & Hs). split_and!; [done|done|].
  destruct (decide (a = b)) as [->|].
  - exists (f x). rewrite lookup_alter_eq, Hx, Hf. eauto.
  - exists x. rewrite lookup_alter_ne by done. eauto.
Qed.

Lemma lseg_delete c a p l q : a ∉ l → lseg c p l q → lseg (delete a c) p l q.
Proof.
  revert p. induction l as [|b l IH]; intros p Ha; [done|].
  apply not_elem_of_cons in Ha as [Hab Ha]. intros (-> & Hb & x & Hx & Hs). split_and!; [done|done|].
  exists x. rewrite lookup_delete_ne by done. eauto.
Qed.

Lemma lseg_insert_fresh c a x p l q : a ∉ l → lseg c p l q → lseg (<[a := x]> c) p l q.
Proof.
  revert p. induction l as [|b l IH]; intros p Ha; [done|].
  apply not_elem_of_cons in Ha as [Hab Ha]. intros (-> & Hb & y & Hy & Hs). split_and!; [done|done|].
  exists y. rewrite lookup_insert_ne by done. eauto.
Qed.

Lemma lseg_is_Some c p l q a : lseg c p l q → a ∈ l → a ≠ NULL ∧ is_Some (c !! a).
Proof.
  revert p. induction l as [|b l IH]; intros p Hs Ha; [by apply not_elem_of_nil in Ha|].
  destruct Hs as (-> & Hb & x & Hx & Hs). apply elem_of_cons in Ha as [->|Ha]; eauto.
Qed.

Lemma lseg_relink c p l a q y : a ∉ l → lseg c p (l ++ [a]) q → lseg (alter (set_next y) a c) p (l ++ [a]) y.
Proof.
  rewrite !lseg_app. intros Ha [H1 (_ & Hn & x & Hx & _)]. split; [by apply lseg_frame|].
  split_and!; [done|done|]. exists (set_next y x). by rewrite lookup_alter_eq, Hx.
Qed.

Lemma lseg_length c p l q : NoDup l → lseg c p l q → (length l ≤ size c)%nat.
Proof.
  intros Hnd Hs. rewrite <-size_dom. rewrite <-(size_list_to_set (C := gset Z) l) by done.
  apply subseteq_size. intros a Ha%elem_of_list_to_set. apply elem_of_dom. by eapply lseg_is_Some.
Qed.

Lemma hd_elem l : hd NULL l = NULL ∨ hd NULL l ∈ l.
Proof. destruct l; [by left|right; by left]. Qed.

Lemma same_tasks_alter c y a : same_tasks c (alter (set_next y) a c).
Proof.
  unfold same_tasks. apply map_eq. intros b. rewrite !lookup_fmap.
  destruct (decide (a = b)) as [->|]; [rewrite lookup_alter_eq|by rewrite lookup_alter_ne].
  by destruct (c !! b).
Qed.

Lemma relinked_alter l y a (h : heap Tasknode) :
  a ∈ l → relinked l h (Heap (alter (set_next y) a (cells h)) (fresh_addr h)).
Proof.
  intros Ha. split; [apply same_tasks_alter|]. split; [done|]. intros b Hb. cbn [cells].
  rewrite lookup_alter_ne; [done|]. by intros ->.
Qed.

Lemma relinked_trans l h1 h2 h3 : relinked l h1 h2 → relinked l h2 h3 → relinked l h1 h3.
Proof.
  intros (H1 & H2 & H3) (H4 & H5 & H6). split; [by etrans|]. split; [congruence|]. intros b Hb. by rewrite H6, H3.
Qed.

Lemma same_tasks_lookup c c' a x :
  same_tasks c c' → c !! a = Some x → ∃ y, c' !! a = Some (set_next y x).
Proof.
  unfold same_tasks. intros H Ha. apply (f_equal (lookup a)) in H. rewrite !lookup_fmap, Ha in H.
  destruct (c' !! a) as [x'|]; [|done]. simpl in H. injection H as H1 H2 H3 H4 H5 H6.
  exists (next x'). f_equal. destruct x, x'. by simpl in *; subst.
Qed.

(** ** Insertion *)

Fixpoint insert_by (stay : Z → bool) (n : Z) l : list Z :=
  match l with
  | [] => [n]
  | a :: l' => if stay a then a :: insert_by stay n l' else n :: l
  end.

(** Behind the first element, which runs. *)
Definition insert_behind (stay : Z → bool) (n : Z) l : list Z :=
  match l with [] => [n] | a :: l' => a :: insert_by stay n l' end.

Lemma insert_by_split stay n l :
  ∃ l1 l2, l = l1 ++ l2 ∧ insert_by stay n l = l1 ++ n :: l2 ∧
    Forall (λ a, stay a = true) l1 ∧ (∀ a, head l2 = Some a → stay a = false).
Proof.
  induction l as [|a l (l1 & l2 & -> & Hi & H1 & H2)]; [by exists [], []|]. simpl. destruct (stay a) eqn:E.
  - exists (a :: l1), l2. rewrite Hi. split_and!; try done. by constructor.
  - exists [], (a :: l1 ++ l2). split_and!; try done. by intros ? [= <-].
Qed.

Lemma last_cons l : ∀ a b, List.last (a :: l) b = List.last l a.
Proof.
  induction l as [|d l IH]; intros a b; [done|].
  change (List.last (d :: l) b = List.last (d :: l) a). by rewrite !IH.
Qed.

(** [seek] finds the place of [insert_by]. *)
Lemma seek_loop (h : heap Tasknode) stay stay' l1 l2 : ∀ k pre cur,
  lseg (cells h) cur (l1 ++ l2) NULL → (length l1 < k)%nat →
  (∀ a x, a ∈ l1 ++ l2 → cells h !! a = Some x → stay x = stay' a) →
  Forall (λ a, stay' a = true) l1 → (∀ a, head l2 = Some a → stay' a = false) →
  loop k
    (λ '(pre, cur),
       if cur =? NULL then Ok (inr (pre, cur))
       else x ← load h cur; if (stay x : bool) then Ok (inl (cur, next x)) else Ok (inr (pre, cur))) (pre, cur)
  = Ok (List.last l1 pre, hd NULL l2).
Proof.
  induction l1 as [|a l1 IH]; intros k pre cur Hs Hk Hst H1 H2; (destruct k as [|k]; [simpl in Hk; lia|]); rewrite loop_unfold.
  - destruct l2 as [|b l2].
    { simpl in Hs. by subst. }
    destruct Hs as (-> & Hb & x & Hx & Hs). rewrite (proj2 (Z.eqb_neq _ _)) by done.
    rewrite (proj2 (load_Ok _ _ _) Hx). cbn [mbind outcome_bind].
    rewrite (Hst b x), H2 by (done || by left). done.
  - destruct Hs as (-> & Ha & x & Hx & Hs). rewrite (proj2 (Z.eqb_neq _ _)) by done.
    rewrite (proj2 (load_Ok _ _ _) Hx). cbn [mbind outcome_bind]. apply Forall_cons in H1 as [Hsa H1].
    rewrite (Hst a x), Hsa by (done || by left). cbn [mbind outcome_bind].
    rewrite IH; try done; [|simpl in Hk; lia|by intros b y Hb; apply Hst; right].
    by rewrite last_cons.
Qed.

Lemma last_split a l : ∃ l0, a :: l = l0 ++ [List.last l a].
Proof.
  revert a. induction l as [|b l IH]; intros a; [by exists []|].
  destruct (IH b) as [l0 E]. exists (a :: l0). rewrite last_cons. simpl. by rewrite <-E.
Qed.

(** The two assignments that link a node in. *)
Lemma link_between_spec (h : heap Tasknode) head a l1 l2 n x :
  queue_rep h head ((a :: l1) ++ l2) → n ∉ (a :: l1) ++ l2 → n ≠ NULL → cells h !! n = Some x →
  ∃ h', link_between (List.last l1 a) n (hd NULL l2) h = Ok h' ∧
    queue_rep h' head ((a :: l1) ++ n :: l2) ∧ relinked (n :: (a :: l1) ++ l2) h h'.
Proof.
  intros [Hs Hnd] Hn Hn0 Hx. destruct (last_split a l1) as [l0 Hl]. set (b := List.last l1 a) in *. clearbody b.
  rewrite Hl in *. rewrite <-(assoc_L (++)) in Hnd. pose proof Hnd as (Hnd0 & _ & _)%NoDup_app.
  assert (b ∈ (l0 ++ [b]) ++ l2) as Hb by (apply elem_of_app; left; apply elem_of_app; right; by left).
  assert (b ≠ n) as Hbn by (by intros ->).
  unfold link_between. rewrite update_alter by (by eapply lseg_is_Some). cbn [mbind outcome_bind].
  rewrite update_alter by (cbn [cells]; rewrite lookup_alter_ne, Hx by done; eauto).
  eexists. split; [done|]. cbn [cells fresh_addr].
  apply lseg_app in Hs as [H1 H2]. rewrite !not_elem_of_app, not_elem_of_cons in Hn. destruct Hn as [(Hn1 & _ & _) Hn2].
  assert (b ∉ l0 ∧ b ∉ l2) as [Hb0 Hb2].
  { rewrite NoDup_app in Hnd. destruct Hnd as (_ & Hd & Hd2). apply NoDup_cons in Hd2 as [? _].
    split; [intros E; by apply (Hd b E); left|done]. }
  split_and!.
  - split.
    + apply lseg_app. cbn [hd]. split.
      * apply lseg_frame; [rewrite not_elem_of_app, not_elem_of_cons; split; [done|split; [done|apply not_elem_of_nil]]|].
        by apply lseg_relink with (q := hd NULL l2).
      * split_and!; [done|done|]. exists (set_next (hd NULL l2) x). split.
        -- cbn [cells]. by rewrite lookup_alter_eq, lookup_alter_ne, Hx.
        -- cbn [next set_next cells]. by do 2 (apply lseg_frame; [done|]).
    + rewrite <-(assoc_L (++)). cbn [app].
      assert (l0 ++ b :: n :: l2 ≡ₚ n :: l0 ++ b :: l2) as -> by solve_Permutation.
      apply NoDup_cons. split; [|done]. rewrite not_elem_of_app, not_elem_of_cons. by split_and!.
  - eapply relinked_trans; [apply (relinked_alter _ n b)|eapply (relinked_alter _ _ n (Heap _ _))]; [by right|by left].
Qed.

(** [seek] with enough fuel, and the insertion at the place it finds. *)
Lemma seek_link (h : heap Tasknode) head a l stay stay' n x pre cur :
  queue_rep h head (a :: l) → n ∉ a :: l → n ≠ NULL → cells h !! n = Some x →
  (∀ b y, b ∈ a :: l → cells h !! b = Some y → stay y = stay' b) →
  (pre = a ∧ (∃ y, cells h !! a = Some y ∧ cur = next y) ∨ pre = NULL ∧ cur = head ∧ stay' a = true) →
  ∃ r h', seek h stay pre cur = Ok r ∧ link_between r.1 n r.2 h = Ok h' ∧
    queue_rep h' head (a :: insert_by stay' n l) ∧ relinked (n :: a :: l) h h'.
Proof.
  intros Hrep Hn Hn0 Hx Hst Hstart. pose proof Hrep as [Hs Hnd].
  destruct (insert_by_split stay' n l) as (l1 & l2 & -> & Hi & H1 & H2).
  assert (seek h stay pre cur = Ok (List.last l1 a, hd NULL l2)) as Hseek.
  { unfold seek. pose proof (lseg_length _ _ _ _ Hnd Hs) as Hlen. cbn [length] in Hlen. rewrite length_app in Hlen.
    destruct Hstart as [(-> & y & Hy & ->)|(-> & -> & Ha)].
    - apply seek_loop with stay'; try done; [|unfold fuel_of; lia|].
      + destruct Hs as (_ & _ & y' & Hy' & Hs). by simplify_eq.
      + intros b z Hb. apply Hst. by right.
    - rewrite (seek_loop h stay stay' (a :: l1) l2); try done; [by rewrite last_cons|unfold fuel_of; cbn [length]; lia|].
      by constructor. }
  destruct (link_between_spec h head a l1 l2 n x) as (h' & Hl & Hrep' & Hrel); try done.
  eexists _, h'. split; [exact Hseek|]. cbn [fst snd]. rewrite Hi. by split_and!.
Qed.

(** What each policy does with a list, for the parameters of the tasks. *)
Section policies.
Context (wct prio : Z → Z).

Definition goes_first (n : Z) (pol : Z) (a : Z) : bool :=
  if pol =? POLICY_FCFS then true
  else if (pol =? POLICY_SJF_PEM) || (pol =? POLICY_SJF_NOT_PEM) then wct a <=? wct n
  else prio n <=? prio a.

Definition preemptive (pol : Z) : bool := (pol =? POLICY_SJF_PEM) || (pol =? POLICY_PRIORITY_PEM).

Definition policy_insert (pol n : Z) l : list Z :=
  if preemptive pol then insert_by (goes_first n pol) n l else insert_behind (goes_first n pol) n l.

Definition policy_ok (pol : Z) : Prop := 1 ≤ pol ≤ 5.

(** The nodes have the parameters. *)
Definition params_ok c : Prop := ∀ a x, c !! a = Some x → WCT x = wct a ∧ priority x = prio a.

Lemma params_same c c' : same_tasks c c' → params_ok c → params_ok c'.
Proof.
  intros Hs Hp a x Ha. destruct (same_tasks_lookup c' c a x) as [y Hy]; [by symmetry|done|].
  by apply (Hp a (set_next y x)).
Qed.

Lemma insert_by_true n l : insert_by (λ _, true) n l = l ++ [n].
Proof. induction l as [|a l IH]; [done|]. simpl. by rewrite IH. Qed.

Lemma insert_behind_true n l : insert_behind (λ _, true) n l = l ++ [n].
Proof. destruct l as [|a l]; [done|]. simpl. by rewrite insert_by_true. Qed.

Lemma last_loop (h : heap Tasknode) a l : ∀ k p,
  lseg (cells h) p (a :: l) NULL → (length l < k)%nat →
  loop k (λ cur, x ← load h cur; if negb (next x =? NULL) then Ok (inl (next x)) else Ok (inr cur)) p = Ok (List.last l a).
Proof.
  revert a. induction l as [|b l IH]; intros a k p Hs Hk; (destruct k as [|k]; [simpl in Hk; lia|]); rewrite loop_unfold;
    destruct Hs as (-> & Ha & x & Hx & Hs); rewrite (proj2 (load_Ok _ _ _) Hx); cbn [mbind outcome_bind].
  - simpl in Hs. by rewrite Hs.
  - pose proof Hs as (Hb & Hb0 & _). rewrite Hb at 1. rewrite (proj2 (Z.eqb_neq _ _)) by done. cbn [negb mbind outcome_bind].
    rewrite (IH b); [by rewrite last_cons|done|simpl in Hk; lia].
Qed.

Lemma fcfs_spec (h : heap Tasknode) head l n x :
  queue_rep h head l → n ∉ l → n ≠ NULL → cells h !! n = Some x → next x = NULL →
  ∃ h' head', fcfs n (h, head) = Ok (h', head') ∧ queue_rep h' head' (l ++ [n]) ∧ relinked (n :: l) h h'.
Proof.
  intros [Hs Hnd] Hn Hn0 Hx Hnx. unfold fcfs. destruct l as [|a l].
  { simpl in Hs. subst head. rewrite Z.eqb_refl. eexists _, _. split; [done|]. split; [|done].
    split; [|by apply NoDup_singleton]. split_and!; [done|done|]. exists x. by rewrite Hnx. }
  pose proof Hs as (Ha & Ha0 & _). rewrite (proj2 (Z.eqb_neq _ _)) by congruence.
  pose proof (lseg_length _ _ _ _ Hnd Hs) as Hlen. cbn [length] in Hlen.
  rewrite (last_loop h a l) by (done || (unfold fuel_of; lia)). cbn [mbind outcome_bind].
  destruct (last_split a l) as [l0 Hl]. set (b := List.last l a) in *. clearbody b. rewrite Hl in *.
  assert (b ∈ l0 ++ [b]) as Hb by (apply elem_of_app; right; by left).
  assert (b ≠ n) as Hbn by (by intros ->).
  rewrite update_alter by (by eapply lseg_is_Some). cbn [mbind outcome_bind]. eexists _, _. split; [done|].
  cbn [cells fresh_addr]. split; [|apply relinked_alter; by right]. split; cbn [cells].
  - apply lseg_app. cbn [hd]. split.
    + eapply lseg_relink; [|done]. apply NoDup_app in Hnd as (_ & Hd & _). intros E. apply (Hd b E). by left.
    + split_and!; [done|done|]. exists x. by rewrite lookup_alter_ne.
  - apply NoDup_app. split; [done|]. split; [|by apply NoDup_singleton].
    intros d Hd ->%list_elem_of_singleton. done.
Qed.

(** A node with no successor is the whole queue. *)
Lemma single_spec (h : heap Tasknode) n x :
  n ≠ NULL → cells h !! n = Some x → next x = NULL → queue_rep h n [n].
Proof.
  intros Hn Hx Hnx. split; [|by apply NoDup_singleton]. split_and!; [done|done|]. exists x. by rewrite Hnx.
Qed.

(** In front of the queue. *)
Lemma front_spec (h : heap Tasknode) head l n x :
  queue_rep h head l → n ∉ l → n ≠ NULL → cells h !! n = Some x →
  ∃ h', update h n (set_next head) = Ok h' ∧ queue_rep h' n (n :: l) ∧ relinked (n :: l) h h'.
Proof.
  intros [Hs Hnd] Hn Hn0 Hx. rewrite update_alter by eauto. eexists. split; [done|]. cbn [cells fresh_addr].
  split; [|apply relinked_alter; by left]. split; [|by apply NoDup_cons].
  split_and!; [done|done|]. exists (set_next head x). cbn [cells]. rewrite lookup_alter_eq, Hx. split; [done|]. by apply lseg_frame.
Qed.

Section insertion.
Context (h : heap Tasknode) (head a : Z) (l : list Z) (n : Z) (x : Tasknode).
Context (stay : Tasknode → bool) (stay' : Z → bool).
Context (Hrep : queue_rep h head (a :: l)) (Hn : n ∉ a :: l) (Hn0 : n ≠ NULL) (Hx : cells h !! n = Some x).
Context (Hst : ∀ b y, b ∈ a :: l → cells h !! b = Some y → stay y = stay' b).

Lemma pem_core (front : bool) :
  front = negb (stay' a) →
  ∃ h' head',
    (if front then h ← update h n (set_next head); Ok (h, n)
     else r ← seek h stay NULL head; h ← link_between r.1 n r.2 h; Ok (h, head)) = Ok (h', head') ∧
    queue_rep h' head' (insert_by stay' n (a :: l)) ∧ relinked (n :: a :: l) h h'.
Proof.
  intros ->. simpl. destruct (stay' a) eqn:Ha; cbn [negb].
  - destruct (seek_link h head a l stay stay' n x NULL head) as (r & h' & Hseek & Hl & H1 & H2); try done; [by right|].
    rewrite Hseek. cbn [mbind outcome_bind]. rewrite Hl. by exists h', head.
  - destruct (front_spec h head (a :: l) n x) as (h' & -> & H1 & H2); try done. by exists h', n.
Qed.

Lemma not_pem_core hd :
  cells h !! a = Some hd →
  ∃ h', (r ← seek h stay head (next hd); h ← link_between r.1 n r.2 h; Ok (h, head)) = Ok (h', head) ∧
    queue_rep h' head (insert_behind stay' n (a :: l)) ∧ relinked (n :: a :: l) h h'.
Proof.
  intros Hhd. pose proof (rep_seg _ _ _ Hrep) as (Ha & _).
  destruct (seek_link h head a l stay stay' n x head (next hd)) as (r & h' & Hseek & Hl & H1 & H2); try done.
  { left. eauto. }
  rewrite Hseek. cbn [mbind outcome_bind]. rewrite Hl. by exists h'.
Qed.
End insertion.

Ltac start_queue Hrep a l :=
  destruct l as [|a l];
  [pose proof (rep_seg _ _ _ Hrep) as Hhead; simpl in Hhead; rewrite Hhead, Z.eqb_refl;
   eexists _, _; split; [done|]; split; [by eapply single_spec|done]|].

Lemma enqueue_spec pol (h : heap Tasknode) head l n x :
  policy_ok pol → params_ok (cells h) → queue_rep h head l → n ∉ l → n ≠ NULL → cells h !! n = Some x → next x = NULL →
  ∃ h' head', enqueue pol n (h, head) = Ok (h', head') ∧ queue_rep h' head' (policy_insert pol n l) ∧ relinked (n :: l) h h'.
Proof.
  intros Hpol Hpar Hrep Hn Hn0 Hx Hnx. destruct (Hpar n x Hx) as [Hw Hp].
  assert (∀ a k, queue_rep h head (a :: k) → head ≠ NULL ∧ head = a ∧ ∃ hd, cells h !! a = Some hd ∧ load h head = Ok hd) as Hhd.
  { intros a k [(-> & Ha & hd & Hd & _) _]. split; [done|]. split; [done|]. exists hd. by rewrite load_Ok. }
  assert (pol = 1 ∨ pol = 2 ∨ pol = 3 ∨ pol = 4 ∨ pol = 5) as Hcases by (unfold policy_ok in Hpol; lia).
  destruct Hcases as [->|[->|[->|[->| ->]]]]; unfold policy_insert, enqueue; cbn [preemptive Z.eqb Pos.eqb orb].
  - change (insert_behind _ n l) with (insert_behind (λ _, true) n l). rewrite insert_behind_true. by eapply fcfs_spec.
  - unfold sjf_pem. start_queue Hrep a l. destruct (Hhd a l Hrep) as (H0 & -> & hd & Hd & Hl).
    rewrite (proj2 (Z.eqb_neq _ _)), (proj2 (load_Ok _ _ _) Hx), Hl by done. cbn [mbind outcome_bind].
    apply (pem_core h a a l n x); try done.
    + intros b y _ Hy. destruct (Hpar b y Hy) as [Hb _]. unfold goes_first. cbn. by rewrite Hb, Hw.
    + unfold goes_first. cbn. rewrite Hw, (proj1 (Hpar a hd Hd)). rewrite Z.leb_antisym, negb_involutive. done.
  - unfold sjf_not_pem. start_queue Hrep a l. destruct (Hhd a l Hrep) as (H0 & -> & hd & Hd & Hl).
    rewrite (proj2 (Z.eqb_neq _ _)), (proj2 (load_Ok _ _ _) Hx), Hl by done. cbn [mbind outcome_bind].
    destruct (not_pem_core h a a l n x (λ cur, WCT cur <=? WCT x) (goes_first n 3)) with (hd := hd) as (h' & ? & ?); try done.
    + intros b y _ Hy. destruct (Hpar b y Hy) as [Hb _]. unfold goes_first. cbn. by rewrite Hb, Hw.
    + by exists h', a.
  - unfold priority_pem. start_queue Hrep a l. destruct (Hhd a l Hrep) as (H0 & -> & hd & Hd & Hl).
    rewrite (proj2 (Z.eqb_neq _ _)), (proj2 (load_Ok _ _ _) Hx), Hl by done. cbn [mbind outcome_bind].
    apply (pem_core h a a l n x); try done.
    + intros b y _ Hy. destruct (Hpar b y Hy) as [_ Hb]. unfold goes_first. cbn. by rewrite Hb, Hp.
    + unfold goes_first. cbn. rewrite Hp, (proj2 (Hpar a hd Hd)). rewrite Z.leb_antisym, negb_involutive. done.
  - unfold priority_not_pem. start_queue Hrep a l. destruct (Hhd a l Hrep) as (H0 & -> & hd & Hd & Hl).
    rewrite (proj2 (Z.eqb_neq _ _)), (proj2 (load_Ok _ _ _) Hx), Hl by done. cbn [mbind outcome_bind].
    destruct (not_pem_core h a a l n x (λ cur, priority x <=? priority cur) (goes_first n 5)) with (hd := hd) as (h' & ? & ?); try done.
    + intros b y _ Hy. destruct (Hpar b y Hy) as [_ Hb]. unfold goes_first. cbn. by rewrite Hb, Hp.
    + by exists h', a.
Qed.
End policies.

(** ** The order of the queue *)

Section order.
Context (wct prio : Z → Z) (pol : Z) (arrived : Z → nat).

(** [a] is served before [b]: the policy puts it first, and tasks it does not
    distinguish keep the order of their arrival. *)
Definition serves (a b : Z) : Prop :=
  goes_first wct prio b pol a = true ∧ (goes_first wct prio a pol b = true → (arrived a < arrived b)%nat).

(** The waiting tasks are in order; the first one of a policy that is not
    preemptive runs and may be out of order. *)
Definition queue_sorted l : Prop := StronglySorted serves (if preemptive pol then l else tail l).

Lemma goes_first_total a b : goes_first wct prio b pol a = false → goes_first wct prio a pol b = true.
Proof. unfold goes_first. repeat case_match; lia. Qed.

Lemma goes_first_trans a b d :
  goes_first wct prio b pol a = true → goes_first wct prio d pol b = true → goes_first wct prio d pol a = true.
Proof. unfold goes_first. repeat case_match; lia. Qed.

Lemma insert_by_perm stay n l : insert_by stay n l ≡ₚ n :: l.
Proof. induction l as [|a l IH]; [done|]. simpl. destruct (stay a); [|done]. rewrite IH. solve_Permutation. Qed.

Lemma insert_by_sorted n l :
  StronglySorted serves l → (∀ a, a ∈ l → (arrived a < arrived n)%nat) →
  StronglySorted serves (insert_by (goes_first wct prio n pol) n l).
Proof.
  induction 1 as [|a l Hl IH Ha]; intros Harr; simpl; [by repeat constructor|].
  destruct (goes_first wct prio n pol a) eqn:E.
  - constructor; [apply IH; intros b Hb; apply Harr; by right|].
    rewrite insert_by_perm. constructor; [|done]. split; [done|]. intros _. apply Harr. by left.
  - pose proof (goes_first_total _ _ E) as E'.
    assert (serves n a) as Hna by (split; [done|by rewrite E]).
    constructor; [by constructor|]. constructor; [done|]. eapply Forall_impl; [exact Ha|].
    intros b [Hab _]. split; [by eapply goes_first_trans|]. intros Hbn. exfalso.
    assert (goes_first wct prio n pol a = true) by (by eapply goes_first_trans). congruence.
Qed.

Lemma policy_insert_perm n l : policy_insert wct prio pol n l ≡ₚ n :: l.
Proof.
  unfold policy_insert. destruct (preemptive pol); [apply insert_by_perm|].
  destruct l as [|a l]; [done|]. simpl. rewrite insert_by_perm. solve_Permutation.
Qed.

Lemma policy_insert_sorted n l :
  queue_sorted l → (∀ a, a ∈ l → (arrived a < arrived n)%nat) → queue_sorted (policy_insert wct prio pol n l).
Proof.
  unfold queue_sorted, policy_insert. destruct (preemptive pol); [apply insert_by_sorted|].
  destruct l as [|a l]; simpl; [by intros; constructor|]. intros Hs Harr. apply insert_by_sorted; [done|].
  intros b Hb. apply Harr. by right.
Qed.

Lemma policy_insert_head n a l :
  preemptive pol = false → head (policy_insert wct prio pol n (a :: l)) = Some a.
Proof. unfold policy_insert. by intros ->. Qed.
End order.

(** [C22] The queue keeps the order of its policy.  Inserting a task that
    arrives after those in the queue ends, adds it to them, and keeps the
    waiting tasks sorted: by arrival (FCFS), by their execution time or by
    their priority, ties in the order of arrival; the policies that are not
    preemptive leave the running task in front.  (This is not what two places of
    the repository say of the priorities: the comment in [priority_pem] has the
    node placed by WCT, the text of Labwork16.md has the non-preemptive policy
    add a new process at the head of the ready queue.) *)
Theorem enqueue_keeps_order wct prio pol arrived (h : heap Tasknode) head l n x :
  policy_ok pol → params_ok wct prio (cells h) → queue_rep h head l → n ∉ l → n ≠ NULL →
  cells h !! n = Some x → next x = NULL →
  queue_sorted wct prio pol arrived l → (∀ a, a ∈ l → (arrived a < arrived n)%nat) →
  ∃ h' head' l', enqueue pol n (h, head) = Ok (h', head') ∧ queue_rep h' head' l' ∧ l' ≡ₚ n :: l ∧
    queue_sorted wct prio pol arrived l' ∧ same_tasks (cells h) (cells h') ∧
    (preemptive pol = false → l ≠ [] → head' = head).
Proof.
  intros Hpol Hpar Hrep Hn Hn0 Hx Hnx Hsort Harr.
  destruct (enqueue_spec wct prio pol h head l n x) as (h' & head' & -> & Hrep' & Hsame & _); try done.
  exists h', head', (policy_insert wct prio pol n l). split_and!; try done.
  - apply policy_insert_perm.
  - by apply policy_insert_sorted.
  - intros Hpre Hl. destruct l as [|a l]; [done|]. pose proof (policy_insert_head wct prio pol n a l Hpre) as Hh.
    destruct (policy_insert wct prio pol n (a :: l)) as [|b k]; [done|]. injection Hh as ->.
    destruct Hrep as [(-> & _) _]. by destruct Hrep' as [(-> & _) _].
Qed.

(** Two tasks wait with the times 2 and 5; one with the time 2 arrives. *)
Definition two_nodes : heap Tasknode :=
  Heap (<[1 := Node 0 2 0 2 1 0 2]> (<[2 := Node 0 5 0 3 2 0 0]> (<[3 := Node 1 2 0 3 3 0 0]> ∅))) 4.

Lemma enqueue_keeps_order_witness :
  ∃ h' head' l', enqueue POLICY_SJF_PEM 3 (two_nodes, 1) = Ok (h', head') ∧ queue_rep h' head' l' ∧ l' ≡ₚ [3; 1; 2] ∧
    queue_sorted (λ i, if i =? 2 then 5 else 2) (λ _, 0) POLICY_SJF_PEM Z.to_nat l'.
Proof.
  destruct (enqueue_keeps_order (λ i, if i =? 2 then 5 else 2) (λ _, 0) POLICY_SJF_PEM Z.to_nat two_nodes 1 [1; 2] 3
    (Node 1 2 0 3 3 0 0)) as (h' & head' & l' & H1 & H2 & H3 & H4 & _).
  - unfold policy_ok, POLICY_SJF_PEM. lia.
  - intros a y Ha. unfold two_nodes in Ha. cbn [cells] in Ha.
    apply lookup_insert_Some in Ha as [[<- <-]|[_ Ha]]; [split; reflexivity|].
    apply lookup_insert_Some in Ha as [[<- <-]|[_ Ha]]; [split; reflexivity|].
    apply lookup_insert_Some in Ha as [[<- <-]|[_ Ha]]; [split; reflexivity|]. discriminate.
  - split; [|apply (bool_decide_unpack _); vm_compute; exact I].
    split; [reflexivity|]. split; [discriminate|]. eexists. split; [reflexivity|].
    split; [reflexivity|]. split; [discriminate|]. eexists. split; [reflexivity|reflexivity].
  - apply (bool_decide_unpack _). vm_compute. exact I.
  - discriminate.
  - reflexivity.
  - reflexivity.
  - constructor; [repeat constructor|]. constructor; [|constructor]. split; [reflexivity|]. intros _. cbn. lia.
  - intros a Ha. rewrite !elem_of_cons in Ha. destruct Ha as [->|[->|Ha%elem_of_nil]]; [cbn; lia|cbn; lia|done].
  - exists h', head', l'. split; [exact H1|]. split; [exact H2|]. split; [exact H3|exact H4].
Defined.
