(* ===== verification/SchedulerThreads.v ===== *)
(** * The threads of scheduler.c run one at a time, if signals are prompt

    Step semantics of Scheduler.v over whole runs.  While every signal is
    delivered before the next thread arrives or ends, SIGUSR1 first, the first
    task of the queue executes alone and the queue is the one the policy
    prescribes.  Without this the program can stop forever, free the node of
    another thread or follow a NULL pointer. *)

From stdpp Require Import base functions gmap list.
From S2P Require Import Prelude Heap Scheduler SchedulerQueue.

(** ** Runs *)

(** A task is added to the queue, a task is done. *)
Inductive event := EAdd (id : Z) | EDone (id : Z).

Definition event_of (a : action) : list event :=
  match a with Arrive id => [EAdd id] | Finish id => [EDone id] | _ => [] end.

(** Stopping a thread comes before the choice of the next one, and both come
    before that one continues. *)
Definition rank (a : action) : nat :=
  match a with Stop _ => 0 | Pick => 1 | Continue _ | Wake _ => 2 | Arrive _ | Finish _ => 3 end.

Definition prompt (a : action) (w : world) : Prop := ∀ b, (rank b < rank a)%nat → fire b w = None.

Section threads.
Context (wct prio : Z → Z) (pol : Z).

(** Runs with prompt signals; the thread [i] is created with the execution
    time [wct i] and the priority [prio i]. *)
Inductive prompt_run : list event → world → Prop :=
| run_init : prompt_run [] (init_scheduler pol)
| run_create es w id arrival mem sem starts w' :
    prompt_run es w → threads w !! id = None →
    create_task mem sem starts id arrival (wct id) (prio id) w = Ok w' → prompt_run es w'
| run_step es w a w' :
    prompt_run es w → prompt a w → fire a w = Some (Ok w') → prompt_run (es ++ event_of a) w'.

(** The abstract scheduler: a list of tasks, of which the first one runs. *)
Definition spec_step (l : list Z) (e : event) : option (list Z) :=
  match e with
  | EAdd id => if decide (id ∈ l) then None else Some (policy_insert wct prio pol id l)
  | EDone id => match l with i :: l' => if decide (i = id) then Some l' else None | [] => None end
  end.

Definition spec_run (es : list event) : option (list Z) :=
  foldl (λ o e, l ← o; spec_step l e) (Some []) es.

(** ** The invariant *)

(** What a thread of the queue is doing. *)
Inductive kind := Stopped | Halting | Posted | Continued | Active.

Definition local (k : kind) (t : thread) (x : Tasknode) : Prop :=
  match k with
  | Stopped => usr1 t = false ∧ cont t = false ∧ wait_sem x = 0 ∧
      (schedule_status x = STATUS_WAITING ∧ pc t = InSem ∨ schedule_status x = STATUS_READY ∧ pc t = Suspended)
  | Halting => usr1 t = true ∧ cont t = false ∧ wait_sem x = 0 ∧ schedule_status x = STATUS_READY ∧ pc t = Executing
  | Posted => usr1 t = false ∧ cont t = false ∧ wait_sem x = 1 ∧ pc t = InSem
  | Continued => usr1 t = false ∧ cont t = true ∧ wait_sem x = 0 ∧ (pc t = InSem ∨ pc t = Suspended)
  | Active => usr1 t = false ∧ cont t = false ∧ wait_sem x = 0 ∧ pc t = Executing
  end.

(** A thread outside the queue. *)
Definition outside (t : thread) (c : gmap Z Tasknode) : Prop :=
  usr1 t = false ∧ cont t = false ∧
  (pc t = Finished ∨
   pc t = Arriving ∧ ∃ x, c !! task_node t = Some x ∧ next x = NULL ∧ wait_sem x = 0).

Definition addr (ths : gmap Z thread) (i : Z) : Z := default NULL (task_node <$> ths !! i).

Record inv (h : heap Tasknode) (head : Z) (ths : gmap Z thread) (ids : list Z) (κ : Z → kind) : Prop := {
  inv_heap : heap_ok h;
  inv_rep : queue_rep h head (addr ths <$> ids);
  inv_in : ∀ i, i ∈ ids → ∃ t x, ths !! i = Some t ∧ cells h !! task_node t = Some x ∧ ptid x = i ∧ local (κ i) t x;
  inv_out : ∀ i t, ths !! i = Some t → i ∉ ids → outside t (cells h);
  inv_inj : ∀ i j t t', ths !! i = Some t → ths !! j = Some t' → task_node t = task_node t' → i = j;
  inv_addr : ∀ i t, ths !! i = Some t → 0 < task_node t < fresh_addr h;
  inv_par : ∀ i t x, ths !! i = Some t → cells h !! task_node t = Some x → WCT x = wct i ∧ priority x = prio i
}.

(** Which thread does what: [b] is the signal pending for the scheduler. *)
Definition phase (ids : list Z) (κ : Z → kind) (b : bool) : Prop :=
  if b then
    ids ≠ [] ∧ ((∀ i, i ∈ ids → κ i = Stopped) ∨
      ∃ i0, i0 ∈ ids ∧ κ i0 = Halting ∧ ∀ i, i ∈ ids → i ≠ i0 → κ i = Stopped)
  else
    match ids with
    | [] => True
    | i0 :: ids => (κ i0 = Posted ∨ κ i0 = Continued ∨ κ i0 = Active) ∧ ∀ i, i ∈ ids → κ i = Stopped
    end.

Definition winv (w : world) (ids : list Z) (κ : Z → kind) : Prop :=
  inv (nodes w) (sched_head w) (threads w) ids κ ∧ phase ids κ (usr2 w) ∧ schedule_policy w = pol.

Lemma addr_eq ths i t : ths !! i = Some t → addr ths i = task_node t.
Proof. unfold addr. by intros ->. Qed.

Lemma inv_NoDup h head ths ids κ : inv h head ths ids κ → NoDup ids.
Proof. intros Hi. apply (NoDup_fmap_1 (addr ths)). apply Hi. Qed.

(** ** Changes of one thread *)

(** The fields that the queue depends on. *)
Definition same_fields (x x' : Tasknode) : Prop :=
  next x' = next x ∧ WCT x' = WCT x ∧ priority x' = priority x ∧ ptid x' = ptid x.

Lemma addr_insert ths i t t' j : ths !! i = Some t → task_node t' = task_node t → addr (<[i:=t']> ths) j = addr ths j.
Proof.
  intros Hi Ht. unfold addr. destruct (decide (i = j)) as [->|]; [by rewrite lookup_insert_eq, Hi; simpl; rewrite Ht|].
  by rewrite lookup_insert_ne.
Qed.

Lemma list_fmap_same {A B} (f g : A → B) (l : list A) : (∀ x, f x = g x) → f <$> l = g <$> l.
Proof. intros H. apply list_fmap_ext. auto. Qed.

Lemma lseg_same c a x x' p l q :
  c !! a = Some x → next x' = next x → lseg c p l q → lseg (<[a := x']> c) p l q.
Proof.
  intros Ha Hx. revert p. induction l as [|b l IH]; intros p; [done|].
  intros (-> & Hb & y & Hy & Hs). split_and!; [done|done|].
  destruct (decide (a = b)) as [->|].
  - exists x'. rewrite lookup_insert_eq. split; [done|]. rewrite Hx. simplify_eq. auto.
  - exists y. rewrite lookup_insert_ne by done. auto.
Qed.

Lemma inv_change h head ths ids κ i t x t' x' k :
  inv h head ths ids κ → i ∈ ids → ths !! i = Some t → cells h !! task_node t = Some x →
  task_node t' = task_node t → same_fields x x' → local k t' x' →
  inv (Heap (<[task_node t := x']> (cells h)) (fresh_addr h)) head (<[i := t']> ths) ids (<[i := k]> κ).
Proof.
  intros Hinv Hi Ht Hx Hnode (Hnext & Hw & Hp & Hid) Hloc. destruct Hinv as [H1 H2 H3 H4 H5 H6 H7].
  assert (∀ j u, (<[i := t']> ths) !! j = Some u → ∃ u0, ths !! j = Some u0 ∧ task_node u = task_node u0) as Hback.
  { intros j u [[<- <-]|[_ Hu]]%lookup_insert_Some; eauto. }
  split; cbn [cells fresh_addr].
  - eapply update_heap_ok with (p := task_node t) (f := λ _, x'); [exact H1|]. by erewrite update_Ok.
  - rewrite (list_fmap_same _ (addr ths)) by (intros j; by eapply addr_insert). destruct H2 as [Hs Hnd].
    split; [by eapply lseg_same|done].
  - intros j Hj. destruct (H3 j Hj) as (u & y & Hu & Hy & Hid' & Hl). destruct (decide (i = j)) as [<-|Hij].
    + exists t', x'. rewrite lookup_insert_eq, Hnode, lookup_insert_eq, fn_lookup_insert.
      assert (u = t) as -> by congruence. assert (y = x) as -> by congruence. split_and!; try done. congruence.
    + exists u, y. rewrite lookup_insert_ne, fn_lookup_insert_ne by done. rewrite lookup_insert_ne; [done|].
      intros E. apply Hij. by eapply H5.
  - intros j u Hu Hj. apply lookup_insert_Some in Hu as [[<- <-]|[Hij Hu]]; [done|].
    destruct (H4 j u Hu Hj) as (Ha & Hb & [Hf|(Hf & y & Hy & Hz)]); unfold outside; split_and!; try done; [by left|right].
    split; [done|]. exists y. rewrite lookup_insert_ne; [done|]. intros E. apply Hij. by eapply H5.
  - intros j1 j2 u1 u2 (v1 & Hv1 & ->)%Hback (v2 & Hv2 & ->)%Hback. by apply H5.
  - intros j u (v & Hv & ->)%Hback. by eapply H6.
  - intros j u y Hu Hy. destruct (Hback j u Hu) as (v & Hv & E). rewrite E in Hy.
    destruct (decide (i = j)) as [<-|Hij].
    + assert (v = t) as -> by congruence. rewrite lookup_insert_eq in Hy. injection Hy as <-.
      rewrite Hw, Hp. by eapply H7.
    + rewrite lookup_insert_ne in Hy; [by eapply H7|]. intros E'. apply Hij. by eapply H5.
Qed.

(** The two kinds of change alone. *)
Lemma inv_thread h head ths ids κ i t x t' k :
  inv h head ths ids κ → i ∈ ids → ths !! i = Some t → cells h !! task_node t = Some x →
  task_node t' = task_node t → local k t' x → inv h head (<[i := t']> ths) ids (<[i := k]> κ).
Proof.
  intros Hinv Hi Ht Hx Hn Hl. pose proof (inv_change h head ths ids κ i t x t' x k Hinv Hi Ht Hx Hn) as H.
  rewrite (insert_id _ _ _ Hx) in H. destruct h. by apply H.
Qed.

Lemma inv_node h head ths ids κ i t x x' k :
  inv h head ths ids κ → i ∈ ids → ths !! i = Some t → cells h !! task_node t = Some x →
  same_fields x x' → local k t x' →
  inv (Heap (<[task_node t := x']> (cells h)) (fresh_addr h)) head ths ids (<[i := k]> κ).
Proof.
  intros Hinv Hi Ht Hx Hf Hl. pose proof (inv_change h head ths ids κ i t x t x' k Hinv Hi Ht Hx eq_refl Hf Hl) as H.
  by rewrite (insert_id _ _ _ Ht) in H.
Qed.

Lemma in_queue h head ths ids κ i t :
  inv h head ths ids κ → ths !! i = Some t → usr1 t = true ∨ cont t = true ∨ pc t = InSem ∨ pc t = Executing →
  i ∈ ids ∧ ∃ x, cells h !! task_node t = Some x ∧ ptid x = i ∧ local (κ i) t x.
Proof.
  intros Hinv Ht Hor. destruct (decide (i ∈ ids)) as [Hi|Hi].
  - split; [done|]. destruct (inv_in _ _ _ _ _ Hinv i Hi) as (t1 & x & Ht1 & Hx & Hid & Hl). simplify_eq. eauto.
  - destruct (inv_out _ _ _ _ _ Hinv i t Ht Hi) as (Ha & Hb & [Hc|[Hc _]]); rewrite Ha, Hb, Hc in Hor; naive_solver.
Qed.

Lemma phase_not_stopped ids κ b i :
  phase ids κ b → i ∈ ids → κ i ≠ Stopped →
  (b = true ∧ κ i = Halting ∧ ∀ j, j ∈ ids → j ≠ i → κ j = Stopped) ∨
  (b = false ∧ (κ i = Posted ∨ κ i = Continued ∨ κ i = Active) ∧ ∃ l, ids = i :: l ∧ ∀ j, j ∈ l → κ j = Stopped).
Proof.
  unfold phase. intros Hp Hi Hk. destruct b; [left|right]; (split; [done|]).
  - destruct Hp as (_ & [Hall|(i0 & Hi0 & Hh & Hrest)]); [by destruct Hk; apply Hall|].
    destruct (decide (i = i0)) as [->|Hne]; [done|]. by destruct Hk; apply Hrest.
  - destruct ids as [|i0 l]; [by apply elem_of_nil in Hi|]. destruct Hp as [Hh Hl].
    apply elem_of_cons in Hi as [->|Hi]; [eauto|]. by destruct Hk; apply Hl.
Qed.

(** ** The steps *)

Implicit Types (w : world).

Lemma stop_step w ids κ id r :
  winv w ids κ → fire (Stop id) w = Some r →
  ∃ w' κ', r = Ok w' ∧ winv w' ids κ' ∧ finished_task w' = finished_task w.
Proof.
  intros (Hinv & Hph & Hpol). simpl. destruct (threads w !! id) as [t|] eqn:Ht; [|done]. simpl.
  destruct (usr1 t) eqn:Hu; [|done]. intros [= <-].
  destruct (in_queue _ _ _ _ _ _ _ Hinv Ht) as (Hi & x & Hx & Hid & Hl); [by left|].
  assert (κ id = Halting) as Hk by (destruct (κ id); simpl in Hl; naive_solver congruence).
  rewrite Hk in Hl. simpl in Hl.
  eexists _, (<[id := Stopped]> κ). split; [done|]. split; [|done]. split; [|split; [|done]]; cbn [nodes sched_head threads usr2 set_threads goto].
  - eapply inv_thread; try done. simpl. split_and!; try done; try apply Hl. right. split; [apply Hl|done].
  - destruct (phase_not_stopped _ _ _ id Hph Hi) as [(Hb & _ & Hrest)|(_ & Hor & _)]; [congruence| |by rewrite Hk in Hor; naive_solver].
    rewrite Hb in *. split; [by intros ->; apply elem_of_nil in Hi|]. left. intros j Hj.
    destruct (decide (id = j)) as [<-|Hne]; [by rewrite fn_lookup_insert|]. rewrite fn_lookup_insert_ne by done. by apply Hrest.
Qed.

(** The thread at the head goes on. *)
Lemma active_phase ids l κ id b :
  phase ids κ b → b = false → ids = id :: l → id ∉ l → phase ids (<[id := Active]> κ) b.
Proof.
  intros Hp -> -> Hl. destruct Hp as [_ Hp]. split; [rewrite fn_lookup_insert; auto|]. intros j Hj.
  rewrite fn_lookup_insert_ne; [auto|]. by intros ->.
Qed.

Lemma continue_step w ids κ id r :
  winv w ids κ → fire (Continue id) w = Some r →
  ∃ w' κ', r = Ok w' ∧ winv w' ids κ' ∧ finished_task w' = finished_task w.
Proof.
  intros (Hinv & Hph & Hpol). simpl. destruct (threads w !! id) as [t|] eqn:Ht; [|done]. simpl.
  destruct (cont t) eqn:Hu; [|done]. intros [= <-].
  destruct (in_queue _ _ _ _ _ _ _ Hinv Ht) as (Hi & x & Hx & Hid & Hl); [by right; left|].
  assert (κ id = Continued) as Hk by (destruct (κ id); simpl in Hl; naive_solver congruence).
  rewrite Hk in Hl. simpl in Hl. pose proof (inv_NoDup _ _ _ _ _ Hinv) as Hnd.
  eexists _, (<[id := Active]> κ). split; [done|]. split; [|done]. split; [|split; [|done]]; cbn [nodes sched_head threads usr2 set_threads goto].
  - eapply inv_thread; try done. simpl. by split_and!; try apply Hl.
  - destruct (phase_not_stopped _ _ _ id Hph Hi) as [(_ & Hh & _)|(Hb & _ & l & -> & _)]; [congruence|congruence|].
    eapply active_phase; try done. by apply NoDup_cons in Hnd as [? _].
Qed.

Lemma wake_step w ids κ id r :
  winv w ids κ → fire (Wake id) w = Some r →
  ∃ w' κ', r = Ok w' ∧ winv w' ids κ' ∧ finished_task w' = finished_task w.
Proof.
  intros (Hinv & Hph & Hpol). simpl. destruct (threads w !! id) as [t|] eqn:Ht; [|done]. simpl.
  destruct (decide (pc t = InSem)) as [Hpc|]; [|done].
  destruct (in_queue _ _ _ _ _ _ _ Hinv Ht) as (Hi & x & Hx & Hid & Hl); [by right; right; left|].
  rewrite (proj2 (load_Ok _ _ _) Hx). destruct (Z.ltb_spec 0 (wait_sem x)) as [Hs|]; [|done]. intros [= <-].
  assert (κ id = Posted) as Hk.
  { destruct (κ id); simpl in Hl; destruct_and? Hl; try done; lia. }
  rewrite Hk in Hl. simpl in Hl. pose proof (inv_NoDup _ _ _ _ _ Hinv) as Hnd.
  unfold upd_node. rewrite (update_Ok _ _ _ x) by done. cbn [mbind outcome_bind].
  eexists _, (<[id := Active]> κ). split; [done|]. split; [|done].
  split; [|split; [|done]]; cbn [nodes sched_head threads usr2 set_threads goto set_queue fst snd].
  - eapply inv_change; try done. simpl. destruct Hl as (? & ? & -> & ?). by split_and!.
  - destruct (phase_not_stopped _ _ _ id Hph Hi) as [(_ & Hh & _)|(Hb & _ & l & -> & _)]; [congruence|congruence|].
    eapply active_phase; try done. by apply NoDup_cons in Hnd as [? _].
Qed.

(** The first task of the queue, in memory. *)
Lemma head_task h head ths i l κ :
  inv h head ths (i :: l) κ →
  ∃ t x, ths !! i = Some t ∧ head = task_node t ∧ head ≠ NULL ∧ cells h !! task_node t = Some x ∧ ptid x = i ∧
    local (κ i) t x ∧ next x = hd NULL (addr ths <$> l).
Proof.
  intros Hinv. destruct (inv_in _ _ _ _ _ Hinv i) as (t & x & Ht & Hx & Hid & Hl); [by left|].
  destruct (inv_rep _ _ _ _ _ Hinv) as [Hs _]. cbn [fmap list_fmap lseg] in Hs. rewrite (addr_eq _ _ _ Ht) in Hs.
  destruct Hs as (Hh & Hn & y & Hy & Hs). exists t, x. simplify_eq. split_and!; try done.
  destruct l as [|j l]; [by simpl in Hs|]. simpl in Hs. by destruct Hs as (-> & _).
Qed.

Lemma empty_queue h head ths κ : inv h head ths [] κ → head = NULL.
Proof. intros Hinv. by destruct (inv_rep _ _ _ _ _ Hinv) as [Hs _]. Qed.

Lemma pthread_kill_alter id sig w t :
  threads w !! id = Some t → pc t ≠ Finished → pthread_kill id sig w = set_threads (<[id := sig t]> (threads w)) w.
Proof.
  intros Ht Hp. unfold pthread_kill. f_equal. apply map_eq. intros j. destruct (decide (id = j)) as [->|].
  - by rewrite lookup_alter_eq, lookup_insert_eq, Ht; simpl; rewrite decide_False.
  - by rewrite lookup_alter_ne, lookup_insert_ne.
Qed.

Lemma stop_enabled w i t : threads w !! i = Some t → usr1 t = true → fire (Stop i) w ≠ None.
Proof. intros Ht Hu. simpl. rewrite Ht. simpl. by rewrite Hu. Qed.

Lemma pick_step w ids κ r :
  winv w ids κ → prompt Pick w → fire Pick w = Some r →
  ∃ w' κ', r = Ok w' ∧ winv w' ids κ' ∧ finished_task w' = finished_task w.
Proof.
  intros (Hinv & Hph & Hpol) Hprompt. simpl. destruct (usr2 w) eqn:Hu; [|done]. intros [= <-].
  destruct Hph as [Hne Hst]. assert (∀ i, i ∈ ids → κ i = Stopped) as Hall.
  { destruct Hst as [Hst|(i0 & Hi0 & Hk & _)]; [done|]. exfalso.
    destruct (inv_in _ _ _ _ _ Hinv i0 Hi0) as (t & x & Ht & _ & _ & Hl). rewrite Hk in Hl.
    eapply (stop_enabled w i0 t); [done|apply Hl|]. apply (Hprompt (Stop i0)). simpl. lia. }
  destruct ids as [|i l]; [done|]. pose proof (inv_NoDup _ _ _ _ _ Hinv) as [Hil Hnd]%NoDup_cons.
  destruct (head_task _ _ _ _ _ _ Hinv) as (t & x & Ht & Hh & Hh0 & Hx & Hid & Hl & _).
  assert (∀ k, k = Posted ∨ k = Continued → phase (i :: l) (<[i := k]> κ) false) as Hphase.
  { intros k Hk. split; [rewrite fn_lookup_insert; tauto|]. intros j Hj. rewrite fn_lookup_insert_ne by (by intros ->).
    apply Hall. by right. }
  rewrite (Hall i) in Hl by (by left). destruct Hl as (Hu1 & Hc & Hsem & Hst').
  unfold sched_run_sighand. cbn [nodes sched_head set_usr2]. rewrite Hh, (proj2 (load_Ok _ _ _) Hx). cbn [mbind outcome_bind].
  unfold upd_node. cbn [nodes sched_head set_usr2].
  destruct Hst' as [[Hs Hpc]|[Hs Hpc]]; rewrite Hs; cbn [Z.eqb STATUS_WAITING STATUS_READY Pos.eqb];
    rewrite (update_Ok _ _ _ x) by done; cbn [mbind outcome_bind].
  - eexists _, (<[i := Posted]> κ). split; [done|]. split; [|done]. split; [|split; [by apply Hphase; left|done]].
    cbn [nodes sched_head threads set_queue set_usr2 fst snd]. rewrite Hsem.
    eapply inv_node; try done.
    by left.
  - eexists _, (<[i := Continued]> κ). split; [done|].
    rewrite Hid, (pthread_kill_alter i _ _ t) by (done || by rewrite Hpc).
    split; [|done]. split; [|split; [by apply Hphase; right|done]].
    cbn [nodes sched_head threads set_threads set_queue set_usr2 fst snd]. eapply inv_change; try done; [by left|].
    cbn. split_and!; try done. by right.
Qed.

(** [delete_task] at the head. *)
Lemma finish_inv h head ths i l κ t x :
  inv h head ths (i :: l) κ → ths !! i = Some t → cells h !! task_node t = Some x → κ i = Active →
  inv (Heap (delete (task_node t) (cells h)) (fresh_addr h)) (next x) (<[i := set_pc Finished t]> ths) l κ.
Proof.
  intros Hinv Ht Hx Hk. pose proof (inv_NoDup _ _ _ _ _ Hinv) as [Hil Hnd]%NoDup_cons.
  destruct (head_task _ _ _ _ _ _ Hinv) as (t1 & x1 & Ht1 & Hh & Hh0 & Hx1 & Hid & Hl & Hnx).
  assert (t1 = t) as -> by congruence. assert (x1 = x) as -> by congruence. clear Ht1 Hx1 Hid.
  rewrite Hk in Hl. destruct Hinv as [H1 H2 H3 H4 H5 H6 H7].
  assert (∀ j u, (<[i := set_pc Finished t]> ths) !! j = Some u → ∃ u0, ths !! j = Some u0 ∧ task_node u = task_node u0) as Hback.
  { intros j u [[<- <-]|[_ Hu]]%lookup_insert_Some; eauto. }
  assert (∀ j u, j ≠ i → ths !! j = Some u → task_node u ≠ task_node t) as Hother.
  { intros j u Hj Hu E. apply Hj. by eapply H5. }
  destruct H2 as [Hs Hnda]. cbn [fmap list_fmap] in Hs, Hnda. apply NoDup_cons in Hnda as [Hnin Hnda].
  rewrite (addr_eq _ _ _ Ht) in Hnin.
  split; cbn [cells fresh_addr].
  - eapply free_heap_ok; [exact H1|]. by erewrite free_Ok.
  - rewrite (list_fmap_same _ (addr ths)) by (intros j; by eapply addr_insert). split; [|done]. cbn [cells].
    apply lseg_delete; [done|]. destruct Hs as (_ & _ & y & Hy & Hs). rewrite (addr_eq _ _ _ Ht) in Hy. by simplify_eq.
  - intros j Hj. assert (j ≠ i) as Hji by (by intros ->). destruct (H3 j) as (u & y & Hu & Hy & Hu'); [by right|].
    exists u, y. rewrite lookup_insert_ne by done. rewrite lookup_delete_ne; [done|]. by eapply not_eq_sym, Hother.
  - intros j u [[<- <-]|[Hij Hu]]%lookup_insert_Some Hj.
    + destruct Hl as (? & ? & ? & ?). unfold outside. split_and!; try done. by left.
    + destruct (H4 j u Hu) as (Ha & Hb & [Hf|(Hf & y & Hy & Hz)]); [by intros [->|?]%elem_of_cons| |]; unfold outside; split_and!; try done; [by left|right].
      split; [done|]. exists y. rewrite lookup_delete_ne; [done|]. by eapply not_eq_sym, Hother.
  - intros j1 j2 u1 u2 (v1 & Hv1 & ->)%Hback (v2 & Hv2 & ->)%Hback. by apply H5.
  - intros j u (v & Hv & ->)%Hback. by eapply H6.
  - intros j u y Hu [_ Hy]%lookup_delete_Some. destruct (Hback j u Hu) as (v & Hv & E). rewrite E in Hy. by eapply H7.
Qed.

Lemma alter_insert_eq (ths : gmap Z thread) i t (f : thread → thread) : ths !! i = Some t → alter f i ths = <[i := f t]> ths.
Proof.
  intros Ht. apply map_eq. intros j. destruct (decide (i = j)) as [->|].
  - by rewrite lookup_alter_eq, lookup_insert_eq, Ht.
  - by rewrite lookup_alter_ne, lookup_insert_ne.
Qed.

Lemma executing_head w ids κ id t :
  winv w ids κ → usr2 w = false → threads w !! id = Some t → pc t = Executing →
  κ id = Active ∧ ∃ l, ids = id :: l ∧ ∀ j, j ∈ l → κ j = Stopped.
Proof.
  intros (Hinv & Hph & _) Hu Ht Hpc.
  destruct (in_queue _ _ _ _ _ _ _ Hinv Ht) as (Hi & x & Hx & Hid & Hl); [by right; right; right|].
  assert (κ id = Active ∨ κ id = Halting) as Hk.
  { destruct (κ id); simpl in Hl; destruct_and? Hl; destruct_or?; try tauto; destruct_and?; congruence. }
  destruct (phase_not_stopped _ _ _ id Hph Hi) as [(Hb & _)|(_ & Hor & l & -> & Hrest)]; [destruct Hk; congruence|congruence|].
  split; [|eauto]. destruct Hk as [?|E]; [done|]. rewrite E in Hor. naive_solver.
Qed.

Lemma prompt_pick a w : prompt a w → (1 < rank a)%nat → usr2 w = false.
Proof. intros Hp Hr. specialize (Hp Pick Hr). simpl in Hp. by destruct (usr2 w). Qed.

Lemma finish_step w ids κ id r :
  winv w ids κ → prompt (Finish id) w → fire (Finish id) w = Some r →
  ∃ w' κ' l, r = Ok w' ∧ ids = id :: l ∧ winv w' l κ' ∧ finished_task w' = finished_task w + 1.
Proof.
  intros Hw Hprompt. simpl. destruct (threads w !! id) as [t|] eqn:Ht; [|done]. simpl.
  destruct (decide (pc t = Executing)) as [Hpc|]; [|done]. intros [= <-].
  pose proof (prompt_pick _ _ Hprompt ltac:(simpl; lia)) as Hu.
  destruct (executing_head _ _ _ _ _ Hw Hu Ht Hpc) as (Hk & l & -> & Hrest). destruct Hw as (Hinv & Hph & Hpol).
  pose proof (inv_NoDup _ _ _ _ _ Hinv) as [Hil Hnd]%NoDup_cons.
  destruct (head_task _ _ _ _ _ _ Hinv) as (t1 & x & Ht1 & Hh & Hh0 & Hx & Hid & Hl & Hnx).
  assert (t1 = t) as -> by congruence. clear Ht1.
  pose proof (finish_inv _ _ _ _ _ _ t x Hinv Ht Hx Hk) as Hinv'.
  unfold delete_task. rewrite Hh, (proj2 (load_Ok _ _ _) Hx). cbn [mbind outcome_bind].
  rewrite (free_Ok _ _ x) by done. cbn [mbind outcome_bind].
  destruct l as [|j l].
  - rewrite Hnx. cbn [fmap list_fmap hd]. rewrite Z.eqb_refl. cbn [negb mbind outcome_bind].
    eexists _, κ, []. split; [done|]. split; [done|]. split; [|done].
    split; [|split; [by cbn; rewrite Hu|done]]. cbn [nodes sched_head threads count_finished set_threads set_queue fst snd].
    rewrite (alter_insert_eq _ _ t) by done. rewrite Hnx in Hinv'. exact Hinv'.
  - assert (j ≠ id) as Hji by (intros ->; apply Hil; by left).
    destruct (head_task _ _ _ _ _ _ Hinv') as (tj & y & Htj & Hhj & Hhj0 & Hy & Hidj & Hlj & _).
    rewrite (proj2 (Z.eqb_neq _ _)) by done. cbn [negb]. rewrite Hhj. rewrite (proj2 (load_Ok _ _ _) Hy). cbn [mbind outcome_bind].
    rewrite lookup_insert_ne in Htj by done. rewrite (Hrest j) in Hlj by (by left).
    assert (pc tj ≠ Finished) as Hpj by (destruct Hlj as (_ & _ & _ & [[_ E]|[_ E]]); by rewrite E).
    rewrite Hidj, (pthread_kill_alter j _ _ tj) by done. cbn [mbind outcome_bind].
    eexists _, (<[j := Continued]> κ), (j :: l). split; [done|]. split; [done|]. split; [|done].
    split; [|split; [|done]]; cbn [nodes sched_head threads usr2 count_finished set_threads set_queue fst snd].
    + rewrite (alter_insert_eq _ _ t) by (by rewrite lookup_insert_ne). rewrite insert_insert_ne by done.
      eapply inv_thread.
      * rewrite <-Hhj. exact Hinv'.
      * by left.
      * by rewrite lookup_insert_ne.
      * done.
      * done.
      * destruct Hlj as (? & ? & ? & ?). cbn. split_and!; try done. tauto.
    + rewrite Hu. split; [rewrite fn_lookup_insert; tauto|]. intros i Hi.
      apply NoDup_cons in Hnd as [Hjl _]. rewrite fn_lookup_insert_ne by (by intros ->). apply Hrest. by right.
Qed.

(** A node outside the queue changes, its link and parameters aside. *)
Lemma inv_outside h head ths ids κ i t x x' :
  inv h head ths ids κ → i ∉ ids → ths !! i = Some t → cells h !! task_node t = Some x →
  next x' = next x → WCT x' = WCT x → priority x' = priority x → wait_sem x' = wait_sem x →
  inv (Heap (<[task_node t := x']> (cells h)) (fresh_addr h)) head ths ids κ.
Proof.
  intros [H1 H2 H3 H4 H5 H6 H7] Hi Ht Hx Hn Hw Hp Hs.
  assert (∀ j u, j ≠ i → ths !! j = Some u → task_node t ≠ task_node u) as Hother.
  { intros j u Hj Hu E. apply Hj. by eapply H5. }
  split; cbn [cells fresh_addr]; try done.
  - eapply update_heap_ok with (p := task_node t) (f := λ _, x'); [exact H1|]. by erewrite update_Ok.
  - destruct H2 as [Hs' Hnd]. split; [by eapply lseg_same|done].
  - intros j Hj. destruct (H3 j Hj) as (u & y & Hu & Hy & Hl). exists u, y. rewrite lookup_insert_ne; [done|].
    eapply Hother; [|done]. by intros ->.
  - intros j u Hu Hj. destruct (H4 j u Hu Hj) as (Ha & Hb & [Hf|(Hf & y & Hy & Hny & Hsy)]); unfold outside; split_and!; try done; [by left|right].
    split; [done|]. destruct (decide (j = i)) as [->|Hne].
    + assert (u = t) as -> by congruence. assert (y = x) as -> by congruence. exists x'. rewrite lookup_insert_eq.
      split; [done|]. split; congruence.
    + exists y. rewrite lookup_insert_ne; [done|]. by eapply Hother.
  - intros j u y Hu Hy. destruct (decide (j = i)) as [->|Hne].
    + assert (u = t) as -> by congruence. rewrite lookup_insert_eq in Hy. injection Hy as <-. rewrite Hw, Hp. by eapply H7.
    + rewrite lookup_insert_ne in Hy by (by eapply Hother). by eapply H7.
Qed.

Lemma insert_by_fmap (f : Z → Z) (stay stay' : Z → bool) n l :
  (∀ a, a ∈ l → stay (f a) = stay' a) → insert_by stay (f n) (f <$> l) = f <$> insert_by stay' n l.
Proof.
  induction l as [|a l IH]; intros Hs; [done|]. simpl. rewrite (Hs a) by (by left).
  destruct (stay' a); [|done]. simpl. f_equal. apply IH. intros b Hb. apply Hs. by right.
Qed.

(** The policy sees the parameters of the nodes. *)
Lemma policy_insert_fmap (wctA prioA : Z → Z) (f : Z → Z) n l :
  (∀ a, a ∈ n :: l → wctA (f a) = wct a ∧ prioA (f a) = prio a) →
  policy_insert wctA prioA pol (f n) (f <$> l) = f <$> policy_insert wct prio pol n l.
Proof.
  intros Hf. assert (∀ a, a ∈ l → goes_first wctA prioA (f n) pol (f a) = goes_first wct prio n pol a) as Hg.
  { intros a Ha. unfold goes_first. destruct (Hf n) as [-> ->]; [by left|]. destruct (Hf a) as [-> ->]; [by right|]. done. }
  unfold policy_insert. destruct (preemptive pol); [by apply insert_by_fmap|].
  destruct l as [|a l]; [done|]. simpl. f_equal. apply insert_by_fmap. intros b Hb. apply Hg. by right.
Qed.

(** The nodes of the queue, and those of other threads. *)
Lemma addr_in h head ths ids κ j a :
  inv h head ths ids κ → a ∈ addr ths <$> ids → ths !! j = None ∨ (∃ u, ths !! j = Some u ∧ task_node u = a) →
  (∃ u, ths !! j = Some u) → j ∈ ids.
Proof.
  intros Hinv (k & -> & Hk)%list_elem_of_fmap [Hn|(u & Hu & E)] [v Hv]; [congruence|].
  destruct (inv_in _ _ _ _ _ Hinv k Hk) as (w & y & Hw & _). rewrite (addr_eq _ _ _ Hw) in E.
  by rewrite (inv_inj _ _ _ _ _ Hinv j k u w).
Qed.

Lemma node_not_queued h head ths ids κ j u : inv h head ths ids κ → ths !! j = Some u → j ∉ ids → task_node u ∉ addr ths <$> ids.
Proof. intros Hinv Hu Hj Ha. apply Hj. eapply addr_in; eauto. Qed.

(** A thread with a waiting node joins a queue in which only links change. *)
Lemma inv_join h head ths ids κ i t x h' head' ids' :
  inv h head ths ids κ → i ∉ ids → ths !! i = Some t → usr1 t = false → cont t = false →
  cells h !! task_node t = Some x → ptid x = i → wait_sem x = 0 → schedule_status x = STATUS_WAITING →
  relinked (task_node t :: (addr ths <$> ids)) h h' → queue_rep h' head' (addr ths <$> ids') →
  (∀ j, j ∈ ids' ↔ j = i ∨ j ∈ ids) →
  inv h' head' (<[i := set_pc InSem t]> ths) ids' (<[i := Stopped]> κ).
Proof.
  intros Hinv Hi Ht Hu Hc Hx Hid Hsem Hst (Hsame & Hfresh & Hrest) Hrep Hin.
  assert (∀ j u, (<[i := set_pc InSem t]> ths) !! j = Some u → ∃ u0, ths !! j = Some u0 ∧ task_node u = task_node u0) as Hback.
  { intros j u [[<- <-]|[_ Hu']]%lookup_insert_Some; eauto. }
  pose proof Hinv as [H1 H2 H3 H4 H5 H6 H7]. split.
  - destruct H1 as [Hf Hd]. split; [by rewrite Hfresh|]. intros a [y Hy]. rewrite Hfresh. apply Hd.
    destruct (same_tasks_lookup (cells h') (cells h) a y) as [z Hz]; [by symmetry|done|]. eauto.
  - rewrite (list_fmap_same _ (addr ths)) by (intros j; by eapply addr_insert). exact Hrep.
  - intros j Hj. apply Hin in Hj. destruct (decide (j = i)) as [->|Hne].
    + destruct (same_tasks_lookup _ _ _ _ Hsame Hx) as [z Hz]. exists (set_pc InSem t), (set_next z x).
      rewrite lookup_insert_eq, fn_lookup_insert. split_and!; try done. cbn. split_and!; try done. by left.
    + destruct Hj as [->|Hj]; [done|]. destruct (H3 j Hj) as (u & y & Hu' & Hy & Hidy & Hl).
      destruct (same_tasks_lookup _ _ _ _ Hsame Hy) as [z Hz]. exists u, (set_next z y).
      rewrite lookup_insert_ne, fn_lookup_insert_ne by done. split_and!; try done.
  - intros j u Hu' Hj. rewrite Hin in Hj. assert (j ≠ i ∧ j ∉ ids) as [Hji Hj'] by tauto.
    rewrite lookup_insert_ne in Hu' by done.
    destruct (H4 j u Hu' Hj') as (Ha & Hb & [Hf|(Hf & Hy)]); unfold outside; split_and!; try done; [by left|right].
    split; [done|]. rewrite Hrest; [done|]. intros [E|Hq]%elem_of_cons; [by apply Hji, (H5 j i u t)|].
    by eapply node_not_queued.
  - intros j1 j2 u1 u2 (v1 & Hv1 & ->)%Hback (v2 & Hv2 & ->)%Hback. by apply H5.
  - intros j u (v & Hv & ->)%Hback. rewrite Hfresh. by eapply H6.
  - intros j u y Hu' Hy. destruct (Hback j u Hu') as (v & Hv & E). rewrite E in Hy.
    destruct (same_tasks_lookup (cells h') (cells h) (task_node v) y) as [z Hz]; [by symmetry|done|].
    by apply (H7 j v (set_next z y)).
Qed.

Lemma inv_enqueue h head ths ids κ i t x :
  policy_ok pol → inv h head ths ids κ → i ∉ ids → ths !! i = Some t → usr1 t = false → cont t = false →
  cells h !! task_node t = Some x → next x = NULL → ptid x = i → wait_sem x = 0 → schedule_status x = STATUS_WAITING →
  ∃ h' head', enqueue pol (task_node t) (h, head) = Ok (h', head') ∧
    inv h' head' (<[i := set_pc InSem t]> ths) (policy_insert wct prio pol i ids) (<[i := Stopped]> κ).
Proof.
  intros Hpol Hinv Hi Ht Hu Hc Hx Hn Hid Hsem Hst.
  set (wctA := λ a, default 0 (WCT <$> cells h !! a)). set (prioA := λ a, default 0 (priority <$> cells h !! a)).
  assert (params_ok wctA prioA (cells h)) as Hpar by (intros a y Ha; unfold wctA, prioA; by rewrite Ha).
  assert (∀ j, j ∈ i :: ids → wctA (addr ths j) = wct j ∧ prioA (addr ths j) = prio j) as Hkeys.
  { intros j [->|Hj]%elem_of_cons; unfold wctA, prioA.
    - rewrite (addr_eq _ _ _ Ht), Hx. by eapply (inv_par _ _ _ _ _ Hinv).
    - destruct (inv_in _ _ _ _ _ Hinv j Hj) as (u & y & Hu' & Hy & _).
      rewrite (addr_eq _ _ _ Hu'), Hy. by eapply (inv_par _ _ _ _ _ Hinv). }
  pose proof (node_not_queued _ _ _ _ _ _ _ Hinv Ht Hi) as Hnin. pose proof (inv_addr _ _ _ _ _ Hinv i t Ht) as Hrange.
  destruct (enqueue_spec wctA prioA pol h head (addr ths <$> ids) (task_node t) x) as (h' & head' & Heq & Hrep & Hrel); try done.
  { apply Hinv. }
  { unfold NULL. lia. }
  exists h', head'. split; [done|]. rewrite <-(addr_eq _ _ _ Ht), (policy_insert_fmap wctA prioA (addr ths) i ids Hkeys) in Hrep.
  eapply inv_join; try done. intros j. by rewrite policy_insert_perm, elem_of_cons.
Qed.

(** A running task is told to stop. *)
Lemma halt_head w ids κ :
  winv w ids κ → usr2 w = false → (∀ i, i ∈ ids → κ i = Stopped ∨ κ i = Active) →
  ∃ w1 κ1,
    (if negb (sched_head w =? NULL) then
       hd ← load (nodes w) (sched_head w);
       upd_node (sched_head w) (set_status STATUS_READY) (pthread_kill (ptid hd) (set_usr1 true) w)
     else Ok w) = Ok w1 ∧
    inv (nodes w1) (sched_head w1) (threads w1) ids κ1 ∧
    ((∀ i, i ∈ ids → κ1 i = Stopped) ∨ ∃ i0, i0 ∈ ids ∧ κ1 i0 = Halting ∧ ∀ i, i ∈ ids → i ≠ i0 → κ1 i = Stopped) ∧
    (∀ i t, i ∉ ids → threads w !! i = Some t → threads w1 !! i = Some t) ∧
    (∀ i t, i ∉ ids → threads w !! i = Some t → cells (nodes w1) !! task_node t = cells (nodes w) !! task_node t) ∧
    schedule_policy w1 = pol ∧ finished_task w1 = finished_task w.
Proof.
  intros (Hinv & Hph & Hpol) Hu Hk. rewrite Hu in Hph. destruct ids as [|i0 l].
  { rewrite (empty_queue _ _ _ _ Hinv), Z.eqb_refl. exists w, κ. split; [done|]. split; [done|].
    split; [left; intros i Hi; by apply elem_of_nil in Hi|done]. }
  destruct (head_task _ _ _ _ _ _ Hinv) as (t & x & Ht & Hh & Hh0 & Hx & Hid & Hl & _).
  pose proof (inv_NoDup _ _ _ _ _ Hinv) as [Hil Hnd]%NoDup_cons. destruct Hph as [Hk0 Hrest].
  assert (κ i0 = Active) as Hact by (destruct (Hk i0) as [E|E]; [by left| |done]; rewrite E in Hk0; naive_solver).
  rewrite Hact in Hl. destruct Hl as (Hu1 & Hc & Hsem & Hpc).
  rewrite (proj2 (Z.eqb_neq _ _)) by done. cbn [negb]. rewrite Hh, (proj2 (load_Ok _ _ _) Hx). cbn [mbind outcome_bind].
  rewrite Hid, (pthread_kill_alter i0 _ _ t) by (done || by rewrite Hpc).
  unfold upd_node. cbn [nodes set_threads]. rewrite (update_Ok _ _ _ x) by done. cbn [mbind outcome_bind].
  eexists _, (<[i0 := Halting]> κ). split; [done|].
  cbn [nodes sched_head threads schedule_policy finished_task set_queue set_threads fst snd]. split; [|split; [|split; [|split]]].
  - eapply inv_change; try done. by left.
  - right. exists i0. split; [by left|]. rewrite fn_lookup_insert. split; [done|]. intros i Hi Hne.
    rewrite fn_lookup_insert_ne by done. apply Hrest. apply elem_of_cons in Hi as [->|?]; done.
  - intros i u Hi Hu'. rewrite lookup_insert_ne; [done|]. intros ->. apply Hi. by left.
  - intros i u Hi Hu'. cbn [cells]. rewrite lookup_insert_ne; [done|]. intros E. apply Hi.
    rewrite (inv_inj _ _ _ _ _ Hinv i i0 u t) by done. by left.
  - done.
Qed.

Lemma quiet_kinds w ids κ a :
  winv w ids κ → prompt a w → (2 < rank a)%nat → ∀ i, i ∈ ids → κ i = Stopped ∨ κ i = Active.
Proof.
  intros (Hinv & Hph & _) Hp Hr i Hi. destruct (inv_in _ _ _ _ _ Hinv i Hi) as (t & x & Ht & Hx & _ & Hl).
  destruct (κ i); [by left| | | |by right]; exfalso; destruct Hl as (H1 & H2 & H3 & H4).
  - assert (fire (Stop i) w = None) as E by (apply Hp; simpl; lia). simpl in E. rewrite Ht in E. simpl in E. by rewrite H1 in E.
  - assert (fire (Wake i) w = None) as E by (apply Hp; simpl; lia). simpl in E. rewrite Ht in E. simpl in E.
    by rewrite decide_True, (proj2 (load_Ok _ _ _) Hx), H3 in E by done.
  - assert (fire (Continue i) w = None) as E by (apply Hp; simpl; lia). simpl in E. rewrite Ht in E. simpl in E. by rewrite H2 in E.
Qed.

Lemma arrive_step w ids κ id r :
  policy_ok pol → winv w ids κ → prompt (Arrive id) w → fire (Arrive id) w = Some r →
  ∃ w' κ', r = Ok w' ∧ id ∉ ids ∧ winv w' (policy_insert wct prio pol id ids) κ' ∧ finished_task w' = finished_task w.
Proof.
  intros Hok Hw Hprompt. pose proof Hw as (Hinv & Hph & Hpol). simpl.
  destruct (threads w !! id) as [t|] eqn:Ht; [|done]. simpl. destruct (decide (pc t = Arriving)) as [Hpc|]; [|done]. intros [= <-].
  assert (id ∉ ids) as Hid.
  { intros Hi. destruct (inv_in _ _ _ _ _ Hinv id Hi) as (t1 & x & Ht1 & _ & _ & Hl). assert (t1 = t) as -> by congruence.
    destruct (κ id); simpl in Hl; destruct_and? Hl; destruct_or?; destruct_and?; congruence. }
  destruct (inv_out _ _ _ _ _ Hinv id t Ht Hid) as (Hu & Hc & [Hf|(_ & x & Hx & Hnx & Hsem)]); [congruence|].
  pose proof (prompt_pick _ _ Hprompt ltac:(simpl; lia)) as Hu2.
  pose proof (quiet_kinds w ids κ _ Hw Hprompt ltac:(simpl; lia)) as Hkinds.
  unfold upd_node at 1. rewrite (update_Ok _ _ _ x) by done. cbn [mbind outcome_bind].
  pose proof (inv_outside _ _ _ _ _ id t x (set_ptid id x) Hinv Hid Ht Hx eq_refl eq_refl eq_refl eq_refl) as Hinv1.
  set (w1 := set_queue _ w). assert (winv w1 ids κ) as Hw1 by (by split_and!).
  unfold add_task. destruct (halt_head w1 ids κ Hw1 Hu2 Hkinds) as (w2 & κ2 & -> & Hinv2 & Hk2 & Hth2 & Hc2 & Hp2 & Hf2).
  cbn [mbind outcome_bind]. specialize (Hth2 id t Hid Ht). specialize (Hc2 id t Hid Ht).
  cbn [w1 nodes set_queue fst cells] in Hc2. rewrite lookup_insert_eq in Hc2.
  unfold upd_node. rewrite (update_Ok _ _ _ _ Hc2). cbn [mbind outcome_bind nodes sched_head set_queue fst snd].
  pose proof (inv_outside _ _ _ _ _ id t _ (set_status STATUS_WAITING (set_ptid id x)) Hinv2 Hid Hth2 Hc2 eq_refl eq_refl eq_refl eq_refl) as Hinv3.
  change (schedule_policy w1) with (schedule_policy w). rewrite Hpol.
  destruct (inv_enqueue _ _ _ _ _ id t (set_status STATUS_WAITING (set_ptid id x)) Hok Hinv3) as (h' & head' & Heq & Hinv4);
    try done; [cbn [cells]; by rewrite lookup_insert_eq|].
  rewrite Heq. cbn [mbind outcome_bind].
  eexists _, (<[id := Stopped]> κ2). split; [done|]. split; [done|]. split; [|exact Hf2].
  split; [|split; [|exact Hp2]]; cbn [nodes sched_head threads usr2 set_threads set_usr2 set_queue fst snd].
  - by rewrite (alter_insert_eq _ _ t).
  - split; [intros E; pose proof (policy_insert_perm wct prio pol id ids) as Hp; rewrite E in Hp; by apply Permutation_nil_cons in Hp|].
    destruct Hk2 as [Hall|(i0 & Hi0 & Hh & Hrest)]; [left|right; exists i0].
    + intros j Hj. rewrite policy_insert_perm, elem_of_cons in Hj. destruct (decide (j = id)) as [->|Hne]; [by rewrite fn_lookup_insert|].
      rewrite fn_lookup_insert_ne by done. apply Hall. by destruct Hj.
    + split; [rewrite policy_insert_perm, elem_of_cons; by right|].
      split; [by rewrite fn_lookup_insert_ne by (by intros ->)|]. intros j Hj Hji.
      rewrite policy_insert_perm, elem_of_cons in Hj. destruct (decide (j = id)) as [->|Hne]; [by rewrite fn_lookup_insert|].
      rewrite fn_lookup_insert_ne by done. apply Hrest; [by destruct Hj|done].
Qed.

(** [create_task] that returns has allocated a node and started a thread. *)
Lemma create_task_spec mem sem starts id arrival c p w w' : heap_ok (nodes w) →
  create_task mem sem starts id arrival c p w = Ok w' →
  w' = set_threads (<[id := Thread Arriving (fresh_addr (nodes w)) false false]> (threads w))
         (set_queue ((malloc (nodes w) (Node arrival c p 0 0 0 NULL)).2, sched_head w) w).
Proof.
  intros Hh. unfold create_task. intros ([q h] & E & H)%bind_Ok. destruct starts; [|done]. injection H as <-.
  unfold creat_thread_node in E. destruct mem; cbn -[update] in E.
  - rewrite (update_Ok _ _ _ garbage) in E by apply lookup_insert_eq. cbn -[update] in E. destruct sem; [|done].
    erewrite update_Ok in E by apply lookup_insert_eq. cbn in E. injection E as <- <-. unfold malloc. cbn [snd].
    by rewrite !insert_insert_eq.
  - unfold update in E. by rewrite load_NULL in E.
Qed.

Lemma create_inv w ids κ id arrival mem sem starts w' :
  winv w ids κ → threads w !! id = None → create_task mem sem starts id arrival (wct id) (prio id) w = Ok w' →
  winv w' ids κ.
Proof.
  intros (Hinv & Hph & Hpol) Hnone Hw'. pose proof Hinv as [H1 H2 H3 H4 H5 H6 H7].
  apply (create_task_spec _ _ _ _ _ _ _ _ _ H1) in Hw' as ->.
  set (n := fresh_addr (nodes w)). assert (id ∉ ids) as Hid.
  { intros Hi. destruct (H3 id Hi) as (t & _ & Ht & _). congruence. }
  assert (∀ j u, threads w !! j = Some u → j ≠ id ∧ task_node u ≠ n ∧ 0 < task_node u < n) as Hold.
  { intros j u Hu. pose proof (H6 j u Hu) as Hr. fold n in Hr. split; [congruence|lia]. }
  split; [|done]. cbn [nodes sched_head threads malloc set_threads set_queue fst snd]. fold n.
  split; cbn [cells fresh_addr].
  - apply (malloc_ok (nodes w)). exact H1.
  - destruct H2 as [Hs Hnd]. assert (addr (<[id := Thread Arriving n false false]> (threads w)) <$> ids = addr (threads w) <$> ids) as ->.
    { apply list_fmap_ext. intros k j Hj. unfold addr. rewrite lookup_insert_ne; [done|]. intros ->. apply Hid. by eapply list_elem_of_lookup_2. }
    split; [|done]. cbn [cells]. apply lseg_insert_fresh; [|done]. intros (j & Hj & Hjin)%list_elem_of_fmap.
    destruct (H3 j Hjin) as (u & y & Hu & _). rewrite (addr_eq _ _ _ Hu) in Hj. destruct (Hold j u Hu). lia.
  - intros j Hj. destruct (H3 j Hj) as (u & y & Hu & Hy & Hl). destruct (Hold j u Hu) as (Hne & Hnn & _). exists u, y.
    by rewrite !lookup_insert_ne by congruence.
  - intros j u [[<- <-]|[Hne Hu]]%lookup_insert_Some Hj.
    + unfold outside. split_and!; try done. right. split; [done|]. eexists. rewrite lookup_insert_eq. by split_and!.
    + destruct (Hold j u Hu) as (_ & Hnn & _). destruct (H4 j u Hu Hj) as (Ha & Hb & Hor). unfold outside.
      rewrite lookup_insert_ne by congruence. by split_and!.
  - intros i j u v [[<- <-]|[Hi Hu]]%lookup_insert_Some [[<- <-]|[Hj Hv]]%lookup_insert_Some E; simpl in E; try done.
    + destruct (Hold j v Hv). lia.
    + destruct (Hold i u Hu). lia.
    + by eapply H5.
  - intros j u [[<- <-]|[_ Hu]]%lookup_insert_Some; [simpl; destruct H1; lia|]. destruct (Hold j u Hu). lia.
  - intros j u y [[<- <-]|[_ Hu]]%lookup_insert_Some Hy; simpl in Hy.
    + rewrite lookup_insert_eq in Hy. by injection Hy as <-.
    + destruct (Hold j u Hu) as (_ & Hnn & _). rewrite lookup_insert_ne in Hy by congruence. by eapply H7.
Qed.

Definition is_done (e : event) : bool := match e with EDone _ => true | EAdd _ => false end.

(** How many tasks are done. *)
Definition done_count (es : list event) : Z := zlen (filter is_done es).

Lemma done_snoc es e : done_count (es ++ [e]) = done_count es + if is_done e then 1 else 0.
Proof.
  unfold done_count. rewrite filter_app, zlen_app. f_equal. rewrite filter_cons. by destruct e.
Qed.

Lemma spec_snoc es e l : spec_run es = Some l → spec_run (es ++ [e]) = spec_step l e.
Proof. unfold spec_run. rewrite foldl_app. simpl. by intros ->. Qed.

(** A step of a state that satisfies the invariant. *)
Lemma step_inv w ids κ a r :
  policy_ok pol → winv w ids κ → prompt a w → fire a w = Some r →
  ∃ w' κ' ids', r = Ok w' ∧ winv w' ids' κ' ∧
    match event_of a with
    | [] => ids' = ids ∧ finished_task w' = finished_task w
    | e :: _ => event_of a = [e] ∧ spec_step ids e = Some ids' ∧
        finished_task w' = finished_task w + if is_done e then 1 else 0
    end.
Proof.
  intros Hok Hw Hp Hf. destruct a as [id|id|id|id| |id].
  - destruct (arrive_step w ids κ id r Hok Hw Hp Hf) as (w' & κ' & -> & Hid & Hw' & Hfin).
    exists w', κ', (policy_insert wct prio pol id ids). split; [done|]. split; [done|]. simpl. split; [done|].
    rewrite decide_False by done. split; [done|lia].
  - destruct (wake_step w ids κ id r Hw Hf) as (w' & κ' & -> & Hw' & Hfin). by exists w', κ', ids.
  - destruct (stop_step w ids κ id r Hw Hf) as (w' & κ' & -> & Hw' & Hfin). by exists w', κ', ids.
  - destruct (continue_step w ids κ id r Hw Hf) as (w' & κ' & -> & Hw' & Hfin). by exists w', κ', ids.
  - destruct (pick_step w ids κ r Hw Hp Hf) as (w' & κ' & -> & Hw' & Hfin). by exists w', κ', ids.
  - destruct (finish_step w ids κ id r Hw Hp Hf) as (w' & κ' & l & -> & -> & Hw' & Hfin).
    exists w', κ', l. split; [done|]. split; [done|]. simpl. split; [done|]. by rewrite decide_True.
Qed.

Lemma prompt_run_inv es w :
  policy_ok pol → prompt_run es w →
  ∃ ids κ, spec_run es = Some ids ∧ winv w ids κ ∧ finished_task w = done_count es.
Proof.
  intros Hok. induction 1 as [|es w id arrival mem sem starts w' _ (ids & κ & Hs & Hw & Hf) Hnone Hc|es w a w' _ (ids & κ & Hs & Hw & Hf) Hp Hfire].
  - exists [], (λ _, Stopped). split; [done|]. split; [|done]. split; [|done].
    split; try done; try (by intros i Hi; apply elem_of_nil in Hi).
    + apply empty_heap_ok.
    + split; [done|constructor].
  - exists ids, κ. split; [done|]. split; [by eapply create_inv|].
    apply (create_task_spec _ _ _ _ _ _ _ _ _ (inv_heap _ _ _ _ _ (proj1 Hw))) in Hc as ->. done.
  - destruct (step_inv w ids κ a _ Hok Hw Hp Hfire) as (w1 & κ' & ids' & [= <-] & Hw' & Hev).
    exists ids', κ'. destruct (event_of a) as [|e es'].
    + destruct Hev as [-> Hfin]. rewrite app_nil_r. split; [done|]. split; [done|congruence].
    + destruct Hev as ([= ->] & Hspec & Hfin). rewrite (spec_snoc _ _ ids Hs), done_snoc. split; [done|]. split; [done|]. congruence.
Qed.

(** Who executes in a state of the invariant. *)
Lemma winv_executing w ids κ i j t u :
  winv w ids κ → threads w !! i = Some t → pc t = Executing → threads w !! j = Some u → pc u = Executing → i = j.
Proof.
  intros (Hinv & Hph & _) Ht Hpt Hu Hpu.
  assert (∀ k v, threads w !! k = Some v → pc v = Executing → k ∈ ids ∧ κ k ≠ Stopped) as Hex.
  { intros k v Hv Hpv. destruct (in_queue _ _ _ _ _ _ _ Hinv Hv) as (Hk & x & _ & _ & Hl); [tauto|]. split; [done|].
    intros E. rewrite E in Hl. destruct Hl as (_ & _ & _ & [[_ Hq]|[_ Hq]]); congruence. }
  destruct (Hex i t Ht Hpt) as [Hi Hki], (Hex j u Hu Hpu) as [Hj Hkj].
  destruct (phase_not_stopped _ _ _ i Hph Hi Hki) as [(_ & _ & Hrest)|(_ & _ & l & -> & Hrest)].
  - destruct (decide (j = i)) as [?|Hne]; [done|]. by destruct Hkj; apply Hrest.
  - apply elem_of_cons in Hj as [->|Hj]; [done|]. by destruct Hkj; apply Hrest.
Qed.

(** With all signals delivered, the first task of the queue executes. *)
Lemma winv_quiet w i l κ :
  winv w (i :: l) κ → (∀ a, (rank a < 3)%nat → fire a w = None) → ∃ t, threads w !! i = Some t ∧ pc t = Executing.
Proof.
  intros Hw Hq. pose proof Hw as (Hinv & Hph & _).
  assert (prompt (Finish i) w) as Hp by (intros b Hb; by apply Hq).
  pose proof (prompt_pick _ _ Hp ltac:(simpl; lia)) as Hu. rewrite Hu in Hph. destruct Hph as [Hk _].
  destruct (quiet_kinds w (i :: l) κ _ Hw Hp ltac:(simpl; lia) i) as [E|E]; [by left|rewrite E in Hk; naive_solver|].
  destruct (head_task _ _ _ _ _ _ Hinv) as (t & x & Ht & _ & _ & _ & _ & Hl & _). rewrite E in Hl. exists t. split; [done|]. apply Hl.
Qed.
End threads.

(** One task at a time.  In every run in which signals are delivered
    promptly, under each policy: no step is undefined; at most one thread
    executes its task; the queue in memory is the list that the policy makes of
    the arrivals and completions so far, and completions follow it; when no
    signal is on its way the first task of the queue executes; and
    [finished_task] counts the completions. *)
Theorem prompt_signals_safe wct prio pol es w :
  policy_ok pol → prompt_run wct prio pol es w →
  (∀ a e, prompt a w → fire a w ≠ Some (Err e)) ∧
  (∀ i j t u, threads w !! i = Some t → pc t = Executing → threads w !! j = Some u → pc u = Executing → i = j) ∧
  (∃ ids, spec_run wct prio pol es = Some ids ∧ queue_rep (nodes w) (sched_head w) (addr (threads w) <$> ids) ∧
     ((∀ a, (rank a < 3)%nat → fire a w = None) → ∀ i l, ids = i :: l → ∃ t, threads w !! i = Some t ∧ pc t = Executing)) ∧
  finished_task w = done_count es.
Proof.
  intros Hok Hrun. destruct (prompt_run_inv wct prio pol es w Hok Hrun) as (ids & κ & Hs & Hw & Hf). split_and!.
  - intros a e Hp Hfire. by destruct (step_inv wct prio pol w ids κ a _ Hok Hw Hp Hfire) as (w' & κ' & ids' & E & _).
  - intros i j t u. by eapply winv_executing.
  - exists ids. split; [done|]. split; [apply Hw|]. intros Hq i l ->. by eapply winv_quiet.
  - done.
Qed.

(** ** Late signals *)

(** A run of the actions in the given order; [None]: one was not possible. *)
Fixpoint async_run (l : list action) (w : world) : option (outcome world) :=
  match l with
  | [] => Some (Ok w)
  | a :: l => match fire a w with Some (Ok w) => async_run l w | r => r end
  end.

(** Two tasks, the second one with the shorter execution time. *)
Definition two_tasks (pol : Z) : outcome world :=
  w ← create_task true true true 1 0 5 0 (init_scheduler pol); create_task true true true 2 1 3 0 w.

(** A run of the two tasks. *)
Definition two_run (l : list action) (pol : Z) : option (outcome world) :=
  match two_tasks pol with Ok w => async_run l w | Err e => Some (Err e) end.

(** What no thread of [w] can do. *)
Definition idle (a : action) (w : world) : bool := match fire a w with None => true | _ => false end.
Definition idle_threads (f : Z → action) (w : world) : bool :=
  forallb (λ it, idle (f it.1) w) (map_to_list (threads w)).

Lemma idle_threads_None f w :
  (∀ i, threads w !! i = None → fire (f i) w = None) → idle_threads f w = true → ∀ i, fire (f i) w = None.
Proof.
  intros Hout Hall i. destruct (threads w !! i) as [t|] eqn:Ht; [|by apply Hout].
  unfold idle_threads in Hall. rewrite forallb_forall in Hall.
  specialize (Hall (i, t)). unfold idle in Hall. simpl in Hall. destruct (fire (f i) w); [|done].
  exfalso. assert (false = true); [|done]. apply Hall, list_elem_of_In. by apply elem_of_map_to_list.
Qed.

Lemma stuck_check w :
  idle_threads Arrive w && idle_threads Wake w && idle_threads Stop w && idle_threads Continue w && idle Pick w &&
    idle_threads Finish w = true → ∀ a, fire a w = None.
Proof.
  rewrite !andb_true_iff. intros (((((Ha & Hw) & Hs) & Hc) & Hp) & Hf) a.
  destruct a as [i|i|i|i| |i]; [revert i; apply idle_threads_None; [intros i Hi; simpl; by rewrite Hi|done]..| |];
    [unfold idle in Hp; by destruct (fire Pick w)|revert i; apply idle_threads_None; [intros i Hi; simpl; by rewrite Hi|done]].
Qed.

Lemma prompt_check a w :
  idle_threads Stop w && idle Pick w && idle_threads Continue w && idle_threads Wake w = true ∨
  idle_threads Stop w && idle Pick w && (rank a <=? 2)%nat = true ∨
  idle_threads Stop w && (rank a <=? 1)%nat = true → prompt a w.
Proof.
  assert (∀ f, idle_threads f w = true → (f = Stop ∨ f = Continue ∨ f = Wake) → ∀ i, fire (f i) w = None) as Hidle.
  { intros f Hf Hor. apply idle_threads_None; [|done]. intros i Hi. destruct Hor as [-> |[-> | ->]]; simpl; by rewrite Hi. }
  intros H b Hb. destruct H as [H|[H|H]]; rewrite !andb_true_iff, ?Nat.leb_le in H; destruct_and? H;
    destruct b; simpl in Hb; try lia; try (by eapply Hidle; eauto);
    unfold idle in *; repeat case_match; try done; destruct a; simpl in *; lia.
Qed.

(** What late signals can do.  (1) SIGCONT of the chosen task arrives before
    the SIGUSR1 that was sent first: the task sleeps in the handler, nothing can
    happen any more, and the queue is not empty.  (2) SIGUSR2 arrives when all
    tasks are done: the handler follows the NULL head.  (3) The running task
    ends before its SIGUSR1 arrives and another one is in front: it frees the
    node of that task, whose thread waits on the freed semaphore. *)
Theorem late_signals_break :
  (∃ w, two_run [Arrive 1; Pick; Wake 1; Arrive 2; Pick; Continue 1; Stop 1] POLICY_FCFS = Some (Ok w) ∧
     sched_head w ≠ NULL ∧ finished_task w = 0 ∧ ∀ a, fire a w = None) ∧
  two_run [Arrive 1; Pick; Wake 1; Arrive 2; Finish 1; Continue 2; Finish 2; Pick] POLICY_FCFS =
    Some (Err Undef) ∧
  two_run [Arrive 1; Pick; Wake 1; Arrive 2; Finish 1; Wake 2] POLICY_SJF_PEM = Some (Err Undef).
Proof.
  split_and!; [|by vm_compute|by vm_compute].
  eexists. split; [vm_compute; reflexivity|]. split; [done|]. split; [done|]. apply stuck_check. by vm_compute.
Qed.

(** The first task arrives, is chosen and executes. *)
Lemma prompt_signals_safe_witness :
  ∃ w, prompt_run (λ i, i) (λ _, 0) POLICY_FCFS [EAdd 7] w ∧ finished_task w = 0 ∧
    (∀ a e, prompt a w → fire a w ≠ Some (Err e)) ∧
    ∃ t, threads w !! 7 = Some t ∧ pc t = Executing.
Proof.
  destruct (create_task true true true 7 0 7 0 (init_scheduler POLICY_FCFS)) as [w0|] eqn:E0; [|vm_compute in E0; discriminate].
  assert (prompt_run (λ i, i) (λ _, 0) POLICY_FCFS [] w0) as H0.
  { apply (run_create _ _ _ _ (init_scheduler POLICY_FCFS) 7 0 true true true); [constructor|reflexivity|exact E0]. }
  vm_compute in E0. injection E0 as <-.
  match type of H0 with prompt_run _ _ _ _ ?w => set (w0 := w) in * end.
  destruct (fire (Arrive 7) w0) as [[w1|]|] eqn:E1; [|vm_compute in E1; discriminate|vm_compute in E1; discriminate].
  assert (prompt (Arrive 7) w0) as P1 by (apply prompt_check; left; vm_compute; reflexivity).
  pose proof (run_step _ _ _ _ _ _ _ H0 P1 E1) as H1. vm_compute in E1. injection E1 as <-.
  match type of H1 with prompt_run _ _ _ _ ?w => set (w1 := w) in * end.
  destruct (fire Pick w1) as [[w2|]|] eqn:E2; [|vm_compute in E2; discriminate|vm_compute in E2; discriminate].
  assert (prompt Pick w1) as P2 by (apply prompt_check; right; right; vm_compute; reflexivity).
  pose proof (run_step _ _ _ _ _ _ _ H1 P2 E2) as H2. vm_compute in E2. injection E2 as <-.
  match type of H2 with prompt_run _ _ _ _ ?w => set (w2 := w) in * end.
  destruct (fire (Wake 7) w2) as [[w3|]|] eqn:E3; [|vm_compute in E3; discriminate|vm_compute in E3; discriminate].
  assert (prompt (Wake 7) w2) as P3 by (apply prompt_check; right; left; vm_compute; reflexivity).
  pose proof (run_step _ _ _ _ _ _ _ H2 P3 E3) as H3. vm_compute in E3. injection E3 as <-.
  match type of H3 with prompt_run _ _ _ _ ?w => set (w3 := w) in * end.
  exists w3. split; [exact H3|].
  destruct (prompt_signals_safe (λ i, i) (λ _, 0) POLICY_FCFS [EAdd 7] w3) as (S1 & _ & _ & S4).
  - unfold policy_ok, POLICY_FCFS. lia.
  - exact H3.
  - split; [exact S4|]. split; [exact S1|]. eexists. split; [vm_compute; reflexivity|reflexivity].
Defined.
