(* ===== verification/Interleave.v ===== *)
(** * Threads that share memory

    What the multi-threaded programs of the course have in common: a list of
    threads, each with its own control state, and the memory they share.  A
    program is given by the next atomic step of each thread; the scheduler
    chooses the thread.  An atomic step makes at most one access to the shared
    memory (or one call of the semaphore functions) and what follows it in the
    thread's own variables, so every interleaving of a sequentially consistent
    machine is a run. *)

From stdpp Require Import base list numbers relations.
From S2P Require Import Prelude.

Section interleave.
Context {T S : Type}.

Record conf := Conf { threads : list T; shared : S }.

(** [None]: the thread has ended or is blocked; [Err]: its step is undefined. *)
Variable step : Z → T → S → option (outcome (T * S)).

Inductive runs_step (c : conf) : conf → Prop :=
| do_step i t t' s' :
    threads c !! i = Some t → step (Z.of_nat i) t (shared c) = Some (Ok (t', s')) →
    runs_step c (Conf (<[i := t']> (threads c)) s').

(** Some thread can make an undefined step. *)
Definition may_fault (c : conf) : Prop :=
  ∃ i t e, threads c !! i = Some t ∧ step (Z.of_nat i) t (shared c) = Some (Err e).

(** The run of a given schedule; a chosen thread that cannot step is skipped. *)
Fixpoint exec (schedule : list nat) (c : conf) : outcome conf :=
  match schedule with
  | [] => Ok c
  | i :: rest =>
      match threads c !! i with
      | None => exec rest c
      | Some t =>
          match step (Z.of_nat i) t (shared c) with
          | None => exec rest c
          | Some r => r ← r; exec rest (Conf (<[i := r.1]> (threads c)) r.2)
          end
      end
  end.

Lemma exec_runs schedule : ∀ c c', exec schedule c = Ok c' → rtc runs_step c c'.
Proof.
  induction schedule as [|i rest IH]; intros c c'; simpl; [intros [= <-]; done|].
  destruct (threads c !! i) as [t|] eqn:Ht; [|apply IH].
  destruct (step _ t _) as [[[t' s']|]|] eqn:Hs; cbn; [|done|apply IH].
  intros Hr. eapply rtc_l; [by econstructor|by apply IH].
Qed.

(** Rule induction: what every step keeps holds in every reachable state. *)
Lemma runs_invariant (I : conf → Prop) c c' :
  (∀ ts s i t t' s', I (Conf ts s) → ts !! i = Some t → step (Z.of_nat i) t s = Some (Ok (t', s')) →
     I (Conf (<[i := t']> ts) s')) →
  I c → rtc runs_step c c' → I c'.
Proof.
  intros HI Hc Hr. induction Hr as [c|c1 c2 c3 [i t t' s' Ht Hs] _ IH]; [done|]. apply IH.
  destruct c1 as [ts s]. by eapply HI.
Qed.

(** When a state with the invariant that is not final can always reach one with
    a greater value of a bounded measure, it can reach a final state. *)
Lemma runs_progress (I final : conf → Prop) (m : conf → nat) (bound : nat) :
  (∀ c, I c → final c ∨ ∃ c', rtc runs_step c c' ∧ I c' ∧ (m c < m c')%nat) → (∀ c, I c → (m c ≤ bound)%nat) →
  ∀ c, I c → ∃ c', rtc runs_step c c' ∧ I c' ∧ final c'.
Proof.
  intros Hp Hb c. remember (bound - m c)%nat as d eqn:Hd. revert c Hd.
  induction d as [d IH] using lt_wf_ind. intros c -> HI. destruct (Hp c HI) as [Hf|(c1 & Hr & HI1 & Hlt)]; [by exists c|].
  pose proof (Hb c1 HI1). destruct (IH (bound - m c1)%nat ltac:(lia) c1 eq_refl HI1) as (c2 & Hr2 & ? & ?).
  exists c2. split; [by etrans|done].
Qed.

(** A thread that runs alone. *)
Definition solo (i : nat) (x y : T * S) : Prop := step (Z.of_nat i) x.1 x.2 = Some (Ok y).

Lemma solo_runs i x y : rtc (solo i) x y → ∀ ts, ts !! i = Some x.1 →
  rtc runs_step (Conf ts x.2) (Conf (<[i := y.1]> ts) y.2).
Proof.
  induction 1 as [x|x z y Hs _ IH]; intros ts Hi; [by rewrite list_insert_id|].
  eapply rtc_l; [apply (do_step (Conf ts x.2) i x.1 z.1 z.2 Hi); by destruct z|].
  rewrite <-(list_insert_insert_eq ts i y.1 z.1). apply IH. apply list_lookup_insert_eq, (lookup_lt_Some _ _ _ Hi).
Qed.
End interleave.
Arguments conf : clear implicits.
Arguments Conf {T S} threads shared.

(** ** Indices of a circular buffer *)

Lemma rem_mod_succ q x : 0 < q → 0 ≤ x → Z.rem (x mod q + 1) q = (x + 1) mod q.
Proof.
  intros Hq Hx. pose proof (Z.mod_pos_bound x q Hq). rewrite Z.rem_mod_nonneg by lia. by rewrite Zplus_mod_idemp_l.
Qed.

(** Two positions less than the size apart are different slots. *)
Lemma mod_near_inj q x y : 0 < q → x ≤ y → y - x < q → x mod q = y mod q → x = y.
Proof.
  intros Hq Hxy Hlt He. pose proof (Z.div_mod x q ltac:(lia)) as Ex. pose proof (Z.div_mod y q ltac:(lia)) as Ey.
  rewrite He in Ex. set (u := x / q) in *. set (v := y / q) in *. assert (v - u = 0); nia.
Qed.

(** ** Updating a thread *)

Lemma lookup_update {T} (ts : list T) i j p p' q :
  ts !! i = Some p → <[i := p']> ts !! j = Some q → (j = i ∧ q = p') ∨ (j ≠ i ∧ ts !! j = Some q).
Proof.
  intros Hi. destruct (decide (j = i)) as [->|Hne].
  - rewrite list_lookup_insert_eq by (by eapply lookup_lt_Some). intros [= ->]. by left.
  - rewrite list_lookup_insert_ne by done. by right.
Qed.

Lemma lookup_updated {T} (ts : list T) i p p' : ts !! i = Some p → <[i := p']> ts !! i = Some p'.
Proof. intros Hi. by apply list_lookup_insert_eq, (lookup_lt_Some _ _ _ Hi). Qed.

(** ** Counting threads *)

Definition count {T} (P : T → bool) (ts : list T) : Z := zlen (filter (λ t, P t = true) ts).

Lemma count_nil {T} (P : T → bool) : count P [] = 0.
Proof. done. Qed.

Lemma count_cons {T} (P : T → bool) t ts : count P (t :: ts) = (if P t then 1 else 0) + count P ts.
Proof.
  unfold count. rewrite filter_cons. destruct (P t); (case_decide; [|try done]); try done.
  unfold zlen. cbn [length]. lia.
Qed.

Lemma count_app {T} (P : T → bool) ts us : count P (ts ++ us) = count P ts + count P us.
Proof. unfold count. by rewrite filter_app, zlen_app. Qed.

Lemma count_nonneg {T} (P : T → bool) ts : 0 ≤ count P ts.
Proof. apply zlen_nonneg. Qed.

Lemma tcount_update {T} (P : T → bool) ts : ∀ i t t',
  ts !! i = Some t → count P (<[i := t']> ts) = count P ts - (if P t then 1 else 0) + (if P t' then 1 else 0).
Proof.
  induction ts as [|x ts IH]; intros [|i] t t'; [done|done|..]; cbn [lookup list_lookup insert list_insert].
  - intros [= ->]. rewrite !count_cons. lia.
  - intros Ht. rewrite !count_cons. erewrite IH by done. lia.
Qed.

Lemma count_le {T} (P Q : T → bool) ts :
  (∀ t, t ∈ ts → P t = true → Q t = true) → count P ts ≤ count Q ts.
Proof.
  induction ts as [|x ts IH]; intros H; [done|]. rewrite !count_cons.
  specialize (IH ltac:(intros t Ht; apply H; by right)). pose proof (H x ltac:(by left)).
  destruct (P x), (Q x); try lia; naive_solver.
Qed.

Lemma tcount_zero {T} (P : T → bool) ts : (∀ t, t ∈ ts → P t = false) → count P ts = 0.
Proof.
  induction ts as [|x ts IH]; intros H; [done|]. rewrite count_cons, IH, H; [done|by left|intros; apply H; by right].
Qed.

Lemma count_bound {T} (P : T → bool) ts : count P ts ≤ zlen ts.
Proof. unfold count, zlen. pose proof (length_filter (λ t, P t = true) ts). lia. Qed.

(** A thread that satisfies [Q] but not [P] makes the inclusion strict. *)
Lemma count_lt {T} (P Q : T → bool) ts i t :
  (∀ t, t ∈ ts → P t = true → Q t = true) → ts !! i = Some t → P t = false → Q t = true → count P ts < count Q ts.
Proof.
  intros H. revert i. induction ts as [|x ts IH]; intros i; [done|]. rewrite !count_cons.
  pose proof (H x ltac:(by left)) as Hx. assert (∀ t, t ∈ ts → P t = true → Q t = true) as H' by (intros; apply H; [by right|done]).
  destruct i as [|i]; cbn [lookup list_lookup].
  - intros [= ->] -> ->. pose proof (count_le P Q ts H'). lia.
  - intros Ht HP HQ. specialize (IH H' i Ht HP HQ). destruct (P x), (Q x); try lia; naive_solver.
Qed.

(** Only one thread can satisfy [P]. *)
Lemma count_other {T} (P : T → bool) ts i p :
  ts !! i = Some p → (∀ j q, j ≠ i → ts !! j = Some q → P q = false) → count P ts = if P p then 1 else 0.
Proof.
  revert i p. induction ts as [|x ts IH]; intros [|i] p; try done; cbn [lookup list_lookup]; rewrite count_cons.
  - intros [= ->] Ho. rewrite (tcount_zero P ts); [lia|]. intros q [j Hj]%list_elem_of_lookup. by apply (Ho (S j)).
  - intros Hi Ho. rewrite (Ho O x) by done. rewrite (IH i p Hi); [lia|]. intros j q Hji Hj. apply (Ho (S j)); [congruence|done].
Qed.

(** Two threads that satisfy [P] are counted. *)
Lemma count_two {T} (P : T → bool) ts i j t u :
  ts !! i = Some t → ts !! j = Some u → P t = true → P u = true → count P ts ≤ 1 → i = j.
Proof.
  intros Hi Hj HPt HPu Hle. destruct (decide (i = j)) as [|Hij]; [done|exfalso]. revert i j Hi Hj Hij Hle.
  assert (∀ ts i t, ts !! i = Some t → P t = true → 1 ≤ count P ts) as Hone.
  { clear. intros ts i t Hi HP. pose proof (count_lt (λ _, false) P ts i t) as H.
    rewrite (tcount_zero (λ _, false)) in H by done. specialize (H ltac:(done) Hi eq_refl HP). lia. }
  induction ts as [|x ts IH]; intros [|i] [|j]; try done; cbn [lookup list_lookup]; rewrite count_cons.
  - intros [= ->] Hj _. rewrite HPt. specialize (Hone ts j u Hj HPu). lia.
  - intros Hi [= ->] _. rewrite HPu. specialize (Hone ts i t Hi HPt). lia.
  - intros Hi Hj Hij. pose proof (count_nonneg P ts). intros Hle. apply (IH i j Hi Hj); [congruence|]. destruct (P x); lia.
Qed.

Lemma sumZ_update {T} (f : T → Z) ts : ∀ i t t',
  ts !! i = Some t → sumZ (f <$> <[i := t']> ts) = sumZ (f <$> ts) - f t + f t'.
Proof.
  induction ts as [|x ts IH]; intros [|i] t t'; [done|done|..]; cbn [lookup list_lookup insert list_insert].
  - intros [= ->]. rewrite !fmap_cons, !sumZ_cons. lia.
  - intros Ht. rewrite !fmap_cons, !sumZ_cons. erewrite IH by done. lia.
Qed.

Lemma sumZ_bound {T} (f : T → Z) b ts : (∀ t, t ∈ ts → f t ≤ b) → sumZ (f <$> ts) ≤ zlen ts * b.
Proof.
  induction ts as [|x ts IH]; intros H; [done|]. rewrite fmap_cons, sumZ_cons. pose proof (H x ltac:(by left)).
  specialize (IH ltac:(intros; apply H; by right)). unfold zlen in *. cbn [length]. lia.
Qed.

(** A thread with the greatest value of [f] among those with [P]. *)
Lemma argmax {T} (P : T → bool) (f : T → Z) (ts : list T) :
  (∃ i t, ts !! i = Some t ∧ P t = true) →
  ∃ i t, ts !! i = Some t ∧ P t = true ∧ ∀ j u, ts !! j = Some u → P u = true → f u ≤ f t.
Proof.
  intros (i & t & Hi & Ht). revert i t Hi Ht. induction ts as [|x ts IH]; [done|].
  assert ((∃ j u, ts !! j = Some u ∧ P u = true) ∨ ∀ j u, ts !! j = Some u → P u = false) as Hdec.
  { destruct (decide (Exists (λ u, P u = true) ts)) as [(u & Hu & ?)%Exists_exists|Hn].
    - apply list_elem_of_lookup in Hu as [j Hj]. left. eauto.
    - right. intros j u Hj. destruct (P u) eqn:E; [|done]. destruct Hn. apply Exists_exists. eexists. split; [by eapply list_elem_of_lookup_2|done]. }
  intros i t Hi Ht. destruct Hdec as [(j & u & Hj & Hu)|Hno].
  - destruct (IH j u Hj Hu) as (k & v & Hk & Hv & Hmax).
    destruct (P x) eqn:Hx; [destruct (decide (f v ≤ f x))|].
    + exists O, x. split; [done|]. split; [done|]. intros [|m] w; cbn; [intros [= ->]; done|].
      intros Hm Hw. specialize (Hmax m w Hm Hw). lia.
    + exists (S k), v. split; [done|]. split; [done|]. intros [|m] w; cbn; [intros [= ->]; lia|apply Hmax].
    + exists (S k), v. split; [done|]. split; [done|]. intros [|m] w; cbn; [intros [= ->]; congruence|apply Hmax].
  - destruct i as [|i]; cbn in Hi; [|by rewrite (Hno i t Hi) in Ht]. injection Hi as ->.
    exists O, t. split; [done|]. split; [done|]. intros [|m] w; cbn; [intros [= ->]; done|]. intros Hm. by rewrite (Hno m w Hm).
Qed.
