(* ===== verification/Peterson.v ===== *)
(** * alg.15-1-peterson-counter.c: mutual exclusion for n threads

    Models src/Labweek14/alg.15-1-peterson-counter.c, Peterson's algorithm for
    [max_num] threads.  Every access to [level], [waiting] and [counter] is an
    atomic step of its own (also the load and the store of [counter++]), in a
    sequentially consistent memory; the threads are interleaved in any way. *)

From stdpp Require Import base list numbers relations.
From S2P Require Import Prelude Interleave.

Definition MAX_N : Z := 1024.

(** What the threads print. *)
Inductive event :=
| Working (n : Z)
| Entering (n : Z)
| Too_many.

(** [killed]: the process has received SIGKILL. *)
Record peterson := Peterson {
  counter : Z;
  level : list Z;
  waiting : list Z;
  printed : list event;
  killed : bool
}.

Definition set_counter (v : Z) (s : peterson) : peterson := Peterson v (level s) (waiting s) (printed s) (killed s).
Definition set_level (n v : Z) (s : peterson) : outcome peterson :=
  a ← aset (level s) n v; Ok (Peterson (counter s) a (waiting s) (printed s) (killed s)).
Definition set_waiting (l v : Z) (s : peterson) : outcome peterson :=
  a ← aset (waiting s) l v; Ok (Peterson (counter s) (level s) a (printed s) (killed s)).
Definition print (e : event) (s : peterson) : peterson :=
  Peterson (counter s) (level s) (waiting s) (printed s ++ [e]) (killed s).
Definition kill (s : peterson) : peterson := Peterson (counter s) (level s) (waiting s) (printed s) true.

(** Where a thread is: before an access to shared memory, with its variables
    [lev] and [k] and the loaded value of [counter]. *)
Inductive pc :=
| Start
| SetLevel (lev : Z)
| SetWaiting (lev : Z)
| TestWaiting (lev : Z)
| ReadLevel (lev k : Z)
| ReadWaiting (lev k : Z)
| Enter
| LoadInc
| StoreInc (v : Z)
| TestCounter
| LoadDec
| StoreDec (v : Z)
| ResetLevel
| Done.

#[global] Instance event_eq_dec : EqDecision event.
Proof. solve_decision. Defined.

#[global] Instance pc_eq_dec : EqDecision pc.
Proof. solve_decision. Defined.

(** [memset(a, (-1), sizeof(a))] of an array of [len] ints. *)
Definition memset_ints (len : Z) : list Z := replicate (Z.to_nat len) (-1).

Section ftn.
Variable max_num : Z.

(** The head of the outer loop, before level [lev]. *)
Definition next_level (lev : Z) : pc := if lev <? max_num - 1 then SetLevel lev else Enter.

(** One step of [ftn] in the thread [thread_num]. *)
Definition ftn (thread_num : Z) (p : pc) (s : peterson) : option (outcome (pc * peterson)) :=
  if killed s then None
  else
    match p with
    | Start => Some (Ok (next_level 0, print (Working thread_num) s))
    | SetLevel lev => Some (s ← set_level thread_num lev s; Ok (SetWaiting lev, s))
    | SetWaiting lev => Some (s ← set_waiting lev thread_num s; Ok (TestWaiting lev, s))
    | TestWaiting lev =>
        Some (w ← aget (waiting s) lev;
              Ok (if (w =? thread_num) && (0 <? max_num) then ReadLevel lev 0 else next_level (lev + 1), s))
    | ReadLevel lev k =>
        Some (l ← aget (level s) k;
              Ok (if (lev <=? l) && negb (k =? thread_num) then TestWaiting lev else ReadWaiting lev k, s))
    | ReadWaiting lev k =>
        Some (w ← aget (waiting s) lev;
              Ok (if negb (w =? thread_num) then TestWaiting lev
                  else if k + 1 <? max_num then ReadLevel lev (k + 1) else next_level (lev + 1), s))
    | Enter => Some (Ok (LoadInc, print (Entering thread_num) s))
    | LoadInc => Some (Ok (StoreInc (counter s), s))
    | StoreInc v => Some (v ← cint (v + 1); Ok (TestCounter, set_counter v s))
    | TestCounter => Some (Ok (LoadDec, if 1 <? counter s then kill (print Too_many s) else s))
    | LoadDec => Some (Ok (StoreDec (counter s), s))
    | StoreDec v => Some (v ← cint (v - 1); Ok (ResetLevel, set_counter v s))
    | ResetLevel => Some (s ← set_level thread_num (-1) s; Ok (Done, s))
    | Done => None
    end.

(** [main] up to the creation of the threads: [None] for "invalid max_num",
    undefined for no thread at all, when the length of its arrays is 0. *)
Definition peterson_main : outcome (option (conf pc peterson)) :=
  if (max_num <? 0) || (MAX_N <? max_num) then Ok None
  else
    let s := Peterson 0 (memset_ints MAX_N) (memset_ints (MAX_N - 1)) [] false in
    defined (0 <? max_num);;
    Ok (Some (Conf (replicate (Z.to_nat max_num) Start) s)).
End ftn.
