(* ===== verification/PetersonProps.v ===== *)
(** * Peterson's algorithm for n threads is correct

    Properties of Peterson.v: at most one thread is in the critical section in
    every interleaving, the check of [counter] never fires, and the threads can
    always all come to their end.  The invariant bounds the number of threads
    beyond level [l] by [n - l]. *)

From stdpp Require Import base list numbers relations.
From S2P Require Import Prelude Interleave Peterson.

(** ** What a state of a thread means *)

Section invariant.
Context (n : Z) (Hn : 1 ≤ n ≤ MAX_N).

(** The number of levels that the thread has left behind. *)
Definition passed (p : pc) : Z :=
  match p with
  | Start | Done => 0
  | SetLevel l | SetWaiting l | TestWaiting l | ReadLevel l _ | ReadWaiting l _ => l
  | _ => n - 1
  end.

(** The number of levels in which it has been the last to wait. *)
Definition waited (p : pc) : Z :=
  match p with
  | Start | Done => 0
  | SetLevel l | SetWaiting l => l
  | TestWaiting l | ReadLevel l _ | ReadWaiting l _ => l + 1
  | _ => n - 1
  end.

(** Its entry of [level]. *)
Definition level_of (p : pc) : Z :=
  match p with
  | Start | Done => -1
  | SetLevel l => l - 1
  | SetWaiting l | TestWaiting l | ReadLevel l _ | ReadWaiting l _ => l
  | _ => n - 2
  end.

Definition pc_ok (p : pc) : Prop :=
  match p with
  | SetLevel l | SetWaiting l | TestWaiting l => 0 ≤ l < n - 1
  | ReadLevel l k | ReadWaiting l k => 0 ≤ l < n - 1 ∧ 0 ≤ k < n
  | _ => True
  end.

(** The thread is between passing the last level and resetting its entry. *)
Definition critical (p : pc) : bool :=
  match p with
  | Enter | LoadInc | StoreInc _ | TestCounter | LoadDec | StoreDec _ | ResetLevel => true
  | _ => false
  end.

(** It has counted itself. *)
Definition counted (p : pc) : bool :=
  match p with TestCounter | LoadDec | StoreDec _ => true | _ => false end.

(** It holds a value of [counter] to be stored. *)
Definition loaded (p : pc) : option Z :=
  match p with StoreInc v | StoreDec v => Some v | _ => None end.

(** The entries of [level] that a thread has found to be below its own. *)
Definition scanned (p : pc) : Z :=
  match p with ReadLevel _ k => k | ReadWaiting _ k => k + 1 | _ => 0 end.

Definition entered (p : pc) : bool :=
  match p with LoadInc | StoreInc _ | TestCounter | LoadDec | StoreDec _ | ResetLevel | Done => true | _ => false end.

(** The threads that have passed at least [l] levels. *)
Definition beyond (l : Z) (p : pc) : bool := l <=? passed p.

Definition enterings (i : Z) (out : list event) : Z :=
  zlen (filter (λ e, e = Entering i) out).

(** The part of the invariant that makes it a lock. *)
Record lock_inv (ts : list pc) (lv wt : list Z) : Prop := {
  l_len : zlen ts = n;
  l_level : zlen lv = MAX_N;
  l_waiting : zlen wt = MAX_N - 1;
  l_pc : ∀ i p, ts !! i = Some p → pc_ok p;
  l_lev : ∀ i p, ts !! i = Some p → aget lv (Z.of_nat i) = Ok (level_of p);
  (** What the thread has scanned stays below its level while it is the last
      to wait there. *)
  l_scan : ∀ i p, ts !! i = Some p → aget wt (passed p) = Ok (Z.of_nat i) →
    ∀ j q, ts !! j = Some q → j ≠ i → Z.of_nat j < scanned p → waited q ≤ passed p;
  (** The last to wait at a level still waits there, or no other thread has
      waited there. *)
  l_last : ∀ l i p, 0 ≤ l < n - 1 → ts !! i = Some p → l < waited p →
    ∃ j q, aget wt l = Ok (Z.of_nat j) ∧ ts !! j = Some q ∧ (j = i ∨ passed q ≤ l < waited q);
  l_count : ∀ l, 0 ≤ l ≤ n - 1 → count (beyond l) ts ≤ n - l
}.

(** The part about the critical section. *)
Record section_inv (ts : list pc) (s : peterson) : Prop := {
  s_counter : counter s = count counted ts;
  s_loaded : ∀ i p v, ts !! i = Some p → loaded p = Some v → v = counter s;
  s_alive : killed s = false;
  s_entered : ∀ i p, ts !! i = Some p → enterings (Z.of_nat i) (printed s) = if entered p then 1 else 0
}.

Definition peterson_inv (c : conf pc peterson) : Prop :=
  lock_inv (threads c) (level (shared c)) (waiting (shared c)) ∧ section_inv (threads c) (shared c).

(** ** The lock *)

Lemma passed_waited p : pc_ok p → 0 ≤ passed p ∧ passed p ≤ waited p ≤ passed p + 1 ∧ waited p ≤ level_of p + 1 ∧ waited p ≤ n - 1.
Proof. destruct p; cbn; lia. Qed.

Lemma lookup_index ts lv wt i p : lock_inv ts lv wt → ts !! i = Some p → 0 ≤ Z.of_nat i < n.
Proof. intros HI Hi%lookup_lt_Some. pose proof (l_len _ _ _ HI). unfold zlen in *. lia. Qed.

(** Every step but that to [waiting]. *)
Lemma lock_step ts lv wt i p p' lv' :
  lock_inv ts lv wt → ts !! i = Some p → pc_ok p' →
  zlen lv' = MAX_N → (∀ j, aget lv' j = if decide (j = Z.of_nat i) then Ok (level_of p') else aget lv j) →
  waited p' ≤ waited p →
  (∀ l, passed p ≤ l < waited p → passed p' ≤ l < waited p' ∨ aget wt l ≠ Ok (Z.of_nat i) ∨
     ∀ j q, j ≠ i → ts !! j = Some q → waited q ≤ l) →
  (aget wt (passed p') = Ok (Z.of_nat i) → ∀ j q, ts !! j = Some q → j ≠ i → Z.of_nat j < scanned p' → waited q ≤ passed p') →
  (∀ l, 0 ≤ l ≤ n - 1 → count (beyond l) (<[i := p']> ts) ≤ n - l) →
  lock_inv (<[i := p']> ts) lv' wt.
Proof.
  intros HI Hi Hok Hlen Hlv Hw Hlast Hscan Hcount. split; try done.
  - rewrite zlen_insert. apply HI.
  - apply HI.
  - intros j q [[-> ->]|[_ Hj]]%(lookup_update _ _ _ _ _ _ Hi); [done|by eapply l_pc].
  - intros j q Hj. rewrite Hlv. apply (lookup_update _ _ _ _ _ _ Hi) in Hj as [[-> ->]|[Hne Hj]]; [by rewrite decide_True|].
    rewrite decide_False by lia. by apply (l_lev _ _ _ HI).
  - intros j q Hj Hwt k r Hk Hkj Hlt. apply (lookup_update _ _ _ _ _ _ Hi) in Hj as [[-> ->]|[Hne Hj]];
      apply (lookup_update _ _ _ _ _ _ Hi) in Hk as [[-> ->]|[Hne' Hk]]; try done.
    + by apply (Hscan Hwt k).
    + etrans; [exact Hw|]. by apply (l_scan _ _ _ HI j q Hj Hwt i).
    + by apply (l_scan _ _ _ HI j q Hj Hwt k).
  - intros l j q Hl Hj Hlq.
    assert (∃ q0, ts !! j = Some q0 ∧ l < waited q0) as (q0 & Hj0 & Hlq0).
    { apply (lookup_update _ _ _ _ _ _ Hi) in Hj as [[-> ->]|[Hne Hj]]; [exists p; split; [done|lia]|by exists q]. }
    destruct (l_last _ _ _ HI l j q0 Hl Hj0 Hlq0) as (c & r & Hwt & Hc & Hor).
    destruct (decide (c = i)) as [->|Hci].
    + assert (r = p) as -> by congruence. exists i, p'. split; [done|]. split; [by apply list_lookup_insert_eq, (lookup_lt_Some _ _ _ Hi)|].
      destruct Hor as [->|Hor]; [by left|]. destruct (decide (j = i)) as [->|Hji]; [by left|].
      destruct (Hlast l Hor) as [?|[?|Ho]]; [by right|done|]. specialize (Ho j q0 Hji Hj0). lia.
    + exists c, r. rewrite list_lookup_insert_ne by done. split; [done|]. split; [done|].
      destruct Hor as [->|Hor]; [by left|by right].
Qed.

Lemma write_step ts lv wt i l :
  lock_inv ts lv wt → ts !! i = Some (SetWaiting l) →
  lock_inv (<[i := TestWaiting l]> ts) lv (<[Z.to_nat l := Z.of_nat i]> wt).
Proof.
  intros HI Hi. pose proof (l_pc _ _ _ HI i _ Hi) as Hl. cbn in Hl. pose proof (l_waiting _ _ _ HI) as Hlen.
  assert (0 ≤ l < zlen wt) as Hr by lia.
  split; try apply HI.
  - rewrite zlen_insert. apply HI.
  - by rewrite zlen_insert.
  - intros j q [[-> ->]|[_ Hj]]%(lookup_update _ _ _ _ _ _ Hi); [done|by apply (l_pc _ _ _ HI j)].
  - intros j q [[-> ->]|[_ Hj]]%(lookup_update _ _ _ _ _ _ Hi); [by apply (l_lev _ _ _ HI i (SetWaiting l))|by apply (l_lev _ _ _ HI)].
  - intros j q Hj Hwt k r Hk Hkj Hlt. rewrite aget_insert in Hwt by done.
    apply (lookup_update _ _ _ _ _ _ Hi) in Hj as [[-> ->]|[Hne Hj]]; [cbn in Hlt; lia|].
    destruct (decide (passed q = l)) as [Hq|Hq]; [injection Hwt; lia|].
    apply (lookup_update _ _ _ _ _ _ Hi) in Hk as [[-> ->]|[_ Hk]]; [|by apply (l_scan _ _ _ HI j q Hj Hwt k)].
    pose proof (l_scan _ _ _ HI j q Hj Hwt i _ Hi Hkj Hlt). cbn in *. lia.
  - intros l' j q Hl' Hj Hlq. rewrite aget_insert by done. destruct (decide (l' = l)) as [->|Hll].
    + exists i, (TestWaiting l). split; [done|]. split; [by apply list_lookup_insert_eq, (lookup_lt_Some _ _ _ Hi)|]. right. cbn. lia.
    + assert (∃ q0, ts !! j = Some q0 ∧ l' < waited q0) as (q0 & Hj0 & Hlq0).
      { apply (lookup_update _ _ _ _ _ _ Hi) in Hj as [[-> ->]|[Hne Hj]]; [exists (SetWaiting l); cbn in *; split; [done|lia]|by exists q]. }
      destruct (l_last _ _ _ HI l' j q0 Hl' Hj0 Hlq0) as (c & r & Hwt & Hc & Hor). destruct (decide (c = i)) as [->|Hci].
      * exists i, (TestWaiting l). split; [done|]. split; [by apply list_lookup_insert_eq, (lookup_lt_Some _ _ _ Hi)|].
        assert (r = SetWaiting l) as -> by congruence. left. cbn in Hor. destruct Hor; [done|lia].
      * exists c, r. by rewrite list_lookup_insert_ne.
  - intros l' Hl'. rewrite (tcount_update _ _ _ _ _ Hi). pose proof (l_count _ _ _ HI l' Hl'). unfold beyond in *. cbn [passed]. lia.
Qed.

(** Leaving a level keeps the bound: either another thread stays behind as the
    last to wait, or no other thread has come so far. *)
Lemma pass_count ts lv wt i p p' :
  lock_inv ts lv wt → ts !! i = Some p → waited p = passed p + 1 → passed p' = passed p + 1 → passed p < n - 1 →
  (aget wt (passed p) ≠ Ok (Z.of_nat i) ∨ ∀ j q, j ≠ i → ts !! j = Some q → waited q ≤ passed p) →
  ∀ l, 0 ≤ l ≤ n - 1 → count (beyond l) (<[i := p']> ts) ≤ n - l.
Proof.
  intros HI Hi Hw Hp' Hlt Hor l Hl. pose proof (passed_waited p (l_pc _ _ _ HI i p Hi)) as Hpw.
  destruct (decide (l = passed p + 1)) as [->|Hne].
  2: { rewrite (tcount_update _ _ _ _ _ Hi). pose proof (l_count _ _ _ HI l Hl). unfold beyond in *. rewrite Hp'.
       destruct (Z.leb_spec l (passed p)), (Z.leb_spec l (passed p + 1)); lia. }
  assert (<[i:=p']> ts !! i = Some p') as Hi' by (by apply list_lookup_insert_eq, (lookup_lt_Some _ _ _ Hi)).
  destruct Hor as [Hwt|Ho].
  - destruct (l_last _ _ _ HI (passed p) i p) as (j & q & Hj & Hq & Hor); [lia|done|lia|].
    assert (j ≠ i) as Hji by congruence. destruct Hor as [|Hor]; [done|].
    pose proof (passed_waited q (l_pc _ _ _ HI j q Hq)) as Hqw.
    assert (count (beyond (passed p + 1)) (<[i:=p']> ts) < count (beyond (passed p)) (<[i:=p']> ts)) as Hc.
    { apply (count_lt _ _ _ j q); unfold beyond; [|by rewrite list_lookup_insert_ne|apply Z.leb_gt; lia|apply Z.leb_le; lia].
      intros t _ ?%Z.leb_le. apply Z.leb_le. lia. }
    rewrite (tcount_update (beyond (passed p)) _ _ _ _ Hi) in Hc. pose proof (l_count _ _ _ HI (passed p) ltac:(lia)).
    unfold beyond in *. rewrite Hp' in Hc. rewrite !(proj2 (Z.leb_le _ _)) in Hc by lia. lia.
  - rewrite (count_other _ _ _ _ Hi'); [unfold beyond; rewrite Hp', Z.leb_refl; lia|].
    intros j q Hji Hj. rewrite list_lookup_insert_ne in Hj by done. specialize (Ho j q Hji Hj).
    pose proof (passed_waited q (l_pc _ _ _ HI j q Hj)). unfold beyond. apply Z.leb_gt. lia.
Qed.

Lemma next_level_ok l : 0 ≤ l ≤ n - 1 →
  pc_ok (next_level n l) ∧ passed (next_level n l) = l ∧ waited (next_level n l) = l ∧ level_of (next_level n l) = l - 1 ∧
  scanned (next_level n l) = 0 ∧ critical (next_level n l) = (l =? n - 1).
Proof. intros Hl. unfold next_level. destruct (Z.ltb_spec l (n - 1)); cbn; split_and!; lia. Qed.

Lemma pass_step ts lv wt i p :
  lock_inv ts lv wt → ts !! i = Some p → waited p = passed p + 1 → passed p < n - 1 → level_of p = passed p →
  (aget wt (passed p) ≠ Ok (Z.of_nat i) ∨ ∀ j q, j ≠ i → ts !! j = Some q → waited q ≤ passed p) →
  lock_inv (<[i := next_level n (passed p + 1)]> ts) lv wt.
Proof.
  intros HI Hi Hw Hlt Hlev Hor. pose proof (passed_waited p (l_pc _ _ _ HI i p Hi)) as Hpw.
  destruct (next_level_ok (passed p + 1)) as (H1 & H2 & H3 & H4 & H5 & _); [lia|].
  apply (lock_step ts lv wt i p); try done.
  - apply HI.
  - intros j. case_decide as Hj; [subst; rewrite H4, (l_lev _ _ _ HI i p Hi); f_equal; lia|done].
  - lia.
  - intros l Hl. right. assert (l = passed p) as -> by lia. destruct Hor as [|Ho]; [by left|right; by intros; apply (Ho j)].
  - intros _ j q _ _. rewrite H5. lia.
  - by apply (pass_count ts lv wt i p).
Qed.

(** A step that changes no level. *)
Lemma quiet_step ts lv wt i p p' lv' :
  lock_inv ts lv wt → ts !! i = Some p → pc_ok p' → zlen lv' = MAX_N →
  (∀ j, aget lv' j = if decide (j = Z.of_nat i) then Ok (level_of p') else aget lv j) →
  passed p' = passed p → waited p' = waited p →
  (aget wt (passed p) = Ok (Z.of_nat i) → ∀ j q, ts !! j = Some q → j ≠ i → Z.of_nat j < scanned p' → waited q ≤ passed p) →
  lock_inv (<[i := p']> ts) lv' wt.
Proof.
  intros HI Hi Hok Hlen Hlv Hp Hw Hscan. apply (lock_step ts lv wt i p); try done.
  - lia.
  - intros l. rewrite Hp, Hw. by left.
  - by rewrite Hp.
  - intros l Hl. rewrite (tcount_update _ _ _ _ _ Hi). pose proof (l_count _ _ _ HI l Hl). unfold beyond in *. rewrite Hp. lia.
Qed.

Lemma same_level ts lv wt i p p' :
  lock_inv ts lv wt → ts !! i = Some p → level_of p' = level_of p →
  ∀ j, aget lv j = if decide (j = Z.of_nat i) then Ok (level_of p') else aget lv j.
Proof. intros HI Hi Hl j. case_decide; [|done]. subst. rewrite Hl. by apply (l_lev _ _ _ HI). Qed.

(** ** The critical section *)

Lemma critical_passed p : critical p = true → passed p = n - 1.
Proof. by destruct p. Qed.

Lemma counted_critical p : counted p = true → critical p = true.
Proof. by destruct p. Qed.

Lemma loaded_critical p v : loaded p = Some v → critical p = true.
Proof. by destruct p. Qed.

Lemma count_critical ts lv wt : lock_inv ts lv wt → count critical ts ≤ 1.
Proof.
  intros HI. transitivity (count (beyond (n - 1)) ts); [|pose proof (l_count _ _ _ HI (n - 1) ltac:(lia)); lia].
  apply count_le. intros t _ Ht. unfold beyond. rewrite critical_passed by done. by apply Z.leb_le.
Qed.

Lemma critical_unique ts lv wt i j p q :
  lock_inv ts lv wt → ts !! i = Some p → ts !! j = Some q → critical p = true → critical q = true → i = j.
Proof. intros HI Hi Hj Hp Hq. by apply (count_two critical ts i j p q); [..|eapply count_critical]. Qed.

Lemma counter_bound ts s : lock_inv ts (level s) (waiting s) → section_inv ts s → 0 ≤ counter s ≤ 1.
Proof.
  intros HI HS. rewrite (s_counter _ _ HS). split; [apply count_nonneg|]. etrans; [|by eapply count_critical].
  apply count_le. intros t _. apply counted_critical.
Qed.

Lemma enterings_app i out out' : enterings i (out ++ out') = enterings i out + enterings i out'.
Proof. unfold enterings. by rewrite filter_app, zlen_app. Qed.

Lemma section_step ts s i p p' s' out :
  lock_inv ts (level s) (waiting s) → section_inv ts s → ts !! i = Some p →
  counter s' = counter s + (if counted p' then 1 else 0) - (if counted p then 1 else 0) →
  (counter s' ≠ counter s → critical p = true) →
  (∀ v, loaded p' = Some v → v = counter s') → killed s' = false →
  printed s' = printed s ++ out →
  (∀ j, enterings j out = if decide (j = Z.of_nat i) then (if entered p' then 1 else 0) - (if entered p then 1 else 0) else 0) →
  section_inv (<[i := p']> ts) s'.
Proof.
  intros HI HS Hi Hc Hcrit Hl Hk Hout Hent. split; [..|done|].
  - rewrite (tcount_update _ _ _ _ _ Hi), Hc, (s_counter _ _ HS). lia.
  - intros j q v [[-> ->]|[Hne Hj]]%(lookup_update _ _ _ _ _ _ Hi) Hq; [by apply Hl|].
    rewrite (s_loaded _ _ HS j q v Hj Hq). destruct (decide (counter s' = counter s)) as [|Hcc]; [done|exfalso]. apply Hne.
    eapply critical_unique; [exact HI|exact Hj|exact Hi|by eapply loaded_critical|by apply Hcrit].
  - intros j q Hj. rewrite Hout, enterings_app, Hent. apply (lookup_update _ _ _ _ _ _ Hi) in Hj as [[-> ->]|[Hne Hj]].
    + rewrite decide_True, (s_entered _ _ HS i p Hi) by done. lia.
    + rewrite decide_False, (s_entered _ _ HS j q Hj) by lia. lia.
Qed.

(** A step that prints nothing and does not touch [counter]. *)
Lemma section_quiet ts s i p p' lv wt :
  lock_inv ts (level s) (waiting s) → section_inv ts s → ts !! i = Some p →
  counted p' = counted p → (∀ v, loaded p' = Some v → v = counter s) → entered p' = entered p →
  section_inv (<[i := p']> ts) (Peterson (counter s) lv wt (printed s) (killed s)).
Proof.
  intros HI HS Hi Hc Hl He. apply (section_step ts s i p p' _ []); try done.
  - rewrite Hc. cbn. lia.
  - apply HS.
  - cbn. by rewrite app_nil_r.
  - intros j. rewrite He. change (enterings j []) with 0. case_decide; [lia|done].
Qed.

Lemma section_same ts s i p p' :
  lock_inv ts (level s) (waiting s) → section_inv ts s → ts !! i = Some p →
  counted p' = counted p → (∀ v, loaded p' = Some v → v = counter s) → entered p' = entered p →
  section_inv (<[i := p']> ts) s.
Proof. destruct s as [ct lv wt out kd]. apply (section_quiet ts (Peterson ct lv wt out kd)). Qed.

Lemma enterings_one j e : enterings j [e] = if decide (e = Entering j) then 1 else 0.
Proof. unfold enterings. rewrite filter_cons. by case_decide. Qed.

Lemma next_level_quiet l : counted (next_level n l) = false ∧ loaded (next_level n l) = None ∧ entered (next_level n l) = false.
Proof. unfold next_level. by destruct (_ <? _). Qed.

Lemma critical_step ts lv wt i p p' :
  lock_inv ts lv wt → ts !! i = Some p → critical p = true → critical p' = true → lock_inv (<[i := p']> ts) lv wt.
Proof.
  intros HI Hi Hp Hp'. eapply quiet_step; [exact HI|exact Hi|by destruct p'|apply HI| | | |].
  - apply (same_level _ _ _ _ p _ HI Hi). by destruct p, p'.
  - by rewrite !critical_passed.
  - by destruct p, p'.
  - destruct p'; try done; cbn; lia.
Qed.

(** Every step is defined and keeps the invariant. *)
Lemma peterson_step ts s i p r :
  peterson_inv (Conf ts s) → ts !! i = Some p → ftn n (Z.of_nat i) p s = Some r →
  ∃ p' s', r = Ok (p', s') ∧ peterson_inv (Conf (<[i := p']> ts) s').
Proof.
  intros [HI HS] Hi. cbn [threads shared] in *. pose proof (l_pc _ _ _ HI i p Hi) as Hok.
  pose proof (lookup_index _ _ _ _ _ HI Hi) as Hin. pose proof (counter_bound _ _ HI HS) as Hcb.
  pose proof (l_lev _ _ _ HI i p Hi) as Hlev. pose proof (l_level _ _ _ HI) as Hll. pose proof (l_waiting _ _ _ HI) as Hwl.
  assert (∀ x, 0 ≤ x < n - 1 → ∃ w, aget (waiting s) x = Ok w) as Hwget.
  { intros x Hx. destruct (aget_in_range (waiting s) x) as (w & Hw & _); [lia|by exists w]. }
  unfold ftn. rewrite (s_alive _ _ HS). unfold peterson_inv. cbn [threads shared].
  destruct p as [|l|l|l|l k|l k| | |v| | |v| |]; intros [= <-]; cbn [pc_ok level_of] in *.
  - (* Start *)
    destruct (next_level_ok 0) as (H1 & H2 & H3 & H4 & H5 & _); [lia|]. destruct (next_level_quiet 0) as (Q1 & Q2 & Q3).
    eexists _, _. split; [done|]. split.
    + eapply quiet_step; [exact HI|exact Hi|done|done|by apply (same_level _ _ _ _ Start _ HI Hi)|done|done|]. rewrite H5. lia.
    + eapply (section_step _ _ _ _ _ _ [Working _]); [exact HI|exact HS|exact Hi|rewrite Q1; cbn; lia|done|by rewrite Q2|apply HS|done|].
      intros j. rewrite enterings_one, Q3, decide_False by done. by case_decide.
  - (* SetLevel *)
    unfold set_level. rewrite aset_Ok by lia. cbn. eexists _, _. split; [done|]. cbn [level waiting]. split.
    + eapply quiet_step; [exact HI|exact Hi|done|by rewrite zlen_insert|intros j; cbn; by rewrite aget_insert by lia|done|done|]. cbn. lia.
    + by eapply section_quiet.
  - (* SetWaiting *)
    unfold set_waiting. rewrite aset_Ok by lia. cbn. eexists _, _. split; [done|]. cbn [level waiting]. split.
    + by apply write_step.
    + by eapply section_quiet.
  - (* TestWaiting *)
    destruct (Hwget l) as [w Hw]; [lia|]. rewrite Hw, (proj2 (Z.ltb_lt 0 n)) by lia. cbn. rewrite andb_true_r. eexists _, _. split; [done|].
    destruct (next_level_quiet (l + 1)) as (Q1 & Q2 & Q3).
    destruct (Z.eqb_spec w (Z.of_nat i)) as [->|Hne]; split.
    + eapply quiet_step; [exact HI|exact Hi|cbn; lia|done|by apply (same_level _ _ _ _ (TestWaiting l) _ HI Hi)|done|done|]. cbn. lia.
    + by eapply section_same.
    + apply (pass_step _ _ _ _ (TestWaiting l) HI Hi); cbn; try lia. left. rewrite Hw. congruence.
    + eapply section_same; [done|done|exact Hi|by rewrite Q1|by rewrite Q2|by rewrite Q3].
  - (* ReadLevel *)
    destruct (aget_in_range (level s) k) as (v & Hv & _); [lia|]. rewrite Hv. cbn. eexists _, _. split; [done|].
    split.
    + eapply quiet_step; [exact HI|exact Hi|by case_match; cbn; lia|done|apply (same_level _ _ _ _ (ReadLevel l k) _ HI Hi); by case_match
        |by case_match|by case_match|].
      intros Hwt j q Hj Hji Hlt. cbn [passed] in *. destruct ((l <=? v) && _) eqn:E; cbn [scanned] in Hlt; [lia|].
      destruct (decide (Z.of_nat j < k)) as [Hjk|]; [by apply (l_scan _ _ _ HI i _ Hi Hwt j)|].
      assert (Z.of_nat j = k) as <- by lia. rewrite (l_lev _ _ _ HI j q Hj) in Hv. injection Hv as <-.
      rewrite (proj2 (Z.eqb_neq (Z.of_nat j) _)), andb_true_r in E by lia. apply Z.leb_gt in E.
      pose proof (passed_waited q (l_pc _ _ _ HI j q Hj)). lia.
    + eapply section_same; [done|done|exact Hi|..]; by case_match.
  - (* ReadWaiting *)
    destruct (Hwget l) as [w Hw]; [lia|]. rewrite Hw. cbn. eexists _, _. split; [done|].
    destruct (next_level_quiet (l + 1)) as (Q1 & Q2 & Q3).
    destruct (Z.eqb_spec w (Z.of_nat i)) as [->|Hne]; cbn [negb]; [destruct (Z.ltb_spec (k + 1) n) as [Hk|Hk]|]; split.
    + eapply quiet_step; [exact HI|exact Hi|cbn; lia|done|by apply (same_level _ _ _ _ (ReadWaiting l k) _ HI Hi)|done|done|].
      cbn [passed scanned]. intros Hwt j q Hj Hji Hlt. by apply (l_scan _ _ _ HI i _ Hi Hwt j).
    + by eapply section_same.
    + apply (pass_step _ _ _ _ (ReadWaiting l k) HI Hi); cbn; try lia. right. intros j q Hji Hj.
      pose proof (lookup_index _ _ _ _ _ HI Hj). apply (l_scan _ _ _ HI i _ Hi Hw j q Hj Hji). cbn. lia.
    + eapply section_same; [done|done|exact Hi|by rewrite Q1|by rewrite Q2|by rewrite Q3].
    + eapply quiet_step; [exact HI|exact Hi|cbn; lia|done|by apply (same_level _ _ _ _ (ReadWaiting l k) _ HI Hi)|done|done|]. cbn. lia.
    + by eapply section_same.
  - (* Enter *)
    eexists _, _. split; [done|]. split; [by eapply critical_step|].
    eapply (section_step _ _ _ _ _ _ [Entering _]); [exact HI|exact HS|exact Hi|cbn; lia|done|done|apply HS|done|].
    intros j. rewrite enterings_one. cbn. do 2 case_decide; simplify_eq; done.
  - (* LoadInc *)
    eexists _, _. split; [done|]. split; [by eapply critical_step|]. eapply section_same; try done. cbn. congruence.
  - (* StoreInc *)
    rewrite (s_loaded _ _ HS i _ v Hi eq_refl), cint_Ok by (unfold int_min, int_max; lia). cbn.
    eexists _, _. split; [done|]. split; [by eapply critical_step|].
    eapply (section_step _ _ _ _ _ _ []); [exact HI|exact HS|exact Hi|cbn; lia|done|done|apply HS|cbn; by rewrite app_nil_r|].
    intros j. change (enterings j []) with 0. by case_decide.
  - (* TestCounter *)
    rewrite (proj2 (Z.ltb_ge 1 _)) by lia. eexists _, _. split; [done|]. split; [by eapply critical_step|]. by eapply section_same.
  - (* LoadDec *)
    eexists _, _. split; [done|]. split; [by eapply critical_step|]. eapply section_same; try done. cbn. congruence.
  - (* StoreDec *)
    rewrite (s_loaded _ _ HS i _ v Hi eq_refl), cint_Ok by (unfold int_min, int_max; lia). cbn.
    eexists _, _. split; [done|]. split; [by eapply critical_step|].
    eapply (section_step _ _ _ _ _ _ []); [exact HI|exact HS|exact Hi|cbn; lia|done|done|apply HS|cbn; by rewrite app_nil_r|].
    intros j. change (enterings j []) with 0. by case_decide.
  - (* ResetLevel *)
    unfold set_level. rewrite aset_Ok by lia. cbn. eexists _, _. split; [done|]. cbn [level waiting]. split.
    + eapply lock_step; [exact HI|exact Hi|done|by rewrite zlen_insert|intros j; cbn; by rewrite aget_insert by lia|..]; cbn; try lia.
      intros l Hl. rewrite (tcount_update _ _ _ _ _ Hi). pose proof (l_count _ _ _ HI l Hl). unfold beyond in *. cbn [passed].
      destruct (Z.leb_spec l 0), (Z.leb_spec l (n - 1)); lia.
    + by eapply section_quiet.
Qed.

(** ** Progress *)

(** How far a thread has come; scanning a level does not count. *)
Definition rank (p : pc) : Z :=
  match p with
  | Start => 0
  | SetLevel l => 3 * l + 1
  | SetWaiting l => 3 * l + 2
  | TestWaiting l | ReadLevel l _ | ReadWaiting l _ => 3 * l + 3
  | Enter => 3 * n + 1
  | LoadInc => 3 * n + 2
  | StoreInc _ => 3 * n + 3
  | TestCounter => 3 * n + 4
  | LoadDec => 3 * n + 5
  | StoreDec _ => 3 * n + 6
  | ResetLevel => 3 * n + 7
  | Done => 3 * n + 8
  end.

Definition scanning (p : pc) : bool :=
  match p with TestWaiting _ | ReadLevel _ _ | ReadWaiting _ _ => true | _ => false end.

Definition total (c : conf pc peterson) : Z := sumZ (rank <$> threads c).

(** The threads can go on. *)
Definition progress (c : conf pc peterson) : Prop :=
  ∃ c', rtc (runs_step (ftn n)) c c' ∧ peterson_inv c' ∧ total c < total c'.

Lemma rank_next l : 0 ≤ l ≤ n - 1 → 3 * l < rank (next_level n l).
Proof. intros Hl. unfold next_level. destruct (_ <? _); cbn; lia. Qed.

Lemma step_rank i p s p' s' :
  pc_ok p → scanning p = false → ftn n i p s = Some (Ok (p', s')) → rank p < rank p'.
Proof.
  intros Hok Hs. unfold ftn. destruct (killed s); [done|]. destruct p; try done; cbn [pc_ok] in Hok; intros [= H];
    repeat (apply bind_Ok in H as (? & _ & H)); simplify_eq; cbn; try lia.
  pose proof (rank_next 0 ltac:(lia)). lia.
Qed.

(** One step, up or not. *)
Lemma one_step ts s i p p' s' :
  peterson_inv (Conf ts s) → ts !! i = Some p → ftn n (Z.of_nat i) p s = Some (Ok (p', s')) →
  (rank p < rank p' ∨ rank p' = rank p ∧ progress (Conf (<[i := p']> ts) s')) → progress (Conf ts s).
Proof.
  intros HI Hi Hs Hor. destruct (peterson_step ts s i p _ HI Hi Hs) as (p1 & s1 & [= <- <-] & HI').
  assert (runs_step (ftn n) (Conf ts s) (Conf (<[i:=p']> ts) s')) as Hstep by (by econstructor).
  assert (total (Conf (<[i:=p']> ts) s') = total (Conf ts s) - rank p + rank p') as Ht by (by apply sumZ_update).
  destruct Hor as [Hlt|[Heq (c' & Hr & HI2 & Hlt)]].
  - exists (Conf (<[i:=p']> ts) s'). split; [by apply rtc_once|]. split; [done|lia].
  - exists c'. split; [by eapply rtc_l|]. split; [done|lia].
Qed.

(** A thread that is not the last to wait at its level leaves it. *)
Lemma exit_scan ts s i p w :
  peterson_inv (Conf ts s) → ts !! i = Some p → scanning p = true →
  aget (waiting s) (passed p) = Ok w → w ≠ Z.of_nat i → progress (Conf ts s).
Proof.
  assert (∀ ts l, peterson_inv (Conf ts s) → ts !! i = Some (TestWaiting l) → aget (waiting s) l = Ok w → w ≠ Z.of_nat i →
    progress (Conf ts s)) as Htest.
  { clear ts. intros ts l HI Hi Hw Hne. pose proof (l_pc _ _ _ (proj1 HI) i _ Hi) as Hl. cbn in Hl.
    eapply (one_step ts s i); [done|exact Hi| |left].
    - unfold ftn. rewrite (s_alive ts s (proj2 HI)), Hw. cbn. by rewrite (proj2 (Z.eqb_neq w _)).
    - cbn. pose proof (rank_next (l + 1)). lia. }
  assert (∀ ts l k, peterson_inv (Conf ts s) → ts !! i = Some (ReadWaiting l k) → aget (waiting s) l = Ok w → w ≠ Z.of_nat i →
    progress (Conf ts s)) as Hread.
  { clear ts. intros ts l k HI Hi Hw Hne.
    assert (ftn n (Z.of_nat i) (ReadWaiting l k) s = Some (Ok (TestWaiting l, s))) as Hs.
    { unfold ftn. rewrite (s_alive ts s (proj2 HI)), Hw. cbn. by rewrite (proj2 (Z.eqb_neq w _)). }
    eapply (one_step ts s i); [done|exact Hi|exact Hs|right]. split; [done|].
    destruct (peterson_step ts s i _ _ HI Hi Hs) as (p1 & s1 & [= <- <-] & HI').
    eapply Htest; [done|by eapply lookup_updated|done|done]. }
  intros HI Hi Hsc Hw Hne. destruct p as [|?|?|l|l k|l k| | |?| | |?| |]; try done; [by eapply Htest| |by eapply Hread].
  pose proof (l_pc _ _ _ (proj1 HI) i _ Hi) as [Hl Hk]. pose proof (l_level _ _ _ (proj1 HI)) as Hll. cbn [threads shared] in *.
  destruct (aget_in_range (level s) k) as (v & Hv & _); [lia|].
  assert (∃ p', (p' = TestWaiting l ∨ p' = ReadWaiting l k) ∧ ftn n (Z.of_nat i) (ReadLevel l k) s = Some (Ok (p', s))) as (p' & Hp' & Hs).
  { unfold ftn. rewrite (s_alive ts s (proj2 HI)). rewrite Hv. cbn. destruct (_ && _); eauto. }
  destruct (peterson_step ts s i _ _ HI Hi Hs) as (p1 & s1 & [= <- <-] & HI').
  eapply (one_step ts s i); [done|exact Hi|exact Hs|right]. split; [by destruct Hp' as [-> | ->]|].
  destruct Hp' as [-> | ->]; [eapply Htest|eapply Hread]; try done; by eapply lookup_updated.
Qed.

(** When no thread is at a higher level, the last to wait finishes its scan,
    or another thread at its level can leave. *)
Lemma finish_scan d : ∀ ts s i l k,
  peterson_inv (Conf ts s) → (ts !! i = Some (ReadLevel l k)) → aget (waiting s) l = Ok (Z.of_nat i) →
  (∀ j q, ts !! j = Some q → q ≠ Done → scanning q = true ∧ passed q ≤ l) → Z.to_nat (n - k) = d → progress (Conf ts s).
Proof.
  induction d as [d IH] using lt_wf_ind. intros ts s i l k HI Hi Hw Hall <-.
  pose proof (l_pc _ _ _ (proj1 HI) i _ Hi) as [Hl Hk]. pose proof (l_level _ _ _ (proj1 HI)) as Hll.
  pose proof (l_len _ _ _ (proj1 HI)) as Hlen. cbn [threads shared] in *.
  destruct (aget_in_range ts k) as (q & _ & Hq); [lia|].
  assert (aget (level s) k = Ok (level_of q)) as Hv.
  { rewrite <-(l_lev _ _ _ (proj1 HI) _ _ Hq). f_equal. lia. }
  destruct (decide (l ≤ level_of q ∧ k ≠ Z.of_nat i)) as [[Hlq Hki]|Hgo].
  - assert (q ≠ Done) as Hnd by (intros ->; cbn in Hlq; lia). destruct (Hall _ _ Hq Hnd) as [Hsc Hle].
    apply (exit_scan ts s (Z.to_nat k) q (Z.of_nat i)); [done|done|done| |lia].
    assert (passed q = l) as -> by (destruct q; try done; cbn in *; lia). done.
  - assert (ftn n (Z.of_nat i) (ReadLevel l k) s = Some (Ok (ReadWaiting l k, s))) as Hs.
    { unfold ftn. rewrite (s_alive ts s (proj2 HI)). rewrite Hv. cbn.
      destruct (Z.leb_spec l (level_of q)); [|done]. rewrite (proj2 (Z.eqb_eq k (Z.of_nat i))); [done|]. lia. }
    destruct (peterson_step ts s i _ _ HI Hi Hs) as (p1 & s1 & [= <- <-] & HI1).
    eapply (one_step ts s i); [done|exact Hi|exact Hs|right]. split; [done|].
    set (ts1 := <[i:=ReadWaiting l k]> ts) in *. assert (ts1 !! i = Some (ReadWaiting l k)) as Hi1 by (by eapply lookup_updated).
    assert (ftn n (Z.of_nat i) (ReadWaiting l k) s =
      Some (Ok (if k + 1 <? n then ReadLevel l (k + 1) else next_level n (l + 1), s))) as Hs1.
    { unfold ftn. rewrite (s_alive ts s (proj2 HI)). rewrite Hw. cbn. by rewrite Z.eqb_refl. }
    eapply (one_step ts1 s i); [done|exact Hi1|exact Hs1|].
    destruct (Z.ltb_spec (k + 1) n) as [Hk1|Hk1]; [right|left; pose proof (rank_next (l + 1)); cbn; lia]. split; [done|].
    destruct (peterson_step ts1 s i _ _ HI1 Hi1 Hs1) as (p2 & s2 & [= <- <-] & HI2).
    eapply (IH (Z.to_nat (n - (k + 1)))); [lia|done|by eapply lookup_updated|done| |done].
    intros j r Hj Hnd. unfold ts1 in Hj. rewrite list_insert_insert_eq in Hj.
    apply (lookup_update _ _ _ _ _ _ Hi) in Hj as [[-> ->]|[_ Hj]]; [split; [done|cbn; lia]|by apply (Hall j)].
Qed.

Lemma progress_or_done c : peterson_inv c → Forall (λ p, p = Done) (threads c) ∨ progress c.
Proof.
  destruct c as [ts s]. intros HI. cbn [threads]. pose proof (l_waiting _ _ _ (proj1 HI)) as Hwl. cbn [shared] in Hwl.
  destruct (decide (Forall (λ p, p = Done) ts)) as [|Hnf]; [by left|right].
  apply not_Forall_Exists in Hnf; [|intros p; apply _]. apply Exists_exists in Hnf as (p0 & [i0 Hi0]%list_elem_of_lookup & Hp0).
  destruct (decide (Exists (λ p, p ≠ Done ∧ scanning p = false) ts)) as [(p & [i Hi]%list_elem_of_lookup & Hnd & Hsc)%Exists_exists|Hall].
  - assert (∃ r, ftn n (Z.of_nat i) p s = Some r) as [r Hr].
    { unfold ftn. rewrite (s_alive ts s (proj2 HI)). destruct p; by eauto. }
    destruct (peterson_step ts s i p r HI Hi Hr) as (p' & s' & -> & _).
    eapply (one_step ts s i); [done|exact Hi|exact Hr|left]. eapply step_rank; [|done|done]. by apply (l_pc _ _ _ (proj1 HI) i p Hi).
  - assert (∀ j q, ts !! j = Some q → q ≠ Done → scanning q = true) as Hsc.
    { intros j q Hj Hq. destruct (scanning q) eqn:E; [done|]. destruct Hall. apply Exists_exists. exists q.
      split; [by eapply list_elem_of_lookup_2|done]. }
    destruct (argmax (λ p, bool_decide (p ≠ Done)) passed ts) as (i & p & Hi & Hp & Hmax).
    { exists i0, p0. split; [done|by apply bool_decide_eq_true_2]. }
    apply bool_decide_eq_true in Hp. specialize (Hsc i p Hi Hp) as Hscp.
    pose proof (l_pc _ _ _ (proj1 HI) i p Hi) as Hok. cbn [threads shared] in *.
    destruct (aget_in_range (waiting s) (passed p)) as (w & Hw & _); [destruct p; try done; cbn in *; lia|].
    destruct (decide (w = Z.of_nat i)) as [->|Hne]; [|by eapply exit_scan].
    set (l := passed p) in *.
    assert (∀ j q, ts !! j = Some q → q ≠ Done → scanning q = true ∧ passed q ≤ l) as Hall'.
    { intros j q Hj Hq. split; [by eapply Hsc|]. apply (Hmax j); [done|by apply bool_decide_eq_true_2]. }
    assert (∀ ts1 k, peterson_inv (Conf ts1 s) → ts1 !! i = Some (ReadLevel l k) → <[i:=p]> ts1 = ts → progress (Conf ts1 s)) as Hrd.
    { intros ts1 k HI1 Hi1 Hts. apply (finish_scan (Z.to_nat (n - k)) ts1 s i l k); try done. intros j q Hj Hq.
      destruct (decide (j = i)) as [->|Hji]; [rewrite Hi1 in Hj; injection Hj as <-; split; [done|cbn; lia]|].
      apply (Hall' j); [|done]. by rewrite <-Hts, list_lookup_insert_ne. }
    destruct p as [|?|?|l0|l0 k|l0 k| | |?| | |?| |]; try done; cbn [passed] in l; subst l; cbn [pc_ok] in Hok.
    + assert (ftn n (Z.of_nat i) (TestWaiting l0) s = Some (Ok (ReadLevel l0 0, s))) as Hs.
      { unfold ftn. rewrite (s_alive ts s (proj2 HI)), Hw. cbn. by rewrite Z.eqb_refl, (proj2 (Z.ltb_lt 0 n)) by lia. }
      eapply (one_step ts s i); [done|exact Hi|exact Hs|right]. split; [done|].
      destruct (peterson_step ts s i _ _ HI Hi Hs) as (p1 & s1 & [= <- <-] & HI1).
      eapply Hrd; [done|by eapply lookup_updated|]. rewrite list_insert_insert_eq. by apply list_insert_id.
    + eapply Hrd; [done|done|by apply list_insert_id].
    + assert (ftn n (Z.of_nat i) (ReadWaiting l0 k) s =
        Some (Ok (if k + 1 <? n then ReadLevel l0 (k + 1) else next_level n (l0 + 1), s))) as Hs.
      { unfold ftn. rewrite (s_alive ts s (proj2 HI)), Hw. cbn. by rewrite Z.eqb_refl. }
      eapply (one_step ts s i); [done|exact Hi|exact Hs|].
      destruct (peterson_step ts s i _ _ HI Hi Hs) as (p1 & s1 & [= <- <-] & HI1).
      destruct (Z.ltb_spec (k + 1) n) as [Hk1|Hk1]; [right|left; pose proof (rank_next (l0 + 1)); cbn; lia]. split; [done|].
      eapply Hrd; [done|by eapply lookup_updated|]. rewrite list_insert_insert_eq. by apply list_insert_id.
Qed.

Lemma rank_bound p : pc_ok p → 0 ≤ rank p ≤ 3 * n + 8.
Proof. destruct p; cbn; lia. Qed.

Lemma total_bound c : peterson_inv c → 0 ≤ total c ≤ n * (3 * n + 8).
Proof.
  destruct c as [ts s]. intros HI. assert (∀ p, p ∈ ts → 0 ≤ rank p ≤ 3 * n + 8) as Hb.
  { intros p [i Hi]%list_elem_of_lookup. apply rank_bound. by apply (l_pc _ _ _ (proj1 HI) i p Hi). }
  unfold total. cbn [threads]. split.
  - apply sumZ_nonneg, Forall_fmap, Forall_forall. intros p Hp. by apply Hb.
  - etrans; [apply sumZ_bound; intros p Hp; by apply Hb|].
    pose proof (l_len _ _ _ (proj1 HI)) as Hlen. cbn [threads] in Hlen. by rewrite Hlen.
Qed.

Lemma can_complete c : peterson_inv c →
  ∃ c', rtc (runs_step (ftn n)) c c' ∧ peterson_inv c' ∧ Forall (λ p, p = Done) (threads c').
Proof.
  apply (runs_progress (ftn n) peterson_inv (λ c, Forall (λ p, p = Done) (threads c)) (λ c, Z.to_nat (total c))
    (Z.to_nat (n * (3 * n + 8)))).
  - intros c0 HI0. destruct (progress_or_done c0 HI0) as [|(c' & Hr & HI' & Hlt)]; [by left|right].
    exists c'. split; [done|]. split; [done|]. pose proof (total_bound c0 HI0). lia.
  - intros c0 HI0. pose proof (total_bound c0 HI0). lia.
Qed.

Lemma reach_inv c c' : peterson_inv c → rtc (runs_step (ftn n)) c c' → peterson_inv c'.
Proof.
  apply runs_invariant. intros ts s i p p' s' HI Hi Hs.
  by destruct (peterson_step ts s i p _ HI Hi Hs) as (? & ? & [= <- <-] & ?).
Qed.
End invariant.

Lemma memset_ints_len len : 0 ≤ len → zlen (memset_ints len) = len.
Proof. intros H. unfold memset_ints, zlen. rewrite length_replicate. lia. Qed.

Lemma memset_ints_get len i : 0 ≤ i < len → aget (memset_ints len) i = Ok (-1).
Proof. intros H. apply aget_lookup; [lia|]. apply lookup_replicate_2. lia. Qed.

#[local] Opaque memset_ints.

Lemma peterson_start n c : peterson_main n = Ok (Some c) → 1 ≤ n ≤ MAX_N ∧ peterson_inv n c.
Proof.
  unfold peterson_main. destruct (Z.ltb_spec n 0); [done|]. destruct (Z.ltb_spec MAX_N n); [done|]. cbn [orb].
  unfold defined. destruct (Z.ltb_spec 0 n); [|done]. cbn [mbind outcome_bind]. intros [= <-]. split; [lia|].
  assert (∀ i p, replicate (Z.to_nat n) Start !! i = Some p → p = Start) as Hst by (by intros i p [-> _]%lookup_replicate).
  split; cbn [threads shared level waiting].
  - split.
    + unfold zlen. rewrite length_replicate. lia.
    + by apply memset_ints_len.
    + by apply memset_ints_len.
    + by intros i p ->%Hst.
    + intros i p Hi. pose proof (lookup_lt_Some _ _ _ Hi) as Hlt. rewrite length_replicate in Hlt. apply Hst in Hi as ->.
      apply memset_ints_get. lia.
    + intros i p ->%Hst _ j q _ _. cbn. lia.
    + intros l i p Hl ->%Hst. cbn. lia.
    + intros l Hl. destruct (decide (l = 0)) as [->|].
      * etrans; [apply count_bound|]. unfold zlen. rewrite length_replicate. lia.
      * rewrite tcount_zero; [lia|]. intros p [i ->%Hst]%list_elem_of_lookup. apply Z.leb_gt. cbn. lia.
  - split; cbn.
    + symmetry. apply tcount_zero. by intros p [i ->%Hst]%list_elem_of_lookup.
    + by intros i p v ->%Hst.
    + done.
    + by intros i p ->%Hst.
Qed.

(** ** What the program does *)

(** [C24] Mutual exclusion: for every number of threads that [main] admits and
    every interleaving, no access leaves its array and no step is undefined,
    at most one thread is between leaving the last level and resetting its
    entry, [counter] is 0 or 1, so no thread finds it above 1 and kills the
    process, and every thread has announced its entry exactly when it has
    entered. *)
Theorem mutual_exclusion n c0 c :
  peterson_main n = Ok (Some c0) → rtc (runs_step (ftn n)) c0 c →
  ¬ may_fault (ftn n) c ∧ count critical (threads c) ≤ 1 ∧ 0 ≤ counter (shared c) ≤ 1 ∧ killed (shared c) = false ∧
  ∀ i p, threads c !! i = Some p → enterings (Z.of_nat i) (printed (shared c)) = if entered p then 1 else 0.
Proof.
  intros Hm Hr. destruct (peterson_start n c0 Hm) as [Hn HI0]. pose proof (reach_inv n Hn c0 c HI0 Hr) as HI.
  destruct c as [ts s]. split_and!.
  - intros (i & p & e & Hi & Hs). by destruct (peterson_step n Hn ts s i p _ HI Hi Hs) as (? & ? & ? & _).
  - by eapply count_critical, HI.
  - apply (counter_bound n Hn ts s); apply HI.
  - apply (counter_bound n Hn ts s); apply HI.
  - apply HI.
  - apply HI.
Qed.

(** [C25] No deadlock: whatever the threads have done so far, they can go on until
    all have ended; then each of them has entered the critical section exactly
    once and [counter] is 0 again. *)
Theorem peterson_completes n c0 c :
  peterson_main n = Ok (Some c0) → rtc (runs_step (ftn n)) c0 c →
  ∃ c', rtc (runs_step (ftn n)) c c' ∧ Forall (λ p, p = Done) (threads c') ∧ zlen (threads c') = n ∧
    counter (shared c') = 0 ∧ ∀ i, 0 ≤ i < n → enterings i (printed (shared c')) = 1.
Proof.
  intros Hm Hr. destruct (peterson_start n c0 Hm) as [Hn HI0]. pose proof (reach_inv n Hn c0 c HI0 Hr) as HI.
  destruct (can_complete n Hn c HI) as (c' & Hr' & [HL HS] & Hd). exists c'. pose proof (l_len _ _ _ _ HL) as Hlen.
  rewrite Forall_forall in Hd. split_and!; try done; [by apply Forall_forall| |].
  - rewrite (s_counter _ _ HS). apply tcount_zero. by intros p ->%Hd.
  - intros i Hi. destruct (aget_in_range (threads c') i) as (p & _ & Hp); [lia|].
    pose proof (s_entered _ _ HS _ _ Hp) as He. rewrite Z2Nat.id in He by lia. rewrite He.
    by rewrite (Hd p (list_elem_of_lookup_2 _ _ _ Hp)).
Qed.

(** Two threads: the first enters while the second waits for it. *)
Definition ex_conf : conf pc peterson :=
  Conf [Start; Start] (Peterson 0 (memset_ints MAX_N) (memset_ints (MAX_N - 1)) [] false).

Lemma mutual_exclusion_witness :
  ∃ c, exec (ftn 2) [0; 1; 0; 0; 1; 1; 0; 0; 1; 1]%nat ex_conf = Ok c ∧
    threads c = [LoadInc; TestWaiting 0] ∧ count critical (threads c) ≤ 1.
Proof.
  assert (∃ c, exec (ftn 2) [0; 1; 0; 0; 1; 1; 0; 0; 1; 1]%nat ex_conf = Ok c) as [c Hc] by (eexists; by vm_compute).
  exists c. split; [exact Hc|]. split; [vm_compute in Hc; by injection Hc as <-|].
  apply (mutual_exclusion 2 ex_conf c eq_refl (exec_runs _ _ _ _ Hc)).
Defined.

Lemma peterson_completes_witness :
  ∃ c', rtc (runs_step (ftn 2)) ex_conf c' ∧ enterings 1 (printed (shared c')) = 1.
Proof.
  destruct (peterson_completes 2 ex_conf ex_conf eq_refl (rtc_refl _ _)) as (c' & Hr & _ & _ & _ & He).
  exists c'. split; [exact Hr|]. apply He. lia.
Defined.
