(* ===== verification/ThreadPool.v ===== *)
(** * threadpools.c: a pool of threads with a circular task queue

    Models src/Labweek15/threadpools.c and, with [lock = false],
    src/Labweek13/threadpools.c, which is the same program without the mutex
    semaphore and with fewer tasks.  [main] is thread 0, the threads of the pool
    follow.  Every access to the shared structure that another thread may make
    at the same time is a step of its own; the threads are interleaved in any
    way.  [pthread_create] and [sem_init] are taken to succeed. *)

From stdpp Require Import base list numbers relations.
From S2P Require Import Prelude Interleave.

Definition THREADS_NUM : Z := 10.
Definition TASK_QUEUE_MAX_SIZE : Z := 12.
Definition TASK_NUM : Z := 100.
(** Of Labweek13. *)
Definition TASK_NUM_13 : Z := 50.

(** The program has one task function; [arg] points to [num[arg]]. *)
Inductive task_function := task_fn.
Record Task := TaskOf { function : task_function; arg : Z }.

#[global] Instance task_function_eq_dec : EqDecision task_function.
Proof. solve_decision. Defined.
#[global] Instance Task_eq_dec : EqDecision Task.
Proof. solve_decision. Defined.

Inductive event :=
| Exits (tid : Z)
| WaitsForTask (tid : Z)
| WaitsToAdd (task : Z)
| Dealing (tid task : Z)
| Sleeping (task : Z)
| Finished (task tid : Z)
| AllFinished.

#[global] Instance event_eq_dec : EqDecision event.
Proof. solve_decision. Defined.

(** The pool, the array [num] of [main], which threads have ended and what has
    been printed.  A queue slot that was never written is [None]. *)
Record Threadpools := Pools {
  tasks : list (option Task);
  front : Z;
  rear : Z;
  taskSum : Z;
  sem_mutex : Z;
  num : list Z;
  ended : list bool;
  printed : list event
}.

Definition set_tasks (v : list (option Task)) (s : Threadpools) := Pools v (front s) (rear s) (taskSum s) (sem_mutex s) (num s) (ended s) (printed s).
Definition set_front (v : Z) (s : Threadpools) := Pools (tasks s) v (rear s) (taskSum s) (sem_mutex s) (num s) (ended s) (printed s).
Definition set_rear (v : Z) (s : Threadpools) := Pools (tasks s) (front s) v (taskSum s) (sem_mutex s) (num s) (ended s) (printed s).
Definition set_taskSum (v : Z) (s : Threadpools) := Pools (tasks s) (front s) (rear s) v (sem_mutex s) (num s) (ended s) (printed s).
Definition set_sem (v : Z) (s : Threadpools) := Pools (tasks s) (front s) (rear s) (taskSum s) v (num s) (ended s) (printed s).
Definition set_ended (v : list bool) (s : Threadpools) := Pools (tasks s) (front s) (rear s) (taskSum s) (sem_mutex s) (num s) v (printed s).
Definition print (l : list event) (s : Threadpools) :=
  Pools (tasks s) (front s) (rear s) (taskSum s) (sem_mutex s) (num s) (ended s) (printed s ++ l).

(** Where a thread is, with its variables. *)
Inductive pc :=
(* main *)
| AddTest (i : Z)                 (* the loop condition of addTask for num[i] *)
| AddStore (i : Z)                (* pools->taskQueue.tasks[rear] = task *)
| AddRear (i : Z)                 (* pools->taskQueue.rear = ... *)
| Join (i : Z)
| MainDone
(* executeTask *)
| Lock
| TestFront
| TestRear (f : Z)
| Empty                           (* the queue was empty: if (pools->taskSum == 0) *)
| ExitPost
| Exited
| LoadSum
| StoreSum (v : Z)
| LoadFront
| LoadTask (f : Z)
| StoreFront (f : Z) (t : option Task)
| Unlock (t : option Task)
| Call (t : option Task)
| Asleep (task : Z).

#[global] Instance pc_eq_dec : EqDecision pc.
Proof. solve_decision. Defined.

Section pool.
Variables (n q k : Z) (lock : bool).

Definition join_next (i : Z) : pc := if i <=? n then Join i else MainDone.
Definition add_next (i : Z) : pc := if i <? k then AddTest i else join_next 1.

(** [sem_wait] and [sem_post]: [None] when the semaphore blocks. *)
Definition sem_wait (p : pc) (s : Threadpools) : option (outcome (pc * Threadpools)) :=
  if lock then if 0 <? sem_mutex s then Some (Ok (p, set_sem (sem_mutex s - 1) s)) else None
  else Some (Ok (p, s)).
Definition sem_post (p : pc) (s : Threadpools) : option (outcome (pc * Threadpools)) :=
  Some (if lock then v ← cint (sem_mutex s + 1); Ok (p, set_sem v s) else Ok (p, s)).

Definition addTask (p : pc) (s : Threadpools) : option (outcome (pc * Threadpools)) :=
  match p with
  | AddTest i =>
      Some (Ok (if Z.rem (rear s + q + 1 - front s) q =? 0 then (AddTest i, print [WaitsToAdd (i + 1)] s)
                else (AddStore i, s)))
  | AddStore i => Some (a ← aset (tasks s) (rear s) (Some (TaskOf task_fn i)); Ok (AddRear i, set_tasks a s))
  | AddRear i => Some (Ok (add_next (i + 1), set_rear (Z.rem (rear s + 1) q) s))
  | _ => None
  end.

(** The end of [main]. *)
Definition join_threads (p : pc) (s : Threadpools) : option (outcome (pc * Threadpools)) :=
  match p with
  | Join i => if decide (aget (ended s) i = Ok true)
              then Some (Ok (if n <=? i then (MainDone, print [AllFinished] s) else (join_next (i + 1), s))) else None
  | _ => None
  end.

Definition executeTask (tid : Z) (p : pc) (s : Threadpools) : option (outcome (pc * Threadpools)) :=
  match p with
  | Lock => sem_wait TestFront s
  | TestFront => Some (Ok (TestRear (front s), s))
  | TestRear f => Some (Ok (if f =? rear s then Empty else LoadSum, s))
  | Empty => Some (Ok (if taskSum s =? 0 then (ExitPost, print [Exits tid] s) else (TestFront, print [WaitsForTask tid] s)))
  | ExitPost =>
      match sem_post Exited s with
      | Some r => Some (r ← r; e ← aset (ended r.2) tid true; Ok (r.1, set_ended e r.2))
      | None => None
      end
  | LoadSum => Some (Ok (StoreSum (taskSum s), s))
  | StoreSum v => Some (v ← cint (v - 1); Ok (LoadFront, set_taskSum v s))
  | LoadFront => Some (Ok (LoadTask (front s), s))
  | LoadTask f => Some (t ← aget (tasks s) f; Ok (StoreFront f t, s))
  | StoreFront f t => Some (Ok (Unlock t, set_front (Z.rem (f + 1) q) s))
  | Unlock t => sem_post (Call t) s
  | _ => None
  end.

(** The call of the task, which reads its number through [arg]. *)
Definition taskFunction (tid : Z) (p : pc) (s : Threadpools) : option (outcome (pc * Threadpools)) :=
  match p with
  | Call t => Some (t ← of_option t; task ← aget (num s) (arg t);
                    Ok (Asleep task, print [Dealing tid task; Sleeping task] s))
  | Asleep task => Some (Ok (Lock, print [Finished task tid] s))
  | _ => None
  end.

Definition pool_step (tid : Z) (p : pc) (s : Threadpools) : option (outcome (pc * Threadpools)) :=
  match p with
  | AddTest _ | AddStore _ | AddRear _ => addTask p s
  | Join _ | MainDone => join_threads p s
  | Call _ | Asleep _ => taskFunction tid p s
  | _ => executeTask tid p s
  end.

(** After [initThreadpools] and the initialisation of [num]. *)
Definition pool_start : conf pc Threadpools :=
  Conf (add_next 0 :: replicate (Z.to_nat n) Lock)
    (Pools (replicate (Z.to_nat q) None) 0 0 k 1 ((λ i, i + 1) <$> seqZ 0 k) (replicate (Z.to_nat (n + 1)) false) []).
End pool.
