(* ===== verification/ThreadPoolProps.v ===== *)
(** * The thread pool executes every task once

    Properties of ThreadPool.v: with the mutex of Labweek15 every task is
    executed exactly once and the pool can always come to its end; without it,
    as in Labweek13, a task may be executed twice and the program may wait
    forever. *)

From stdpp Require Import base list numbers relations.
From S2P Require Import Prelude Interleave ThreadPool.

Section invariant.
Context (n q k : Z) (Hn : 1 ≤ n) (Hq : 2 ≤ q ≤ 2 ^ 20) (Hk : 0 ≤ k ≤ 2 ^ 20).

(** The number of tasks that [main] has added. *)
Definition added (m : pc) : Z :=
  match m with AddTest i | AddStore i | AddRear i => i | _ => k end.

(** [main] has found room. *)
Definition room (m : pc) : Z := match m with AddStore _ | AddRear _ => 1 | _ => 0 end.

(** It has stored the task but not yet advanced [rear]. *)
Definition stored (m : pc) : Z := match m with AddRear _ => 1 | _ => 0 end.

Definition main_ok (m : pc) (e : list bool) : Prop :=
  match m with
  | AddTest i | AddStore i | AddRear i => 0 ≤ i < k
  | Join i => 1 ≤ i ≤ n ∧ ∀ j, 1 ≤ j < i → aget e j = Ok true
  | MainDone => ∀ j, 1 ≤ j ≤ n → aget e j = Ok true
  | _ => False
  end.

(** The thread holds the mutex. *)
Definition locked (p : pc) : bool :=
  match p with
  | TestFront | TestRear _ | Empty | ExitPost | LoadSum | StoreSum _ | LoadFront | LoadTask _ | StoreFront _ _ | Unlock _ => true
  | _ => false
  end.

(** It has decremented [taskSum] but not yet advanced [front]. *)
Definition taking (p : pc) : bool :=
  match p with LoadFront | LoadTask _ | StoreFront _ _ => true | _ => false end.

(** It has task [x] in its hands. *)
Definition holds (x : Z) (p : pc) : bool :=
  match p with
  | Unlock (Some t) | Call (Some t) => arg t =? x
  | Asleep task => task - 1 =? x
  | _ => false
  end.

(** A thread of the pool when [d] tasks have been taken and [a] added. *)
Definition worker_ok (d a : Z) (p : pc) : Prop :=
  match p with
  | Lock | TestFront | Empty => True
  | TestRear f => f = d mod q
  | ExitPost | Exited => d = k
  | LoadSum | LoadFront => d < a
  | StoreSum v => d < a ∧ v = k - d
  | LoadTask f => d < a ∧ f = d mod q
  | StoreFront f t => d < a ∧ f = d mod q ∧ t = Some (TaskOf task_fn d)
  | Unlock t | Call t => ∃ x, t = Some (TaskOf task_fn x) ∧ 0 ≤ x < k
  | Asleep _ => True
  | _ => False
  end.

(** How often task [x], which has the number [x + 1], has been executed. *)
Definition is_finish (x : Z) (e : event) : bool := match e with Finished t _ => t =? x + 1 | _ => false end.
Definition finished (x : Z) (out : list event) : Z := count (is_finish x) out.

Record pool_inv (m : pc) (ws : list pc) (s : Threadpools) (d : Z) : Prop := {
  v_len : zlen ws = n;
  v_main : main_ok m (ended s);
  v_taken : 0 ≤ d ≤ added m;
  v_added : added m ≤ k;
  v_room : added m - d ≤ q - 1 - room m;
  v_front : front s = d mod q;
  v_rear : rear s = added m mod q;
  v_tasks : zlen (tasks s) = q;
  v_slots : ∀ j, d ≤ j < added m + stored m → aget (tasks s) (j mod q) = Ok (Some (TaskOf task_fn j));
  v_sem : 0 ≤ sem_mutex s ∧ sem_mutex s + count locked ws = 1;
  v_sum : taskSum s = k - d - count taking ws;
  v_workers : ∀ i p, ws !! i = Some p → worker_ok d (added m) p;
  v_num : num s = (λ i, i + 1) <$> seqZ 0 k;
  v_ended_len : zlen (ended s) = n + 1;
  v_ended : ∀ i p, ws !! i = Some p → aget (ended s) (Z.of_nat (S i)) = Ok (bool_decide (p = Exited));
  v_done : ∀ x, finished x (printed s) + count (holds x) ws = if decide (0 ≤ x < d) then 1 else 0;
  v_all : AllFinished ∈ printed s ↔ m = MainDone
}.

Lemma mod_range x : 0 ≤ x mod q < q.
Proof. apply Z.mod_pos_bound. lia. Qed.

Lemma finished_app x out out' : finished x (out ++ out') = finished x out + finished x out'.
Proof. apply count_app. Qed.

Lemma locked_unique m ws s d i j p r :
  pool_inv m ws s d → ws !! i = Some p → ws !! j = Some r → locked p = true → locked r = true → i = j.
Proof.
  intros HI Hi Hj Hp Hr. apply (count_two locked ws i j p r); try done. destruct (v_sem _ _ _ _ HI). lia.
Qed.

Lemma worker_ok_added d a a' p : a ≤ a' → worker_ok d a p → worker_ok d a' p.
Proof. destruct p; cbn; naive_solver lia. Qed.

(** ** The steps of main *)

Lemma aget_num i s m ws d : pool_inv m ws s d → 0 ≤ i < k → aget (num s) i = Ok (i + 1).
Proof.
  intros HI Hi. rewrite (v_num _ _ _ _ HI), aget_fmap. rewrite (aget_lookup (seqZ 0 k) i i); [done|lia|].
  apply lookup_seqZ. lia.
Qed.

Lemma print_nil s : print [] s = s.
Proof. destruct s. unfold print. by rewrite app_nil_r. Qed.

(** [main] prints and goes on without touching the queue. *)
Lemma main_quiet m m' ws s d out :
  pool_inv m ws s d → main_ok m' (ended s) → added m' = added m → added m - d ≤ q - 1 - room m' →
  stored m' = stored m → (∀ x, finished x out = 0) → (AllFinished ∈ printed s ++ out ↔ m' = MainDone) →
  pool_inv m' ws (print out s) d.
Proof.
  intros HI Hm Ha Hr Hs Hf Hall. destruct HI. split; cbn [print tasks front rear taskSum sem_mutex num ended printed]; rewrite ?Ha, ?Hs; try done.
  - intros x. rewrite finished_app, Hf. specialize (v_done0 x). lia.
Qed.

Lemma main_step m ws s d r :
  pool_inv m ws s d → pool_step n q k true 0 m s = Some r →
  ∃ m' s', r = Ok (m', s') ∧ pool_inv m' ws s' d ∧ taskSum s' = taskSum s.
Proof.
  intros HI. pose proof (v_main _ _ _ _ HI) as Hm. pose proof (v_taken _ _ _ _ HI) as Ht. pose proof (v_room _ _ _ _ HI) as Hroom.
  pose proof (v_rear _ _ _ _ HI) as Hrear. pose proof (v_front _ _ _ _ HI) as Hfront. pose proof (v_tasks _ _ _ _ HI) as Hlen.
  assert (AllFinished ∈ printed s ↔ m = MainDone) as Hall by apply HI.
  destruct m as [i|i|i|i| | | | | | | | | | | | | | |]; try done; cbn [main_ok added room pool_step addTask join_threads] in *.
  - (* AddTest *)
    pose proof (mod_range i) as Hi. pose proof (mod_range d) as Hd.
    assert (Z.rem (rear s + q + 1 - front s) q = (i + 1 - d) mod q) as ->.
    { rewrite Hrear, Hfront, Z.rem_mod_nonneg by lia. rewrite (Z.div_mod i q) at 2 by lia. rewrite (Z.div_mod d q) at 2 by lia.
      replace (q * (i / q) + i mod q + 1 - (q * (d / q) + d mod q)) with (i mod q + q + 1 - d mod q + (i / q - d / q - 1) * q) by lia.
      by rewrite Z.mod_add by lia. }
    destruct (Z.eqb_spec ((i + 1 - d) mod q) 0) as [E|E]; intros [= <-]; eexists _, _; (split; [done|]); (split; [|done]).
    + apply (main_quiet (AddTest i)); try done. rewrite elem_of_app, list_elem_of_singleton, Hall. naive_solver.
    + rewrite <-(print_nil s). apply (main_quiet (AddTest i)); try done; cbn [added room].
      * assert (i + 1 - d ≠ q); [|lia]. intros E'. rewrite E' in E. by rewrite Z_mod_same_full in E.
      * rewrite app_nil_r, Hall. naive_solver.
  - (* AddStore *)
    pose proof (mod_range i) as Hi. rewrite Hrear, aset_Ok by lia. intros [= <-]. cbn. eexists _, _. split; [done|]. split; [|done].
    destruct HI. split; cbn [set_tasks tasks front rear taskSum sem_mutex num ended printed added room stored] in *; try done.
    + by rewrite zlen_insert.
    + intros j Hj. rewrite aget_insert by lia. case_decide as Hji; [|apply v_slots0; cbn; destruct (decide (j = i)); [by subst|lia]].
      assert (j = i) as -> by (apply (mod_near_inj q); lia). done.
    + rewrite Hall. naive_solver.
  - (* AddRear *)
    intros [= <-]. cbn. eexists _, _. split; [done|]. split; [|done].
    assert (∃ m', add_next n k (i + 1) = m' ∧ main_ok m' (ended s) ∧ added m' = i + 1 ∧ room m' = 0 ∧ stored m' = 0 ∧ m' ≠ MainDone)
      as (m' & -> & H1 & H2 & H3 & H4 & H5).
    { eexists; split; [done|]. unfold add_next, join_next. destruct (Z.ltb_spec (i + 1) k); [cbn; split_and!; try done; lia|].
      rewrite (proj2 (Z.leb_le 1 n)) by lia. cbn. split_and!; try done; try lia. }
    destruct HI. split; cbn [set_rear tasks front rear taskSum sem_mutex num ended printed added room stored] in *; rewrite ?H2, ?H3, ?H4; try done; try lia.
    + rewrite Hrear. apply rem_mod_succ; lia.
    + intros j Hj. apply v_slots0. lia.
    + intros j p Hj. apply (worker_ok_added d i); [lia|by apply (v_workers0 j)].
    + rewrite Hall. naive_solver.
  - (* Join *)
    case_decide as He; [|done]. destruct Hm as [Hin Hjoin].
    assert (∀ j, 1 ≤ j < i + 1 → aget (ended s) j = Ok true) as Hjoin'.
    { intros j Hj. destruct (decide (j = i)) as [->|]; [done|apply Hjoin; lia]. }
    destruct (Z.leb_spec n i); intros [= <-]; eexists _, _; (split; [done|]); (split; [|done]).
    + apply (main_quiet (Join i)); try done; [cbn; intros j Hj; apply Hjoin'; lia|]. set_solver.
    + unfold join_next. rewrite (proj2 (Z.leb_le _ _)) by lia. rewrite <-(print_nil s).
      apply (main_quiet (Join i)); try done; [split; [lia|done]|]. rewrite app_nil_r, Hall. naive_solver.
Qed.

(** ** The steps of the pool *)

Lemma cint_inv z v : cint z = Ok v → v = z.
Proof. unfold cint. destruct (int_ok z); [by intros [= ->]|done]. Qed.

Definition b2z (b : bool) : Z := if b then 1 else 0.

(** A step that leaves the queue alone. *)
Lemma worker_quiet m ws s d i p p' s' out :
  pool_inv m ws s d → ws !! i = Some p → p ≠ Exited → worker_ok d (added m) p' → taking p' = taking p →
  tasks s' = tasks s → front s' = front s → rear s' = rear s → taskSum s' = taskSum s → num s' = num s →
  sem_mutex s' = sem_mutex s + b2z (locked p) - b2z (locked p') → 0 ≤ sem_mutex s' →
  ended s' = (if decide (p' = Exited) then <[S i := true]> (ended s) else ended s) →
  printed s' = printed s ++ out → (∀ x, finished x out + b2z (holds x p') = b2z (holds x p)) → AllFinished ∉ out →
  pool_inv m (<[i := p']> ws) s' d.
Proof.
  intros HI Hi Hne Hok Htk Et Ef Er Es En Em Hm Ee Ep Hf Hall. pose proof (lookup_lt_Some _ _ _ Hi) as Hlt.
  assert (zlen (ended s') = zlen (ended s)) as Hel by (rewrite Ee; case_decide; [by rewrite zlen_insert|done]).
  pose proof (v_ended_len _ _ _ _ HI) as Hlen. pose proof (v_len _ _ _ _ HI) as Hwl.
  assert (0 ≤ Z.of_nat (S i) < zlen (ended s)) as Hir by (unfold zlen in *; lia).
  assert (∀ j, aget (ended s') j = if decide (p' = Exited ∧ j = Z.of_nat (S i)) then Ok true else aget (ended s) j) as Hend.
  { intros j. rewrite Ee. destruct (decide (p' = Exited)) as [He|He].
    - replace (S i) with (Z.to_nat (Z.of_nat (S i))) at 1 by lia. rewrite aget_insert by done.
      destruct (decide (j = Z.of_nat (S i))) as [Hj|Hj]; [by rewrite decide_True|]. rewrite decide_False; [done|]. by intros [_ ?].
    - rewrite decide_False by naive_solver. done. }
  assert (∀ j, aget (ended s) j = Ok true → aget (ended s') j = Ok true) as Hmono by (intros j Hj; rewrite Hend; by destruct (decide (p' = Exited ∧ j = Z.of_nat (S i)))).
  destruct HI. split; rewrite ?Et, ?Ef, ?Er, ?Es, ?En, ?Ep; try done.
  - by rewrite zlen_insert.
  - clear -v_main0 Hmono. destruct m; cbn in *; naive_solver.
  - rewrite (tcount_update _ _ _ _ _ Hi). unfold b2z in *. lia.
  - rewrite (tcount_update _ _ _ _ _ Hi), Htk. lia.
  - intros j r [[-> ->]|[_ Hj]]%(lookup_update _ _ _ _ _ _ Hi); [done|by apply (v_workers0 j)].
  - by rewrite Hel.
  - intros j r Hj. rewrite Hend. apply (lookup_update _ _ _ _ _ _ Hi) in Hj as [[-> ->]|[Hji Hj]].
    + destruct (decide (p' = Exited)) as [->|He]; [by rewrite decide_True|]. rewrite decide_False by naive_solver.
      rewrite (v_ended0 i p Hi). by rewrite !bool_decide_eq_false_2.
    + rewrite decide_False by (intros [_ ?]; lia). by apply v_ended0.
  - intros x. rewrite finished_app, (tcount_update _ _ _ _ _ Hi). specialize (v_done0 x). specialize (Hf x). unfold b2z in *. lia.
  - rewrite elem_of_app. naive_solver.
Qed.

(** Taking a task off the front of the queue. *)
Lemma take_task m ws s d i p p' s' :
  pool_inv m ws s d → ws !! i = Some p → taking p = true → taking p' = false → locked p = true → locked p' = true → p' ≠ Exited →
  worker_ok (d + 1) (added m) p' → (∀ x, holds x p = false) → (∀ x, holds x p' = (x =? d)) → d < added m →
  s' = set_front ((d + 1) mod q) s → pool_inv m (<[i := p']> ws) s' (d + 1).
Proof.
  intros HI Hi Ht Ht' Hl Hl' Hne Hok Hh Hh' Hd ->. pose proof (λ j r, locked_unique m ws s d i j p r HI Hi) as Huniq.
  destruct HI. split; cbn [set_front tasks front rear taskSum sem_mutex num ended printed]; try done; try lia.
  - by rewrite zlen_insert.
  - intros j Hj. apply v_slots0. lia.
  - rewrite (tcount_update _ _ _ _ _ Hi), Hl, Hl'. lia.
  - rewrite (tcount_update _ _ _ _ _ Hi), Ht, Ht'. lia.
  - intros j r [[-> ->]|[Hji Hj]]%(lookup_update _ _ _ _ _ _ Hi); [done|]. pose proof (v_workers0 j r Hj) as Hr.
    destruct (locked r) eqn:Hlr; [by destruct Hji; symmetry; apply (Huniq j r)|]. destruct r; try done. cbn in *. lia.
  - intros j r [[-> ->]|[Hji Hj]]%(lookup_update _ _ _ _ _ _ Hi); [|by apply v_ended0]. rewrite (v_ended0 i p Hi).
    rewrite !bool_decide_eq_false_2; [done|done|by intros ->].
  - intros x. rewrite (tcount_update _ _ _ _ _ Hi), Hh, Hh'. specialize (v_done0 x). destruct (Z.eqb_spec x d); repeat case_decide; lia.
Qed.

Lemma worker_step m ws s d i p r :
  pool_inv m ws s d → ws !! i = Some p → pool_step n q k true (Z.of_nat (S i)) p s = Some r →
  ∃ p' s' d', r = Ok (p', s') ∧ pool_inv m (<[i := p']> ws) s' d'.
Proof.
  intros HI Hi. pose proof (v_workers _ _ _ _ HI i p Hi) as Hp. pose proof (v_sem _ _ _ _ HI) as [Hs0 Hs1].
  pose proof (v_sum _ _ _ _ HI) as Hsum. pose proof (v_front _ _ _ _ HI) as Hfront. pose proof (v_rear _ _ _ _ HI) as Hrear.
  pose proof (v_taken _ _ _ _ HI) as Htk. pose proof (v_added _ _ _ _ HI) as Had. pose proof (v_room _ _ _ _ HI) as Hrm.
  assert (0 ≤ room m ≤ 1) as Hr01 by (destruct m; cbn; lia).
  assert (0 ≤ stored m ≤ 1) as Hst01 by (destruct m; cbn; lia).
  assert (locked p = true → sem_mutex s = 0 ∧ ∀ b, (∀ r, b r = true → locked r = true) → count b ws = b2z (b p)) as Hlk.
  { intros Hl. assert (count locked ws ≤ 1) by lia.
    assert (∀ b, (∀ r, b r = true → locked r = true) → count b ws = b2z (b p)) as Hb.
    { intros b Hb. apply (count_other b ws i p Hi). intros j u Hji Hj. destruct (b u) eqn:E; [|done]. destruct Hji.
      symmetry. apply (locked_unique m ws s d i j p u HI); try done. by apply Hb. }
    split; [|done]. specialize (Hb locked ltac:(done)). rewrite Hl in Hb. cbn in Hb. lia. }
  assert (taking p = true → locked p = true) as Htl by by destruct p.
  assert (∀ r, taking r = true → locked r = true) as Htl' by (intros []; done).
  destruct p as [?|?|?|?| | | |f| | | | |v| |f|f t|t|t|task]; try done; cbn [pool_step addTask join_threads executeTask taskFunction worker_ok] in *.
  - (* Lock *)
    unfold sem_wait. destruct (Z.ltb_spec 0 (sem_mutex s)); [|done]. intros [= <-]. eexists _, _, d. split; [done|].
    eapply (worker_quiet _ _ _ _ _ Lock _ _ []); try done; cbn; [lia..|by rewrite app_nil_r|set_solver].
  - (* TestFront *)
    intros [= <-]. eexists _, _, d. split; [done|].
    eapply (worker_quiet _ _ _ _ _ TestFront _ _ []); try done; cbn; [lia..|by rewrite app_nil_r|set_solver].
  - (* TestRear *)
    assert (f =? rear s = (d =? added m)) as ->.
    { rewrite Hp, Hrear. destruct (Z.eqb_spec d (added m)) as [->|Hne]; [apply Z.eqb_refl|]. apply Z.eqb_neq. intros E. apply Hne.
      apply (mod_near_inj q); [lia..|done]. }
    intros [= <-]. eexists _, _, d. split; [done|]. destruct (Z.eqb_spec d (added m));
      (eapply (worker_quiet _ _ _ _ _ (TestRear f) _ _ []); try done; cbn; [lia..|by rewrite app_nil_r|set_solver]).
  - (* Empty *)
    destruct (Hlk eq_refl) as [Hsem Hcnt]. rewrite (Hcnt taking Htl') in Hsum. cbn in Hsum.
    destruct (Z.eqb_spec (taskSum s) 0); intros [= <-]; eexists _, _, d; (split; [done|]).
    + eapply (worker_quiet _ _ _ _ _ Empty _ _ [Exits _]); try done; cbn; [lia..|set_solver].
    + eapply (worker_quiet _ _ _ _ _ Empty _ _ [WaitsForTask _]); try done; cbn; [lia..|set_solver].
  - (* ExitPost *)
    destruct (Hlk eq_refl) as [Hsem _]. unfold sem_post. rewrite cint_Ok by (unfold int_min, int_max; lia). cbn.
    pose proof (lookup_lt_Some _ _ _ Hi) as Hlt. pose proof (v_ended_len _ _ _ _ HI) as Hlen. pose proof (v_len _ _ _ _ HI) as Hwl.
    rewrite aset_Ok by (unfold zlen in *; lia). intros [= <-]. eexists _, _, d. split; [done|].
    replace (Z.to_nat (Z.of_nat (S i))) with (S i) by lia.
    eapply (worker_quiet _ _ _ _ _ ExitPost _ _ []); try done; cbn; [lia..|by rewrite app_nil_r|set_solver].
  - (* LoadSum *)
    destruct (Hlk eq_refl) as [Hsem Hcnt]. rewrite (Hcnt taking Htl') in Hsum. cbn in Hsum.
    intros [= <-]. eexists _, _, d. split; [done|].
    eapply (worker_quiet _ _ _ _ _ LoadSum _ _ []); try done; cbn; [lia..|by rewrite app_nil_r|set_solver].
  - (* StoreSum *)
    destruct (Hlk eq_refl) as [Hsem Hcnt]. destruct Hp as [Hda ->]. rewrite cint_Ok by (unfold int_min, int_max; lia). cbn.
    intros [= <-]. eexists _, _, d. split; [done|]. rewrite (Hcnt taking Htl') in Hsum.
    destruct HI. split; cbn [set_taskSum tasks front rear taskSum sem_mutex num ended printed]; try done.
    + by rewrite zlen_insert.
    + rewrite (tcount_update _ _ _ _ _ Hi). cbn [locked]. lia.
    + rewrite (tcount_update _ _ _ _ _ Hi), (Hcnt taking Htl'). cbn. lia.
    + intros j u [[-> ->]|[_ Hj]]%(lookup_update _ _ _ _ _ _ Hi); [done|by apply (v_workers0 j)].
    + intros j u [[-> ->]|[_ Hj]]%(lookup_update _ _ _ _ _ _ Hi); [|by apply v_ended0]. by rewrite (v_ended0 i _ Hi).
    + intros x. rewrite (tcount_update _ _ _ _ _ Hi). specialize (v_done0 x). cbn [holds]. lia.
  - (* LoadFront *)
    intros [= <-]. eexists _, _, d. split; [done|].
    eapply (worker_quiet _ _ _ _ _ LoadFront _ _ []); try done; cbn; [lia..|by rewrite app_nil_r|set_solver].
  - (* LoadTask *)
    destruct Hp as [Hda ->]. rewrite (v_slots _ _ _ _ HI d) by lia. cbn. intros [= <-]. eexists _, _, d. split; [done|].
    eapply (worker_quiet _ _ _ _ _ (LoadTask _) _ _ []); try done; cbn; [lia..|by rewrite app_nil_r|set_solver].
  - (* StoreFront *)
    destruct Hp as (Hda & -> & ->). intros [= <-]. eexists _, _, (d + 1). split; [done|].
    rewrite rem_mod_succ by lia. eapply (take_task m ws s d i); try done; [exists d; split; [done|lia]|]. intros x. cbn. lia.
  - (* Unlock *)
    destruct (Hlk eq_refl) as [Hsem _]. unfold sem_post. rewrite cint_Ok by (unfold int_min, int_max; lia). cbn. intros [= <-].
    eexists _, _, d. split; [done|].
    eapply (worker_quiet _ _ _ _ _ (Unlock t) _ _ []); try done; cbn; [lia..|by rewrite app_nil_r|set_solver].
  - (* Call *)
    destruct Hp as (x & -> & Hx). cbn. rewrite (aget_num x s m ws d HI Hx). cbn. intros [= <-]. eexists _, _, d. split; [done|].
    eapply (worker_quiet _ _ _ _ _ (Call _) _ _ [Dealing _ _; Sleeping _]); try done; cbn; [lia..| |set_solver].
    intros y. replace (x + 1 - 1) with x by lia. done.
  - (* Asleep *)
    intros [= <-]. eexists _, _, d. split; [done|].
    eapply (worker_quiet _ _ _ _ _ (Asleep task) _ _ [Finished _ _]); try done; cbn; [lia..| |set_solver].
    intros y. unfold finished. rewrite count_cons, count_nil. cbn. unfold b2z. destruct (Z.eqb_spec task (y + 1)), (Z.eqb_spec (task - 1) y); lia.
Qed.

(** ** Reachable states *)

Notation step := (pool_step n q k true).

Definition conf_inv (c : conf pc Threadpools) : Prop :=
  ∃ m ws d, threads c = m :: ws ∧ pool_inv m ws (shared c) d.

Lemma add_next_ok i : 0 ≤ i ≤ k →
  let m := add_next n k i in
  (∀ e, main_ok m e) ∧ added m = i ∧ room m = 0 ∧ stored m = 0 ∧ m ≠ MainDone.
Proof.
  intros Hi m. unfold m, add_next, join_next. destruct (Z.ltb_spec i k); [cbn; split_and!; try done; lia|].
  rewrite (proj2 (Z.leb_le 1 n)) by lia. cbn. split_and!; try done; [|lia]. intros e. split; [lia|]. intros j Hj. lia.
Qed.

Lemma pool_start_inv : conf_inv (pool_start n q k).
Proof.
  destruct (add_next_ok 0) as (H1 & H2 & H3 & H4 & H5); [lia|].
  assert (∀ i p, replicate (Z.to_nat n) Lock !! i = Some p → p = Lock) as Hst by (by intros i p [-> _]%lookup_replicate).
  assert (∀ b, b Lock = false → count b (replicate (Z.to_nat n) Lock) = 0) as Hc.
  { intros b Hb. apply tcount_zero. by intros p [i ->%Hst]%list_elem_of_lookup. }
  exists (add_next n k 0), (replicate (Z.to_nat n) Lock), 0. split; [done|].
  cbn [shared pool_start]. split; cbn [tasks front rear taskSum sem_mutex num ended printed]; rewrite ?H2, ?H3, ?H4; try done; try lia.
  - unfold zlen. rewrite length_replicate. lia.
  - unfold zlen. rewrite length_replicate. lia.
  - rewrite Hc by done. lia.
  - rewrite Hc by done. lia.
  - by intros i p ->%Hst.
  - unfold zlen. rewrite length_replicate. lia.
  - intros i p Hi. pose proof (lookup_lt_Some _ _ _ Hi) as Hlt. rewrite length_replicate in Hlt. rewrite (Hst i p Hi).
    apply aget_lookup; [lia|]. apply lookup_replicate_2. lia.
  - intros x. rewrite Hc by done. case_decide; [lia|done].
  - split; [by intros ?%elem_of_nil|done].
Qed.

Lemma conf_step ts s i p r :
  conf_inv (Conf ts s) → ts !! i = Some p → step (Z.of_nat i) p s = Some r →
  ∃ p' s', r = Ok (p', s') ∧ conf_inv (Conf (<[i := p']> ts) s').
Proof.
  intros (m & ws & d & Hts & HI). cbn [threads shared] in *. subst ts. destruct i as [|i]; cbn [lookup list_lookup insert list_insert].
  - intros [= <-] Hs. destruct (main_step m ws s d r HI Hs) as (m' & s' & -> & HI' & _).
    exists m', s'. split; [done|]. by exists m', ws, d.
  - intros Hi Hs. destruct (worker_step m ws s d i p r HI Hi Hs) as (p' & s' & d' & -> & HI').
    exists p', s'. split; [done|]. by exists m, (<[i:=p']> ws), d'.
Qed.

Lemma conf_reach c c' : conf_inv c → rtc (runs_step step) c c' → conf_inv c'.
Proof.
  apply runs_invariant. intros ts s i p p' s' HI Hi Hs.
  by destruct (conf_step ts s i p _ HI Hi Hs) as (? & ? & [= <- <-] & ?).
Qed.

(** When all threads of the pool have ended, all tasks have been executed. *)
Lemma all_exited m ws s d :
  pool_inv m ws s d → (∀ i p, ws !! i = Some p → p = Exited) → d = k ∧ ∀ x, 0 ≤ x < k → finished x (printed s) = 1.
Proof.
  intros HI Hex. assert (d = k) as ->.
  { destruct (aget_in_range ws 0) as (p & _ & Hp); [rewrite (v_len _ _ _ _ HI); lia|]. pose proof (v_workers _ _ _ _ HI _ _ Hp) as Hw.
    rewrite (Hex _ _ Hp) in Hw. exact Hw. }
  split; [done|]. intros x Hx. pose proof (v_done _ _ _ _ HI x) as Hd. rewrite decide_True in Hd by done.
  rewrite tcount_zero in Hd; [lia|]. by intros p [i ->%Hex]%list_elem_of_lookup.
Qed.

Lemma main_done_exited ws s d : pool_inv MainDone ws s d → ∀ i p, ws !! i = Some p → p = Exited.
Proof.
  intros HI i p Hi. pose proof (v_main _ _ _ _ HI (Z.of_nat (S i))) as He. pose proof (lookup_lt_Some _ _ _ Hi) as Hlt.
  pose proof (v_len _ _ _ _ HI) as Hlen. rewrite (v_ended _ _ _ _ HI i p Hi) in He. unfold zlen in Hlen.
  specialize (He ltac:(lia)). injection He as He. by apply bool_decide_eq_true in He.
Qed.

(** ** Progress *)

Definition main_rank (m : pc) : Z :=
  match m with
  | AddTest i => 3 * i
  | AddStore i => 3 * i + 1
  | AddRear i => 3 * i + 2
  | Join i => 3 * k + i
  | _ => 3 * k + n + 1
  end.

(** Looking for a task does not count. *)
Definition worker_rank (p : pc) : Z :=
  match p with
  | Unlock _ => 0
  | Call _ => 1
  | Asleep _ => 2
  | Lock => 3
  | TestFront | TestRear _ | Empty => 4
  | LoadSum => 5
  | StoreSum _ => 6
  | LoadFront => 7
  | LoadTask _ => 8
  | StoreFront _ _ => 9
  | ExitPost => 10
  | _ => 11
  end.

(** The tasks that have been taken, from the state. *)
Definition taken (ws : list pc) (s : Threadpools) : Z := k - taskSum s - count taking ws.

Definition total (c : conf pc Threadpools) : Z :=
  match threads c with
  | m :: ws => main_rank m + 10 * taken ws (shared c) + sumZ (worker_rank <$> ws)
  | [] => 0
  end.

Definition progress (c : conf pc Threadpools) : Prop :=
  ∃ c', rtc (runs_step step) c c' ∧ conf_inv c' ∧ total c < total c'.

Lemma main_progress m m' ws s s' d :
  pool_inv m ws s d → step 0 m s = Some (Ok (m', s')) → main_rank m < main_rank m' → progress (Conf (m :: ws) s).
Proof.
  intros HI Hs Hr. destruct (main_step m ws s d _ HI Hs) as (m1 & s1 & [= <- <-] & HI' & Hsum).
  exists (Conf (m' :: ws) s'). split; [|split].
  - apply rtc_once. exact (do_step step (Conf (m :: ws) s) 0 m m' s' eq_refl Hs).
  - by exists m', ws, d.
  - unfold total, taken. cbn [threads shared]. rewrite Hsum. lia.
Qed.

Lemma worker_progress m ws s d i p p' s' :
  pool_inv m ws s d → ws !! i = Some p → step (Z.of_nat (S i)) p s = Some (Ok (p', s')) →
  (worker_rank p + 10 * taken ws s < worker_rank p' + 10 * taken (<[i := p']> ws) s' ∨
   worker_rank p + 10 * taken ws s = worker_rank p' + 10 * taken (<[i := p']> ws) s' ∧ progress (Conf (m :: <[i := p']> ws) s')) →
  progress (Conf (m :: ws) s).
Proof.
  intros HI Hi Hs Hor. destruct (worker_step m ws s d i p _ HI Hi Hs) as (p1 & s1 & d' & [= <- <-] & HI').
  assert (runs_step step (Conf (m :: ws) s) (Conf (m :: <[i:=p']> ws) s')) as Hst.
  { exact (do_step step (Conf (m :: ws) s) (S i) p p' s' Hi Hs). }
  assert (total (Conf (m :: <[i:=p']> ws) s') = total (Conf (m :: ws) s) - worker_rank p - 10 * taken ws s + worker_rank p' +
    10 * taken (<[i := p']> ws) s') as Ht.
  { unfold total. cbn [threads shared]. rewrite (sumZ_update _ _ _ _ _ Hi). lia. }
  destruct Hor as [Hlt|[Heq (c' & Hr & HI2 & Hlt)]].
  - exists (Conf (m :: <[i:=p']> ws) s'). split; [by apply rtc_once|]. split; [by exists m, (<[i:=p']> ws), d'|lia].
  - exists c'. split; [by eapply rtc_l|]. split; [done|lia].
Qed.

Lemma taken_update ws s s' i p p' :
  ws !! i = Some p → taken (<[i := p']> ws) s' = taken ws s + taskSum s - taskSum s' + b2z (taking p) - b2z (taking p').
Proof. intros Hi. unfold taken. rewrite (tcount_update _ _ _ _ _ Hi). unfold b2z. lia. Qed.

(** A thread that is not looking for a task, is not blocked and has not ended
    makes progress. *)
Lemma worker_moves m ws s d i p :
  pool_inv m ws s d → ws !! i = Some p →
  match p with TestFront | TestRear _ | Empty | Exited => False | Lock => sem_mutex s = 1 | _ => True end →
  progress (Conf (m :: ws) s).
Proof.
  intros HI Hi Hp. assert (∃ r, step (Z.of_nat (S i)) p s = Some r) as [r Hr].
  { pose proof (v_workers _ _ _ _ HI i p Hi) as Hw. destruct p; try done; cbn; unfold sem_wait, sem_post; eauto. rewrite Hp. cbn. eauto. }
  destruct (worker_step m ws s d i p r HI Hi Hr) as (p' & s' & d' & -> & _).
  eapply worker_progress; [exact HI|exact Hi|exact Hr|left]. rewrite (taken_update _ s _ _ _ _ Hi).
  pose proof (v_workers _ _ _ _ HI i p Hi) as Hw. pose proof (v_sum _ _ _ _ HI) as Hsum.
  assert (locked p = true → count taking ws = b2z (taking p)) as Hcnt.
  { intros Hl. apply (count_other taking ws i p Hi). intros j u Hji Hj. destruct (taking u) eqn:E; [|done]. destruct Hji.
    symmetry. apply (locked_unique m ws s d i j p u HI); try done. by destruct u. }
  clear HI Hi. destruct p; try done; cbn [pool_step addTask join_threads executeTask taskFunction worker_ok] in *; unfold sem_wait, sem_post in Hr.
  all: repeat case_match; simplify_eq.
  all: repeat match goal with
       | H : _ ≫= _ = Ok _ |- _ => let x := fresh "x" in let E := fresh "E" in apply bind_Ok in H as (x & E & H)
       | H : Ok _ = Ok _ |- _ => progress simplify_eq
       | H : cint _ = Ok _ |- _ => apply cint_inv in H as ->
       end; cbn in *; unfold b2z in *; try lia.
Qed.


Definition looking (p : pc) : bool := match p with TestFront | TestRear _ | Empty => true | _ => false end.

Lemma looking_sum m ws s d i p : pool_inv m ws s d → ws !! i = Some p → looking p = true → taskSum s = k - d.
Proof.
  intros HI Hi Hp. pose proof (v_sum _ _ _ _ HI) as Hsum. rewrite (count_other taking ws i p Hi) in Hsum.
  - destruct p; try done; cbn in Hsum; lia.
  - intros j u Hji Hj. destruct (taking u) eqn:E; [|done]. destruct Hji. symmetry.
    apply (locked_unique m ws s d i j p u HI); try done; [by destruct p|by destruct u].
Qed.

(** A step of looking for a task. *)
Lemma look_step m ws s d i p p' s' :
  pool_inv m ws s d → ws !! i = Some p → looking p = true → looking p' = true →
  step (Z.of_nat (S i)) p s = Some (Ok (p', s')) → taskSum s' = taskSum s →
  (pool_inv m (<[i := p']> ws) s' d → <[i := p']> ws !! i = Some p' → progress (Conf (m :: <[i := p']> ws) s')) →
  progress (Conf (m :: ws) s).
Proof.
  intros HI Hi Hp Hp' Hs Hsum Hgo. assert (taking p = false ∧ taking p' = false ∧ worker_rank p = 4 ∧ worker_rank p' = 4) as (T1 & T2 & R1 & R2).
  { by destruct p, p'. }
  eapply (worker_progress m ws s d i p p'); [done|done|exact Hs|right].
  rewrite (taken_update _ s _ _ _ _ Hi), T1, T2, R1, R2, Hsum. split; [lia|].
  destruct (worker_step m ws s d i _ _ HI Hi Hs) as (p1 & s1 & d' & [= <- <-] & HI').
  assert (d' = d) as ->; [|apply Hgo; [done|by eapply lookup_updated]].
  pose proof (v_sum _ _ _ _ HI) as S1. pose proof (v_sum _ _ _ _ HI') as S2.
  rewrite (tcount_update _ _ _ _ _ Hi), T1, T2 in S2. lia.
Qed.

Lemma empty_moves m ws s d i :
  pool_inv m ws s d → ws !! i = Some Empty → d = k → progress (Conf (m :: ws) s).
Proof.
  intros HI Hi Hd. pose proof (looking_sum _ _ _ _ _ _ HI Hi eq_refl) as Hsum.
  eapply (worker_progress m ws s d i Empty ExitPost); [done|done| |left].
  - cbn. by rewrite (proj2 (Z.eqb_eq _ _)) by lia.
  - rewrite (taken_update _ s _ _ _ _ Hi). cbn. lia.
Qed.

Lemma rear_moves m ws s d i f :
  pool_inv m ws s d → ws !! i = Some (TestRear f) → (d < added m ∨ d = k) → progress (Conf (m :: ws) s).
Proof.
  intros HI Hi Hor. pose proof (v_workers _ _ _ _ HI i _ Hi) as Hw. cbn in Hw. pose proof (v_rear _ _ _ _ HI) as Hr.
  pose proof (v_taken _ _ _ _ HI) as Htk. pose proof (v_added _ _ _ _ HI) as Had. pose proof (v_room _ _ _ _ HI) as Hrm.
  assert (0 ≤ room m) as Hr0 by (destruct m; cbn; lia).
  destruct (Z.eqb_spec f (rear s)) as [E|E].
  - assert (d = added m) as Hda by (apply (mod_near_inj q); [lia..|congruence]).
    eapply (look_step m ws s d i (TestRear f) Empty s); try done; [cbn; by rewrite E, Z.eqb_refl|].
    intros HI' Hi'. eapply empty_moves; [done|done|lia].
  - eapply (worker_progress m ws s d i (TestRear f) LoadSum); [done|done|cbn; by rewrite (proj2 (Z.eqb_neq f _))|left].
    rewrite (taken_update _ s _ _ _ _ Hi). cbn. lia.
Qed.

Lemma front_moves m ws s d i :
  pool_inv m ws s d → ws !! i = Some TestFront → (d < added m ∨ d = k) → progress (Conf (m :: ws) s).
Proof.
  intros HI Hi Hor. eapply (look_step m ws s d i TestFront (TestRear (front s)) s); try done. intros HI' Hi'. by eapply rear_moves.
Qed.

(** The thread that looks for a task under the mutex finds one, or learns that
    there will be none. *)
Lemma looking_moves m ws s d i p :
  pool_inv m ws s d → ws !! i = Some p → (d < added m ∨ d = k) → looking p = true → progress (Conf (m :: ws) s).
Proof.
  intros HI Hi Hor Hp. destruct p; try done; [by eapply front_moves|by eapply rear_moves|].
  destruct (decide (d = k)) as [|Hd]; [by eapply empty_moves|]. pose proof (looking_sum _ _ _ _ _ _ HI Hi eq_refl) as Hsum.
  apply (look_step m ws s d i Empty TestFront (print [WaitsForTask (Z.of_nat (S i))] s)); try done.
  - cbn [pool_step addTask join_threads executeTask taskFunction]. by rewrite (proj2 (Z.eqb_neq _ _)) by lia.
  - intros HI' Hi'. by eapply front_moves.
Qed.

(** [main] can add a task when the queue is empty. *)
Lemma main_moves m ws s d :
  pool_inv m ws s d → d = added m → d < k → progress (Conf (m :: ws) s).
Proof.
  intros HI Hd Hlt. pose proof (v_main _ _ _ _ HI) as Hm. pose proof (v_front _ _ _ _ HI) as Hf. pose proof (v_rear _ _ _ _ HI) as Hr.
  destruct m as [i|i|i|i| | | | | | | | | | | | | | |]; try done; cbn [added] in *; try lia.
  - apply (main_progress (AddTest i) (AddStore i) ws s s d HI); [|cbn; lia]. cbn. rewrite Hf, Hr, Hd.
    replace (i mod q + q + 1 - i mod q) with (1 + 1 * q) by lia. rewrite Z.rem_mod_nonneg by lia. rewrite Z.mod_add, Z.mod_small by lia. done.
  - pose proof (mod_range i). pose proof (v_tasks _ _ _ _ HI).
    eapply (main_progress (AddStore i) (AddRear i) ws s _ d HI); [|cbn; lia]. cbn. rewrite Hr, aset_Ok by lia. cbn. done.
  - eapply (main_progress (AddRear i) _ ws s _ d HI); [done|]. cbn in Hm |- *. unfold add_next, join_next.
    destruct (Z.ltb_spec (i + 1) k); [cbn; lia|]. rewrite (proj2 (Z.leb_le 1 n)) by lia. cbn. lia.
Qed.

(** [main] can join when all threads have ended. *)
Lemma join_moves m ws s d :
  pool_inv m ws s d → (∀ i p, ws !! i = Some p → p = Exited) → m = MainDone ∨ progress (Conf (m :: ws) s).
Proof.
  intros HI Hex. destruct (all_exited _ _ _ _ HI Hex) as [-> _]. pose proof (v_main _ _ _ _ HI) as Hm.
  pose proof (v_taken _ _ _ _ HI) as Htk. pose proof (v_len _ _ _ _ HI) as Hlen.
  destruct m as [i|i|i|i| | | | | | | | | | | | | | |]; try done; cbn [main_ok added] in *; try lia; [right|by left].
  destruct Hm as [Hi _]. destruct (aget_in_range ws (i - 1)) as (p & _ & Hp); [lia|].
  pose proof (v_ended _ _ _ _ HI _ _ Hp) as He. rewrite (Hex _ _ Hp), bool_decide_eq_true_2 in He by done.
  replace (Z.of_nat (S (Z.to_nat (i - 1)))) with i in He by lia.
  destruct (decide (n ≤ i)) as [Hni|Hni].
  - eapply (main_progress (Join i) MainDone ws s _ k HI); [|cbn; lia]. cbn [pool_step addTask join_threads executeTask taskFunction]. rewrite decide_True by done.
    by rewrite (proj2 (Z.leb_le n i)) by lia.
  - eapply (main_progress (Join i) (Join (i + 1)) ws s s k HI); [|cbn; lia]. cbn [pool_step addTask join_threads executeTask taskFunction]. rewrite decide_True by done.
    rewrite (proj2 (Z.leb_gt n i)) by lia. unfold join_next. by rewrite (proj2 (Z.leb_le _ _)) by lia.
Qed.

Definition pool_final (c : conf pc Threadpools) : Prop :=
  ∃ ws, threads c = MainDone :: ws ∧ ∀ i p, ws !! i = Some p → p = Exited.

Lemma exists_or {T} (b : T → bool) (ts : list T) :
  (∃ i t, ts !! i = Some t ∧ b t = true) ∨ ∀ i t, ts !! i = Some t → b t = false.
Proof.
  destruct (decide (Exists (λ t, b t = true) ts)) as [(t & [i Hi]%list_elem_of_lookup & Ht)%Exists_exists|Hno]; [left; eauto|].
  right. intros i t Hi. destruct (b t) eqn:E; [|done]. destruct Hno. apply Exists_exists. exists t. split; [|done].
  by eapply list_elem_of_lookup_2.
Qed.

Lemma final_or_progress c : conf_inv c → pool_final c ∨ progress c.
Proof.
  destruct c as [ts s]. intros (m & ws & d & Hts & HI). cbn [threads shared] in *. subst ts.
  pose proof (v_taken _ _ _ _ HI) as Htk. pose proof (v_added _ _ _ _ HI) as Had. pose proof (v_sem _ _ _ _ HI) as [Hs0 Hs1].
  destruct (decide (d = added m ∧ d < k)) as [[Hd Hlt]|Hor]; [right; by eapply main_moves|].
  assert (d < added m ∨ d = k) as Hor' by lia.
  destruct (exists_or looking ws) as [(i & p & Hi & Hp)|Hnl]; [right; by eapply looking_moves|].
  destruct (exists_or (λ p, match p with Lock | Exited => false | _ => true end) ws) as [(i & p & Hi & Hp)|Hnb].
  { right. eapply worker_moves; [done|done|]. specialize (Hnl i p Hi). by destruct p. }
  assert (sem_mutex s = 1) as Hsem.
  { rewrite tcount_zero in Hs1; [lia|]. intros p [i Hi]%list_elem_of_lookup. specialize (Hnb i p Hi). by destruct p. }
  destruct (exists_or (λ p, bool_decide (p = Lock)) ws) as [(i & p & Hi & ->%bool_decide_eq_true)|Hnk].
  { right. by eapply worker_moves. }
  assert (∀ i p, ws !! i = Some p → p = Exited) as Hex.
  { intros i p Hi. specialize (Hnb i p Hi). specialize (Hnk i p Hi). apply bool_decide_eq_false in Hnk. by destruct p. }
  destruct (join_moves m ws s d HI Hex) as [->|]; [left; by exists ws|by right].
Qed.

Lemma pool_total_bound c : conf_inv c → 0 ≤ total c ≤ 3 * k + n + 1 + 10 * k + n * 11.
Proof.
  destruct c as [ts s]. intros (m & ws & d & Hts & HI). cbn [threads shared] in *. subst ts. unfold total, taken. cbn [threads shared].
  rewrite (v_sum _ _ _ _ HI). pose proof (v_taken _ _ _ _ HI) as Htk. pose proof (v_added _ _ _ _ HI) as Had.
  assert (∀ p, 0 ≤ worker_rank p ≤ 11) as Hb by (by intros []).
  assert (0 ≤ sumZ (worker_rank <$> ws)) by (apply sumZ_nonneg, Forall_fmap, Forall_forall; intros p _; apply Hb).
  assert (sumZ (worker_rank <$> ws) ≤ n * 11).
  { rewrite <-(v_len _ _ _ _ HI). apply sumZ_bound. intros p _. apply Hb. }
  assert (0 ≤ main_rank m ≤ 3 * k + n + 1); [|lia].
  pose proof (v_main _ _ _ _ HI) as Hm. destruct m; try done; cbn in *; lia.
Qed.

Lemma can_finish c : conf_inv c → ∃ c', rtc (runs_step step) c c' ∧ conf_inv c' ∧ pool_final c'.
Proof.
  apply (runs_progress step conf_inv pool_final (λ c, Z.to_nat (total c)) (Z.to_nat (3 * k + n + 1 + 10 * k + n * 11))).
  - intros c0 HI0. destruct (final_or_progress c0 HI0) as [|(c' & Hr & HI' & Hlt)]; [by left|right].
    exists c'. split; [done|]. split; [done|]. pose proof (pool_total_bound c0 HI0). lia.
  - intros c0 HI0. pose proof (pool_total_bound c0 HI0). lia.
Qed.
End invariant.

(** ** What the program does *)

(** [C26] With the mutex, for every number of threads and tasks and every size of
    the queue from 2 on, in every interleaving: no access leaves an array, no
    slot is read before it is written and no counter overflows; the indices of
    the queue stay inside it, every task is executed at most once and no other
    is, and when [main] says that all have been finished, each has been
    executed exactly once. *)
Theorem pool_executes_once n q k c :
  1 ≤ n → 2 ≤ q ≤ 2 ^ 20 → 0 ≤ k ≤ 2 ^ 20 → rtc (runs_step (pool_step n q k true)) (pool_start n q k) c →
  ¬ may_fault (pool_step n q k true) c ∧ 0 ≤ front (shared c) < q ∧ 0 ≤ rear (shared c) < q ∧
  (∀ x, 0 ≤ finished x (printed (shared c)) ≤ if decide (0 ≤ x < k) then 1 else 0) ∧
  (AllFinished ∈ printed (shared c) → ∀ x, 0 ≤ x < k → finished x (printed (shared c)) = 1).
Proof.
  intros Hn Hq Hk Hr. pose proof (conf_reach n q k Hn Hq Hk _ _ (pool_start_inv n q k Hn Hq Hk) Hr) as HI. split.
  { destruct c as [ts s]. intros (i & p & e & Hi & Hs). by destruct (conf_step n q k Hn Hq Hk ts s i p _ HI Hi Hs) as (? & ? & ? & _). }
  destruct c as [ts s]. destruct HI as (m & ws & d & Hts & HI). cbn [shared threads] in *. subst ts.
  rewrite (v_front _ _ _ _ _ _ _ HI), (v_rear _ _ _ _ _ _ _ HI). split; [by apply mod_range|]. split; [by apply mod_range|]. split.
  - intros x. split; [apply count_nonneg|]. pose proof (v_done _ _ _ _ _ _ _ HI x). pose proof (count_nonneg (holds x) ws).
    pose proof (v_taken _ _ _ _ _ _ _ HI). pose proof (v_added _ _ _ _ _ _ _ HI). repeat case_decide; lia.
  - intros ->%(v_all _ _ _ _ _ _ _ HI). by eapply all_exited, main_done_exited.
Qed.

(** [C27] With the mutex the pool never deadlocks: from every state it can reach,
    it can go on until all threads of the pool have exited, [main] has joined
    them and every task has been executed exactly once. *)
Theorem pool_completes n q k c :
  1 ≤ n → 2 ≤ q ≤ 2 ^ 20 → 0 ≤ k ≤ 2 ^ 20 → rtc (runs_step (pool_step n q k true)) (pool_start n q k) c →
  ∃ c', rtc (runs_step (pool_step n q k true)) c c' ∧ threads c' = MainDone :: replicate (Z.to_nat n) Exited ∧
    AllFinished ∈ printed (shared c') ∧ ∀ x, 0 ≤ x < k → finished x (printed (shared c')) = 1.
Proof.
  intros Hn Hq Hk Hr. pose proof (conf_reach n q k Hn Hq Hk _ _ (pool_start_inv n q k Hn Hq Hk) Hr) as HI.
  destruct (can_finish n q k Hn Hq Hk c HI) as (c' & Hr' & (m & ws & d & Hts & HI') & (ws' & Hts' & Hex)).
  exists c'. rewrite Hts in Hts'. injection Hts' as -> <-. split; [done|]. split; [|split].
  - rewrite Hts. f_equal. symmetry. apply replicate_as_Forall. split.
    + pose proof (v_len _ _ _ _ _ _ _ HI'). unfold zlen in *. lia.
    + apply Forall_forall. by intros p [i ->%Hex]%list_elem_of_lookup.
  - by apply (v_all _ _ _ _ _ _ _ HI').
  - by eapply all_exited.
Qed.

Lemma pool_executes_once_witness :
  ∃ c, exec (pool_step 2 3 2 true) ([0; 0; 0] ++ replicate 11 1)%nat (pool_start 2 3 2) = Ok c ∧
    finished 0 (printed (shared c)) = 1 ∧ 0 ≤ finished 1 (printed (shared c)) ≤ 1.
Proof.
  assert (∃ c, exec (pool_step 2 3 2 true) ([0; 0; 0] ++ replicate 11 1)%nat (pool_start 2 3 2) = Ok c) as [c Hc] by (eexists; by vm_compute).
  exists c. split; [exact Hc|]. split; [vm_compute in Hc; by injection Hc as <-|].
  destruct (pool_executes_once 2 3 2 c ltac:(lia) ltac:(lia) ltac:(lia) (exec_runs _ _ _ _ Hc)) as (_ & _ & _ & Hf & _).
  apply (Hf 1).
Defined.

Lemma pool_completes_witness :
  ∃ c', rtc (runs_step (pool_step THREADS_NUM TASK_QUEUE_MAX_SIZE TASK_NUM true)) (pool_start THREADS_NUM TASK_QUEUE_MAX_SIZE TASK_NUM) c' ∧
    AllFinished ∈ printed (shared c').
Proof.
  destruct (pool_completes THREADS_NUM TASK_QUEUE_MAX_SIZE TASK_NUM _ ltac:(done) ltac:(done) ltac:(done) (rtc_refl _ _))
    as (c' & Hr & _ & Ha & _).
  exists c'. split; [exact Hr|exact Ha].
Defined.

(** ** Without the mutex *)

Notation step13 := (pool_step THREADS_NUM TASK_QUEUE_MAX_SIZE TASK_NUM_13 false).

(** Two threads take the first task before either advances [front]; then the
    first thread executes all others. *)
Definition race : list nat :=
  ([0; 0; 0] ++ replicate 7 1 ++ replicate 7 2 ++ replicate 4 1 ++ replicate 4 2 ++
   mjoin (replicate 49 ([0; 0; 0] ++ replicate 11 1)))%nat.

(** [main] waits for a thread that looks for a task that will never come. *)
Definition starved (c : conf pc Threadpools) : Prop :=
  ∃ ws, threads c = Join 1 :: ws ∧ front (shared c) = rear (shared c) ∧ taskSum (shared c) = -1 ∧
    aget (ended (shared c)) 1 = Ok false ∧
    ∀ i p, ws !! i = Some p → p = Lock ∨ p = TestFront ∨ p = TestRear (front (shared c)) ∨ p = Empty.

Lemma starved_forever c c' : starved c → rtc (runs_step step13) c c' → starved c'.
Proof.
  apply runs_invariant. intros ts s i p p' s' (ws & Hts & Hfr & Hsum & Hend & Hws) Hi Hs. cbn [threads shared] in *. subst ts.
  destruct i as [|i]; cbn [lookup list_lookup insert list_insert] in *.
  { injection Hi as <-. cbn [pool_step addTask join_threads executeTask taskFunction] in Hs. rewrite Hend, decide_False in Hs by done. done. }
  assert (front s' = front s ∧ rear s' = rear s ∧ taskSum s' = taskSum s ∧ ended s' = ended s ∧
    (p' = Lock ∨ p' = TestFront ∨ p' = TestRear (front s) ∨ p' = Empty)) as (F & R & T & E & Hp').
  { destruct (Hws i p Hi) as [-> |[-> |[-> | ->]]]; cbn [pool_step addTask join_threads executeTask taskFunction] in Hs.
    - injection Hs as <- <-. naive_solver.
    - injection Hs as <- <-. naive_solver.
    - rewrite Hfr, Z.eqb_refl in Hs. injection Hs as <- <-. naive_solver.
    - rewrite Hsum in Hs. injection Hs as <- <-. cbn. naive_solver. }
  exists (<[i:=p']> ws). cbn [threads shared]. rewrite F, R, T, E. split_and!; try done.
  intros j u [[-> ->]|[_ Hj]]%(lookup_update _ _ _ _ _ _ Hi); [done|by apply (Hws j)].
Qed.

Definition race_ends (c : conf pc Threadpools) : bool :=
  (finished 0 (printed (shared c)) =? 2) && bool_decide (threads c = Join 1 :: replicate 10 Lock) &&
  (front (shared c) =? rear (shared c)) && (taskSum (shared c) =? -1) && bool_decide (aget (ended (shared c)) 1 = Ok false).

Lemma race_end :
  ∃ c, exec step13 race (pool_start THREADS_NUM TASK_QUEUE_MAX_SIZE TASK_NUM_13) = Ok c ∧
    finished 0 (printed (shared c)) = 2 ∧ threads c = Join 1 :: replicate 10 Lock ∧ front (shared c) = rear (shared c) ∧
    taskSum (shared c) = -1 ∧ aget (ended (shared c)) 1 = Ok false.
Proof.
  assert (match exec step13 race (pool_start THREADS_NUM TASK_QUEUE_MAX_SIZE TASK_NUM_13) with Ok c => race_ends c | Err _ => false end = true)
    as He by (vm_compute; reflexivity).
  destruct (exec step13 race _) as [c|]; [|done]. exists c. split; [done|]. unfold race_ends in He.
  rewrite !andb_true_iff, !bool_decide_eq_true, !Z.eqb_eq in He. tauto.
Qed.

(** Without the mutex (Labweek13) two threads can take the same task: a run
    of the program executes task 1 twice and then never ends, since [taskSum]
    has skipped 0 and [main] waits for a thread that waits for a task. *)
Theorem pool_race_breaks :
  ∃ c, rtc (runs_step step13) (pool_start THREADS_NUM TASK_QUEUE_MAX_SIZE TASK_NUM_13) c ∧
    finished 0 (printed (shared c)) = 2 ∧ taskSum (shared c) = -1 ∧
    ∀ c', rtc (runs_step step13) c c' → threads c' !! O = Some (Join 1).
Proof.
  destruct race_end as (c & Hc & H1 & H2 & H3 & H4 & H5).
  apply exec_runs in Hc. exists c. split; [exact Hc|]. split; [exact H1|]. split; [exact H4|]. clear Hc. intros c' Hr.
  destruct (starved_forever c c') as (ws & -> & _); [|exact Hr|reflexivity].
  exists (replicate 10 Lock). split_and!; [exact H2|exact H3|exact H4|exact H5|]. intros i p [-> _]%lookup_replicate. by left.
Qed.
