(* ===== verification/ProdCons.v ===== *)
(** * alg.18-6 to 18-8: producers and consumers with shared memory

    Models src/Labweek15/alg.18-6-syn-pc-con-6.c (the start values),
    alg.18-7-syn-pc-producer-6.c and alg.18-8-syn-pc-consumer-6.c: threads of
    two processes share a circular buffer guarded by three semaphores.  Thread 0
    is [main] of the producers, then come the producers and the consumers;
    [main] of the consumers only joins its threads and is left out.  What is
    only accessed under the mutex ([enqueue], [dequeue] and the buffer) is
    accessed in one step; [item_num], [consume_num] and [END_FLAG], which the
    loop conditions read without it, are read and written in steps of their
    own.  The threads are interleaved in any way. *)

From stdpp Require Import base list numbers relations.
From S2P Require Import Prelude Interleave.

Definition BASE_ADDR : Z := 10.

(** [struct data_pc_st]; [pro_no] is reserved. *)
Record data_pc_st := Data { item_no : Z; pro_tid : Z }.

Inductive event :=
| Prepared (tid no enq : Z)
| Taken (tid no : Z) (tid' : Z) (deq : Z).

#[global] Instance event_eq_dec : EqDecision event.
Proof. solve_decision. Defined.

(** [struct ctln_pc_st], the units of the shared memory (the first [BASE_ADDR]
    hold the structure itself), which threads have ended, the output. *)
Record ctln_pc_st := Ctln {
  sem_mutex : Z;
  stock : Z;
  emptyslot : Z;
  item_num : Z;
  consume_num : Z;
  enqueue : Z;
  dequeue : Z;
  END_FLAG : Z;
  units : list (option data_pc_st);
  ended : list bool;
  printed : list event
}.

Definition set_mutex (v : Z) (s : ctln_pc_st) := Ctln v (stock s) (emptyslot s) (item_num s) (consume_num s) (enqueue s) (dequeue s) (END_FLAG s) (units s) (ended s) (printed s).
Definition set_stock (v : Z) (s : ctln_pc_st) := Ctln (sem_mutex s) v (emptyslot s) (item_num s) (consume_num s) (enqueue s) (dequeue s) (END_FLAG s) (units s) (ended s) (printed s).
Definition set_emptyslot (v : Z) (s : ctln_pc_st) := Ctln (sem_mutex s) (stock s) v (item_num s) (consume_num s) (enqueue s) (dequeue s) (END_FLAG s) (units s) (ended s) (printed s).
Definition set_item_num (v : Z) (s : ctln_pc_st) := Ctln (sem_mutex s) (stock s) (emptyslot s) v (consume_num s) (enqueue s) (dequeue s) (END_FLAG s) (units s) (ended s) (printed s).
Definition set_consume_num (v : Z) (s : ctln_pc_st) := Ctln (sem_mutex s) (stock s) (emptyslot s) (item_num s) v (enqueue s) (dequeue s) (END_FLAG s) (units s) (ended s) (printed s).
Definition set_END_FLAG (v : Z) (s : ctln_pc_st) := Ctln (sem_mutex s) (stock s) (emptyslot s) (item_num s) (consume_num s) (enqueue s) (dequeue s) v (units s) (ended s) (printed s).
Definition set_ended (v : list bool) (s : ctln_pc_st) := Ctln (sem_mutex s) (stock s) (emptyslot s) (item_num s) (consume_num s) (enqueue s) (dequeue s) (END_FLAG s) (units s) v (printed s).
Definition put (enq : Z) (u : list (option data_pc_st)) (e : event) (s : ctln_pc_st) :=
  Ctln (sem_mutex s) (stock s) (emptyslot s) (item_num s) (consume_num s) enq (dequeue s) (END_FLAG s) u (ended s) (printed s ++ [e]).
Definition take (deq : Z) (e : event) (s : ctln_pc_st) :=
  Ctln (sem_mutex s) (stock s) (emptyslot s) (item_num s) (consume_num s) (enqueue s) deq (END_FLAG s) (units s) (ended s) (printed s ++ [e]).

Inductive pc :=
(* main of the producers *)
| Join (i : Z)
| Post (i : Z)                    (* the loop that wakes the consumers *)
| MainDone
(* producer *)
| PTest                           (* while (item_num < MAX_ITEM_NUM) *)
| PWaitEmpty
| PWaitMutex
| PCheck                          (* if (item_num < MAX_ITEM_NUM) *)
| PInc
| PStore
| PFlag
| PPostStock
| PBack
| PPostMutex
| PExit
| PDone
(* consumer *)
| CTest                           (* the first operand of consume_num < item_num *)
| CTest2 (v : Z)                  (* the second *)
| CFlag                           (* END_FLAG == 0 *)
| CWaitStock
| CWaitMutex
| CCheck                          (* if (consume_num < item_num) *)
| CTake
| CInc
| CPostEmpty
| CBack
| CPostMutex
| CExit
| CDone.

#[global] Instance pc_eq_dec : EqDecision pc.
Proof. solve_decision. Defined.

Section prodcons.
(** BUFFER_SIZE, MAX_ITEM_NUM, THREAD_PRO and THREAD_CONS; C leaves open which
    operand of the comparison in the consumer's loop is read first. *)
Variables (B M P C : Z) (item_first : bool).

Definition sem_wait (v : Z) (go : pc * ctln_pc_st) : option (outcome (pc * ctln_pc_st)) :=
  if 0 <? v then Some (Ok go) else None.

Definition join_next (i : Z) : pc := if i <=? P then Join i else if 0 <? C - 1 then Post 0 else MainDone.

Definition exit (tid : Z) (p : pc) (s : ctln_pc_st) : option (outcome (pc * ctln_pc_st)) :=
  Some (e ← aset (ended s) tid true; Ok (p, set_ended e s)).

(** The joins and the last loop of [main] of the producers. *)
Definition producer_main (p : pc) (s : ctln_pc_st) : option (outcome (pc * ctln_pc_st)) :=
  match p with
  | Join i => if decide (aget (ended s) i = Ok true) then Some (Ok (join_next (i + 1), s)) else None
  | Post i => Some (v ← cint (stock s + 1); Ok (if i + 1 <? C - 1 then Post (i + 1) else MainDone, set_stock v s))
  | _ => None
  end.

Definition producer (tid : Z) (p : pc) (s : ctln_pc_st) : option (outcome (pc * ctln_pc_st)) :=
  match p with
  | PTest => Some (Ok (if item_num s <? M then PWaitEmpty else PExit, s))
  | PWaitEmpty => sem_wait (emptyslot s) (PWaitMutex, set_emptyslot (emptyslot s - 1) s)
  | PWaitMutex => sem_wait (sem_mutex s) (PCheck, set_mutex (sem_mutex s - 1) s)
  | PCheck => Some (Ok (if item_num s <? M then PInc else PBack, s))
  | PInc => Some (v ← cint (item_num s + 1); Ok (PStore, set_item_num v s))
  | PStore =>
      let enq := Z.rem (enqueue s + 1) B in
      Some (u ← aset (units s) (enq + BASE_ADDR) (Some (Data (item_num s) tid));
            Ok (if item_num s =? M then PFlag else PPostStock, put enq u (Prepared tid (item_num s) enq) s))
  | PFlag => Some (Ok (PPostStock, set_END_FLAG 1 s))
  | PPostStock => Some (v ← cint (stock s + 1); Ok (PPostMutex, set_stock v s))
  | PBack => Some (v ← cint (emptyslot s + 1); Ok (PPostMutex, set_emptyslot v s))
  | PPostMutex => Some (v ← cint (sem_mutex s + 1); Ok (PTest, set_mutex v s))
  | PExit => exit tid PDone s
  | _ => None
  end.

Definition consumer (tid : Z) (p : pc) (s : ctln_pc_st) : option (outcome (pc * ctln_pc_st)) :=
  match p with
  | CTest => Some (Ok (CTest2 (if item_first then item_num s else consume_num s), s))
  | CTest2 v => Some (Ok (if (if item_first then consume_num s <? v else v <? item_num s) then CWaitStock else CFlag, s))
  | CFlag => Some (Ok (if END_FLAG s =? 0 then CWaitStock else CExit, s))
  | CWaitStock => sem_wait (stock s) (CWaitMutex, set_stock (stock s - 1) s)
  | CWaitMutex => sem_wait (sem_mutex s) (CCheck, set_mutex (sem_mutex s - 1) s)
  | CCheck => Some (Ok (if consume_num s <? item_num s then CTake else CBack, s))
  | CTake =>
      let deq := Z.rem (dequeue s + 1) B in
      Some (x ← aget (units s) (deq + BASE_ADDR); d ← of_option x;
            Ok (CInc, take deq (Taken tid (item_no d) (pro_tid d) deq) s))
  | CInc => Some (v ← cint (consume_num s + 1); Ok (CPostEmpty, set_consume_num v s))
  | CPostEmpty => Some (v ← cint (emptyslot s + 1); Ok (CPostMutex, set_emptyslot v s))
  | CBack => Some (v ← cint (stock s + 1); Ok (CPostMutex, set_stock v s))
  | CPostMutex => Some (v ← cint (sem_mutex s + 1); Ok (CTest, set_mutex v s))
  | CExit => exit tid CDone s
  | _ => None
  end.

Definition pc_step (tid : Z) (p : pc) (s : ctln_pc_st) : option (outcome (pc * ctln_pc_st)) :=
  match p with
  | Join _ | Post _ | MainDone => producer_main p s
  | PTest | PWaitEmpty | PWaitMutex | PCheck | PInc | PStore | PFlag | PPostStock | PBack | PPostMutex | PExit | PDone =>
      producer tid p s
  | _ => consumer tid p s
  end.

(** After the initialisation in [main] of alg.18-6, both programs started. *)
Definition pc_start : conf pc ctln_pc_st :=
  Conf (Join 1 :: replicate (Z.to_nat P) PTest ++ replicate (Z.to_nat C) CTest)
    (Ctln 1 0 B 0 0 0 0 0 (replicate (Z.to_nat (B + BASE_ADDR)) None) (replicate (Z.to_nat (1 + P + C)) false) []).
End prodcons.
