(* ===== verification/ProdConsProps.v ===== *)
(** * The bounded buffer is first-in first-out, and may lose an item

    Properties of ProdCons.v: the items are taken in the order in which they are
    prepared, none twice, and the buffer never overflows; but the loop
    condition of the consumers, read without the mutex, can make them leave
    before the last item, which then stays in the buffer. *)

From stdpp Require Import base list numbers relations.
From S2P Require Import Prelude Interleave ProdCons.

Section invariant.
Context (B M P C : Z) (item_first : bool).
Context (HB : 1 ≤ B ≤ 10000) (HM : 1 ≤ M ≤ 10000) (HP : 1 ≤ P ≤ 10000) (HC : 1 ≤ C ≤ 10000).

Notation step := (pc_step B M P C item_first).

(** The thread holds the mutex. *)
Definition inside (p : pc) : bool :=
  match p with
  | PCheck | PInc | PStore | PFlag | PPostStock | PBack | PPostMutex
  | CCheck | CTake | CInc | CPostEmpty | CBack | CPostMutex => true
  | _ => false
  end.

(** It has a unit of [emptyslot]. *)
Definition has_slot (p : pc) : bool :=
  match p with PWaitMutex | PCheck | PInc | PBack | CPostEmpty => true | _ => false end.

(** It has a unit of [stock]: taken by a consumer or not yet posted. *)
Definition has_stock (p : pc) : bool :=
  match p with CWaitMutex | CCheck | CTake | CInc | CBack | PStore | PFlag | PPostStock => true | _ => false end.

(** It has counted an item that it has not stored. *)
Definition storing (p : pc) : bool := match p with PStore => true | _ => false end.

(** It has taken an item that it has not counted. *)
Definition counting (p : pc) : bool := match p with CInc => true | _ => false end.

(** The units of [stock] that [main] has added at the end. *)
Definition posted (p : pc) : Z := match p with Post i => i | MainDone => C - 1 | _ => 0 end.

Definition pc_ok (s : ctln_pc_st) (p : pc) : Prop :=
  match p with
  | Post i => 0 ≤ i < C - 1
  | PInc => item_num s < M
  | CTake | CInc => consume_num s < item_num s
  | _ => True
  end.

(** The numbers of the items, in the order in which they were prepared and in
    which they were taken. *)
Definition prepared (out : list event) : list Z := omap (λ e, match e with Prepared _ no _ => Some no | _ => None end) out.
Definition takens (out : list event) : list Z := omap (λ e, match e with Taken _ no _ _ => Some no | _ => None end) out.

(** The items that are in the buffer or have been. *)
Definition stored (ts : list pc) (s : ctln_pc_st) : Z := item_num s - count storing ts.
Definition taken (ts : list pc) (s : ctln_pc_st) : Z := consume_num s + count counting ts.

Record pc_inv (ts : list pc) (s : ctln_pc_st) : Prop := {
  b_mutex : 0 ≤ sem_mutex s ∧ sem_mutex s + count inside ts = 1;
  b_slots : 0 ≤ emptyslot s ∧ emptyslot s + count has_slot ts + (item_num s - consume_num s) = B;
  b_stock : 0 ≤ stock s ∧ stock s + count has_stock ts = item_num s - consume_num s + sumZ (posted <$> ts);
  b_items : 0 ≤ consume_num s ≤ item_num s ∧ item_num s ≤ M;
  b_order : taken ts s ≤ stored ts s;
  b_enqueue : enqueue s = stored ts s mod B;
  b_dequeue : dequeue s = taken ts s mod B;
  b_pc : ∀ i p, ts !! i = Some p → pc_ok s p;
  b_len : zlen (units s) = B + BASE_ADDR;
  b_units : ∀ c, taken ts s < c ≤ stored ts s → ∃ t, aget (units s) (c mod B + BASE_ADDR) = Ok (Some (Data c t));
  b_threads : zlen ts = 1 + P + C;
  b_ended : zlen (ended s) = 1 + P + C;
  b_prepared : prepared (printed s) = seqZ 1 (stored ts s);
  b_taken : takens (printed s) = seqZ 1 (taken ts s)
}.

Lemma inside_unique ts s i j p q :
  pc_inv ts s → ts !! i = Some p → ts !! j = Some q → inside p = true → inside q = true → i = j.
Proof. intros HI Hi Hj Hp Hq. apply (count_two inside ts i j p q); try done. destruct (b_mutex _ _ HI). lia. Qed.

(** In the critical section the other threads are outside of it. *)
Lemma count_inside ts s i p (b : pc → bool) :
  pc_inv ts s → ts !! i = Some p → inside p = true → (∀ q, b q = true → inside q = true) → count b ts = if b p then 1 else 0.
Proof.
  intros HI Hi Hp Hb. apply (count_other b ts i p Hi). intros j q Hji Hj. destruct (b q) eqn:E; [|done]. destruct Hji.
  symmetry. apply (inside_unique ts s i j p q HI Hi Hj Hp). by apply Hb.
Qed.

Lemma posted_bound ts s : pc_inv ts s → 0 ≤ sumZ (posted <$> ts) ≤ 20001 * 10000.
Proof.
  intros HI. assert (∀ p, p ∈ ts → 0 ≤ posted p ≤ 10000) as Hb.
  { intros p [i Hi]%list_elem_of_lookup. pose proof (b_pc _ _ HI i p Hi) as Hok. destruct p; cbn in *; lia. }
  split; [apply sumZ_nonneg, Forall_fmap, Forall_forall; intros p Hp; by apply Hb|].
  etrans; [apply sumZ_bound; intros p Hp; by apply Hb|]. rewrite (b_threads _ _ HI). lia.
Qed.

Lemma stock_bound ts s : pc_inv ts s → 0 ≤ stock s ≤ 20002 * 10000.
Proof.
  intros HI. pose proof (posted_bound ts s HI). destruct (b_stock _ _ HI), (b_items _ _ HI). pose proof (count_nonneg has_stock ts). lia.
Qed.

Lemma slot_bound ts s : pc_inv ts s → 0 ≤ emptyslot s ≤ B.
Proof. intros HI. destruct (b_slots _ _ HI), (b_items _ _ HI). pose proof (count_nonneg has_slot ts). lia. Qed.

Lemma storing_inside p : storing p = true → inside p = true.
Proof. by destruct p. Qed.

Lemma counting_inside p : counting p = true → inside p = true.
Proof. by destruct p. Qed.

(** A step that moves no item. *)
Lemma idle_step ts s i p p' s' :
  pc_inv ts s → ts !! i = Some p → storing p = false → counting p = false → counting p' = false → storing p' = false →
  item_num s' = item_num s → consume_num s' = consume_num s → enqueue s' = enqueue s → dequeue s' = dequeue s →
  units s' = units s → printed s' = printed s → zlen (ended s') = zlen (ended s) → pc_ok s p' →
  (0 ≤ sem_mutex s' ∧ sem_mutex s' = sem_mutex s + (if inside p then 1 else 0) - (if inside p' then 1 else 0)) →
  (0 ≤ emptyslot s' ∧ emptyslot s' = emptyslot s + (if has_slot p then 1 else 0) - (if has_slot p' then 1 else 0)) →
  (0 ≤ stock s' ∧ stock s' = stock s + (if has_stock p then 1 else 0) - (if has_stock p' then 1 else 0) + posted p' - posted p) →
  pc_inv (<[i := p']> ts) s'.
Proof.
  intros HI Hi S1 S2 S3 S4 E1 E2 E3 E4 E5 E6 E7 Hok [M1 M2] [L1 L2] [T1 T2].
  assert (stored (<[i:=p']> ts) s' = stored ts s) as Est by (unfold stored; rewrite (tcount_update _ _ _ _ _ Hi), E1, S1, S4; lia).
  assert (taken (<[i:=p']> ts) s' = taken ts s) as Etk by (unfold taken; rewrite (tcount_update _ _ _ _ _ Hi), E2, S2, S3; lia).
  destruct HI. split; rewrite ?Est, ?Etk, ?E1, ?E2, ?E3, ?E4, ?E5, ?E6, ?E7; try done.
  - rewrite (tcount_update _ _ _ _ _ Hi). lia.
  - rewrite (tcount_update _ _ _ _ _ Hi). lia.
  - rewrite (tcount_update _ _ _ _ _ Hi), (sumZ_update _ _ _ _ _ Hi). lia.
  - intros j q Hj. assert (pc_ok s q) as Hq; [|destruct q; cbn in *; rewrite ?E1, ?E2; done].
    apply (lookup_update _ _ _ _ _ _ Hi) in Hj as [[-> ->]|[_ Hj]]; [done|by eapply b_pc0].
  - by rewrite zlen_insert.
Qed.

(** ** The steps that move an item *)

Lemma seqZ_snoc n : 0 ≤ n → seqZ 1 (n + 1) = seqZ 1 n ++ [n + 1].
Proof. intros Hn. rewrite seqZ_app by lia. f_equal. rewrite seqZ_cons by lia. cbn. by rewrite (Z.add_comm 1 n). Qed.

Lemma inc_step ts s i :
  pc_inv ts s → ts !! i = Some PInc → pc_inv (<[i := PStore]> ts) (set_item_num (item_num s + 1) s).
Proof.
  intros HI Hi. pose proof (b_pc _ _ HI i _ Hi) as Hok. cbn in Hok.
  assert (1 ≤ count has_slot ts) as Hslot.
  { pose proof (count_lt (λ _, false) has_slot ts i PInc ltac:(done) Hi eq_refl eq_refl) as H. rewrite (tcount_zero (λ _, false)) in H by done. lia. }
  assert (stored (<[i:=PStore]> ts) (set_item_num (item_num s + 1) s) = stored ts s) as Est
    by (unfold stored; rewrite (tcount_update _ _ _ _ _ Hi); cbn; lia).
  assert (taken (<[i:=PStore]> ts) (set_item_num (item_num s + 1) s) = taken ts s) as Etk
    by (unfold taken; rewrite (tcount_update _ _ _ _ _ Hi); cbn; lia).
  assert (∀ j q, ts !! j = Some q → j ≠ i → inside q = false) as Hout.
  { intros j q Hj Hji. destruct (inside q) eqn:E; [|done]. destruct Hji. by apply (inside_unique ts s j i q PInc HI). }
  destruct HI. split; rewrite ?Est, ?Etk; cbn [set_item_num sem_mutex emptyslot stock item_num consume_num enqueue dequeue units ended printed]; try done.
  - rewrite (tcount_update _ _ _ _ _ Hi). cbn. lia.
  - rewrite (tcount_update _ _ _ _ _ Hi). cbn. lia.
  - rewrite (tcount_update _ _ _ _ _ Hi), (sumZ_update _ _ _ _ _ Hi). cbn. lia.
  - lia.
  - intros j q [[-> ->]|[Hji Hj]]%(lookup_update _ _ _ _ _ _ Hi); [done|].
    pose proof (Hout j q Hj Hji). pose proof (b_pc0 j q Hj). by destruct q.
  - by rewrite zlen_insert.
Qed.

Lemma store_step ts s i p' tid :
  pc_inv ts s → ts !! i = Some PStore → (p' = PFlag ∨ p' = PPostStock) →
  let enq := Z.rem (enqueue s + 1) B in
  ∃ u, aset (units s) (enq + BASE_ADDR) (Some (Data (item_num s) tid)) = Ok u ∧
    pc_inv (<[i := p']> ts) (put enq u (Prepared tid (item_num s) enq) s).
Proof.
  intros HI Hi Hp' enq. assert (count storing ts = 1) as Hst by (by rewrite (count_inside ts s i PStore storing HI Hi eq_refl storing_inside)).
  assert (count counting ts = 0) as Hct by (by rewrite (count_inside ts s i PStore counting HI Hi eq_refl counting_inside)).
  assert (storing p' = false ∧ counting p' = false ∧ inside p' = true ∧ has_slot p' = false ∧ has_stock p' = true ∧ posted p' = 0) as (S1 & S2 & S3 & S4 & S5 & S6).
  { by destruct Hp' as [-> | ->]. }
  pose proof (b_enqueue _ _ HI) as Henq. pose proof (b_slots _ _ HI) as [_ Hslots]. pose proof (b_items _ _ HI) as Hitems.
  pose proof (b_order _ _ HI) as Hord. unfold stored, taken in Hord. rewrite Hst, Hct in Hord.
  pose proof (count_nonneg has_slot ts) as Hnn. pose proof (slot_bound ts s HI) as Hsb. pose proof (b_len _ _ HI) as Hlen.
  assert (enq = item_num s mod B) as Hq by (unfold enq; rewrite Henq; unfold stored; rewrite Hst, rem_mod_succ by lia; f_equal; lia).
  pose proof (Z.mod_pos_bound (item_num s) B ltac:(lia)) as Hmod. rewrite aset_Ok by (unfold BASE_ADDR in *; lia).
  eexists. split; [done|].
  assert (∀ u e, stored (<[i:=p']> ts) (put enq u e s) = item_num s) as Est.
  { intros u e. unfold stored. rewrite (tcount_update _ _ _ _ _ Hi), Hst, S1. cbn. lia. }
  assert (∀ u e, taken (<[i:=p']> ts) (put enq u e s) = consume_num s) as Etk.
  { intros u e. unfold taken. rewrite (tcount_update _ _ _ _ _ Hi), Hct, S2. cbn. lia. }
  destruct HI. split; rewrite ?Est, ?Etk; cbn [put sem_mutex emptyslot stock item_num consume_num enqueue dequeue units ended printed]; try done.
  - rewrite (tcount_update _ _ _ _ _ Hi), S3. cbn. lia.
  - rewrite (tcount_update _ _ _ _ _ Hi), S4. cbn. lia.
  - rewrite (tcount_update _ _ _ _ _ Hi), (sumZ_update _ _ _ _ _ Hi), S5, S6. cbn. lia.
  - lia.
  - rewrite b_dequeue0. unfold taken. f_equal. lia.
  - intros j q [[-> ->]|[_ Hj]]%(lookup_update _ _ _ _ _ _ Hi); [by destruct Hp' as [-> | ->]|]. pose proof (b_pc0 j q Hj). by destruct q.
  - by rewrite zlen_insert.
  - intros c Hc. rewrite aget_insert by (unfold BASE_ADDR in *; lia). case_decide as Hce.
    + assert (c mod B = item_num s mod B) as E by lia. apply (mod_near_inj B) in E; [subst; by eexists|lia..].
    + apply b_units0. unfold stored, taken. rewrite Hst, Hct.
      destruct (decide (c = item_num s)) as [->|]; [|lia]. destruct Hce. by rewrite Hq.
  - by rewrite zlen_insert.
  - unfold prepared. rewrite omap_app. fold (prepared (printed s)). rewrite b_prepared0. unfold stored. rewrite Hst. cbn.
    replace (item_num s) with (item_num s - 1 + 1) at 3 by lia. rewrite seqZ_snoc by lia. f_equal. f_equal. lia.
  - unfold takens. rewrite omap_app. fold (takens (printed s)). rewrite b_taken0. unfold taken. rewrite Hct. cbn. rewrite app_nil_r. f_equal. lia.
Qed.

Lemma take_step ts s i tid :
  pc_inv ts s → ts !! i = Some CTake →
  let deq := Z.rem (dequeue s + 1) B in
  ∃ t, aget (units s) (deq + BASE_ADDR) = Ok (Some (Data (consume_num s + 1) t)) ∧
    pc_inv (<[i := CInc]> ts) (take deq (Taken tid (consume_num s + 1) t deq) s).
Proof.
  intros HI Hi deq. assert (count storing ts = 0) as Hst by (by rewrite (count_inside ts s i CTake storing HI Hi eq_refl storing_inside)).
  assert (count counting ts = 0) as Hct by (by rewrite (count_inside ts s i CTake counting HI Hi eq_refl counting_inside)).
  pose proof (b_pc _ _ HI i _ Hi) as Hok. cbn in Hok. pose proof (b_items _ _ HI) as Hitems.
  assert (taken ts s = consume_num s) as Htk by (unfold taken; lia). assert (stored ts s = item_num s) as Hsd by (unfold stored; lia).
  assert (deq = (consume_num s + 1) mod B) as Hq by (unfold deq; rewrite (b_dequeue _ _ HI), Htk, rem_mod_succ by lia; done).
  destruct (b_units _ _ HI (consume_num s + 1)) as [t Ht]; [lia|]. exists t. rewrite Hq. split; [done|].
  assert (∀ e, stored (<[i:=CInc]> ts) (take ((consume_num s + 1) mod B) e s) = stored ts s) as Est.
  { intros e. unfold stored. rewrite (tcount_update _ _ _ _ _ Hi). cbn. lia. }
  assert (∀ e, taken (<[i:=CInc]> ts) (take ((consume_num s + 1) mod B) e s) = consume_num s + 1) as Etk.
  { intros e. unfold taken. rewrite (tcount_update _ _ _ _ _ Hi). cbn. lia. }
  destruct HI. split; rewrite ?Est, ?Etk; cbn [take sem_mutex emptyslot stock item_num consume_num enqueue dequeue units ended printed]; try done; try lia.
  - rewrite (tcount_update _ _ _ _ _ Hi). cbn. lia.
  - rewrite (tcount_update _ _ _ _ _ Hi). cbn. lia.
  - rewrite (tcount_update _ _ _ _ _ Hi), (sumZ_update _ _ _ _ _ Hi). cbn. lia.
  - intros j q [[-> ->]|[_ Hj]]%(lookup_update _ _ _ _ _ _ Hi); [done|]. pose proof (b_pc0 j q Hj). by destruct q.
  - intros c Hc. apply b_units0. lia.
  - by rewrite zlen_insert.
  - unfold prepared. rewrite omap_app. fold (prepared (printed s)). rewrite b_prepared0. cbn. by rewrite app_nil_r.
  - unfold takens. rewrite omap_app. fold (takens (printed s)). rewrite b_taken0, Htk. cbn. by rewrite seqZ_snoc by lia.
Qed.

Lemma count_step ts s i :
  pc_inv ts s → ts !! i = Some CInc → pc_inv (<[i := CPostEmpty]> ts) (set_consume_num (consume_num s + 1) s).
Proof.
  intros HI Hi. pose proof (b_pc _ _ HI i _ Hi) as Hok. cbn in Hok.
  set (s' := set_consume_num (consume_num s + 1) s).
  assert (stored (<[i:=CPostEmpty]> ts) s' = stored ts s) as Est by (unfold stored; rewrite (tcount_update _ _ _ _ _ Hi); cbn; lia).
  assert (taken (<[i:=CPostEmpty]> ts) s' = taken ts s) as Etk by (unfold taken; rewrite (tcount_update _ _ _ _ _ Hi); cbn; lia).
  assert (∀ j q, ts !! j = Some q → j ≠ i → inside q = false) as Hout.
  { intros j q Hj Hji. destruct (inside q) eqn:E; [|done]. destruct Hji. by apply (inside_unique ts s j i q CInc HI). }
  destruct HI. split; rewrite ?Est, ?Etk; cbn [s' set_consume_num sem_mutex emptyslot stock item_num consume_num enqueue dequeue units ended printed]; try done; try lia.
  - rewrite (tcount_update _ _ _ _ _ Hi). cbn. lia.
  - rewrite (tcount_update _ _ _ _ _ Hi). cbn. lia.
  - rewrite (tcount_update _ _ _ _ _ Hi), (sumZ_update _ _ _ _ _ Hi). cbn. lia.
  - intros j q [[-> ->]|[Hji Hj]]%(lookup_update _ _ _ _ _ _ Hi); [done|].
    pose proof (Hout j q Hj Hji). pose proof (b_pc0 j q Hj). by destruct q.
  - by rewrite zlen_insert.
Qed.

Ltac quiet HI Hi :=
  eexists _, _; split; [done|]; eapply idle_step; [exact HI|exact Hi|..]; try done; cbn; try lia.

(** ** Every step *)

Lemma join_next_ok (s : ctln_pc_st) i : pc_ok s (join_next P C i) ∧ posted (join_next P C i) = 0 ∧ inside (join_next P C i) = false ∧
  has_slot (join_next P C i) = false ∧ has_stock (join_next P C i) = false ∧ storing (join_next P C i) = false ∧ counting (join_next P C i) = false.
Proof. unfold join_next. destruct (i <=? P); [done|]. destruct (Z.ltb_spec 0 (C - 1)); cbn; split_and!; try done; lia. Qed.

Lemma pc_step_inv ts s i p r :
  pc_inv ts s → ts !! i = Some p → step (Z.of_nat i) p s = Some r →
  ∃ p' s', r = Ok (p', s') ∧ pc_inv (<[i := p']> ts) s'.
Proof.
  intros HI Hi. pose proof (stock_bound ts s HI) as Hstk. pose proof (slot_bound ts s HI) as Hslt.
  pose proof (b_mutex _ _ HI) as [Hm0 Hm1]. pose proof (b_items _ _ HI) as Hitems. pose proof (count_nonneg inside ts) as Hin.
  pose proof (b_pc _ _ HI i p Hi) as Hok. pose proof (lookup_lt_Some _ _ _ Hi) as Hlt.
  pose proof (b_threads _ _ HI) as Hth. pose proof (b_ended _ _ HI) as Hend.
  assert (0 ≤ Z.of_nat i < zlen (ended s)) as Hir by (rewrite Hend, <-Hth; unfold zlen; lia).
  destruct p as [j|j| | | | | | | | | | | | | | |v| | | | | | | | | | |]; cbn [pc_step producer_main producer consumer]; unfold sem_wait, exit; intros Hr.
  all: repeat match type of Hr with
       | context [cint ?z] => rewrite (cint_Ok z) in Hr by (unfold int_min, int_max; lia)
       | context [aset (ended _) _ _] => rewrite aset_Ok in Hr by done
       end; cbn in Hr.
  - (* Join *)
    case_decide; [|done]. injection Hr as <-. eexists _, _. split; [done|].
    destruct (join_next_ok s (j + 1)) as (J1 & J2 & J3 & J4 & J5 & J6 & J7).
    eapply idle_step; try done; cbn; rewrite ?J2, ?J3, ?J4, ?J5; lia.
  - (* Post *)
    injection Hr as <-. cbn in Hok. destruct (Z.ltb_spec (j + 1) (C - 1)); quiet HI Hi.
  - (* MainDone *)
    done.
  - (* PTest *)
    injection Hr as <-. destruct (_ <? _); quiet HI Hi.
  - (* PWaitEmpty *)
    destruct (Z.ltb_spec 0 (emptyslot s)); [|done]. injection Hr as <-. quiet HI Hi.
  - (* PWaitMutex *)
    destruct (Z.ltb_spec 0 (sem_mutex s)); [|done]. injection Hr as <-. quiet HI Hi.
  - (* PCheck *)
    injection Hr as <-. destruct (Z.ltb_spec (item_num s) M); quiet HI Hi.
  - (* PInc *)
    injection Hr as <-. eexists _, _. split; [done|]. by apply inc_step.
  - (* PStore *)
    injection Hr as <-.
    destruct (store_step ts s i (if item_num s =? M then PFlag else PPostStock) (Z.of_nat i) HI Hi) as (u & -> & HI').
    { destruct (_ =? _); [by left|by right]. }
    eexists _, _. split; [done|]. exact HI'.
  - (* PFlag *)
    injection Hr as <-. quiet HI Hi.
  - (* PPostStock *)
    injection Hr as <-. quiet HI Hi.
  - (* PBack *)
    injection Hr as <-. quiet HI Hi.
  - (* PPostMutex *)
    injection Hr as <-. quiet HI Hi.
  - (* PExit *)
    injection Hr as <-. quiet HI Hi. by rewrite zlen_insert.
  - (* PDone *)
    done.
  - (* CTest *)
    injection Hr as <-. quiet HI Hi.
  - (* CTest2 *)
    injection Hr as <-. destruct (if item_first then _ else _); quiet HI Hi.
  - (* CFlag *)
    injection Hr as <-. destruct (_ =? _); quiet HI Hi.
  - (* CWaitStock *)
    destruct (Z.ltb_spec 0 (stock s)); [|done]. injection Hr as <-. quiet HI Hi.
  - (* CWaitMutex *)
    destruct (Z.ltb_spec 0 (sem_mutex s)); [|done]. injection Hr as <-. quiet HI Hi.
  - (* CCheck *)
    injection Hr as <-. destruct (Z.ltb_spec (consume_num s) (item_num s)); quiet HI Hi.
  - (* CTake *)
    injection Hr as <-. destruct (take_step ts s i (Z.of_nat i) HI Hi) as (t & -> & HI'). eexists _, _. split; [done|]. exact HI'.
  - (* CInc *)
    injection Hr as <-. eexists _, _. split; [done|]. by apply count_step.
  - (* CPostEmpty *)
    injection Hr as <-. quiet HI Hi.
  - (* CBack *)
    injection Hr as <-. quiet HI Hi.
  - (* CPostMutex *)
    injection Hr as <-. quiet HI Hi.
  - (* CExit *)
    injection Hr as <-. quiet HI Hi. by rewrite zlen_insert.
  - (* CDone *)
    done.
Qed.

Lemma pc_start_inv : pc_inv (threads (pc_start B P C)) (shared (pc_start B P C)).
Proof.
  set (ts := threads (pc_start B P C)).
  assert (∀ p, p ∈ ts → p = Join 1 ∨ p = PTest ∨ p = CTest) as Hts.
  { intros p [->|[Hp|Hp]%elem_of_app]%elem_of_cons; [by left|right; left|right; right]; by apply elem_of_replicate in Hp as [-> _]. }
  assert (∀ b, b (Join 1) = false → b PTest = false → b CTest = false → count b ts = 0) as Hc.
  { intros b H1 H2 H3. apply tcount_zero. by intros p [->|[->| ->]]%Hts. }
  assert (stored ts (shared (pc_start B P C)) = 0 ∧ taken ts (shared (pc_start B P C)) = 0) as [Est Etk].
  { unfold stored, taken. rewrite !Hc by done. done. }
  assert (zlen ts = 1 + P + C) as Hlen.
  { unfold ts, zlen. cbn [threads pc_start]. rewrite length_cons, length_app, !length_replicate. lia. }
  split; rewrite ?Est, ?Etk; rewrite ?Hc by done; cbn [shared pc_start sem_mutex emptyslot stock item_num consume_num enqueue dequeue units ended printed]; try done; try lia.
  - split; [lia|]. replace (sumZ (posted <$> ts)) with 0; [done|]. symmetry.
    apply Z.le_antisymm; [|apply sumZ_nonneg, Forall_fmap, Forall_forall; by intros p [->|[->| ->]]%Hts].
    etrans; [apply (sumZ_bound posted 0); by intros p [->|[->| ->]]%Hts|]. lia.
  - intros i p Hi. by destruct (Hts p (list_elem_of_lookup_2 _ _ _ Hi)) as [->|[->| ->]].
  - unfold zlen. rewrite length_replicate. unfold BASE_ADDR. lia.
  - unfold zlen. rewrite length_replicate. lia.
Qed.

Lemma pc_reach_inv c : rtc (runs_step step) (pc_start B P C) c → pc_inv (threads c) (shared c).
Proof.
  intros Hr. apply (runs_invariant step (λ c, pc_inv (threads c) (shared c)) (pc_start B P C) c); [|apply pc_start_inv|done].
  intros ts s i p p' s' HI Hi Hs. by destruct (pc_step_inv ts s i p _ HI Hi Hs) as (? & ? & [= <- <-] & ?).
Qed.
End invariant.

(** ** What the programs do *)

(** [C28] Whatever the sizes and the numbers of threads, in every interleaving and
    for both orders of evaluation: no access leaves the buffer, no unit is read
    before it is written and no counter overflows; the items are prepared as
    1, 2, 3, ... and taken in exactly that order, none twice; the buffer never
    holds more than BUFFER_SIZE items and at most MAX_ITEM_NUM are made. *)
Theorem buffer_is_fifo B M P C item_first c :
  1 ≤ B ≤ 10000 → 1 ≤ M ≤ 10000 → 1 ≤ P ≤ 10000 → 1 ≤ C ≤ 10000 →
  rtc (runs_step (pc_step B M P C item_first)) (pc_start B P C) c →
  ¬ may_fault (pc_step B M P C item_first) c ∧
  ∃ made got, 0 ≤ got ≤ made ∧ made ≤ M ∧ made - got ≤ B ∧
    prepared (printed (shared c)) = seqZ 1 made ∧ takens (printed (shared c)) = seqZ 1 got.
Proof.
  intros HB HM HP HC Hr. pose proof (pc_reach_inv B M P C item_first HB HM HP HC c Hr) as HI. split.
  { destruct c as [ts s]. intros (i & p & e & Hi & Hs).
    by destruct (pc_step_inv B M P C item_first HB HM HP HC ts s i p _ HI Hi Hs) as (? & ? & ? & _). }
  exists (stored (threads c) (shared c)), (taken (threads c) (shared c)).
  pose proof (b_order _ _ _ _ _ _ HI). pose proof (b_items _ _ _ _ _ _ HI). pose proof (b_slots _ _ _ _ _ _ HI).
  pose proof (count_nonneg storing (threads c)). pose proof (count_nonneg counting (threads c)). pose proof (count_nonneg has_slot (threads c)).
  unfold stored, taken in *. split_and!; try lia; apply HI.
Qed.

Lemma buffer_is_fifo_witness :
  ∃ c, exec (pc_step 2 3 1 1 false) (replicate 9 1 ++ replicate 6 2)%nat (pc_start 2 1 1) = Ok c ∧
    takens (printed (shared c)) = [1] ∧ ∃ made, prepared (printed (shared c)) = seqZ 1 made ∧ made ≤ 3.
Proof.
  assert (∃ c, exec (pc_step 2 3 1 1 false) (replicate 9 1 ++ replicate 6 2)%nat (pc_start 2 1 1) = Ok c) as [c Hc] by (eexists; by vm_compute).
  exists c. split; [exact Hc|]. split; [vm_compute in Hc; by injection Hc as <-|].
  destruct (buffer_is_fifo 2 3 1 1 false c ltac:(lia) ltac:(lia) ltac:(lia) ltac:(lia) (exec_runs _ _ _ _ Hc))
    as (_ & made & got & _ & Hm & _ & Hp & _).
  exists made. split; [exact Hp|exact Hm].
Defined.

(** ** The last item can be lost *)

(** Thread 1 makes item 1; thread 3 takes it and finds no further item; then
    thread 1 makes item 2 and sets END_FLAG before thread 3 reads it. *)
Definition early_exit : list nat :=
  (replicate 8 1 ++ replicate 11 3 ++ [2] ++ replicate 11 1 ++ [3; 3; 0])%nat.

Definition lost (c : conf pc ctln_pc_st) : bool :=
  bool_decide (prepared (printed (shared c)) = [1; 2]) && bool_decide (takens (printed (shared c)) = [1]) &&
  bool_decide (threads c = [Join 2; PDone; PWaitEmpty; CDone]) && (emptyslot (shared c) =? 0) &&
  bool_decide (aget (ended (shared c)) 2 = Ok false).

Lemma early_exit_loses item_first :
  match exec (pc_step 1 2 2 1 item_first) early_exit (pc_start 1 2 1) with Ok c => lost c | Err _ => false end = true.
Proof. destruct item_first; vm_compute; reflexivity. Qed.

(** The comment of the programs says that this version works properly; but a
    consumer evaluates its loop condition without the mutex. With a buffer of
    one item, two producers and one consumer, a run leaves item 2 in the buffer
    forever: the consumer has ended, a producer waits for an empty slot, [main]
    waits for the producer and no thread can go on. *)
Theorem last_item_lost item_first :
  ∃ c, rtc (runs_step (pc_step 1 2 2 1 item_first)) (pc_start 1 2 1) c ∧
    prepared (printed (shared c)) = [1; 2] ∧ takens (printed (shared c)) = [1] ∧
    threads c = [Join 2; PDone; PWaitEmpty; CDone] ∧ ∀ c', ¬ runs_step (pc_step 1 2 2 1 item_first) c c'.
Proof.
  pose proof (early_exit_loses item_first) as He. destruct (exec _ early_exit _) as [c|] eqn:Hc; [|done].
  unfold lost in He. rewrite !andb_true_iff, !bool_decide_eq_true, Z.eqb_eq in He. destruct He as ((((H1 & H2) & H3) & H4) & H5).
  exists c. split; [exact (exec_runs _ _ _ _ Hc)|]. split; [exact H1|]. split; [exact H2|]. split; [exact H3|]. clear Hc.
  intros c' [i t t' s' Ht Hs]. rewrite H3 in Ht. destruct i as [|[|[|[|i]]]]; cbn in Ht; [injection Ht as <-..|done]; cbn in Hs.
  - by rewrite decide_False in Hs by (by rewrite H5).
  - done.
  - by rewrite H4 in Hs.
  - done.
Qed.
