(* ===== verification/BbsServer.v ===== *)
(** * alg.11-5-socket-server-BBS-3-nickname.c: a chat server with nicknames

    Models the core of src/Labweek9/alg.11-5-socket-server-BBS-3-nickname.c:
    [pipe_data], the process that keeps the table of the connected clients and
    answers and distributes their messages, and what [recv_send_data] and [main]
    send to it.  A string of C is the list of its characters without the
    terminating 0.  The input of [pipe_data] is what arrives through its pipes,
    in the order in which it reads it.  Whether a pipe accepts another message
    ([write] does not block) is decided by the argument [accepts].  The arrays
    have the sizes of the code: a string that does not fit, with its
    terminator, in the array it is put into makes the run undefined ([into]). *)

From stdpp Require Import base list numbers strings.
From S2P Require Import Prelude.

(** ** Strings of C *)

Definition str (s : string) : list Z := (λ c, Z.of_N (Ascii.N_of_ascii c)) <$> String.list_ascii_of_string s.

(** [s[i]], 0 behind the last character. *)
Definition char_at (s : list Z) (i : nat) : Z := default 0 (s !! i).

Definition is_space (c : Z) : bool := (c =? 32) || ((9 <=? c) && (c <=? 13)).
Definition isdigit (c : Z) : bool := (48 <=? c) && (c <=? 57).

Fixpoint skip_spaces (s : list Z) : list Z :=
  match s with c :: s' => if is_space c then skip_spaces s' else s | [] => [] end.

(** The digits at the start of a string, at most [n]. *)
Fixpoint take_digits (n : nat) (s : list Z) : list Z :=
  match n, s with S n, c :: s' => if isdigit c then c :: take_digits n s' else [] | _, _ => [] end.

Definition number (ds : list Z) : Z := foldl (λ v c, 10 * v + (c - 48)) 0 ds.

Definition scan_digits (n : nat) (r : list Z) : option (Z * list Z) :=
  match take_digits n r with [] => None | ds => Some (number ds, drop (length ds) r) end.

(** [sscanf(s, "%4d...", &sn)] and what it leaves of the string: leading spaces
    are skipped and do not count for the width; [None] when there is no number,
    [sn] is not assigned then. *)
Definition scan_4d (s : list Z) : option (Z * list Z) :=
  match skip_spaces s with
  | 45 :: r => '(v, r) ← scan_digits 3 r; Some (- v, r)
  | 43 :: r => scan_digits 3 r
  | r => scan_digits 4 r
  end.

(** [sscanf(s, "%s", ...)]: the first word. *)
Fixpoint word (s : list Z) : list Z :=
  match s with c :: s' => if is_space c then [] else c :: word s' | [] => [] end.
Definition scan_s (s : list Z) : list Z := word (skip_spaces s).

(** [atoi]; undefined when an [int] does not hold the number. *)
Definition atoi (s : list Z) : outcome Z :=
  match skip_spaces s with
  | 45 :: r => cint (- number (take_digits (length r) r))
  | 43 :: r => cint (number (take_digits (length r) r))
  | r => cint (number (take_digits (length r) r))
  end.

(** [sprintf("%d", v)] of a number that is not negative. *)
Fixpoint digits (fuel : nat) (v : Z) : list Z :=
  match fuel with
  | O => []
  | S fuel => (if v <? 10 then [] else digits fuel (v / 10)) ++ [48 + v mod 10]
  end.
Definition show_int (v : Z) : list Z := digits 10 v.

(** [sprintf("%4d", v)] *)
Definition show_4d (v : Z) : list Z := replicate (4 - length (show_int v)) 32 ++ show_int v.

(** ** The state *)

Definition BUFFER_SIZE : Z := 1024.
Definition NICKNAME_L : Z := 11.
Definition MSG_SIZE : Z := BUFFER_SIZE + NICKNAME_L + 4.

(** [strcpy], [sprintf] or [sscanf] of the string [s] into an array of [n]
    characters. *)
Definition into (n : Z) (s : list Z) : outcome (list Z) := defined (zlen s <? n);; Ok s.

Definition MAX_CONN_NUM : Z := 10.
Definition STAT_EMPTY : Z := 0.
Definition STAT_ACCEPTED : Z := 1.
Definition STAT_NORMAL : Z := 2.
Definition STAT_ENDED : Z := -1.

Record attri := Attri { stat : Z; nickname : list Z }.

(** What [pipe_data] prints. *)
Inductive note :=
| MaxChanged (n : Z)
| StatChanged (sn old new : Z)
| NickChanged (sn : Z) (old new : list Z)
| WriteError (sn : Z)
| Listed (sn : Z) (stat nick : list Z).

(** [sent]: the messages that have been written to the pipes of the clients. *)
Record bbs := Bbs {
  sn_attri : list attri;
  max_sn : Z;
  sent : list (Z * list Z);
  notes : list note
}.

Definition set_attri (a : list attri) (s : bbs) : bbs := Bbs a (max_sn s) (sent s) (notes s).
Definition set_max_sn (n : Z) (s : bbs) : bbs := Bbs (sn_attri s) n (sent s) (notes s).
Definition send_to (m : Z * list Z) (s : bbs) : bbs := Bbs (sn_attri s) (max_sn s) (sent s ++ [m]) (notes s).
Definition print (e : note) (s : bbs) : bbs := Bbs (sn_attri s) (max_sn s) (sent s) (notes s ++ [e]).

Definition set_stat (sn v : Z) (s : bbs) : outcome bbs :=
  a ← aget (sn_attri s) sn; l ← aset (sn_attri s) sn (Attri v (nickname a)); Ok (set_attri l s).
Definition set_nickname (sn : Z) (v : list Z) (s : bbs) : outcome bbs :=
  a ← aget (sn_attri s) sn; l ← aset (sn_attri s) sn (Attri (stat a) v); Ok (set_attri l s).

(** [sn_attri[sn].stat = stat] with its message. *)
Definition change_stat (sn v : Z) (s : bbs) : outcome bbs :=
  a ← aget (sn_attri s) sn; set_stat sn v (print (StatChanged sn (stat a) v) s).

Definition stat_descriptor (stat : Z) : list Z :=
  if stat =? 0 then str "STAT_EMPTY"
  else if stat =? 1 then str "STAT_ACCEPTD"
  else if stat =? 2 then str "STAT_NORMAL"
  else if stat =? -1 then str "STAT_ENDED"
  else str "STAT_UNKNOWN".

Section pipe_data.
(** Whether the pipe of a client takes a message after those sent before. *)
Variable accepts : list (Z * list Z) → Z → bool.

(** [write(fd[sn][1], msg_buf, MSG_SIZE)]: the second part is [ret > 0]. *)
Definition write (sn : Z) (msg : list Z) (s : bbs) : outcome (bool * bbs) :=
  defined ((0 <=? sn) && (sn <=? MAX_CONN_NUM));;
  Ok (if accepts (sent s) sn then (true, send_to (sn, msg) s) else (false, print (WriteError sn) s)).

Definition write_ (sn : Z) (msg : list Z) (s : bbs) : outcome bbs := r ← write sn msg s; Ok r.2.

(** [for (sn = 1; sn <= max_sn; sn++) if (...) write(...)] *)
Definition send_all (p : attri → bool) (msg : list Z) (s : bbs) : outcome bbs :=
  for_range 1 (max_sn s + 1) (λ sn s,
    a ← aget (sn_attri s) sn; if (stat a =? STAT_NORMAL) && p a then write_ sn msg s else Ok s) s.

(** ** Messages of the clients *)

(** The nickname after "#1": at most 10 characters, spaces replaced, up to the
    end of the line. *)
Fixpoint cut_line (s : list Z) : list Z :=
  match s with c :: s' => if c =? 10 then [] else c :: cut_line s' | [] => [] end.
Definition parse_nickname (msg : list Z) : list Z :=
  cut_line ((λ c, if c =? 32 then 95 else c) <$> firstn 10 (drop 6 msg)).

(** The loop that looks for the nickname: the first index that has it. *)
Definition find_nickname (nick : list Z) (s : bbs) : outcome (option Z) :=
  loop (Z.to_nat (max_sn s + 2)) (λ i,
    if max_sn s <? i then Ok (inr None)
    else a ← aget (sn_attri s) i; if decide (nickname a = nick) then Ok (inr (Some i)) else Ok (inl (i + 1))) 0.

(** "#1name"; the message that is left in [msg_buf] is the second part. *)
Definition rename (sn : Z) (msg : list Z) (s : bbs) : outcome (bbs * list Z) :=
  let nick := parse_nickname msg in
  if decide (nick = str "Anonymous") then
    m ← into MSG_SIZE (str "Console: invalid nickname: " ++ nick);
    s ← write_ sn m s; Ok (s, m)
  else
    o ← find_nickname nick s;
    match o with
    | Some _ =>
        m ← into MSG_SIZE (str "Console: this nickname occupied: " ++ nick);
        s ← write_ sn m s; Ok (s, m)
    | None =>
        a ← aget (sn_attri s) sn;
        s ← set_nickname sn nick (print (NickChanged sn (nickname a) nick) s);
        s ← set_stat sn STAT_NORMAL s;
        m ← into MSG_SIZE (if stat a =? STAT_ACCEPTED then str "Console: welcome, " ++ nick
                           else str "Console: " ++ nickname a ++ str " changed nickname to " ++ nick);
        s ← send_all (λ _, true) m s;
        Ok (s, m)
    end.

(** "#2": the list of the connectors, for one of them. *)
Definition list_connectors (sn : Z) (s : bbs) : outcome bbs :=
  s ← write_ sn (10 :: str "====   connector list   =====") s;
  s ← loop (Z.to_nat (max_sn s + 2)) (λ '(i, s),
        if max_sn s <? i then Ok (inr s)
        else
          a ← aget (sn_attri s) i;
          m ← into MSG_SIZE (str "sn = " ++ show_int i ++ str ", stat = " ++ stat_descriptor (stat a) ++
                             str ", nickname = " ++ nickname a);
          r ← write sn m s;
          if (r.1 : bool) then Ok (inl (i + 1, r.2)) else Ok (inr r.2)) (0, s);
  write_ sn (str "========" ++ [10]) s.

(** The length of the nickname after '@' (at most 10). *)
Fixpoint addressee (n : nat) (s : list Z) : nat :=
  match n, s with S n, c :: s' => if c =? 32 then O else S (addressee n s') | _, _ => O end.

(** "@name text" *)
Definition private_message (sn : Z) (msg : list Z) (s : bbs) : outcome bbs :=
  let body := drop 5 msg in
  let i := addressee 10 body in
  let nick := firstn i body in
  text ← into BUFFER_SIZE (drop (if char_at msg (5 + i) =? 32 then S i else i) body);
  a ← aget (sn_attri s) sn;
  m ← into MSG_SIZE (nickname a ++ str "@: " ++ text);
  send_all (λ b, bool_decide (nickname b = nick)) m s.

(** Any other text goes to everybody. *)
Definition broadcast (sn : Z) (msg : list Z) (s : bbs) : outcome bbs :=
  text ← into BUFFER_SIZE (drop 4 msg);
  a ← aget (sn_attri s) sn;
  m ← into MSG_SIZE (nickname a ++ str ": " ++ text);
  send_all (λ _, true) m s.

(** A message "nnnntext" that [recv_send_data] has written to [fd_msg].  It always
    starts with a number; a message without one, for which the code would go on
    with an old value of [sn], is an error here. *)
Definition client_message (msg : list Z) (s : bbs) : outcome bbs :=
  '(sn, rest) ← of_option (scan_4d msg);
  _ ← into BUFFER_SIZE (scan_s rest);
  a ← aget (sn_attri s) sn;
  if negb (stat a =? STAT_ACCEPTED) && negb (stat a =? STAT_NORMAL) then Ok s
  else if (stat a =? STAT_ACCEPTED) && negb (char_at msg 4 =? 35) then
    write_ sn (str "Console: pls initiate your nickname by [#1nickname] first.") s
  else if char_at msg 4 =? 35 then
    s ← (if char_at msg 5 =? 48 then change_stat sn STAT_ENDED s else Ok s);
    r ← (if char_at msg 5 =? 49 then rename sn msg s else Ok (s, msg));
    if char_at r.2 5 =? 50 then list_connectors sn r.1 else Ok r.1
  else if char_at msg 4 =? 64 then private_message sn msg s
  else broadcast sn msg s.

(** ** Input at the terminal of the server *)

Definition console_name : list Z := str "Console".

(** [msg] is the string that [read] leaves in [stdin_buf]. *)
Definition console_message (msg : list Z) (s : bbs) : outcome bbs :=
  msg ← into BUFFER_SIZE msg;
  if char_at msg 0 =? 64 then
    sn ← atoi (drop 1 msg);
    if (0 <? sn) && (sn <=? max_sn s) then
      a ← aget (sn_attri s) sn;
      if stat a =? STAT_NORMAL then
        c ← aget (sn_attri s) 0;
        let i := S (length (take_digits (length msg) (drop 1 msg))) in
        if (char_at msg i =? 35) && (char_at msg (S i) =? 48) then
          s ← change_stat sn STAT_ENDED s;
          m ← into MSG_SIZE (nickname c ++ str ": " ++ str "#0 your connection terminated!");
          write_ sn m s
        else m ← into MSG_SIZE (nickname c ++ str ": " ++ drop i msg); write_ sn m s
      else Ok s
    else Ok s
  else if char_at msg 0 =? 35 then
    for_range 0 (max_sn s + 1) (λ i s,
      a ← aget (sn_attri s) i; Ok (print (Listed i (stat_descriptor (stat a)) (nickname a)) s)) s
  else
    c ← aget (sn_attri s) 0;
    m ← into MSG_SIZE (nickname c ++ str ": " ++ msg);
    send_all (λ _, true) m s.

(** ** The pipes *)

Inductive input :=
| MaxSn (n : Z)
| StatMsg (sn stat : Z)
| ClientMsg (msg : list Z)
| ConsoleMsg (msg : list Z).

(** One message that [pipe_data] reads. *)
Definition pipe_data (i : input) (s : bbs) : outcome bbs :=
  match i with
  | MaxSn n => Ok (print (MaxChanged n) (set_max_sn n s))
  | StatMsg sn v => change_stat sn v s
  | ClientMsg msg => client_message msg s
  | ConsoleMsg msg => console_message msg s
  end.

(** What [recv_send_data(sn)] writes for a text it has received: [text] is the
    string that [recv] leaves in [recv_buf], which must end within the array. *)
Definition recv_send_data (sn : Z) (text : list Z) : outcome input :=
  text ← into BUFFER_SIZE text;
  msg ← into MSG_SIZE (show_4d sn ++ text);
  Ok (ClientMsg msg).

(** A text from the socket of client [sn] to [pipe_data]. *)
Definition client_text (sn : Z) (text : list Z) (s : bbs) : outcome bbs :=
  i ← recv_send_data sn text; pipe_data i s.
End pipe_data.

(** What [main] writes for the connection [connect_sn]. *)
Definition accepted (connect_sn : Z) : input := StatMsg connect_sn STAT_ACCEPTED.
Definition counted (connect_sn : Z) : input := MaxSn connect_sn.

(** The table that [main] sets up before it starts [pipe_data]. *)
Definition bbs_start : bbs :=
  Bbs (Attri STAT_EMPTY (str "Console") :: replicate 10 (Attri STAT_EMPTY (str "Anonymous"))) 0 [] [].
