(* ===== verification/BbsServerProps.v ===== *)
(** * The chat server keeps nicknames apart and delivers messages

    Properties of BbsServer.v: in every run the nicknames stay distinct and no
    access leaves the table or overflows a buffer, provided that the texts end
    within the buffers they are received in; a text is delivered to all named
    clients, a private text to the one with the nickname; but a text that starts
    with a digit is taken for another client's. *)

From stdpp Require Import base list numbers strings sets.
From S2P Require Import Prelude BbsServer.

Section bbs.
Variable accepts : list (Z * list Z) → Z → bool.

(** ** The runs of the server *)

(** The states that the server can reach: [c] is the number of connections that
    [main] has accepted, [st] the number of those whose status [pipe_data] has
    read.  [main] writes each status and each number once and in order, but to
    different pipes: [pipe_data] can read the messages of a connection before its
    status, and its status before or after its number.  [timely] restricts the
    runs to those in which no text of a client is read before its number.  The
    texts are any for which the code is defined. *)
Inductive bbs_reach (timely : bool) : bbs → Z → Z → Prop :=
| reach_start : bbs_reach timely bbs_start 0 0
| reach_connect s c st :
    bbs_reach timely s c st → c < MAX_CONN_NUM → bbs_reach timely s (c + 1) st
| reach_accept s c st s' :
    bbs_reach timely s c st → st < c → pipe_data accepts (accepted (st + 1)) s = Ok s' → bbs_reach timely s' c (st + 1)
| reach_count s c st s' :
    bbs_reach timely s c st → max_sn s < c → pipe_data accepts (counted (max_sn s + 1)) s = Ok s' → bbs_reach timely s' c st
| reach_client s c st sn text s' :
    bbs_reach timely s c st → 1 ≤ sn ≤ c → (timely = true → sn ≤ max_sn s) →
    client_text accepts sn text s = Ok s' → bbs_reach timely s' c st
| reach_console s c st text s' :
    bbs_reach timely s c st → pipe_data accepts (ConsoleMsg text) s = Ok s' → bbs_reach timely s' c st.

Definition anonymous : list Z := str "Anonymous".

Definition nick_ok (nick : list Z) : Prop := zlen nick < NICKNAME_L ∧ 32 ∉ nick ∧ 10 ∉ nick.

(** The entry of client [i] when [st] statuses have been read. *)
Definition entry_ok (st i : Z) (x : attri) : Prop :=
  nick_ok (nickname x) ∧
  (i = 0 → x = Attri STAT_EMPTY console_name) ∧
  (st < i → x = Attri STAT_EMPTY anonymous) ∧
  (1 ≤ i ≤ st → stat x = STAT_ACCEPTED ∧ nickname x = anonymous ∨ stat x = STAT_NORMAL ∧ nickname x ≠ anonymous ∨ stat x = STAT_ENDED).

(** The table is well formed. *)
Record bbs_inv (s : bbs) (c st : Z) : Prop := {
  n_len : zlen (sn_attri s) = MAX_CONN_NUM + 1;
  n_range : 0 ≤ st ≤ c ∧ 0 ≤ max_sn s ≤ c ∧ c ≤ MAX_CONN_NUM;
  n_entry : ∀ i x, aget (sn_attri s) i = Ok x → entry_ok st i x
}.

(** The nicknames are distinct, those of the clients that are not counted yet unset. *)
Record bbs_unique (s : bbs) : Prop := {
  n_counted : ∀ i x, aget (sn_attri s) i = Ok x → nickname x ≠ anonymous → i ≤ max_sn s;
  n_unique : ∀ i j x y, aget (sn_attri s) i = Ok x → aget (sn_attri s) j = Ok y →
    nickname x = nickname y → nickname x ≠ anonymous → i = j
}.

(** ** The buffers *)

Lemma into_Ok n l : zlen l < n → into n l = Ok l.
Proof. intros H. unfold into, defined. by rewrite (proj2 (Z.ltb_lt _ _) H). Qed.

Lemma into_Err n l : n ≤ zlen l → into n l = Err Undef.
Proof. intros H. unfold into, defined. by rewrite (proj2 (Z.ltb_ge _ _) H). Qed.

Lemma into_inv n l l' : into n l = Ok l' → l' = l ∧ zlen l < n.
Proof. unfold into. intros (u & Hd & [= <-])%bind_Ok. split; [done|]. unfold defined in Hd. by destruct (Z.ltb_spec (zlen l) n). Qed.

Lemma zlen_drop_le {A} k (l : list A) : zlen (drop k l) ≤ zlen l.
Proof. unfold zlen. rewrite length_drop. lia. Qed.

Lemma zlen_word l : zlen (word l) ≤ zlen l.
Proof.
  induction l as [|c l IH]; cbn [word]; [done|].
  destruct (is_space c); [rewrite !zlen_cons; pose proof (zlen_nonneg l); change (zlen []) with 0; lia|].
  rewrite !zlen_cons. lia.
Qed.

Lemma zlen_skip_spaces l : zlen (skip_spaces l) ≤ zlen l.
Proof. induction l as [|c l IH]; cbn [skip_spaces]; [done|]. destruct (is_space c); rewrite ?zlen_cons; lia. Qed.

Lemma zlen_scan_s l : zlen (scan_s l) ≤ zlen l.
Proof. etrans; [apply zlen_word|apply zlen_skip_spaces]. Qed.

Lemma show_int_length i : 0 ≤ i → zlen (show_int i) ≤ 10.
Proof.
  intros _. unfold show_int. assert (H : ∀ n v, zlen (digits n v) ≤ Z.of_nat n); [|apply (H 10%nat)].
  induction n as [|n IH]; intros v; cbn [digits]; [done|]. rewrite zlen_app. change (zlen [48 + v mod 10]) with 1.
  destruct (v <? 10); [change (zlen []) with 0; lia|]. specialize (IH (v / 10)). lia.
Qed.

Lemma stat_descriptor_length v : zlen (stat_descriptor v) ≤ 12.
Proof. unfold stat_descriptor. repeat case_match; done. Qed.

(** The message fits: the lengths of its constant parts are computed. *)
Ltac fits :=
  rewrite into_Ok by (unfold MSG_SIZE, BUFFER_SIZE, NICKNAME_L in *; rewrite ?zlen_app;
    repeat match goal with |- context [zlen (str ?x)] => let n := eval vm_compute in (zlen (str x)) in change (zlen (str x)) with n end;
    lia);
  cbn [mbind outcome_bind].

(** ** The functions that only send *)

(** [s'] differs from [s] in what has been sent and printed. *)
Definition same_table (s s' : bbs) : Prop := sn_attri s' = sn_attri s ∧ max_sn s' = max_sn s.

#[local] Instance same_table_preorder : PreOrder same_table.
Proof. split; [done|]. intros s1 s2 s3 [E1 E2] [E3 E4]. split; congruence. Qed.

Lemma same_inv s s' c st : same_table s s' → bbs_inv s c st → bbs_inv s' c st.
Proof. intros [E1 E2] [H1 H2 H3]. by split; rewrite ?E1, ?E2. Qed.

Lemma same_unique s s' : same_table s s' → bbs_unique s → bbs_unique s'.
Proof. intros [E1 E2] [H1 H2]. by split; rewrite ?E1, ?E2. Qed.

Lemma write_spec sn msg s : 0 ≤ sn ≤ 10 →
  ∃ b s', write accepts sn msg s = Ok (b, s') ∧ same_table s s' ∧
    (accepts (sent s) sn = true → b = true ∧ sent s' = sent s ++ [(sn, msg)]).
Proof.
  intros Hsn. unfold write, defined, MAX_CONN_NUM. rewrite (proj2 (Z.leb_le 0 sn)), (proj2 (Z.leb_le sn 10)) by lia. cbn.
  destruct (accepts (sent s) sn); eexists _, _; done.
Qed.

Lemma write__same sn msg s s' : write_ accepts sn msg s = Ok s' → same_table s s'.
Proof.
  unfold write_, write. intros ([b s1] & (u & _ & [= E])%bind_Ok & [= <-])%bind_Ok. cbn.
  destruct (accepts (sent s) sn); by injection E as <- <-.
Qed.

Lemma write__spec sn msg s : 0 ≤ sn ≤ 10 →
  ∃ s', write_ accepts sn msg s = Ok s' ∧ same_table s s' ∧ (accepts (sent s) sn = true → sent s' = sent s ++ [(sn, msg)]).
Proof.
  intros Hsn. unfold write_. destruct (write_spec sn msg s Hsn) as (b & s' & -> & Hs & Hw). cbn. exists s'. naive_solver.
Qed.

Lemma entry_in s c st i : bbs_inv s c st → 0 ≤ i ≤ 10 → ∃ x, aget (sn_attri s) i = Ok x.
Proof.
  intros HI Hi. pose proof (n_len _ _ _ HI) as Hl. unfold MAX_CONN_NUM in Hl.
  destruct (aget_in_range (sn_attri s) i) as (x & Hx & _); [lia|by exists x].
Qed.

(** The clients up to [n] to which [send_all] writes. *)
Definition recipients (p : attri → bool) (l : list attri) (n : Z) : list Z :=
  filter (λ i, match aget l i with Ok a => (stat a =? STAT_NORMAL) && p a | Err _ => false end = true) (seqZ 1 n).

Lemma recipients_succ p l n x : 0 ≤ n → aget l (n + 1) = Ok x →
  recipients p l (n + 1) = recipients p l n ++ if (stat x =? STAT_NORMAL) && p x then [n + 1] else [].
Proof.
  intros Hn Hx. unfold recipients. rewrite seqZ_app by lia. rewrite filter_app. f_equal.
  rewrite (seqZ_cons (1 + n) 1) by lia. replace (1 + n) with (n + 1) by lia. rewrite filter_cons, Hx.
  destruct (_ && _); [by rewrite decide_True|by rewrite decide_False].
Qed.

Lemma send_all_spec p msg s c st : bbs_inv s c st →
  ∃ s', send_all accepts p msg s = Ok s' ∧ same_table s s' ∧
    ((∀ l i, accepts l i = true) → sent s' = sent s ++ ((λ i, (i, msg)) <$> recipients p (sn_attri s) (max_sn s))).
Proof.
  intros HI. destruct (n_range _ _ _ HI) as (_ & Hm & Hc). unfold MAX_CONN_NUM in Hc. unfold send_all.
  destruct (for_range_spec (λ i s', same_table s s' ∧
      ((∀ l i, accepts l i = true) → sent s' = sent s ++ ((λ j, (j, msg)) <$> recipients p (sn_attri s) (i - 1))))
    (λ sn s, a ← aget (sn_attri s) sn; if (stat a =? STAT_NORMAL) && p a then write_ accepts sn msg s else Ok s) 1 (max_sn s + 1) s)
    as (s' & -> & Hs & Hsent); [lia| | |].
  - split; [done|]. intros _. by rewrite app_nil_r.
  - intros i s1 Hi [[E1 E2] Hs1]. destruct (entry_in s c st i HI) as [x Hx]; [lia|]. rewrite E1, Hx. cbn [mbind outcome_bind].
    pose proof (recipients_succ p (sn_attri s) (i - 1) x) as Hr. replace (i - 1 + 1) with i in Hr by lia.
    destruct ((stat x =? STAT_NORMAL) && p x) eqn:Eb.
    + destruct (write__spec i msg s1) as (s2 & -> & [E3 E4] & Hw); [lia|]. exists s2. split; [done|]. split; [by split; congruence|].
      intros Hacc. rewrite Hw, Hs1 by done. replace (i + 1 - 1) with i by lia. rewrite Hr by (done || lia).
      rewrite fmap_app. by rewrite <-(assoc_L (++)).
    + exists s1. split; [done|]. split; [done|]. intros Hacc. rewrite Hs1 by done. replace (i + 1 - 1) with i by lia.
      rewrite Hr by (done || lia). by rewrite app_nil_r.
  - exists s'. split; [done|]. split; [done|]. intros Hacc. rewrite Hsent by done. by replace (max_sn s + 1 - 1) with (max_sn s) by lia.
Qed.

(** ** The changes of the table *)

(** What every message does: the table stays well formed, and if [counted] its
    nicknames stay distinct. *)
Definition keeps (counted : Prop) (c st : Z) (s s' : bbs) : Prop :=
  bbs_inv s' c st ∧ max_sn s' = max_sn s ∧ (counted → bbs_unique s → bbs_unique s').

Lemma keeps_same P c st s s' : bbs_inv s c st → same_table s s' → keeps P c st s s'.
Proof. intros HI Hs. split; [by eapply same_inv|]. split; [apply Hs|]. intros _. by apply same_unique. Qed.

Lemma keeps_trans P c st s1 s2 s3 : keeps P c st s1 s2 → keeps P c st s2 s3 → keeps P c st s1 s3.
Proof. intros (H1 & E1 & U1) (H2 & E2 & U2). split; [done|]. split; [congruence|auto]. Qed.

(** [s'] is [s] with the entry [x] of client [sn] replaced by [x']. *)
Definition entry_changed (sn : Z) (x x' : attri) (s s' : bbs) : Prop :=
  aget (sn_attri s) sn = Ok x ∧ sn_attri s' = <[Z.to_nat sn := x']> (sn_attri s) ∧ max_sn s' = max_sn s.

Lemma entry_changed_get sn x x' s s' i : entry_changed sn x x' s s' →
  aget (sn_attri s') i = if decide (i = sn) then Ok x' else aget (sn_attri s) i.
Proof. intros (Hx & -> & _). apply aget_insert. by eapply aget_range. Qed.

Lemma entry_changed_same sn x x' s1 s2 s3 : entry_changed sn x x' s1 s2 → same_table s2 s3 → entry_changed sn x x' s1 s3.
Proof. intros (H1 & H2 & H3) [E1 E2]. split; [done|]. split; congruence. Qed.

(** The nickname is kept or a new one that no counted client has. *)
Lemma changed_keeps (P : Prop) sn x x' s s' c st : bbs_inv s c st → entry_changed sn x x' s s' → entry_ok st sn x' →
  nickname x' = nickname x ∨
    ((P → sn ≤ max_sn s) ∧ ∀ i y, i ≤ max_sn s → aget (sn_attri s) i = Ok y → nickname y ≠ nickname x') →
  keeps P c st s s'.
Proof.
  intros HI Hc Hok Hnick. pose proof Hc as (Hx & Et & Em). destruct HI as [H1 H2 H3]. split; [|split; [done|]].
  - split.
    + by rewrite Et, zlen_insert.
    + by rewrite Em.
    + intros i y. rewrite (entry_changed_get _ _ _ _ _ _ Hc). case_decide; [naive_solver|apply H3].
  - intros HP [U1 U2]. destruct Hnick as [En|[Hle Hnew]].
    + split.
      * intros i y. rewrite (entry_changed_get _ _ _ _ _ _ Hc), Em. case_decide; [|apply U1].
        intros [= <-]. rewrite En. subst. by apply U1.
      * intros i j y z. rewrite !(entry_changed_get _ _ _ _ _ _ Hc).
        repeat case_decide; intros Hy Hz; simplify_eq; rewrite ?En; eauto.
    + assert (Hother : ∀ i y, aget (sn_attri s) i = Ok y → nickname y = nickname x' → nickname x' = anonymous).
      { intros i y Hy E. destruct (decide (nickname y = anonymous)) as [|Hn]; [congruence|].
        pose proof (U1 _ _ Hy Hn). by destruct (Hnew i y). }
      split.
      * intros i y. rewrite (entry_changed_get _ _ _ _ _ _ Hc), Em. case_decide; [|apply U1]. subst. auto.
      * intros i j y z. rewrite !(entry_changed_get _ _ _ _ _ _ Hc).
        repeat case_decide; intros Hy Hz E Hn; simplify_eq; [done| | |by eapply U2]; exfalso.
        -- apply Hn. by eapply Hother.
        -- apply Hn. rewrite E. by eapply Hother.
Qed.

Lemma set_stat_spec sn v s x : aget (sn_attri s) sn = Ok x →
  ∃ s', set_stat sn v s = Ok s' ∧ entry_changed sn x (Attri v (nickname x)) s s' ∧ sent s' = sent s.
Proof.
  intros Hx. pose proof (aget_range _ _ _ Hx). unfold set_stat. rewrite Hx. cbn. rewrite aset_Ok by done. cbn.
  eexists. split; [done|]. done.
Qed.

Lemma change_stat_spec sn v s x : aget (sn_attri s) sn = Ok x →
  ∃ s', change_stat sn v s = Ok s' ∧ entry_changed sn x (Attri v (nickname x)) s s' ∧ sent s' = sent s.
Proof. intros Hx. unfold change_stat. rewrite Hx. cbn. by apply (set_stat_spec sn v (print _ s)). Qed.

Lemma set_nickname_spec sn v s x : aget (sn_attri s) sn = Ok x →
  ∃ s', set_nickname sn v s = Ok s' ∧ entry_changed sn x (Attri (stat x) v) s s' ∧ sent s' = sent s.
Proof.
  intros Hx. pose proof (aget_range _ _ _ Hx). unfold set_nickname. rewrite Hx. cbn. rewrite aset_Ok by done. cbn.
  eexists. split; [done|]. done.
Qed.

(** ** Texts *)

Lemma client_number sn : 1 ≤ sn ≤ 10 → sn = 1 ∨ sn = 2 ∨ sn = 3 ∨ sn = 4 ∨ sn = 5 ∨ sn = 6 ∨ sn = 7 ∨ sn = 8 ∨ sn = 9 ∨ sn = 10.
Proof. lia. Qed.

Lemma scan_show sn text : 1 ≤ sn ≤ 10 → isdigit (char_at text 0) = false →
  scan_4d (show_4d sn ++ text) = Some (sn, text).
Proof.
  intros Hsn Hd.
  destruct (client_number sn Hsn) as [->|[->|[->|[->|[->|[->|[->|[->|[->| ->]]]]]]]]];
    (match goal with |- context [show_4d ?n] => let l := eval vm_compute in (show_4d n) in change (show_4d n) with l end);
    (destruct text as [|ch text]; [reflexivity|]); change (isdigit ch = false) in Hd; cbn; unfold scan_digits; cbn; by rewrite Hd.
Qed.

Lemma show_4d_length sn : 1 ≤ sn ≤ 10 → length (show_4d sn) = 4%nat.
Proof. intros Hsn. by destruct (client_number sn Hsn) as [->|[->|[->|[->|[->|[->|[->|[->|[->| ->]]]]]]]]]. Qed.

Lemma char_at_text sn text i : 1 ≤ sn ≤ 10 → char_at (show_4d sn ++ text) (4 + i) = char_at text i.
Proof. intros Hsn. unfold char_at. pose proof (show_4d_length sn Hsn) as E. rewrite lookup_app_r by lia. do 2 f_equal. lia. Qed.

Lemma drop_text sn text i : 1 ≤ sn ≤ 10 → drop (4 + i) (show_4d sn ++ text) = drop i text.
Proof.
  intros Hsn. rewrite <-(drop_drop _ i 4). f_equal. rewrite <-(show_4d_length sn Hsn). apply drop_app_length.
Qed.

Lemma cut_line_spec l : cut_line l ⊆ l ∧ 10 ∉ cut_line l ∧ (length (cut_line l) ≤ length l)%nat.
Proof.
  induction l as [|c l (IH1 & IH2 & IH3)]; cbn; [by split; [|split; [apply not_elem_of_nil|]]|].
  destruct (Z.eqb_spec c 10); [split; [set_solver|]; split; [apply not_elem_of_nil|cbn; lia]|].
  split; [set_solver|]. split; [|cbn; lia]. by apply not_elem_of_cons.
Qed.

Lemma parse_nickname_ok msg : nick_ok (parse_nickname msg).
Proof.
  unfold parse_nickname. set (l := _ <$> _). destruct (cut_line_spec l) as (H1 & H2 & H3). split; [|split; [|done]].
  - unfold zlen, NICKNAME_L. assert (length l ≤ 10)%nat; [|lia]. unfold l. rewrite length_fmap, length_take. lia.
  - intros H. apply H1 in H. unfold l in H. apply list_elem_of_fmap in H as (c & E & _). destruct (Z.eqb_spec c 32); lia.
Qed.

Lemma find_nickname_spec nick s c st : bbs_inv s c st →
  ∃ o, find_nickname nick s = Ok o ∧
    (o = None → ∀ i x, i ≤ max_sn s → aget (sn_attri s) i = Ok x → nickname x ≠ nick).
Proof.
  intros HI. destruct (n_range _ _ _ HI) as (_ & Hm & Hc). unfold MAX_CONN_NUM in Hc. unfold find_nickname.
  apply (loop_spec
    (λ i, 0 ≤ i ≤ max_sn s + 1 ∧ ∀ j x, j < i → aget (sn_attri s) j = Ok x → nickname x ≠ nick)
    (λ o, o = None → ∀ i x, i ≤ max_sn s → aget (sn_attri s) i = Ok x → nickname x ≠ nick)
    (λ i, Z.to_nat (max_sn s + 1 - i))); [|split; [lia|]|lia].
  - intros i [Hi Hno]. destruct (Z.ltb_spec (max_sn s) i).
    + eexists. split; [done|]. intros _ j x Hj. apply Hno. lia.
    + destruct (entry_in s c st i HI) as [x Hx]; [lia|]. rewrite Hx. cbn. case_decide as E.
      * eexists. split; [done|]. done.
      * eexists. split; [done|]. split; [split; [lia|]|lia]. intros j y Hj Hy.
        destruct (decide (j = i)) as [->|]; [by assert (y = x) as -> by congruence|]. apply (Hno j); [lia|done].
  - intros j x Hj Hx. apply aget_range in Hx. lia.
Qed.

Lemma nick_length s c st i x : bbs_inv s c st → aget (sn_attri s) i = Ok x → zlen (nickname x) < 11.
Proof. intros HI Hx. by destruct (n_entry _ _ _ HI i x Hx) as ((H & _) & _). Qed.

Lemma list_connectors_spec sn s c st : bbs_inv s c st → 0 ≤ sn ≤ 10 →
  ∃ s', list_connectors accepts sn s = Ok s' ∧ same_table s s'.
Proof.
  intros HI Hsn. destruct (n_range _ _ _ HI) as (_ & Hm & Hc). unfold MAX_CONN_NUM in Hc. unfold list_connectors.
  destruct (write__spec sn (10 :: str "====   connector list   =====") s Hsn) as (s1 & -> & E1 & _). cbn [mbind outcome_bind].
  assert (Em : max_sn s1 = max_sn s) by apply E1. rewrite Em.
  destruct (loop_spec (λ '(i, s'), 0 ≤ i ≤ max_sn s + 1 ∧ same_table s s') (same_table s) (λ '(i, _), Z.to_nat (max_sn s + 1 - i))
    (λ '(i, s), if max_sn s <? i then Ok (inr s)
        else a ← aget (sn_attri s) i;
          m ← into MSG_SIZE (str "sn = " ++ show_int i ++ str ", stat = " ++ stat_descriptor (stat a) ++
                             str ", nickname = " ++ nickname a);
          r ← write accepts sn m s;
          if (r.1 : bool) then Ok (inl (i + 1, r.2)) else Ok (inr r.2))) with (fuel := Z.to_nat (max_sn s + 2)) (s := (0, s1))
    as (s2 & -> & Hs2).
  - intros [i s'] [Hi [Et Em']]. rewrite Em'. destruct (Z.ltb_spec (max_sn s) i); [eexists; split; done|].
    destruct (entry_in s c st i HI) as [x Hx]; [lia|]. rewrite Et, Hx. cbn [mbind outcome_bind].
    pose proof (nick_length s c st i x HI Hx). pose proof (show_int_length i ltac:(lia)).
    pose proof (stat_descriptor_length (stat x)). fits.
    edestruct (write_spec sn) as (b & s2 & -> & E2 & _); [done|]. cbn [mbind outcome_bind fst snd].
    assert (same_table s s2) by (trans s'; done).
    destruct b; eexists; (split; [done|]); [|done]. split; [split; [lia|done]|lia].
  - split; [lia|done].
  - cbn. lia.
  - cbn [mbind outcome_bind]. edestruct (write__spec sn) as (s3 & -> & E3 & _); [done|]. exists s3. split; [done|]. by trans s2.
Qed.

(** ** The messages *)

Lemma send_all_keeps p msg s c st P : bbs_inv s c st → ∃ s', send_all accepts p msg s = Ok s' ∧ keeps P c st s s'.
Proof. intros HI. destruct (send_all_spec p msg s c st HI) as (s' & -> & Hs & _). exists s'. split; [done|]. by apply keeps_same. Qed.

Lemma write_keeps sn msg s c st P : bbs_inv s c st → 0 ≤ sn ≤ 10 → ∃ s', write_ accepts sn msg s = Ok s' ∧ keeps P c st s s'.
Proof. intros HI Hsn. destruct (write__spec sn msg s Hsn) as (s' & -> & Hs & _). exists s'. split; [done|]. by apply keeps_same. Qed.

(** A client whose messages are looked at has its place among the accepted. *)
Lemma active_accepted s c st sn x : bbs_inv s c st → 1 ≤ sn → aget (sn_attri s) sn = Ok x → stat x ≠ STAT_EMPTY → 1 ≤ sn ≤ st.
Proof.
  intros HI Hsn Hx Hs. split; [done|]. destruct (n_entry _ _ _ HI sn x Hx) as (_ & _ & H & _).
  destruct (Z.ltb_spec st sn); [|done]. rewrite H in Hs by done. done.
Qed.

Lemma ended_ok s c st sn x : bbs_inv s c st → 1 ≤ sn → aget (sn_attri s) sn = Ok x → stat x ≠ STAT_EMPTY →
  entry_ok st sn (Attri STAT_ENDED (nickname x)).
Proof.
  intros HI Hsn Hx Hs. pose proof (active_accepted s c st sn x HI Hsn Hx Hs).
  destruct (n_entry _ _ _ HI sn x Hx) as (Hn & _). split; [done|]. split; [lia|]. split; [lia|]. intros _. by right; right.
Qed.

(** The two assignments of [rename]. *)
Lemma rename_changed sn nick s x : aget (sn_attri s) sn = Ok x →
  ∃ s', (s ← set_nickname sn nick s; set_stat sn STAT_NORMAL s) = Ok s' ∧
    entry_changed sn x (Attri STAT_NORMAL nick) s s'.
Proof.
  intros Hx. destruct (set_nickname_spec sn nick s x Hx) as (s1 & -> & H1 & _). cbn.
  pose proof (entry_changed_get _ _ _ _ _ sn H1) as Hx1. rewrite decide_True in Hx1 by done.
  destruct (set_stat_spec sn STAT_NORMAL s1 _ Hx1) as (s2 & -> & (_ & E2 & M2) & _). exists s2. split; [done|].
  destruct H1 as (_ & E1 & M1). split; [done|]. split; [|congruence]. rewrite E2, E1. apply list_insert_insert_eq.
Qed.

Lemma rename_spec sn msg s c st x : bbs_inv s c st → 1 ≤ sn → aget (sn_attri s) sn = Ok x → stat x ≠ STAT_EMPTY →
  ∃ s' m, rename accepts sn msg s = Ok (s', m) ∧ keeps (sn ≤ max_sn s) c st s s'.
Proof.
  intros HI Hsn Hx Hst. pose proof (active_accepted s c st sn x HI Hsn Hx Hst) as Hle.
  destruct (n_range _ _ _ HI) as (Hst' & _ & Hc). unfold MAX_CONN_NUM in Hc. unfold rename.
  destruct (parse_nickname_ok msg) as [Hl _].
  set (nick := parse_nickname msg) in *. pose proof (nick_length s c st sn x HI Hx) as Hl'. case_decide as Ha.
  { fits. edestruct write_keeps as (s1 & -> & H1); [done|lia|]. by eexists _, _. }
  destruct (find_nickname_spec nick s c st HI) as ([i|] & -> & Hno); cbn [mbind outcome_bind].
  { fits. edestruct write_keeps as (s1 & -> & H1); [done|lia|]. by eexists _, _. }
  rewrite Hx. cbn [mbind outcome_bind].
  destruct (rename_changed sn nick (print (NickChanged sn (nickname x) nick) s) x Hx) as (s1 & E1 & H1).
  assert (K1 : keeps (sn ≤ max_sn s) c st s s1).
  { eapply changed_keeps; [done|exact H1| |].
    - split; [apply parse_nickname_ok|]. split; [lia|]. split; [lia|]. intros _. right. left. done.
    - right. split; [done|]. cbn [nickname]. intros i y. by apply Hno. }
  apply bind_Ok in E1 as (s0 & -> & E1). cbn [mbind outcome_bind]. rewrite E1. cbn [mbind outcome_bind].
  set (m := if stat x =? STAT_ACCEPTED then _ else _).
  assert (Hm : into MSG_SIZE m = Ok m) by (unfold m; destruct (stat x =? STAT_ACCEPTED); fits; done).
  rewrite Hm. cbn [mbind outcome_bind].
  edestruct (send_all_keeps (λ _, true)) as (s2 & -> & K2); [apply K1|]. cbn [mbind outcome_bind]. eexists _, _. split; [done|].
  by eapply keeps_trans.
Qed.

(** A text that ends in the buffer is taken over with the number of its client. *)
Lemma client_text_eq sn text s : 1 ≤ sn ≤ 10 → zlen text < BUFFER_SIZE →
  client_text accepts sn text s = client_message accepts (show_4d sn ++ text) s.
Proof.
  intros Hsn Ht. unfold client_text, recv_send_data. rewrite into_Ok by done. cbn [mbind outcome_bind].
  rewrite into_Ok; [done|]. rewrite zlen_app. unfold zlen at 1. rewrite show_4d_length by done.
  unfold MSG_SIZE, NICKNAME_L in *. lia.
Qed.

Lemma client_text_inv sn text s s' : 1 ≤ sn ≤ 10 → client_text accepts sn text s = Ok s' →
  zlen text < BUFFER_SIZE ∧ client_message accepts (show_4d sn ++ text) s = Ok s'.
Proof.
  intros Hsn H. assert (Ht : zlen text < BUFFER_SIZE); [|split; [done|by rewrite <-client_text_eq]].
  unfold client_text, recv_send_data in H. apply bind_Ok in H as (i & H & _). apply bind_Ok in H as (t & H & _).
  by apply into_inv in H as [_ ?].
Qed.

Lemma msg_text_length sn text k : 1 ≤ sn ≤ 10 → zlen (drop (4 + k) (show_4d sn ++ text)) ≤ zlen text.
Proof. intros Hsn. rewrite drop_text by done. apply zlen_drop_le. Qed.

Lemma private_keeps P n sn text s c st x : bbs_inv s c st → 1 ≤ n ≤ 10 → zlen text < BUFFER_SIZE →
  aget (sn_attri s) sn = Ok x →
  ∃ s', private_message accepts sn (show_4d n ++ text) s = Ok s' ∧ keeps P c st s s'.
Proof.
  intros HI Hn Ht Hx. unfold private_message. pose proof (nick_length s c st sn x HI Hx).
  pose proof (msg_text_length n text 1 Hn) as Hb. change (4 + 1)%nat with 5%nat in Hb.
  set (body := drop 5 _) in *. set (k := if _ =? 32 then _ else _). pose proof (zlen_drop_le k body).
  rewrite into_Ok by lia. cbn [mbind outcome_bind]. rewrite Hx. cbn [mbind outcome_bind]. fits. by apply send_all_keeps.
Qed.

Lemma broadcast_keeps P n sn text s c st x : bbs_inv s c st → 1 ≤ n ≤ 10 → zlen text < BUFFER_SIZE →
  aget (sn_attri s) sn = Ok x →
  ∃ s', broadcast accepts sn (show_4d n ++ text) s = Ok s' ∧ keeps P c st s s'.
Proof.
  intros HI Hn Ht Hx. unfold broadcast. pose proof (nick_length s c st sn x HI Hx).
  pose proof (msg_text_length n text 0 Hn) as Hb. change (4 + 0)%nat with 4%nat in Hb.
  rewrite into_Ok by lia. cbn [mbind outcome_bind]. rewrite Hx. cbn [mbind outcome_bind]. fits. by apply send_all_keeps.
Qed.

Lemma client_spec sn text s c st : bbs_inv s c st → 1 ≤ sn ≤ c → isdigit (char_at text 0) = false → zlen text < BUFFER_SIZE →
  ∃ s', client_text accepts sn text s = Ok s' ∧ keeps (sn ≤ max_sn s) c st s s'.
Proof.
  intros HI Hsn Hd Ht. destruct (n_range _ _ _ HI) as (_ & Hm & Hc). unfold MAX_CONN_NUM in Hc.
  rewrite client_text_eq by (done || lia).
  unfold client_message. rewrite scan_show by (done || lia). cbn [mbind outcome_bind of_option].
  rewrite into_Ok by (pose proof (zlen_scan_s text); lia). cbn [mbind outcome_bind].
  destruct (entry_in s c st sn HI) as [x Hx]; [lia|]. rewrite Hx. cbn [mbind outcome_bind].
  destruct (negb (stat x =? STAT_ACCEPTED) && negb (stat x =? STAT_NORMAL)) eqn:Est.
  { exists s. split; [done|]. by apply keeps_same. }
  assert (Hst : stat x ≠ STAT_EMPTY) by (intros E; by rewrite E in Est).
  destruct ((stat x =? STAT_ACCEPTED) && negb _) in |- *; [apply write_keeps; [done|lia]|].
  set (msg := show_4d sn ++ text). destruct (char_at msg 4 =? 35).
  - assert (H1 : ∃ s1 x1, (if char_at msg 5 =? 48 then change_stat sn STAT_ENDED s else Ok s) = Ok s1 ∧
        keeps (sn ≤ max_sn s) c st s s1 ∧ aget (sn_attri s1) sn = Ok x1 ∧ stat x1 ≠ STAT_EMPTY).
    { destruct (_ =? 48).
      - destruct (change_stat_spec sn STAT_ENDED s x Hx) as (s1 & -> & H1 & _). eexists s1, _. split; [done|].
        split; [|split; [rewrite (entry_changed_get _ _ _ _ _ _ H1); by rewrite decide_True|done]].
        eapply changed_keeps; [done|done| |by left]. eapply ended_ok; [done|lia|done|done].
      - exists s, x. split; [done|]. split; [by apply keeps_same|done]. }
    destruct H1 as (s1 & x1 & -> & K1 & Hx1 & Hst1). cbn [mbind outcome_bind]. pose proof K1 as (HI1 & Em1 & _).
    assert (H2 : ∃ s2 m, (if char_at msg 5 =? 49 then rename accepts sn msg s1 else Ok (s1, msg)) = Ok (s2, m) ∧
        keeps (sn ≤ max_sn s) c st s1 s2).
    { destruct (_ =? 49); [|eexists _, _; split; [done|by apply keeps_same]]. rewrite <-Em1.
      eapply rename_spec; [done|lia|done|done]. }
    destruct H2 as (s2 & m & -> & K2). cbn [mbind outcome_bind fst snd]. pose proof K2 as (HI2 & _).
    destruct (_ =? 50).
    + destruct (list_connectors_spec sn s2 c st HI2) as (s3 & -> & Hs3); [lia|]. exists s3. split; [done|].
      eapply keeps_trans; [done|]. eapply keeps_trans; [done|]. by apply keeps_same.
    + exists s2. split; [done|]. by eapply keeps_trans.
  - destruct (_ =? 64).
    + unfold msg. apply (private_keeps _ sn sn text s c st x); [done|lia|done|done].
    + unfold msg. apply (broadcast_keeps _ sn sn text s c st x); [done|lia|done|done].
Qed.

(** A text that starts with a digit is taken for one of another client, but not
    for a command: it changes no entry. *)
Lemma client_digit sn text s c st s' : bbs_inv s c st → 1 ≤ sn ≤ 10 → isdigit (char_at text 0) = true →
  client_text accepts sn text s = Ok s' → ∀ P, keeps P c st s s'.
Proof.
  intros HI Hsn Hd [Ht H]%client_text_inv P; [|done].
  pose proof (char_at_text sn text 0 Hsn) as Ec. cbn [Nat.add] in Ec.
  assert (Hch : 48 ≤ char_at text 0 ≤ 57) by (unfold isdigit in Hd; lia).
  unfold client_message in H. destruct (scan_4d _) as [[n rest]|]; [|done]. cbn [of_option mbind outcome_bind] in H.
  apply bind_Ok in H as (w & _ & H). apply bind_Ok in H as (a & Ha & H). rewrite Ec in H.
  destruct (negb _ && negb _); [injection H as <-; by apply keeps_same|].
  destruct (_ && negb _); [apply write__same in H; by apply keeps_same|].
  rewrite (proj2 (Z.eqb_neq _ 35)), (proj2 (Z.eqb_neq _ 64)) in H by lia.
  destruct (broadcast_keeps P sn n text s c st a HI Hsn Ht Ha) as (s1 & E & HK). rewrite E in H. by injection H as <-.
Qed.

Lemma atoi_console msg s s' : pipe_data accepts (ConsoleMsg msg) s = Ok s' →
  zlen msg < BUFFER_SIZE ∧ (is_ok (atoi (drop 1 msg)) ∨ char_at msg 0 ≠ 64).
Proof.
  cbn. unfold console_message. intros (m & [-> Hl]%into_inv & H)%bind_Ok. split; [done|]. revert H. destruct (Z.eqb_spec (char_at msg 0) 64); [|by right]. intros H%bind_Ok. left.
  destruct H as (z & -> & _). apply is_ok_Ok.
Qed.

(** A console text is defined if it ends in the buffer and its number fits an
    [int]. *)
Lemma console_spec msg s c st : bbs_inv s c st → zlen msg < BUFFER_SIZE → is_ok (atoi (drop 1 msg)) ∨ char_at msg 0 ≠ 64 →
  ∃ s', pipe_data accepts (ConsoleMsg msg) s = Ok s' ∧ ∀ P, keeps P c st s s'.
Proof.
  intros HI Hl Hat. destruct (n_range _ _ _ HI) as (_ & Hm & Hc). unfold MAX_CONN_NUM in Hc. cbn [pipe_data]. unfold console_message.
  rewrite into_Ok by done. cbn [mbind outcome_bind].
  destruct (entry_in s c st 0 HI) as [x0 Hx0]; [lia|]. pose proof (nick_length s c st 0 x0 HI Hx0) as Hn0.
  destruct (Z.eqb_spec (char_at msg 0) 64) as [E|_].
  - destruct Hat as [[sn ->]|]; [|done]. cbn [mbind outcome_bind].
    destruct ((0 <? sn) && (sn <=? max_sn s)) eqn:Hsn; [|exists s; split; [done|]; intros P; by apply keeps_same].
    apply andb_true_iff in Hsn as [Hsn1%Z.ltb_lt Hsn2%Z.leb_le].
    destruct (entry_in s c st sn HI) as [x Hx]; [lia|]. rewrite Hx. cbn [mbind outcome_bind].
    destruct (Z.eqb_spec (stat x) STAT_NORMAL) as [Hs|]; [|exists s; split; [done|]; intros P; by apply keeps_same].
    rewrite Hx0. cbn [mbind outcome_bind]. destruct (_ && _).
    + destruct (change_stat_spec sn STAT_ENDED s x Hx) as (s1 & -> & H1 & _). cbn [mbind outcome_bind]. fits.
      assert (K1 : ∀ P, keeps P c st s s1).
      { intros P. eapply changed_keeps; [done|done| |by left]. eapply ended_ok; [done|lia|done|]. by rewrite Hs. }
      edestruct write__spec as (s2 & -> & H2 & _); [|exists s2; split; [done|]]; [lia|]. intros P.
      eapply keeps_trans; [done|]. apply keeps_same; [apply (K1 P)|done].
    + set (k := S (length _)). pose proof (zlen_drop_le k msg). fits.
      edestruct write__spec as (s2 & -> & H2 & _); [|exists s2; split; [done|]]; [lia|]. intros P. by apply keeps_same.
  - destruct (_ =? 35).
    + edestruct (for_range_spec (λ _ s', same_table s s')) as (s1 & E1 & H1); [| | |exists s1; split; [exact E1|]]; [lia|done| |].
      * intros i s1 Hi [Et Em]. destruct (entry_in s c st i HI) as [x Hx]; [lia|]. cbn beta. rewrite Et, Hx. cbn.
        eexists. split; [done|]. done.
      * intros P. by apply keeps_same.
    + rewrite Hx0. cbn [mbind outcome_bind]. fits. edestruct send_all_spec as (s1 & -> & H1 & _); [done|]. exists s1. split; [done|].
      intros P. by apply keeps_same.
Qed.

(** ** All runs *)

Lemma start_entry i x : aget (sn_attri bbs_start) i = Ok x → x = Attri STAT_EMPTY (if i =? 0 then console_name else anonymous).
Proof.
  intros [Hi Hx]%aget_Ok. destruct (Z.eqb_spec i 0) as [->|]; [by injection Hx as <-|].
  cbn [bbs_start sn_attri] in Hx. rewrite lookup_cons_ne_0 in Hx by lia. by apply lookup_replicate in Hx as [-> _].
Qed.

Lemma bbs_start_inv : bbs_inv bbs_start 0 0 ∧ bbs_unique bbs_start.
Proof.
  split; split.
  - done.
  - done.
  - intros i x Hx. pose proof (aget_range _ _ _ Hx). rewrite (start_entry i x Hx). split; [|destruct (Z.eqb_spec i 0); by intuition lia].
    destruct (i =? 0); (split; [done|]); split; apply (bool_decide_unpack _); by vm_compute.
  - intros i x Hx. rewrite (start_entry i x Hx). destruct (Z.eqb_spec i 0); [by subst|done].
  - intros i j x y Hx Hy. rewrite (start_entry i x Hx), (start_entry j y Hy).
    destruct (Z.eqb_spec i 0), (Z.eqb_spec j 0); cbn; intros E Hn; congruence.
Qed.

Lemma accept_spec s c st s' : bbs_inv s c st → st < c → pipe_data accepts (accepted (st + 1)) s = Ok s' →
  bbs_inv s' c (st + 1) ∧ (bbs_unique s → bbs_unique s').
Proof.
  intros HI Hlt. destruct (n_range _ _ _ HI) as (Hst & Hm & Hc). cbn. unfold MAX_CONN_NUM in Hc.
  destruct (entry_in s c st (st + 1) HI) as [x Hx]; [lia|].
  destruct (change_stat_spec (st + 1) STAT_ACCEPTED s x Hx) as (s1 & -> & H1 & _). intros [= <-].
  pose proof (n_entry _ _ _ HI _ _ Hx) as (Hn & _ & Ha & _). specialize (Ha ltac:(lia)).
  assert (Hget : ∀ i y, aget (sn_attri s1) i = Ok y → i = st + 1 ∧ y = Attri STAT_ACCEPTED anonymous ∨ i ≠ st + 1 ∧ aget (sn_attri s) i = Ok y).
  { intros i y. rewrite (entry_changed_get _ _ _ _ _ _ H1), Ha. case_decide; [intros [= <-]; by left|by right]. }
  destruct H1 as (_ & Et & Em). split; [split|].
  - rewrite Et, zlen_insert. apply HI.
  - rewrite Em. unfold MAX_CONN_NUM. lia.
  - intros i y Hy. destruct (Hget i y Hy) as [(-> & ->)|[Hi Hy']].
    + rewrite Ha in Hn. split; [done|]. split; [lia|]. split; [lia|]. intros _. by left.
    + destruct (n_entry _ _ _ HI i y Hy') as (N1 & N2 & N3 & N4). split; [done|]. split; [done|].
      split; [intros; apply N3; lia|intros; apply N4; lia].
  - intros [U1 U2]. split.
    + intros i y Hy Hn'. rewrite Em. destruct (Hget i y Hy) as [(-> & ->)|[Hi Hy']]; [done|by eapply U1].
    + intros i j y z Hy Hz E Hn'. destruct (Hget i y Hy) as [(-> & ->)|[Hi Hy']]; [done|].
      destruct (Hget j z Hz) as [(-> & ->)|[Hj Hz']]; [done|by eapply U2].
Qed.

Lemma bbs_reach_inv timely s c st : bbs_reach timely s c st → bbs_inv s c st ∧ (timely = true → bbs_unique s).
Proof.
  induction 1 as [|s c st _ [HI HU] Hc|s c st s' _ [HI HU] Hlt Hs|s c st s' _ [HI HU] Hlt Hs|s c st sn text s' _ [HI HU] Hsn Ht Hs|s c st text s' _ [HI HU] Hs].
  - destruct bbs_start_inv. done.
  - split; [|done]. destruct HI as [H1 H2 H3]. split; [done|lia|done].
  - destruct (accept_spec s c st s' HI Hlt Hs) as [HI' HU']. split; [done|]. auto.
  - cbn in Hs. injection Hs as <-. destruct HI as [H1 H2 H3]. split; [by split; cbn; [|lia|]|]. intros [U1 U2]%HU.
    split; [|done]. intros i x Hx Hn. cbn. pose proof (U1 i x Hx Hn). lia.
  - pose proof (n_range _ _ _ HI) as (_ & _ & Hc). unfold MAX_CONN_NUM in Hc. assert (Hsn' : 1 ≤ sn ≤ 10) by lia.
    destruct (client_text_inv _ _ _ _ Hsn' Hs) as [Hl _]. destruct (isdigit (char_at text 0)) eqn:Hd.
    + destruct (client_digit sn text s c st s' HI Hsn' Hd Hs True) as (HI' & _ & HU'). split; [done|]. auto.
    + destruct (client_spec sn text s c st HI Hsn Hd Hl) as (s1 & E & HI' & _ & HU'). rewrite E in Hs. injection Hs as <-.
      split; [done|]. auto.
  - destruct (atoi_console _ _ _ Hs) as [Hl Hat]. destruct (console_spec text s c st HI Hl Hat) as (s1 & E & HK). rewrite E in Hs. injection Hs as <-.
    split; [apply (HK True)|]. intros Ht. destruct (HK True) as (_ & _ & HU'). auto.
Qed.

(** ** Who receives a text *)

Lemma recipients_NoDup p l n : NoDup (recipients p l n).
Proof. apply NoDup_filter, NoDup_seqZ. Qed.

Lemma normal_named s c st i y : bbs_inv s c st → aget (sn_attri s) i = Ok y → stat y = STAT_NORMAL → 1 ≤ i ∧ nickname y ≠ anonymous.
Proof.
  intros HI Hy Hs. destruct (n_entry _ _ _ HI i y Hy) as (_ & N2 & N3 & N4).
  pose proof (aget_range _ _ _ Hy). assert (i ≠ 0) by (intros ->; by rewrite N2 in Hs). split; [lia|].
  destruct (Z.ltb_spec st i); [by rewrite N3 in Hs|].
  destruct N4 as [[E _]|[[_ E]|E]]; [lia|by rewrite E in Hs|done|by rewrite E in Hs].
Qed.

Lemma recipients_in s c st p i : bbs_inv s c st → bbs_unique s →
  i ∈ recipients p (sn_attri s) (max_sn s) ↔ ∃ y, aget (sn_attri s) i = Ok y ∧ stat y = STAT_NORMAL ∧ p y = true.
Proof.
  intros HI HU. unfold recipients. rewrite list_elem_of_filter, elem_of_seqZ. split.
  - intros [H _]. destruct (aget _ i) as [y|]; [|done]. apply andb_true_iff in H as [H1%Z.eqb_eq H2]. by exists y.
  - intros (y & Hy & Hs & Hp). rewrite Hy, Hs, Hp. split; [done|]. destruct (normal_named s c st i y HI Hy Hs) as [H1 Hn].
    pose proof (n_counted _ HU i y Hy Hn). lia.
Qed.

Lemma addressee_spec n nick body : (length nick ≤ n)%nat → 32 ∉ nick → addressee n (nick ++ 32 :: body) = length nick.
Proof.
  revert n. induction nick as [|ch nick IH]; intros n Hl Hsp; [by destruct n|].
  destruct n as [|n]; cbn in *; [lia|]. apply not_elem_of_cons in Hsp as [H1 H2].
  destruct (Z.eqb_spec ch 32); [congruence|]. by rewrite IH by (done || lia).
Qed.

(** A text of a client with a nickname. *)
Lemma client_text_spec sn text s c st x : bbs_inv s c st → 1 ≤ sn ≤ c → aget (sn_attri s) sn = Ok x → stat x = STAT_NORMAL →
  isdigit (char_at text 0) = false → char_at text 0 ≠ 35 → zlen text < BUFFER_SIZE →
  client_text accepts sn text s =
    if char_at text 0 =? 64 then private_message accepts sn (show_4d sn ++ text) s
    else send_all accepts (λ _, true) (nickname x ++ str ": " ++ text) s.
Proof.
  intros HI Hsn Hx Hs Hd Hh Hl. destruct (n_range _ _ _ HI) as (_ & _ & Hc). unfold MAX_CONN_NUM in Hc.
  rewrite client_text_eq by (done || lia). unfold client_message.
  rewrite scan_show by (done || lia). cbn [mbind outcome_bind of_option].
  rewrite into_Ok by (pose proof (zlen_scan_s text); lia). cbn [mbind outcome_bind].
  rewrite Hx. cbn [mbind outcome_bind]. rewrite Hs. cbn [negb andb Z.eqb STAT_ACCEPTED STAT_NORMAL Pos.eqb].
  pose proof (char_at_text sn text 0) as E. cbn [Nat.add] in E. rewrite E by lia.
  rewrite (proj2 (Z.eqb_neq _ 35)) by done. destruct (_ =? 64); [done|]. unfold broadcast.
  pose proof (drop_text sn text 0) as Ed. cbn [Nat.add] in Ed. rewrite Ed by lia. change (drop 0 text) with text.
  rewrite into_Ok by done. cbn [mbind outcome_bind]. rewrite Hx. cbn [mbind outcome_bind].
  pose proof (nick_length s c st sn x HI Hx). by fits.
Qed.

Lemma private_spec sn nick body s x : 1 ≤ sn ≤ 10 → aget (sn_attri s) sn = Ok x → zlen (nickname x) < 11 → nick_ok nick →
  zlen (64 :: nick ++ 32 :: body) < BUFFER_SIZE →
  private_message accepts sn (show_4d sn ++ 64 :: nick ++ 32 :: body) s =
    send_all accepts (λ b, bool_decide (nickname b = nick)) (nickname x ++ str "@: " ++ body) s.
Proof.
  intros Hsn Hx Hnx (Hl & Hsp & _) Hlen. unfold private_message. pose proof (drop_text sn (64 :: nick ++ 32 :: body) 1 Hsn) as Ed.
  change (4 + 1)%nat with 5%nat in Ed. rewrite Ed. change (drop 1 (64 :: nick ++ 32 :: body)) with (nick ++ 32 :: body).
  rewrite addressee_spec by (unfold zlen, NICKNAME_L in Hl; done || lia).
  rewrite take_app_length. pose proof (char_at_text sn (64 :: nick ++ 32 :: body) (S (length nick)) Hsn) as Ec.
  replace (4 + S (length nick))%nat with (5 + length nick)%nat in Ec by lia. rewrite Ec.
  assert (El : char_at (64 :: nick ++ 32 :: body) (S (length nick)) = 32).
  { unfold char_at. rewrite lookup_cons. by rewrite list_lookup_middle. }
  rewrite El, Z.eqb_refl.
  replace (drop (S (length nick)) (nick ++ 32 :: body)) with body
    by (by rewrite (cons_middle 32), (assoc_L (++)), drop_app_length' by (rewrite length_app; cbn; lia)).
  rewrite !zlen_cons, zlen_app, zlen_cons in Hlen. pose proof (zlen_nonneg nick).
  rewrite into_Ok by lia. cbn [mbind outcome_bind]. rewrite Hx. cbn [mbind outcome_bind]. by fits.
Qed.

(** ** The properties *)

(** [C29] In every run of the server, in whatever order the messages of the
    processes arrive and as long as the code is defined, the table of the
    clients is well formed (11 entries, each nickname without spaces and shorter
    than its array, entry 0 that of the console, a client anonymous exactly
    until it has been named). Any text of a client that ends within the buffer
    of 1024 characters it is received in, and does not start with a digit, is
    answered without leaving the table or overflowing a buffer; a text that does
    not end there is undefined. *)
Theorem bbs_well_formed s c st : bbs_reach false s c st →
  bbs_inv s c st ∧
  ∀ sn text, 1 ≤ sn ≤ c →
    (zlen text < BUFFER_SIZE → isdigit (char_at text 0) = false →
       ∃ s', client_text accepts sn text s = Ok s' ∧ bbs_inv s' c st) ∧
    (BUFFER_SIZE ≤ zlen text → client_text accepts sn text s = Err Undef).
Proof.
  intros [HI _]%bbs_reach_inv. split; [done|]. intros sn text Hsn. split.
  - intros Hl Hd. destruct (client_spec sn text s c st HI Hsn Hd Hl) as (s' & E & HI' & _). by exists s'.
  - intros Hl. unfold client_text, recv_send_data. by rewrite into_Err.
Qed.

(** [C30] If no text is read before the number of its connection, then at any time no
    two connections have the same nickname (other than that of the connections that
    have not been named), closed connections included. *)
Theorem nicknames_unique s c st i j x y : bbs_reach true s c st →
  aget (sn_attri s) i = Ok x → aget (sn_attri s) j = Ok y → nickname x = nickname y → nickname x ≠ anonymous → i = j.
Proof. intros [_ HU]%bbs_reach_inv. by apply (n_unique s (HU eq_refl)). Qed.

(** [C31] When all pipes take the messages and numbers are read before texts, a text
    of a named client that starts neither with a digit nor with '#' nor with '@' and
    ends within its buffer of 1024 characters is delivered to exactly the connected
    named clients, once each, with the nickname of its sender; and "@name text",
    within the buffer, is delivered to exactly the client with that nickname. *)
Theorem bbs_delivers s c st sn x : bbs_reach true s c st → (∀ l i, accepts l i = true) →
  1 ≤ sn ≤ c → aget (sn_attri s) sn = Ok x → stat x = STAT_NORMAL →
  (∀ text, zlen text < BUFFER_SIZE → isdigit (char_at text 0) = false → char_at text 0 ≠ 35 → char_at text 0 ≠ 64 →
    ∃ s' l, client_text accepts sn text s = Ok s' ∧
      sent s' = sent s ++ ((λ i, (i, nickname x ++ str ": " ++ text)) <$> l) ∧
      NoDup l ∧ ∀ i, i ∈ l ↔ ∃ y, aget (sn_attri s) i = Ok y ∧ stat y = STAT_NORMAL) ∧
  (∀ i y text, aget (sn_attri s) i = Ok y → stat y = STAT_NORMAL →
    zlen (64 :: nickname y ++ 32 :: text) < BUFFER_SIZE →
    ∃ s', client_text accepts sn (64 :: nickname y ++ 32 :: text) s = Ok s' ∧
      sent s' = sent s ++ [(i, nickname x ++ str "@: " ++ text)]).
Proof.
  intros [HI HU]%bbs_reach_inv Hacc Hsn Hx Hs. specialize (HU eq_refl). pose proof (n_range _ _ _ HI) as (_ & _ & Hc).
  unfold MAX_CONN_NUM in Hc. split.
  - intros text Hl Hd Hh Ha. rewrite (client_text_spec sn text s c st x) by done. rewrite (proj2 (Z.eqb_neq _ 64)) by done.
    edestruct send_all_spec as (s' & -> & _ & Hsent); [done|]. eexists s', _. split; [done|]. split; [by apply Hsent|].
    split; [apply recipients_NoDup|]. intros i. rewrite recipients_in by done. naive_solver.
  - intros i y text Hy Hsy Hl. rewrite (client_text_spec sn _ s c st x) by done. cbn [char_at]. cbn [lookup list_lookup].
    change (default 0 _ =? 64) with true. cbv iota. pose proof (n_entry _ _ _ HI i y Hy) as (Hn & _).
    rewrite (private_spec _ _ _ _ x) by (done || lia || by eapply nick_length).
    edestruct send_all_spec as (s' & -> & _ & Hsent); [done|]. exists s'. split; [done|]. rewrite Hsent by done. f_equal.
    set (l := recipients _ _ _). assert (El : l = [i]); [|by rewrite El].
    apply Permutation_singleton_r. apply NoDup_Permutation; [apply recipients_NoDup|apply NoDup_singleton|].
    intros j. unfold l. rewrite recipients_in by done. rewrite list_elem_of_singleton. split.
    + intros (z & Hz & Hsz & E%bool_decide_eq_true). apply (n_unique s HU j i z y Hz Hy E).
      by apply (normal_named s c st j z).
    + intros ->. exists y. by rewrite bool_decide_true.
Qed.
End bbs.

(** ** Concrete runs *)

Definition open_pipes (l : list (Z * list Z)) (i : Z) : bool := true.

Definition run (steps : list (bbs → outcome bbs)) : bbs :=
  match mfold (λ f s, f s) steps bbs_start with Ok s => s | Err _ => bbs_start end.

Definition comes (i : input) : bbs → outcome bbs := pipe_data open_pipes i.
Definition says (sn : Z) (text : string) : bbs → outcome bbs := client_text open_pipes sn (str text).

Definition bob_and_amy_msgs : list (bbs → outcome bbs) :=
  [comes (accepted 1); comes (counted 1); says 1 "#1bob"; comes (accepted 2); comes (counted 2); says 2 "#1amy"].

(** Two clients with the nicknames bob and amy. *)
Definition bob_and_amy : bbs := run bob_and_amy_msgs.

Lemma bob_and_amy_reach timely : bbs_reach open_pipes timely bob_and_amy 2 2.
Proof.
  set (r n := run (take n bob_and_amy_msgs)).
  apply (reach_client _ _ (r 5%nat) 2 2 2 (str "#1amy")); [|lia|done|by vm_compute].
  apply (reach_count _ _ (r 4%nat)); [|done|by vm_compute].
  apply (reach_accept _ _ (r 3%nat) 2 1); [|lia|by vm_compute]. apply (reach_connect _ _ _ 1); [|done].
  apply (reach_client _ _ (r 2%nat) 1 1 1 (str "#1bob")); [|lia|done|by vm_compute].
  apply (reach_count _ _ (r 1%nat)); [|done|by vm_compute].
  apply (reach_accept _ _ (r 0%nat) 1 0); [|lia|by vm_compute]. apply (reach_connect _ _ _ 0); [|done]. apply reach_start.
Qed.

Lemma bbs_well_formed_witness : bbs_inv bob_and_amy 2 2.
Proof. exact (proj1 (bbs_well_formed open_pipes bob_and_amy 2 2 (bob_and_amy_reach false))). Defined.

(** Whoever has the nickname bob is client 1: a second client that asks for it
    does not get it. *)
Definition second_bob : bbs := run (bob_and_amy_msgs ++ [says 2 "#1bob"]).

Lemma second_bob_reach : bbs_reach open_pipes true second_bob 2 2.
Proof. apply (reach_client _ _ bob_and_amy 2 2 2 (str "#1bob")); [apply bob_and_amy_reach|lia|done|by vm_compute]. Qed.

Lemma nicknames_unique_witness :
  aget (sn_attri second_bob) 1 = Ok (Attri STAT_NORMAL (str "bob")) ∧
  ∀ j y, aget (sn_attri second_bob) j = Ok y → nickname y = str "bob" → 1 = j.
Proof.
  split; [reflexivity|]. intros j y Hy E.
  exact (nicknames_unique open_pipes second_bob 2 2 1 j (Attri STAT_NORMAL (str "bob")) y
    second_bob_reach eq_refl Hy (eq_sym E) ltac:(done)).
Defined.

(** bob writes to amy. *)
Lemma bbs_delivers_witness : ∃ s',
  client_text open_pipes 1 (str "@amy hello") bob_and_amy = Ok s' ∧
  sent s' = sent bob_and_amy ++ [(2, str "bob@: hello")].
Proof.
  exact (proj2 (bbs_delivers open_pipes bob_and_amy 2 2 1 (Attri STAT_NORMAL (str "bob"))
    (bob_and_amy_reach true) (λ _ _, eq_refl) ltac:(lia) eq_refl eq_refl) 2 (Attri STAT_NORMAL (str "amy")) (str "hello") eq_refl eq_refl eq_refl).
Defined.

(** The number of the sender is printed with %4d directly before the text and
    read back with %4d, which skips the spaces in front of it without counting
    them: a text of client 1 that starts with 0 is distributed as one of client 10,
    and one that starts with another digit makes the server leave its table. *)
Theorem digit_misread accepts s x ch text : zlen (sn_attri s) = MAX_CONN_NUM + 1 →
  aget (sn_attri s) 10 = Ok x → stat x = STAT_NORMAL → isdigit (char_at text 0) = false → 49 ≤ ch ≤ 57 →
  zlen (nickname x) < 11 → zlen text < 1023 →
  client_text accepts 1 (48 :: text) s = send_all accepts (λ _, true) (nickname x ++ str ": " ++ 48 :: text) s ∧
  client_text accepts 1 (ch :: text) s = Err Undef.
Proof.
  intros Hl Hx Hs Hd Hch Hn Ht.
  rewrite !client_text_eq by (rewrite ?zlen_cons; unfold BUFFER_SIZE; lia). unfold client_message.
  let l := eval vm_compute in (show_4d 1) in change (show_4d 1) with l.
  assert (Hscan : ∀ d, 48 ≤ d ≤ 57 → scan_4d ([32; 32; 32; 49] ++ d :: text) = Some (10 + (d - 48), text)).
  { intros d Hd'. unfold scan_4d. cbn [app skip_spaces is_space Z.eqb Pos.eqb orb Z.leb Z.compare Pos.compare Pos.compare_cont andb].
    assert (Ed : isdigit d = true) by (unfold isdigit; lia). unfold scan_digits. cbn [take_digits]. change (isdigit 49) with true. cbv iota. rewrite Ed.
    destruct text as [|c0 text]; [done|]. change (isdigit c0 = false) in Hd. rewrite Hd. done. }
  rewrite !Hscan by lia. cbn [mbind outcome_bind of_option].
  rewrite into_Ok by (pose proof (zlen_scan_s text); unfold BUFFER_SIZE; lia). cbn [mbind outcome_bind]. split.
  - change (10 + (48 - 48)) with 10. rewrite Hx. cbn [mbind outcome_bind]. rewrite Hs.
    change (([32; 32; 32; 49] ++ 48 :: text)) with ([32; 32; 32; 49] ++ (48 :: text)). cbn. unfold broadcast.
    change (drop 4 (32 :: 32 :: 32 :: 49 :: 48 :: text)) with (48 :: text).
    rewrite into_Ok by (rewrite zlen_cons; unfold BUFFER_SIZE; lia). cbn [mbind outcome_bind]. rewrite Hx. cbn [mbind outcome_bind].
    rewrite into_Ok; [done|]. rewrite !zlen_app, zlen_cons. change (zlen (str ": ")) with 2. unfold MSG_SIZE, BUFFER_SIZE, NICKNAME_L. lia.
  - assert (E : aget (sn_attri s) (10 + (ch - 48)) = Err Undef).
    { unfold aget. rewrite decide_True by lia. rewrite lookup_ge_None_2; [done|]. unfold zlen, MAX_CONN_NUM in Hl. lia. }
    by rewrite E.
Qed.

Definition ten_clients : bbs :=
  run ((n ← seqZ 1 10; [comes (accepted n); comes (counted n)]) ++ [says 10 "#1zoe"]).

(** Client 1, who has no nickname, writes "0 o'clock", and zoe says it. *)
Lemma digit_misread_witness :
  client_text open_pipes 1 (str "0 o'clock") ten_clients =
    send_all open_pipes (λ _, true) (str "zoe: 0 o'clock") ten_clients ∧
  client_text open_pipes 1 (str "5 o'clock") ten_clients = Err Undef.
Proof.
  change (str "0 o'clock") with (48 :: str " o'clock"). change (str "5 o'clock") with (53 :: str " o'clock").
  exact (digit_misread open_pipes ten_clients (Attri STAT_NORMAL (str "zoe")) 53 (str " o'clock") eq_refl eq_refl eq_refl eq_refl ltac:(lia) eq_refl eq_refl).
Defined.

(** Without the assumption of [nicknames_unique]: client 1 takes its nickname before
    it has been counted, then client 2 can take the same one. *)
Lemma nickname_race : ∃ s, bbs_reach open_pipes false s 2 2 ∧
  aget (sn_attri s) 1 = Ok (Attri STAT_NORMAL (str "bob")) ∧ aget (sn_attri s) 2 = Ok (Attri STAT_NORMAL (str "bob")).
Proof.
  set (r n := run (take n [comes (accepted 1); comes (accepted 2); says 1 "#1bob"; says 2 "#1bob"])).
  exists (r 4%nat). split; [|done].
  apply (reach_client _ _ (r 3%nat) 2 2 2 (str "#1bob")); [|lia|done|by vm_compute].
  apply (reach_client _ _ (r 2%nat) 2 2 1 (str "#1bob")); [|lia|done|by vm_compute].
  apply (reach_accept _ _ (r 1%nat) 2 1); [|lia|by vm_compute].
  apply (reach_accept _ _ (r 0%nat) 2 0); [|lia|by vm_compute].
  apply (reach_connect _ _ _ 1); [|done]. apply (reach_connect _ _ _ 0); [|done]. apply reach_start.
Qed.
