(* ===== verification/Stab.v ===== *)
(** * kdebug.c: the debugging information of the kernel

    Models src/Labweek11/lab2/kern/debug/kdebug.c and the entries of stab.h: the
    search of a table of stabs for an address, the lookup of file, function and
    line of an instruction, and what is printed for it and for the frames of the
    stack.  The table of stabs is an array, the table of their strings is in the
    memory.  The texts of the formats are in the memory at the addresses of the
    record [texts]. *)

From stdpp Require Import base list numbers gmap.
From S2P Require Import Prelude Mem CString Printfmt Console Stdio.

Definition N_FUN : Z := 36.
Definition N_SLINE : Z := 68.
Definition N_SO : Z := 100.
Definition N_SOL : Z := 132.
Definition N_PSYM : Z := 160.
Definition STACKFRAME_DEPTH : Z := 20.

Record stab := Stab { n_strx : Z; n_type : Z; n_other : Z; n_desc : Z; n_value : Z }.

Record eipdebuginfo := Info {
  eip_file : Z;
  eip_line : Z;
  eip_fn_name : Z;
  eip_fn_namelen : Z;
  eip_fn_addr : Z;
  eip_fn_narg : Z
}.

(** ** stab_binsearch *)

Section binsearch.
Context (stabs : list stab) (type : Z).

(** [while (m >= l && stabs[m].n_type != type) m --;] *)
Definition scan_back (l m : Z) : outcome Z :=
  loop (S (Z.to_nat (m - l + 1))) (λ m,
    if l <=? m then s ← aget stabs m; Ok (if n_type s =? type then inr m else inl (m - 1))
    else Ok (inr m)) m.

(** The variables of the search: [l], [r], [any_matches], [*region_left],
    [*region_right] and [addr]. *)
Record region := Region { s_l : Z; s_r : Z; any : bool; rleft : Z; rright : Z; s_addr : Z }.

(** One iteration of [while (l <= r)]. *)
Definition binsearch_step (s : region) : outcome (region + region) :=
  let '(Region l r any rl rr addr) := s in
  if l <=? r then
    sum ← cint (l + r);
    let true_m := Z.quot sum 2 in
    m ← scan_back l true_m;
    if m <? l then Ok (inl (Region (true_m + 1) r any rl rr addr))
    else
      x ← aget stabs m;
      Ok (inl (if n_value x <? addr then Region (true_m + 1) r true m rr addr
               else if addr <? n_value x then Region l (m - 1) true rl (m - 1) addr
               else Region m r true m rr (u32 (addr + 1))))
  else Ok (inr s).

Definition stab_binsearch (region_left region_right addr : Z) : outcome (Z * Z) :=
  s ← loop (2 * Z.to_nat (region_right - region_left + 1) + 2) binsearch_step
        (Region region_left region_right false region_left region_right addr);
  if negb (any s) then Ok (rleft s, rleft s - 1)
  else
    l ← loop (S (Z.to_nat (rright s - rleft s))) (λ l,
          if rleft s <? l then x ← aget stabs l; Ok (if n_type x =? type then inr l else inl (l - 1))
          else Ok (inr l)) (rright s);
    Ok (l, rright s).
End binsearch.

(** ** debuginfo_eip *)

(** Addresses of the literals of the file and of the table of strings. *)
Record texts := Texts {
  unknown : Z;
  stabstr : Z;
  stabstr_end : Z;
  fmt_unknown : Z;
  fmt_info : Z;
  fmt_frame : Z;
  fmt_args : Z;
  fmt_newline : Z;
  fmt_symbols : Z;
  fmt_entry : Z;
  fmt_etext : Z;
  fmt_edata : Z;
  fmt_end : Z;
  fmt_footprint : Z
}.

(** The symbols that the linker defines. *)
Record symbols := Symbols { kern_init : Z; etext : Z; edata : Z; end_ : Z }.

Section kdebug.
Context (stabs : list stab) (tx : texts).

(** The loop that looks backwards for the name of the file. *)
Definition find_file (lfile lline : Z) : outcome Z :=
  loop (S (Z.to_nat (lline - lfile + 1))) (λ lline,
    if lfile <=? lline then
      x ← aget stabs lline;
      Ok (if negb (n_type x =? N_SOL) && (negb (n_type x =? N_SO) || (n_value x =? 0)) then inl (lline - 1) else inr lline)
    else Ok (inr lline)) lline.

(** [for (lline = lfun + 1; lline < rfun && ...; lline ++) eip_fn_narg ++] *)
Definition count_args (lfun rfun : Z) : outcome Z :=
  loop (S (Z.to_nat (rfun - lfun))) (λ '(lline, narg),
    if lline <? rfun then
      x ← aget stabs lline; Ok (if n_type x =? N_PSYM then inl (lline + 1, narg + 1) else inr narg)
    else Ok (inr narg)) (lfun + 1, 0).

(** The string of an entry, when its index is in the table. *)
Definition stab_name (x : stab) (default : Z) : Z :=
  if n_strx x <? stabstr_end tx - stabstr tx then stabstr tx + n_strx x else default.

(** The result is what is returned, and [*info]. *)
Definition debuginfo_eip (m : mem) (addr : Z) : outcome (Z * eipdebuginfo) :=
  let info := Info (unknown tx) 0 (unknown tx) 9 addr 0 in
  last ← (if stabstr_end tx <=? stabstr tx then Ok 1 else ldb m (stabstr_end tx - 1));
  if negb (last =? 0) then Ok (-1, info)
  else
    files ← stab_binsearch stabs N_SO 0 (zlen stabs - 1) addr;
    let '(lfile, rfile) := files in
    if lfile =? 0 then Ok (-1, info)
    else
      funs ← stab_binsearch stabs N_FUN lfile rfile addr;
      let '(lfun, rfun) := funs in
      start ← (if lfun <=? rfun then
                 x ← aget stabs lfun;
                 Ok (stab_name x (unknown tx), n_value x, u32 (addr - n_value x), lfun, rfun)
               else Ok (unknown tx, addr, addr, lfile, rfile));
      let '(name, fn_addr, addr, lline, rline) := start in
      colon ← strfind m name 58;
      let namelen := colon - name in
      lns ← stab_binsearch stabs N_SLINE lline rline addr;
      let '(lline, rline) := lns in
      if rline <? lline then Ok (-1, Info (unknown tx) 0 name namelen fn_addr 0)
      else
        x ← aget stabs rline;
        i ← find_file lfile lline;
        file ← (if lfile <=? i then y ← aget stabs i; Ok (stab_name y (unknown tx)) else Ok (unknown tx));
        narg ← (if lfun <? rfun then count_args lfun rfun else Ok 0);
        Ok (0, Info file (n_desc x) name namelen fn_addr narg).

(** ** What is printed *)

Context {D : Type} `{PortIO D} (lits : literals).

(** The calls of [cprintf] one after the other. *)
Definition print_kerninfo (y : symbols) (s : mem * console D) : outcome (mem * console D) :=
  mfold (λ '(fmt, args) s, r ← cprintf lits fmt args s; Ok r.2)
    [(fmt_symbols tx, []);
     (fmt_entry tx, [kern_init y]); (fmt_etext tx, [etext y]); (fmt_edata tx, [edata y]); (fmt_end tx, [end_ y]);
     (fmt_footprint tx, [u32 (Z.quot (end_ y - kern_init y + 1023) 1024)])] s.

(** [fnname] is the address of the array of 256 characters on the stack. *)
Definition print_debuginfo (fnname eip : Z) (s : mem * console D) : outcome (mem * console D) :=
  r ← debuginfo_eip s.1 eip;
  let '(err, info) := r in
  if negb (err =? 0) then r ← cprintf lits (fmt_unknown tx) [eip] s; Ok r.2
  else
    m ← for_range 0 (eip_fn_namelen info) (λ j m,
          defined (j <? 256);; b ← ldb m (eip_fn_name info + j); stb m (fnname + j) b) s.1;
    defined (eip_fn_namelen info <? 256);;
    m ← stb m (fnname + eip_fn_namelen info) 0;
    r ← cprintf lits (fmt_info tx) [eip_file info; eip_line info; fnname; u32 (eip - eip_fn_addr info)] (m, s.2);
    Ok r.2.

(** A 32-bit word of the memory. *)
Definition load_word (m : mem) (a : Z) : outcome Z :=
  b0 ← ldb m a; b1 ← ldb m (a + 1); b2 ← ldb m (a + 2); b3 ← ldb m (a + 3);
  Ok (b0 + 2 ^ 8 * b1 + 2 ^ 16 * b2 + 2 ^ 24 * b3).

(** One frame of [print_stackframe]: the next [eip] and [ebp]. *)
Definition print_frame (fnname ebp eip : Z) (s : mem * console D) : outcome (Z * Z * (mem * console D)) :=
  r ← cprintf lits (fmt_frame tx) [ebp; eip] s;
  let s := r.2 in
  a0 ← load_word s.1 (u32 (ebp + 8)); a1 ← load_word s.1 (u32 (ebp + 12));
  a2 ← load_word s.1 (u32 (ebp + 16)); a3 ← load_word s.1 (u32 (ebp + 20));
  r ← cprintf lits (fmt_args tx) [a0; a1; a2; a3] s;
  r ← cprintf lits (fmt_newline tx) [] r.2;
  s ← print_debuginfo fnname (u32 (eip - 1)) r.2;
  eip ← load_word s.1 (u32 (ebp + 4));
  ebp ← load_word s.1 ebp;
  Ok (ebp, eip, s).

(** [ebp] and [eip] are what [read_ebp] and [read_eip] return. *)
Definition print_stackframe (fnname ebp eip : Z) (s : mem * console D) : outcome (mem * console D) :=
  loop (S (Z.to_nat STACKFRAME_DEPTH)) (λ '(i, ebp, eip, s),
    if negb (ebp =? 0) && (i <? STACKFRAME_DEPTH) then
      r ← print_frame fnname ebp eip s; let '(ebp, eip, s) := r in Ok (inl (i + 1, ebp, eip, s))
    else Ok (inr s)) (0, ebp, eip, s).
End kdebug.
