(* ===== verification/StabProps.v ===== *)
(** * The search in the table of stabs

    Properties of Stab.v: [stab_binsearch] always ends and stays in its region;
    on a table that is sorted by address it finds the entry of the address and
    the end of its region, if no entry has the next address; [debuginfo_eip]
    never leaves its tables if the first entry is not that of a source file. *)

From stdpp Require Import base list numbers gmap.
From S2P Require Import Prelude Mem CString Printfmt Console Stdio Stab.

(** ** scan_back *)

Section binsearch.
Context (stabs : list stab) (type : Z).

Definition is_match (i : Z) : Prop := ∃ x, aget stabs i = Ok x ∧ n_type x = type.

#[global] Instance is_match_dec i : Decision (is_match i).
Proof.
  unfold is_match. destruct (aget stabs i) as [x|e] eqn:E.
  - destruct (decide (n_type x = type)); [left; by exists x|right; intros (y & [= <-] & ?); done].
  - right. by intros (y & ? & _).
Defined.

Lemma entry_ok i : 0 ≤ i < zlen stabs → ∃ x, aget stabs i = Ok x.
Proof. intros Hi. destruct (aget_in_range stabs i Hi) as (x & Hx & _). by exists x. Qed.

Lemma match_type i x : is_match i → aget stabs i = Ok x → n_type x = type.
Proof. intros (y & Hy & E) Hx. congruence. Qed.

(** The last entry of the type in [l..m], or one in front of [l]. *)
Lemma scan_back_spec l m : 0 ≤ l → l - 1 ≤ m < zlen stabs →
  ∃ k, scan_back stabs type l m = Ok k ∧ l - 1 ≤ k ≤ m ∧ (l ≤ k → is_match k) ∧ ∀ i, k < i ≤ m → ¬ is_match i.
Proof.
  intros Hl Hm. unfold scan_back.
  apply (loop_spec (λ k, l - 1 ≤ k ≤ m ∧ ∀ i, k < i ≤ m → ¬ is_match i)
    (λ k, l - 1 ≤ k ≤ m ∧ (l ≤ k → is_match k) ∧ ∀ i, k < i ≤ m → ¬ is_match i) (λ k, Z.to_nat (k - l + 1))); [|split; lia|lia].
  intros k [Hk Hno]. destruct (Z.leb_spec l k); [|eexists; split; [done|]; split; [done|]; split; [lia|done]].
  destruct (entry_ok k) as [x Hx]; [lia|]. rewrite Hx. cbn. destruct (Z.eqb_spec (n_type x) type) as [E|E].
  - eexists. split; [done|]. split; [done|]. split; [by exists x|done].
  - eexists. split; [done|]. split; [split; [lia|]|lia]. intros i Hi. destruct (decide (i = k)) as [->|]; [|apply Hno; lia].
    intros Hmk. by rewrite (match_type _ _ Hmk Hx) in E.
Qed.

(** ** One iteration *)

(** What an iteration does: [tm] is the middle, [m] the last entry of the type
    up to it. *)
Inductive moves : region → region → Prop :=
| mv_none l r a rl rr ad tm :
    l ≤ tm ≤ r → (∀ i, l ≤ i ≤ tm → ¬ is_match i) →
    moves (Region l r a rl rr ad) (Region (tm + 1) r a rl rr ad)
| mv_less l r a rl rr ad tm m x :
    l ≤ m ≤ tm → tm ≤ r → aget stabs m = Ok x → n_type x = type → (∀ i, m < i ≤ tm → ¬ is_match i) → n_value x < ad →
    moves (Region l r a rl rr ad) (Region (tm + 1) r true m rr ad)
| mv_greater l r a rl rr ad m x :
    l ≤ m ≤ r → aget stabs m = Ok x → n_type x = type → ad < n_value x →
    moves (Region l r a rl rr ad) (Region l (m - 1) true rl (m - 1) ad)
| mv_equal l r a rl rr ad m x :
    l ≤ m ≤ r → aget stabs m = Ok x → n_type x = type → n_value x = ad →
    moves (Region l r a rl rr ad) (Region m r true m rr (u32 (ad + 1))).

Hypothesis Hsize : zlen stabs ≤ 2 ^ 30.
Hypothesis Hvalues : Forall (λ x, 0 ≤ n_value x < 2 ^ 32 - 1) stabs.

Lemma value_ok i x : aget stabs i = Ok x → 0 ≤ n_value x < 2 ^ 32 - 1.
Proof. intros [_ Hx]%aget_Ok. by apply (Forall_lookup_1 _ _ _ _ Hvalues Hx). Qed.

Lemma step_moves s : 0 ≤ s_l s ≤ s_r s → s_r s < zlen stabs →
  ∃ s', binsearch_step stabs type s = Ok (inl s') ∧ moves s s'.
Proof.
  destruct s as [l r a rl rr ad]. cbn. intros Hl Hr. rewrite (proj2 (Z.leb_le l r)) by lia.
  rewrite cint_Ok by (unfold int_min, int_max; lia). cbn.
  assert (Htm : l ≤ Z.quot (l + r) 2 ≤ r) by (rewrite Z.quot_div_nonneg by lia; Z.to_euclidean_division_equations; lia).
  set (tm := Z.quot (l + r) 2) in *. destruct (scan_back_spec l tm) as (m & -> & Hm & Hmt & Hno); [lia|lia|]. cbn.
  destruct (Z.ltb_spec m l).
  { eexists. split; [done|]. constructor; [done|]. intros i Hi. apply Hno. lia. }
  destruct (entry_ok m) as [x Hx]; [lia|]. rewrite Hx. cbn.
  assert (Et : n_type x = type) by (eapply match_type; [apply Hmt; lia|done]).
  eexists. split; [done|]. destruct (Z.ltb_spec (n_value x) ad).
  { by eapply (mv_less _ _ _ _ _ _ tm m x); [lia|lia|..]. }
  destruct (Z.ltb_spec ad (n_value x)); [by eapply (mv_greater _ _ _ _ _ _ m x); [lia|..]|].
  eapply (mv_equal _ _ _ _ _ _ m x); [lia|done|done|lia].
Qed.

(** An entry that was found exactly is not found exactly again at once. *)
Definition exact_at (l r ad : Z) : bool :=
  match aget stabs l with Ok x => (l <=? r) && (n_type x =? type) && (n_value x =? ad) | Err _ => false end.

Definition measure (s : region) : nat :=
  2 * Z.to_nat (s_r s - s_l s + 1) + if exact_at (s_l s) (s_r s) (s_addr s) then 1 else 0.

Lemma exact_at_le l r ad : ((if exact_at l r ad then 1 else 0) ≤ 1)%nat ∧ (r < l → exact_at l r ad = false).
Proof.
  unfold exact_at. split; [destruct (aget _ _); [destruct (_ && _)|]; lia|]. intros H. destruct (aget _ _); [|done].
  by rewrite (proj2 (Z.leb_gt l r)).
Qed.

Lemma moves_measure s s' : moves s s' → (measure s' < measure s)%nat.
Proof.
  destruct 1 as [l r a rl rr ad tm Htm Hno|l r a rl rr ad tm m x Hm Htm Hx Ht Hno Hv|l r a rl rr ad m x Hm Hx Ht Hv|l r a rl rr ad m x Hm Hx Ht Hv];
    unfold measure; cbn [s_l s_r s_addr].
  - pose proof (exact_at_le (tm + 1) r ad). lia.
  - pose proof (exact_at_le (tm + 1) r ad). lia.
  - pose proof (exact_at_le l (m - 1) ad). lia.
  - pose proof (exact_at_le m r (u32 (ad + 1))) as [Hle _]. destruct (decide (m = l)) as [->|]; [|lia].
    assert (E1 : exact_at l r ad = true).
    { unfold exact_at. rewrite Hx, Ht, Hv, !Z.eqb_refl. rewrite (proj2 (Z.leb_le l r)) by lia. done. }
    assert (E2 : exact_at l r (u32 (ad + 1)) = false).
    { unfold exact_at. rewrite Hx, Hv. rewrite (proj2 (Z.eqb_neq ad _)); [by rewrite andb_false_r|].
      unfold u32. intros E. Z.to_euclidean_division_equations. lia. }
    rewrite E1, E2. lia.
Qed.

Lemma binsearch_loop (J : region → Prop) fuel s : (∀ s, J s → 0 ≤ s_l s ∧ s_r s < zlen stabs) →
  (∀ s s', J s → moves s s' → J s') → J s → (measure s < fuel)%nat →
  ∃ s', loop fuel (binsearch_step stabs type) s = Ok s' ∧ J s' ∧ s_r s' < s_l s'.
Proof.
  intros HB HJ. apply (loop_spec J (λ s', J s' ∧ s_r s' < s_l s') measure). intros s0 H0.
  destruct (HB s0 H0) as [H1 H2]. destruct (Z.leb_spec (s_l s0) (s_r s0)) as [Hle|Hgt].
  - destruct (step_moves s0) as (s1 & -> & Hm); [lia|lia|]. eexists. split; [done|]. split; [by eapply HJ|by apply moves_measure].
  - exists (inr s0). split; [|done]. destruct s0 as [l r a rl rr ad]. cbn in *. by rewrite (proj2 (Z.leb_gt l r)).
Qed.

(** The loop behind the search. *)
Lemma last_match_spec rl rr : 0 ≤ rl → rr < zlen stabs →
  ∃ k, loop (S (Z.to_nat (rr - rl))) (λ l,
          if rl <? l then x ← aget stabs l; Ok (if n_type x =? type then inr l else inl (l - 1))
          else Ok (inr l)) rr = Ok k ∧
    (rr ≤ rl → k = rr) ∧ (rl ≤ rr → rl ≤ k ≤ rr ∧ (k ≠ rl → is_match k) ∧ ∀ i, k < i ≤ rr → ¬ is_match i).
Proof.
  intros Hl Hr.
  apply (loop_spec (λ k, (rr ≤ rl → k = rr) ∧ (rl ≤ rr → rl ≤ k ≤ rr ∧ ∀ i, k < i ≤ rr → ¬ is_match i))
    (λ k, (rr ≤ rl → k = rr) ∧ (rl ≤ rr → rl ≤ k ≤ rr ∧ (k ≠ rl → is_match k) ∧ ∀ i, k < i ≤ rr → ¬ is_match i))
    (λ k, Z.to_nat (k - rl))); [|split; [done|]; intros Hle; split; [lia|]; intros i Hi; lia|lia].
  intros k [Hk1 Hk2]. destruct (Z.ltb_spec rl k) as [Hk|Hk].
  - destruct Hk2 as [Hk3 Hno]; [lia|]. destruct (entry_ok k) as [x Hx]; [lia|]. rewrite Hx. cbn.
    destruct (Z.eqb_spec (n_type x) type) as [E|E].
    + eexists. split; [done|]. split; [done|]. intros _. split; [done|]. split; [|done]. intros _. by exists x.
    + eexists. split; [done|]. split; [split; [lia|]|lia]. intros _. split; [lia|]. intros i Hi.
      destruct (decide (i = k)) as [->|]; [|apply Hno; lia]. intros Hm. by rewrite (match_type _ _ Hm Hx) in E.
  - eexists. split; [done|]. split; [done|]. intros Hle. destruct (Hk2 Hle) as [Hk3 Hno]. split; [done|]. split; [|done]. lia.
Qed.

(** ** The search ends inside its region *)

Record in_region (l0 r0 : Z) (s : region) : Prop := {
  b_l : l0 ≤ s_l s ≤ r0 + 1;
  b_r : l0 - 1 ≤ s_r s ≤ r0;
  b_right : rright s = s_r s;
  b_none : any s = false → rleft s = l0 ∧ s_r s = r0 ∧ ∀ i, l0 ≤ i < s_l s → ¬ is_match i;
  b_left : any s = true → (rleft s = l0 ∨ is_match (rleft s)) ∧ l0 ≤ rleft s ≤ r0;
  b_next : any s = true → s_r s = r0 ∨ is_match (s_r s + 1) ∧ s_r s + 1 ≤ r0;
  b_any : any s = true → ∃ i, l0 ≤ i ≤ r0 ∧ is_match i
}.

Lemma in_region_moves l0 r0 s s' : in_region l0 r0 s → moves s s' → in_region l0 r0 s'.
Proof.
  intros [B1 B2 B3 B4 B5 B6 B7] Hm. assert (Hmm : ∀ m x, aget stabs m = Ok x → n_type x = type → is_match m) by (intros m x; by exists x).
  destruct Hm; cbn in *; split; cbn; try done; try lia; eauto.
  - intros ->. destruct B4 as (E1 & E2 & Hno); [done|]. split; [done|]. split; [done|]. intros i Hi.
    destruct (decide (i < l)); [apply Hno; lia|eauto with lia].
  - intros _. split; [eauto|lia].
  - intros _. destruct a; [eauto|]. left. by apply B4.
  - intros _. exists m. split; [lia|eauto].
  - intros _. destruct a; [eauto|]. destruct B4 as (-> & -> & _); [done|]. split; [by left|lia].
  - intros _. right. split; [|lia]. replace (m - 1 + 1) with m by lia. eauto.
  - intros _. exists m. split; [lia|eauto].
  - intros _. split; [eauto|lia].
  - intros _. destruct a; [eauto|]. left. by apply B4.
  - intros _. exists m. split; [lia|eauto].
Qed.

Lemma in_region_start l0 r0 addr : l0 ≤ r0 + 1 → in_region l0 r0 (Region l0 r0 false l0 r0 addr).
Proof. intros H. split; cbn; [lia|lia|done| |done|done|done]. intros _. split; [done|]. split; [done|]. lia. Qed.

(** The result of the search: [s] is the state of the first loop at its end. *)
Lemma binsearch_result (J : region → Prop) l0 r0 addr : 0 ≤ l0 ≤ r0 + 1 → r0 < zlen stabs →
  (∀ s s', in_region l0 r0 s → J s → moves s s' → J s') → J (Region l0 r0 false l0 r0 addr) →
  ∃ s L, stab_binsearch stabs type l0 r0 addr = Ok (L, if any s then s_r s else l0 - 1) ∧
    in_region l0 r0 s ∧ J s ∧ s_r s < s_l s ∧
    (any s = false → L = l0) ∧
    (any s = true → (s_r s ≤ rleft s → L = s_r s) ∧
      (rleft s ≤ s_r s → rleft s ≤ L ≤ s_r s ∧ (L ≠ rleft s → is_match L) ∧ ∀ i, L < i ≤ s_r s → ¬ is_match i)).
Proof.
  intros Hl Hr HJ H0. unfold stab_binsearch.
  destruct (binsearch_loop (λ s, in_region l0 r0 s ∧ J s) (2 * Z.to_nat (r0 - l0 + 1) + 2) (Region l0 r0 false l0 r0 addr))
    as (s & -> & [HB HJs] & Hend).
  - intros s [HB _]. destruct (b_l _ _ _ HB), (b_r _ _ _ HB). lia.
  - intros s s' [HB HJs] Hm. split; [by eapply in_region_moves|by eapply HJ].
  - split; [by apply in_region_start; lia|done].
  - unfold measure. cbn [s_l s_r s_addr]. pose proof (exact_at_le l0 r0 addr). lia.
  - cbn [mbind outcome_bind]. destruct (any s) eqn:Ea; cbn [negb].
    + rewrite (b_right _ _ _ HB). destruct (b_left _ _ _ HB Ea) as [_ Hrl], (b_r _ _ _ HB) as [_ Hsr].
      destruct (last_match_spec (rleft s) (s_r s)) as (L & -> & HL); [lia|lia|]. exists s, L. cbn. by rewrite Ea.
    + destruct (b_none _ _ _ HB Ea) as (-> & _). exists s, l0. by rewrite Ea.
Qed.

(** The entry of [*region_left] is in front of the address, so the search does not
    go back behind it. *)
Definition left_kept (l0 : Z) (s : region) : Prop :=
  rleft s ≤ s_l s ∧ (rleft s ≤ s_r s ∨ rleft s = l0) ∧
  (rleft s = l0 ∨ ∃ x, aget stabs (rleft s) = Ok x ∧ n_value x < s_addr s).

Lemma left_kept_moves l0 r0 s s' : in_region l0 r0 s → left_kept l0 s → moves s s' → left_kept l0 s'.
Proof.
  intros HB (K1 & K2 & K3) Hm. pose proof (b_l _ _ _ HB) as [Hl _].
  destruct Hm as [| |l r a rl rr ad m x Hm Hx Ht Hv|l r a rl rr ad m x Hm Hx Ht Hv]; cbn in *; unfold left_kept; cbn.
  - split; [lia|done].
  - split; [lia|]. split; [left; lia|]. right. eauto.
  - split; [done|]. split; [|done]. destruct (decide (rl = l0)) as [|Hne]; [by right|]. left.
    destruct K3 as [|(y & Hy & Hlt)]; [done|]. destruct (decide (m = rl)) as [->|]; [|lia].
    assert (y = x) as -> by congruence. lia.
  - split; [lia|]. split; [left; lia|]. right. exists x. split; [done|]. pose proof (value_ok _ _ Hx).
    rewrite u32_small by lia. lia.
Qed.

Lemma stab_binsearch_bounds l0 r0 addr : 0 ≤ l0 ≤ r0 + 1 → r0 < zlen stabs →
  ∃ L R, stab_binsearch stabs type l0 r0 addr = Ok (L, R) ∧
    (L = l0 ∧ R = l0 - 1 ∨
     L ≤ R ≤ r0 ∧ l0 - 1 ≤ L ∧ (L < l0 → is_match l0) ∧ (l0 < L → is_match L)).
Proof.
  intros Hl Hr. destruct (binsearch_result (left_kept l0) l0 r0 addr) as (s & L & -> & HB & HK & Hend & H1 & H2); [done|done| | |].
  { intros s s'. apply left_kept_moves. }
  { split; [cbn; lia|]. split; [by right|by left]. }
  exists L, (if any s then s_r s else l0 - 1). split; [done|]. destruct (any s) eqn:Ea; [|left; auto]. right.
  destruct (H2 eq_refl) as [H3 H4]. destruct (b_left _ _ _ HB Ea) as [Hm Hrl], (b_r _ _ _ HB) as [Hr1 Hr2].
  destruct HK as (_ & HK & _). destruct (decide (rleft s ≤ s_r s)) as [Hle|Hgt].
  - destruct (H4 Hle) as (H5 & H6 & _). split; [lia|]. split; [lia|]. split; [lia|]. intros HL.
    destruct (decide (L = rleft s)) as [->|Hne]; [|by apply H6]. destruct Hm as [E|]; [lia|done].
  - rewrite H3 by lia. split; [lia|]. split; [lia|]. split; [|lia].
    intros Hlt. destruct (b_next _ _ _ HB Ea) as [E|[E _]]; [lia|]. by replace l0 with (s_r s + 1) by lia.
Qed.

(** ** The search finds the entry, in a sorted table *)

(** Entry [i] has the type and the address [v]. *)
Definition entry_at (i v : Z) : Prop := ∃ x, aget stabs i = Ok x ∧ n_type x = type ∧ n_value x = v.

Definition sorted_in (l0 r0 : Z) : Prop :=
  ∀ i j v w, l0 ≤ i ≤ j → j ≤ r0 → entry_at i v → entry_at j w → v ≤ w.

Lemma match_entry i : is_match i → ∃ v, entry_at i v.
Proof. intros (x & Hx & Ht). by exists (n_value x), x. Qed.

Lemma entry_match i v : entry_at i v → is_match i.
Proof. intros (x & Hx & Ht & _). by exists x. Qed.

Record finds (l0 r0 A : Z) (s : region) : Prop := {
  f_before : ∀ i v, l0 ≤ i < s_l s → entry_at i v → v ≤ A ∧ i ≤ rleft s;
  f_behind : ∀ i v, s_r s < i ≤ r0 → entry_at i v → A < v;
  f_addr : s_addr s = A ∨ s_addr s = A + 1;
  f_left : (∃ v, entry_at (rleft s) v ∧ v ≤ A) ∨ rleft s = l0 ∧ ∀ i v, l0 ≤ i < s_l s → ¬ entry_at i v
}.

Lemma finds_moves l0 r0 A s s' : 0 ≤ A < 2 ^ 32 - 1 → sorted_in l0 r0 → (∀ i, l0 ≤ i ≤ r0 → ¬ entry_at i (A + 1)) →
  in_region l0 r0 s → finds l0 r0 A s → moves s s' → finds l0 r0 A s'.
Proof.
  intros HA Hsort Hnext HB [F1 F2 F3 F4] Hm. pose proof (b_l _ _ _ HB) as Hl. pose proof (b_r _ _ _ HB) as Hr.
  destruct Hm as [l r a rl rr ad tm Htm Hno|l r a rl rr ad tm m x Hm Htm Hx Ht Hno Hv|l r a rl rr ad m x Hm Hx Ht Hv|l r a rl rr ad m x Hm Hx Ht Hv]; cbn in *.
  - split; cbn; [|done|done|].
    + intros i v Hi He. destruct (decide (i < l)); [apply F1; [lia|done]|]. edestruct Hno; [|by eapply entry_match]. lia.
    + destruct F4 as [|[-> F4]]; [by left|right]. split; [done|]. intros i v Hi He. destruct (decide (i < l)); [eapply F4; [|done]; lia|].
      edestruct Hno; [|by eapply entry_match]. lia.
  - assert (Hem : entry_at m (n_value x)) by by exists x. split; cbn; [|done|done|].
    + intros i v Hi He. destruct (decide (i ≤ m)).
      * pose proof (Hsort i m v (n_value x) ltac:(lia) ltac:(lia) He Hem). lia.
      * edestruct Hno; [|by eapply entry_match]. lia.
    + left. exists (n_value x). split; [done|]. lia.
  - assert (Hem : entry_at m (n_value x)) by by exists x. split; cbn; [done| |done|done].
    intros i v Hi He. pose proof (Hsort m i (n_value x) v ltac:(lia) ltac:(lia) Hem He). lia.
  - assert (Hem : entry_at m (n_value x)) by by exists x.
    assert (EA : ad = A). { destruct F3 as [|E]; [done|]. destruct (Hnext m); [lia|]. by rewrite <-E, <-Hv. }
    split; cbn; [|done| |].
    + intros i v Hi He. pose proof (Hsort i m v (n_value x) ltac:(lia) ltac:(lia) He Hem). lia.
    + right. rewrite EA. apply u32_small. lia.
    + left. exists (n_value x). split; [done|]. lia.
Qed.

(** The region that a search for [A] in [l0..r0] answers. *)
Definition region_of (l0 r0 A L R : Z) : Prop :=
  (∃ v, entry_at L v ∧ v ≤ A ∧ l0 ≤ L ≤ R ∧ R ≤ r0 ∧ (R = r0 ∨ is_match (R + 1)) ∧
     ∀ i w, l0 ≤ i ≤ r0 → entry_at i w → (w ≤ A → i ≤ L) ∧ (A < w → R < i)) ∨
  (L = l0 ∧ R = l0 - 1 ∧ ∀ i, l0 ≤ i ≤ r0 → ¬ is_match i) ∨
  (L = Z.min l0 R ∧ l0 - 1 ≤ R < r0 ∧ is_match (R + 1) ∧
     ∀ i w, l0 ≤ i ≤ r0 → entry_at i w → A < w ∧ R < i).

Lemma region_found l0 r0 A s L v : 0 ≤ l0 → in_region l0 r0 s → finds l0 r0 A s → any s = true → s_r s < s_l s →
  entry_at (rleft s) v → v ≤ A →
  (rleft s ≤ s_r s → rleft s ≤ L ≤ s_r s ∧ (L ≠ rleft s → is_match L) ∧ ∀ i, L < i ≤ s_r s → ¬ is_match i) →
  region_of l0 r0 A L (s_r s).
Proof.
  intros Hl HB [F1 F2 F3 F4] Ea Hend He Hv HL. destruct (b_left _ _ _ HB Ea) as [_ Hrl].
  pose proof (b_l _ _ _ HB). pose proof (b_r _ _ _ HB).
  assert (Hle : rleft s ≤ s_r s). { destruct (Z.leb_spec (rleft s) (s_r s)); [done|]. pose proof (F2 (rleft s) v ltac:(lia) He). lia. }
  destruct (HL Hle) as (HL1 & HL2 & _).
  assert (L = rleft s) as ->.
  { destruct (decide (L = rleft s)) as [|Hne]; [done|]. destruct (match_entry L (HL2 Hne)) as [w Hw].
    destruct (F1 L w); [lia|done|lia]. }
  left. exists v. split; [done|]. split; [done|]. split; [lia|]. split; [lia|]. split.
  - destruct (b_next _ _ _ HB Ea) as [|[Hn _]]; [by left|by right].
  - intros i w Hi Hw. split; intros Hcmp.
    + destruct (Z.ltb_spec (s_r s) i); [pose proof (F2 i w ltac:(lia) Hw); lia|]. by apply (F1 i w); [lia|].
    + destruct (Z.ltb_spec (s_r s) i); [done|]. destruct (F1 i w); [lia|done|lia].
Qed.

Lemma region_missing l0 r0 A s L : 0 ≤ l0 → in_region l0 r0 s → finds l0 r0 A s → any s = true → s_r s < s_l s →
  rleft s = l0 → (∀ i v, l0 ≤ i < s_l s → ¬ entry_at i v) →
  (s_r s ≤ l0 → L = s_r s) → (l0 ≤ s_r s → l0 ≤ L ≤ s_r s ∧ (L ≠ l0 → is_match L) ∧ ∀ i, L < i ≤ s_r s → ¬ is_match i) →
  region_of l0 r0 A L (s_r s).
Proof.
  intros Hl HB [F1 F2 F3 F4] Ea Hend Erl Hno HL1 HL2. pose proof (b_l _ _ _ HB). pose proof (b_r _ _ _ HB).
  right. right. split; [|split; [|split]].
  - destruct (decide (s_r s ≤ l0)) as [Hle|Hgt]; [rewrite HL1 by done; lia|]. destruct HL2 as (HL3 & HL4 & _); [lia|].
    destruct (decide (L = l0)) as [|Hne]; [lia|]. destruct (match_entry L (HL4 Hne)) as [w Hw]. destruct (Hno L w); [lia|done].
  - split; [lia|]. destruct (b_any _ _ _ HB Ea) as (i & Hi & [w Hw]%match_entry).
    destruct (Z.ltb_spec i (s_l s)); [by destruct (Hno i w); [lia|]|]. destruct (b_next _ _ _ HB Ea); lia.
  - destruct (b_next _ _ _ HB Ea) as [E|[Hn _]]; [|done]. destruct (b_any _ _ _ HB Ea) as (i & Hi & [w Hw]%match_entry).
    destruct (Z.ltb_spec i (s_l s)); [by destruct (Hno i w); [lia|]|]. lia.
  - intros i w Hi Hw. destruct (Z.ltb_spec (s_r s) i); [|by destruct (Hno i w); [lia|]]. split; [|done]. apply (F2 i w); [lia|done].
Qed.

Lemma stab_binsearch_region l0 r0 A : 0 ≤ l0 ≤ r0 + 1 → r0 < zlen stabs → 0 ≤ A < 2 ^ 32 - 1 →
  sorted_in l0 r0 → (∀ i, l0 ≤ i ≤ r0 → ¬ entry_at i (A + 1)) →
  ∃ L R, stab_binsearch stabs type l0 r0 A = Ok (L, R) ∧ region_of l0 r0 A L R.
Proof.
  intros Hl Hr HA Hsort Hnext.
  destruct (binsearch_result (finds l0 r0 A) l0 r0 A) as (s & L & -> & HB & HF & Hend & H1 & H2); [done|done| | |].
  { intros s s'. by apply finds_moves. }
  { split; cbn; [intros; lia|intros; lia|by left|]. right. split; [done|]. intros i v Hi. lia. }
  exists L, (if any s then s_r s else l0 - 1). split; [done|]. destruct (any s) eqn:Ea.
  - destruct (H2 eq_refl) as [H3 H4]. destruct (f_left _ _ _ _ HF) as [(v & He & Hv)|[E Hno]].
    + eapply region_found; [lia|done..].
    + rewrite E in H3, H4. eapply region_missing; [lia|done..].
  - right. left. split; [by apply H1|]. split; [done|]. destruct (b_none _ _ _ HB Ea) as (_ & Esr & Hno). intros i Hi. apply Hno. lia.
Qed.
End binsearch.

(** ** debuginfo_eip stays in its tables *)

Section debuginfo.
Context (stabs : list stab) (tx : texts).
Hypothesis Hsize : 1 ≤ zlen stabs ≤ 2 ^ 30.
Hypothesis Hvalues : Forall (λ x, 0 ≤ n_value x < 2 ^ 32 - 1) stabs.

Lemma find_file_spec lfile lline : 0 ≤ lfile → lfile - 1 ≤ lline < zlen stabs →
  ∃ i, find_file stabs lfile lline = Ok i ∧ lfile - 1 ≤ i ≤ lline.
Proof.
  intros Hl Hr. unfold find_file.
  apply (loop_spec (λ i, lfile - 1 ≤ i ≤ lline) (λ i, lfile - 1 ≤ i ≤ lline) (λ i, Z.to_nat (i - lfile + 1))); [|lia|lia].
  intros i Hi. destruct (Z.leb_spec lfile i); [|by eexists]. destruct (entry_ok stabs i) as [x Hx]; [lia|]. rewrite Hx. cbn.
  eexists. split; [done|]. destruct (_ && _); [|done]. lia.
Qed.

Lemma count_args_spec lfun rfun : 0 ≤ lfun → rfun < zlen stabs → ∃ n, count_args stabs lfun rfun = Ok n.
Proof.
  intros Hl Hr. unfold count_args.
  destruct (loop_spec (λ '(lline, narg), lfun < lline) (λ _ : Z, True) (λ '(lline, _), Z.to_nat (rfun - lline))
    (λ '(lline, narg), if lline <? rfun then
      x ← aget stabs lline; Ok (if n_type x =? N_PSYM then inl (lline + 1, narg + 1) else inr narg)
    else Ok (inr narg))) with (fuel := S (Z.to_nat (rfun - lfun))) (s := (lfun + 1, 0)) as (n & -> & _); [|cbn; lia|cbn; lia|by exists n].
  intros [i n] Hi. destruct (Z.ltb_spec i rfun); [|by eexists]. destruct (entry_ok stabs i) as [x Hx]; [lia|]. rewrite Hx. cbn.
  eexists. split; [done|]. destruct (_ =? _); [|done]. cbn. lia.
Qed.

(** A table of strings whose last byte is 0 holds a string at every index. *)
Lemma table_string m p tab k : bytes_at m p tab → Forall byte_ok tab → last tab = Some 0 → (k < length tab)%nat →
  ∃ s, str_at m (p + Z.of_nat k) s.
Proof.
  revert p k. induction tab as [|b tab IH]; intros p k Hb Hok Hlast Hk; [cbn in Hk; lia|].
  apply bytes_at_cons in Hb as [Hp Hb]. apply Forall_cons in Hok as [Hok Hoks].
  destruct k as [|k].
  - rewrite Z.add_0_r. destruct (decide (b = 0)) as [->|Hne]; [exists []; by apply str_at_nil|].
    destruct tab as [|b' tab]; [cbn in Hlast; congruence|].
    destruct (IH (p + 1) 0%nat) as [s Hs]; [done|done|done|cbn; lia|]. rewrite Z.add_0_r in Hs.
    exists (b :: s). apply str_at_cons. split; [done|]. split; [unfold byte_ok in Hok; lia|done].
  - destruct tab as [|b' tab]; [cbn in Hk; lia|]. destruct (IH (p + 1) k) as [s Hs]; [done|done|done|cbn in *; lia|].
    exists s. by replace (p + Z.of_nat (S k)) with (p + 1 + Z.of_nat k) by lia.
Qed.

(** The memory holds the literal and the table of strings. *)
Record strings_ok (m : mem) : Prop := {
  so_unknown : ∃ s, str_at m (unknown tx) s;
  so_table : ∃ tab, bytes_at m (stabstr tx) tab ∧ Forall byte_ok tab ∧ stabstr tx + zlen tab = stabstr_end tx;
  so_index : Forall (λ x, 0 ≤ n_strx x) stabs
}.

Lemma stab_name_ok m i x d : strings_ok m → stabstr tx < stabstr_end tx → ldb m (stabstr_end tx - 1) = Ok 0 →
  aget stabs i = Ok x → (∃ s, str_at m d s) → ∃ s, str_at m (stab_name tx x d) s.
Proof.
  intros [_ (tab & Hb & Hok & Hend) Hidx] Hlt Hlast [_ Hx]%aget_Ok Hd. unfold stab_name.
  pose proof (Forall_lookup_1 _ _ _ _ Hidx Hx). destruct (Z.ltb_spec (n_strx x) (stabstr_end tx - stabstr tx)); [|done].
  rewrite <-(Z2Nat.id (n_strx x)) by done. eapply table_string; [done|done| |unfold zlen in Hend; lia].
  rewrite last_lookup. destruct (tab !! pred (length tab)) as [b|] eqn:E.
  - apply ldb_Ok in Hlast. pose proof (Hb _ _ E) as Hm. unfold zlen in Hend.
    replace (stabstr tx + Z.of_nat (pred (length tab))) with (stabstr_end tx - 1) in Hm by lia. congruence.
  - apply lookup_ge_None in E. unfold zlen in Hend. lia.
Qed.

Lemma index_of_range c s n : index_of c s = Some n → 0 ≤ n < zlen s.
Proof.
  unfold zlen. revert n. induction s as [|b s IH]; cbn; [done|]. intros n. destruct (_ =? _); [intros [= <-]; lia|].
  destruct (index_of c s) as [k|]; [|done]. cbn. intros [= <-]. specialize (IH k eq_refl). lia.
Qed.

Definition is_string (m : mem) (p : Z) : Prop := ∃ s, str_at m p s.

Lemma strfind_colon m p : is_string m p → ∃ q, strfind m p 58 = Ok q ∧ 0 ≤ q - p.
Proof.
  intros [s Hs]. destruct (strchr_spec m p s 58 Hs) as [_ ->]. eexists. split; [done|].
  destruct (index_of 58 s) as [n|] eqn:Ei; [apply index_of_range in Ei; lia|pose proof (zlen_nonneg s); lia].
Qed.

(** The function of the address: [(name, fn_addr, addr, lline, rline)]. *)
Lemma function_spec m lfile rfile lfun rfun addr : strings_ok m → stabstr tx < stabstr_end tx → ldb m (stabstr_end tx - 1) = Ok 0 →
  1 ≤ lfile ≤ rfile → rfile < zlen stabs → is_match stabs N_SO lfile →
  lfun = lfile ∧ rfun = lfile - 1 ∨ lfun ≤ rfun ≤ rfile ∧ lfile - 1 ≤ lfun ∧
    (lfun < lfile → is_match stabs N_FUN lfile) ∧ (lfile < lfun → is_match stabs N_FUN lfun) →
  ∃ name fn_addr a lline rline,
    (if lfun <=? rfun then
       x ← aget stabs lfun;
       Ok (stab_name tx x (unknown tx), n_value x, u32 (addr - n_value x), lfun, rfun)
     else Ok (unknown tx, addr, addr, lfile, rfile)) = Ok (name, fn_addr, a, lline, rline) ∧
    is_string m name ∧ lfile ≤ lline ≤ rline ∧ rline < zlen stabs ∧ ¬ is_match stabs N_SLINE lline ∧ lfile ≤ lfun ∧ rfun < zlen stabs.
Proof.
  intros Hm Hlt Hlast Hlf Hrf Hso Hf.
  assert (Hdis : ∀ t, t ≠ N_SO → ¬ is_match stabs t lfile).
  { intros t Ht (x & Hx & E). apply Ht. rewrite <-E. by apply (match_type stabs N_SO lfile). }
  destruct (Z.leb_spec lfun rfun) as [Hle|Hgt].
  - destruct Hf as [Hf|(H1 & H2 & H3 & H4)]; [lia|].
    assert (lfile ≤ lfun). { destruct (Z.leb_spec lfile lfun); [done|]. destruct (Hdis N_FUN); [done|]. apply H3. lia. }
    destruct (entry_ok stabs lfun) as [x Hx]; [lia|]. rewrite Hx. cbn. eexists _, _, _, _, _. split; [done|].
    split; [by eapply stab_name_ok; [..|apply Hm]|]. split; [lia|]. split; [lia|]. split; [|lia].
    destruct (decide (lfun = lfile)) as [->|]; [by apply Hdis|]. intros Hs.
    pose proof (match_type _ _ _ _ (H4 ltac:(lia)) Hx) as E1. pose proof (match_type _ _ _ _ Hs Hx) as E2. by rewrite E1 in E2.
  - eexists _, _, _, _, _. split; [done|]. split; [apply Hm|]. split; [lia|]. split; [lia|]. split; [by apply Hdis|].
    destruct Hf as [Hf|Hf]; lia.
Qed.

(** [C32] On every table of stabs whose first entry is not that of a source file
    and whose addresses are below the last one, [debuginfo_eip] returns 0 or -1 for
    every address: its searches end, no access leaves the table of stabs or that of
    strings, and the names it answers are strings in memory. *)
Theorem debuginfo_eip_safe m addr : strings_ok m → ¬ is_match stabs N_SO 0 →
  (stabstr tx < stabstr_end tx → is_ok (ldb m (stabstr_end tx - 1))) →
  ∃ r info, debuginfo_eip stabs tx m addr = Ok (r, info) ∧ (r = 0 ∨ r = -1) ∧
    is_string m (eip_file info) ∧ is_string m (eip_fn_name info) ∧ 0 ≤ eip_fn_namelen info.
Proof.
  intros Hm H0 Hld. pose proof (so_unknown _ Hm) as Hu. unfold debuginfo_eip.
  assert (Hlast : ∃ b, (if stabstr_end tx <=? stabstr tx then Ok 1 else ldb m (stabstr_end tx - 1)) = Ok b ∧
    (b = 0 → stabstr tx < stabstr_end tx ∧ ldb m (stabstr_end tx - 1) = Ok 0)).
  { destruct (Z.leb_spec (stabstr_end tx) (stabstr tx)); [by exists 1|]. destruct Hld as [b Hb]; [done|]. exists b. naive_solver. }
  destruct Hlast as (b & -> & Hb). cbn [mbind outcome_bind].
  destruct (Z.eqb_spec b 0) as [E|_]; cbn [negb]; [|eexists _, _; split; [done|]; cbn; auto with lia].
  destruct (Hb E) as [Hlt Hz]. destruct Hsize as [Hs1 Hs2].
  destruct (stab_binsearch_bounds stabs N_SO Hs2 Hvalues 0 (zlen stabs - 1) addr) as (lfile & rfile & -> & Hfile); [lia|lia|].
  cbn [mbind outcome_bind]. destruct (Z.eqb_spec lfile 0) as [_|Hne]; [eexists _, _; split; [done|]; cbn; auto with lia|].
  destruct Hfile as [[-> _]|(F1 & F2 & F3 & F4)]; [done|].
  assert (1 ≤ lfile) by (destruct (Z.leb_spec 0 lfile); [lia|]; by destruct H0; apply F3).
  destruct (stab_binsearch_bounds stabs N_FUN Hs2 Hvalues lfile rfile addr) as (lfun & rfun & -> & Hfun); [lia|lia|].
  cbn [mbind outcome_bind].
  destruct (function_spec m lfile rfile lfun rfun addr Hm Hlt Hz) as (name & fn_addr & a & lline & rline & -> & Hn & Hl1 & Hl2 & Hl3 & Hl4 & Hl5);
    [lia|lia|apply F4; lia|done|]. cbn [mbind outcome_bind].
  destruct (strfind_colon m name Hn) as (q & -> & Hq). cbn [mbind outcome_bind].
  destruct (stab_binsearch_bounds stabs N_SLINE Hs2 Hvalues lline rline a) as (l & r & -> & Hlns); [lia|lia|].
  cbn [mbind outcome_bind]. destruct (Z.ltb_spec r l); [eexists _, _; split; [done|]; cbn; auto|].
  destruct Hlns as [[-> ->]|(L1 & L2 & L3 & _)]; [lia|].
  assert (lline ≤ l) by (destruct (Z.leb_spec lline l); [done|]; by destruct Hl3; apply L3).
  destruct (entry_ok stabs r) as [x Hx]; [lia|]. rewrite Hx. cbn [mbind outcome_bind].
  destruct (find_file_spec lfile l) as (i & -> & Hi); [lia|lia|]. cbn [mbind outcome_bind].
  assert (Hfl : ∃ f, (if lfile <=? i then y ← aget stabs i; Ok (stab_name tx y (unknown tx)) else Ok (unknown tx)) = Ok f ∧ is_string m f).
  { destruct (Z.leb_spec lfile i); [|by eexists]. destruct (entry_ok stabs i) as [y Hy]; [lia|]. rewrite Hy. cbn.
    eexists. split; [done|]. by eapply stab_name_ok. }
  destruct Hfl as (f & -> & Hfs). cbn [mbind outcome_bind].
  assert (Hna : ∃ n, (if lfun <? rfun then count_args stabs lfun rfun else Ok 0) = Ok n).
  { destruct (_ <? _); [apply count_args_spec; lia|by eexists]. }
  destruct Hna as (n & ->). eexists _, _. split; [done|]. cbn. auto.
Qed.
End debuginfo.

(** ** The properties of the search *)

(** In a region whose entries of the type are sorted by address, and without an
    entry at the address behind [A], [stab_binsearch] finds the last entry at or
    before [A] and the end of its region: every entry behind it is behind the region
    too, which ends in front of the next entry of the type.  If all entries are
    behind [A] the region is the part in front of the first of them, not, as the
    comment in the source says, an empty one. *)
Theorem stab_binsearch_finds stabs type l0 r0 A : zlen stabs ≤ 2 ^ 30 →
  0 ≤ l0 ≤ r0 + 1 → r0 < zlen stabs → 0 ≤ A < 2 ^ 32 - 1 →
  sorted_in stabs type l0 r0 → (∀ i, l0 ≤ i ≤ r0 → ¬ entry_at stabs type i (A + 1)) →
  ∃ L R, stab_binsearch stabs type l0 r0 A = Ok (L, R) ∧ region_of stabs type l0 r0 A L R.
Proof. intros Hs Hl Hr HA Hsort Hnext. by apply stab_binsearch_region. Qed.

(** The iterations of a search in a table of two entries of the type. *)
Lemma step_first x y type ad a rl rr : n_type x = type →
  binsearch_step [x; y] type (Region 0 1 a rl rr ad) =
    Ok (inl (if n_value x <? ad then Region 1 1 true 0 rr ad
             else if ad <? n_value x then Region 0 (-1) true rl (-1) ad
             else Region 0 1 true 0 rr (u32 (ad + 1)))).
Proof.
  intros Ht. assert (E : scan_back [x; y] type 0 0 = Ok 0).
  { assert (Ea : aget [x; y] 0 = Ok x) by done. unfold scan_back. rewrite loop_unfold. change (0 <=? 0) with true. cbv iota.
    rewrite Ea. cbn [mbind outcome_bind]. by rewrite Ht, Z.eqb_refl. }
  cbn [binsearch_step]. change (0 <=? 1) with true. change (cint (0 + 1)) with (Ok 1). cbn [mbind outcome_bind].
  change (Z.quot 1 2) with 0. by rewrite E.
Qed.

Lemma step_second x y type ad a rl rr : n_type y = type →
  binsearch_step [x; y] type (Region 1 1 a rl rr ad) =
    Ok (inl (if n_value y <? ad then Region 2 1 true 1 rr ad
             else if ad <? n_value y then Region 1 0 true rl 0 ad
             else Region 1 1 true 1 rr (u32 (ad + 1)))).
Proof.
  intros Ht. assert (E : scan_back [x; y] type 1 1 = Ok 1).
  { assert (Ea : aget [x; y] 1 = Ok y) by done. unfold scan_back. rewrite loop_unfold. change (1 <=? 1) with true. cbv iota.
    rewrite Ea. cbn [mbind outcome_bind]. by rewrite Ht, Z.eqb_refl. }
  cbn [binsearch_step]. change (1 <=? 1) with true. change (cint (1 + 1)) with (Ok 2). cbn [mbind outcome_bind].
  change (Z.quot 2 2) with 1. by rewrite E.
Qed.

(** An entry that starts at the address directly behind [A] is taken for the one
    of [A]: after a match the search goes on with the address increased by one, and
    finds that one exactly as well. *)
Lemma stab_next_address x y type A : 0 ≤ A < 2 ^ 32 - 2 →
  n_type x = type → n_value x = A → n_type y = type → n_value y = A + 1 →
  stab_binsearch [x; y] type 0 1 A = Ok (1, 1) ∧
  stab_binsearch [x; y] type 0 1 (A + 1) = Ok (1, 1).
Proof.
  intros HA Hx Ex Hy Ey.
  assert (Hlt : (A <? A + 1) = true) by (apply Z.ltb_lt; lia).
  assert (Hend : ∀ n, loop (S (S (S (S n)))) (binsearch_step [x; y] type) (Region 0 1 true 0 1 (A + 1)) =
    Ok (Region 2 1 true 1 1 (A + 2))).
  { intros n. rewrite loop_unfold, step_first, Ex, Hlt by done. cbn [mbind outcome_bind].
    rewrite loop_unfold, step_second, Ey, Z.ltb_irrefl, u32_small by (done || lia). cbn [mbind outcome_bind].
    rewrite loop_unfold, step_second, Ey by done. rewrite (proj2 (Z.ltb_lt (A + 1) (A + 1 + 1))) by lia. by replace (A + 1 + 1) with (A + 2) by lia. }
  assert (E1 : loop 6 (binsearch_step [x; y] type) (Region 0 1 false 0 1 A) = Ok (Region 2 1 true 1 1 (A + 2))).
  { rewrite loop_unfold, step_first, Ex, Z.ltb_irrefl, u32_small by (done || lia). apply Hend. }
  assert (E2 : loop 6 (binsearch_step [x; y] type) (Region 0 1 false 0 1 (A + 1)) = Ok (Region 2 1 true 1 1 (A + 2))).
  { rewrite <-(Hend 2%nat), (loop_unfold 5 _ (Region 0 1 false 0 1 (A + 1))), (loop_unfold 5 _ (Region 0 1 true 0 1 (A + 1))).
    by rewrite !step_first, Ex, Hlt. }
  unfold stab_binsearch. change (2 * Z.to_nat (1 - 0 + 1) + 2)%nat with 6%nat. by rewrite E1, E2.
Qed.

(** When the first entry of the table is a source file and the address is in
    front of all source files, [debuginfo_eip] goes on with the region that starts
    and ends at index -1 and reads the entry in front of the table. *)
Lemma first_file_underflow stabs tx m addr : zlen stabs ≤ 2 ^ 30 → Forall (λ x, 0 ≤ n_value x < 2 ^ 32 - 1) stabs →
  is_match stabs N_SO 0 → 0 ≤ addr → (∀ i v, entry_at stabs N_SO i v → addr + 1 < v) → sorted_in stabs N_SO 0 (zlen stabs - 1) →
  stabstr tx < stabstr_end tx → ldb m (stabstr_end tx - 1) = Ok 0 →
  debuginfo_eip stabs tx m addr = Err Undef.
Proof.
  intros Hs Hv H0 Haddr Hall Hsort Hlt Hlast. destruct (match_entry _ _ 0 H0) as [v He].
  pose proof (Hall 0 v He). assert (v < 2 ^ 32 - 1) by (destruct He as (x & Hx & _ & <-); by eapply value_ok).
  assert (1 ≤ zlen stabs) by (destruct He as (x & Hx & _); apply aget_range in Hx; lia).
  destruct (stab_binsearch_region stabs N_SO Hs 0 (zlen stabs - 1) addr) as (L & R & E & Hreg); [lia|lia|lia|done| |].
  { intros i _ Hi. pose proof (Hall i _ Hi). lia. }
  assert (L = -1 ∧ R = -1) as [-> ->].
  { destruct Hreg as [(w & Hw & Hle & _)|[(_ & _ & Hno)|(EL & HR & Hn & Hfirst)]].
    - pose proof (Hall L w Hw). lia.
    - by destruct (Hno 0); [lia|].
    - destruct (Hfirst 0 v) as [_ Hlt0]; [lia|done|]. lia. }
  unfold debuginfo_eip. rewrite (proj2 (Z.leb_gt _ _)) by done. rewrite Hlast. cbn [mbind outcome_bind].
  change (negb (0 =? 0)) with false. cbv iota. rewrite E. reflexivity.
Qed.

(** ** A concrete table *)

Definition value_of (stabs : list stab) (type i : Z) : option Z :=
  match aget stabs i with Ok x => if n_type x =? type then Some (n_value x) else None | Err _ => None end.

Lemma entry_at_value stabs type i v : entry_at stabs type i v ↔ value_of stabs type i = Some v.
Proof.
  unfold entry_at, value_of. split.
  - intros (x & -> & -> & ->). by rewrite Z.eqb_refl.
  - destruct (aget stabs i) as [x|]; [|done]. destruct (Z.eqb_spec (n_type x) type); [|done]. intros [= <-]. by exists x.
Qed.

Definition sortedb (stabs : list stab) (type l0 r0 : Z) : bool :=
  forallb (λ i, forallb (λ j,
    match value_of stabs type i, value_of stabs type j with Some v, Some w => v <=? w | _, _ => true end)
    (seqZ i (r0 - i + 1))) (seqZ l0 (r0 - l0 + 1)).

Lemma sortedb_sorted stabs type l0 r0 : sortedb stabs type l0 r0 = true → sorted_in stabs type l0 r0.
Proof.
  unfold sortedb. rewrite forallb_forall. intros H i j v w Hi Hj Hv%entry_at_value Hw%entry_at_value.
  assert (Hin : In i (seqZ l0 (r0 - l0 + 1))) by (apply list_elem_of_In, elem_of_seqZ; lia).
  specialize (H i Hin). rewrite forallb_forall in H.
  assert (Hjn : In j (seqZ i (r0 - i + 1))) by (apply list_elem_of_In, elem_of_seqZ; lia).
  specialize (H j Hjn). rewrite Hv, Hw in H. lia.
Qed.

(** One file a.c with the function main, and the end of the file. *)
Definition stabs_w : list stab :=
  [Stab 0 0 0 5 0; Stab 1 N_SO 0 0 100; Stab 5 N_FUN 0 0 100; Stab 0 N_SLINE 0 7 0; Stab 0 N_SLINE 0 8 5; Stab 0 N_SO 0 0 200].

Definition strings_w : list Z := [0; 97; 46; 99; 0; 109; 97; 105; 110; 58; 70; 49; 0].
Definition unknown_w : list Z := [60; 117; 110; 107; 110; 111; 119; 110; 62].
Definition texts_w : texts := Texts 100 10 23 0 0 0 0 0 0 0 0 0 0 0.
Definition mem_w : mem := put (put ∅ 10 strings_w) 100 (unknown_w ++ [0]).

Lemma strings_w_ok : strings_ok stabs_w texts_w mem_w.
Proof.
  split.
  - exists unknown_w. split; [apply mem_holds_bytes; by vm_compute|]. by repeat constructor.
  - exists strings_w. split; [apply mem_holds_bytes; by vm_compute|]. split; [|done].
    unfold strings_w, byte_ok. repeat constructor; lia.
  - unfold stabs_w. repeat constructor; done.
Qed.

(** The address 106 is in line 8 of main in a.c. *)
Example debuginfo_eip_w : debuginfo_eip stabs_w texts_w mem_w 106 = Ok (0, Info 11 8 15 4 100 0).
Proof. by vm_compute. Qed.

Lemma debuginfo_eip_safe_witness : ∃ r info, debuginfo_eip stabs_w texts_w mem_w 300 = Ok (r, info) ∧ (r = 0 ∨ r = -1).
Proof.
  destruct (debuginfo_eip_safe stabs_w texts_w ltac:(by vm_compute) ltac:(unfold stabs_w; repeat constructor; done) mem_w 300
    strings_w_ok ltac:(by intros (x & [= <-] & ?)) ltac:(intros _; by exists 0)) as (r & info & E & Hr & _).
  by exists r, info.
Defined.

Lemma stab_binsearch_finds_witness : ∃ L R, stab_binsearch stabs_w N_SLINE 2 4 6 = Ok (L, R) ∧ region_of stabs_w N_SLINE 2 4 6 L R.
Proof.
  apply (stab_binsearch_finds stabs_w N_SLINE 2 4 6); [by vm_compute|lia|by vm_compute|lia|apply sortedb_sorted; by vm_compute|].
  intros i Hi Hv%entry_at_value. revert Hv. assert (i = 2 ∨ i = 3 ∨ i = 4) as [->|[->| ->]] by lia; by vm_compute.
Defined.

Lemma stab_next_address_witness :
  stab_binsearch [Stab 0 N_SLINE 0 1 20; Stab 0 N_SLINE 0 2 21] N_SLINE 0 1 20 = Ok (1, 1).
Proof. exact (proj1 (stab_next_address (Stab 0 N_SLINE 0 1 20) (Stab 0 N_SLINE 0 2 21) N_SLINE 20 ltac:(lia) eq_refl eq_refl eq_refl eq_refl)). Defined.

Lemma first_file_underflow_witness : debuginfo_eip (drop 1 stabs_w) texts_w mem_w 50 = Err Undef.
Proof.
  apply (first_file_underflow (drop 1 stabs_w) texts_w mem_w 50);
    [by vm_compute|unfold stabs_w; repeat constructor; done|by exists (Stab 1 N_SO 0 0 100)|lia| |apply sortedb_sorted; by vm_compute|done|done].
  intros i v Hv%entry_at_value.
  assert (Hi : 0 ≤ i < 5). { unfold value_of in Hv. destruct (aget _ i) as [x|] eqn:E; [|done]. by apply aget_range in E. }
  assert (i = 0 ∨ i = 1 ∨ i = 2 ∨ i = 3 ∨ i = 4) as [->|[->|[->|[->| ->]]]] by lia; vm_compute in Hv; by simplify_eq.
Defined.
