(* ===== verification/Kmonitor.v ===== *)
(** * kmonitor.c: the command interpreter of the kernel monitor

    Models src/Labweek11/lab2/kern/debug/kmonitor.c: [parse] splits the line that
    [readline] has read in its buffer into words, [runcmd] looks the first one up
    among the commands and calls it.  The texts are in the memory at the addresses
    of the record [mon_texts]; what the commands print is modelled in Stab.v. *)

From stdpp Require Import base list numbers gmap.
From S2P Require Import Prelude Mem CString Printfmt Console Stdio Stab.

Definition MAXARGS : Z := 16.

(** The functions a command can name. *)
Inductive mon_func := Mon_help | Mon_kerninfo | Mon_backtrace.

Record command := Command { name : Z; desc : Z; func : mon_func }.

Record mon_texts := MonTexts {
  WHITESPACE : Z;
  fmt_too_many : Z;
  fmt_unknown_command : Z;
  fmt_command : Z;
  fmt_welcome : Z;
  fmt_type_help : Z;
  prompt : Z;
  help_name : Z; help_desc : Z;
  kerninfo_name : Z; kerninfo_desc : Z;
  backtrace_name : Z; backtrace_desc : Z
}.

Definition commands (mt : mon_texts) : list command :=
  [Command (help_name mt) (help_desc mt) Mon_help;
   Command (kerninfo_name mt) (kerninfo_desc mt) Mon_kerninfo;
   Command (backtrace_name mt) (backtrace_desc mt) Mon_backtrace].

Definition NCOMMANDS (mt : mon_texts) : Z := zlen (commands mt).

Section kmonitor.
Context {D : Type} `{PortIO D} (lits : literals) (mt : mon_texts).

(** [*buf != '\0' && strchr(WHITESPACE, *buf) != NULL] *)
Definition at_whitespace (m : mem) (buf : Z) : outcome bool :=
  b ← ldb m buf;
  if b =? 0 then Ok false else p ← strchr m (WHITESPACE mt) (schar b); Ok (negb (p =? NULL)).

(** [while (...) *buf ++ = '\0';] *)
Definition skip_white (m : mem) (buf : Z) : outcome (mem * Z) :=
  loop (fuel_of m) (λ '(m, buf),
    w ← at_whitespace m buf;
    if (w : bool) then m ← stb m buf 0; Ok (inl (m, buf + 1)) else Ok (inr (m, buf))) (m, buf).

(** [while ( *buf != '\0' && strchr(WHITESPACE, *buf) == NULL) buf ++;] *)
Definition skip_word (m : mem) (buf : Z) : outcome Z :=
  loop (fuel_of m) (λ buf,
    b ← ldb m buf;
    if b =? 0 then Ok (inr buf)
    else p ← strchr m (WHITESPACE mt) (schar b); Ok (if p =? NULL then inl (buf + 1) else inr buf)) buf.

(** One iteration of [parse]. *)
Definition parse_step (st : Z * Z * list Z * (mem * console D)) :
    outcome (Z * Z * list Z * (mem * console D) + Z * list Z * (mem * console D)) :=
  let '(buf, argc, argv, (m, con)) := st in
  r ← skip_white m buf;
  let '(m, buf) := r in
  b ← ldb m buf;
  if b =? 0 then Ok (inr (argc, argv, (m, con)))
  else
    s ← (if argc =? MAXARGS - 1 then r ← cprintf lits (fmt_too_many mt) [MAXARGS] (m, con); Ok r.2 else Ok (m, con));
    argv ← aset argv argc buf;
    buf ← skip_word s.1 buf;
    Ok (inl (buf, argc + 1, argv, s)).

(** The results are [argc], [argv] and the state. *)
Definition parse (buf : Z) (argv : list Z) (s : mem * console D) : outcome (Z * list Z * (mem * console D)) :=
  loop (fuel_of s.1) parse_step (buf, 0, argv, s).

(** ** The commands *)

(** What the commands need from the rest of the kernel. *)
Record machine := Machine {
  stabs : list stab;
  tx : texts;
  syms : symbols;
  fnname : Z;
  ebp : Z;
  eip : Z
}.

Context (mc : machine).

Definition mon_help (s : mem * console D) : outcome (Z * (mem * console D)) :=
  s ← mfold (λ c s, r ← cprintf lits (fmt_command mt) [name c; desc c] s; Ok r.2) (commands mt) s;
  Ok (0, s).

Definition mon_kerninfo (s : mem * console D) : outcome (Z * (mem * console D)) :=
  s ← print_kerninfo (tx mc) lits (syms mc) s; Ok (0, s).

Definition mon_backtrace (s : mem * console D) : outcome (Z * (mem * console D)) :=
  s ← print_stackframe (stabs mc) (tx mc) lits (fnname mc) (ebp mc) (eip mc) s; Ok (0, s).

Definition call (f : mon_func) (s : mem * console D) : outcome (Z * (mem * console D)) :=
  match f with Mon_help => mon_help s | Mon_kerninfo => mon_kerninfo s | Mon_backtrace => mon_backtrace s end.

(** [argv] is an array on the stack, its values before [parse] are [argv0]. *)
Definition runcmd (buf : Z) (argv0 : list Z) (s : mem * console D) : outcome (Z * (mem * console D)) :=
  r ← parse buf argv0 s;
  let '(argc, argv, s) := r in
  if argc =? 0 then Ok (0, s)
  else
    arg0 ← aget argv 0;
    o ← loop (S (Z.to_nat (NCOMMANDS mt))) (λ i,
          if i <? NCOMMANDS mt then
            c ← aget (commands mt) i;
            d ← strcmp s.1 (name c) arg0;
            Ok (if d =? 0 then inr (Some (func c)) else inl (i + 1))
          else Ok (inr None)) 0;
    match o with
    | Some f => call f s
    | None => r ← cprintf lits (fmt_unknown_command mt) [arg0] s; Ok (0, r.2)
    end.

(** One round of the loop of [kmonitor]: the prompt, a line, the command; the
    buffer of [readline] is at address [buf].  The first part of the result is
    whether the loop goes on. *)
Definition kmonitor_round (spin fuel chars : nat) (pct_s buf : Z) (argv0 : list Z) (line : list Z) (s : mem * console D) :
    outcome (bool * list Z * (mem * console D)) :=
  r ← readline lits spin fuel chars pct_s (prompt mt) line s;
  let '(got, line, s) := r in
  if (got : bool) then
    r ← runcmd buf argv0 (put s.1 buf line, s.2);
    Ok (negb (r.1 <? 0), line, r.2)
  else Ok (true, line, s).
End kmonitor.
