(* ===== verification/KmonitorProps.v ===== *)
(** * The monitor splits a line into its words

    Properties of Kmonitor.v: [parse] finds the words of a line, terminates each
    in place and leaves the rest of the memory alone; with more than 16 words it
    writes behind its array.  [runcmd] calls the command that the first word
    names. *)

From stdpp Require Import base list numbers gmap.
From S2P Require Import Prelude Mem CString Printfmt Console ConsoleOut ConsoleIn ConsoleSpec Stdio Stab Kmonitor.

(** ** The words of a line *)

Definition is_white (c : Z) : bool := (c =? 32) || (c =? 9) || (c =? 10) || (c =? 13).

(** The characters up to the next white space. *)
Fixpoint word (s : list Z) : list Z :=
  match s with c :: s' => if is_white c then [] else c :: word s' | [] => [] end.

(** The maximal runs of characters that are not white space; [fresh]: the character
    before was white space. *)
Fixpoint words_from (fresh : bool) (s : list Z) : list (list Z) :=
  match s with
  | [] => []
  | c :: s' =>
      if is_white c then words_from true s'
      else (if fresh then [c :: word s'] else []) ++ words_from false s'
  end.

(** The addresses at which they start. *)
Fixpoint starts_from (fresh : bool) (p : Z) (s : list Z) : list Z :=
  match s with
  | [] => []
  | c :: s' =>
      if is_white c then starts_from true (p + 1) s'
      else (if fresh then [p] else []) ++ starts_from false (p + 1) s'
  end.

Definition words (s : list Z) : list (list Z) := words_from true s.

(** The line with its white space replaced by 0. *)
Definition zap (s : list Z) : list Z := (λ c, if is_white c then 0 else c) <$> s.

Definition whitespace : list Z := [32; 9; 10; 13].

Lemma starts_length fresh p s : length (starts_from fresh p s) = length (words_from fresh s).
Proof.
  revert fresh p. induction s as [|c s IH]; intros fresh p; [done|]. cbn. destruct (is_white c); [apply IH|].
  rewrite !length_app, IH. by destruct fresh.
Qed.

Definition chars_ok (s : list Z) : Prop := Forall (λ b, 0 < b < 256) s.

(** In the zapped line each word is a string. *)
Lemma word_str m p s : bytes_at m p (zap s ++ [0]) → chars_ok s → str_at m p (word s).
Proof.
  revert p. induction s as [|c s IH]; intros p Hb Hok; cbn in *.
  - apply str_at_nil. by apply bytes_at_cons in Hb as [H _].
  - apply bytes_at_cons in Hb as [Hp Hb]. apply Forall_cons in Hok as [Hc Hok]. destruct (is_white c).
    + by apply str_at_nil.
    + apply str_at_cons. split; [done|]. split; [done|]. by apply IH.
Qed.

Lemma starts_words m fresh p s : bytes_at m p (zap s ++ [0]) → chars_ok s →
  Forall2 (str_at m) (starts_from fresh p s) (words_from fresh s).
Proof.
  revert fresh p. induction s as [|c s IH]; intros fresh p Hb Hok; [constructor|].
  pose proof (word_str m p (c :: s) Hb Hok) as Hw. cbn in Hb, Hw. apply bytes_at_cons in Hb as [Hp Hb].
  apply Forall_cons in Hok as [Hc Hok]. cbn. destruct (is_white c); [by apply IH|].
  apply Forall2_app; [|by apply IH]. destruct fresh; [|constructor]. constructor; [done|constructor].
Qed.

(** ** The loops of parse *)

Section parse.
Context {D : Type} `{InputLaws D} (lits : literals) (mt : mon_texts).
(** [m0]: the literals, which are outside the line. *)
Context (m0 : mem) (buf : Z) (line : list Z).
Hypothesis Hline : chars_ok line.
Hypothesis Hout : ∀ a, is_Some (m0 !! a) → a < buf ∨ buf + zlen line < a.
Hypothesis Hnull : 0 < WHITESPACE mt.
Hypothesis Hwhite : str_at m0 (WHITESPACE mt) whitespace.

Lemma str_at_sub (m m' : mem) p s : m ⊆ m' → str_at m p s → str_at m' p s.
Proof. intros Hsub [Hb Hok]. split; [|done]. intros i b Hi. eapply lookup_weaken; [by apply Hb|done]. Qed.

Lemma whitespace_strchr m b : m0 ⊆ m → 0 < b < 256 →
  ∃ p, strchr m (WHITESPACE mt) (schar b) = Ok p ∧ (p =? NULL) = negb (is_white b).
Proof.
  intros Hsub Hb. destruct (strchr_spec m (WHITESPACE mt) whitespace (schar b)) as [-> _]; [by eapply str_at_sub|].
  eexists. split; [done|]. unfold schar, whitespace. cbn [index_of].
  destruct (is_white b) eqn:Ew; unfold is_white in Ew.
  - assert (b = 32 ∨ b = 9 ∨ b = 10 ∨ b = 13) as [->|[->|[->| ->]]] by lia; cbn; apply Z.eqb_neq; unfold NULL; lia.
  - assert (Hs : ∀ c, c = 32 ∨ c = 9 ∨ c = 10 ∨ c = 13 → (schar c =? (if b <? 128 then b else b - 256)) = false).
    { intros c Hc. unfold schar. apply Z.eqb_neq. destruct (Z.ltb_spec b 128), (Z.ltb_spec c 128); lia. }
    by rewrite !Hs by lia.
Qed.

(** The memory when the part [s1] of the line has been read. *)
Context (m : mem).
Hypothesis Hm0 : m0 ⊆ m.
Hypothesis Hbuf : bytes_at m buf (line ++ [0]).

Definition after (s1 : list Z) : mem := put m buf (zap s1).

Lemma zap_length s : zlen (zap s) = zlen s.
Proof. apply zlen_fmap. Qed.

Lemma after_sub s1 s2 : line = s1 ++ s2 → m0 ⊆ after s1.
Proof.
  intros E. apply map_subseteq_spec. intros a b Ha. unfold after. rewrite put_lookup, zap_length.
  rewrite decide_False; [by eapply lookup_weaken|]. destruct (Hout a) as [H1|H1]; [by exists b|lia|].
  rewrite E, zlen_app in H1. pose proof (zlen_nonneg s2). lia.
Qed.

(** The rest of the line is untouched. *)
Lemma after_rest s1 s2 : line = s1 ++ s2 → bytes_at (after s1) (buf + zlen s1) (s2 ++ [0]).
Proof.
  intros E. pose proof Hbuf as Hb. rewrite E, <-(assoc_L (++)) in Hb. apply bytes_at_app in Hb as [_ Hb].
  unfold after. apply bytes_at_put; [done|]. left. rewrite zap_length. lia.
Qed.

Lemma after_str s1 s2 : line = s1 ++ s2 → str_at (after s1) (buf + zlen s1) s2.
Proof.
  intros E. split; [by apply after_rest|]. pose proof Hline as Hl. rewrite E in Hl. by apply Forall_app in Hl as [_ ?].
Qed.

Lemma after_snoc s1 c s2 : line = s1 ++ c :: s2 →
  after (s1 ++ [c]) = if is_white c then <[buf + zlen s1 := 0]> (after s1) else after s1.
Proof.
  intros E. pose proof (after_str s1 (c :: s2) E) as [Hc Hr]%str_at_cons. unfold after, zap.
  rewrite fmap_app. cbn [fmap list_fmap]. rewrite put_snoc. change (zlen (_ <$> s1)) with (zlen (zap s1)). rewrite zap_length.
  destruct (is_white c); [done|]. destruct Hr as [Hr _]. rewrite Z.mod_small by lia.
  apply insert_id. exact Hc.
Qed.

Lemma snoc_pos s1 (c : Z) : buf + zlen s1 + 1 = buf + zlen (s1 ++ [c]).
Proof. rewrite zlen_app. unfold zlen at 3. cbn. lia. Qed.

Lemma char_white s1 c s2 : line = s1 ++ c :: s2 → at_whitespace mt (after s1) (buf + zlen s1) = Ok (is_white c).
Proof.
  intros E. pose proof (after_str s1 (c :: s2) E) as (Hc & Hr & _)%str_at_cons. unfold at_whitespace.
  rewrite (proj2 (ldb_Ok _ _ _) Hc). cbn. rewrite (proj2 (Z.eqb_neq c 0)) by lia.
  destruct (whitespace_strchr (after s1) c) as (p & -> & Hp); [by eapply after_sub|done|]. cbn. by rewrite Hp, negb_involutive.
Qed.

(** ** skip_white and skip_word *)

Definition at_word (s : list Z) : Prop := match s with c :: _ => is_white c = false | [] => True end.
Definition at_white (s : list Z) : Prop := match s with c :: _ => is_white c = true | [] => True end.

Lemma skip_white_loop n : ∀ s1 s2, line = s1 ++ s2 → (length s2 < n)%nat →
  ∃ w s3, s2 = w ++ s3 ∧ Forall (λ c, is_white c = true) w ∧ at_word s3 ∧
    loop n (λ '(m, buf), w ← at_whitespace mt m buf;
        if (w : bool) then m ← stb m buf 0; Ok (inl (m, buf + 1)) else Ok (inr (m, buf))) (after s1, buf + zlen s1)
    = Ok (after (s1 ++ w), buf + zlen (s1 ++ w)).
Proof.
  induction n as [|n IH]; intros s1 s2 E Hn; [lia|]. rewrite loop_unfold. destruct s2 as [|c s2].
  - exists [], []. rewrite !app_nil_r. split; [done|]. split; [constructor|]. split; [done|].
    pose proof (after_str s1 [] E) as Hz%str_at_nil. unfold at_whitespace. by rewrite (proj2 (ldb_Ok _ _ _) Hz).
  - rewrite (char_white s1 c s2 E). cbn [mbind outcome_bind]. destruct (is_white c) eqn:Ew.
    + pose proof (after_str s1 (c :: s2) E) as (Hc & _)%str_at_cons. rewrite stb_Ok by by exists c. cbn [mbind outcome_bind].
      destruct (IH (s1 ++ [c]) s2) as (w & s3 & -> & Hw & Ha & Hl); [by rewrite <-(assoc_L (++))|cbn in Hn; lia|].
      exists (c :: w), s3. split; [done|]. split; [by constructor|]. split; [done|].
      rewrite (after_snoc s1 c (w ++ s3) E), Ew in Hl. rewrite (snoc_pos s1 c). change (0 mod 256) with 0. rewrite Hl. by rewrite <-(assoc_L (++)).
    + exists [], (c :: s2). rewrite !app_nil_r. split; [done|]. split; [constructor|]. by split.
Qed.

Lemma skip_word_loop n s0 : ∀ s1 s2, line = s1 ++ s2 → after s1 = after s0 → (length s2 < n)%nat →
  ∃ s3, s2 = word s2 ++ s3 ∧ at_white s3 ∧ after (s1 ++ word s2) = after s0 ∧
    loop n (λ buf, b ← ldb (after s0) buf;
      if b =? 0 then Ok (inr buf)
      else p ← strchr (after s0) (WHITESPACE mt) (schar b); Ok (if p =? NULL then inl (buf + 1) else inr buf)) (buf + zlen s1)
    = Ok (buf + zlen (s1 ++ word s2)).
Proof.
  induction n as [|n IH]; intros s1 s2 E E0 Hn; [lia|]. rewrite loop_unfold. destruct s2 as [|c s2].
  - exists []. cbn [word]. rewrite !app_nil_r. split; [done|]. split; [done|]. split; [done|].
    pose proof (after_str s1 [] E) as Hz%str_at_nil. rewrite E0 in Hz. by rewrite (proj2 (ldb_Ok _ _ _) Hz).
  - pose proof (after_str s1 (c :: s2) E) as (Hc & Hr & _)%str_at_cons. rewrite E0 in Hc.
    rewrite (proj2 (ldb_Ok _ _ _) Hc). cbn [mbind outcome_bind]. rewrite (proj2 (Z.eqb_neq c 0)) by lia.
    destruct (whitespace_strchr (after s0) c) as (p & -> & Hp); [rewrite <-E0; by eapply after_sub|done|].
    cbn [mbind outcome_bind]. rewrite Hp. cbn [word]. destruct (is_white c) eqn:Ew; cbn [negb].
    + exists (c :: s2). by rewrite !app_nil_r.
    + destruct (IH (s1 ++ [c]) s2) as (s3 & E3 & Ha & Ea & Hl); [by rewrite <-(assoc_L (++))| |cbn in Hn; lia|].
      { by rewrite (after_snoc s1 c s2 E), Ew. }
      exists s3. split; [cbn; by rewrite <-E3|]. split; [done|]. rewrite <-(assoc_L (++)) in Ea, Hl. split; [done|].
      by rewrite (snoc_pos s1 c).
Qed.

(** ** The whole line *)

Lemma starts_white fresh w : ∀ p s3, Forall (λ c, is_white c = true) w → w ≠ [] ∨ fresh = true →
  starts_from fresh p (w ++ s3) = starts_from true (p + zlen w) s3.
Proof.
  revert fresh. induction w as [|c w IH]; intros fresh p s3 Hw Hf.
  - destruct Hf as [| ->]; [done|]. unfold zlen. cbn. by rewrite Z.add_0_r.
  - apply Forall_cons in Hw as [Hc Hw]. cbn. rewrite Hc, IH by auto. f_equal. unfold zlen. cbn [length]. lia.
Qed.

Lemma starts_false p s : at_white s → starts_from false p s = starts_from true p s.
Proof. destruct s as [|c s]; [done|]. cbn. by intros ->. Qed.

Lemma starts_word p s s3 : s = word s ++ s3 → at_white s3 → starts_from false p s = starts_from true (p + zlen (word s)) s3.
Proof.
  revert p. induction s as [|c s IH]; intros p E Ha.
  - cbn in E. by subst.
  - cbn in E |- *. destruct (is_white c) eqn:Ew.
    + cbn in E. subst. unfold zlen. cbn. by rewrite Z.add_0_r, Ew.
    + injection E as E. rewrite (IH (p + 1) E Ha). cbn. f_equal. unfold zlen. cbn [length]. lia.
Qed.

Lemma cprintf_sub M fmt ap l (con : console D) t : m0 ⊆ M → text lits m0 fmt ap = Ok l → shows con t →
  ∃ con', cprintf lits fmt ap (M, con) = Ok (zlen l, (M, con')) ∧ kept con con' ∧ shows con' (term_text l t).
Proof.
  intros Hsub Ht Hs. unfold cprintf, vcprintf. cbn [fst snd].
  destruct (vprintfmt_text cputch lits m0 (printed M con t)) with (fmt := fmt) (ap := ap) (s := (M, (con, 0))) (l := l)
    as ([m' [s' n]] & -> & Hm & Hn & Hk & Hsh); try done.
  - intros x log (-> & _). done.
  - intros c x log. apply cputch_printed.
  - cbn in *. subst. by exists s'.
Qed.

(** What [parse] prints with [n] words. *)
Context (msg : list Z).
Hypothesis Hmsg : text lits m0 (fmt_too_many mt) [MAXARGS] = Ok msg.

Lemma report_spec argc M (con : console D) t : m0 ⊆ M → shows con t →
  ∃ con', (if argc =? MAXARGS - 1 then r ← cprintf lits (fmt_too_many mt) [MAXARGS] (M, con); Ok r.2 else Ok (M, con)) = Ok (M, con') ∧
    kept con con' ∧ shows con' (if argc =? 15 then term_text msg t else t).
Proof.
  intros Hsub Hs. change (MAXARGS - 1) with 15. destruct (argc =? 15); [|by exists con].
  destruct (cprintf_sub M (fmt_too_many mt) [MAXARGS] msg con t Hsub Hmsg Hs) as (con' & -> & Hk & Hs'). by exists con'.
Qed.

(** The result of an iteration. *)
Lemma parse_iter s1 s2 argc argv (con : console D) t : line = s1 ++ s2 → shows con t → zlen argv = 16 → 0 ≤ argc ≤ 16 →
  (starts_from true (buf + zlen s1) s2 = [] ∧
    parse_step lits mt (buf + zlen s1, argc, argv, (after s1, con)) = Ok (inr (argc, argv, (after line, con)))) ∨
  (∃ p s1' s2' con', starts_from true (buf + zlen s1) s2 = p :: starts_from true (buf + zlen s1') s2' ∧
    line = s1' ++ s2' ∧ (length s2' < length s2)%nat ∧ kept con con' ∧ shows con' (if argc =? 15 then term_text msg t else t) ∧
    parse_step lits mt (buf + zlen s1, argc, argv, (after s1, con)) =
      if argc <? 16 then Ok (inl (buf + zlen s1', argc + 1, <[Z.to_nat argc := p]> argv, (after s1', con'))) else Err Undef).
Proof.
  intros E Hs Hargv Hargc. unfold parse_step, skip_white.
  pose proof (str_fuel _ _ _ (after_str s1 s2 E)) as Hf.
  destruct (skip_white_loop (fuel_of (after s1)) s1 s2 E) as (w & s3 & -> & Hw & Ha & ->); [lia|]. cbn [mbind outcome_bind].
  assert (E3 : line = (s1 ++ w) ++ s3) by by rewrite <-(assoc_L (++)).
  rewrite starts_white by auto. replace (buf + zlen s1 + zlen w) with (buf + zlen (s1 ++ w)) by (rewrite zlen_app; lia).
  pose proof (after_str (s1 ++ w) s3 E3) as Hstr. destruct s3 as [|c s3].
  - left. split; [done|]. apply str_at_nil in Hstr. rewrite (proj2 (ldb_Ok _ _ _) Hstr). cbn. rewrite E3, app_nil_r. done.
  - right. pose proof Hstr as (Hc & Hr & _)%str_at_cons. rewrite (proj2 (ldb_Ok _ _ _) Hc). cbn [mbind outcome_bind].
    rewrite (proj2 (Z.eqb_neq c 0)) by lia. pose proof (after_sub _ _ E3) as Hsub.
    destruct (report_spec argc (after (s1 ++ w)) con t Hsub Hs) as (con' & -> & Hk & Hs'). cbn [mbind outcome_bind fst snd].
    pose proof (str_fuel _ _ _ Hstr) as Hf3. unfold skip_word.
    destruct (skip_word_loop (fuel_of (after (s1 ++ w))) (s1 ++ w) (s1 ++ w) (c :: s3) E3) as (s4 & E4 & Ha4 & Ea & ->); [done|lia|].
    exists (buf + zlen (s1 ++ w)), ((s1 ++ w) ++ word (c :: s3)), s4, con'. split.
    { cbn in Ha. cbn [starts_from]. rewrite Ha. cbn. f_equal.
      assert (E4' : s3 = word s3 ++ s4) by (cbn in E4; rewrite Ha in E4; by injection E4).
      rewrite (starts_word _ s3 s4 E4' Ha4). f_equal. rewrite Ha, !zlen_app. unfold zlen. cbn [length]. lia. }
    split; [by rewrite <-(assoc_L (++)), <-E4|].
    split. { apply (f_equal length) in E4. rewrite length_app in E4. cbn in Ha, E4 |- *. rewrite Ha in E4. rewrite length_app. cbn in E4 |- *. lia. }
    split; [done|]. split; [done|]. rewrite Ea. unfold aset. unfold zlen in Hargv.
    destruct (Z.ltb_spec argc 16); [rewrite decide_True by lia|rewrite decide_False by lia]; done.
Qed.
Lemma parse_loop n : ∀ s1 s2 argc argv (con : console D) t, line = s1 ++ s2 → (length s2 < n)%nat → shows con t →
  zlen argv = 16 → 0 ≤ argc ≤ 16 →
  let st := starts_from true (buf + zlen s1) s2 in
  (argc + zlen st ≤ 16 → ∃ argv' con',
     loop n (parse_step lits mt) (buf + zlen s1, argc, argv, (after s1, con)) = Ok (argc + zlen st, argv', (after line, con')) ∧
     take (Z.to_nat (argc + zlen st)) argv' = take (Z.to_nat argc) argv ++ st ∧ kept con con' ∧
     shows con' (if (argc <=? 15) && (16 <=? argc + zlen st) then term_text msg t else t)) ∧
  (16 < argc + zlen st → loop n (parse_step lits mt) (buf + zlen s1, argc, argv, (after s1, con)) = Err Undef).
Proof.
  induction n as [|n IH]; intros s1 s2 argc argv con t E Hn Hs Hargv Hargc; [lia|]. cbn zeta.
  rewrite loop_unfold. destruct (parse_iter s1 s2 argc argv con t E Hs Hargv Hargc) as [[Est Ep]|(p & s1' & s2' & con' & Est & E' & Hlen & Hk & Hs' & Ep)];
    rewrite Ep, Est; cbn [mbind outcome_bind].
  - change (zlen []) with 0. split; [|lia]. intros _. exists argv, con. rewrite Z.add_0_r, app_nil_r. split; [done|]. split; [done|].
    split; [done|]. by destruct (Z.leb_spec argc 15), (Z.leb_spec 16 argc); try lia.
  - set (st := starts_from true (buf + zlen s1') s2') in *. assert (Ez : zlen (p :: st) = 1 + zlen st) by (unfold zlen; cbn [length]; lia).
    rewrite Ez. pose proof (zlen_nonneg st). destruct (Z.ltb_spec argc 16) as [Hlt|Hge]; cbn [mbind outcome_bind]; [|split; [lia|done]].
    set (argv1 := <[Z.to_nat argc := p]> argv).
    destruct (IH s1' s2' (argc + 1) argv1 con' (if argc =? 15 then term_text msg t else t) E') as [IH1 IH2];
      [lia|done|unfold argv1; by rewrite zlen_insert|lia|]. fold st in IH1, IH2.
    replace (argc + (1 + zlen st)) with (argc + 1 + zlen st) by lia. split; [|exact IH2].
    intros Hle. destruct (IH1 Hle) as (argv' & con2 & El & Et & Hk2 & Hs2). exists argv', con2. split; [exact El|]. split.
    + rewrite Et. replace (Z.to_nat (argc + 1)) with (S (Z.to_nat argc)) by lia. unfold argv1.
      assert (Hin : (Z.to_nat argc < length argv)%nat) by (unfold zlen in Hargv; lia).
      rewrite (take_S_r _ _ p) by (by apply list_lookup_insert_eq). rewrite take_insert_ge by done. by rewrite <-(assoc_L (++)).
    + split; [by etrans|].
      destruct (Z.eqb_spec argc 15) as [->|Hne].
      * assert (zlen st = 0) by lia. replace (15 + 1 + zlen st) with 16 in Hs2 |- * by lia. exact Hs2.
      * by destruct (Z.leb_spec argc 15), (Z.leb_spec (argc + 1) 15), (Z.leb_spec 16 (argc + 1 + zlen st)); try lia.
Qed.
End parse.

Lemma zapped_line m buf line : bytes_at m buf (line ++ [0]) → chars_ok line → bytes_at (put m buf (zap line)) buf (zap line ++ [0]).
Proof.
  intros Hb Hok. apply bytes_at_app. split.
  - apply put_bytes. unfold zap. apply Forall_fmap. eapply Forall_impl; [exact Hok|]. intros c Hc. cbn beta in Hc.
    unfold compose, byte_ok. destruct (is_white c); lia.
  - rewrite zap_length. apply bytes_at_app in Hb as [_ Hb]. apply bytes_at_put; [done|]. left. rewrite zap_length. lia.
Qed.

(** ** The properties *)

(** A line in the buffer at [buf], the literals [m0] in the memory outside of it; the
    complaint about too many arguments is the text [msg]. *)
Record line_ready (lits : literals) (mt : mon_texts) (m0 m : mem) (buf : Z) (line msg : list Z) : Prop := {
  lr_line : str_at m buf line;
  lr_sub : m0 ⊆ m;
  lr_out : ∀ a, is_Some (m0 !! a) → a < buf ∨ buf + zlen line < a;
  lr_null : 0 < WHITESPACE mt;
  lr_white : str_at m0 (WHITESPACE mt) whitespace;
  lr_msg : text lits m0 (fmt_too_many mt) [MAXARGS] = Ok msg
}.

Lemma parse_line {D} `{InputLaws D} lits mt (m0 m : mem) buf line msg argv (con : console D) t :
  line_ready lits mt m0 m buf line msg → shows con t → zlen argv = 16 →
  (zlen (words line) ≤ 16 → ∃ argv' con',
     parse lits mt buf argv (m, con) = Ok (zlen (words line), argv', (put m buf (zap line), con')) ∧
     Forall2 (str_at (put m buf (zap line))) (take (length (words line)) argv') (words line) ∧ kept con con' ∧
     shows con' (if zlen (words line) =? 16 then term_text msg t else t)) ∧
  (16 < zlen (words line) → parse lits mt buf argv (m, con) = Err Undef).
Proof.
  intros [[Hb Hok] Hsub Hout Hnull Hws Hmsg] Hs Hargv.
  assert (El : zlen (starts_from true (buf + zlen (@nil Z)) line) = zlen (words line)) by (unfold zlen, words; by rewrite starts_length).
  destruct (parse_loop lits mt m0 buf line Hok Hout Hnull Hws m Hsub Hb msg Hmsg (fuel_of m) [] line 0 argv con t) as [P1 P2];
    [done|pose proof (str_fuel m buf line (conj Hb Hok)); lia|done|done|lia|].
  rewrite El in P1, P2. change (after buf m []) with m in P1, P2. change (zlen []) with 0 in P1, P2. rewrite Z.add_0_r, Z.add_0_l in P1, P2.
  split; [|exact P2]. intros Hle. destruct (P1 Hle) as (argv' & con' & E & Et & Hk & Hs'). exists argv', con'.
  split; [exact E|]. split; [|split; [done|]].
  - unfold zlen in Et. rewrite Nat2Z.id in Et. rewrite Et. cbn [take app]. apply starts_words; [|done]. by apply zapped_line.
  - cbn [andb] in Hs'. by destruct (Z.leb_spec 16 (zlen (words line))), (Z.eqb_spec (zlen (words line)) 16); try lia.
Qed.

(** [C33] [parse] ends on every line.  With at most 16 words it returns their number
    and puts their addresses into [argv] in order; in the memory each of them is a
    string of its own, all white space of the line is overwritten with 0 and nothing
    else changes; the complaint about too many arguments is printed exactly when
    there are 16.  With more than 16 words it writes behind [argv]. *)
Theorem parse_splits {D} `{InputLaws D} lits mt (m0 m : mem) buf line msg argv (con : console D) t :
  line_ready lits mt m0 m buf line msg → shows con t → zlen argv = 16 →
  (zlen (words line) ≤ 16 → ∃ argv' con',
     parse lits mt buf argv (m, con) = Ok (zlen (words line), argv', (put m buf (zap line), con')) ∧
     Forall2 (str_at (put m buf (zap line))) (take (length (words line)) argv') (words line) ∧ kept con con' ∧
     shows con' (if zlen (words line) =? 16 then term_text msg t else t)) ∧
  (16 < zlen (words line) → parse lits mt buf argv (m, con) = Err Undef).
Proof. apply parse_line. Qed.

(** "help", "kerninfo" and "backtrace" *)
Definition command_names : list (list Z * mon_func) :=
  [([104; 101; 108; 112], Mon_help);
   ([107; 101; 114; 110; 105; 110; 102; 111], Mon_kerninfo);
   ([98; 97; 99; 107; 116; 114; 97; 99; 101], Mon_backtrace)].

Definition names_ready (mt : mon_texts) (m0 : mem) : Prop :=
  Forall2 (λ c x, str_at m0 (name c) x.1 ∧ func c = x.2) (commands mt) command_names.

Fixpoint named_in (l : list (list Z * mon_func)) (w : list Z) : option mon_func :=
  match l with (n, f) :: l => if decide (n = w) then Some f else named_in l w | [] => None end.

(** The function that a word names. *)
Definition named (w : list Z) : option mon_func := named_in command_names w.

Lemma strcmp_zero m p q s t : str_at m p s → str_at m q t →
  ∃ d, strcmp m p q = Ok d ∧ (d =? 0) = bool_decide (s = t).
Proof.
  intros Hs Ht. rewrite (strcmp_spec m p q s t) by done. eexists. split; [done|].
  pose proof (cmp_bytes_eq s t (proj2 Hs) (proj2 Ht)) as Hz. case_bool_decide; [apply Z.eqb_eq; naive_solver|apply Z.eqb_neq; naive_solver].
Qed.

Lemma find_command mt M arg0 w : names_ready mt M → str_at M arg0 w →
  loop (S (Z.to_nat (NCOMMANDS mt))) (λ i,
    if i <? NCOMMANDS mt then
      c ← aget (commands mt) i; d ← strcmp M (name c) arg0;
      Ok (if d =? 0 then inr (Some (func c)) else inl (i + 1))
    else Ok (inr None)) 0 = Ok (named w).
Proof.
  intros Hn Hw. assert (Hlen : NCOMMANDS mt = 3) by done. rewrite Hlen. change (S (Z.to_nat 3)) with 4%nat.
  assert (Hstep : ∀ n i c x, aget (commands mt) i = Ok c → str_at M (name c) x.1 → func c = x.2 → 0 ≤ i < 3 →
    loop (S n) (λ i, if i <? 3 then
      c ← aget (commands mt) i; d ← strcmp M (name c) arg0;
      Ok (if d =? 0 then inr (Some (func c)) else inl (i + 1)) else Ok (inr None)) i =
    if decide (x.1 = w) then Ok (Some x.2) else loop n (λ i, if i <? 3 then
      c ← aget (commands mt) i; d ← strcmp M (name c) arg0;
      Ok (if d =? 0 then inr (Some (func c)) else inl (i + 1)) else Ok (inr None)) (i + 1)).
  { intros n i c x Hc Hx Hf Hi. rewrite loop_unfold, (proj2 (Z.ltb_lt i 3)), Hc by lia. cbn [mbind outcome_bind].
    destruct (strcmp_zero M (name c) arg0 x.1 w Hx Hw) as (d & -> & Hd). cbn [mbind outcome_bind]. rewrite Hd, Hf. by case_bool_decide; case_decide. }
  unfold names_ready, command_names, commands in Hn.
  apply Forall2_cons in Hn as [[H1 F1] Hn]. apply Forall2_cons in Hn as [[H2 F2] Hn]. apply Forall2_cons in Hn as [[H3 F3] _].
  rewrite (Hstep _ 0 _ _ eq_refl H1 F1) by lia. unfold named, command_names. cbn [named_in fst snd]. case_decide; [done|].
  rewrite (Hstep _ 1 _ _ eq_refl H2 F2) by lia. cbn [fst snd]. case_decide; [done|].
  rewrite (Hstep _ 2 _ _ eq_refl H3 F3) by lia. cbn [fst snd]. by case_decide.
Qed.

(** [runcmd] does nothing for a line without words, calls the command that the
    first word names, and for another word prints the complaint with that word; the
    command runs on the memory with the words terminated, and for at most 15 words
    nothing has been printed before. *)
Theorem runcmd_dispatches {D} `{InputLaws D} lits mt mc (m0 m : mem) buf line msg argv (con : console D) t :
  line_ready lits mt m0 m buf line msg → names_ready mt m0 → shows con t → zlen argv = 16 → zlen (words line) ≤ 15 →
  ∃ con' arg0, kept con con' ∧ shows con' t ∧
    let s := (put m buf (zap line), con') in
    runcmd lits mt mc buf argv (m, con) =
      match words line with
      | [] => Ok (0, s)
      | w :: _ =>
          match named w with
          | Some f => call lits mt mc f s
          | None => r ← cprintf lits (fmt_unknown_command mt) [arg0] s; Ok (0, r.2)
          end
      end ∧
    ∀ w l, words line = w :: l → str_at s.1 arg0 w.
Proof.
  intros HL HN Hs Hargv Hle. destruct (parse_line lits mt m0 m buf line msg argv con t HL Hs Hargv) as [P _].
  destruct P as (argv' & con' & E & Hw & Hk & Hs'); [lia|]. rewrite (proj2 (Z.eqb_neq _ 16)) in Hs' by lia.
  assert (HN' : names_ready mt (put m buf (zap line))).
  { eapply Forall2_impl; [exact HN|]. intros c x [Hc Hf]. split; [|done]. eapply str_at_sub; [|exact Hc].
    apply map_subseteq_spec. intros a b Ha. rewrite put_lookup, zap_length.
    destruct (lr_out _ _ _ _ _ _ _ HL a); [by exists b| |]; (rewrite decide_False by lia); eapply lookup_weaken; eauto using lr_sub. }
  unfold runcmd. rewrite E. cbn [mbind outcome_bind]. destruct (words line) as [|w l] eqn:Ew.
  - exists con', 0. split; [done|]. split; [done|]. cbn. done.
  - destruct argv' as [|arg0 argv']; [cbn in Hw; inversion Hw|]. cbn in Hw. apply Forall2_cons in Hw as [Hw _].
    exists con', arg0. split; [done|]. split; [done|]. cbn zeta. split; [|intros w' l' [= <- <-]; done].
    rewrite (proj2 (Z.eqb_neq _ 0)) by (unfold zlen; cbn [length]; lia). change (aget (arg0 :: argv') 0) with (Ok arg0 : outcome Z).
    cbn [mbind outcome_bind fst]. rewrite (find_command mt _ arg0 w HN' Hw). cbn [mbind outcome_bind]. by destruct (named w).
Qed.

(** ** A concrete line *)

Definition mon_texts_w : mon_texts := MonTexts 500 510 540 0 0 0 0 600 0 610 0 620 0.

(** "Too many arguments (max %d).\n" *)
Definition too_many : list Z :=
  [84; 111; 111; 32; 109; 97; 110; 121; 32; 97; 114; 103; 117; 109; 101; 110; 116; 115; 32; 40; 109; 97; 120; 32; 37; 100; 41; 46; 10].

Definition literals_w : mem :=
  put (put (put (put (put ∅ 500 (whitespace ++ [0])) 510 (too_many ++ [0])) 600 ([104; 101; 108; 112] ++ [0])) 610 ([107; 101; 114; 110; 105; 110; 102; 111] ++ [0])) 620
    ([98; 97; 99; 107; 116; 114; 97; 99; 101] ++ [0]).

(** "help  me" *)
Definition line_w : list Z := [104; 101; 108; 112; 32; 32; 109; 101].
Definition memory_w : mem := put literals_w 900 (line_w ++ [0]).

(** "Too many arguments (max 16).\n" *)
Definition too_many_w : list Z :=
  [84; 111; 111; 32; 109; 97; 110; 121; 32; 97; 114; 103; 117; 109; 101; 110; 116; 115; 32; 40; 109; 97; 120; 32; 49; 54; 41; 46; 10].

Lemma line_ready_w : line_ready lits_w mon_texts_w literals_w memory_w 900 line_w too_many_w.
Proof.
  split.
  - split; [apply mem_holds_bytes; by vm_compute|by repeat constructor].
  - apply (bool_decide_eq_true_1 (literals_w ⊆ _)). by vm_compute.
  - intros a [b Hb]. left. unfold literals_w in Hb. rewrite !put_lookup in Hb. unfold zlen in Hb. cbn in Hb.
    repeat case_decide; lia || done.
  - done.
  - split; [apply mem_holds_bytes; by vm_compute|by repeat constructor].
  - vm_compute. reflexivity.
Qed.

Lemma names_ready_w : names_ready mon_texts_w literals_w.
Proof.
  repeat constructor; apply mem_holds_bytes; by vm_compute.
Qed.

Lemma parse_splits_witness : ∃ argv' m' con',
  parse lits_w mon_texts_w 900 (replicate 16 0) (memory_w, console_w [] []) = Ok (2, argv', (m', con')) ∧
  Forall2 (str_at m') (take 2 argv') [[104; 101; 108; 112]; [109; 101]].
Proof.
  destruct (parse_splits lits_w mon_texts_w literals_w memory_w 900 line_w too_many_w (replicate 16 0) (console_w [] []) blank_term
    line_ready_w (blank_shows [] []) eq_refl) as [P _].
  destruct P as (argv' & con' & E & Hw & _); [by vm_compute|]. exists argv', (put memory_w 900 (zap line_w)), con'. split; [exact E|exact Hw].
Defined.

Definition machine_w : machine := Machine [] (Texts 0 0 0 0 0 0 0 0 0 0 0 0 0 0) (Symbols 0 0 0 0) 0 0 0.

(** The line calls the command help. *)
Lemma runcmd_dispatches_witness : ∃ s,
  runcmd lits_w mon_texts_w machine_w 900 (replicate 16 0) (memory_w, console_w [] []) = call lits_w mon_texts_w machine_w Mon_help s.
Proof.
  destruct (runcmd_dispatches lits_w mon_texts_w machine_w literals_w memory_w 900 line_w too_many_w (replicate 16 0) (console_w [] []) blank_term
    line_ready_w names_ready_w (blank_shows [] []) eq_refl ltac:(by vm_compute)) as (con' & arg0 & _ & _ & E & _).
  exists (put memory_w 900 (zap line_w), con'). exact E.
Defined.
