(* ===== verification/Bootmain.v ===== *)
(** * bootmain.c: the boot loader

    Models src/Labweek11/lab2/boot/bootmain.c with [insl] of libs/x86.h and the
    structures of libs/elf.h: the sectors of the kernel are read from the IDE disk
    through its ports into the memory, segment by segment, before the kernel is
    entered.  The memory is the byte memory of Mem.v, the ports those of
    Console.v and the 16- and 32-bit accesses of [WordIO]. *)

From stdpp Require Import base list numbers gmap.
From S2P Require Import Prelude Mem Console.

(** [inl] (as [insl] repeats it) and [outw]. *)
Class WordIO (D : Type) := {
  port_inl : Z → D → Z * D;
  port_outw : Z → Z → D → D
}.

Definition SECTSIZE : Z := 512.
Definition ELFHDR : Z := 0x10000.
Definition ELF_MAGIC : Z := 0x464C457F.

(** The four bytes of a word, the lowest first. *)
Definition word_bytes (w : Z) : list Z :=
  [w mod 256; Z.shiftr w 8 mod 256; Z.shiftr w 16 mod 256; Z.shiftr w 24 mod 256].

(** Reads of 4 and 2 bytes. *)
Definition load32 (m : mem) (a : Z) : outcome Z :=
  b0 ← ldb m a; b1 ← ldb m (a + 1); b2 ← ldb m (a + 2); b3 ← ldb m (a + 3);
  Ok (b0 + 2 ^ 8 * b1 + 2 ^ 16 * b2 + 2 ^ 24 * b3).
Definition load16 (m : mem) (a : Z) : outcome Z :=
  b0 ← ldb m a; b1 ← ldb m (a + 1); Ok (b0 + 2 ^ 8 * b1).

(** The members of [struct elfhdr] and [struct proghdr] that are read. *)
Definition e_magic (m : mem) : outcome Z := load32 m ELFHDR.
Definition e_entry (m : mem) : outcome Z := load32 m (ELFHDR + 24).
Definition e_phoff (m : mem) : outcome Z := load32 m (ELFHDR + 28).
Definition e_phnum (m : mem) : outcome Z := load16 m (ELFHDR + 44).
Definition sizeof_proghdr : Z := 32.
Definition p_offset (m : mem) (ph : Z) : outcome Z := load32 m (ph + 4).
Definition p_va (m : mem) (ph : Z) : outcome Z := load32 m (ph + 8).
Definition p_memsz (m : mem) (ph : Z) : outcome Z := load32 m (ph + 20).

Section bootmain.
Context {D : Type} `{PortIO D} `{WordIO D}.
(** How often [waitdisk] asks at most. *)
Variable spin : nat.

Definition waitdisk (d : D) : outcome D :=
  loop spin (λ d,
    let r := port_in 0x1F7 d in
    Ok (if Z.land (u8 r.1) 0xC0 =? 0x40 then inr r.2 else inl r.2)) d.

(** Stores the word at [addr]. *)
Definition store32 (m : mem) (addr w : Z) : outcome mem :=
  mfold (λ '(i, b) m, stb m (addr + i) b) (zip [0; 1; 2; 3] (word_bytes w)) m.

(** "cld; repne; insl" *)
Definition insl (port addr cnt : Z) (s : mem * D) : outcome (mem * D) :=
  for_range 0 cnt (λ i s,
    let r := port_inl port s.2 in m ← store32 s.1 (addr + 4 * i) r.1; Ok (m, r.2)) s.

Definition readsect (dst secno : Z) (s : mem * D) : outcome (mem * D) :=
  d ← waitdisk s.2;
  let d := port_out 0x1F2 1 d in
  let d := port_out 0x1F3 (Z.land secno 0xFF) d in
  let d := port_out 0x1F4 (Z.land (Z.shiftr secno 8) 0xFF) d in
  let d := port_out 0x1F5 (Z.land (Z.shiftr secno 16) 0xFF) d in
  let d := port_out 0x1F6 (Z.lor (Z.land (Z.shiftr secno 24) 0xF) 0xE0) d in
  let d := port_out 0x1F7 0x20 d in
  d ← waitdisk d;
  insl 0x1F0 dst (Z.quot SECTSIZE 4) (s.1, d).

Definition readseg (va count offset : Z) (s : mem * D) : outcome (mem * D) :=
  let end_va := u32 (va + count) in
  let va := u32 (va - offset mod SECTSIZE) in
  let secno := u32 (offset / SECTSIZE + 1) in
  r ← loop (S (Z.to_nat ((end_va - va) / SECTSIZE + 1))) (λ '(va, secno, s),
        if va <? end_va then s ← readsect va secno s; Ok (inl (u32 (va + SECTSIZE), u32 (secno + 1), s))
        else Ok (inr s)) (va, secno, s);
  Ok r.

(** The loop over the program headers; [eph] is where they end. *)
Definition load_segments (ph eph : Z) (s : mem * D) : outcome (mem * D) :=
  loop (S (Z.to_nat ((eph - ph) / sizeof_proghdr + 1))) (λ '(ph, s),
    if ph <? eph then
      va ← p_va s.1 ph; memsz ← p_memsz s.1 ph; off ← p_offset s.1 ph;
      s ← readseg (Z.land va 0xFFFFFF) memsz off s;
      Ok (inl (u32 (ph + sizeof_proghdr), s))
    else Ok (inr s)) (ph, s).

(** What follows: the kernel is entered at an address, or the loader reports the
    error at port 0x8A00 and stays in its last loop. *)
Inductive booted := Entered (addr : Z) | Bad.

(** What is done when the first eight sectors have been read. *)
Definition boot_kernel (s : mem * D) : outcome (booted * (mem * D)) :=
  magic ← e_magic s.1;
  if negb (magic =? ELF_MAGIC) then
    Ok (Bad, (s.1, port_outw 0x8A00 0x8E00 (port_outw 0x8A00 0x8A00 s.2)))
  else
    phoff ← e_phoff s.1;
    phnum ← e_phnum s.1;
    let ph := u32 (ELFHDR + phoff) in
    s ← load_segments ph (u32 (ph + phnum * sizeof_proghdr)) s;
    entry ← e_entry s.1;
    Ok (Entered (Z.land entry 0xFFFFFF), s).

Definition bootmain (s : mem * D) : outcome (booted * (mem * D)) :=
  s ← readseg ELFHDR (SECTSIZE * 8) 0 s; boot_kernel s.
End bootmain.
