(* ===== verification/BootmainProps.v ===== *)
(** * The boot loader loads every segment

    Properties of Bootmain.v for every disk with the laws of [IdeLaws], which state
    how an IDE controller answers the commands the loader gives it. *)

From stdpp Require Import base list numbers gmap.
From S2P Require Import Prelude Mem CString Console Bootmain.

(** ** The disk *)

(** The registers of the controller: how often it will still answer that it is
    busy, the sector that is addressed, and the words waiting to be read. *)
Record ide := Ide {
  polls : nat;
  r_count : Z;
  r_lba0 : Z;
  r_lba1 : Z;
  r_lba2 : Z;
  r_head : Z;
  words_left : list Z
}.

Definition lba (s : ide) : Z := r_lba0 s + 2 ^ 8 * r_lba1 s + 2 ^ 16 * r_lba2 s + 2 ^ 24 * Z.land (r_head s) 0xF.

(** The ports of the controller as the ATA standard describes them: 0x1F7 is the
    status (ready, not busy) and takes the command 0x20 to read the sectors that the
    other registers address, whose words are read at 0x1F0. *)
Class IdeLaws (D : Type) `{PortIO D} `{WordIO D} := {
  ide_state : D → ide;
  disk : Z → list Z;
  latency : nat;
  disk_words s : length (disk s) = 128%nat;
  ide_busy d n : polls (ide_state d) = S n →
    Z.land (u8 (port_in 0x1F7 d).1) 0xC0 ≠ 0x40 ∧
    ide_state (port_in 0x1F7 d).2 =
      let s := ide_state d in Ide n (r_count s) (r_lba0 s) (r_lba1 s) (r_lba2 s) (r_head s) (words_left s);
  ide_ready d : polls (ide_state d) = 0%nat →
    Z.land (u8 (port_in 0x1F7 d).1) 0xC0 = 0x40 ∧ ide_state (port_in 0x1F7 d).2 = ide_state d;
  ide_register d p v : polls (ide_state d) = 0%nat → 0x1F2 ≤ p ≤ 0x1F6 →
    ide_state (port_out p v d) =
      let s := ide_state d in
      Ide 0 (if p =? 0x1F2 then v else r_count s) (if p =? 0x1F3 then v else r_lba0 s) (if p =? 0x1F4 then v else r_lba1 s)
        (if p =? 0x1F5 then v else r_lba2 s) (if p =? 0x1F6 then v else r_head s) (words_left s);
  ide_command d : let s := ide_state d in
    polls s = 0%nat → r_count s = 1 → Z.land (r_head s) 0xF0 = 0xE0 →
    ∃ n, (n ≤ latency)%nat ∧
      ide_state (port_out 0x1F7 0x20 d) = Ide n (r_count s) (r_lba0 s) (r_lba1 s) (r_lba2 s) (r_head s) (disk (lba s));
  ide_data d w ws : polls (ide_state d) = 0%nat → words_left (ide_state d) = w :: ws →
    (port_inl 0x1F0 d).1 = w ∧
    ide_state (port_inl 0x1F0 d).2 =
      let s := ide_state d in Ide 0 (r_count s) (r_lba0 s) (r_lba1 s) (r_lba2 s) (r_head s) ws
}.

Section boot.
Context {D : Type} `{IdeLaws D} (spin : nat).
Hypothesis Hspin : (latency < spin)%nat.

(** ** Bytes of the disk *)

Definition sector_bytes (s : Z) : list Z := w ← disk s; word_bytes w.

(** Byte [k] of the kernel image, which starts at sector 1. *)
Definition image (k : Z) : Z := default 0 (sector_bytes (k / SECTSIZE + 1) !! Z.to_nat (k mod SECTSIZE)).

Definition image_from (k n : Z) : list Z := image <$> seqZ k n.

Lemma words_bytes_length (l : list Z) : length (l ≫= word_bytes) = (4 * length l)%nat.
Proof. induction l as [|w l IH]; [done|]. cbn [mbind list_bind]. rewrite length_app, IH. cbn. lia. Qed.

Lemma sector_length s : length (sector_bytes s) = 512%nat.
Proof. unfold sector_bytes. by rewrite words_bytes_length, disk_words. Qed.

Lemma image_from_sector s : image_from (SECTSIZE * (s - 1)) SECTSIZE = sector_bytes s.
Proof.
  unfold image_from. apply list_eq. intros i. rewrite list_lookup_fmap. unfold SECTSIZE.
  destruct (decide (i < 512)%nat) as [Hi|Hi].
  - rewrite lookup_seqZ_lt by lia. cbn. unfold image, SECTSIZE.
    replace (512 * (s - 1) + Z.of_nat i) with (Z.of_nat i + (s - 1) * 512) by lia.
    rewrite Z.div_add, Z.mod_add, Z.div_small, Z.mod_small by lia. replace (0 + (s - 1) + 1) with s by lia. rewrite Nat2Z.id.
    destruct (lookup_lt_is_Some_2 (sector_bytes s) i) as [b Hb]; [rewrite sector_length; lia|]. by rewrite Hb.
  - rewrite lookup_seqZ_ge by lia. rewrite lookup_ge_None_2; [done|]. rewrite sector_length. lia.
Qed.

Lemma zlen_image k n : 0 ≤ n → zlen (image_from k n) = n.
Proof. intros Hn. unfold image_from, zlen. rewrite length_fmap, length_seqZ. lia. Qed.

Lemma image_from_app k n n' : 0 ≤ n → 0 ≤ n' → image_from k (n + n') = image_from k n ++ image_from (k + n) n'.
Proof. intros Hn Hn'. unfold image_from. by rewrite seqZ_app, fmap_app by lia. Qed.

(** ** readsect *)

Lemma waitdisk_spec d : (polls (ide_state d) ≤ latency)%nat →
  ∃ d', waitdisk spin d = Ok d' ∧
    ide_state d' = let s := ide_state d in Ide 0 (r_count s) (r_lba0 s) (r_lba1 s) (r_lba2 s) (r_head s) (words_left s).
Proof.
  intros Hd. unfold waitdisk. set (s := ide_state d).
  apply (loop_spec (λ d', ide_state d' = Ide (polls (ide_state d')) (r_count s) (r_lba0 s) (r_lba1 s) (r_lba2 s) (r_head s) (words_left s))
    (λ d', ide_state d' = Ide 0 (r_count s) (r_lba0 s) (r_lba1 s) (r_lba2 s) (r_head s) (words_left s))
    (λ d, polls (ide_state d))); [|unfold s; by destruct (ide_state d)|lia].
  intros d' E. eexists. split; [done|]. destruct (polls (ide_state d')) as [|n] eqn:Ep.
  - destruct (ide_ready d' Ep) as [-> Es]. cbn. by rewrite Es.
  - destruct (ide_busy d' n Ep) as [Hne Es]. rewrite (proj2 (Z.eqb_neq _ _) Hne). rewrite Es. cbn. rewrite E. cbn. split; [done|]. lia.
Qed.

Lemma store32_put m addr w : mapped m addr 4 → store32 m addr w = Ok (put m addr (word_bytes w)).
Proof.
  intros Hm. unfold store32, word_bytes. cbn [zip zip_with mfold put].
  assert (Hi : ∀ i, 0 ≤ i < 4 → is_Some (m !! (addr + i))).
  { intros i Hi. rewrite <-(Z2Nat.id i) by lia. apply Hm. lia. }
  replace (addr + 1 + 1) with (addr + 2) by lia. replace (addr + 2 + 1) with (addr + 3) by lia.
  rewrite stb_Ok by (apply Hi; lia). cbn [mbind outcome_bind]. rewrite Z.add_0_r.
  do 3 (rewrite stb_Ok by (repeat (apply lookup_insert_is_Some'; right); apply Hi; lia); cbn [mbind outcome_bind]).
  done.
Qed.

Lemma insl_spec ws rest : ∀ m dst d, polls (ide_state d) = 0%nat → words_left (ide_state d) = ws ++ rest →
  mapped m dst (4 * length ws) →
  ∃ d', insl 0x1F0 dst (zlen ws) (m, d) = Ok (put m dst (ws ≫= word_bytes), d') ∧ polls (ide_state d') = 0%nat.
Proof.
  intros m dst d Hp Hw Hm. unfold insl.
  destruct (for_range_spec (λ i '(m', d'), m' = put m dst (take (Z.to_nat i) ws ≫= word_bytes) ∧
      polls (ide_state d') = 0%nat ∧ words_left (ide_state d') = drop (Z.to_nat i) ws ++ rest)
    (λ i s, let r := port_inl 0x1F0 s.2 in m ← store32 s.1 (dst + 4 * i) r.1; Ok (m, r.2)) 0 (zlen ws) (m, d))
    as ([m' d'] & E & Em & Hp' & _); [apply zlen_nonneg|done| |].
  - intros i [m1 d1] Hi (-> & Hp1 & Hw1). unfold zlen in Hi. cbn [fst snd].
    destruct (lookup_lt_is_Some_2 ws (Z.to_nat i)) as [w Hi']; [lia|].
    rewrite (drop_S _ _ _ Hi') in Hw1. destruct (ide_data d1 w (drop (S (Z.to_nat i)) ws ++ rest) Hp1) as [-> Es]; [by rewrite Hw1|].
    assert (Hl : zlen (take (Z.to_nat i) ws ≫= word_bytes) = 4 * i).
    { unfold zlen. rewrite words_bytes_length, length_take. lia. }
    rewrite store32_put.
    + cbn [mbind outcome_bind]. eexists. split; [done|]. replace (Z.to_nat (i + 1)) with (S (Z.to_nat i)) by lia. rewrite Es. cbn.
      split; [|done]. rewrite (take_S_r _ _ _ Hi'), bind_app. cbn [mbind list_bind]. rewrite app_nil_r, put_app. by rewrite Hl.
    + apply put_mapped. intros j Hj. replace (dst + 4 * i + Z.of_nat j) with (dst + Z.of_nat (4 * Z.to_nat i + j)) by lia. apply Hm. lia.
  - exists d'. split; [|done]. etrans; [exact E|]. rewrite Em. unfold zlen. by rewrite Nat2Z.id, take_ge by lia.
Qed.

Lemma lba_sector s : 0 ≤ s < 2 ^ 28 →
  Z.land s 0xFF + 2 ^ 8 * Z.land (Z.shiftr s 8) 0xFF + 2 ^ 16 * Z.land (Z.shiftr s 16) 0xFF +
    2 ^ 24 * Z.land (Z.lor (Z.land (Z.shiftr s 24) 0xF) 0xE0) 0xF = s ∧
  Z.land (Z.lor (Z.land (Z.shiftr s 24) 0xF) 0xE0) 0xF0 = 0xE0.
Proof.
  intros Hs. change 0xFF with (Z.ones 8). change (Z.land (Z.shiftr s 24) 0xF) with (Z.land (Z.shiftr s 24) (Z.ones 4)).
  rewrite !Z.land_ones, !Z.shiftr_div_pow2 by lia. set (h := (s / 2 ^ 24) mod 2 ^ 4).
  assert (Hh : h ∈ seqZ 0 16) by (apply elem_of_seqZ; unfold h; Z.to_euclidean_division_equations; lia).
  assert (HF : Forall (λ h, Z.land (Z.lor h 0xE0) 0xF = h ∧ Z.land (Z.lor h 0xE0) 0xF0 = 0xE0) (seqZ 0 16)) by (repeat constructor).
  rewrite Forall_forall in HF. destruct (HF h Hh) as [-> ->]. split; [|done]. unfold h. Z.to_euclidean_division_equations. lia.
Qed.

Lemma readsect_spec m dst secno d : (polls (ide_state d) ≤ latency)%nat → 0 ≤ secno < 2 ^ 28 → mapped m dst 512 →
  ∃ d', readsect spin dst secno (m, d) = Ok (put m dst (image_from (SECTSIZE * (secno - 1)) SECTSIZE), d') ∧
    polls (ide_state d') = 0%nat.
Proof.
  intros Hp Hs Hm. unfold readsect. cbn [fst snd]. destruct (waitdisk_spec d Hp) as (d0 & -> & E0). cbn [mbind outcome_bind].
  cbn zeta in E0. assert (P0 : polls (ide_state d0) = 0%nat) by by rewrite E0.
  pose proof (ide_register d0 0x1F2 1 P0 ltac:(lia)) as E1. set (d1 := port_out 0x1F2 1 d0) in *. cbn in E1.
  assert (P1 : polls (ide_state d1) = 0%nat) by by rewrite E1.
  pose proof (ide_register d1 0x1F3 (Z.land secno 0xFF) P1 ltac:(lia)) as E2. set (d2 := port_out 0x1F3 _ d1) in *. cbn in E2.
  assert (P2 : polls (ide_state d2) = 0%nat) by by rewrite E2.
  pose proof (ide_register d2 0x1F4 (Z.land (Z.shiftr secno 8) 0xFF) P2 ltac:(lia)) as E3. set (d3 := port_out 0x1F4 _ d2) in *. cbn in E3.
  assert (P3 : polls (ide_state d3) = 0%nat) by by rewrite E3.
  pose proof (ide_register d3 0x1F5 (Z.land (Z.shiftr secno 16) 0xFF) P3 ltac:(lia)) as E4. set (d4 := port_out 0x1F5 _ d3) in *. cbn in E4.
  assert (P4 : polls (ide_state d4) = 0%nat) by by rewrite E4.
  pose proof (ide_register d4 0x1F6 (Z.lor (Z.land (Z.shiftr secno 24) 0xF) 0xE0) P4 ltac:(lia)) as E5. set (d5 := port_out 0x1F6 _ d4) in *. cbn in E5.
  assert (P5 : polls (ide_state d5) = 0%nat) by by rewrite E5.
  rewrite E4, E3, E2, E1 in E5. cbn in E5. destruct (lba_sector secno Hs) as [L1 L2].
  destruct (ide_command d5 P5) as (n & Hn & E6); [by rewrite E5|by rewrite E5|]. rewrite E5 in E6. unfold lba in E6. cbn [r_lba0 r_lba1 r_lba2 r_head] in E6.
  rewrite L1 in E6. destruct (waitdisk_spec (port_out 0x1F7 0x20 d5)) as (d7 & -> & E7); [by rewrite E6|].
  rewrite E6 in E7. cbn in E7. cbn [mbind outcome_bind].
  destruct (insl_spec (disk secno) [] m dst d7) as (d8 & E8 & P8); [by rewrite E7|by rewrite E7, app_nil_r|by rewrite disk_words|].
  exists d8. split; [|done]. change (Z.quot SECTSIZE 4) with 128. replace 128 with (zlen (disk secno)) by (unfold zlen; by rewrite disk_words).
  rewrite E8. by rewrite image_from_sector.
Qed.

(** ** readseg *)

(** The number of sectors that are read. *)
Definition sectors (count offset : Z) : Z := (count + offset mod SECTSIZE + 511) / SECTSIZE.

(** Where [readseg] writes, and what. *)
Definition seg_start (va offset : Z) : Z := va - offset mod SECTSIZE.
Definition seg_bytes (count offset : Z) : list Z := image_from (offset - offset mod SECTSIZE) (SECTSIZE * sectors count offset).

Record segment_ok (m : mem) (va count offset : Z) : Prop := {
  g_count : 0 ≤ count ∧ 0 ≤ offset;
  g_start : 0 ≤ seg_start va offset;
  g_end : va + count + SECTSIZE < 2 ^ 32;
  g_sectors : offset / SECTSIZE + 1 + sectors count offset < 2 ^ 28;
  g_mapped : mapped m (seg_start va offset) (Z.to_nat (SECTSIZE * sectors count offset))
}.

Lemma mapped_mono m p n n' : mapped m p n → (n' ≤ n)%nat → mapped m p n'.
Proof. intros Hm Hn i Hi. apply Hm. lia. Qed.

Lemma mapped_shift m p n k : 0 ≤ k → mapped m p (Z.to_nat k + n) → mapped m (p + k) n.
Proof. intros Hk Hm i Hi. replace (p + k + Z.of_nat i) with (p + Z.of_nat (Z.to_nat k + i)) by lia. apply Hm. lia. Qed.

Lemma readseg_spec va count offset m d : (polls (ide_state d) ≤ latency)%nat → segment_ok m va count offset →
  ∃ d', readseg spin va count offset (m, d) = Ok (put m (seg_start va offset) (seg_bytes count offset), d') ∧
    (polls (ide_state d') ≤ latency)%nat.
Proof.
  intros Hp [[Hc Ho] Hs He Hsec Hm]. unfold readseg, seg_bytes. unfold seg_start in *. set (r := offset mod SECTSIZE) in *.
  set (n := sectors count offset) in *.
  assert (Hr : 0 ≤ r < 512) by (unfold r, SECTSIZE; Z.to_euclidean_division_equations; lia).
  assert (Hn : 0 ≤ n ∧ 512 * n < count + r + 512 ∧ count + r ≤ 512 * n).
  { unfold n, sectors, SECTSIZE in *. fold r. Z.to_euclidean_division_equations. lia. }
  assert (Ho' : 0 ≤ offset / SECTSIZE) by (unfold SECTSIZE; Z.to_euclidean_division_equations; lia).
  assert (Eo : offset - r = SECTSIZE * (offset / SECTSIZE)) by (unfold r, SECTSIZE; Z.to_euclidean_division_equations; lia).
  unfold SECTSIZE in He. rewrite !(u32_small (va + count)), (u32_small (va - r)), (u32_small (offset / SECTSIZE + 1)) by lia. cbn [mbind outcome_bind].
  destruct (loop_spec
    (λ '(v, sec, (m', d')), ∃ i, 0 ≤ i ≤ n ∧ v = va - r + 512 * i ∧ sec = offset / SECTSIZE + 1 + i ∧
       m' = put m (va - r) (image_from (offset - r) (SECTSIZE * i)) ∧ (polls (ide_state d') ≤ latency)%nat)
    (λ '(m', d'), m' = put m (va - r) (image_from (offset - r) (SECTSIZE * n)) ∧ (polls (ide_state d') ≤ latency)%nat)
    (λ '(v, _, _), Z.to_nat ((va - r + 512 * n - v) / 512))
    (λ '(v, sec, s), if v <? va + count then s ← readsect spin v sec s; Ok (inl (u32 (v + SECTSIZE), u32 (sec + 1), s)) else Ok (inr s)))
    with (fuel := S (Z.to_nat ((va + count - (va - r)) / SECTSIZE + 1))) (s := (va - r, offset / SECTSIZE + 1, (m, d)))
    as ([m' d'] & -> & -> & Hp').
  - intros [[v sec] [m' d']] (i & Hi & -> & -> & -> & Hp'). destruct (Z.ltb_spec (va - r + 512 * i) (va + count)) as [Hlt|Hge].
    + assert (i < n) by lia. unfold SECTSIZE in Hm.
      destruct (readsect_spec (put m (va - r) (image_from (offset - r) (SECTSIZE * i))) (va - r + 512 * i) (offset / SECTSIZE + 1 + i) d')
        as (d2 & -> & Hd2); [done|lia| |].
      { apply put_mapped. apply mapped_shift; [lia|]. eapply mapped_mono; [exact Hm|]. lia. }
      cbn [mbind outcome_bind]. eexists. split; [done|]. rewrite (u32_small (va - r + 512 * i + SECTSIZE)), (u32_small (offset / SECTSIZE + 1 + i + 1)) by (unfold SECTSIZE in *; lia). split.
      * exists (i + 1). split; [lia|]. split; [unfold SECTSIZE; lia|]. split; [lia|]. split; [|lia].
        replace (SECTSIZE * (i + 1)) with (SECTSIZE * i + SECTSIZE) by lia. rewrite image_from_app by (unfold SECTSIZE; lia).
        rewrite put_app, zlen_image by (unfold SECTSIZE; lia). f_equal. f_equal. lia.
      * unfold SECTSIZE. replace (va - r + 512 * n - (va - r + 512 * i)) with ((n - i) * 512) by lia.
        replace (va - r + 512 * n - (va - r + 512 * i + 512)) with ((n - i - 1) * 512) by lia. rewrite !Z.div_mul by lia. lia.
    + assert (i = n) as -> by lia. exists (inr (put m (va - r) (image_from (offset - r) (SECTSIZE * n)), d')). done.
  - exists 0. split; [lia|]. split; [lia|]. split; [lia|]. split; [|done]. rewrite Z.mul_0_r. done.
  - replace (va - r + 512 * n - (va - r)) with (n * 512) by lia. rewrite Z.div_mul by lia.
    unfold SECTSIZE. Z.to_euclidean_division_equations. lia.
  - exists d'. split; [done|done].
Qed.

(** ** The headers *)

Lemma image_byte k : 0 ≤ image k < 256.
Proof.
  unfold image. destruct (sector_bytes _ !! _) as [b|] eqn:E; [|cbn; lia]. cbn.
  apply list_elem_of_lookup_2 in E. unfold sector_bytes in E. apply list_elem_of_bind in E as (w & Hb & _).
  unfold word_bytes in Hb. rewrite !elem_of_cons, elem_of_nil in Hb.
  destruct Hb as [->|[->|[->|[->|[]]]]]; apply Z.mod_pos_bound; lia.
Qed.

(** Words of the image. *)
Definition image32 (k : Z) : Z := image k + 2 ^ 8 * image (k + 1) + 2 ^ 16 * image (k + 2) + 2 ^ 24 * image (k + 3).
Definition image16 (k : Z) : Z := image k + 2 ^ 8 * image (k + 1).

(** The first eight sectors are at [ELFHDR]. *)
Definition header_loaded (m : mem) : Prop := ∀ j, 0 ≤ j < 4096 → m !! (ELFHDR + j) = Some (image j).

Lemma load32_header m k : header_loaded m → 0 ≤ k → k + 3 < 4096 → load32 m (ELFHDR + k) = Ok (image32 k).
Proof.
  intros Hm Hk1 Hk2. unfold load32. rewrite <-!Z.add_assoc. unfold ldb. rewrite !Hm by lia. done.
Qed.

Lemma load16_header m k : header_loaded m → 0 ≤ k → k + 1 < 4096 → load16 m (ELFHDR + k) = Ok (image16 k).
Proof. intros Hm Hk1 Hk2. unfold load16. rewrite <-!Z.add_assoc. unfold ldb. rewrite !Hm by lia. done. Qed.

Lemma put_image m p k n a : 0 ≤ n → put m p (image_from k n) !! a = if decide (p ≤ a < p + n) then Some (image (k + (a - p))) else m !! a.
Proof.
  intros Hn. rewrite put_lookup, zlen_image by done. case_decide; [|done]. unfold image_from.
  rewrite list_lookup_fmap, lookup_seqZ_lt by lia. cbn. f_equal. rewrite Z.mod_small by apply image_byte. f_equal. lia.
Qed.

(** The program headers in the image. *)
Definition phoff : Z := image32 28.
Definition phnum : Z := image16 44.
Definition seg_va (i : Z) : Z := Z.land (image32 (phoff + 32 * i + 8)) 0xFFFFFF.
Definition seg_count (i : Z) : Z := image32 (phoff + 32 * i + 20).
Definition seg_offset (i : Z) : Z := image32 (phoff + 32 * i + 4).

(** Segment [i] is in the memory. *)
Definition loaded (m : mem) (i : Z) : Prop := ∀ k, 0 ≤ k < seg_count i → m !! (seg_va i + k) = Some (image (seg_offset i + k)).

(** A kernel that the loader can load: the headers are in the first eight sectors;
    the segments can be read, do not overwrite them, and begin (with what is read in
    front of them) behind the end of those before. *)
Record kernel_ok (m : mem) : Prop := {
  k_headers : phoff + 32 * phnum ≤ 4096;
  k_elfhdr : mapped m ELFHDR (Z.to_nat 4096);
  k_segment i : 0 ≤ i < phnum → segment_ok m (seg_va i) (seg_count i) (seg_offset i);
  k_clear i : 0 ≤ i < phnum →
    seg_start (seg_va i) (seg_offset i) + SECTSIZE * sectors (seg_count i) (seg_offset i) ≤ ELFHDR ∨
    ELFHDR + 4096 ≤ seg_start (seg_va i) (seg_offset i);
  k_order i j : 0 ≤ i < j → j < phnum → seg_va i + seg_count i ≤ seg_start (seg_va j) (seg_offset j)
}.

Lemma sectors_pos count offset : 0 ≤ count → 0 ≤ offset → 0 ≤ sectors count offset ∧ count + offset mod SECTSIZE ≤ SECTSIZE * sectors count offset.
Proof. intros. unfold sectors, SECTSIZE. Z.to_euclidean_division_equations. lia. Qed.

(** The state after the first [i] segments. *)
Definition segments_loaded (m0 : mem) (i : Z) (m : mem) : Prop :=
  header_loaded m ∧ (∀ p n, mapped m0 p n → mapped m p n) ∧ ∀ j, 0 ≤ j < i → loaded m j.

Lemma segments_loaded_step m0 i m : kernel_ok m0 → 0 ≤ i < phnum → segments_loaded m0 i m →
  segments_loaded m0 (i + 1) (put m (seg_start (seg_va i) (seg_offset i)) (seg_bytes (seg_count i) (seg_offset i))).
Proof.
  intros HK Hi (Hh & Hmap & Hl). destruct (k_segment _ HK i Hi) as [[Hc Ho] Hs _ _ _].
  destruct (sectors_pos _ _ Hc Ho) as [Hn1 Hn2]. pose proof (k_clear _ HK i Hi) as Hclear.
  unfold seg_bytes. split; [|split].
  - intros j Hj. rewrite put_image, decide_False by (unfold SECTSIZE in *; lia). by apply Hh.
  - intros p n Hp. apply put_mapped. by apply Hmap.
  - intros j Hj k Hk. rewrite put_image by (unfold SECTSIZE in *; lia). destruct (decide (j = i)) as [->|Hne].
    + unfold seg_start in *. pose proof (Z.mod_pos_bound (seg_offset i) SECTSIZE ltac:(done)). rewrite decide_True by lia. do 2 f_equal. lia.
    + pose proof (k_order _ HK j i ltac:(lia) ltac:(lia)). rewrite decide_False by lia. apply Hl; lia.
Qed.

Lemma header_nonneg : 0 ≤ phoff ∧ 0 ≤ phnum.
Proof.
  unfold phoff, phnum, image32, image16. pose proof image_byte as Hb.
  pose proof (Hb 28). pose proof (Hb (28 + 1)). pose proof (Hb (28 + 2)). pose proof (Hb (28 + 3)).
  pose proof (Hb 44). pose proof (Hb (44 + 1)). lia.
Qed.

Lemma load_segments_spec m0 m d : kernel_ok m0 → segments_loaded m0 0 m → (polls (ide_state d) ≤ latency)%nat →
  ∃ m' d', load_segments spin (ELFHDR + phoff) (ELFHDR + phoff + phnum * sizeof_proghdr) (m, d) = Ok (m', d') ∧ segments_loaded m0 phnum m'.
Proof.
  intros HK H0' Hp. pose proof (k_headers _ HK) as Hh.
  pose proof header_nonneg as Hph.
  unfold load_segments, sizeof_proghdr.
  destruct (loop_spec
    (λ '(ph, (m', d')), ∃ i, 0 ≤ i ≤ phnum ∧ ph = ELFHDR + phoff + 32 * i ∧ segments_loaded m0 i m' ∧ (polls (ide_state d') ≤ latency)%nat)
    (λ '(m', d'), segments_loaded m0 phnum m') (λ '(ph, _), Z.to_nat ((ELFHDR + phoff + phnum * 32 - ph) / 32))
    (λ '(ph, s), if ph <? ELFHDR + phoff + phnum * 32 then
      va ← p_va s.1 ph; memsz ← p_memsz s.1 ph; off ← p_offset s.1 ph;
      s ← readseg spin (Z.land va 0xFFFFFF) memsz off s; Ok (inl (u32 (ph + 32), s)) else Ok (inr s)))
    with (fuel := S (Z.to_nat ((ELFHDR + phoff + phnum * 32 - (ELFHDR + phoff)) / 32 + 1))) (s := (ELFHDR + phoff, (m, d)))
    as ([m' d'] & -> & Hl).
  - intros [ph [m' d']] (i & Hi & -> & Hl & Hp'). destruct (Z.ltb_spec (ELFHDR + phoff + 32 * i) (ELFHDR + phoff + phnum * 32)) as [Hlt|Hge].
    + assert (i < phnum) by lia. pose proof Hl as (Hhd & Hmap & _). unfold p_va, p_memsz, p_offset. cbn [fst snd].
      replace (ELFHDR + phoff + 32 * i + 8) with (ELFHDR + (phoff + 32 * i + 8)) by lia.
      replace (ELFHDR + phoff + 32 * i + 20) with (ELFHDR + (phoff + 32 * i + 20)) by lia.
      replace (ELFHDR + phoff + 32 * i + 4) with (ELFHDR + (phoff + 32 * i + 4)) by lia.
      rewrite !load32_header by (done || lia). cbn [mbind outcome_bind].
      change (Z.land (image32 (phoff + 32 * i + 8)) 0xFFFFFF) with (seg_va i).
      change (image32 (phoff + 32 * i + 20)) with (seg_count i). change (image32 (phoff + 32 * i + 4)) with (seg_offset i).
      destruct (k_segment _ HK i ltac:(lia)) as [G1 G2 G3 G4 G5].
      destruct (readseg_spec (seg_va i) (seg_count i) (seg_offset i) m' d' Hp') as (d2 & -> & Hd2); [by split; [..|apply Hmap]|].
      cbn [mbind outcome_bind]. eexists. split; [done|]. rewrite u32_small by (unfold ELFHDR; lia). split.
      * exists (i + 1). split; [lia|]. split; [lia|]. split; [by apply segments_loaded_step; [|lia|]|done].
      * replace (ELFHDR + phoff + phnum * 32 - (ELFHDR + phoff + 32 * i)) with ((phnum - i) * 32) by lia.
        replace (ELFHDR + phoff + phnum * 32 - (ELFHDR + phoff + 32 * i + 32)) with ((phnum - i - 1) * 32) by lia. rewrite !Z.div_mul by lia. lia.
    + assert (i = phnum) as -> by lia. exists (inr (m', d')). done.
  - exists 0. split; [lia|]. split; [lia|]. done.
  - lia.
  - exists m', d'. split; [done|done].
Qed.

Lemma bootmain_header m d : mapped m ELFHDR (Z.to_nat 4096) → (polls (ide_state d) ≤ latency)%nat →
  ∃ d', readseg spin ELFHDR (SECTSIZE * 8) 0 (m, d) = Ok (put m ELFHDR (image_from 0 4096), d') ∧
    (polls (ide_state d') ≤ latency)%nat ∧ header_loaded (put m ELFHDR (image_from 0 4096)).
Proof.
  intros Hm Hp. destruct (readseg_spec ELFHDR (SECTSIZE * 8) 0 m d Hp) as (d' & E & Hp').
  - split; [done|done|done|done|]. exact Hm.
  - exists d'. split; [exact E|]. split; [done|]. intros j Hj. rewrite put_image by lia. rewrite decide_True by lia. do 2 f_equal. lia.
Qed.

Lemma boot_kernel_spec m0 m d : kernel_ok m0 → segments_loaded m0 0 m → (polls (ide_state d) ≤ latency)%nat →
  (image32 0 = ELF_MAGIC → ∃ m' d', boot_kernel spin (m, d) = Ok (Entered (Z.land (image32 24) 0xFFFFFF), (m', d')) ∧
     ∀ i, 0 ≤ i < phnum → loaded m' i) ∧
  (image32 0 ≠ ELF_MAGIC → ∃ s, boot_kernel spin (m, d) = Ok (Bad, s)).
Proof.
  intros HK HL Hp. pose proof (k_headers _ HK) as Hh. pose proof header_nonneg as Hph. pose proof HL as (Hl & _).
  assert (E0 : e_magic m = Ok (image32 0)) by (unfold e_magic; rewrite <-(load32_header m 0) by (done || lia); by rewrite Z.add_0_r).
  unfold boot_kernel. cbn [fst snd]. rewrite E0. cbn [mbind outcome_bind].
  split; intros Hmag; [|rewrite (proj2 (Z.eqb_neq _ _) Hmag); by eexists].
  rewrite Hmag, Z.eqb_refl. cbn [negb]. unfold e_phoff, e_phnum.
  rewrite (load32_header m 28), (load16_header m 44) by (done || lia). cbn [mbind outcome_bind].
  change (image32 28) with phoff. change (image16 44) with phnum. unfold sizeof_proghdr.
  rewrite (u32_small (ELFHDR + phoff)), (u32_small (ELFHDR + phoff + phnum * 32)) by (unfold ELFHDR; lia).
  destruct (load_segments_spec m0 m d HK HL Hp) as (m2 & d2 & E & Hl2 & _ & Hseg).
  unfold sizeof_proghdr in E. rewrite E. cbn [mbind outcome_bind fst snd]. unfold e_entry.
  rewrite (load32_header m2 24) by (done || lia). cbn [mbind outcome_bind]. exists m2, d2. done.
Qed.

(** [C34] When the first sector of the disk behind the loader starts with the magic
    number of ELF and the segments of the kernel are in increasing order, [bootmain]
    reads all of them: every byte of every segment is in the memory at its address
    when the kernel is entered at its entry point, although whole sectors are read
    and written.  Otherwise the kernel is not entered. *)
Theorem bootmain_loads m d : kernel_ok m → (polls (ide_state d) ≤ latency)%nat →
  (image32 0 = ELF_MAGIC → ∃ m' d', bootmain spin (m, d) = Ok (Entered (Z.land (image32 24) 0xFFFFFF), (m', d')) ∧
     ∀ i, 0 ≤ i < phnum → loaded m' i) ∧
  (image32 0 ≠ ELF_MAGIC → ∃ s, bootmain spin (m, d) = Ok (Bad, s)).
Proof.
  intros HK Hp. unfold bootmain. destruct (bootmain_header m d (k_elfhdr _ HK) Hp) as (d1 & -> & Hp1 & Hl).
  apply (boot_kernel_spec m); [done| |done]. split; [done|]. split; [intros p n Hpn; by apply put_mapped|]. intros j Hj. lia.
Qed.
End boot.

(** ** A concrete disk *)

(** A kernel of one segment, 600 bytes at offset 4096 for the address 0x100000. *)
Definition header_w : list Z :=
  [ELF_MAGIC; 0; 0; 0; 0; 0; 0x100000; 52; 0; 0; 0; 1; 0; 0; 4096; 0x100000; 0; 0; 600] ++ replicate 109 0.
Definition disk_w (s : Z) : list Z := if s =? 1 then header_w else replicate 128 s.

(** A controller that answers busy once after a command. *)
#[local] Instance ide_ports : PortIO ide := {
  port_in p s :=
    if p =? 0x1F7 then
      match polls s with
      | O => (0x40, s)
      | S n => (0x80, Ide n (r_count s) (r_lba0 s) (r_lba1 s) (r_lba2 s) (r_head s) (words_left s))
      end
    else (0, s);
  port_out p v s :=
    if p =? 0x1F7 then Ide 1 (r_count s) (r_lba0 s) (r_lba1 s) (r_lba2 s) (r_head s) (disk_w (lba s))
    else
      Ide 0 (if p =? 0x1F2 then v else r_count s) (if p =? 0x1F3 then v else r_lba0 s) (if p =? 0x1F4 then v else r_lba1 s)
        (if p =? 0x1F5 then v else r_lba2 s) (if p =? 0x1F6 then v else r_head s) (words_left s)
}.

#[local] Instance ide_words : WordIO ide := {
  port_inl p s :=
    match words_left s with
    | w :: ws => (w, Ide 0 (r_count s) (r_lba0 s) (r_lba1 s) (r_lba2 s) (r_head s) ws)
    | [] => (0, s)
    end;
  port_outw p v s := s
}.

#[local] Program Instance ide_laws : IdeLaws ide := {
  ide_state s := s;
  disk := disk_w;
  latency := 1
}.
Next Obligation. intros s. unfold disk_w. by destruct (s =? 1). Qed.
Next Obligation. intros d n. cbn. by intros ->. Qed.
Next Obligation. intros d. cbn. by intros ->. Qed.
Next Obligation. intros d p v _ Hp. cbn. rewrite (proj2 (Z.eqb_neq p 0x1F7)) by lia. done. Qed.
Next Obligation. intros d s _ _ _. exists 1%nat. done. Qed.
Next Obligation. intros d w ws _. cbn. by intros ->. Qed.

Definition ram_w : mem := put (put ∅ ELFHDR (replicate (Z.to_nat 4096) 0)) 0x100000 (replicate (Z.to_nat 1024) 0).

Lemma put_mapped_self m p l : mapped (put m p l) p (length l).
Proof.
  intros i Hi. rewrite put_lookup, decide_True by (unfold zlen; lia). apply fmap_is_Some, lookup_lt_is_Some_2. lia.
Qed.

Lemma header_values : phoff = 52 ∧ phnum = 1 ∧ seg_va 0 = 0x100000 ∧ seg_count 0 = 600 ∧ seg_offset 0 = 4096.
Proof. by vm_compute. Qed.

Lemma kernel_ok_w : kernel_ok ram_w.
Proof.
  destruct header_values as (Eo & En & Ev & Ec & Ef). split.
  - lia.
  - unfold ram_w. apply put_mapped. rewrite <-(length_replicate (Z.to_nat 4096) 0) at 2. apply put_mapped_self.
  - intros i Hi. assert (i = 0) as -> by lia. rewrite Ev, Ec, Ef. split; [done|done|done|done|].
    change (SECTSIZE * sectors 600 4096) with 1024. change (seg_start 0x100000 4096) with 0x100000.
    unfold ram_w. rewrite <-(length_replicate (Z.to_nat 1024) 0) at 2. apply put_mapped_self.
  - intros i Hi. assert (i = 0) as -> by lia. rewrite Ev, Ec, Ef. right. by vm_compute.
  - intros i j Hi Hj. lia.
Qed.

Lemma bootmain_loads_witness : ∃ m' d', bootmain 2 (ram_w, Ide 0 0 0 0 0 0 []) = Ok (Entered 0x100000, (m', d')) ∧ loaded m' 0.
Proof.
  destruct (@bootmain_loads ide ide_ports ide_words ide_laws 2 ltac:(by apply Nat.lt_succ_diag_r) ram_w (Ide 0 0 0 0 0 0 []) kernel_ok_w ltac:(apply Nat.le_0_l)) as [P _].
  destruct P as (m' & d' & E & Hl); [by vm_compute|]. exists m', d'. split; [|apply Hl; rewrite (proj1 (proj2 header_values)); split; [exact (Z.le_refl 0)|exact Z.lt_0_1]].
  rewrite E. assert (Ee : Z.land (image32 24) 0xFFFFFF = 0x100000) by (by vm_compute). by rewrite Ee.
Defined.
