(* ===== verification/ShmQueue.v ===== *)
(** * Labweek6 shmcon.c, shmwrite.c, shmread.c: a queue in shared memory

    Models src/Labweek6/shmdata.h, shmcon.c, shmwrite.c and shmread.c: a process
    reads lines from the keyboard and puts them into a circular queue in shared
    memory, from which another process prints them, up to a line that starts
    with "end".  Neither uses a lock: both wait by testing [front] and [rear].
    Every access of a byte of a text, of [front] or [rear] by the process that
    does not own it is a step of its own.  [TEXT_SIZE] and [TEXT_NUM] are
    parameters of the definitions; with the values of shmdata.h no [int] is
    above 42.  The calls of System V that provide the memory, and the waiting
    in [sleep], are not modelled. *)

From stdpp Require Import base list numbers relations.
From S2P Require Import Prelude Interleave.

Definition TEXT_SIZE : Z := 4 * 1024.
Definition TEXT_NUM : Z := 20.

(** What the two processes print: the fixed texts and single characters. *)
Inductive event :=
| Prompt                 (* Enter some text: *)
| Count (n : Z)          (* the frame of the shared buffer, with the number of its elements *)
| Char (c : Z)
| No_more                (* You can't enter any text now *)
| Full                   (* The queue is full, ... *)
| You_wrote.

#[global] Instance event_eq_dec : EqDecision event.
Proof. solve_decision. Defined.

(** [struct shared_struct] ([mtext], [front], [rear]), and of the processes the
    rest of the input, the text in the writer's [buffer] ([None]: not yet set)
    and what each has printed. *)
Record shared_struct := Shm {
  mtext : list (list Z);
  front : Z;
  rear : Z;
  stdin : list Z;
  buffer : option (list Z);
  written : list event;
  read : list event
}.

Definition set_text (m : list (list Z)) (s : shared_struct) := Shm m (front s) (rear s) (stdin s) (buffer s) (written s) (read s).
Definition set_front (v : Z) (s : shared_struct) := Shm (mtext s) v (rear s) (stdin s) (buffer s) (written s) (read s).
Definition set_rear (v : Z) (s : shared_struct) := Shm (mtext s) (front s) v (stdin s) (buffer s) (written s) (read s).
Definition set_input (i : list Z) (b : option (list Z)) (s : shared_struct) := Shm (mtext s) (front s) (rear s) i b (written s) (read s).
Definition w_print (e : event) (s : shared_struct) := Shm (mtext s) (front s) (rear s) (stdin s) (buffer s) (written s ++ [e]) (read s).
Definition r_print (e : event) (s : shared_struct) := Shm (mtext s) (front s) (rear s) (stdin s) (buffer s) (written s) (read s ++ [e]).

(** ** The C library *)

Definition BUFSIZ : Z := 8192.
Definition newline : Z := 10.

(** The bytes of a text up to its NUL. *)
Fixpoint c_text (l : list Z) : list Z :=
  match l with [] => [] | c :: l => if c =? 0 then [] else c :: c_text l end.

(** [fgets(buffer, n + 1, stdin)]: at most [n] bytes, up to a newline. *)
Fixpoint fgets_upto (n : nat) (input : list Z) : list Z * list Z :=
  match n, input with
  | O, _ | _, [] => ([], input)
  | S n, c :: rest => if c =? newline then ([c], rest) else let (l, rest) := fgets_upto n rest in (c :: l, rest)
  end.

(** At the end of the input the buffer keeps what it holds. *)
Definition fgets (input : list Z) (b : option (list Z)) : list Z * option (list Z) :=
  match input with
  | [] => ([], b)
  | _ => let (l, rest) := fgets_upto (Z.to_nat (BUFSIZ - 1)) input in (rest, Some (c_text l))
  end.

(** Byte [k] that [strncpy] copies: it fills up with NULs. *)
Definition byte_at (l : list Z) (k : Z) : Z := default 0 (l !! Z.to_nat k).

(** Character [k] of "end". *)
Definition end_char (k : Z) : Z := byte_at [101; 110; 100] k.

(** [strncmp(text, "end", 3) == 0] *)
Definition is_end (l : list Z) : bool :=
  (byte_at l 0 =? end_char 0) && (byte_at l 1 =? end_char 1) && (byte_at l 2 =? end_char 2).

(** ** The two processes *)

Inductive pc :=
(* shmwrite.c *)
| W_full                 (* while ((rear + 1) % (TEXT_NUM + 1) == front) *)
| W_read                 (* fgets *)
| W_copy (k : Z)         (* strncpy, byte k *)
| W_count                (* the number of elements *)
| W_first                (* i = front *)
| W_loop (i : Z)         (* while (i != ...) *)
| W_char (i k : Z)       (* printf of text i, byte k *)
| W_rear                 (* the store to rear *)
| W_end                  (* strncmp(buffer, "end", 3) *)
| W_test                 (* the message that the queue is full *)
| W_done
(* shmread.c *)
| R_wait                 (* while (front == rear) *)
| R_print                (* You wrote: *)
| R_char (k : Z)         (* printf of the text, byte k *)
| R_cmp (k : Z)          (* strncmp(text, "end", 3), byte k *)
| R_front                (* the store to front *)
| R_done.

#[global] Instance pc_eq_dec : EqDecision pc.
Proof. solve_decision. Defined.

Section queue.
Variables text_size text_num : Z.

(** The index that follows [i]. *)
Definition next (i : Z) : Z := Z.rem (i + 1) (text_num + 1).

(** [mtext[i].text[k]] *)
Definition get_char (s : shared_struct) (i k : Z) : outcome Z := t ← aget (mtext s) i; aget t k.
Definition put_char (s : shared_struct) (i k c : Z) : outcome shared_struct :=
  t ← aget (mtext s) i; t ← aset t k c; m ← aset (mtext s) i t; Ok (set_text m s).

Definition writer (p : pc) (s : shared_struct) : option (outcome (pc * shared_struct)) :=
  match p with
  | W_full => Some (Ok (if next (rear s) =? front s then W_full else W_read, s))
  | W_read =>
      let (input, b) := fgets (stdin s) (buffer s) in
      Some (Ok (W_copy 0, set_input input b (w_print Prompt s)))
  | W_copy k =>
      Some (b ← of_option (buffer s);
            s ← put_char s (rear s) k (byte_at b k);
            Ok (if k + 1 <? text_size then W_copy (k + 1) else W_count, s))
  | W_count => Some (Ok (W_first, w_print (Count (Z.rem (rear s + text_num + 2 - front s) (text_num + 1))) s))
  | W_first => Some (Ok (W_loop (front s), s))
  | W_loop i => Some (Ok (if negb (i =? next (rear s)) then W_char i 0 else W_rear, s))
  | W_char i k =>
      Some (c ← get_char s i k;
            Ok (if c =? 0 then (W_loop (next i), s) else (W_char i (k + 1), w_print (Char c) s)))
  | W_rear => Some (Ok (W_end, set_rear (next (rear s)) s))
  | W_end =>
      Some (b ← of_option (buffer s);
            Ok (if is_end b then (W_done, w_print No_more s) else (W_test, s)))
  | W_test => Some (Ok (W_full, if next (rear s) =? front s then w_print Full s else s))
  | _ => None
  end.

Definition reader (p : pc) (s : shared_struct) : option (outcome (pc * shared_struct)) :=
  match p with
  | R_wait => Some (Ok (if front s =? rear s then R_wait else R_print, s))
  | R_print => Some (Ok (R_char 0, r_print You_wrote s))
  | R_char k =>
      Some (c ← get_char s (front s) k;
            Ok (if c =? 0 then (R_cmp 0, s) else (R_char (k + 1), r_print (Char c) s)))
  | R_cmp k =>
      Some (c ← get_char s (front s) k;
            Ok (if negb (c =? end_char k) then R_front else if k + 1 <? 3 then R_cmp (k + 1) else R_done, s))
  | R_front => Some (Ok (R_wait, set_front (next (front s)) s))
  | _ => None
  end.

(** The reader is process 0, the writer process 1. *)
Definition shm_step (_ : Z) (p : pc) (s : shared_struct) : option (outcome (pc * shared_struct)) :=
  match p with
  | R_wait | R_print | R_char _ | R_cmp _ | R_front | R_done => reader p s
  | _ => writer p s
  end.

(** [main] of shmcon.c: whatever the memory holds, [front] and [rear] are 0
    when the processes start. *)
Definition shmcon (m : list (list Z)) (input : list Z) : conf pc shared_struct :=
  Conf [R_wait; W_full] (Shm m 0 0 input None [] []).
End queue.
