(* ===== verification/ShmQueueProps.v ===== *)
(** * The queue in shared memory is a FIFO without locks

    Properties of ShmQueue.v.  The invariant counts the texts the writer has
    put into the queue ([w]) and those the reader has taken ([r]); the queue
    holds texts [r .. w - 1], and the writer only writes the slot of text [w],
    which the reader never reads. *)

From stdpp Require Import base list numbers relations.
From S2P Require Import Prelude Interleave ShmQueue.

(** A line as the keyboard sends it: characters and a newline. *)
Definition keyed (l : list Z) : Prop :=
  ∃ l0, l = l0 ++ [newline] ∧ Forall (λ c, c ≠ newline ∧ c ≠ 0) l0 ∧ zlen l < BUFSIZ.

Lemma keyed_ne l : keyed l → l ≠ [].
Proof. intros (l0 & -> & _). by destruct l0. Qed.

Lemma keyed_nonzero l : keyed l → Forall (λ c, c ≠ 0) l.
Proof.
  intros (l0 & -> & Hf & _). apply Forall_app. split; [|by repeat constructor].
  eapply Forall_impl; [exact Hf|]. naive_solver.
Qed.

Lemma c_text_id l : Forall (λ c, c ≠ 0) l → c_text l = l.
Proof. induction 1 as [|c l Hc _ IH]; [done|]. cbn [c_text]. rewrite (proj2 (Z.eqb_neq c 0) Hc). by rewrite IH. Qed.

Lemma fgets_upto_line l0 : Forall (λ c, c ≠ newline ∧ c ≠ 0) l0 → ∀ n rest,
  (length l0 < n)%nat → fgets_upto n (l0 ++ newline :: rest) = (l0 ++ [newline], rest).
Proof.
  induction 1 as [|c l [Hc _] _ IH]; intros [|n] rest Hn; try (cbn in Hn; lia).
  - cbn [app fgets_upto]. by rewrite Z.eqb_refl.
  - cbn [app fgets_upto]. rewrite (proj2 (Z.eqb_neq c newline) Hc).
    rewrite IH; [done|]. cbn [length] in Hn. lia.
Qed.

Lemma fgets_line l rest b : keyed l → fgets (l ++ rest) b = (rest, Some l).
Proof.
  intros Hl. pose proof (keyed_nonzero l Hl) as Hnz. destruct Hl as (l0 & -> & Hf & Hlen).
  rewrite zlen_app in Hlen. unfold zlen in Hlen. cbn [length] in Hlen.
  assert (fgets_upto (Z.to_nat (BUFSIZ - 1)) ((l0 ++ [newline]) ++ rest) = (l0 ++ [newline], rest)) as E.
  { rewrite <-(assoc_L (++)). apply fgets_upto_line; [done|]. lia. }
  unfold fgets. rewrite E, (c_text_id _ Hnz). by destruct l0.
Qed.

Lemma byte_at_line l k : Forall (λ c, c ≠ 0) l → 0 ≤ k → byte_at l k = 0 ↔ zlen l ≤ k.
Proof.
  intros Hl Hk. unfold byte_at, zlen. destruct (l !! Z.to_nat k) as [c|] eqn:E; cbn.
  - pose proof (lookup_lt_Some _ _ _ E). rewrite Forall_lookup in Hl. specialize (Hl _ _ E). split; [done|lia].
  - apply lookup_ge_None in E. split; [lia|done].
Qed.

Lemma zlen_pos {A} (l : list A) : l ≠ [] → 0 < zlen l.
Proof. unfold zlen. destruct l; [done|cbn; lia]. Qed.

Lemma seqZ_one m : seqZ m 1 = [m].
Proof. rewrite seqZ_cons by lia. done. Qed.

Lemma Z2Nat_lt_succ z : z < Z.of_nat (Z.to_nat (z + 1)).
Proof. lia. Qed.

(** ** The invariant *)

Section invariant.
Context (sz num : Z) (lines : list (list Z)).
Let Q := num + 1.
Hypothesis Hnum : 1 ≤ num.
Hypothesis Hsz : 0 < sz.
Hypothesis Hne : lines ≠ [].
Hypothesis Hkeyed : Forall keyed lines.
Hypothesis Hshort : Forall (λ l, zlen l < sz) lines.

(** The text of the [j]-th call of [fgets]: when the input has ended, the last
    line again. *)
Definition line (j : Z) : list Z := default [] (lines !! Z.to_nat (Z.min j (zlen lines - 1))).

(** The end of the input has been reached after all its lines. *)
Definition fed (w : Z) (s : shared_struct) : Prop :=
  stdin s = concat (drop (Z.to_nat w) lines) ∧ buffer s = if decide (w = 0) then None else Some (line (w - 1)).

Definition chars (l : list Z) : list event := Char <$> l.

(** Texts [a .. b - 1]. *)
Definition texts (a b : Z) : list event := concat ((λ j, chars (line j)) <$> seqZ a (b - a)).

(** What the reader has printed of the first [r] texts. *)
Definition report (j : Z) : list event := You_wrote :: chars (line j).
Definition reports (r : Z) : list event := concat (report <$> seqZ 0 r).

(** What the writer may have printed after putting [w] texts: for each the
    texts from some [a] up to it, no more than the number that it names and
    no more than the queue can hold. *)
Inductive shown : Z → list event → Prop :=
| shown_0 : shown 0 []
| shown_text w out n a tail :
    shown w out → 0 ≤ a ≤ w → w - a < n ≤ num →
    tail ∈ [[]; [Full]; [No_more]] → (tail = [No_more] ↔ is_end (line w) = true) →
    shown (w + 1) (out ++ [Prompt; Count n] ++ texts a (w + 1) ++ tail).

Definition holds (s : shared_struct) (i : Z) (l : list Z) : Prop :=
  ∃ t, aget (mtext s) i = Ok t ∧ ∀ k, 0 ≤ k < sz → aget t k = Ok (byte_at l k).

(** The first [k] bytes of text [w] are in its slot. *)
Definition copied (s : shared_struct) (w k : Z) : Prop :=
  ∃ t, aget (mtext s) (w mod Q) = Ok t ∧ ∀ i, 0 ≤ i < k → aget t i = Ok (byte_at (line w) i).

(** The writer has printed the head of the listing of text [w]. *)
Definition listing (w a n : Z) (out l : list event) : Prop :=
  shown w out ∧ 0 ≤ a ≤ w ∧ w - a < n ≤ num ∧ l = out ++ [Prompt; Count n].

Definition writer_ok (w r : Z) (s : shared_struct) (p : pc) : Prop :=
  match p with
  | W_full => fed w s ∧ shown w (written s) ∧ (0 < w → is_end (line (w - 1)) = false)
  | W_read => fed w s ∧ shown w (written s) ∧ (0 < w → is_end (line (w - 1)) = false) ∧ w - r < num
  | W_copy k =>
      fed (w + 1) s ∧ (0 < w → is_end (line (w - 1)) = false) ∧ w - r < num ∧
      0 ≤ k < sz ∧ copied s w k ∧ ∃ out, shown w out ∧ written s = out ++ [Prompt]
  | W_count =>
      fed (w + 1) s ∧ (0 < w → is_end (line (w - 1)) = false) ∧ w - r < num ∧
      holds s (w mod Q) (line w) ∧ ∃ out, shown w out ∧ written s = out ++ [Prompt]
  | W_first =>
      fed (w + 1) s ∧ (0 < w → is_end (line (w - 1)) = false) ∧ w - r < num ∧
      holds s (w mod Q) (line w) ∧ ∃ out n, listing w r n out (written s)
  | W_loop i =>
      fed (w + 1) s ∧ (0 < w → is_end (line (w - 1)) = false) ∧ w - r < num ∧
      holds s (w mod Q) (line w) ∧
      ∃ out a n l j, listing w a n out l ∧ i = j mod Q ∧ a ≤ j ≤ w + 1 ∧ written s = l ++ texts a j
  | W_char i k =>
      fed (w + 1) s ∧ (0 < w → is_end (line (w - 1)) = false) ∧ w - r < num ∧
      holds s (w mod Q) (line w) ∧
      ∃ out a n l j, listing w a n out l ∧ i = j mod Q ∧ a ≤ j ≤ w ∧ 0 ≤ k ≤ zlen (line j) ∧
        written s = l ++ texts a j ++ chars (take (Z.to_nat k) (line j))
  | W_rear =>
      fed (w + 1) s ∧ (0 < w → is_end (line (w - 1)) = false) ∧ w - r < num ∧
      holds s (w mod Q) (line w) ∧
      ∃ out a n l, listing w a n out l ∧ written s = l ++ texts a (w + 1)
  | W_end =>
      fed w s ∧ 0 < w ∧ ∃ out a n l, listing (w - 1) a n out l ∧ written s = l ++ texts a w
  | W_test =>
      fed w s ∧ 0 < w ∧ is_end (line (w - 1)) = false ∧
      ∃ out a n l, listing (w - 1) a n out l ∧ written s = l ++ texts a w
  | W_done => shown w (written s) ∧ 0 < w ∧ is_end (line (w - 1)) = true
  | _ => False
  end.

Definition reader_ok (w r : Z) (s : shared_struct) (p : pc) : Prop :=
  match p with
  | R_wait => read s = reports r
  | R_print => r < w ∧ read s = reports r
  | R_char k => r < w ∧ 0 ≤ k ≤ zlen (line r) ∧ read s = reports r ++ You_wrote :: chars (take (Z.to_nat k) (line r))
  | R_cmp k =>
      r < w ∧ 0 ≤ k < 3 ∧ read s = reports (r + 1) ∧ ∀ i, 0 ≤ i < k → byte_at (line r) i = end_char i
  | R_front => r < w ∧ read s = reports (r + 1) ∧ is_end (line r) = false
  | R_done => r < w ∧ read s = reports (r + 1) ∧ is_end (line r) = true
  | _ => False
  end.

Record queue_inv (w r : Z) (rp wp : pc) (s : shared_struct) : Prop := {
  q_bound : 0 ≤ r ≤ w ∧ w - r ≤ num;
  q_rear : rear s = w mod Q;
  q_front : front s = r mod Q;
  q_len : zlen (mtext s) = Q;
  q_size : Forall (λ t, zlen t = sz) (mtext s);
  q_slots : ∀ j, 0 ≤ j → w - Q < j < w → holds s (j mod Q) (line j);
  q_ends : ∀ j, 0 ≤ j < w - 1 → is_end (line j) = false;
  q_taken : ∀ j, 0 ≤ j < r → is_end (line j) = false;
  q_writer : writer_ok w r s wp;
  q_reader : reader_ok w r s rp
}.

(** ** Lines *)

Lemma line_in j : 0 ≤ j → line j ∈ lines.
Proof.
  intros Hj. unfold line. pose proof (zlen_pos lines Hne) as Hl.
  destruct (aget_in_range lines (Z.min j (zlen lines - 1))) as (l & _ & E); [lia|]. rewrite E.
  by eapply list_elem_of_lookup_2.
Qed.

Lemma line_keyed j : 0 ≤ j → keyed (line j).
Proof. intros Hj. by apply (proj1 (Forall_forall _ _) Hkeyed), line_in. Qed.

Lemma line_short j : 0 ≤ j → zlen (line j) < sz.
Proof. intros Hj. by apply (proj1 (Forall_forall _ _) Hshort), line_in. Qed.

Lemma line_byte j k : 0 ≤ j → 0 ≤ k → byte_at (line j) k = 0 ↔ zlen (line j) ≤ k.
Proof. intros Hj Hk. apply byte_at_line; [by apply keyed_nonzero, line_keyed|done]. Qed.

Lemma fed_read w s : 0 ≤ w → fed w s → ∃ input, fgets (stdin s) (buffer s) = (input, Some (line w)) ∧
  input = concat (drop (Z.to_nat (w + 1)) lines).
Proof.
  intros Hw [-> ->]. destruct (drop (Z.to_nat w) lines) as [|l rest] eqn:E.
  - cbn [concat fgets]. assert (length lines ≤ Z.to_nat w)%nat as Hl.
    { assert (length (drop (Z.to_nat w) lines) = 0%nat) as El by by rewrite E. rewrite length_drop in El. lia. }
    pose proof (zlen_pos lines Hne). unfold zlen in *.
    rewrite decide_False by lia. rewrite (drop_ge lines) by lia. eexists. split; [|done].
    unfold line, zlen. by rewrite !Z.min_r by lia.
  - assert (lines !! Z.to_nat w = Some l) as El.
    { replace (Z.to_nat w) with (Z.to_nat w + 0)%nat by lia. by rewrite <-lookup_drop, E. }
    pose proof (lookup_lt_Some _ _ _ El). assert (line w = l) as Hl.
    { unfold line, zlen. rewrite Z.min_l by lia. by rewrite El. }
    cbn [concat]. rewrite fgets_line by (rewrite <-Hl; by apply line_keyed). rewrite Hl. eexists. split; [done|].
    replace (Z.to_nat (w + 1)) with (Z.to_nat w + 1)%nat by lia. by rewrite <-drop_drop, E.
Qed.

Lemma take_line j k : 0 ≤ j → 0 ≤ k → byte_at (line j) k ≠ 0 →
  chars (take (Z.to_nat (k + 1)) (line j)) = chars (take (Z.to_nat k) (line j)) ++ [Char (byte_at (line j) k)].
Proof.
  intros Hj Hk Hb. unfold byte_at in *. destruct (line j !! Z.to_nat k) as [c|] eqn:E; [|done]. cbn.
  replace (Z.to_nat (k + 1)) with (S (Z.to_nat k)) by lia. rewrite (take_S_r _ _ _ E). unfold chars. by rewrite fmap_app.
Qed.

Lemma take_whole j k : 0 ≤ j → 0 ≤ k → byte_at (line j) k = 0 → take (Z.to_nat k) (line j) = line j.
Proof. intros Hj Hk Hb%line_byte; [|done..]. apply take_ge. unfold zlen in Hb. lia. Qed.

Lemma texts_nil a : texts a a = [].
Proof. unfold texts. by rewrite Z.sub_diag. Qed.

Lemma texts_snoc a b : a ≤ b → texts a (b + 1) = texts a b ++ chars (line b).
Proof.
  clear - lines. intros H. unfold texts. replace (b + 1 - a) with ((b - a) + 1) by lia. rewrite seqZ_app by lia.
  rewrite seqZ_one, fmap_app, concat_app. f_equal. cbn. rewrite app_nil_r. do 2 f_equal. lia.
Qed.

Lemma reports_snoc r : 0 ≤ r → reports (r + 1) = reports r ++ report r.
Proof.
  clear - lines. intros H. unfold reports. rewrite seqZ_app by lia. rewrite seqZ_one, fmap_app, concat_app. f_equal. cbn. by rewrite app_nil_r.
Qed.

(** ** Steps *)

Lemma next_mod x : 0 ≤ x → next num (x mod Q) = (x + 1) mod Q.
Proof. intros Hx. unfold next. apply rem_mod_succ; lia. Qed.

Lemma mod_near x y : x ≤ y → y - x < Q → x mod Q = y mod Q → x = y.
Proof. apply mod_near_inj. lia. Qed.

Lemma reader_ok_frame w w' r s s' p : w ≤ w' → read s' = read s → reader_ok w r s p → reader_ok w' r s' p.
Proof. intros Hw E. unfold reader_ok. rewrite E. destruct p; try done; intuition lia. Qed.

Lemma holds_frame s s' i l : mtext s' = mtext s → holds s i l → holds s' i l.
Proof. unfold holds. by intros ->. Qed.

(** A step of the writer that changes no index and no text. *)
Lemma quiet_writer w r rp wp s p' s' :
  queue_inv w r rp wp s → rear s' = rear s → front s' = front s → mtext s' = mtext s → read s' = read s →
  writer_ok w r s' p' → queue_inv w r rp p' s'.
Proof.
  intros HI Er Ef Em Eo Hw. split; rewrite ?Er, ?Ef, ?Em; try apply HI; [|done|].
  - intros j Hj Hjw. apply (holds_frame s); [done|]. by apply (q_slots _ _ _ _ _ HI).
  - by apply (reader_ok_frame w w r s), HI.
Qed.

Lemma writer_ok_frame w r r' s s' p :
  stdin s' = stdin s → buffer s' = buffer s → written s' = written s → mtext s' = mtext s → r ≤ r' ≤ w →
  0 ≤ r → writer_ok w r s p → writer_ok w r' s' p.
Proof.
  intros E1 E2 E3 E4 Hr H0. unfold writer_ok, fed, copied, holds. rewrite E1, E2, E3, E4.
  destruct p; try done; try (intuition lia).
  intros (? & ? & ? & ? & out & n & ? & ? & ? & ?). do 4 (split; [done || lia|]). exists out, n. split_and!; try done; try lia.
Qed.

Lemma quiet_reader w r rp wp s p' s' :
  queue_inv w r rp wp s → rear s' = rear s → front s' = front s → mtext s' = mtext s →
  stdin s' = stdin s → buffer s' = buffer s → written s' = written s →
  reader_ok w r s' p' → queue_inv w r p' wp s'.
Proof.
  intros HI Er Ef Em E1 E2 E3 Hw. pose proof (q_bound _ _ _ _ _ HI). split; rewrite ?Er, ?Ef, ?Em; try apply HI; [| |done].
  - intros j Hj Hjw. apply (holds_frame s); [done|]. by apply (q_slots _ _ _ _ _ HI).
  - apply (writer_ok_frame w r r s); try done; [lia|lia|apply HI].
Qed.

(** Writing a byte of the slot of text [w]. *)
Lemma put_char_ok w r rp wp s k c :
  queue_inv w r rp wp s → 0 ≤ k < sz →
  ∃ t m, aget (mtext s) (w mod Q) = Ok t ∧ zlen t = sz ∧ put_char s (rear s) k c = Ok (set_text m s) ∧
    m = <[Z.to_nat (w mod Q) := <[Z.to_nat k := c]> t]> (mtext s).
Proof.
  intros HI Hk. pose proof (q_len _ _ _ _ _ HI) as Hl. pose proof (q_size _ _ _ _ _ HI) as Hs.
  pose proof (Z.mod_pos_bound w Q ltac:(lia)) as Hm.
  destruct (aget_in_range (mtext s) (w mod Q)) as (t & Ht & El); [lia|].
  rewrite Forall_lookup in Hs. specialize (Hs _ _ El). cbn in Hs.
  exists t, (<[Z.to_nat (w mod Q) := <[Z.to_nat k := c]> t]> (mtext s)). do 2 (split; [done|]). split; [|done].
  unfold put_char. rewrite (q_rear _ _ _ _ _ HI), Ht. cbn. rewrite aset_Ok by lia. cbn. by rewrite aset_Ok by lia.
Qed.

Lemma queue_copy_step w r rp s k :
  queue_inv w r rp (W_copy k) s →
  ∃ m, put_char s (rear s) k (byte_at (line w) k) = Ok (set_text m s) ∧ buffer s = Some (line w) ∧
    queue_inv w r rp (if k + 1 <? sz then W_copy (k + 1) else W_count) (set_text m s).
Proof.
  intros HI. pose proof (q_writer _ _ _ _ _ HI) as (Hfed & He & Hroom & Hk & (t0 & Ht0 & Hc) & Hout).
  pose proof (q_bound _ _ _ _ _ HI) as Hb. destruct (put_char_ok _ _ _ _ _ k (byte_at (line w) k) HI Hk) as (t & m & Ht & Hts & Hput & Em).
  assert (t0 = t) as -> by congruence. pose proof (Z.mod_pos_bound w Q ltac:(lia)) as Hm. pose proof (q_len _ _ _ _ _ HI) as Hl.
  assert (∀ i, 0 ≤ i < k + 1 → aget (<[Z.to_nat k := byte_at (line w) k]> t) i = Ok (byte_at (line w) i)) as Hc'.
  { intros i Hi. rewrite aget_insert by lia. case_decide; [by subst|]. apply Hc. lia. }
  assert (aget m (w mod Q) = Ok (<[Z.to_nat k := byte_at (line w) k]> t)) as Hm' by (rewrite Em, aget_insert_eq by lia; done).
  exists m. split; [exact Hput|]. split; [destruct Hfed as [_ ->]; rewrite decide_False by lia; do 2 f_equal; lia|].
  split; cbn [rear front mtext set_text]; try apply HI.
  - rewrite Em. by rewrite zlen_insert.
  - rewrite Em. apply Forall_insert; [apply HI|]. by rewrite zlen_insert.
  - intros j Hj Hjw. destruct (q_slots _ _ _ _ _ HI j Hj Hjw) as (u & Hu & Hu'). exists u. split; [|done].
    cbn [mtext set_text]. rewrite Em, aget_insert_ne; [done|lia|]. intros E. pose proof (mod_near j w ltac:(lia) ltac:(lia) (eq_sym E)). lia.
  - destruct (Z.ltb_spec (k + 1) sz); cbn [writer_ok]; do 3 (split; [done|]).
    + split; [lia|]. split; [|done]. by eexists.
    + split; [|done]. eexists. split; [done|]. intros i Hi. apply Hc'. lia.
Qed.

(** ** How far the processes have come *)

Let span := sz + 2.
Definition round : Z := 10 + sz + (Q + 2) * span.

(** The place of a state in the round of the writer; [rr] is [rear]. *)
Definition w_rank (rr : Z) (p : pc) : Z :=
  match p with
  | W_end => -2
  | W_test => -1
  | W_read => 1
  | W_copy k => 2 + k
  | W_count => 2 + sz
  | W_first => 3 + sz
  | W_loop i => 4 + sz + (Q - (rr + 1 - i) mod Q) * span
  | W_char i k => 5 + sz + (Q - (rr + 1 - i) mod Q) * span + k
  | W_rear => 4 + sz + (Q + 1) * span
  | _ => 0
  end.

Definition r_rank (p : pc) : Z :=
  match p with
  | R_print => 1
  | R_char k => 2 + k
  | R_cmp k => 2 + sz + k
  | R_front => 5 + sz
  | R_done => 6 + sz
  | _ => 0
  end.

Definition work (w r : Z) (rp wp : pc) (s : shared_struct) : Z :=
  w * round + w_rank (rear s) wp + r * (8 + sz) + r_rank rp.

(** The texts that are still to be listed when the writer is at text [j]. *)
Lemma left_mod w j : 0 ≤ w + 1 - j < Q → (w mod Q + 1 - j mod Q) mod Q = w + 1 - j.
Proof.
  intros H. rewrite <-(Z.mod_small (w + 1 - j) Q) by done.
  rewrite Zminus_mod_idemp_r. replace (w mod Q + 1 - j) with (w mod Q + (1 - j)) by lia.
  rewrite Zplus_mod_idemp_l. f_equal. lia.
Qed.

Lemma get_char_ok s i l k : holds s i l → 0 ≤ k < sz → get_char s i k = Ok (byte_at l k).
Proof. intros (t & Ht & Hk) H. unfold get_char. rewrite Ht. cbn. by apply Hk. Qed.

(** The slots that are listed hold their texts. *)
Lemma listed_slot w r rp wp s j :
  queue_inv w r rp wp s → holds s (w mod Q) (line w) → 0 ≤ j ≤ w → w - j < Q → holds s (j mod Q) (line j).
Proof.
  intros HI Hw Hj Hjw. destruct (decide (j = w)) as [->|]; [done|]. apply (q_slots _ _ _ _ _ HI); lia.
Qed.

Lemma w_char_step w r rp s i k :
  queue_inv w r rp (W_char i k) s →
  ∃ p' s', writer sz num (W_char i k) s = Some (Ok (p', s')) ∧ queue_inv w r rp p' s' ∧
    w_rank (rear s) (W_char i k) < w_rank (rear s') p' ∧ front s' = front s.
Proof.
  intros HI. pose proof (q_writer _ _ _ _ _ HI) as (Hfed & He & Hroom & Hh & out & a & n & l & j & HL & -> & Hj & Hk & Ew).
  pose proof HL as (Hsh & Ha & Hn & El). pose proof (q_bound _ _ _ _ _ HI) as Hb.
  pose proof (line_short j ltac:(lia)) as Hlen.
  pose proof (listed_slot _ _ _ _ _ j HI Hh ltac:(lia) ltac:(lia)) as Hs.
  cbn [writer]. rewrite (get_char_ok _ _ _ _ Hs) by lia. cbn [mbind outcome_bind].
  destruct (Z.eqb_spec (byte_at (line j) k) 0) as [E|E].
  - do 2 eexists. split; [done|]. split.
    + apply (quiet_writer _ _ _ _ _ _ _ HI); try done. cbn [writer_ok]. do 4 (split; [done|]).
      exists out, a, n, l, (j + 1). split; [done|]. split; [apply next_mod; lia|]. split; [lia|].
      rewrite Ew, (take_whole j k) by (done || lia). by rewrite texts_snoc by lia.
    + split; [|done]. cbn [w_rank]. rewrite next_mod by lia. rewrite (q_rear _ _ _ _ _ HI).
      rewrite !left_mod by lia. unfold span. nia.
  - do 2 eexists. split; [done|]. split.
    + apply (quiet_writer _ _ _ _ _ _ _ HI); try done. cbn [writer_ok w_print written stdin buffer]. do 4 (split; [done|]).
      exists out, a, n, l, j. split; [done|]. split; [done|]. split; [lia|]. split.
      * rewrite line_byte in E by lia. lia.
      * rewrite take_line by (done || lia). rewrite Ew. by rewrite <-!(assoc_L (++)).
    + split; [|done]. cbn [w_rank rear w_print]. lia.
Qed.

Lemma full_test w r rp wp s : queue_inv w r rp wp s → (next num (rear s) =? front s) = (w - r =? num).
Proof.
  intros HI. pose proof (q_bound _ _ _ _ _ HI). rewrite (q_rear _ _ _ _ _ HI), (q_front _ _ _ _ _ HI), next_mod by lia.
  destruct (Z.eqb_spec (w - r) num) as [E|E].
  - apply Z.eqb_eq. replace (w + 1) with (r + 1 * Q) by lia. apply Z_mod_plus_full.
  - apply Z.eqb_neq. intros Em. symmetry in Em. apply mod_near in Em; lia.
Qed.

Lemma count_value w r rp wp s :
  queue_inv w r rp wp s → w - r < num → Z.rem (rear s + num + 2 - front s) (num + 1) = w - r + 1.
Proof.
  intros HI Hlt. pose proof (q_bound _ _ _ _ _ HI). rewrite (q_rear _ _ _ _ _ HI), (q_front _ _ _ _ _ HI).
  pose proof (Z.mod_pos_bound w Q ltac:(lia)). pose proof (Z.mod_pos_bound r Q ltac:(lia)).
  rewrite Z.rem_mod_nonneg by lia. fold Q. replace (w mod Q + num + 2 - r mod Q) with (w mod Q + 1 - r mod Q + 1 * Q) by lia.
  rewrite Z_mod_plus_full, left_mod; lia.
Qed.

Lemma w_rear_step w r rp s :
  queue_inv w r rp W_rear s → queue_inv (w + 1) r rp W_end (set_rear (next num (rear s)) s).
Proof.
  intros HI. pose proof (q_writer _ _ _ _ _ HI) as (Hfed & He & Hroom & Hh & out & a & n & l & HL & Ew).
  pose proof (q_bound _ _ _ _ _ HI) as Hb. split; cbn [rear front mtext set_rear]; try apply HI.
  - lia.
  - rewrite (q_rear _ _ _ _ _ HI). apply next_mod. lia.
  - intros j Hj Hjw. apply (holds_frame s); [done|]. destruct (decide (j = w)) as [->|]; [done|]. apply (q_slots _ _ _ _ _ HI); lia.
  - intros j Hj. destruct (decide (j = w - 1)) as [->|]; [apply He; lia|]. apply (q_ends _ _ _ _ _ HI). lia.
  - cbn [writer_ok]. split; [done|]. split; [lia|]. exists out, a, n, l. by rewrite Z.add_simpl_r.
  - apply (reader_ok_frame w _ _ s); [lia|done|apply HI].
Qed.

(** The end of a round. *)
Lemma shown_round w out a n l tail :
  0 < w → listing (w - 1) a n out l → tail ∈ [[]; [Full]; [No_more]] → (tail = [No_more] ↔ is_end (line (w - 1)) = true) →
  shown w (l ++ texts a w ++ tail).
Proof.
  intros Hw (Hs & Ha & Hn & ->) Ht Hi. rewrite <-(assoc_L (++)).
  pose proof (shown_text _ _ _ _ tail Hs Ha Hn Ht Hi) as H. by rewrite Z.sub_add in H.
Qed.

(** What a step of the writer does: it gets on, or it waits at a full queue. *)
Definition w_steps (w r : Z) (rp wp : pc) (s : shared_struct) : Prop :=
  ∃ w' p' s', writer sz num wp s = Some (Ok (p', s')) ∧ queue_inv w' r rp p' s' ∧ front s' = front s ∧
    (work w r rp wp s < work w' r rp p' s' ∨ wp = W_full ∧ w - r = num ∧ p' = wp ∧ s' = s).

Lemma w_go w r rp wp s p' s' :
  writer sz num wp s = Some (Ok (p', s')) → queue_inv w r rp p' s' →
  w_rank (rear s) wp < w_rank (rear s') p' → front s' = front s → w_steps w r rp wp s.
Proof. intros Hs HI' Hr Hf. exists w, p', s'. split_and!; [done..|]. left. unfold work. lia. Qed.

Lemma w_full_steps w r rp s : queue_inv w r rp W_full s → w_steps w r rp W_full s.
Proof.
  intros HI. pose proof (q_bound _ _ _ _ _ HI) as Hb. pose proof (q_writer _ _ _ _ _ HI) as Hw. cbn [writer_ok] in Hw.
  destruct Hw as (Hfed & Hsh & He). pose proof (full_test _ _ _ _ _ HI) as Ht.
  destruct (Z.eqb_spec (w - r) num) as [E|E].
  + exists w, W_full, s. cbn [writer]. rewrite Ht. by auto 10.
  + apply (w_go _ _ _ _ _ W_read s); [cbn [writer]; by rewrite Ht| |done|done].
    apply (quiet_writer _ _ _ _ _ _ _ HI); try done. cbn. split_and!; [apply Hfed..|done|done|lia].
Qed.

Lemma w_read_steps w r rp s : queue_inv w r rp W_read s → w_steps w r rp W_read s.
Proof.
  intros HI. pose proof (q_bound _ _ _ _ _ HI) as Hb. pose proof (q_writer _ _ _ _ _ HI) as Hw. cbn [writer_ok] in Hw.
  destruct Hw as (Hfed & Hsh & He & Hroom). destruct (fed_read w s ltac:(lia) Hfed) as (input & Hg & Hi).
  eapply w_go; [cbn [writer]; by rewrite Hg| |cbn; lia|done].
  apply (quiet_writer _ _ _ _ _ _ _ HI); try done. cbn.
  assert (fed (w + 1) (set_input input (Some (line w)) (w_print Prompt s))) as [? ?].
  { split; [done|]. cbn. rewrite decide_False by lia. by rewrite Z.add_simpl_r. }
  split; [done|]. split; [done|]. split; [done|]. split; [lia|]. split; [|by eexists].
  pose proof (Z.mod_pos_bound w Q ltac:(lia)). destruct (aget_in_range (mtext s) (w mod Q)) as (t & Hgt & _); [by rewrite (q_len _ _ _ _ _ HI)|].
  exists t. split; [done|]. intros j Hj. lia.
Qed.

Lemma w_copy_steps w r rp s k : queue_inv w r rp (W_copy k) s → w_steps w r rp (W_copy k) s.
Proof.
  intros HI. pose proof (q_bound _ _ _ _ _ HI) as Hb. pose proof (q_writer _ _ _ _ _ HI) as Hw. cbn [writer_ok] in Hw.
  destruct (queue_copy_step _ _ _ _ _ HI) as (m & Hput & Hbuf & HI'). destruct Hw as (_ & _ & _ & Hk & _).
  eapply w_go; [cbn [writer]; rewrite Hbuf; cbn [of_option mbind outcome_bind]; by rewrite Hput|exact HI'| |done].
  destruct (Z.ltb_spec (k + 1) sz); cbn; lia.
Qed.

Lemma w_count_steps w r rp s : queue_inv w r rp W_count s → w_steps w r rp W_count s.
Proof.
  intros HI. pose proof (q_bound _ _ _ _ _ HI) as Hb. pose proof (q_writer _ _ _ _ _ HI) as Hw. cbn [writer_ok] in Hw.
  destruct Hw as (Hfed & He & Hroom & Hh & out & Hsh & Ew).
  eapply w_go; [done| |cbn; lia|done]. apply (quiet_writer _ _ _ _ _ _ _ HI); try done.
  rewrite (count_value _ _ _ _ _ HI Hroom). cbn. do 4 (split; [done|]). exists out, (w - r + 1).
  split_and!; [done|lia..|]. rewrite Ew. by rewrite <-(assoc_L (++)).
Qed.

Lemma w_first_steps w r rp s : queue_inv w r rp W_first s → w_steps w r rp W_first s.
Proof.
  intros HI. pose proof (q_bound _ _ _ _ _ HI) as Hb. pose proof (q_writer _ _ _ _ _ HI) as Hw. cbn [writer_ok] in Hw.
  destruct Hw as (Hfed & He & Hroom & Hh & out & n & HL).
  eapply w_go; [done| | |done].
  + apply (quiet_writer _ _ _ _ _ _ _ HI); try done. rewrite (q_front _ _ _ _ _ HI). cbn. do 4 (split; [done|]).
    exists out, r, n, (written s), r. split; [done|]. split; [done|]. split; [lia|]. by rewrite texts_nil, app_nil_r.
  + cbn. pose proof (Z.mod_pos_bound (rear s + 1 - front s) Q ltac:(lia)). unfold span. nia.
Qed.

Lemma w_loop_steps w r rp s i : queue_inv w r rp (W_loop i) s → w_steps w r rp (W_loop i) s.
Proof.
  intros HI. pose proof (q_bound _ _ _ _ _ HI) as Hb. pose proof (q_writer _ _ _ _ _ HI) as Hw. cbn [writer_ok] in Hw.
  destruct Hw as (Hfed & He & Hroom & Hh & out & a & n & l & j & HL & -> & Hj & Ew).
  pose proof HL as (Hsh & Ha & Hn & El). pose proof (q_rear _ _ _ _ _ HI) as Er.
  assert ((j mod Q =? next num (rear s)) = (j =? w + 1)) as Ht.
  { rewrite Er, next_mod by lia. destruct (Z.eqb_spec j (w + 1)) as [->|Hjw]; [by apply Z.eqb_refl|].
    apply Z.eqb_neq. intros Em. apply mod_near in Em; lia. }
  assert ((rear s + 1 - j mod Q) mod Q = w + 1 - j) as Hleft by (rewrite Er; apply left_mod; lia).
  destruct (Z.eqb_spec j (w + 1)) as [->|Hjw].
  + eapply w_go; [cbn [writer]; by rewrite Ht| |cbn; rewrite Hleft; unfold span; lia|done].
    apply (quiet_writer _ _ _ _ _ _ _ HI); try done. cbn. do 4 (split; [done|]). by exists out, a, n, l.
  + eapply w_go; [cbn [writer]; by rewrite Ht| |cbn; lia|done].
    apply (quiet_writer _ _ _ _ _ _ _ HI); try done. cbn. do 4 (split; [done|]). exists out, a, n, l, j.
    do 2 (split; [done|]). split; [lia|]. split; [split; [lia|apply zlen_nonneg]|]. by rewrite Ew, app_nil_r.
Qed.

Lemma w_rear_steps w r rp s : queue_inv w r rp W_rear s → w_steps w r rp W_rear s.
Proof.
  intros HI. pose proof (q_bound _ _ _ _ _ HI) as Hb. pose proof (q_writer _ _ _ _ _ HI) as Hw. cbn [writer_ok] in Hw.
  exists (w + 1), W_end, (set_rear (next num (rear s)) s). split; [done|]. split; [by apply w_rear_step|]. split; [done|].
  left. unfold work, round. cbn. unfold span. nia.
Qed.

Lemma w_end_steps w r rp s : queue_inv w r rp W_end s → w_steps w r rp W_end s.
Proof.
  intros HI. pose proof (q_bound _ _ _ _ _ HI) as Hb. pose proof (q_writer _ _ _ _ _ HI) as Hw. cbn [writer_ok] in Hw.
  destruct Hw as ([Hin Hbuf] & Hw0 & out & a & n & l & HL & Ew). rewrite decide_False in Hbuf by lia.
  destruct (is_end (line (w - 1))) eqn:Ee.
  + eapply w_go; [cbn [writer]; rewrite Hbuf; cbn [of_option mbind outcome_bind]; by rewrite Ee| |cbn; lia|done].
    apply (quiet_writer _ _ _ _ _ _ _ HI); try done. cbn [writer_ok written w_print]. split; [|done].
    rewrite Ew, <-(assoc_L (++)). eapply shown_round; [done|done|set_solver|done].
  + eapply w_go; [cbn [writer]; rewrite Hbuf; cbn [of_option mbind outcome_bind]; by rewrite Ee| |cbn; lia|done].
    apply (quiet_writer _ _ _ _ _ _ _ HI); try done. cbn [writer_ok]. split; [split; [done|by rewrite decide_False by lia]|].
    do 2 (split; [done|]). by exists out, a, n, l.
Qed.

Lemma w_test_steps w r rp s : queue_inv w r rp W_test s → w_steps w r rp W_test s.
Proof.
  intros HI. pose proof (q_bound _ _ _ _ _ HI) as Hb. pose proof (q_writer _ _ _ _ _ HI) as Hw. cbn [writer_ok] in Hw.
  destruct Hw as (Hfed & Hw0 & Ee & out & a & n & l & HL & Ew).
  assert (shown w (l ++ texts a w ++ [])) as Hs0 by (eapply shown_round; [done|done|set_solver|by rewrite Ee]).
  assert (shown w (l ++ texts a w ++ [Full])) as Hs1 by (eapply shown_round; [done|done|set_solver|by rewrite Ee]).
  eapply w_go; [done| |destruct (_ =? _); cbn; lia|by destruct (_ =? _)].
  apply (quiet_writer _ _ _ _ _ _ _ HI); try (by destruct (_ =? _)).
  destruct (_ =? _); cbn [writer_ok written w_print]; (split; [done|]); (split; [|done]); rewrite Ew, <-?(assoc_L (++)); [done|].
  by rewrite app_nil_r in Hs0.
Qed.

Lemma writer_step w r rp wp s : queue_inv w r rp wp s → wp ≠ W_done → w_steps w r rp wp s.
Proof.
  intros HI Hnd. pose proof (q_writer _ _ _ _ _ HI) as Hw. destruct wp; try done.
  - by apply w_full_steps.
  - by apply w_read_steps.
  - by apply w_copy_steps.
  - by apply w_count_steps.
  - by apply w_first_steps.
  - by apply w_loop_steps.
  - destruct (w_char_step _ _ _ _ _ _ HI) as (p' & s' & Hs & HI' & Hr & Hf). by apply (w_go _ _ _ _ _ p' s').
  - by apply w_rear_steps.
  - by apply w_end_steps.
  - by apply w_test_steps.
Qed.

Lemma r_front_step w r wp s :
  queue_inv w r R_front wp s → queue_inv w (r + 1) R_wait wp (set_front (next num (front s)) s).
Proof.
  intros HI. pose proof (q_reader _ _ _ _ _ HI) as (Hlt & Er & He). pose proof (q_bound _ _ _ _ _ HI) as Hb.
  split; cbn [rear front mtext set_front]; try apply HI.
  - lia.
  - rewrite (q_front _ _ _ _ _ HI). apply next_mod. lia.
  - intros j Hj. destruct (decide (j = r)) as [->|]; [done|]. apply (q_taken _ _ _ _ _ HI). lia.
  - apply (writer_ok_frame w r _ s); try done; [lia|lia|apply HI].
Qed.

(** The slot of the text that the reader reads. *)
Lemma r_slot w r rp wp s k :
  queue_inv w r rp wp s → r < w → 0 ≤ k < sz → get_char s (front s) k = Ok (byte_at (line r) k).
Proof.
  intros HI Hr Hk. pose proof (q_bound _ _ _ _ _ HI). rewrite (q_front _ _ _ _ _ HI).
  apply get_char_ok; [|done]. apply (q_slots _ _ _ _ _ HI); lia.
Qed.

Lemma empty_test w r rp wp s : queue_inv w r rp wp s → (front s =? rear s) = (w =? r).
Proof.
  intros HI. pose proof (q_bound _ _ _ _ _ HI). rewrite (q_rear _ _ _ _ _ HI), (q_front _ _ _ _ _ HI).
  destruct (Z.eqb_spec w r) as [->|E]; [by apply Z.eqb_refl|].
  apply Z.eqb_neq. intros Em. apply mod_near in Em; lia.
Qed.

(** A text that starts with "end" has three characters. *)
Lemma end_long l k : 0 ≤ k < 3 → (∀ i, 0 ≤ i < k → byte_at l i = end_char i) → Forall (λ c, c ≠ 0) l → k ≤ zlen l.
Proof.
  intros Hk Hi Hl. destruct (decide (k = 0)) as [->|]; [apply zlen_nonneg|].
  destruct (Z.le_gt_cases (zlen l) (k - 1)) as [Hs|]; [|lia]. apply byte_at_line in Hs; [|done|lia].
  rewrite Hi in Hs by lia. assert (k - 1 = 0 ∨ k - 1 = 1) as [E|E] by lia; by rewrite E in Hs.
Qed.

Lemma r_cmp_next l k : 0 ≤ k < 3 → (∀ i, 0 ≤ i < k → byte_at l i = end_char i) →
  if negb (byte_at l k =? end_char k) then is_end l = false
  else if k + 1 <? 3 then ∀ i, 0 ≤ i < k + 1 → byte_at l i = end_char i else is_end l = true.
Proof.
  intros Hk Hi. destruct (Z.eqb_spec (byte_at l k) (end_char k)) as [E|E]; cbn [negb].
  - assert (∀ i, 0 ≤ i < k + 1 → byte_at l i = end_char i) as Hi'.
    { intros i Hik. destruct (decide (i = k)) as [->|]; [done|]. apply Hi. lia. }
    destruct (Z.ltb_spec (k + 1) 3); [done|]. unfold is_end. by rewrite !Hi', !Z.eqb_refl by lia.
  - unfold is_end. apply Z.eqb_neq in E. assert (k = 0 ∨ k = 1 ∨ k = 2) as [-> |[-> | ->]] by lia; by rewrite E, ?andb_false_r.
Qed.

(** What a step of the reader does: it gets on, or it waits at an empty queue. *)
Definition r_steps (w r : Z) (rp wp : pc) (s : shared_struct) : Prop :=
  ∃ r' p' s', reader num rp s = Some (Ok (p', s')) ∧ queue_inv w r' p' wp s' ∧
    (work w r rp wp s < work w r' p' wp s' ∨ rp = R_wait ∧ w = r ∧ p' = rp ∧ s' = s).

Lemma r_go w r rp wp s p' s' :
  reader num rp s = Some (Ok (p', s')) → queue_inv w r p' wp s' → r_rank rp < r_rank p' → rear s' = rear s →
  r_steps w r rp wp s.
Proof. intros Hs HI' Hk Hf. exists r, p', s'. split_and!; [done..|]. left. unfold work. rewrite Hf. lia. Qed.

Lemma r_wait_steps w r wp s : queue_inv w r R_wait wp s → r_steps w r R_wait wp s.
Proof.
  intros HI. pose proof (q_bound _ _ _ _ _ HI) as Hb. pose proof (q_reader _ _ _ _ _ HI) as Hr. cbn [reader_ok] in Hr.
  pose proof (empty_test _ _ _ _ _ HI) as Ht. destruct (Z.eqb_spec w r) as [E|E].
  + exists r, R_wait, s. cbn [reader]. rewrite Ht. by auto 10.
  + apply (r_go _ _ _ _ _ R_print s); [cbn [reader]; by rewrite Ht| |done|done].
    apply (quiet_reader _ _ _ _ _ _ _ HI); try done. cbn. split; [lia|done].
Qed.

Lemma r_print_steps w r wp s : queue_inv w r R_print wp s → r_steps w r R_print wp s.
Proof.
  intros HI. pose proof (q_bound _ _ _ _ _ HI) as Hb. pose proof (q_reader _ _ _ _ _ HI) as Hr. cbn [reader_ok] in Hr.
  destruct Hr as [Hlt Er]. eapply r_go; [done| |cbn; lia|done].
  apply (quiet_reader _ _ _ _ _ _ _ HI); try done. cbn. split; [done|].
  split; [split; [lia|apply zlen_nonneg]|]. by rewrite Er.
Qed.

Lemma r_char_steps w r wp s k : queue_inv w r (R_char k) wp s → r_steps w r (R_char k) wp s.
Proof.
  intros HI. pose proof (q_bound _ _ _ _ _ HI) as Hb. pose proof (q_reader _ _ _ _ _ HI) as Hr. cbn [reader_ok] in Hr.
  destruct Hr as (Hlt & Hk & Er). pose proof (line_short r ltac:(lia)) as Hs.
  assert (get_char s (front s) k = Ok (byte_at (line r) k)) as Hg by (eapply r_slot; [done|done|lia]).
  destruct (Z.eqb_spec (byte_at (line r) k) 0) as [E|E].
  + eapply r_go; [cbn [reader]; rewrite Hg; cbn [mbind outcome_bind]; by rewrite E| |cbn; lia|done].
    apply (quiet_reader _ _ _ _ _ _ _ HI); try done. cbn. split; [done|]. split; [lia|]. split; [|lia].
    rewrite Er, (take_whole r k) by (done || lia). by rewrite reports_snoc by lia.
  + eapply r_go; [cbn [reader]; rewrite Hg; cbn [mbind outcome_bind]; by rewrite (proj2 (Z.eqb_neq _ _) E)| |cbn; lia|done].
    apply (quiet_reader _ _ _ _ _ _ _ HI); try done. cbn [reader_ok read r_print]. split; [done|].
    split; [rewrite line_byte in E by lia; lia|]. rewrite Er, take_line by (done || lia). by rewrite <-(assoc_L (++)).
Qed.

Lemma r_cmp_steps w r wp s k : queue_inv w r (R_cmp k) wp s → r_steps w r (R_cmp k) wp s.
Proof.
  intros HI. pose proof (q_bound _ _ _ _ _ HI) as Hb. pose proof (q_reader _ _ _ _ _ HI) as Hr. cbn [reader_ok] in Hr.
  destruct Hr as (Hlt & Hk & Er & Hi). pose proof (line_short r ltac:(lia)) as Hs.
  pose proof (end_long _ k Hk Hi (keyed_nonzero _ (line_keyed r ltac:(lia)))) as Hl.
  assert (get_char s (front s) k = Ok (byte_at (line r) k)) as Hg by (eapply r_slot; [done|done|lia]).
  eapply r_go; [cbn [reader]; rewrite Hg; by cbn [mbind outcome_bind]| | |done].
  + apply (quiet_reader _ _ _ _ _ _ _ HI); try done. pose proof (r_cmp_next _ k Hk Hi) as Hn.
    destruct (negb _); [cbn; auto|]. destruct (Z.ltb_spec (k + 1) 3); cbn [reader_ok]; [|auto].
    split; [done|]. split; [lia|]. auto.
  + destruct (negb _); [cbn; lia|]. destruct (Z.ltb_spec (k + 1) 3); cbn; lia.
Qed.

Lemma r_front_steps w r wp s : queue_inv w r R_front wp s → r_steps w r R_front wp s.
Proof.
  intros HI. pose proof (q_bound _ _ _ _ _ HI) as Hb. pose proof (q_reader _ _ _ _ _ HI) as Hr. cbn [reader_ok] in Hr.
  exists (r + 1), R_wait, (set_front (next num (front s)) s). split; [done|]. split; [by apply r_front_step|].
  left. unfold work. cbn. lia.
Qed.

Lemma reader_step w r rp wp s : queue_inv w r rp wp s → rp ≠ R_done → r_steps w r rp wp s.
Proof.
  intros HI Hnd. pose proof (q_reader _ _ _ _ _ HI) as Hr. destruct rp; try done.
  - by apply r_wait_steps.
  - by apply r_print_steps.
  - by apply r_char_steps.
  - by apply r_cmp_steps.
  - by apply r_front_steps.
Qed.

(** ** Runs *)

Definition conf_inv (c : conf pc shared_struct) : Prop :=
  ∃ w r rp wp, threads c = [rp; wp] ∧ queue_inv w r rp wp (shared c).

Lemma shm_step_reader w r rp wp s i : queue_inv w r rp wp s → shm_step sz num i rp s = reader num rp s.
Proof. intros HI. pose proof (q_reader _ _ _ _ _ HI). by destruct rp. Qed.

Lemma shm_step_writer w r rp wp s i : queue_inv w r rp wp s → shm_step sz num i wp s = writer sz num wp s.
Proof. intros HI. pose proof (q_writer _ _ _ _ _ HI). by destruct wp. Qed.

Lemma shm_steps ts s i t o :
  conf_inv (Conf ts s) → ts !! i = Some t → shm_step sz num (Z.of_nat i) t s = Some o →
  ∃ t' s', o = Ok (t', s') ∧ conf_inv (Conf (<[i := t']> ts) s').
Proof.
  intros (w & r & rp & wp & E & HI) Hi Hs. cbn in E, HI. subst ts. destruct i as [|[|i]]; cbn in Hi; [..|done]; injection Hi as <-.
  - rewrite (shm_step_reader _ _ _ _ _ _ HI) in Hs. assert (rp ≠ R_done) as Hnd by (by intros ->).
    destruct (reader_step _ _ _ _ _ HI Hnd) as (r' & p' & s' & Hs' & HI' & _). rewrite Hs' in Hs. injection Hs as <-.
    exists p', s'. split; [done|]. by exists w, r', p', wp.
  - rewrite (shm_step_writer _ _ _ _ _ _ HI) in Hs. assert (wp ≠ W_done) as Hnd by (by intros ->).
    destruct (writer_step _ _ _ _ _ HI Hnd) as (w' & p' & s' & Hs' & HI' & _). rewrite Hs' in Hs. injection Hs as <-.
    exists p', s'. split; [done|]. by exists w', r, rp, p'.
Qed.

Lemma shm_reach c c' : conf_inv c → rtc (runs_step (shm_step sz num)) c c' → conf_inv c'.
Proof.
  apply runs_invariant. intros ts s i t t' s' HI Hi Hs. by destruct (shm_steps _ _ _ _ _ HI Hi Hs) as (? & ? & [= <- <-] & ?).
Qed.

Lemma shm_no_fault c : conf_inv c → ¬ may_fault (shm_step sz num) c.
Proof.
  destruct c as [ts s]. intros HI (i & t & e & Hi & Hs). by destruct (shm_steps _ _ _ _ _ HI Hi Hs) as (? & ? & ? & _).
Qed.

Lemma shm_start m : zlen m = Q → Forall (λ t, zlen t = sz) m → conf_inv (shmcon m (concat lines)).
Proof.
  intros Hm Hs. exists 0, 0, R_wait, W_full. split; [done|]. split; cbn [shared shmcon mtext front rear]; try done; try lia.
  split; [split; [done|]|]; cbn; [by rewrite decide_True|]. split; [constructor|]. intros. lia.
Qed.

(** What the reader has printed, with the text it is printing. *)
Lemma read_reports w r rp wp s :
  queue_inv w r rp wp s → ∃ part, read s = reports r ++ part ∧ part `prefix_of` report r.
Proof.
  intros HI. pose proof (q_bound _ _ _ _ _ HI). pose proof (q_reader _ _ _ _ _ HI) as Hr.
  assert (read s = reports (r + 1) → ∃ part, read s = reports r ++ part ∧ part `prefix_of` report r) as Hw.
  { intros ->. exists (report r). split; [by apply reports_snoc; lia|done]. }
  destruct rp; try done; cbn in Hr; try (apply Hw; apply Hr).
  - exists []. rewrite app_nil_r. split; [done|apply prefix_nil].
  - exists []. rewrite app_nil_r. split; [apply Hr|apply prefix_nil].
  - destruct Hr as (_ & _ & ->). eexists. split; [done|]. apply prefix_cons. unfold chars.
    rewrite <-(take_drop (Z.to_nat k) (line r)) at 2. rewrite fmap_app. by eexists.
Qed.

(** The reader is at the text of [front], the writer at that of [rear]. *)
Definition reading (p : pc) : bool := match p with R_char _ | R_cmp _ => true | _ => false end.
Definition writing (p : pc) : bool := match p with W_copy _ => true | _ => false end.

Lemma no_race w r rp wp s : queue_inv w r rp wp s → reading rp = true → writing wp = true → front s ≠ rear s.
Proof.
  intros HI Hr Hw E. pose proof (q_bound _ _ _ _ _ HI). rewrite (q_front _ _ _ _ _ HI), (q_rear _ _ _ _ _ HI) in E.
  pose proof (q_reader _ _ _ _ _ HI) as HR. pose proof (q_writer _ _ _ _ _ HI) as HW.
  apply mod_near in E; [|lia..]. destruct rp; try done; destruct wp; try done; cbn in HR; lia.
Qed.

(** ** The end *)

Section completion.
Context (e : Z).
Hypothesis He : 0 ≤ e.
Hypothesis Hend : is_end (line e) = true.
Hypothesis Hbefore : ∀ j, 0 ≤ j < e → is_end (line j) = false.

Definition both_done (c : conf pc shared_struct) : Prop := threads c = [R_done; W_done].

Lemma written_bound w r rp wp s : queue_inv w r rp wp s → w ≤ e + 1.
Proof.
  intros HI. destruct (Z.le_gt_cases w (e + 1)) as [|Hw]; [done|].
  pose proof (q_ends _ _ _ _ _ HI e ltac:(lia)). congruence.
Qed.

(** The writer waits at a full queue, or one of the two gets on. *)
Lemma shm_progress w r rp wp s :
  queue_inv w r rp wp s → (rp = R_done ∧ wp = W_done) ∨
  ∃ w' r' rp' wp' s', rtc (runs_step (shm_step sz num)) (Conf [rp; wp] s) (Conf [rp'; wp'] s') ∧
    queue_inv w' r' rp' wp' s' ∧ work w r rp wp s < work w' r' rp' wp' s'.
Proof.
  intros HI. pose proof (q_writer _ _ _ _ _ HI) as HW. pose proof (q_reader _ _ _ _ _ HI) as HR.
  pose proof (q_bound _ _ _ _ _ HI) as Hb.
  assert (rp ≠ R_done → w ≠ r → ∃ w' r' rp' wp' s', rtc (runs_step (shm_step sz num)) (Conf [rp; wp] s) (Conf [rp'; wp'] s') ∧
    queue_inv w' r' rp' wp' s' ∧ work w r rp wp s < work w' r' rp' wp' s') as Hread.
  { intros Hnd Hwr. destruct (reader_step _ _ _ _ _ HI Hnd) as (r' & p' & s' & Hs & HI' & [Hlt|(_ & ? & _)]); [|done].
    exists w, r', p', wp, s'. split; [|done]. apply rtc_once.
    apply (do_step _ (Conf [rp; wp] s) 0 rp p' s'); [done|]. by rewrite (shm_step_reader _ _ _ _ _ _ HI). }
  destruct (decide (wp = W_done)) as [->|Hnd].
  - cbn in HW. destruct HW as (_ & Hw & HeW). destruct (decide (rp = R_done)) as [->|Hrd]; [by left|right].
    apply Hread; [done|]. intros ->. pose proof (q_taken _ _ _ _ _ HI (r - 1) ltac:(lia)). congruence.
  - right. destruct (writer_step _ _ _ _ _ HI Hnd) as (w' & p' & s' & Hs & HI' & _ & [Hlt|(-> & Hfull & _)]).
    + exists w', r, rp, p', s'. split; [|done]. apply rtc_once.
      apply (do_step _ (Conf [rp; wp] s) 1 wp p' s'); [done|]. by rewrite (shm_step_writer _ _ _ _ _ _ HI).
    + apply Hread; [|lia]. intros ->. cbn in HR, HW. destruct HR as (Hlt & _ & Hre), HW as (_ & _ & Hno).
      destruct (decide (r = w - 1)) as [->|]; [specialize (Hno ltac:(lia)); congruence|].
      pose proof (q_ends _ _ _ _ _ HI r ltac:(lia)). congruence.
Qed.

Lemma rank_bounds w r rp wp s : queue_inv w r rp wp s → w_rank (rear s) wp ≤ round ∧ r_rank rp ≤ 8 + sz.
Proof.
  intros HI. pose proof (q_writer _ _ _ _ _ HI) as HW. pose proof (q_reader _ _ _ _ _ HI) as HR. pose proof (q_bound _ _ _ _ _ HI) as Hb. split.
  - assert (∀ i, 0 ≤ (rear s + 1 - i) mod Q < Q) as Hm by (intros; apply Z.mod_pos_bound; lia).
    unfold round, span. destruct wp; try done; cbn [w_rank writer_ok] in *; unfold span; try nia.
    + pose proof (Hm i). nia.
    + destruct HW as (_ & _ & _ & _ & ? & ? & ? & ? & j & HL & _ & Hj & Hk & _). destruct HL as (_ & Ha & _).
      pose proof (line_short j ltac:(lia)). pose proof (Hm i). nia.
  - destruct rp; try done; cbn [r_rank reader_ok] in *; try lia. pose proof (line_short r ltac:(lia)). lia.
Qed.

Lemma work_bound w r rp wp s : queue_inv w r rp wp s → work w r rp wp s ≤ (e + 2) * round + (e + 2) * (8 + sz).
Proof.
  intros HI. pose proof (rank_bounds _ _ _ _ _ HI). pose proof (written_bound _ _ _ _ _ HI). pose proof (q_bound _ _ _ _ _ HI).
  unfold work. assert (0 < round) by (unfold round, span; nia). nia.
Qed.

Lemma shm_completes n : ∀ w r rp wp s,
  queue_inv w r rp wp s → (e + 2) * round + (e + 2) * (8 + sz) - work w r rp wp s < Z.of_nat n →
  ∃ c, rtc (runs_step (shm_step sz num)) (Conf [rp; wp] s) c ∧ both_done c ∧ conf_inv c.
Proof.
  induction n as [|n IH]; intros w r rp wp s HI Hn; [pose proof (work_bound _ _ _ _ _ HI); lia|].
  destruct (shm_progress _ _ _ _ _ HI) as [[-> ->]|(w' & r' & rp' & wp' & s' & Hr & HI' & Hlt)].
  - exists (Conf [R_done; W_done] s). split; [done|]. split; [done|]. by exists w, r, R_done, W_done.
  - destruct (IH w' r' rp' wp' s' HI' ltac:(lia)) as (c & Hc & Hd). exists c. split; [by etrans|done].
Qed.

(** What has been printed at the end. *)
Lemma done_printed c : both_done c → conf_inv c → read (shared c) = reports (e + 1) ∧ shown (e + 1) (written (shared c)).
Proof.
  intros Hd (w & r & rp & wp & E & HI). rewrite Hd in E. injection E as <- <-.
  pose proof (q_writer _ _ _ _ _ HI) as (Hsh & Hw & HeW). pose proof (q_reader _ _ _ _ _ HI) as (Hlt & Hread & HeR).
  pose proof (q_bound _ _ _ _ _ HI). pose proof (written_bound _ _ _ _ _ HI) as Hle.
  assert (∀ j, 0 ≤ j → j ≤ e → is_end (line j) = true → j = e) as Hu.
  { intros j Hj Hje Hij. destruct (decide (j = e)) as [|]; [done|]. rewrite Hbefore in Hij by lia. done. }
  assert (w = e + 1) as -> by (pose proof (Hu (w - 1) ltac:(lia) ltac:(lia) HeW); lia).
  assert (r = e) as -> by (apply Hu; [lia|lia|done]). done.
Qed.
End completion.
End invariant.

(** The first texts are the lines of the input. *)
Lemma reports_lines lines e :
  0 ≤ e < zlen lines → reports lines (e + 1) = concat ((λ l, You_wrote :: chars l) <$> take (Z.to_nat (e + 1)) lines).
Proof.
  intros [He Hl]. revert Hl. pattern e. apply natlike_ind; [..|done]; clear e He.
  - intros Hl. rewrite reports_snoc by lia. unfold reports at 1, report, line. cbn [app concat fmap].
    destruct lines as [|l lines]; [done|]. rewrite Z.min_l by lia. change (seqZ 0 0) with (@nil Z).
    change (Z.to_nat 0) with 0%nat. change (Z.to_nat (0 + 1)) with 1%nat. cbn. by rewrite ?take_0, ?app_nil_r.
  - intros e He IH Hl. rewrite reports_snoc by lia. unfold Z.succ in *. rewrite IH by lia.
    assert (is_Some (lines !! Z.to_nat (e + 1))) as [l El] by (apply lookup_lt_is_Some; unfold zlen in Hl; lia).
    replace (Z.to_nat (e + 1 + 1)) with (S (Z.to_nat (e + 1))) by lia. rewrite (take_S_r _ _ _ El), fmap_app, concat_app.
    f_equal. unfold report, line. rewrite Z.min_l by lia. rewrite El. cbn. by rewrite app_nil_r.
Qed.

(** ** What the programs do *)

(** [C35] The queue is a FIFO without a lock: for every capacity, every old
    content of the shared memory, every input of lines that fit into a text and
    every interleaving, no access leaves an array or reads an unset buffer; with
    [w] texts put and [r] taken, [rear] and [front] are their slots, at most
    [TEXT_NUM] texts are waiting, each is complete in its slot, and the reader
    has printed exactly the first [r] texts in their order and a part of the
    next one.  The writer never writes a text that is being read. *)
Theorem queue_is_fifo sz num lines m c :
  1 ≤ num → 0 < sz → lines ≠ [] → Forall keyed lines → Forall (λ l, zlen l < sz) lines →
  zlen m = num + 1 → Forall (λ t, zlen t = sz) m →
  rtc (runs_step (shm_step sz num)) (shmcon m (concat lines)) c →
  ¬ may_fault (shm_step sz num) c ∧
  ∃ w r rp wp part, threads c = [rp; wp] ∧ 0 ≤ r ≤ w ∧ w - r ≤ num ∧
    rear (shared c) = w mod (num + 1) ∧ front (shared c) = r mod (num + 1) ∧
    (∀ j, r ≤ j < w → holds sz (shared c) (j mod (num + 1)) (line lines j)) ∧
    read (shared c) = reports lines r ++ part ∧ part `prefix_of` report lines r ∧
    (reading rp = true → writing wp = true → front (shared c) ≠ rear (shared c)).
Proof.
  intros Hnum Hsz Hne Hk Hs Hm Hts Hr.
  pose proof (shm_reach sz num lines Hnum Hsz Hne Hk Hs _ _ (shm_start sz num lines Hnum m Hm Hts) Hr) as HI.
  split; [by eapply shm_no_fault|]. destruct HI as (w & r & rp & wp & E & HI).
  destruct (read_reports sz num lines w r rp wp _ HI) as (part & Hp & Hpre).
  pose proof (q_bound _ _ _ _ _ _ _ _ HI) as Hb. exists w, r, rp, wp, part. split_and!; try done; try lia.
  - apply HI.
  - apply HI.
  - intros j Hj. apply (q_slots _ _ _ _ _ _ _ _ HI); lia.
  - by eapply no_race.
Qed.

(** [C36] No text is lost and both processes end: when line [e] is the first that
    starts with "end", the processes can always go on until both have ended;
    then the reader has printed the lines up to it in their order, and the
    writer has listed, for each of them, texts that end with it, not more than
    the number it has printed and at most [TEXT_NUM]. *)
Theorem queue_completes sz num lines m c e :
  1 ≤ num → 0 < sz → Forall keyed lines → Forall (λ l, zlen l < sz) lines →
  zlen m = num + 1 → Forall (λ t, zlen t = sz) m →
  0 ≤ e < zlen lines → is_end (line lines e) = true → (∀ j, 0 ≤ j < e → is_end (line lines j) = false) →
  rtc (runs_step (shm_step sz num)) (shmcon m (concat lines)) c →
  ∃ c', rtc (runs_step (shm_step sz num)) c c' ∧ threads c' = [R_done; W_done] ∧
    read (shared c') = concat ((λ l, You_wrote :: chars l) <$> take (Z.to_nat (e + 1)) lines) ∧
    shown num lines (e + 1) (written (shared c')).
Proof.
  intros Hnum Hsz Hk Hs Hm Hts He Hend Hbefore Hr. assert (lines ≠ []) as Hne by (intros ->; unfold zlen in He; cbn in He; lia).
  pose proof (shm_reach sz num lines Hnum Hsz Hne Hk Hs _ _ (shm_start sz num lines Hnum m Hm Hts) Hr) as HI.
  destruct c as [ts s]. destruct HI as (w & r & rp & wp & E & HI). cbn in E, HI. subst ts.
  destruct (shm_completes sz num lines Hnum Hsz Hne Hk Hs e ltac:(lia) Hend _ w r rp wp s HI
    (Z2Nat_lt_succ _)) as (c' & Hr' & Hd & HI').
  destruct (done_printed sz num lines e ltac:(lia) Hend Hbefore c' Hd HI') as [Hread Hshown].
  exists c'. split_and!; try done. rewrite Hread. by apply reports_lines.
Qed.

(** ** At concrete inputs *)

Definition ex_lines : list (list Z) := [[104; 105; 10]; [101; 110; 100; 10]; [120; 10]].

Lemma ex_keyed : Forall keyed ex_lines.
Proof.
  repeat constructor.
  - exists [104; 105]. split; [done|]. split; [by repeat constructor|done].
  - exists [101; 110; 100]. split; [done|]. split; [by repeat constructor|done].
  - exists [120]. split; [done|]. split; [by repeat constructor|done].
Qed.

(** A zeroed segment of the size of shmdata.h. *)
Definition ex_memory : list (list Z) := replicate (Z.to_nat (TEXT_NUM + 1)) (replicate (Z.to_nat TEXT_SIZE) 0).

Lemma ex_memory_len : zlen ex_memory = TEXT_NUM + 1.
Proof. unfold ex_memory, zlen. by rewrite length_replicate. Qed.

Lemma ex_memory_size : Forall (λ t, zlen t = TEXT_SIZE) ex_memory.
Proof.
  unfold ex_memory. apply Forall_replicate. unfold zlen. rewrite length_replicate. unfold TEXT_SIZE. lia.
Qed.

(** Texts of 5 bytes, a queue of 2: the writer puts "hi" and waits in the
    middle of the next text while the reader prints. *)
Definition small_memory : list (list Z) := replicate 3 (replicate 5 7).
Definition small_schedule : list nat := replicate 21 1%nat ++ replicate 4 0%nat.

Lemma queue_is_fifo_witness :
  (∃ c, exec (shm_step 5 2) small_schedule (shmcon small_memory (concat ex_lines)) = Ok c ∧
    threads c = [R_char 2; W_copy 1] ∧ read (shared c) = [You_wrote; Char 104; Char 105] ∧ front (shared c) ≠ rear (shared c)) ∧
  ¬ may_fault (shm_step TEXT_SIZE TEXT_NUM) (shmcon ex_memory (concat ex_lines)).
Proof.
  split.
  - assert (∃ c, exec (shm_step 5 2) small_schedule (shmcon small_memory (concat ex_lines)) = Ok c) as [c Hc] by (eexists; by vm_compute).
    destruct (queue_is_fifo 5 2 ex_lines small_memory c) as (_ & w & r & rp & wp & part & E & _ & _ & _ & _ & _ & _ & _ & Hrace);
      [lia|lia|discriminate|exact ex_keyed|by repeat constructor|reflexivity|by repeat constructor|exact (exec_runs _ _ _ _ Hc)|].
    exists c. split; [exact Hc|]. vm_compute in Hc. injection Hc as <-. split; [done|]. split; [done|].
    cbn in E. injection E as <- <-. by apply Hrace.
  - refine (proj1 (queue_is_fifo TEXT_SIZE TEXT_NUM ex_lines ex_memory _ _ _ _ _ _ _ _ _));
      [done|done|done|exact ex_keyed|by repeat constructor|exact ex_memory_len|exact ex_memory_size|apply rtc_refl].
Defined.

Lemma queue_completes_witness :
  ∃ c, rtc (runs_step (shm_step TEXT_SIZE TEXT_NUM)) (shmcon ex_memory (concat ex_lines)) c ∧
    threads c = [R_done; W_done] ∧
    read (shared c) = [You_wrote; Char 104; Char 105; Char 10; You_wrote; Char 101; Char 110; Char 100; Char 10].
Proof.
  destruct (queue_completes TEXT_SIZE TEXT_NUM ex_lines ex_memory (shmcon ex_memory (concat ex_lines)) 1) as (c & Hr & Ht & Hread & _);
    [done|done|exact ex_keyed|by repeat constructor|exact ex_memory_len|exact ex_memory_size|done|done| |apply rtc_refl|].
  - intros j Hj. by replace j with 0 by lia.
  - exists c. split; [exact Hr|]. split; [exact Ht|]. exact Hread.
Defined.

(** ** Outside the hypotheses *)

(** A line that does not fit leaves its text without a NUL: the writer's own
    listing reads behind it. *)
Lemma long_line_faults :
  exec (shm_step 5 2) (replicate 20 1%nat) (shmcon small_memory [97; 97; 97; 97; 97; 97; 10]) = Err Undef.
Proof. by vm_compute. Qed.

(** At the end of the input without "end" the last line is put again. *)
Lemma input_end_repeats :
  (λ c, read (shared c)) <$> exec (shm_step 5 2) (replicate 60 1%nat ++ replicate 30 0%nat) (shmcon small_memory [97; 10])
  = Ok [You_wrote; Char 97; Char 10; You_wrote; Char 97; Char 10].
Proof. by vm_compute. Qed.

(** No input at all: the buffer is copied before it is set. *)
Lemma no_input_faults : exec (shm_step 5 2) (replicate 3 1%nat) (shmcon small_memory []) = Err Undef.
Proof. by vm_compute. Qed.

(** The reader may take a text between the number and the listing. *)
Lemma listing_shorter :
  (λ c, written (shared c)) <$>
    exec (shm_step 5 2) (replicate 25 1%nat ++ replicate 9 0%nat ++ replicate 5 1%nat)
      (shmcon small_memory [97; 10; 98; 10])
  = Ok [Prompt; Count 1; Char 97; Char 10; Prompt; Count 2; Char 98; Char 10].
Proof. by vm_compute. Qed.
