(* ===== verification/Trap.v ===== *)
(** * trap.c, clock.c, panic.c: interrupts of the kernel

    Models src/Labweek11/lab2/kern/trap/trap.c and trap.h, kern/driver/clock.c,
    kern/driver/intr.c and kern/debug/panic.c.  The entry points [__vectors] are
    in a file that the build generates; they are an argument of [idt_init].  The
    texts of the formats are in the memory at the addresses of [trap_texts].
    What follows a panic is the monitor, whose loop never ends: a trap that
    panics does not return, and its result is the state in front of that loop. *)

From stdpp Require Import base list numbers.
From S2P Require Import Prelude Mem CString Printfmt Mmu PmmInit Console Stdio Stab.

(** ** Constants *)

Definition TICK_NUM : Z := 100.
Definition T_SWITCH_TOU : Z := 120.
Definition T_SWITCH_TOK : Z := 121.
Definition IRQ_TIMER : Z := 0.
Definition IRQ_IDE1 : Z := 14.
Definition IRQ_IDE2 : Z := 15.
Definition FL_IOPL_MASK : Z := 0x3000.
Definition GD_UTEXT : Z := Z.shiftl SEG_UTEXT 3.
Definition USER_CS : Z := Z.lor GD_UTEXT DPL_USER.
Definition IO_TIMER1 : Z := 0x040.
Definition TIMER_FREQ : Z := 1193182.
Definition TIMER_DIV (x : Z) : Z := Z.quot (TIMER_FREQ + Z.quot x 2) x.
Definition TIMER_MODE : Z := IO_TIMER1 + 3.
Definition TIMER_SEL0 : Z := 0x00.
Definition TIMER_RATEGEN : Z := 0x04.
Definition TIMER_16BIT : Z := 0x30.

(** ** Frames *)

Record pushregs := Regs {
  reg_edi : Z; reg_esi : Z; reg_ebp : Z; reg_oesp : Z; reg_ebx : Z; reg_edx : Z; reg_ecx : Z; reg_eax : Z
}.

(** The padding is left out. *)
Record trapframe := Trapframe {
  tf_regs : pushregs;
  tf_gs : Z; tf_fs : Z; tf_es : Z; tf_ds : Z;
  tf_trapno : Z; tf_err : Z; tf_eip : Z; tf_cs : Z; tf_eflags : Z; tf_esp : Z; tf_ss : Z
}.

(** The assignments to [tf_cs], [tf_ds], [tf_es], [tf_ss] and [tf_eflags]. *)
Definition set_segments (cs ds es ss eflags : Z) (tf : trapframe) : trapframe :=
  Trapframe (tf_regs tf) (tf_gs tf) (tf_fs tf) es ds (tf_trapno tf) (tf_err tf) (tf_eip tf) cs eflags (tf_esp tf) ss.

(** ** Texts *)

Record trap_texts := TrapTexts {
  fmt_ticks : Z;
  fmt_timer : Z;
  excnames : list Z; hardware_interrupt : Z; unknown_trap : Z;
  IA32flags : list Z;
  fmt_trapframe : Z; fmt_ds : Z; fmt_es : Z; fmt_fs : Z; fmt_gs : Z; fmt_trap : Z; fmt_err : Z; fmt_eip : Z;
  fmt_cs : Z; fmt_flag : Z; fmt_flag_name : Z; fmt_iopl : Z; fmt_esp : Z; fmt_ss : Z;
  fmt_edi : Z; fmt_esi : Z; fmt_ebp : Z; fmt_oesp : Z; fmt_ebx : Z; fmt_edx : Z; fmt_ecx : Z; fmt_eax : Z;
  fmt_serial : Z;
  fmt_kbd : Z;
  trap_file : Z; trap_line : Z; unexpected_trap : Z;
  fmt_panic : Z; fmt_trackback : Z; fmt_nl : Z; fmt_warning : Z
}.

Section trap.
Context {D : Type} `{PortIO D} (lits : literals) (xt : trap_texts).
(** What the trace of the stack needs: the stabs and their texts, the array for
    a name, and the registers [ebp] and [eip]. *)
Context (stabs : list stab) (tx : texts) (fnname ebp eip : Z).

(** The static variables, the descriptor tables, the memory and the console. *)
Record kernel := Kernel {
  idt : list gatedesc;
  idtr : Z * Z;
  ticks : Z;
  is_panic : bool;
  io : mem * console D
}.

Definition set_idt (t : list gatedesc) (k : kernel) := Kernel t (idtr k) (ticks k) (is_panic k) (io k).
Definition lidt (pd : Z * Z) (k : kernel) := Kernel (idt k) pd (ticks k) (is_panic k) (io k).
Definition set_ticks (v : Z) (k : kernel) := Kernel (idt k) (idtr k) v (is_panic k) (io k).
Definition set_is_panic (k : kernel) := Kernel (idt k) (idtr k) (ticks k) true (io k).
Definition set_io (s : mem * console D) (k : kernel) := Kernel (idt k) (idtr k) (ticks k) (is_panic k) s.

Definition kprintf (fmt : Z) (args : list Z) (k : kernel) : outcome kernel :=
  r ← cprintf lits fmt args (io k); Ok (set_io r.2 k).

(** ** panic.c and intr.c *)

Definition intr_enable (k : kernel) : kernel := set_io ((io k).1, set_intr true (io k).2) k.
Definition intr_disable (k : kernel) : kernel := set_io ((io k).1, set_intr false (io k).2) k.

(** Up to the loop around [kmonitor]. *)
Definition __panic (file line fmt : Z) (ap : list Z) (k : kernel) : outcome kernel :=
  k ← (if is_panic k then Ok k
       else
         let k := set_is_panic k in
         k ← kprintf (fmt_panic xt) [file; line] k;
         r ← vcprintf lits fmt ap (io k);
         k ← kprintf (fmt_nl xt) [] (set_io r.2 k);
         k ← kprintf (fmt_trackback xt) [] k;
         s ← print_stackframe stabs tx lits fnname ebp eip (io k);
         Ok (set_io s k));
  Ok (intr_disable k).

Definition __warn (file line fmt : Z) (ap : list Z) (k : kernel) : outcome kernel :=
  k ← kprintf (fmt_warning xt) [file; line] k;
  r ← vcprintf lits fmt ap (io k);
  kprintf (fmt_nl xt) [] (set_io r.2 k).

Definition is_kernel_panic (k : kernel) : bool := is_panic k.

(** ** clock.c *)

Definition clock_init (k : kernel) : outcome kernel :=
  let con := (io k).2 in
  let con := outb TIMER_MODE (Z.lor (Z.lor TIMER_SEL0 TIMER_RATEGEN) TIMER_16BIT) con in
  let con := outb IO_TIMER1 (Z.rem (TIMER_DIV 100) 256) con in
  let con := outb IO_TIMER1 (Z.quot (TIMER_DIV 100) 256) con in
  k ← kprintf (fmt_timer xt) [] (set_ticks 0 (set_io ((io k).1, con) k));
  Ok (set_io ((io k).1, pic_enable IRQ_TIMER (io k).2) k).

(** ** trap.c *)

Definition print_ticks (k : kernel) : outcome kernel := kprintf (fmt_ticks xt) [TICK_NUM] k.

(** [idt_addr] is the address of [idt], [vectors] the array [__vectors]. *)
Definition idt_init (vectors : list Z) (idt_addr : Z) (k : kernel) : outcome kernel :=
  let idt_size := zlen (idt k) in
  t ← for_range 0 idt_size (λ i t, v ← aget vectors i; aset t i (SETGATE false GD_KTEXT v DPL_KERNEL)) (idt k);
  v ← aget vectors T_SWITCH_TOK;
  t ← aset t T_SWITCH_TOK (SETGATE false GD_KTEXT v DPL_USER);
  Ok (lidt (8 * idt_size - 1, idt_addr) (set_idt t k)).

(** [trapno] is an [int]; the first comparison is one of unsigned numbers. *)
Definition trapname (trapno : Z) : outcome Z :=
  if u32 trapno <? zlen (excnames xt) then aget (excnames xt) trapno
  else if (IRQ_OFFSET <=? trapno) && (trapno <? IRQ_OFFSET + 16) then Ok (hardware_interrupt xt)
  else Ok (unknown_trap xt).

Definition trap_in_kernel (tf : trapframe) : bool := tf_cs tf =? u16 KERNEL_CS.

(** Calls of [cprintf] one after the other. *)
Definition print_all (l : list (Z * list Z)) (k : kernel) : outcome kernel :=
  mfold (λ '(fmt, args) k, kprintf fmt args k) l k.

Definition print_regs (r : pushregs) (k : kernel) : outcome kernel :=
  print_all [(fmt_edi xt, [reg_edi r]); (fmt_esi xt, [reg_esi r]); (fmt_ebp xt, [reg_ebp r]); (fmt_oesp xt, [reg_oesp r]);
             (fmt_ebx xt, [reg_ebx r]); (fmt_edx xt, [reg_edx r]); (fmt_ecx xt, [reg_ecx r]); (fmt_eax xt, [reg_eax r])] k.

(** The names of the flags that are set; the bit is [1 << i]. *)
Definition print_flags (eflags : Z) (k : kernel) : outcome kernel :=
  for_range 0 (zlen (IA32flags xt)) (λ i k,
    name ← aget (IA32flags xt) i;
    if negb (Z.land eflags (Z.shiftl 1 i) =? 0) && negb (name =? NULL) then kprintf (fmt_flag_name xt) [name] k
    else Ok k) k.

(** [tf_addr] is the address of the frame. *)
Definition print_trapframe (tf_addr : Z) (tf : trapframe) (k : kernel) : outcome kernel :=
  k ← print_all [(fmt_trapframe xt, [tf_addr])] k;
  k ← print_regs (tf_regs tf) k;
  name ← trapname (s32 (tf_trapno tf));
  k ← print_all [(fmt_ds xt, [tf_ds tf]); (fmt_es xt, [tf_es tf]); (fmt_fs xt, [tf_fs tf]); (fmt_gs xt, [tf_gs tf]);
                 (fmt_trap xt, [tf_trapno tf; name]); (fmt_err xt, [tf_err tf]); (fmt_eip xt, [tf_eip tf]);
                 (fmt_cs xt, [tf_cs tf]); (fmt_flag xt, [tf_eflags tf])] k;
  k ← print_flags (tf_eflags tf) k;
  k ← kprintf (fmt_iopl xt) [Z.shiftr (Z.land (tf_eflags tf) FL_IOPL_MASK) 12] k;
  if negb (trap_in_kernel tf) then print_all [(fmt_esp xt, [tf_esp tf]); (fmt_ss xt, [tf_ss tf])] k else Ok k.

(** The trap returns with the frame, or the kernel has panicked. *)
Inductive trap_result :=
| Returned (tf : trapframe) (k : kernel)
| Panicked (k : kernel).

(** [c = cons_getc(); cprintf(fmt, c, c);] *)
Definition show_char (fuel : nat) (fmt : Z) (k : kernel) : outcome kernel :=
  r ← cons_getc fuel (io k).2;
  let c := u32 (schar (u8 r.1)) in
  kprintf fmt [c; c] (set_io ((io k).1, r.2) k).

Definition trap_dispatch (fuel : nat) (tf_addr : Z) (tf : trapframe) (k : kernel) : outcome trap_result :=
  let n := tf_trapno tf in
  if n =? IRQ_OFFSET + IRQ_TIMER then
    let k := set_ticks (u32 (ticks k + 1)) k in
    k ← (if Z.rem (ticks k) TICK_NUM =? 0 then k ← print_ticks k; Ok (set_ticks 0 k) else Ok k);
    Ok (Returned tf k)
  else if n =? IRQ_OFFSET + IRQ_COM1 then k ← show_char fuel (fmt_serial xt) k; Ok (Returned tf k)
  else if n =? IRQ_OFFSET + IRQ_KBD then k ← show_char fuel (fmt_kbd xt) k; Ok (Returned tf k)
  else if n =? T_SWITCH_TOU then
    Ok (Returned (if negb (tf_cs tf =? USER_CS)
                  then set_segments USER_CS USER_DS USER_DS USER_DS (Z.lor (tf_eflags tf) FL_IOPL_MASK) tf else tf) k)
  else if n =? T_SWITCH_TOK then
    Ok (Returned (if negb (tf_cs tf =? KERNEL_CS)
                  then set_segments KERNEL_CS KERNEL_DS KERNEL_DS (tf_ss tf) (Z.lor (tf_eflags tf) 0x3000) tf else tf) k)
  else if (n =? IRQ_OFFSET + IRQ_IDE1) || (n =? IRQ_OFFSET + IRQ_IDE2) then Ok (Returned tf k)
  else if Z.land (tf_cs tf) 3 =? 0 then
    k ← print_trapframe tf_addr tf k;
    k ← __panic (trap_file xt) (trap_line xt) (unexpected_trap xt) [] k;
    Ok (Panicked k)
  else Ok (Returned tf k).

Definition trap (fuel : nat) (tf_addr : Z) (tf : trapframe) (k : kernel) : outcome trap_result :=
  trap_dispatch fuel tf_addr tf k.
End trap.
Arguments kernel : clear implicits.
Arguments trap_result : clear implicits.
