(* ===== verification/TrapProps.v ===== *)
(** * Interrupts of the kernel: gates, dispatch and the clock

    Properties of Trap.v, on the console of ConsoleSpec.v: what a trap prints is
    drawn on the terminal, what it reads is the queue of the console. *)

From stdpp Require Import base list numbers.
From S2P Require Import Prelude Mem CString Printfmt Mmu PmmInit Console Stdio ConsoleOut ConsoleIn ConsoleSpec Stab Trap.

(** ** The gates *)

Lemma gate_fields v dpl :
  0 ≤ v < 2 ^ 32 → 0 ≤ dpl < 4 →
  let g := SETGATE false GD_KTEXT v dpl in
  gate_offset g = v ∧ gd_ss g = GD_KTEXT ∧ gd_type g = STS_IG32 ∧ gd_dpl g = dpl ∧ gd_p g = 1.
Proof.
  intros Hv Hd. cbn zeta. split_and!; try done.
  - unfold gate_offset, SETGATE. cbn [gd_off_15_0 gd_off_31_16]. unfold bits.
    change 0xffff with (Z.ones 16). rewrite Z.land_ones, Z.shiftr_div_pow2 by lia.
    rewrite Zmod_mod. rewrite (Z.mod_small (v / 2 ^ 16)).
    + pose proof (Z.div_mod v (2 ^ 16) ltac:(lia)). lia.
    + split; [apply Z.div_pos; lia|apply Z.div_lt_upper_bound; lia].
  - cbn. unfold bits. by apply Z.mod_small.
Qed.

Section gates.
Context {D : Type} `{PortIO D}.
Implicit Types (k : kernel D).

(** [idt_init] up to entry [i]. *)
Definition gates_upto (vectors : list Z) (i : Z) (t : list gatedesc) : Prop :=
  zlen t = 256 ∧ ∀ j, 0 ≤ j < i → ∃ v, aget vectors j = Ok v ∧ aget t j = Ok (SETGATE false GD_KTEXT v DPL_KERNEL).

Lemma idt_init_entries vectors a k :
  zlen (idt k) = 256 → zlen vectors = 256 →
  ∃ t, idt_init vectors a k = Ok (lidt (2047, a) (set_idt t k)) ∧ zlen t = 256 ∧
    ∀ i, 0 ≤ i < 256 → ∃ v, aget vectors i = Ok v ∧
      aget t i = Ok (SETGATE false GD_KTEXT v (if decide (i = T_SWITCH_TOK) then DPL_USER else DPL_KERNEL)).
Proof.
  intros Hk Hv. unfold idt_init. rewrite Hk.
  destruct (for_range_spec (gates_upto vectors) (λ i t, v ← aget vectors i; aset t i (SETGATE false GD_KTEXT v DPL_KERNEL)) 0 256 (idt k))
    as (t & -> & Hl & Hg); [lia|split; [done|lia]| |].
  { intros i t Hi [Hl Hg]. destruct (aget_in_range vectors i) as (v & Hvi & _); [lia|]. rewrite Hvi. cbn [mbind outcome_bind].
    rewrite aset_Ok by lia. eexists. split; [done|]. split; [by rewrite zlen_insert|]. intros j Hj.
    rewrite aget_insert by lia. case_decide; [subst; eauto|]. apply Hg. lia. }
  cbn [mbind outcome_bind]. destruct (aget_in_range vectors T_SWITCH_TOK) as (v & Hvi & _); [unfold T_SWITCH_TOK; lia|].
  rewrite Hvi. cbn [mbind outcome_bind]. rewrite aset_Ok by (unfold T_SWITCH_TOK; lia). cbn [mbind outcome_bind].
  eexists. split; [done|]. split; [by rewrite zlen_insert|]. intros i Hi. rewrite aget_insert by (unfold T_SWITCH_TOK; lia).
  case_decide; [subst; eauto|]. by apply Hg.
Qed.
End gates.

(** ** What a trap does *)

(** The frame with which a trap returns. *)
Definition switched (tf : trapframe) : trapframe :=
  if decide (tf_trapno tf = T_SWITCH_TOU ∧ tf_cs tf ≠ USER_CS) then
    Trapframe (tf_regs tf) (tf_gs tf) (tf_fs tf) USER_DS USER_DS (tf_trapno tf) (tf_err tf) (tf_eip tf) USER_CS
      (Z.lor (tf_eflags tf) 0x3000) (tf_esp tf) USER_DS
  else if decide (tf_trapno tf = T_SWITCH_TOK ∧ tf_cs tf ≠ KERNEL_CS) then
    Trapframe (tf_regs tf) (tf_gs tf) (tf_fs tf) KERNEL_DS KERNEL_DS (tf_trapno tf) (tf_err tf) (tf_eip tf) KERNEL_CS
      (Z.lor (tf_eflags tf) 0x3000) (tf_esp tf) (tf_ss tf)
  else tf.

(** The numbers that [trap_dispatch] knows. *)
Definition known (n : Z) : Prop := n ∈ [32; 36; 33; 120; 121; 46; 47].

#[global] Instance known_dec n : Decision (known n).
Proof. unfold known. apply _. Defined.

Section trap.
Context {D : Type} `{InputLaws D} (lits : literals) (xt : trap_texts) (stabs : list stab) (tx : texts) (fnname ebp eip : Z).
Implicit Types (k : kernel D).

(** The texts in the memory: the message of the clock, and what is printed for
    a character. *)
Record texts_ready (m : mem) (ticks_msg : list Z) (serial_msg kbd_msg : Z → list Z) : Prop := {
  t_ticks : text lits m (fmt_ticks xt) [TICK_NUM] = Ok ticks_msg;
  t_serial : ∀ c, -128 ≤ c < 128 → text lits m (fmt_serial xt) [u32 c; u32 c] = Ok (serial_msg c);
  t_kbd : ∀ c, -128 ≤ c < 128 → text lits m (fmt_kbd xt) [u32 c; u32 c] = Ok (kbd_msg c)
}.

(** The kernel with this memory, this picture on the terminal and the input [q];
    [s] is the shift state behind it. *)
Definition running (fuel : nat) (m : mem) (t : term) (q : list Z) (s : Z) (k : kernel D) : Prop :=
  (io k).1 = m ∧ shows (io k).2 t ∧ avail fuel q s (io k).2 ∧ 0 ≤ ticks k < TICK_NUM.

(** Tables and panic flag are kept. *)
Definition same_tables k k' : Prop := idt k' = idt k ∧ idtr k' = idtr k ∧ is_panic k' = is_panic k.

Lemma kprintf_running fuel m t q s k fmt args l :
  running fuel m t q s k → text lits m fmt args = Ok l →
  ∃ k', kprintf lits fmt args k = Ok k' ∧ running fuel m (term_text l t) q s k' ∧ same_tables k k' ∧ ticks k' = ticks k.
Proof.
  intros (Hm & Hs & Ha & Ht) Hl. unfold kprintf. destruct (io k) as [m' con] eqn:E. cbn [fst snd] in *. subst m'.
  destruct (cprintf_printed lits m fmt args con t l Hl Hs) as (con' & -> & Hk & Hs').
  eexists. split; [done|]. split; [|done]. split; [done|]. split; [done|]. split; [|done].
  by eapply avail_kept.
Qed.

Lemma cons_getc_avail fuel q s (con : console D) t :
  avail fuel q s con → shows con t →
  ∃ con', cons_getc fuel con = Ok ((dequeue q).1, con') ∧ avail fuel (dequeue q).2 s con' ∧ shows con' t.
Proof.
  intros (Hok & Hf & l & Hl & Hfl & Hq) Hs.
  destruct (cons_getc_spec fuel con l s Hok Hl Hf Hfl) as (con' & -> & Hp & Hok' & Hfix & Hh & Hk & Hser).
  rewrite Hq in *. eexists. split; [done|]. split; [|by eapply fixed_shows].
  split; [done|]. split.
  - rewrite Hser. destruct (serial_exists con); simpl; lia.
  - exists []. split; [by rewrite Hk, Hh|]. split; [simpl; lia|]. rewrite Hp. unfold ser_input.
    assert (serial_exists con' = serial_exists con) as -> by (unfold fixed in Hfix; congruence).
    rewrite Hser. by destruct (serial_exists con).
Qed.

(** The character that a trap takes from the input: 0 if there is none. *)
Definition next_char (q : list Z) : Z := schar (u8 (dequeue q).1).

Lemma next_char_range q : -128 ≤ next_char q < 128.
Proof.
  unfold next_char, schar. assert (0 ≤ u8 (dequeue q).1 < 256) by (apply Z.mod_pos_bound; lia).
  destruct (Z.ltb_spec (u8 (dequeue q).1) 128); lia.
Qed.

Lemma show_char_running fuel m t q s k fmt (msg : Z → list Z) :
  running fuel m t q s k → (∀ c, -128 ≤ c < 128 → text lits m fmt [u32 c; u32 c] = Ok (msg c)) →
  ∃ k', show_char lits fuel fmt k = Ok k' ∧ running fuel m (term_text (msg (next_char q)) t) (dequeue q).2 s k' ∧
    same_tables k k' ∧ ticks k' = ticks k.
Proof.
  intros (Hm & Hs & Ha & Ht) Hmsg. unfold show_char.
  destruct (cons_getc_avail fuel q s (io k).2 t Ha Hs) as (con' & -> & Ha' & Hs'). cbn [mbind outcome_bind fst snd].
  destruct (kprintf_running fuel m t (dequeue q).2 s (set_io ((io k).1, con') k) fmt [u32 (next_char q); u32 (next_char q)] (msg (next_char q)))
    as (k' & E & Hr & Hst & Htk); [done|apply Hmsg, next_char_range|].
  exists k'. by split_and!.
Qed.

(** What a trap with number [n] does to the clock, the screen and the input. *)
Definition ticks_after (n v : Z) : Z := if decide (n = 32) then (v + 1) mod TICK_NUM else v.

Definition shown_by (ticks_msg : list Z) (serial_msg kbd_msg : Z → list Z) (n v : Z) (q : list Z) : list Z :=
  if decide (n = 32) then (if decide (v + 1 = TICK_NUM) then ticks_msg else [])
  else if decide (n = 36) then serial_msg (next_char q)
  else if decide (n = 33) then kbd_msg (next_char q)
  else [].

Definition input_after (n : Z) (q : list Z) : list Z :=
  if decide (n = 36 ∨ n = 33) then (dequeue q).2 else q.

Lemma trap_timer fuel a m t q s k ticks_msg tf :
  running fuel m t q s k → text lits m (fmt_ticks xt) [TICK_NUM] = Ok ticks_msg → tf_trapno tf = 32 →
  ∃ k', trap lits xt stabs tx fnname ebp eip fuel a tf k = Ok (Returned tf k') ∧
    running fuel m (term_text (if decide (ticks k + 1 = TICK_NUM) then ticks_msg else []) t) q s k' ∧
    same_tables k k' ∧ ticks k' = (ticks k + 1) mod TICK_NUM.
Proof.
  intros Hr Hmsg Hn. pose proof Hr as (Hm & Hs & Ha & Ht). unfold trap, trap_dispatch. rewrite Hn.
  change (32 =? IRQ_OFFSET + IRQ_TIMER) with true. cbn iota. cbn zeta. cbn [ticks set_ticks].
  unfold TICK_NUM in *. assert (u32 (ticks k + 1) = ticks k + 1) as -> by (apply Z.mod_small; lia).
  rewrite Z.rem_mod_nonneg by lia. destruct (decide (ticks k + 1 = 100)) as [E|E].
  - rewrite E. change (100 mod 100 =? 0) with true. cbn iota.
    destruct (kprintf_running fuel m t q s k (fmt_ticks xt) [100] ticks_msg Hr Hmsg) as (k' & Hk & Hr' & Hst & Htk).
    unfold print_ticks. change (kprintf lits (fmt_ticks xt) [TICK_NUM] (set_ticks 100 k))
      with (r ← cprintf lits (fmt_ticks xt) [100] (io k); Ok (set_io r.2 (set_ticks 100 k))).
    unfold kprintf in Hk. apply bind_Ok in Hk as (r & Hc & [= <-]). rewrite Hc. cbn [mbind outcome_bind].
    eexists. split; [done|]. destruct Hr' as (? & ? & ? & ?). split; [|done]. split; [done|]. split; [done|]. split; [done|unfold TICK_NUM; cbn; lia].
  - rewrite (Z.mod_small (ticks k + 1)) by lia. rewrite (proj2 (Z.eqb_neq (ticks k + 1) 0)) by lia. cbn [mbind outcome_bind].
    eexists. split; [done|]. split; [|done]. split; [done|]. split; [done|]. split; [done|unfold TICK_NUM; cbn; lia].
Qed.

Lemma trap_handled fuel a m t q s k ticks_msg serial_msg kbd_msg tf :
  running fuel m t q s k → texts_ready m ticks_msg serial_msg kbd_msg → known (tf_trapno tf) ∨ Z.land (tf_cs tf) 3 ≠ 0 →
  ∃ k', trap lits xt stabs tx fnname ebp eip fuel a tf k = Ok (Returned (switched tf) k') ∧
    running fuel m (term_text (shown_by ticks_msg serial_msg kbd_msg (tf_trapno tf) (ticks k) q) t)
      (input_after (tf_trapno tf) q) s k' ∧
    same_tables k k' ∧ ticks k' = ticks_after (tf_trapno tf) (ticks k).
Proof.
  intros Hr Hx Hn. unfold shown_by, input_after, ticks_after, switched.
  destruct (decide (tf_trapno tf = 32)) as [E|N32].
  { destruct (trap_timer fuel a m t q s k ticks_msg tf Hr (t_ticks _ _ _ _ Hx) E) as (k' & Ek & H1 & H2 & H3).
    exists k'. rewrite E. rewrite !decide_False by (unfold T_SWITCH_TOU, T_SWITCH_TOK; lia). by rewrite Ek. }
  unfold trap, trap_dispatch. rewrite (proj2 (Z.eqb_neq _ (IRQ_OFFSET + IRQ_TIMER)) N32).
  destruct (decide (tf_trapno tf = 36)) as [E|N36].
  { destruct (show_char_running fuel m t q s k (fmt_serial xt) serial_msg Hr (t_serial _ _ _ _ Hx)) as (k' & Ek & H1 & H2 & H3).
    exists k'. rewrite E, Ek. rewrite (decide_True (P := _ ∨ _)) by auto. by rewrite !decide_False by (unfold T_SWITCH_TOU, T_SWITCH_TOK; lia). }
  rewrite (proj2 (Z.eqb_neq _ (IRQ_OFFSET + IRQ_COM1)) N36).
  destruct (decide (tf_trapno tf = 33)) as [E|N33].
  { destruct (show_char_running fuel m t q s k (fmt_kbd xt) kbd_msg Hr (t_kbd _ _ _ _ Hx)) as (k' & Ek & H1 & H2 & H3).
    exists k'. rewrite E, Ek. rewrite (decide_True (P := _ ∨ _)) by auto. by rewrite !decide_False by (unfold T_SWITCH_TOU, T_SWITCH_TOK; lia). }
  rewrite (proj2 (Z.eqb_neq _ (IRQ_OFFSET + IRQ_KBD)) N33). rewrite (decide_False (P := _ ∨ _)) by tauto. exists k.
  assert (∀ tf', tf' = switched tf → ∃ k', Ok (Returned tf' k) = Ok (Returned (switched tf) k') ∧ k' = k) as Hret by (intros ? ->; eauto).
  destruct (Z.eqb_spec (tf_trapno tf) T_SWITCH_TOU) as [E|Ntou]; [|destruct (Z.eqb_spec (tf_trapno tf) T_SWITCH_TOK) as [E|Ntok]].
  - split; [|done]. destruct (Z.eqb_spec (tf_cs tf) USER_CS) as [Ec|Ec]; cbn [negb].
    + by rewrite !decide_False by (rewrite E; intros [? ?]; done).
    + by rewrite decide_True by done.
  - split; [|done]. rewrite (decide_False (P := tf_trapno tf = T_SWITCH_TOU ∧ _)) by (rewrite E; by intros [? _]).
    destruct (Z.eqb_spec (tf_cs tf) KERNEL_CS) as [Ec|Ec]; cbn [negb].
    + by rewrite decide_False by (intros [_ ?]; done).
    + by rewrite decide_True by done.
  - split; [|done]. rewrite !decide_False by (intros [? _]; done).
    destruct (Z.eqb_spec (tf_trapno tf) (IRQ_OFFSET + IRQ_IDE1)) as [|N14]; [done|].
    destruct (Z.eqb_spec (tf_trapno tf) (IRQ_OFFSET + IRQ_IDE2)) as [|N15]; [done|]. cbn [orb].
    assert (Z.land (tf_cs tf) 3 ≠ 0) as Hcs.
    { destruct Hn as [Hk|]; [|done]. unfold known in Hk. rewrite !elem_of_cons, elem_of_nil in Hk.
      unfold T_SWITCH_TOU, T_SWITCH_TOK, IRQ_OFFSET, IRQ_IDE1, IRQ_IDE2 in *. lia. }
    by rewrite (proj2 (Z.eqb_neq _ 0) Hcs).
Qed.

(** ** Unknown traps of the kernel *)

Lemma kprintf_panic fmt args k k' : kprintf lits fmt args k = Ok k' → is_panic k' = is_panic k.
Proof. unfold kprintf. by intros (r & _ & [= <-])%bind_Ok. Qed.

Lemma panic_stops file line fmt ap k k' :
  __panic lits xt stabs tx fnname ebp eip file line fmt ap k = Ok k' → is_panic k' = true ∧ intr_flag (io k').2 = false.
Proof.
  unfold __panic. intros (k1 & Hk & [= <-])%bind_Ok. split; [|done]. cbn. destruct (is_panic k) eqn:E; [by injection Hk as <-|].
  apply bind_Ok in Hk as (k2 & H2%kprintf_panic & Hk). apply bind_Ok in Hk as (r & _ & Hk).
  apply bind_Ok in Hk as (k3 & H3%kprintf_panic & Hk). apply bind_Ok in Hk as (k4 & H4%kprintf_panic & Hk).
  apply bind_Ok in Hk as (s & _ & [= <-]). cbn in *. congruence.
Qed.

Lemma trap_unknown fuel a tf k r :
  ¬ known (tf_trapno tf) → Z.land (tf_cs tf) 3 = 0 →
  trap lits xt stabs tx fnname ebp eip fuel a tf k = Ok r → ∃ k', r = Panicked k' ∧ is_panic k' = true ∧ intr_flag (io k').2 = false.
Proof.
  intros Hn Hcs. unfold known in Hn. rewrite !elem_of_cons, elem_of_nil in Hn. unfold trap, trap_dispatch.
  unfold IRQ_OFFSET, IRQ_TIMER, IRQ_COM1, IRQ_KBD, IRQ_IDE1, IRQ_IDE2, T_SWITCH_TOU, T_SWITCH_TOK.
  repeat (rewrite (proj2 (Z.eqb_neq (tf_trapno tf) _)); [|lia]). cbn [orb]. rewrite Hcs. cbn [Z.eqb].
  intros (k1 & _ & Hr)%bind_Ok. apply bind_Ok in Hr as (k2 & Hp & [= <-]). exists k2. split; [done|]. by eapply panic_stops.
Qed.

(** ** Traps one after the other *)

(** A list of traps, each with the address of its frame; a panic ends it. *)
Definition deliver (fuel : nat) (l : list (Z * trapframe)) (k : kernel D) : outcome (kernel D) :=
  mfold (λ '(a, tf) k,
    r ← trap lits xt stabs tx fnname ebp eip fuel a tf k;
    match r with Returned _ k => Ok k | Panicked _ => Err Panic end) l k.

Lemma ticks_split v n : 0 ≤ v < TICK_NUM → 0 ≤ n →
  (v + 1 + n) / TICK_NUM = (if decide (v + 1 = TICK_NUM) then 1 else 0) + ((v + 1) mod TICK_NUM + n) / TICK_NUM.
Proof.
  unfold TICK_NUM. intros Hv Hn. case_decide as E.
  - rewrite E. change (100 mod 100) with 0. replace (100 + n) with (n + 1 * 100) by lia. rewrite Z.div_add, Z.add_0_l by lia. lia.
  - rewrite (Z.mod_small (v + 1)) by lia. lia.
Qed.

(** Timer interrupts among which no other trap comes. *)
Lemma deliver_timer fuel m t q s k msg l :
  running fuel m t q s k → text lits m (fmt_ticks xt) [TICK_NUM] = Ok msg → Forall (λ x, tf_trapno x.2 = 32) l →
  ∃ k', deliver fuel l k = Ok k' ∧
    running fuel m (term_text (concat (replicate (Z.to_nat ((ticks k + zlen l) / TICK_NUM)) msg)) t) q s k' ∧
    same_tables k k' ∧ ticks k' = (ticks k + zlen l) mod TICK_NUM.
Proof.
  intros Hr Hmsg Hl. revert t k Hr. induction Hl as [|[a tf] l Hx Hl IH]; intros t k Hr.
  - pose proof Hr as (Hm & Hs & Ha & Ht). exists k. split; [done|]. change (zlen (@nil (Z * trapframe))) with 0. rewrite Z.add_0_r.
    rewrite Z.div_small, Z.mod_small by done. done.
  - destruct (trap_timer fuel a m t q s k msg tf Hr Hmsg Hx) as (k1 & E & Hr1 & Hst1 & Ht1).
    destruct (IH _ k1 Hr1) as (k2 & E2 & Hr2 & Hst2 & Ht2). exists k2. pose proof (zlen_nonneg l) as Hpos.
    pose proof Hr as (_ & _ & _ & Ht). assert (zlen ((a, tf) :: l) = 1 + zlen l) as Hlen by (unfold zlen; cbn [length]; lia).
    split; [unfold deliver in *; cbn [mfold]; rewrite E; cbn [mbind outcome_bind]; exact E2|]. rewrite Hlen, Z.add_assoc.
    split; [|split].
    + rewrite ticks_split by lia. rewrite <-Ht1. unfold term_text in *. rewrite <-foldl_app in Hr2.
      replace ((if decide (ticks k + 1 = TICK_NUM) then msg else []) ++ concat (replicate (Z.to_nat ((ticks k1 + zlen l) / TICK_NUM)) msg))
        with (concat (replicate (Z.to_nat ((if decide (ticks k + 1 = TICK_NUM) then 1 else 0) + (ticks k1 + zlen l) / TICK_NUM)) msg)) in Hr2; [done|].
      assert (0 ≤ (ticks k1 + zlen l) / TICK_NUM).
      { apply Z.div_pos; [|done]. rewrite Ht1. pose proof (Z.mod_pos_bound (ticks k + 1) TICK_NUM ltac:(done)). lia. }
      destruct (decide _); [|done]. by rewrite Z2Nat.inj_add by lia.
    + destruct Hst1 as (? & ? & ?), Hst2 as (? & ? & ?). split_and!; congruence.
    + rewrite Ht2, Ht1. by rewrite Zplus_mod_idemp_l.
Qed.
End trap.

(** ** What the kernel does *)

(** Gates: for every table of entry points [idt_init] ends, and every one of
    the 256 gates is a present interrupt gate to its own entry point in the code
    segment of the kernel; the processor is told the address of the table and
    its size.  User code (CPL 3) can raise exactly the number [T_SWITCH_TOK]
    with the instruction [int]: all other gates have the privilege level 0. *)
Theorem idt_init_gates {D} vectors a (k : kernel D) :
  zlen (idt k) = 256 → zlen vectors = 256 → Forall (λ v, 0 ≤ v < 2 ^ 32) vectors →
  ∃ k', idt_init vectors a k = Ok k' ∧ idtr k' = (8 * zlen (idt k') - 1, a) ∧ zlen (idt k') = 256 ∧ io k' = io k ∧
    ∀ i, 0 ≤ i < 256 → ∃ v g, aget vectors i = Ok v ∧ aget (idt k') i = Ok g ∧
      gate_offset g = v ∧ gd_ss g = KERNEL_CS ∧ gd_type g = STS_IG32 ∧ gd_p g = 1 ∧ (3 ≤ gd_dpl g ↔ i = T_SWITCH_TOK).
Proof.
  intros Hk Hv Hw. destruct (idt_init_entries vectors a k Hk Hv) as (t & E & Hl & Hg).
  exists (lidt (2047, a) (set_idt t k)). split; [done|]. cbn [idt idtr io lidt set_idt]. rewrite Hl. do 3 (split; [done|]).
  intros i Hi. destruct (Hg i Hi) as (v & Hvi & Hgi). eexists v, _. split; [done|]. split; [exact Hgi|].
  assert (0 ≤ v < 2 ^ 32) as Hb by (apply aget_Ok in Hvi as [_ Hvi]; by eapply Forall_lookup_1 in Hw).
  destruct (gate_fields v (if decide (i = T_SWITCH_TOK) then DPL_USER else DPL_KERNEL) Hb) as (H1 & H2 & H3 & H4 & H5);
    [case_decide; unfold DPL_USER, DPL_KERNEL; lia|].
  rewrite H4. split_and!; try done; case_decide; done.
Qed.

(** Dispatch: a trap that the kernel knows, and every trap of user code,
    returns.  The frame comes back unchanged but for the two switches, which
    load the segments of the other mode and allow input and output to user code;
    a character of the serial port or the keyboard is taken from the queue of
    the console and printed; the clock counts.  Every other trap of the kernel
    itself ends in a panic with interrupts off and never returns. *)
Theorem trap_dispatches {D} `{InputLaws D} lits xt stabs tx fnname ebp eip fuel a m t q s ticks_msg serial_msg kbd_msg tf (k : kernel D) :
  running fuel m t q s k → texts_ready lits xt m ticks_msg serial_msg kbd_msg →
  (known (tf_trapno tf) ∨ Z.land (tf_cs tf) 3 ≠ 0 →
    ∃ k', trap lits xt stabs tx fnname ebp eip fuel a tf k = Ok (Returned (switched tf) k') ∧
      running fuel m (term_text (shown_by ticks_msg serial_msg kbd_msg (tf_trapno tf) (ticks k) q) t)
        (input_after (tf_trapno tf) q) s k' ∧
      same_tables k k' ∧ ticks k' = ticks_after (tf_trapno tf) (ticks k)) ∧
  (¬ known (tf_trapno tf) → Z.land (tf_cs tf) 3 = 0 → ∀ r,
    trap lits xt stabs tx fnname ebp eip fuel a tf k = Ok r →
    ∃ k', r = Panicked k' ∧ is_panic k' = true ∧ intr_flag (io k').2 = false).
Proof.
  intros Hr Hx. split; [by apply trap_handled|]. intros Hn Hcs r. by apply trap_unknown.
Qed.

(** [C37] The clock: whatever number of timer interrupts comes, after [v] earlier
    ones, the message of [print_ticks] has been printed exactly once for every
    hundredth of them, and [ticks] counts those since the last message. *)
Theorem timer_prints_hundredth {D} `{InputLaws D} lits xt stabs tx fnname ebp eip fuel m t q s (k : kernel D) msg l :
  running fuel m t q s k → text lits m (fmt_ticks xt) [TICK_NUM] = Ok msg → Forall (λ x, tf_trapno x.2 = 32) l →
  ∃ k', deliver lits xt stabs tx fnname ebp eip fuel l k = Ok k' ∧
    shows (io k').2 (term_text (concat (replicate (Z.to_nat ((ticks k + zlen l) / TICK_NUM)) msg)) t) ∧
    ticks k' = (ticks k + zlen l) mod TICK_NUM ∧ avail fuel q s (io k').2 ∧ same_tables k k'.
Proof.
  intros Hr Hmsg Hl. destruct (deliver_timer lits xt stabs tx fnname ebp eip fuel m t q s k msg l Hr Hmsg Hl) as (k' & E & (? & ? & ? & ?) & ? & ?).
  exists k'. by split_and!.
Qed.

(** ** At concrete inputs *)

Definition trap_texts_w : trap_texts :=
  TrapTexts 500 0 [] 0 0 [] 0 0 0 0 0 0 0 0 0 0 0 0 0 0 0 0 0 0 0 0 0 0 520 550 0 0 0 0 0 0 0.

(** "%d ticks\n", "serial [%03d] %c\n" and "kbd [%03d] %c\n" *)
Definition trap_mem_w : mem :=
  put (put (put ∅ 500 [37; 100; 32; 116; 105; 99; 107; 115; 10; 0])
    520 [115; 101; 114; 105; 97; 108; 32; 91; 37; 48; 51; 100; 93; 32; 37; 99; 10; 0])
    550 [107; 98; 100; 32; 91; 37; 48; 51; 100; 93; 32; 37; 99; 10; 0].

Definition message_w (fmt c : Z) : list Z :=
  match text lits_w trap_mem_w fmt [u32 c; u32 c] with Ok l => l | Err _ => [] end.

(** "100 ticks\n" *)
Definition ticks_w : list Z := [49; 48; 48; 32; 116; 105; 99; 107; 115; 10].

Lemma message_ok fmt :
  forallb (λ c, match text lits_w trap_mem_w fmt [u32 c; u32 c] with Ok _ => true | Err _ => false end) (seqZ (-128) 256) = true →
  ∀ c, -128 ≤ c < 128 → text lits_w trap_mem_w fmt [u32 c; u32 c] = Ok (message_w fmt c).
Proof.
  intros Hb c Hc. apply Is_true_true_2, forallb_True in Hb. rewrite Forall_forall in Hb.
  specialize (Hb c ltac:(apply elem_of_seqZ; lia)). cbn beta in Hb. unfold message_w. by destruct (text _ _ _ _).
Qed.

Lemma texts_ready_w : texts_ready lits_w trap_texts_w trap_mem_w ticks_w (message_w 520) (message_w 550).
Proof.
  split; [by vm_compute| |]; apply message_ok; by vm_compute.
Qed.

(** The key "a" has been pressed and released. *)
Definition kernel_w (v : Z) : kernel devices :=
  Kernel (replicate 256 (SETGATE false 0 0 0)) (0, 0) v false (trap_mem_w, console_w [0x1E; 0x9E] []).

Lemma running_w v : 0 ≤ v < TICK_NUM → running 10 trap_mem_w blank_term [97] 0 (kernel_w v).
Proof.
  intros Hv. split; [done|]. split; [apply blank_shows|]. split; [|done].
  split; [apply console_w_ring|]. split; [cbn; lia|]. exists [97; 0]. split_and!; [by vm_compute|cbn; lia|by vm_compute].
Qed.

Definition frame_w (n cs : Z) : trapframe := Trapframe (Regs 0 0 0 0 0 0 0 0) 0 0 16 16 n 0 4096 cs 0x202 0 0.

Lemma idt_init_gates_witness :
  ∃ k', idt_init (replicate 256 0xC0101234) 0xC0117000 (kernel_w 0) = Ok k' ∧
    (λ g, (gate_offset g, gd_dpl g)) <$> aget (idt k') 121 = Ok (0xC0101234, 3) ∧
    ∃ v g, aget (idt k') 120 = Ok g ∧ aget (replicate 256 0xC0101234) 120 = Ok v ∧ gate_offset g = v ∧ ¬ 3 ≤ gd_dpl g.
Proof.
  destruct (idt_init_gates (replicate 256 0xC0101234) 0xC0117000 (kernel_w 0)) as (k' & E & _ & _ & _ & Hg);
    [done|done|by apply Forall_replicate|]. exists k'. split; [exact E|]. split.
  - vm_compute in E. injection E as <-. by vm_compute.
  - destruct (Hg 120 ltac:(lia)) as (v & g & Hv & Hgi & Ho & _ & _ & _ & Hd). exists v, g. split; [exact Hgi|]. split; [exact Hv|].
    split; [exact Ho|]. intros Hdd%Hd. unfold T_SWITCH_TOK in Hdd. lia.
Defined.

(** The interrupt of the keyboard prints "kbd [097] a"; the switch to user mode
    changes the segments. *)
Lemma trap_dispatches_witness :
  (∃ k', trap lits_w trap_texts_w [] (Texts 0 0 0 0 0 0 0 0 0 0 0 0 0 0) 0 0 0 10 0 (frame_w 33 8) (kernel_w 0) = Ok (Returned (frame_w 33 8) k') ∧
    shows (io k').2 (term_text [107; 98; 100; 32; 91; 48; 57; 55; 93; 32; 97; 10] blank_term)) ∧
  ∃ k', trap lits_w trap_texts_w [] (Texts 0 0 0 0 0 0 0 0 0 0 0 0 0 0) 0 0 0 10 0 (frame_w 120 8) (kernel_w 0) =
    Ok (Returned (Trapframe (Regs 0 0 0 0 0 0 0 0) 0 0 0x23 0x23 120 0 4096 0x1B 0x3202 0 0x23) k').
Proof.
  split.
  - destruct (trap_dispatches lits_w trap_texts_w [] (Texts 0 0 0 0 0 0 0 0 0 0 0 0 0 0) 0 0 0 10 0 trap_mem_w blank_term [97] 0 ticks_w
      (message_w 520) (message_w 550) (frame_w 33 8) (kernel_w 0) (running_w 0 ltac:(unfold TICK_NUM; lia)) texts_ready_w) as [P _].
    destruct P as (k' & E & (_ & Hs & _) & _); [left; by apply (bool_decide_eq_true_1 (known 33))|].
    exists k'. split; [exact E|exact Hs].
  - destruct (trap_dispatches lits_w trap_texts_w [] (Texts 0 0 0 0 0 0 0 0 0 0 0 0 0 0) 0 0 0 10 0 trap_mem_w blank_term [97] 0 ticks_w
      (message_w 520) (message_w 550) (frame_w 120 8) (kernel_w 0) (running_w 0 ltac:(unfold TICK_NUM; lia)) texts_ready_w) as [P _].
    destruct P as (k' & E & _); [left; by apply (bool_decide_eq_true_1 (known 120))|]. exists k'. exact E.
Defined.

Lemma timer_prints_hundredth_witness :
  ∃ k', deliver lits_w trap_texts_w [] (Texts 0 0 0 0 0 0 0 0 0 0 0 0 0 0) 0 0 0 10 (replicate 103 (0, frame_w 32 8)) (kernel_w 98) = Ok k' ∧
    ticks k' = 1 ∧ shows (io k').2 (term_text (ticks_w ++ ticks_w) blank_term).
Proof.
  destruct (timer_prints_hundredth lits_w trap_texts_w [] (Texts 0 0 0 0 0 0 0 0 0 0 0 0 0 0) 0 0 0 10 trap_mem_w blank_term [97] 0
    (kernel_w 98) ticks_w (replicate 103 (0, frame_w 32 8)) (running_w 98 ltac:(unfold TICK_NUM; lia)) ltac:(by vm_compute))
    as (k' & E & Hs & Ht & _); [by apply Forall_replicate|]. exists k'. split; [exact E|]. split; [exact Ht|exact Hs].
Defined.
