(* ===== verification/ShmThreads.v ===== *)
(** * Labweek14 shmread.c, shmwrite.c: threads that pass messages

    Models src/Labweek14/shmread.c, shmwrite.c, shmdata.h and the start value in
    shmcon.c: two processes of [num] threads each; a thread takes the lock of its
    process (Peterson's algorithm as in alg.15-1-peterson-counter.c, but the
    threads are numbered from 1), and in it waits for the flag [written] of the
    shared memory, then reads or writes the one message.  Each access to
    [level], [waiting], [counter] and [written] is a step of its own.  A message
    is the identifier of the thread that is printed into it. *)

From stdpp Require Import base list numbers relations.
From S2P Require Import Prelude Interleave.

Definition THREAD_NUM : Z := 10.
Definition MAX_N : Z := 1024.

Inductive event :=
| Reads (message thread_num tid : Z)
| Writes (thread_num tid : Z)
| Too_many.

#[global] Instance event_eq_dec : EqDecision event.
Proof. solve_decision. Defined.

(** The static variables of a process; [killed]: it has received SIGKILL. *)
Record process := Process {
  counter : Z;
  level : list Z;
  waiting : list Z;
  killed : bool
}.

Definition set_counter (v : Z) (s : process) : process := Process v (level s) (waiting s) (killed s).
Definition set_level (n v : Z) (s : process) : outcome process :=
  a ← aset (level s) n v; Ok (Process (counter s) a (waiting s) (killed s)).
Definition set_waiting (l v : Z) (s : process) : outcome process :=
  a ← aset (waiting s) l v; Ok (Process (counter s) (level s) a (killed s)).
Definition kill (s : process) : process := Process (counter s) (level s) (waiting s) true.

(** Both processes, [struct shared_struct] ([written], [mtext]), the output. *)
Record system := System {
  readers : process;
  writers : process;
  written : Z;
  mtext : Z;
  printed : list event
}.

Definition proc (reader : bool) (s : system) : process := if reader then readers s else writers s.
Definition set_proc (reader : bool) (p : process) (s : system) : system :=
  if reader then System p (writers s) (written s) (mtext s) (printed s)
  else System (readers s) p (written s) (mtext s) (printed s).
Definition set_written (v : Z) (s : system) : system := System (readers s) (writers s) v (mtext s) (printed s).
Definition set_mtext (v : Z) (s : system) : system := System (readers s) (writers s) (written s) v (printed s).
Definition print (e : event) (s : system) : system := System (readers s) (writers s) (written s) (mtext s) (printed s ++ [e]).

Inductive pc :=
| SetLevel (lev : Z)
| SetWaiting (lev : Z)
| TestWaiting (lev : Z)
| ReadLevel (lev k : Z)
| ReadWaiting (lev k : Z)
| LoadInc
| StoreInc (v : Z)
| TestCounter
| LoadDec
| StoreDec (v : Z)
| WaitWritten            (* while (shared->written == 0), or == 1 *)
| UseText                (* printf of the text, or printf and strncpy *)
| SetWritten
| ResetLevel
| Done.

#[global] Instance pc_eq_dec : EqDecision pc.
Proof. solve_decision. Defined.

(** [memset(a, (-1), sizeof(a))] of an array of [len] ints. *)
Definition memset_ints (len : Z) : list Z := replicate (Z.to_nat len) (-1).

Section ftn.
(** [read_thread_num] and [write_thread_num], which are the same. *)
Variable num : Z.

Definition next_level (lev : Z) : pc := if lev <? num - 1 then SetLevel lev else LoadInc.

(** A step in the variables of the process alone. *)
Definition lock_step (thread_num : Z) (p : pc) (s : process) : option (outcome (pc * process)) :=
  match p with
  | SetLevel lev => Some (s ← set_level thread_num lev s; Ok (SetWaiting lev, s))
  | SetWaiting lev => Some (s ← set_waiting lev thread_num s; Ok (TestWaiting lev, s))
  | TestWaiting lev =>
      Some (w ← aget (waiting s) lev;
            Ok (if (w =? thread_num) && (0 <? num) then ReadLevel lev 0 else next_level (lev + 1), s))
  | ReadLevel lev k =>
      Some (l ← aget (level s) k;
            Ok (if (lev <=? l) && negb (k =? thread_num) then TestWaiting lev else ReadWaiting lev k, s))
  | ReadWaiting lev k =>
      Some (w ← aget (waiting s) lev;
            Ok (if negb (w =? thread_num) then TestWaiting lev
                else if k + 1 <? num then ReadLevel lev (k + 1) else next_level (lev + 1), s))
  | LoadInc => Some (Ok (StoreInc (counter s), s))
  | StoreInc v => Some (v ← cint (v + 1); Ok (TestCounter, set_counter v s))
  | LoadDec => Some (Ok (StoreDec (counter s), s))
  | StoreDec v => Some (v ← cint (v - 1); Ok (WaitWritten, set_counter v s))
  | ResetLevel => Some (s ← set_level thread_num (-1) s; Ok (Done, s))
  | _ => None
  end.

(** One step of [ftn] of shmread.c or shmwrite.c. *)
Definition ftn (reader : bool) (thread_num tid : Z) (p : pc) (s : system) : option (outcome (pc * system)) :=
  if killed (proc reader s) then None
  else
    match p with
    | TestCounter =>
        Some (Ok (LoadDec,
          if 1 <? counter (proc reader s) then set_proc reader (kill (proc reader s)) (print Too_many s) else s))
    | WaitWritten =>
        Some (Ok (if written s =? (if reader then 0 else 1) then WaitWritten else UseText, s))
    | UseText =>
        Some (Ok (SetWritten,
          if reader then print (Reads (mtext s) thread_num tid) s
          else set_mtext tid (print (Writes thread_num tid) s)))
    | SetWritten => Some (Ok (ResetLevel, set_written (if reader then 0 else 1) s))
    | Done => None
    | _ =>
        match lock_step thread_num p (proc reader s) with
        | Some r => Some (r ← r; Ok (r.1, set_proc reader r.2 s))
        | None => None
        end
    end.

(** The first [num] threads are the readers, the others the writers; in each
    process they are numbered from 1. *)
Definition shm_step (i : Z) (p : pc) (s : system) : option (outcome (pc * system)) :=
  if i <? num then ftn true (i + 1) i p s else ftn false (i - num + 1) i p s.

Definition new_process : process := Process 0 (memset_ints MAX_N) (memset_ints (MAX_N - 1)) false.

(** All threads created; [old] is what the shared memory held as a message. *)
Definition shm_start (old : Z) : conf pc system :=
  Conf (replicate (Z.to_nat (2 * num)) (next_level 0)) (System new_process new_process 0 old []).
End ftn.
