(* ===== verification/ShmThreadsProps.v ===== *)
(** * The lock of the message threads does not exclude

    Properties of ShmThreads.v: a thread looks at the levels of the threads
    [0 .. num - 1], but the threads are [1 .. num], so nobody sees the last one.
    For every number of threads both processes can come to the point where they
    kill themselves, and a message can be lost, after which a reader waits for
    ever. *)

From stdpp Require Import base list numbers relations.
From S2P Require Import Prelude Interleave ShmThreads.

Section alone.
Context (num : Z) (Hnum : 2 ≤ num < MAX_N).

(** The thread [t] sees no other thread. *)
Record alone (t : Z) (s : process) : Prop := {
  a_level : zlen (level s) = MAX_N;
  a_waiting : zlen (waiting s) = MAX_N - 1;
  a_alive : killed s = false;
  a_others : ∀ k, 0 ≤ k < num → k ≠ t → aget (level s) k = Ok (-1)
}.

(** Steps of the thread [t] in the variables of its process. *)
Definition lsolo (t : Z) (x y : pc * process) : Prop := lock_step num t x.1 x.2 = Some (Ok y).

(** What a thread leaves as it is. *)
Definition untouched (t : Z) (s s' : process) : Prop :=
  counter s' = counter s ∧ ∀ k, 0 ≤ k → k ≠ t → aget (level s') k = aget (level s) k.

#[local] Instance untouched_preorder t : PreOrder (untouched t).
Proof. split; [done|]. intros s1 s2 s3 [? H1] [? H2]. split; [congruence|]. intros k Hk Hkt. by rewrite H2, H1. Qed.

Lemma scan t lev s n : ∀ k, alone t s → 0 ≤ lev < num - 1 → aget (waiting s) lev = Ok t → 0 ≤ k < num → num - k = Z.of_nat n →
  rtc (lsolo t) (ReadLevel lev k, s) (next_level num (lev + 1), s).
Proof.
  induction n as [|n IH]; intros k Ha Hlev Hw Hk Hn; [lia|].
  assert (lsolo t (ReadLevel lev k, s) (ReadWaiting lev k, s)) as H1.
  { unfold lsolo. cbn [fst snd lock_step]. destruct (aget_in_range (level s) k) as (l & Hl & _); [rewrite (a_level _ _ Ha); lia|].
    rewrite Hl. cbn [mbind outcome_bind]. destruct (Z.eqb_spec k t) as [->|Hkt]; [by rewrite andb_false_r|].
    rewrite (a_others _ _ Ha k Hk Hkt) in Hl. injection Hl as <-. by rewrite (proj2 (Z.leb_gt lev (-1))) by lia. }
  assert (lsolo t (ReadWaiting lev k, s) (if k + 1 <? num then ReadLevel lev (k + 1) else next_level num (lev + 1), s)) as H2.
  { unfold lsolo. cbn [fst snd lock_step]. rewrite Hw. cbn [mbind outcome_bind]. by rewrite Z.eqb_refl. }
  eapply rtc_l; [exact H1|]. eapply rtc_l; [exact H2|]. destruct (Z.ltb_spec (k + 1) num); [|done]. apply IH; (done || lia).
Qed.

Lemma pass_level t lev s : alone t s → 1 ≤ t ≤ num → 0 ≤ lev < num - 1 →
  ∃ s', rtc (lsolo t) (next_level num lev, s) (next_level num (lev + 1), s') ∧ alone t s' ∧ untouched t s s'.
Proof.
  intros Ha Ht Hlev. pose proof (a_level _ _ Ha) as Hl. pose proof (a_waiting _ _ Ha) as Hw. unfold MAX_N in *.
  set (s1 := Process (counter s) (<[Z.to_nat t := lev]> (level s)) (waiting s) (killed s)).
  set (s2 := Process (counter s) (level s1) (<[Z.to_nat lev := t]> (waiting s)) (killed s)).
  assert (alone t s2) as Ha2.
  { split; cbn [s2 s1 level waiting killed]; rewrite ?zlen_insert; [done|done|apply Ha|].
    intros k Hk Hkt. rewrite aget_insert_ne by lia. by apply Ha. }
  exists s2. split; [|split; [done|split; [done|]]].
  - unfold next_level at 1. rewrite (proj2 (Z.ltb_lt lev (num - 1))) by lia.
    eapply (rtc_l _ _ (SetWaiting lev, s1)); [unfold lsolo; cbn; unfold set_level; by rewrite aset_Ok by lia|].
    eapply (rtc_l _ _ (TestWaiting lev, s2)); [unfold lsolo; cbn; unfold set_waiting; cbn [waiting s1]; by rewrite aset_Ok by lia|].
    assert (aget (waiting s2) lev = Ok t) as Hwt by (cbn [waiting s2]; apply aget_insert_eq; lia).
    eapply (rtc_l _ _ (ReadLevel lev 0, s2)).
    { unfold lsolo. cbn [fst snd lock_step]. rewrite Hwt. cbn [mbind outcome_bind]. rewrite Z.eqb_refl. by rewrite (proj2 (Z.ltb_lt 0 num)) by lia. }
    apply (scan t lev s2 (Z.to_nat num)); (done || lia).
  - intros k Hk Hkt. cbn [s2 s1 level]. by rewrite aget_insert_ne by lia.
Qed.

(** The thread comes through all levels. *)
Lemma pass_all t s : alone t s → 1 ≤ t ≤ num →
  ∃ s', rtc (lsolo t) (next_level num 0, s) (LoadInc, s') ∧ alone t s' ∧ untouched t s s'.
Proof.
  intros Ha Ht. assert (∀ lev, 0 ≤ lev → lev ≤ num - 1 →
    ∃ s', rtc (lsolo t) (next_level num 0, s) (next_level num lev, s') ∧ alone t s' ∧ untouched t s s') as Hp.
  { intros lev Hlev. pattern lev. apply natlike_ind; [by exists s| |done]. intros x Hx IH Hle.
    destruct IH as (s1 & Hr1 & Ha1 & Hu1); [lia|]. destruct (pass_level t x s1 Ha1 Ht ltac:(lia)) as (s2 & Hr2 & Ha2 & Hu2).
    exists s2. split; [by etrans|]. split; [done|]. by etrans. }
  destruct (Hp (num - 1)) as (s' & Hr & H); [lia..|]. exists s'. split; [|done].
  unfold next_level at 2 in Hr. by rewrite Z.ltb_irrefl in Hr.
Qed.

(** ** In the whole system *)

Context (reader : bool).

(** The place of thread [t] of the process among all threads. *)
Definition place (t : Z) : nat := Z.to_nat (if reader then t - 1 else num + t - 1).

Lemma place_step t p s : 1 ≤ t ≤ num → shm_step num (Z.of_nat (place t)) p s = ftn num reader t (Z.of_nat (place t)) p s.
Proof.
  intros Ht. unfold shm_step, place. destruct reader.
  - rewrite Z2Nat.id by lia. rewrite (proj2 (Z.ltb_lt _ _)) by lia. by replace (t - 1 + 1) with t by lia.
  - rewrite Z2Nat.id by lia. rewrite (proj2 (Z.ltb_ge _ _)) by lia. by replace (num + t - 1 - num + 1) with t by lia.
Qed.

Lemma proc_set p s : proc reader (set_proc reader p s) = p.
Proof. by destruct reader. Qed.

Lemma set_set p q s : set_proc reader p (set_proc reader q s) = set_proc reader p s.
Proof. by destruct reader. Qed.

Lemma set_proc_id s : set_proc reader (proc reader s) s = s.
Proof. destruct s. by destruct reader. Qed.

(** A thread that has not been killed takes the steps of its process. *)
Lemma lift_solo t p s p' ps' : 1 ≤ t ≤ num → killed (proc reader s) = false → lsolo t (p, proc reader s) (p', ps') →
  solo (shm_step num) (place t) (p, s) (p', set_proc reader ps' s).
Proof.
  intros Ht Hk Hs. unfold solo, lsolo in *. cbn [fst snd] in *. rewrite place_step by done. unfold ftn. rewrite Hk.
  destruct p; try done; by rewrite Hs.
Qed.

Lemma lock_killed t p s p' s' : lock_step num t p s = Some (Ok (p', s')) → killed s' = killed s.
Proof.
  intros Hs. assert (∀ (m : outcome (pc * process)), Some m = Some (Ok (p', s')) → m = Ok (p', s')) as Hi by (by intros m [= ->]).
  destruct p; try done; cbn [lock_step] in Hs; apply Hi in Hs; try (by injection Hs as <- <-);
    apply bind_Ok in Hs as (x & Hx & Hs); injection Hs as <- <-; try done;
    unfold set_level, set_waiting in Hx; by apply bind_Ok in Hx as (a & _ & [= <-]).
Qed.

Lemma lift_solo_store t ps s : 1 ≤ t ≤ num → killed ps = false → int_min ≤ counter ps < int_max →
  solo (shm_step num) (place t) (StoreInc (counter ps), set_proc reader ps s)
    (TestCounter, set_proc reader (set_counter (counter ps + 1) ps) s).
Proof.
  intros Ht Hk Hc. rewrite <-(set_set (set_counter (counter ps + 1) ps) ps s).
  apply lift_solo; [done|by rewrite proc_set|]. rewrite proc_set. unfold lsolo. cbn [fst snd lock_step].
  rewrite cint_Ok by (unfold int_min, int_max in *; lia). done.
Qed.

Lemma lift_runs t x y : rtc (lsolo t) x y → 1 ≤ t ≤ num → ∀ s, proc reader s = x.2 → killed x.2 = false →
  rtc (solo (shm_step num) (place t)) (x.1, s) (y.1, set_proc reader y.2 s).
Proof.
  intros Hr Ht. induction Hr as [x|[p ps] [p1 ps1] y H1 _ IH]; intros s Hs Hk; cbn [fst snd] in *.
  - subst. by rewrite <-Hs, set_proc_id.
  - subst. eapply rtc_l; [by apply (lift_solo t p s p1 ps1)|].
    rewrite <-(set_set y.2 ps1 s). apply IH; [apply proc_set|]. by rewrite (lock_killed t p (proc reader s) p1 ps1).
Qed.

(** The thread takes the lock and counts itself. *)
Lemma enter_alone t s : 1 ≤ t ≤ num → alone t (proc reader s) → int_min ≤ counter (proc reader s) < int_max →
  ∃ s', rtc (solo (shm_step num) (place t)) (next_level num 0, s) (TestCounter, s') ∧
    alone t (proc reader s') ∧ counter (proc reader s') = counter (proc reader s) + 1 ∧
    ∀ k, 0 ≤ k → k ≠ t → aget (level (proc reader s')) k = aget (level (proc reader s)) k.
Proof.
  intros Ht Ha Hc. destruct (pass_all t _ Ha Ht) as (ps & Hr & Ha' & Hc' & Hl).
  exists (set_proc reader (set_counter (counter (proc reader s) + 1) ps) s). rewrite proc_set.
  split; [|split; [split; apply Ha'|by split]].
  etrans; [exact (lift_runs t _ _ Hr Ht s eq_refl (a_alive _ _ Ha))|]. cbn [fst snd].
  eapply rtc_l; [apply (lift_solo t LoadInc _ (StoreInc (counter ps)) ps Ht)|]; rewrite ?proc_set; [apply Ha'|done|].
  rewrite set_set, <-Hc'. apply rtc_once, lift_solo_store; [done|apply Ha'|]. by rewrite Hc'.
Qed.

Lemma new_alone t : alone t new_process.
Proof.
  unfold new_process, memset_ints. split; cbn [level waiting killed]; [..|done|].
  - unfold zlen. rewrite length_replicate. unfold MAX_N. lia.
  - unfold zlen. rewrite length_replicate. unfold MAX_N. lia.
  - intros k Hk _. apply aget_lookup; [lia|]. apply lookup_replicate_2. lia.
Qed.

Lemma start_thread old t : 1 ≤ t ≤ num → threads (shm_start num old) !! place t = Some (next_level num 0).
Proof. intros Ht. cbn [threads shm_start]. apply lookup_replicate_2. unfold place. destruct reader; lia. Qed.

Lemma place_inj t u : 1 ≤ t ≤ num → 1 ≤ u ≤ num → place t = place u → t = u.
Proof. unfold place. intros Ht Hu E. destruct reader; lia. Qed.

(** First the last thread, which nobody sees, then thread 1. *)
Lemma both_enter old :
  ∃ c, rtc (runs_step (shm_step num)) (shm_start num old) c ∧
    threads c !! place 1 = Some TestCounter ∧ threads c !! place num = Some TestCounter ∧
    counter (proc reader (shared c)) = 2 ∧ killed (proc reader (shared c)) = false.
Proof.
  set (s0 := shared (shm_start num old)). assert (proc reader s0 = new_process) as E0 by (by destruct reader).
  destruct (enter_alone num s0) as (s1 & Hr1 & Ha1 & Hc1 & Hl1); [lia|rewrite E0; apply new_alone|by rewrite E0|].
  assert (alone 1 (proc reader s1)) as Ha.
  { split; try apply Ha1. intros k Hk Hk1. rewrite Hl1 by lia. rewrite E0. by apply (new_alone 1). }
  rewrite E0 in Hc1. cbn in Hc1.
  destruct (enter_alone 1 s1) as (s2 & Hr2 & Ha2 & Hc2 & _); [lia|done|rewrite Hc1; done|]. rewrite Hc1 in Hc2.
  set (ts := threads (shm_start num old)).
  pose proof (start_thread old num ltac:(lia)) as Hn. pose proof (start_thread old 1 ltac:(lia)) as H1. fold ts in Hn, H1.
  assert (place 1 ≠ place num) as Hne by (intros E%place_inj; lia).
  pose proof (solo_runs (shm_step num) (place num) _ _ Hr1 ts Hn) as R1. cbn [fst snd] in R1.
  pose proof (solo_runs (shm_step num) (place 1) _ _ Hr2 (<[place num := TestCounter]> ts)) as R2. cbn [fst snd] in R2.
  exists (Conf (<[place 1 := TestCounter]> (<[place num := TestCounter]> ts)) s2). split; [|cbn [threads shared]; split_and!].
  - etrans; [exact R1|]. apply R2. by rewrite list_lookup_insert_ne.
  - apply list_lookup_insert_eq. rewrite length_insert. by eapply lookup_lt_Some.
  - rewrite list_lookup_insert_ne by done. apply list_lookup_insert_eq. by eapply lookup_lt_Some.
  - done.
  - apply Ha2.
Qed.

(** The next of the two kills the process. *)
Lemma counter_kills c : threads c !! place 1 = Some TestCounter → counter (proc reader (shared c)) = 2 → killed (proc reader (shared c)) = false →
  ∃ c', runs_step (shm_step num) c c' ∧ killed (proc reader (shared c')) = true.
Proof.
  intros H1 Hc Hk. eexists. split.
  - apply (do_step _ c (place 1) TestCounter LoadDec (set_proc reader (kill (proc reader (shared c))) (print Too_many (shared c)))); [done|].
    rewrite place_step by lia. unfold ftn. rewrite Hk, Hc. done.
  - cbn [shared]. by rewrite proc_set.
Qed.
End alone.

(** ** What the programs do *)

(** [C38] The lock does not exclude: for every number of threads from 2 on that
    the arrays admit, and in the process of the readers as in that of the
    writers, two threads (the first and the last) can be between the lock and
    its release at the same time, and the next one to test [counter] kills the
    process.  Alone the last thread is to blame: no other thread ever reads its
    level. *)
Theorem shm_lock_fails num old reader :
  2 ≤ num < MAX_N →
  ∃ c c', rtc (runs_step (shm_step num)) (shm_start num old) c ∧
    threads c !! place num reader 1 = Some TestCounter ∧ threads c !! place num reader num = Some TestCounter ∧
    counter (proc reader (shared c)) = 2 ∧
    runs_step (shm_step num) c c' ∧ killed (proc reader (shared c')) = true.
Proof.
  intros Hnum. destruct (both_enter num Hnum reader old) as (c & Hr & H1 & Hn & Hc & Hk).
  destruct (counter_kills num Hnum reader c H1 Hc Hk) as (c' & Hs & Hk'). exists c, c'. by split_and!.
Qed.

(** The number of threads of shmcon.c. *)
Lemma shm_lock_fails_witness :
  ∃ c c', rtc (runs_step (shm_step THREAD_NUM)) (shm_start THREAD_NUM 0) c ∧ runs_step (shm_step THREAD_NUM) c c' ∧
    killed (writers (shared c')) = true.
Proof.
  destruct (shm_lock_fails THREAD_NUM 0 false) as (c & c' & Hr & _ & _ & _ & Hs & Hk); [unfold THREAD_NUM, MAX_N; lia|].
  exists c, c'. split; [exact Hr|]. split; [exact Hs|exact Hk].
Defined.

(** Two threads each: both writers pass the lock without meeting at [counter],
    find [written] = 0 and write; one message is lost, and when all writers have
    ended, a reader waits for ever. *)
Definition lost_schedule : list nat :=
  replicate 13 3%nat ++ replicate 13 2%nat ++ replicate 3 3%nat ++ replicate 3 2%nat ++
  replicate 16 0%nat ++ replicate 14 1%nat.

Lemma message_lost :
  ∃ c, rtc (runs_step (shm_step 2)) (shm_start 2 0) c ∧ threads c = [Done; WaitWritten; Done; Done] ∧
    printed (shared c) = [Writes 2 3; Writes 1 2; Reads 2 1 0] ∧ ∀ c', runs_step (shm_step 2) c c' → c' = c.
Proof.
  assert (∃ c, exec (shm_step 2) lost_schedule (shm_start 2 0) = Ok c) as [c Hc] by (eexists; by vm_compute).
  exists c. split; [exact (exec_runs _ _ _ _ Hc)|].
  assert (threads c = [Done; WaitWritten; Done; Done] ∧ printed (shared c) = [Writes 2 3; Writes 1 2; Reads 2 1 0] ∧ written (shared c) = 0 ∧
    killed (readers (shared c)) = false ∧ killed (writers (shared c)) = false) as (E & Ep & Ew & Hk & Hk').
  { vm_compute in Hc. injection Hc as <-. by split_and!. }
  split; [done|]. split; [done|]. clear Hc. intros c' Hs. destruct Hs as [i t t' s' Ht Hs]. destruct c as [ts s]. cbn in *. subst ts.
  destruct i as [|[|[|[|i]]]]; cbn in Ht; try done; injection Ht as <-;
    unfold shm_step, ftn in Hs; cbn in Hs; rewrite ?Hk, ?Hk', ?Ew in Hs; try done. by injection Hs as <- <-.
Qed.

(** With all the 1024 threads that the arrays are made for, the last one writes
    behind [level]. *)
Lemma last_thread_overflows s : zlen (level s) = MAX_N → set_level MAX_N 0 s = Err Undef.
Proof. intros Hl. unfold set_level, aset. rewrite decide_False; [done|]. unfold zlen in Hl. lia. Qed.
